(* ===== verification/_CoqProject ===== *)
-Q . S2P
Prelude.v
Common.v
Rlp.v
Types.v
EthTx.v
VmBase.v
Precompiles.v
Vm.v
VmProofs.v
VmProps.v
VmSim.v
State.v
StateProofs.v
StateInv.v
Transition.v
TransitionProofs.v
BlockProofs.v
StateSim.v
TxProps.v
StateRoot.v
BlockProps.v
Pow.v
Genesis.v
Json.v
Net.v
Contracts.v
Erc20.v
ContractInv.v
Erc20Props.v
Peg.v
JsonCodec.v
Store.v
Schema.v
JsonWide.v
SchemaProofs.v
Wire.v
Producer.v
Mempool.v
MempoolProofs.v
Blockchain.v
ChainInv.v
ChainMove.v
ChainStep.v
ChainProofs.v
ChainInsert.v
ChainOpen.v
ChainProps.v
ChainExtend.v
Scorer.v
P2p.v
P2pProofs.v
Mining.v
Gossip.v
GossipProofs.v
GossipProps.v
MiningProps.v
Pool.v
PoolHttp.v
PoolProofs.v
PoolProps.v
TxGossip.v
TxGossipProps.v
Sync.v
SyncProps.v
Rpc.v
RpcApi.v
RpcGate.v
Faucet.v
NodeHttp.v
RpcServe.v
RpcTable.v
RpcLogs.v
RpcProps.v
RpcClient.v
RpcGateProps.v
FaucetProps.v
Pegwatch.v
PegProps.v
