(* ===== verification/Prelude.v ===== *)
(** * LXS: a verification development

    LXS (src/) is a proof-of-work blockchain node in Go whose blocks run an
    Ethereum-style virtual machine.  This library is a shallow embedding of the
    node, from its encodings to its network protocols and its RPC server, and of
    the token and peg contracts that come with it, with the theorems that make
    them correct.

    ** The program

    - [common], [rlp], [crypto], [types]: hashes, addresses, the canonical
      binary encoder, RLP, secp256k1 signatures, transactions (native and
      Ethereum legacy), headers, blocks, receipts, Merkle roots.
    - [vm]: the interpreter, its gas rules, calls and creations, the
      precompiled contracts; it reaches accounts through the [StateDB] interface.
    - [state]: the accounts, the undo journal with savepoints, the state root,
      issuance, and the transition: [ApplyTx], [ApplyBlock], [EstimateGas].
    - [store], [core]: the key-value store; genesis, proof of work, difficulty,
      fork choice; the block tree on disk, reorganisations, resumption; the
      block producer.
    - [mempool]: pending transactions, offered to the producer.
    - [p2p]: block gossip, transaction gossip and headers-first sync over one
      chain, one pool and one peer scorer.
    - [pool]: a mining pool with its ledger, over HTTP.
    - [rpc], [node]: the JSON-RPC server and client, the middlewares in front of
      it, the faucet, the mining loop, and the port that mounts them.
    - [contracts], [cmd/pegwatch]: a hand-assembled ERC-20, ABI encoders, the peg
      contracts in Solidity and the daemon that relays between two chains.

    ** Files: values, encodings, execution

    - [Prelude]: Go's values.  A [uint64] is a [Z] with [u64] written at each
      operation that can wrap, an [int64] a [Z] with [i64]; [big.Int] is [Z]; a
      slice is a list, a slice expression [slice] (an option: Go panics outside
      the bounds); [[n]byte] is [array n]; a pointer that may be nil is an
      option; a map is a [gmap].  A call ends in [Ok], [Err e] or [Panic], composed
      with [let?].
    - [Common]: src/common; the class [Crypto] (Keccak and the curve library).
    - [Rlp]: src/rlp/rlp.go and the second encoder, src/state/rlp.go.
    - [Types]: src/types/tx.go, block.go, merkle.go, receipt.go and
      src/crypto/keys.go.  [EthTx]: src/types/eth.go.
    - [VmBase]: src/vm/memory.go, stack.go, words and gas constants, jump
      destinations.  [Precompiles]: src/vm/precompiles.go, modexp.go, bn256.go,
      ripemd160.go.  [Vm]: src/vm/exec.go, call.go, interpreter.go, statedb.go: a
      state monad [M] over the interpreter record and the world, the class
      [StateDB] with the operations the interpreter calls.
    - [VmProofs]: the laws [StateDBLaws] that a world promises to the
      interpreter, the effect relation [Trans] (what a run may do to the world), a
      weakest-precondition calculus with one lemma per primitive and opcode
      group, and the induction over gas and call depth.  [VmProps]: theorems on
      its parts.  [VmSim]: worlds that [StateDB] does not tell apart run alike.
    - [State]: src/state/state.go.  [StateProofs]: savepoints; the journal refines
      whole-state copies; [State] discharges [StateDBLaws].  [StateInv]: the supply,
      well-formed accounts, key-controlled accounts, each kept by [Trans].
      [StateSim]: states that execute alike.  [StateRoot]: what the root binds.
    - [Transition]: src/state/transition.go.  [TransitionProofs], [BlockProofs]:
      the specifications of transactions, blocks and issuance that the
      properties share; [TxProps], [BlockProps]: the properties, with witnesses on
      a small concrete chain.

    ** Files: the chain

    - [Pow]: src/core/pow.go and forkchoice.go with their theorems; the contract of
      the [ForkChoice] interface is the class [ForkChoiceLaws].
    - [Genesis]: src/core/genesis.go.
    - [Json], [JsonCodec]: encoding/json: documents, printer, parser, and what it
      does with each Go type (a [codec]).  [JsonWide]: the widths and sizes of what
      decoding and encoding produce.  [Wire], [Net]: the numbers, strings, HTTP
      answers and addresses of the standard library that the services use.
    - [Store]: src/store/store.go (the class [KV] and its laws [KVLaws]) and
      memory.go, which discharges them.  [Schema], [SchemaProofs]: src/core/schema.go,
      and that what it writes reads back.
    - [Producer]: src/core/producer.go as a function of what it reads.
    - [Mempool], [MempoolProofs]: src/mempool.
    - [Blockchain]: src/core/blockchain.go and wiring.go.  [ChainInv] is the
      invariant of store, caches and canonical chain; [ChainMove], [ChainStep],
      [ChainProofs], [ChainInsert], [ChainOpen] show that reorganisations, side
      blocks, pruning, insertion and opening keep it; [ChainProps] has the
      properties over every reachable chain, [ChainExtend] that a good block on
      the head is accepted, and what the readers return.

    ** Files: the node

    - [Scorer]: src/p2p/scorer.go, ratelimit.go, over float64 as IEEE 754 has it.
    - [P2p]: a node as its protocols see it.  A handler is an action on its own
      state and the shared chain, pool and scorer; [meanwhile] is what the other
      goroutines do to the shared part before each access.  [P2pProofs]: Hoare
      triples for such actions.
    - [Gossip], [GossipProofs], [GossipProps]: src/p2p/gossip.go.  [TxGossip],
      [TxGossipProps]: txgossip.go.  [Sync], [SyncProps]: sync.go.
    - [Mining], [MiningProps]: the producer on the live node and the turn of the
      mining loop of src/node/node.go.
    - [Pool], [PoolHttp], [PoolProofs], [PoolProps]: src/pool.
    - [Rpc]: src/rpc/wire.go, server.go, client.go.  [RpcApi]: api.go, eth.go,
      logs.go.  [RpcGate]: ratelimit.go, auth.go, cors.go.  [RpcServe], [RpcTable]:
      every method comes back; [RpcLogs]: what logs and receipts are;
      [RpcProps], [RpcClient], [RpcGateProps]: the properties.
    - [Faucet], [FaucetProps]: src/node/faucet.go.  [NodeHttp]: the handler that
      [New] of src/node/node.go mounts.

    ** Files: contracts

    - [Contracts]: src/contracts/erc20.go (the assembler and the token it
      assembles), abi.go, and the encoders of the other files.
    - [Erc20]: a calculus for runs of given bytecode, and every run of the token
      on [Vm], with its exact gas.  [ContractInv]: a property of one contract's
      storage that its own code keeps is kept by every transaction and block.
      [Erc20Props]: the token's properties.
    - [Peg]: Solidity's checked arithmetic, reverts and events, and the two
      contracts of src/contracts/solidity/Peg.sol with what each call keeps.
    - [Pegwatch]: src/cmd/pegwatch/main.go.  [PegProps]: the two contracts and the
      relayer together.

    ** What the theorems show

    - Money.  A transaction, whatever code it runs, leaves the sum of balances
      plus the burn total unchanged ([TxProps.ApplyTx_conserves]); a block adds
      exactly its reward ([BlockProps.ApplyBlock_sound]); the chain issues
      [CumulativeIssued], never more than 50 million LXS ([BlockProps.chain_supply]);
      [CheckConservation] never fails ([ChainProps.conservation_always]); the pool's
      ledger balances ([PoolProps.ledger_conserved]); the token's supply is
      constant ([Erc20Props.token_supply]); the peg's reserve covers its supply
      ([PegProps.peg_solvent]).
    - Isolation.  A failed transaction leaves only its fee and its nonce; the
      journal restores every savepoint exactly; a static call changes nothing; a
      committed transaction is refused in every later state.
    - Totality.  Transactions, blocks, gas estimation, parsing, the precompiles,
      insertion, the gossip handlers, sync and the RPC server end without a
      run-time panic of their own leaving them, on every input a peer can send.
    - The chain.  What insertion does to the canonical chain
      ([ChainProps.InsertBlock_spec]), that the index is a chain, that the head is
      the heaviest tip and depends only on the blocks held, and that a restart
      finds the same chain ([ChainProps.reopen_roundtrip]).
    - Liveness.  What a node mines, alone or through the pool, becomes its head
      ([MiningProps.mined_block_is_head], [PoolProps.pool_round]).
    - Commitments.  Transaction, header, Merkle, receipt and state hashes bind
      what they are computed from: two values with one digest are equal if Keccak
      tells apart the finitely many byte strings hashed for the two of them
      ([collision_free]) and, for Merkle roots, gives none of them the zero digest
      ([nonzero_digests]), the root of the empty list.
    - What clients are told.  Logs and receipts are those of canonical blocks, a
      transaction sent arrives as it was but for its type, which the wire form does
      not carry ([overWire]), the API key is needed, the faucet pays
      once ([RpcProps], [RpcClient], [RpcGateProps], [FaucetProps]).
    - Defects.  [ChainProps.restart_forgets_changes] and
      [RpcProps.getLogs_never_returns] are theorems about what the code does and
      should not; others stand beside the components they concern.

    ** Parameters and hypotheses

    Third-party code is a parameter: Keccak-256 and the decred curve library (class
    [Crypto], laws [SignLaws] and [CompressedFlagLaw] where a theorem needs them), the
    bn256 library (class [Bn256]), the database (class [KV], laws [KVLaws], and
    [reliable] where commits must succeed), the transport ([request] and [publish] of
    the environment).  SHA-256, of Go's standard library, is modelled.

    - Integer fields are within their Go types and slices fit in memory:
      [wf_tx], [sound_tx], [wf_header], [wf_genesis]; [wf_state] is an invariant,
      established by the genesis and kept by every block.  Gas limits are below
      [maxGas] = 2^60 where the sum of two must not wrap.
    - [wf_network]: no two headers that occur share a hash, and no chain with valid
      work from the genesis ([mined]) has a gas limit above [maxGas] or 2^63 blocks;
      the headers that occur may be malformed in any other way.  [offered],
      [carries], [answers_ok] say of a message that the header in it is one of
      those.  [clockRange]: the node's clock is at most 2^62 milliseconds.
    - [env_ok]: the other goroutines keep the shared part sound, the clock is in
      range, and a walk over a map visits its keys in some order; [alone]: nothing else runs; [served]: the
      node's pool and chain are sound; [clock_ok], [clock_past], [minable] for
      mining; the words of an error message ([errorText]) are an argument.
    - [slots_apart]: Keccak gives no two addresses one balance slot.
    - [honest], [priced]: a node that the relayer asks reports only events that its
      contract emitted, and gas prices that are words.

    ** Fuel

    Loops that are not structural take fuel and report its end as a value apart
    ([None], [OutOfFuel], [NoFuel]); the theorems show that it does not end.  The
    interpreter gets the gas it is given plus one, since each step but the last
    costs gas; [DecodeList] the length of its input;
    [CumulativeIssued] 67 rounds, since the reward is zero after 65 halvings;
    [EstimateGas] 66 rounds, since each halves a 64-bit interval; Merkle trees the
    number of leaves; the walks to a fork the sum of the two heights; the release of
    orphans the number of them.  The JSON parser gets twice the length of its input,
    as every second nested call consumes a byte; that is shown for what the printer
    writes.  Where the code has no bound of its own the fuel is an
    argument: [Grind] and [mine] (the theorems say that what was searched has no
    winning nonce, and at which fuel one is found), [SyncFrom] (each further round
    has accepted a block), and the scan of [eth_getLogs], for which [maxLogRange]
    is enough save in the one case where nothing is.

    ** Not modelled

    Goroutines, locks and timers beyond [meanwhile]; the libp2p and in-process
    transports and the bootstrap list; the pebble database; the bytes of HTTP
    (requests and answers are values); log output; caches that only memoise
    (sender, transaction hash); the hash-rate counters; [health]; the JSON file of
    the genesis; the command-line programs other than the relayer, whose flags,
    cursor file and sleep are left out too; the compiled contract bytecode (an
    argument of the encoders) and the other Solidity sources. *)
From stdpp Require Import base numbers list gmap sorting.
From Stdlib Require Import ZArith Lia Strings.Byte Eqdep_dec.
#[local] Open Scope Z_scope.

(** ** Bytes and Go's machine integers *)

(** The numeric value of a byte, [0 <= b2z b < 256]. *)
Definition b2z (b : byte) : Z := Z.of_N (Byte.to_N b).

(** Go's conversion [byte(z)]: the low eight bits. *)
Definition z2b (z : Z) : byte := default x00 (Byte.of_N (Z.to_N (z mod 256))).

(** Arithmetic on [uint64] and [int64] wraps around. *)
Definition u64 (z : Z) : Z := z mod 2 ^ 64.
Definition u32 (z : Z) : Z := z mod 2 ^ 32.
Definition i64 (z : Z) : Z := (z + 2 ^ 63) mod 2 ^ 64 - 2 ^ 63.

(** [big.Int.IsUint64], and [big.Int.Uint64] (the low 64 bits of the magnitude). *)
Definition IsUint64 (z : Z) : bool := (0 <=? z) && (z <? 2 ^ 64).
Definition Uint64 (z : Z) : Z := Z.abs z mod 2 ^ 64.

(** [len(b)] of a slice, as an [int]. *)
Definition len {A} (l : list A) : Z := Z.of_nat (length l).

(** [big.Int.SetBytes]: a big-endian magnitude. *)
Definition be_acc (acc : Z) (b : byte) : Z := acc * 256 + b2z b.
Definition be2z (l : list byte) : Z := fold_left be_acc l 0.

(** [n] big-endian bytes of [z mod 256^n]: [PutUint64], [FillBytes]. *)
Fixpoint be_fixed (n : nat) (z : Z) : list byte :=
  match n with
  | O => []
  | S m => be_fixed m (z / 256) ++ [z2b z]
  end.

(** The number of bytes of the magnitude: [(BitLen + 7) / 8]. *)
Definition BitLen (z : Z) : Z := if z =? 0 then 0 else Z.log2 (Z.abs z) + 1.
Definition byteLen (z : Z) : Z := (BitLen z + 7) / 8.

(** [big.Int.Bytes]: the minimal big-endian encoding of the magnitude. *)
Definition be_min (z : Z) : list byte := be_fixed (Z.to_nat (byteLen z)) (Z.abs z).

(** [bytes.Compare(a, b) < 0], the lexicographic order on byte strings. *)
Fixpoint bytes_ltb (a b : list byte) : bool :=
  match a, b with
  | _, [] => false
  | [], _ :: _ => true
  | x :: a', y :: b' => (b2z x <? b2z y) || ((b2z x =? b2z y) && bytes_ltb a' b')
  end.

(** [sort.Slice] by [bytes.Compare < 0], over arrays of one length. *)
Definition bytes_le (a b : list byte) : Prop := bytes_ltb b a = false.

(** ** Slicing: [s[lo:hi]] panics outside [0 <= lo <= hi <= len(s)] *)

Definition slice {A} (lo hi : Z) (l : list A) : option (list A) :=
  if (0 <=? lo) && (lo <=? hi) && (hi <=? len l)
  then Some (take (Z.to_nat (hi - lo)) (drop (Z.to_nat lo) l))
  else None.

(** [make([]byte, n)]. *)
Definition zeros (n : Z) : list byte := replicate (Z.to_nat n) x00.

(** ** Fixed-size arrays [[n]byte] *)

Record array (n : nat) : Type := mkArray {
  abytes : list byte;
  abytes_len : Nat.eqb (length abytes) n = true;
}.
Arguments mkArray {_} _ _.
Arguments abytes {_} _.
Arguments abytes_len {_} _.

(** [var a [n]byte; copy(a[:], l)]. *)
Definition copy_to (n : nat) (l : list byte) : list byte := take n (l ++ replicate n x00).

Lemma copy_to_length n l : Nat.eqb (length (copy_to n l)) n = true.
Proof.
  unfold copy_to. rewrite length_take, length_app, length_replicate.
  apply Nat.eqb_eq. lia.
Qed.

(** Replaces a proof of [b = true] by [eq_refl] on closed terms, so that arrays compare by computation. *)
Definition refl_true {b : bool} : b = true -> b = true :=
  match b with true => fun _ => eq_refl | false => fun p => p end.

Definition array_of (n : nat) (l : list byte) : array n :=
  mkArray (copy_to n l) (refl_true (copy_to_length n l)).

(** ** Errors

    One constructor per sentinel error of the Go packages, plus one per
    [errors.New]/[fmt.Errorf] site that has no sentinel. *)
Inductive error :=
  (* rlp *)
  | ErrShortInput | ErrLeadingZero | ErrTrailing | ErrNested | ErrExpectList | ErrCanon
  (* common, crypto *)
  | ErrBadHashLength | ErrBadAddressLength | ErrBadHex
  | ErrKeyLength | ErrSigLength | ErrHighS | ErrRecover
  (* types *)
  | ErrTxType | ErrTxUnsigned | ErrBadSignature | ErrNegativeValue | ErrChainID
  | ErrNegativeGasPrice | ErrBelowIntrinsic
  | ErrEthFieldCount | ErrEthV | ErrEthField
  (* vm *)
  | ErrStackUnderflow | ErrStackOverflow
  | ErrOutOfGas | ErrInvalidJump | ErrInvalidOpcode | ErrReverted | ErrNoState
  | ErrReturnDataOutOfBounds | ErrStaticStateChange | ErrMaxCodeSize
  | ErrBn256Point | ErrBadPairingInput
  (* state *)
  | ErrNonceTooLow | ErrNonceTooHigh | ErrInsufficient | ErrGasLimit
  | ErrBadStateRoot | ErrBadTxRoot | ErrBadReceiptRoot | ErrBadParent | ErrBadHeight
  | ErrBadTimestamp | ErrBadGasLimit | ErrContractCollision | ErrBlockPanic | ErrGasUsed
  (* mempool *)
  | ErrAlreadyKnown | ErrPoolFull | ErrNonceUsed | ErrNonceStale | ErrCannotPay
  | ErrUnderpriced | ErrAccountLimit
  (* core *)
  | ErrBadDifficulty | ErrBadPoW | ErrGenesis
  | ErrUnknownBlock | ErrUnknownTx | ErrUnknownParent | ErrKnownBlock | ErrNoCommonAncestor | ErrReorgTooDeep
  | ErrPrunedState | ErrWrongChain | ErrFutureBlock | ErrNilTx | ErrMiningAborted | ErrConservation
  (* store, and what is read from it *)
  | ErrNotFound | ErrStore | ErrJSON | ErrCorrupt | ErrSchema
  (* p2p *)
  | ErrClosed | ErrUnknownPeer | ErrNoHandler
  | ErrMessageTooLarge | ErrBadEncoding | ErrTxMessageTooLarge | ErrBadTxEncoding
  | ErrBadSyncRequest | ErrHeaderChain | ErrHeadersUnlinked | ErrFutureHeader | ErrBodyMismatch | ErrHandlerPanic
  (* pool *)
  | ErrStale | ErrDuplicate | ErrBadShare | ErrLedger | ErrPoolStatus
  (* rpc: an error that carries its own answer, and the client's *)
  | ErrRpc (code : Z) (message : list byte)
  | ErrTransport | ErrBadResponse | ErrNullResult.

(** The outcome of a Go call: a value, an error value, or a run-time panic. *)
Inductive res (A : Type) : Type :=
  | Ok (a : A)
  | Err (e : error)
  | Panic.
Arguments Ok {_} _.
Arguments Err {_} _.
Arguments Panic {_}.

Definition res_bind {A B} (r : res A) (k : A -> res B) : res B :=
  match r with Ok a => k a | Err e => Err e | Panic => Panic end.

(** A slice expression or nil dereference that may panic. *)
Definition or_panic {A} (o : option A) : res A :=
  match o with Some a => Ok a | None => Panic end.

Declare Scope go_scope.
Delimit Scope go_scope with go.
Notation "'let?' x := c 'in' k" := (res_bind c (fun x => k))
  (at level 10, x pattern, c at level 100, k at level 200) : go_scope.

#[export] Instance byte_eq_dec : EqDecision byte := Byte.byte_eq_dec.

#[export] Instance error_eq_dec : EqDecision error.
Proof. solve_decision. Defined.

#[export] Program Instance byte_countable : Countable byte :=
  inj_countable Byte.to_N Byte.of_N _.
Next Obligation. intros b. apply Byte.of_to_N. Qed.

(** ** Lemmas: bytes *)

Lemma b2z_range b : 0 <= b2z b < 256.
Proof. unfold b2z. pose proof (Byte.to_N_bounded b). lia. Qed.

Lemma b2z_inj a b : b2z a = b2z b -> a = b.
Proof.
  unfold b2z. intros H%N2Z.inj.
  pose proof (Byte.of_to_N a) as Ha. rewrite H, Byte.of_to_N in Ha. congruence.
Qed.

Lemma b2z_z2b z : b2z (z2b z) = z mod 256.
Proof.
  unfold b2z, z2b. pose proof (Z.mod_pos_bound z 256 ltac:(lia)).
  destruct (Byte.of_N (Z.to_N (z mod 256))) as [b|] eqn:E; simpl.
  - apply Byte.to_of_N in E. rewrite E. lia.
  - apply Byte.of_N_None_iff in E. lia.
Qed.

Lemma z2b_b2z b : z2b (b2z b) = b.
Proof. apply b2z_inj. rewrite b2z_z2b. pose proof (b2z_range b). by rewrite Z.mod_small. Qed.

Lemma z2b_small z : 0 <= z < 256 -> b2z (z2b z) = z.
Proof. intros. rewrite b2z_z2b. by apply Z.mod_small. Qed.

Lemma len_nonneg {A} (l : list A) : 0 <= len l.
Proof. unfold len. lia. Qed.

Lemma len_app {A} (l k : list A) : len (l ++ k) = len l + len k.
Proof. unfold len. rewrite length_app. lia. Qed.

Lemma len_cons {A} (x : A) l : len (x :: l) = 1 + len l.
Proof. unfold len. simpl length. lia. Qed.

Lemma len_nil {A} : len (@nil A) = 0.
Proof. reflexivity. Qed.

Lemma len_zero_inv {A} (l : list A) : len l = 0 -> l = [].
Proof. unfold len. destruct l; simpl; [done|lia]. Qed.

Lemma len_take {A} (n : Z) (l : list A) : 0 <= n <= len l -> len (take (Z.to_nat n) l) = n.
Proof. unfold len. intros. rewrite length_take. lia. Qed.

Lemma len_drop {A} (n : Z) (l : list A) : 0 <= n <= len l -> len (drop (Z.to_nat n) l) = len l - n.
Proof. unfold len. intros. rewrite length_drop. lia. Qed.

Lemma len_replicate {A} n (x : A) : len (replicate n x) = Z.of_nat n.
Proof. unfold len. by rewrite length_replicate. Qed.

Lemma len_zeros n : 0 <= n -> len (zeros n) = n.
Proof. intros. unfold zeros. rewrite len_replicate. lia. Qed.

Create Rewrite HintDb golen.
#[export] Hint Rewrite @len_app @len_cons @len_nil @len_replicate : golen.

(** ** Lemmas: big-endian numbers *)

Lemma be2z_acc l acc : fold_left be_acc l acc = acc * 256 ^ len l + be2z l.
Proof.
  unfold be2z. revert acc. induction l as [|b l IH]; intros acc; simpl.
  - change (len (@nil byte)) with 0. lia.
  - rewrite IH, (IH (be_acc 0 b)), len_cons, Z.pow_add_r by (pose proof (len_nonneg l); lia).
    unfold be_acc. lia.
Qed.

Lemma be2z_nil : be2z [] = 0.
Proof. reflexivity. Qed.

Lemma be2z_cons b l : be2z (b :: l) = b2z b * 256 ^ len l + be2z l.
Proof. unfold be2z at 1. simpl. rewrite be2z_acc. unfold be_acc. lia. Qed.

Lemma be2z_app l k : be2z (l ++ k) = be2z l * 256 ^ len k + be2z k.
Proof. unfold be2z at 1. rewrite fold_left_app, be2z_acc. done. Qed.

Lemma be2z_snoc l b : be2z (l ++ [b]) = be2z l * 256 + b2z b.
Proof. rewrite be2z_app, be2z_cons. change (len [b]) with 1. change (len (@nil byte)) with 0. rewrite be2z_nil. lia. Qed.

Lemma be2z_range l : 0 <= be2z l < 256 ^ len l.
Proof.
  induction l as [|b l IH]; [rewrite be2z_nil; change (len (@nil byte)) with 0; lia|].
  rewrite be2z_cons, len_cons, Z.pow_add_r by (pose proof (len_nonneg l); lia).
  pose proof (b2z_range b). nia.
Qed.

Lemma be2z_inj l k : length l = length k -> be2z l = be2z k -> l = k.
Proof.
  revert k. induction l as [|b l IH]; intros [|c k] Hlen Heq; try done.
  simpl in Hlen. assert (len l = len k) as Hl by (unfold len; lia).
  rewrite !be2z_cons, Hl in Heq.
  pose proof (be2z_range l) as Rl. pose proof (be2z_range k) as Rk. rewrite Hl in Rl.
  assert (b2z b = b2z c) as Hb by nia.
  f_equal; [by apply b2z_inj|]. apply IH; [lia|nia].
Qed.

Lemma length_be_fixed n z : length (be_fixed n z) = n.
Proof. revert z. induction n as [|n IH]; intros z; simpl; [done|]. rewrite length_app, IH. simpl. lia. Qed.

Lemma len_be_fixed n z : len (be_fixed n z) = Z.of_nat n.
Proof. unfold len. by rewrite length_be_fixed. Qed.

Lemma be2z_be_fixed n z : be2z (be_fixed n z) = z mod 256 ^ Z.of_nat n.
Proof.
  revert z. induction n as [|n IH]; intros z.
  - simpl be_fixed. rewrite be2z_nil. change (256 ^ Z.of_nat 0) with 1. by rewrite Z.mod_1_r.
  - simpl be_fixed. rewrite be2z_snoc, IH, b2z_z2b.
    rewrite Nat2Z.inj_succ, Z.pow_succ_r by lia.
    assert (0 < 256 ^ Z.of_nat n) by (apply Z.pow_pos_nonneg; lia).
    rewrite Z.rem_mul_r by lia. lia.
Qed.

Lemma be_fixed_be2z l : be_fixed (length l) (be2z l) = l.
Proof.
  apply be2z_inj; [by rewrite length_be_fixed|].
  rewrite be2z_be_fixed. apply Z.mod_small. apply be2z_range.
Qed.

Lemma be_fixed_inj n a b :
  0 <= a < 256 ^ Z.of_nat n -> 0 <= b < 256 ^ Z.of_nat n -> be_fixed n a = be_fixed n b -> a = b.
Proof.
  intros Ha Hb H%(f_equal be2z). rewrite !be2z_be_fixed in H.
  rewrite !Z.mod_small in H by lia. done.
Qed.

(** The magnitude of a number occupies exactly [byteLen] bytes. *)
Lemma byteLen_nonneg z : 0 <= byteLen z.
Proof.
  unfold byteLen, BitLen. case_match; [done|].
  pose proof (Z.log2_nonneg (Z.abs z)). apply Z.div_pos; lia.
Qed.

Lemma byteLen_upper z : Z.abs z < 256 ^ byteLen z.
Proof.
  unfold byteLen, BitLen. destruct (Z.eqb_spec z 0) as [->|Hz]; [done|].
  pose proof (Z.log2_spec (Z.abs z) ltac:(lia)) as [_ H].
  pose proof (Z.log2_nonneg (Z.abs z)) as Hn. set (L := Z.log2 (Z.abs z)) in *.
  change 256 with (2 ^ 8). rewrite <- Z.pow_mul_r by (try apply Z.div_pos; lia).
  eapply Z.lt_le_trans; [exact H|]. apply Z.pow_le_mono_r; [lia|].
  pose proof (Z.mul_div_le (L + 1 + 7) 8). pose proof (Z.mod_pos_bound (L + 1 + 7) 8).
  pose proof (Z.div_mod (L + 1 + 7) 8). lia.
Qed.

Lemma byteLen_lower z : z <> 0 -> 256 ^ (byteLen z - 1) <= Z.abs z.
Proof.
  unfold byteLen, BitLen. destruct (Z.eqb_spec z 0) as [->|Hz]; [done|]. intros _.
  pose proof (Z.log2_spec (Z.abs z) ltac:(lia)) as [H _].
  pose proof (Z.log2_nonneg (Z.abs z)) as Hn. set (L := Z.log2 (Z.abs z)) in *.
  change 256 with (2 ^ 8).
  assert (1 <= (L + 1 + 7) / 8) by (apply Z.div_le_lower_bound; lia).
  rewrite <- Z.pow_mul_r by lia.
  eapply Z.le_trans; [|exact H]. apply Z.pow_le_mono_r; [lia|].
  pose proof (Z.mul_div_le (L + 1 + 7) 8). lia.
Qed.

Lemma byteLen_pos z : z <> 0 -> 1 <= byteLen z.
Proof.
  intros Hz. unfold byteLen, BitLen. destruct (Z.eqb_spec z 0); [done|].
  pose proof (Z.log2_nonneg (Z.abs z)). apply Z.div_le_lower_bound; lia.
Qed.

Lemma byteLen_bound z n : 0 <= n -> Z.abs z < 256 ^ n -> byteLen z <= n.
Proof.
  intros Hn Hz. destruct (decide (z = 0)) as [->|Hne]; [done|].
  pose proof (byteLen_lower z Hne). pose proof (byteLen_pos z Hne).
  assert (256 ^ (byteLen z - 1) < 256 ^ n) as H1 by lia.
  apply Z.pow_lt_mono_r_iff in H1; lia.
Qed.

Lemma length_be_min z : length (be_min z) = Z.to_nat (byteLen z).
Proof. apply length_be_fixed. Qed.

Lemma be2z_be_min z : be2z (be_min z) = Z.abs z.
Proof.
  unfold be_min. rewrite be2z_be_fixed, Z2Nat.id by apply byteLen_nonneg.
  apply Z.mod_small. split; [lia|apply byteLen_upper].
Qed.

(** No leading zero byte: what Go calls minimal big-endian. *)
Definition minimal (l : list byte) : Prop :=
  match l with [] => True | b :: _ => b2z b <> 0 end.

Lemma be_min_minimal z : minimal (be_min z).
Proof.
  destruct (be_min z) as [|b l] eqn:E; [done|]. simpl. intros Hb.
  pose proof (be2z_be_min z) as H. rewrite E, be2z_cons, Hb in H.
  pose proof (length_be_min z) as L. rewrite E in L. simpl in L.
  pose proof (byteLen_nonneg z).
  destruct (decide (z = 0)) as [->|Hz]; [discriminate|].
  pose proof (byteLen_lower z Hz) as Hlow. pose proof (be2z_range l).
  assert (len l = byteLen z - 1) as Hl by (unfold len; lia). rewrite Hl in *. lia.
Qed.

Lemma be_min_be2z l : minimal l -> be_min (be2z l) = l.
Proof.
  intros Hm. pose proof (be2z_range l) as R.
  assert (byteLen (be2z l) = len l) as Hl.
  { destruct l as [|b l]; [done|]. simpl in Hm. pose proof (b2z_range b).
    pose proof (be2z_range l). rewrite be2z_cons in *.
    assert (0 < 256 ^ len l) by (apply Z.pow_pos_nonneg; [lia|apply len_nonneg]).
    pose proof (len_nonneg l) as Hnn.
    apply Z.le_antisymm.
    - apply byteLen_bound; [apply len_nonneg|lia].
    - set (z := b2z b * 256 ^ len l + be2z l) in *.
      assert (z <> 0) by nia. pose proof (byteLen_upper z).
      assert (256 ^ len l < 256 ^ byteLen z) as Hp by nia.
      apply Z.pow_lt_mono_r_iff in Hp; [|lia|apply byteLen_nonneg].
      rewrite len_cons. lia. }
  unfold be_min. rewrite Hl, Z.abs_eq by lia. unfold len. rewrite Nat2Z.id.
  apply be_fixed_be2z.
Qed.

Lemma be_min_inj a b : 0 <= a -> 0 <= b -> be_min a = be_min b -> a = b.
Proof. intros Ha Hb H%(f_equal be2z). rewrite !be2z_be_min in H. lia. Qed.

Lemma len_be_min z : len (be_min z) = byteLen z.
Proof. unfold len. rewrite length_be_min. pose proof (byteLen_nonneg z). lia. Qed.

(** On strings of one length the lexicographic order is the numeric one. *)
Lemma bytes_ltb_be2z a b : length a = length b -> bytes_ltb a b = (be2z a <? be2z b).
Proof.
  revert b. induction a as [|x a IH]; intros [|y b] Hl; try done.
  simpl in Hl. simpl bytes_ltb. rewrite IH by lia. rewrite !be2z_cons.
  assert (len a = len b) as -> by (unfold len; lia).
  pose proof (be2z_range a) as Ra. pose proof (be2z_range b) as Rb.
  assert (len a = len b) as Hl' by (unfold len; lia). rewrite Hl' in Ra.
  apply eq_true_iff_eq. rewrite orb_true_iff, andb_true_iff, !Z.ltb_lt, Z.eqb_eq.
  split; [intros [|[]]|intros]; [nia|nia|].
  destruct (Z.lt_trichotomy (b2z x) (b2z y)) as [|[|]]; [by left|right; nia|nia].
Qed.

Lemma bytes_le_be2z a b : length a = length b -> bytes_le a b <-> be2z a <= be2z b.
Proof. intros. unfold bytes_le. rewrite bytes_ltb_be2z by done. apply Z.ltb_ge. Qed.

#[export] Instance bytes_le_dec a b : Decision (bytes_le a b).
Proof. unfold bytes_le. apply _. Defined.

(** ** Lemmas: arrays *)

Lemma array_eq {n} (a b : array n) : abytes a = abytes b -> a = b.
Proof.
  destruct a as [la pa], b as [lb pb]; simpl. intros ->.
  f_equal. apply UIP_dec. apply Bool.bool_dec.
Qed.

Lemma abytes_length {n} (a : array n) : length (abytes a) = n.
Proof. destruct a as [l p]; simpl. by apply Nat.eqb_eq. Qed.

Lemma len_abytes {n} (a : array n) : len (abytes a) = Z.of_nat n.
Proof. unfold len. by rewrite abytes_length. Qed.

Lemma abytes_array_of n l : length l = n -> abytes (array_of n l) = l.
Proof. intros <-. simpl. unfold copy_to. by rewrite take_app_length. Qed.

Lemma array_of_abytes {n} (a : array n) : array_of n (abytes a) = a.
Proof. apply array_eq, abytes_array_of, abytes_length. Qed.

#[export] Instance array_eq_dec n : EqDecision (array n).
Proof.
  intros a b. destruct (decide (abytes a = abytes b)) as [H|H].
  - left. by apply array_eq.
  - right. intros ->. done.
Defined.

#[export] Program Instance array_countable n : Countable (array n) :=
  inj_countable abytes (fun l => Some (array_of n l)) _.
Next Obligation. intros n a. simpl. by rewrite array_of_abytes. Qed.

(** The order [sort.Slice] uses on arrays, and the sorted list of keys it yields. *)
Definition array_le {n} (a b : array n) : Prop := bytes_le (abytes a) (abytes b).

#[export] Instance array_le_dec {n} (a b : array n) : Decision (array_le a b).
Proof. unfold array_le. apply _. Defined.

Definition sort_arrays {n} (l : list (array n)) : list (array n) := merge_sort array_le l.

Lemma array_le_be2z {n} (a b : array n) : array_le a b <-> be2z (abytes a) <= be2z (abytes b).
Proof. unfold array_le. apply bytes_le_be2z. by rewrite !abytes_length. Qed.

Lemma array_be2z_inj {n} (a b : array n) : be2z (abytes a) = be2z (abytes b) -> a = b.
Proof. intros H. apply array_eq, be2z_inj; [by rewrite !abytes_length|done]. Qed.

#[export] Instance array_le_trans n : Transitive (@array_le n).
Proof. intros a b c. rewrite !array_le_be2z. lia. Qed.
#[export] Instance array_le_total n : Total (@array_le n).
Proof. intros a b. rewrite !array_le_be2z. lia. Qed.
#[export] Instance array_le_antisymm n : AntiSymm (=) (@array_le n).
Proof. intros a b. rewrite !array_le_be2z. intros. apply array_be2z_inj. lia. Qed.

Lemma sort_arrays_Permutation {n} (l : list (array n)) : sort_arrays l ≡ₚ l.
Proof. apply merge_sort_Permutation. Qed.

(** Sorting forgets the iteration order of a Go map. *)
Lemma sort_arrays_ext {n} (l k : list (array n)) : l ≡ₚ k -> sort_arrays l = sort_arrays k.
Proof.
  intros H. eapply (StronglySorted_unique array_le).
  - apply Sorted_StronglySorted; [apply _|]. apply (Sorted_merge_sort array_le).
  - apply Sorted_StronglySorted; [apply _|]. apply (Sorted_merge_sort array_le).
  - by rewrite !sort_arrays_Permutation.
Qed.

(** Array equality as a boolean that computes. *)
Definition array_eqb {n} (a b : array n) : bool := bool_decide (abytes a = abytes b).

Lemma array_eqb_eq {n} (a b : array n) : array_eqb a b = true <-> a = b.
Proof.
  unfold array_eqb. rewrite bool_decide_eq_true.
  split; [apply array_eq|by intros ->].
Qed.

Lemma array_eqb_spec {n} (a b : array n) : reflect (a = b) (array_eqb a b).
Proof. apply iff_reflect. symmetry. apply array_eqb_eq. Qed.

(** ** Lemmas: slices *)

Lemma slice_some {A} lo hi (l : list A) :
  0 <= lo <= hi -> hi <= len l ->
  slice lo hi l = Some (take (Z.to_nat (hi - lo)) (drop (Z.to_nat lo) l)).
Proof. intros. unfold slice. destruct (Z.leb_spec 0 lo), (Z.leb_spec lo hi), (Z.leb_spec hi (len l)); simpl; done || lia. Qed.

Lemma slice_inv {A} lo hi (l r : list A) :
  slice lo hi l = Some r -> 0 <= lo <= hi /\ hi <= len l /\ r = take (Z.to_nat (hi - lo)) (drop (Z.to_nat lo) l).
Proof.
  unfold slice. destruct (Z.leb_spec 0 lo), (Z.leb_spec lo hi), (Z.leb_spec hi (len l));
    simpl; intros; simplify_eq; auto with lia.
Qed.

Lemma slice_exists {A} lo hi (l : list A) : 0 <= lo <= hi -> hi <= len l -> exists r, slice lo hi l = Some r.
Proof. intros. rewrite slice_some by lia. eauto. Qed.

Lemma slice_len {A} lo hi (l r : list A) : slice lo hi l = Some r -> len r = hi - lo.
Proof.
  intros (H1 & H2 & ->)%slice_inv. rewrite len_take; [done|].
  rewrite len_drop by lia. lia.
Qed.

(** ** Lemmas: machine integers *)

Lemma u64_small z : 0 <= z < 2 ^ 64 -> u64 z = z.
Proof. intros. by apply Z.mod_small. Qed.

Lemma u64_range z : 0 <= u64 z < 2 ^ 64.
Proof. apply Z.mod_pos_bound. lia. Qed.

Lemma i64_small z : - 2 ^ 63 <= z < 2 ^ 63 -> i64 z = z.
Proof. intros. unfold i64. rewrite Z.mod_small; lia. Qed.

Lemma IsUint64_true z : IsUint64 z = true <-> 0 <= z < 2 ^ 64.
Proof. unfold IsUint64. rewrite andb_true_iff, Z.leb_le, Z.ltb_lt. done. Qed.

Lemma Uint64_small z : 0 <= z < 2 ^ 64 -> Uint64 z = z.
Proof. intros. unfold Uint64. rewrite Z.abs_eq, Z.mod_small; lia. Qed.

Lemma Uint64_range z : 0 <= Uint64 z < 2 ^ 64.
Proof. apply Z.mod_pos_bound. lia. Qed.

(** ** Lemmas: lists *)

(** A function injective on [P] is injective on lists over [P]. *)
Lemma map_inj_on {A B} (f : A -> B) (P : A -> Prop) l k :
  (forall x y, P x -> P y -> f x = f y -> x = y) ->
  Forall P l -> Forall P k -> map f l = map f k -> l = k.
Proof.
  intros Hf Hl. revert k. induction Hl as [|x l Hx Hl IH]; intros [|y k] Hk E; try done.
  inversion Hk; subst. cbn [map] in E. pose proof (f_equal head E) as E1. pose proof (f_equal tail E) as E2.
  cbn [head tail] in E1, E2. assert (f x = f y) as E3 by congruence.
  rewrite (Hf x y) by done. f_equal. by apply IH.
Qed.
