(* ===== verification/Common.v ===== *)
(** * Package [common]: hashes, addresses, the canonical encoder, logs

    Models src/common/primitives.go, encoding.go, denomination.go, burn.go and
    log.go, and the third-party primitives of src/crypto as the class
    [Crypto].  A [Hash] is a [[32]byte] and an [Address] a [[20]byte]: arrays
    of exactly that many bytes.  An encoder is the byte string it has
    accumulated, so each [Encoder] method is the string it appends.  The
    lemmas at the end make the encoder a prefix code: every field it writes
    can be split off the front of the buffer again. *)
From stdpp Require Import base numbers list.
From Stdlib Require Import ZArith Lia Strings.Byte.
From S2P Require Import Prelude.
#[local] Open Scope Z_scope.
#[local] Open Scope go_scope.
#[local] Open Scope list_scope.

(** ** Hashes and addresses (primitives.go) *)

Definition HashLength : nat := 32.
Definition AddressLength : nat := 20.

Definition Hash : Type := array HashLength.
Definition Address : Type := array AddressLength.

Definition ZeroHash : Hash := array_of HashLength [].
Definition ZeroAddress : Address := array_of AddressLength [].

Definition Hash_IsZero (h : Hash) : bool := array_eqb h ZeroHash.
Definition Address_IsZero (a : Address) : bool := array_eqb a ZeroAddress.

(** [encoding/hex]: lower-case output, both cases on input. *)
Definition hex_digit (d : Z) : byte := if d <? 10 then z2b (48 + d) else z2b (87 + d).

Definition hex_value (c : byte) : option Z :=
  let v := b2z c in
  if (48 <=? v) && (v <=? 57) then Some (v - 48)
  else if (97 <=? v) && (v <=? 102) then Some (v - 87)
  else if (65 <=? v) && (v <=? 70) then Some (v - 55)
  else None.

Fixpoint hex_EncodeToString (l : list byte) : list byte :=
  match l with
  | [] => []
  | b :: r => hex_digit (b2z b / 16) :: hex_digit (b2z b mod 16) :: hex_EncodeToString r
  end.

Fixpoint hex_DecodeString (s : list byte) : res (list byte) :=
  match s with
  | [] => Ok []
  | [_] => Err ErrBadHex
  | c :: d :: r =>
      match hex_value c, hex_value d with
      | Some x, Some y => let? l := hex_DecodeString r in Ok (z2b (x * 16 + y) :: l)
      | _, _ => Err ErrBadHex
      end
  end.

(** [strings.TrimPrefix(s, "0x")]. *)
Definition trim0x (s : list byte) : list byte :=
  match s with
  | x30 :: x78 :: r => r
  | _ => s
  end.

Definition Hash_Hex (h : Hash) : list byte := [x30; x78] ++ hex_EncodeToString (abytes h).
Definition Address_Hex (a : Address) : list byte := [x30; x78] ++ hex_EncodeToString (abytes a).

Definition HashFromBytes (b : list byte) : res Hash :=
  if negb (len b =? Z.of_nat HashLength) then Err ErrBadHashLength else Ok (array_of HashLength b).

Definition AddressFromBytes (b : list byte) : res Address :=
  if negb (len b =? Z.of_nat AddressLength) then Err ErrBadAddressLength
  else Ok (array_of AddressLength b).

Definition AddressFromHex (s : list byte) : res Address :=
  let? b := hex_DecodeString (trim0x s) in AddressFromBytes b.

Definition HashFromHex (s : list byte) : res Hash :=
  let? b := hex_DecodeString (trim0x s) in HashFromBytes b.

(** [MarshalText]/[UnmarshalText] are the hex forms; [UnmarshalText] returns the new receiver. *)
Definition Hash_MarshalText (h : Hash) : list byte := Hash_Hex h.
Definition Hash_UnmarshalText (t : list byte) : res Hash := HashFromHex t.
Definition Address_MarshalText (a : Address) : list byte := Address_Hex a.
Definition Address_UnmarshalText (t : list byte) : res Address := AddressFromHex t.

(** ** The burn address (burn.go) and the denominations (denomination.go) *)

Definition BurnAddress : Address :=
  match AddressFromHex (replicate 36 x30 ++ [x64; x45; x61; x44]) (* "0...0dEaD" *) with
  | Ok a => a
  | _ => ZeroAddress (* unreachable: a start-up panic *)
  end.

Definition Decimals : Z := 18.
Definition OneLXS : Z := 10 ^ Decimals.
Definition LXS (n : Z) : Z := n * OneLXS.

(** ** Third-party cryptography

    [keccak256] is golang.org/x/crypto/sha3's legacy Keccak-256.  The others
    are decred's secp256k1: [RecoverCompact] gives the 65-byte uncompressed
    serialisation of the recovered key ([None]: an error), [SignCompact] signs a
    digest, [PubKey] is the uncompressed public key, [PrivKeyFromBytes] and
    [Serialize] convert keys, and [curveN] is the order of the curve.  They are operations
    only: no law about them is assumed here. *)
Class Crypto : Type := {
  keccak256 : list byte -> Hash;
  RecoverCompact : list byte -> Hash -> option (array 65);
  curveN : Z;
  privKey : Type;
  PrivKeyFromBytes : list byte -> privKey;
  Serialize : privKey -> array 32;
  PubKey : privKey -> array 65;
  SignCompact : privKey -> Hash -> list byte;
}.

(** [common.Keccak256(chunks...)]. *)
Definition Keccak256 `{Crypto} (chunks : list (list byte)) : Hash := keccak256 (concat chunks).

(** The digest tells the given byte strings apart.  The commitments below are proved to bind as long as it does so for the
    strings that were hashed in making them: of all strings it cannot be true, there being only 2^256 digests. *)
Definition collision_free `{Crypto} (xs : list (list byte)) : Prop :=
  forall x y, x ∈ xs -> y ∈ xs -> keccak256 x = keccak256 y -> x = y.

(** None of them has the all-zero digest, which stands for the root of no leaves. *)
Definition nonzero_digests `{Crypto} (xs : list (list byte)) : Prop := forall x, x ∈ xs -> keccak256 x <> ZeroHash.

(** ** The canonical encoder (encoding.go) *)

Definition Encoder_Uint64 (v : Z) : list byte := be_fixed 8 v.

(** [e.Uint64(uint64(v))] *)
Definition Encoder_Int64 (v : Z) : list byte := Encoder_Uint64 (u64 v).

Definition Encoder_Bytes (b : list byte) : list byte := Encoder_Uint64 (u64 (len b)) ++ b.

Definition Encoder_Raw (b : list byte) : list byte := b.

Definition Encoder_BigInt (v : option Z) : list byte :=
  match v with
  | None => Encoder_Bytes []
  | Some v => Encoder_Bytes (be_min v)
  end.

Definition Encoder_OptionalAddress (a : option Address) : list byte :=
  match a with
  | None => [x00]
  | Some a => [x01] ++ Encoder_Raw (abytes a)
  end.

(** ** Events (log.go) *)

Record Log : Type := mkLog {
  l_Address : Address;
  l_Topics : list Hash;
  l_Data : list byte;
}.

Definition EncodeInto (l : Log) : list byte :=
  Encoder_Raw (abytes (l_Address l))
  ++ Encoder_Uint64 (u64 (len (l_Topics l)))
  ++ concat (map (fun t => Encoder_Raw (abytes t)) (l_Topics l))
  ++ Encoder_Bytes (l_Data l).

(** ** Lemmas: hex round trips *)

Lemma hex_value_digit d : 0 <= d < 16 -> hex_value (hex_digit d) = Some d.
Proof.
  intros Hd. unfold hex_digit.
  assert (d = 0 \/ d = 1 \/ d = 2 \/ d = 3 \/ d = 4 \/ d = 5 \/ d = 6 \/ d = 7 \/ d = 8 \/ d = 9
    \/ d = 10 \/ d = 11 \/ d = 12 \/ d = 13 \/ d = 14 \/ d = 15) as C by lia.
  repeat destruct C as [->|C]; try reflexivity. by subst.
Qed.

Lemma hex_roundtrip l : hex_DecodeString (hex_EncodeToString l) = Ok l.
Proof.
  induction l as [|b l IH]; [done|]. pose proof (b2z_range b).
  cbn [hex_EncodeToString hex_DecodeString].
  rewrite !hex_value_digit by (split; [apply Z.div_pos || apply Z.mod_pos_bound; lia|];
    first [apply Z.div_lt_upper_bound; lia | apply Z.mod_pos_bound; lia]).
  rewrite IH. simpl. do 2 f_equal. apply b2z_inj.
  rewrite Z.mul_comm, <- Z.div_mod by lia. apply z2b_small. done.
Qed.

Lemma AddressFromHex_Hex_lemma a : AddressFromHex (Address_Hex a) = Ok a.
Proof.
  unfold AddressFromHex, Address_Hex. cbn [app trim0x]. rewrite hex_roundtrip. simpl.
  unfold AddressFromBytes. rewrite len_abytes, Z.eqb_refl. simpl. f_equal. apply array_of_abytes.
Qed.

Lemma HashFromHex_Hex_lemma h : HashFromHex (Hash_Hex h) = Ok h.
Proof.
  unfold HashFromHex, Hash_Hex. cbn [app trim0x]. rewrite hex_roundtrip. simpl.
  unfold HashFromBytes. rewrite len_abytes, Z.eqb_refl. simpl. f_equal. apply array_of_abytes.
Qed.

(** ** Lemmas: the encoder is a prefix code *)

Lemma len_Encoder_Uint64 v : len (Encoder_Uint64 v) = 8.
Proof. apply len_be_fixed. Qed.

Lemma app_inj_len {A} (a b c d : list A) : length a = length b -> a ++ c = b ++ d -> a = b /\ c = d.
Proof. intros Hl H. apply (app_inj_1 a b c d Hl H). Qed.

Lemma Encoder_Uint64_prefix v w r s :
  0 <= v < 2 ^ 64 -> 0 <= w < 2 ^ 64 ->
  Encoder_Uint64 v ++ r = Encoder_Uint64 w ++ s -> v = w /\ r = s.
Proof.
  intros Hv Hw [H1 ->]%app_inj_len; [|unfold Encoder_Uint64; by rewrite !length_be_fixed].
  split; [|done]. eapply (be_fixed_inj 8); [..|exact H1]; done.
Qed.

Lemma Encoder_Int64_prefix v w r s :
  - 2 ^ 63 <= v < 2 ^ 63 -> - 2 ^ 63 <= w < 2 ^ 63 ->
  Encoder_Int64 v ++ r = Encoder_Int64 w ++ s -> v = w /\ r = s.
Proof.
  intros Hv Hw. unfold Encoder_Int64.
  intros [H ->]%Encoder_Uint64_prefix; [|apply u64_range..]. split; [|done].
  unfold u64 in H. destruct (decide (0 <= v)), (decide (0 <= w)).
  - rewrite !Z.mod_small in H; lia.
  - rewrite (Z.mod_small v), <- (Z.mod_add w 1), (Z.mod_small (w + _)) in H; lia.
  - rewrite (Z.mod_small w), <- (Z.mod_add v 1), (Z.mod_small (v + _)) in H; lia.
  - rewrite <- (Z.mod_add v 1), <- (Z.mod_add w 1), !Z.mod_small in H; lia.
Qed.

Lemma Encoder_Bytes_prefix b c r s :
  len b < 2 ^ 64 -> len c < 2 ^ 64 ->
  Encoder_Bytes b ++ r = Encoder_Bytes c ++ s -> b = c /\ r = s.
Proof.
  intros Hb Hc. unfold Encoder_Bytes. rewrite <- !app_assoc.
  pose proof (len_nonneg b). pose proof (len_nonneg c).
  intros [H1 H2]%Encoder_Uint64_prefix; [|apply u64_range..].
  rewrite !u64_small in H1 by lia. apply app_inj_len in H2; [done|]. unfold len in H1. lia.
Qed.

Lemma Encoder_Raw_prefix {n} (a b : array n) r s :
  Encoder_Raw (abytes a) ++ r = Encoder_Raw (abytes b) ++ s -> a = b /\ r = s.
Proof.
  unfold Encoder_Raw. intros [H ->]%app_inj_len; [|by rewrite !abytes_length].
  split; [by apply array_eq|done].
Qed.

Lemma Encoder_BigInt_prefix v w r s :
  0 <= v < 2 ^ 256 -> 0 <= w < 2 ^ 256 ->
  Encoder_BigInt (Some v) ++ r = Encoder_BigInt (Some w) ++ s -> v = w /\ r = s.
Proof.
  intros Hv Hw. simpl.
  assert (forall x, 0 <= x < 2 ^ 256 -> len (be_min x) < 2 ^ 64) as Hlen.
  { intros x Hx. rewrite len_be_min.
    pose proof (byteLen_bound x 32 ltac:(lia)). change (256 ^ 32) with (2 ^ 256) in *. lia. }
  intros [H ->]%Encoder_Bytes_prefix; [|by apply Hlen..].
  split; [|done]. apply be_min_inj; [lia..|done].
Qed.

Lemma Encoder_OptionalAddress_prefix a b r s :
  Encoder_OptionalAddress a ++ r = Encoder_OptionalAddress b ++ s -> a = b /\ r = s.
Proof.
  destruct a as [a|], b as [b|]; simpl; intros H; try discriminate.
  - injection H as H. apply Encoder_Raw_prefix in H as [-> ->]. done.
  - injection H as ->. done.
Qed.

(** Concatenated fixed-width arrays, as many on both sides. *)
Lemma concat_arrays_prefix {n} (l k : list (array n)) r s :
  length l = length k ->
  concat (map (fun t => Encoder_Raw (abytes t)) l) ++ r
    = concat (map (fun t => Encoder_Raw (abytes t)) k) ++ s -> l = k /\ r = s.
Proof.
  revert k. induction l as [|a l IH]; intros [|b k] Hl H; try done.
  simpl in H. rewrite <- !app_assoc in H.
  apply Encoder_Raw_prefix in H as [-> H]. apply IH in H as [-> ->]; [done|]. simpl in Hl. lia.
Qed.

Definition wf_log (l : Log) : Prop := len (l_Topics l) < 2 ^ 64 /\ len (l_Data l) < 2 ^ 64.

Lemma EncodeInto_prefix l k r s :
  wf_log l -> wf_log k -> EncodeInto l ++ r = EncodeInto k ++ s -> l = k /\ r = s.
Proof.
  destruct l as [a t d], k as [a' t' d']. intros [Ht Hd] [Ht' Hd']. simpl in *.
  unfold EncodeInto. cbn [l_Address l_Topics l_Data]. rewrite <- !app_assoc.
  intros [-> H]%Encoder_Raw_prefix.
  apply Encoder_Uint64_prefix in H as [Hlen H]; [|apply u64_range..].
  pose proof (len_nonneg t). pose proof (len_nonneg t').
  rewrite !u64_small in Hlen by lia.
  apply concat_arrays_prefix in H as [-> H]; [|unfold len, Hash in *; lia].
  apply Encoder_Bytes_prefix in H as [-> ->]; done.
Qed.

(** A sequence of self-delimiting items, as many on both sides. *)
Lemma concat_prefix {A} (enc : A -> list byte) (P : A -> Prop) l k r s :
  (forall x y r s, P x -> P y -> enc x ++ r = enc y ++ s -> x = y /\ r = s) ->
  Forall P l -> Forall P k -> length l = length k ->
  concat (map enc l) ++ r = concat (map enc k) ++ s -> l = k /\ r = s.
Proof.
  intros Henc Hl. revert k. induction Hl as [|x l Hx Hl IH]; intros [|y k] Hk Hlen H; try done.
  inversion Hk; subst. simpl in H. rewrite <- !app_assoc in H.
  apply Henc in H as [-> H]; [|done..]. apply IH in H as [-> ->]; [done..|]. simpl in Hlen. lia.
Qed.
