(* ===== verification/Rlp.v ===== *)
(** * Package [rlp]: Ethereum's Recursive Length Prefix encoding

    Models src/rlp/rlp.go and the smaller encoder of src/state/rlp.go.
    Every slice expression and index of the decoder is written with its
    run-time check, so "malformed RLP returns an error, never a panic" is a
    theorem.  [DecodeList] is shown to be a left inverse of [List] over
    [Bytes], and to accept only canonical input: whatever it accepts is the
    encoding of what it returns. *)
From stdpp Require Import base numbers list.
From Stdlib Require Import ZArith Lia Strings.Byte.
From S2P Require Import Prelude.
#[local] Open Scope Z_scope.
#[local] Open Scope go_scope.

(** ** Encoding (rlp.go) *)

Definition bigEndian (x : Z) : list byte :=
  [z2b (Z.shiftr x 56); z2b (Z.shiftr x 48); z2b (Z.shiftr x 40); z2b (Z.shiftr x 32);
   z2b (Z.shiftr x 24); z2b (Z.shiftr x 16); z2b (Z.shiftr x 8); z2b x].

Fixpoint trimLeadingZeros (b : list byte) : list byte :=
  match b with
  | [] => []
  | c :: r => if b2z c =? 0 then trimLeadingZeros r else b
  end.

Definition lengthPrefix (n : Z) (offset : Z) : list byte :=
  if n <? 56 then [z2b (offset + n)]
  else
    let lb := trimLeadingZeros (bigEndian (u64 n)) in
    [z2b (offset + 55 + len lb)] ++ lb.

Definition Bytes (b : list byte) : list byte :=
  match b with
  | [c] => if b2z c <? 0x80 then [c] else lengthPrefix (len b) 0x80 ++ b
  | _ => lengthPrefix (len b) 0x80 ++ b
  end.

Definition Uint (x : Z) : list byte := Bytes (trimLeadingZeros (bigEndian x)).

(** A nil [*big.Int] encodes like zero. *)
Definition Big (x : option Z) : list byte :=
  match x with
  | None => Bytes []
  | Some x => if Z.sgn x =? 0 then Bytes [] else Bytes (be_min x)
  end.

Definition List (items : list (list byte)) : list byte :=
  let payload := concat items in
  lengthPrefix (len payload) 0xc0 ++ payload.

(** ** Decoding (rlp.go) *)

(** The accumulation loop of [readLen], at [uint64] width. *)
Definition readLen_acc (n : Z) (c : byte) : Z := Z.lor (u64 (Z.shiftl n 8)) (b2z c).

Definition readLen (data : list byte) (nLen : Z) : res Z :=
  if len data <? 1 + nLen then Err ErrShortInput
  else
    let? lb := or_panic (slice 1 (1 + nLen) data) in
    let? b0 := or_panic (head lb) in
    if b2z b0 =? 0 then Err ErrLeadingZero
    else
      let n := fold_left readLen_acc lb 0 in
      if n <? 56 then Err ErrCanon
      else if u64 (len data - (1 + nLen)) <? n then Err ErrShortInput
      else Ok n.

(** The item's content, whether it is a list, and the bytes that follow. *)
Definition readItem (data : list byte) : res (list byte * bool * list byte) :=
  match data with
  | [] => Err ErrShortInput
  | b0 :: _ =>
      let b := b2z b0 in
      if b <? 0x80 then
        let? s := or_panic (slice 0 1 data) in
        let? r := or_panic (slice 1 (len data) data) in
        Ok (s, false, r)
      else if b <? 0xb8 then
        let n := b - 0x80 in
        if len data <? 1 + n then Err ErrShortInput
        else
          let? s := or_panic (slice 1 (1 + n) data) in
          if (n =? 1) && match s with c :: _ => b2z c <? 0x80 | [] => false end
          then Err ErrCanon
          else
            let? r := or_panic (slice (1 + n) (len data) data) in
            Ok (s, false, r)
      else if b <? 0xc0 then
        let nLen := b - 0xb7 in
        let? n := readLen data nLen in
        let start := 1 + nLen in
        if len data <? start + n then Err ErrShortInput
        else
          let? s := or_panic (slice start (start + n) data) in
          let? r := or_panic (slice (start + n) (len data) data) in
          Ok (s, false, r)
      else if b <? 0xf8 then
        let n := b - 0xc0 in
        if len data <? 1 + n then Err ErrShortInput
        else
          let? s := or_panic (slice 1 (1 + n) data) in
          let? r := or_panic (slice (1 + n) (len data) data) in
          Ok (s, true, r)
      else
        let nLen := b - 0xf7 in
        let? n := readLen data nLen in
        let start := 1 + nLen in
        if len data <? start + n then Err ErrShortInput
        else
          let? s := or_panic (slice start (start + n) data) in
          let? r := or_panic (slice (start + n) (len data) data) in
          Ok (s, true, r)
  end.

(** The loop of [DecodeList]; each round consumes at least one byte, so
    [length payload] rounds are enough ([None]: out of fuel). *)
Fixpoint DecodeList_loop (fuel : nat) (payload : list byte) (out : list (list byte))
  : option (res (list (list byte))) :=
  match payload with
  | [] => Some (Ok out)
  | _ :: _ =>
      match fuel with
      | O => None
      | S f =>
          match readItem payload with
          | Ok (content, elemIsList, r) =>
              if elemIsList then Some (Err ErrNested)
              else DecodeList_loop f r (out ++ [content])
          | Err e => Some (Err e)
          | Panic => Some Panic
          end
      end
  end.

Definition DecodeList (data : list byte) : option (res (list (list byte))) :=
  match readItem data with
  | Ok (payload, isList, rest) =>
      if negb isList then Some (Err ErrExpectList)
      else if negb (len rest =? 0) then Some (Err ErrTrailing)
      else DecodeList_loop (length payload) payload []
  | Err e => Some (Err e)
  | Panic => Some Panic
  end.

(** ** The encoder of package [state] (src/state/rlp.go) *)

(** [for buf[i] == 0 { i++ }; buf[i:]] on eight bytes; running off the array panics. *)
Fixpoint strip_zeros (b : list byte) : option (list byte) :=
  match b with
  | [] => None
  | c :: r => if b2z c =? 0 then strip_zeros r else Some b
  end.

Definition rlpLength (n : Z) (offset : Z) : res (list byte) :=
  if n <? 56 then Ok [z2b (offset + n)]
  else
    let? lenBytes := or_panic (strip_zeros (be_fixed 8 (u64 n))) in
    Ok ([z2b (offset + 55 + len lenBytes)] ++ lenBytes).

Definition rlpBytes (b : list byte) : res (list byte) :=
  match b with
  | [c] => if b2z c <? 0x80 then Ok [c] else let? p := rlpLength (len b) 0x80 in Ok (p ++ b)
  | _ => let? p := rlpLength (len b) 0x80 in Ok (p ++ b)
  end.

Definition rlpUint (x : Z) : res (list byte) :=
  if x =? 0 then rlpBytes []
  else let? b := or_panic (strip_zeros (be_fixed 8 x)) in rlpBytes b.

Definition rlpList (items : list (list byte)) : res (list byte) :=
  let payload := concat items in
  let? p := rlpLength (len payload) 0xc0 in Ok (p ++ payload).

(** ** Lemmas: encoding *)

Lemma bigEndian_be_fixed x : bigEndian x = be_fixed 8 x.
Proof.
  unfold bigEndian. rewrite !Z.shiftr_div_pow2 by lia. cbn [be_fixed app].
  rewrite !Z.div_div by lia. reflexivity.
Qed.

Lemma trim_be2z l : be2z (trimLeadingZeros l) = be2z l.
Proof.
  induction l as [|b l IH]; [done|]. simpl. destruct (Z.eqb_spec (b2z b) 0) as [Hb|]; [|done].
  rewrite IH, be2z_cons, Hb. lia.
Qed.

Lemma trim_minimal l : minimal (trimLeadingZeros l).
Proof.
  induction l as [|b l IH]; [done|]. simpl. destruct (Z.eqb_spec (b2z b) 0); [apply IH|done].
Qed.

Lemma trim_be_min l : trimLeadingZeros l = be_min (be2z l).
Proof. rewrite <- (be_min_be2z (trimLeadingZeros l)) by apply trim_minimal. by rewrite trim_be2z. Qed.

Lemma trim_bigEndian x : 0 <= x < 2 ^ 64 -> trimLeadingZeros (bigEndian x) = be_min x.
Proof.
  intros Hx. rewrite trim_be_min, bigEndian_be_fixed, be2z_be_fixed.
  change (256 ^ Z.of_nat 8) with (2 ^ 64). by rewrite Z.mod_small.
Qed.

Lemma lengthPrefix_long n offset :
  56 <= n < 2 ^ 64 -> lengthPrefix n offset = z2b (offset + 55 + byteLen n) :: be_min n.
Proof.
  intros Hn. unfold lengthPrefix. destruct (Z.ltb_spec n 56); [lia|].
  rewrite u64_small, trim_bigEndian by lia. cbn [app]. by rewrite len_be_min.
Qed.

Lemma byteLen_u64 n : 0 < n < 2 ^ 64 -> 1 <= byteLen n <= 8.
Proof.
  intros Hn. split; [apply byteLen_pos; lia|]. apply byteLen_bound; [lia|].
  change (256 ^ 8) with (2 ^ 64). lia.
Qed.

Lemma Uint_be_min x : 0 <= x < 2 ^ 64 -> Uint x = Bytes (be_min x).
Proof. intros. unfold Uint. by rewrite trim_bigEndian. Qed.

Lemma Big_be_min x : Big (Some x) = Bytes (be_min x).
Proof. unfold Big. destruct (Z.eqb_spec (Z.sgn x) 0) as [H|]; [|done]. by assert (x = 0) as -> by lia. Qed.

(** A short string that is not a lone byte below [0x80]. *)
Definition lone_small (b : list byte) : bool :=
  match b with [c] => b2z c <? 0x80 | _ => false end.

Lemma Bytes_lone b : lone_small b = true -> Bytes b = b.
Proof. destruct b as [|c [|]]; simpl; try discriminate. by intros ->. Qed.

Lemma Bytes_prefixed b : lone_small b = false -> Bytes b = lengthPrefix (len b) 0x80 ++ b.
Proof. destruct b as [|c [|]]; simpl; try done. by intros ->. Qed.

(** ** Lemmas: decoding what was encoded *)

(** A number shifted left by eight and a byte share no bits. *)
Lemma land_shift_byte n c : Z.land (n * 256) (b2z c) = 0.
Proof.
  pose proof (b2z_range c) as Hc. apply Z.bits_inj'. intros i Hi.
  rewrite Z.land_spec, Z.bits_0. change 256 with (2 ^ 8) in *.
  destruct (Z.lt_ge_cases i 8); [by rewrite Z.mul_pow2_bits_low|].
  rewrite andb_comm, <- (Z.mod_small (b2z c) (2 ^ 8)), Z.mod_pow2_bits_high by lia. done.
Qed.

Lemma readLen_acc_be_acc n c : 0 <= n < 2 ^ 56 -> readLen_acc n c = be_acc n c.
Proof.
  intros Hn. unfold readLen_acc, be_acc. rewrite Z.shiftl_mul_pow2 by lia.
  change (2 ^ 8) with 256. rewrite u64_small by lia. pose proof (land_shift_byte n c) as Hl.
  rewrite <- Z.lxor_lor, <- Z.add_nocarry_lxor by done. done.
Qed.

Lemma readLen_fold l acc :
  0 <= acc -> acc * 256 ^ len l + be2z l < 2 ^ 64 ->
  fold_left readLen_acc l acc = fold_left be_acc l acc.
Proof.
  revert acc. induction l as [|b l IH]; intros acc Ha Hb; [done|].
  pose proof (b2z_range b). pose proof (be2z_range l). pose proof (len_nonneg l).
  rewrite be2z_cons, len_cons, Z.pow_add_r in Hb by lia.
  assert (0 < 256 ^ len l) by (apply Z.pow_pos_nonneg; lia).
  simpl. rewrite readLen_acc_be_acc by nia. apply IH; unfold be_acc; nia.
Qed.

Lemma readLen_fold_be2z l : len l <= 8 -> fold_left readLen_acc l 0 = be2z l.
Proof.
  intros Hl. apply readLen_fold; [lia|]. pose proof (be2z_range l) as [_ H].
  eapply Z.le_lt_trans; [|eapply Z.lt_le_trans; [exact H|]]; [lia|].
  change (2 ^ 64) with (256 ^ 8). apply Z.pow_le_mono_r; lia.
Qed.

(** A successful [readLen] returns the number the length bytes spell. *)
Lemma readLen_inv data nLen n :
  1 <= nLen <= 8 -> len data < 2 ^ 64 -> readLen data nLen = Ok n ->
  exists b0 lb rest, data = b0 :: lb ++ rest /\ len lb = nLen /\ minimal lb /\ be2z lb = n
    /\ 56 <= n <= len rest.
Proof.
  intros HnL Hd. unfold readLen. destruct (Z.ltb_spec (len data) (1 + nLen)); [done|].
  rewrite slice_some by lia. replace (1 + nLen - 1) with nLen by lia.
  destruct data as [|b0 data]; [rewrite len_nil in *; lia|]. rewrite len_cons in *.
  change (drop (Z.to_nat 1) (b0 :: data)) with data.
  assert (len (take (Z.to_nat nLen) data) = nLen) as Hlb by (apply len_take; lia).
  assert (len (drop (Z.to_nat nLen) data) = len data - nLen) as Hrest by (apply len_drop; lia).
  pose proof (take_drop (Z.to_nat nLen) data) as Hsplit.
  destruct (take (Z.to_nat nLen) data) as [|c lb]; [rewrite len_nil in Hlb; lia|].
  cbn [head or_panic res_bind]. destruct (Z.eqb_spec (b2z c) 0) as [|Hc]; [done|].
  rewrite readLen_fold_be2z by lia.
  destruct (Z.ltb_spec (be2z (c :: lb)) 56); [done|]. rewrite u64_small by lia.
  destruct (Z.ltb_spec (1 + len data - (1 + nLen)) (be2z (c :: lb))); [done|]. intros [= <-].
  exists b0, (c :: lb), (drop (Z.to_nat nLen) data). rewrite Hrest. rewrite Hsplit.
  repeat split; [done..|lia].
Qed.

Lemma readLen_encoded b0 n rest :
  56 <= n <= len rest -> len rest < 2 ^ 63 -> readLen (b0 :: be_min n ++ rest) (byteLen n) = Ok n.
Proof.
  intros Hn Hr. pose proof (byteLen_u64 n ltac:(lia)) as HL. unfold readLen.
  rewrite len_cons, len_app, len_be_min.
  destruct (Z.ltb_spec (1 + (byteLen n + len rest)) (1 + byteLen n)); [lia|].
  rewrite slice_some by (rewrite ?len_cons, ?len_app, ?len_be_min; lia).
  replace (1 + byteLen n - 1) with (byteLen n) by lia.
  change (drop (Z.to_nat 1) (b0 :: be_min n ++ rest)) with (be_min n ++ rest).
  rewrite take_app_length' by (by rewrite length_be_min). cbn [or_panic res_bind].
  pose proof (be_min_minimal n) as Hm. pose proof (be2z_be_min n) as Hv.
  pose proof (len_be_min n) as Hlen.
  destruct (be_min n) as [|c l] eqn:E; [rewrite len_nil in Hlen; lia|].
  cbn [head or_panic res_bind]. simpl in Hm. destruct (Z.eqb_spec (b2z c) 0); [done|].
  rewrite readLen_fold_be2z, Hv, Z.abs_eq by lia.
  destruct (Z.ltb_spec n 56); [lia|]. rewrite u64_small by lia.
  destruct (Z.ltb_spec (1 + (byteLen n + len rest) - (1 + byteLen n)) n); [lia|done].
Qed.

Lemma readLen_no_panic data nLen : 1 <= nLen -> readLen data nLen <> Panic.
Proof.
  intros HnL. unfold readLen. destruct (Z.ltb_spec (len data) (1 + nLen)); [done|].
  rewrite slice_some by lia. cbn [or_panic res_bind].
  destruct (take _ _) as [|c l] eqn:E; cbn [head or_panic res_bind].
  - apply (f_equal len) in E. rewrite len_take in E; [rewrite len_nil in E; lia|].
    rewrite len_drop; lia.
  - repeat case_match; done.
Qed.

(** Slicing a concatenation at its seams. *)
Lemma slice_mid {A} lo hi (a b c : list A) :
  len a = lo -> len b = hi - lo -> slice lo hi (a ++ b ++ c) = Some b.
Proof.
  intros Ha Hb. pose proof (len_nonneg a). pose proof (len_nonneg b). pose proof (len_nonneg c).
  rewrite slice_some by (autorewrite with golen; lia). f_equal.
  rewrite drop_app_length' by (unfold len in *; lia).
  by rewrite take_app_length' by (unfold len in *; lia).
Qed.

Lemma slice_tail {A} lo hi (a c : list A) :
  len a = lo -> hi = len (a ++ c) -> slice lo hi (a ++ c) = Some c.
Proof.
  intros Ha ->. rewrite <- (app_nil_r c) at 2. apply slice_mid; [done|].
  autorewrite with golen. lia.
Qed.

Lemma slice_cons_mid {A} hi (x : A) b c : len b = hi - 1 -> slice 1 hi (x :: b ++ c) = Some b.
Proof. intros. by apply (slice_mid 1 hi [x] b c). Qed.

Lemma readItem_lone c rest : b2z c < 0x80 -> readItem (c :: rest) = Ok ([c], false, rest).
Proof.
  intros Hc. unfold readItem. destruct (Z.ltb_spec (b2z c) 0x80); [|lia].
  pose proof (slice_mid 0 1 [] [c] rest eq_refl eq_refl) as H1.
  pose proof (slice_tail 1 _ [c] rest eq_refl eq_refl) as H2.
  cbn [app] in *. by rewrite H1, H2.
Qed.

Ltac ltb_cases :=
  repeat match goal with
  | |- context [?x <? ?y] => destruct (Z.ltb_spec x y); try lia
  end.

Lemma readItem_short_string b rest :
  lone_small b = false -> len b < 56 ->
  readItem (z2b (0x80 + len b) :: b ++ rest) = Ok (b, false, rest).
Proof.
  intros Hl Hb. pose proof (len_nonneg b). pose proof (len_nonneg rest). unfold readItem.
  rewrite z2b_small by lia. rewrite !len_cons, !len_app. ltb_cases.
  rewrite slice_cons_mid by lia. cbn [or_panic res_bind].
  assert ((0x80 + len b - 0x80 =? 1) && match b with c :: _ => b2z c <? 0x80 | [] => false end = false) as ->.
  { destruct b as [|c [|d b]]; simpl in *; try done. rewrite !len_cons. apply andb_false_iff. left.
    pose proof (len_nonneg b). apply Z.eqb_neq. lia. }
  rewrite (app_comm_cons b rest). rewrite slice_tail; [done|autorewrite with golen; lia..].
Qed.

Lemma readItem_long_string b rest :
  56 <= len b -> len b + len rest < 2 ^ 63 ->
  readItem (z2b (0xb7 + byteLen (len b)) :: be_min (len b) ++ b ++ rest) = Ok (b, false, rest).
Proof.
  intros Hb Hr. pose proof (len_nonneg rest).
  pose proof (byteLen_u64 (len b) ltac:(lia)) as HL. unfold readItem.
  rewrite z2b_small by lia. ltb_cases.
  replace (0xb7 + byteLen (len b) - 0xb7) with (byteLen (len b)) by lia.
  rewrite readLen_encoded by (autorewrite with golen; lia). cbn [res_bind].
  rewrite !len_cons, !len_app, len_be_min. ltb_cases.
  rewrite app_comm_cons.
  rewrite slice_mid by (rewrite ?len_cons, ?len_be_min; lia). cbn [or_panic res_bind].
  rewrite app_assoc. rewrite slice_tail; [done|autorewrite with golen; rewrite len_be_min; lia..].
Qed.

Lemma readItem_short_list p rest :
  len p < 56 -> readItem (z2b (0xc0 + len p) :: p ++ rest) = Ok (p, true, rest).
Proof.
  intros Hb. pose proof (len_nonneg p). pose proof (len_nonneg rest). unfold readItem.
  rewrite z2b_small by lia. rewrite !len_cons, !len_app. ltb_cases.
  rewrite slice_cons_mid by lia. cbn [or_panic res_bind].
  rewrite (app_comm_cons p rest). rewrite slice_tail; [done|autorewrite with golen; lia..].
Qed.

Lemma readItem_long_list p rest :
  56 <= len p -> len p + len rest < 2 ^ 63 ->
  readItem (z2b (0xf7 + byteLen (len p)) :: be_min (len p) ++ p ++ rest) = Ok (p, true, rest).
Proof.
  intros Hb Hr. pose proof (len_nonneg rest).
  pose proof (byteLen_u64 (len p) ltac:(lia)) as HL. unfold readItem.
  rewrite z2b_small by lia. ltb_cases.
  replace (0xf7 + byteLen (len p) - 0xf7) with (byteLen (len p)) by lia.
  rewrite readLen_encoded by (autorewrite with golen; lia). cbn [res_bind].
  rewrite !len_cons, !len_app, len_be_min. ltb_cases.
  rewrite app_comm_cons.
  rewrite slice_mid by (rewrite ?len_cons, ?len_be_min; lia). cbn [or_panic res_bind].
  rewrite app_assoc. rewrite slice_tail; [done|autorewrite with golen; rewrite len_be_min; lia..].
Qed.

Lemma readItem_Bytes b rest :
  len b + len rest < 2 ^ 63 -> readItem (Bytes b ++ rest) = Ok (b, false, rest).
Proof.
  intros Hr. pose proof (len_nonneg rest). destruct (lone_small b) eqn:El.
  - destruct b as [|c [|]]; try discriminate. simpl in El. simpl Bytes. rewrite El.
    apply readItem_lone. by apply Z.ltb_lt.
  - rewrite Bytes_prefixed, <- app_assoc by done.
    destruct (Z.ltb_spec (len b) 56).
    + unfold lengthPrefix. destruct (Z.ltb_spec (len b) 56); [|lia].
      cbn [app]. by apply readItem_short_string.
    + rewrite lengthPrefix_long by lia. cbn [app]. by apply readItem_long_string.
Qed.

Lemma readItem_List p rest :
  len p + len rest < 2 ^ 63 -> readItem (lengthPrefix (len p) 0xc0 ++ p ++ rest) = Ok (p, true, rest).
Proof.
  intros Hr. pose proof (len_nonneg rest). destruct (Z.ltb_spec (len p) 56).
  - unfold lengthPrefix. destruct (Z.ltb_spec (len p) 56); [|lia]. cbn [app]. by apply readItem_short_list.
  - rewrite lengthPrefix_long by lia. cbn [app]. by apply readItem_long_list.
Qed.

(** ** Lemmas: what the decoder accepts *)

Lemma readLen_ge data nLen n : readLen data nLen = Ok n -> 56 <= n.
Proof.
  unfold readLen. intros H. destruct (_ <? 1 + nLen); [done|].
  destruct (slice _ _ _) as [lb|]; [|done]. cbn [or_panic res_bind] in H.
  destruct (head lb) as [b|]; [|done]. cbn [or_panic res_bind] in H.
  destruct (b2z b =? 0); [done|]. destruct (Z.ltb_spec (fold_left readLen_acc lb 0) 56); [done|].
  destruct (_ <? _); [done|]. by injection H as <-.
Qed.

Lemma readItem_no_panic data : readItem data <> Panic.
Proof.
  unfold readItem. destruct data as [|b0 data]; [done|].
  set (d := b0 :: data). pose proof (len_nonneg data) as Hd. assert (len d = 1 + len data) as Hld by apply len_cons.
  pose proof (b2z_range b0).
  repeat match goal with
  | |- context [?x <? ?y] => destruct (Z.ltb_spec x y)
  | |- context [slice ?lo ?hi d] => rewrite (slice_some lo hi d) by lia; cbn [or_panic res_bind]
  | |- context [readLen d ?n] =>
      let E := fresh in destruct (readLen d n) eqn:E; cbn [res_bind]; [apply readLen_ge in E|done|by apply readLen_no_panic in E; lia]
  | |- (if ?b then _ else _) <> _ => destruct b
  | |- Ok _ <> Panic => done
  | |- Err _ <> Panic => done
  end.
Qed.

(** Cutting [1 + n] bytes off the front of a string and keeping both parts. *)
Lemma slice_two {A} (x : A) data n s r :
  slice 1 (1 + n) (x :: data) = Some s -> slice (1 + n) (len (x :: data)) (x :: data) = Some r ->
  data = s ++ r /\ len s = n.
Proof.
  intros (H1 & H2 & ->)%slice_inv (H3 & H4 & ->)%slice_inv. rewrite len_cons in *.
  replace (1 + n - 1) with n by lia. change (drop (Z.to_nat 1) (x :: data)) with data.
  replace (Z.to_nat (1 + n)) with (S (Z.to_nat n)) by lia. rewrite skipn_cons.
  rewrite (take_ge (drop _ _)) by (rewrite length_drop; unfold len in *; lia).
  split; [by rewrite take_drop|]. apply len_take. lia.
Qed.

Lemma slice_two_at {A} (a data : list A) n s r :
  slice (len a) (len a + n) (a ++ data) = Some s ->
  slice (len a + n) (len (a ++ data)) (a ++ data) = Some r -> data = s ++ r /\ len s = n.
Proof.
  intros (H1 & H2 & ->)%slice_inv (H3 & H4 & ->)%slice_inv. rewrite len_app in *.
  pose proof (len_nonneg a). replace (len a + n - len a) with n by lia.
  rewrite (drop_app_length' a data (Z.to_nat (len a))) by (unfold len; lia).
  rewrite (take_ge (drop _ _)) by (rewrite length_drop, length_app; unfold len in *; lia).
  replace (Z.to_nat (len a + n)) with (length a + Z.to_nat n)%nat by (unfold len; lia).
  rewrite drop_app_add. split; [by rewrite take_drop|]. apply len_take. lia.
Qed.

(** What a short (one-byte) prefix and a long prefix delimit is what the encoder wrote. *)
Lemma short_prefix_inv b0 data off n c rest :
  b2z b0 = off + n -> n < 56 ->
  slice 1 (1 + n) (b0 :: data) = Some c ->
  slice (1 + n) (len (b0 :: data)) (b0 :: data) = Some rest ->
  b0 :: data = (lengthPrefix (len c) off ++ c) ++ rest.
Proof.
  intros Hb Hn Es Er. destruct (slice_two _ _ _ _ _ Es Er) as [-> Hc]. rewrite Hc.
  unfold lengthPrefix. destruct (Z.ltb_spec n 56); [|lia]. rewrite <- Hb, z2b_b2z. done.
Qed.

Lemma long_prefix_inv b0 data off nLen n c rest :
  len (b0 :: data) < 2 ^ 64 -> b2z b0 = off + 55 + nLen -> 1 <= nLen <= 8 ->
  readLen (b0 :: data) nLen = Ok n ->
  slice (1 + nLen) (1 + nLen + n) (b0 :: data) = Some c ->
  slice (1 + nLen + n) (len (b0 :: data)) (b0 :: data) = Some rest ->
  56 <= len c /\ b0 :: data = (lengthPrefix (len c) off ++ c) ++ rest.
Proof.
  intros Hd Hb HnL En Es Er.
  apply readLen_inv in En as (b1 & lb & r' & [= <- ->] & Hlb & Hm & <- & Hn56 & Hn); [|done..].
  replace (1 + nLen) with (len (b0 :: lb)) in Es, Er by (rewrite len_cons; lia).
  rewrite app_comm_cons in Es, Er. destruct (slice_two_at _ _ _ _ _ Es Er) as [-> Hc].
  rewrite Hc. split; [done|]. pose proof (len_nonneg rest). pose proof (len_nonneg lb).
  rewrite len_cons, !len_app in Hd.
  assert (byteLen (be2z lb) = nLen) as Hbl by (by rewrite <- len_be_min, be_min_be2z).
  rewrite lengthPrefix_long, be_min_be2z, Hbl, <- Hb, z2b_b2z, <- !app_assoc by (done || lia). done.
Qed.

(** Whatever the decoder accepts, the encoder wrote: there is one encoding per item. *)
Lemma readItem_inv data c isList rest :
  len data < 2 ^ 64 -> readItem data = Ok (c, isList, rest) ->
  data = (if isList then lengthPrefix (len c) 0xc0 ++ c else Bytes c) ++ rest.
Proof.
  intros Hd. unfold readItem. destruct data as [|b0 data]; [done|].
  pose proof (b2z_range b0) as Hb0.
  destruct (Z.ltb_spec (b2z b0) 0x80); [|destruct (Z.ltb_spec (b2z b0) 0xb8);
    [|destruct (Z.ltb_spec (b2z b0) 0xc0); [|destruct (Z.ltb_spec (b2z b0) 0xf8)]]].
  - destruct (slice 0 1 _) as [s|] eqn:Es; [|done]. cbn [or_panic res_bind].
    destruct (slice 1 _ _) as [r|] eqn:Er; [|done]. cbn [or_panic res_bind]. intros [= -> <- ->].
    apply slice_inv in Es as (_ & _ & ->). apply slice_inv in Er as (_ & _ & ->).
    change (take (Z.to_nat (1 - 0)) (drop (Z.to_nat 0) (b0 :: data))) with [b0].
    simpl Bytes. destruct (Z.ltb_spec (b2z b0) 0x80); [|lia]. rewrite len_cons.
    replace (Z.to_nat (1 + len data - 1)) with (length data) by (unfold len; lia).
    change (drop (Z.to_nat 1) (b0 :: data)) with data. by rewrite firstn_all.
  - destruct (_ <? _); [done|].
    destruct (slice 1 _ _) as [s|] eqn:Es; [|done]. cbn [or_panic res_bind].
    destruct ((_ =? 1) && _) eqn:Ec; [done|].
    destruct (slice (1 + _) _ _) as [r|] eqn:Er; [|done]. cbn [or_panic res_bind].
    intros [= -> <- ->]. rewrite Bytes_prefixed; [eapply short_prefix_inv; [|..|exact Er]; eauto; lia|].
    apply slice_len in Es. destruct c as [|x [|y c]]; try done.
    change (len [x]) with 1 in Es. destruct (Z.eqb_spec (b2z b0 - 128) 1); [exact Ec|lia].
  - destruct (readLen _ _) as [n| |] eqn:En; try done. cbn [res_bind]. destruct (_ <? _); [done|].
    destruct (slice _ (_ + n) _) as [s|] eqn:Es; [|done]. cbn [or_panic res_bind].
    destruct (slice (_ + n) _ _) as [r|] eqn:Er; [|done]. cbn [or_panic res_bind].
    intros [= -> <- ->].
    destruct (long_prefix_inv _ _ 0x80 (b2z b0 - 0xb7) _ _ _ Hd ltac:(lia) ltac:(lia) En Es Er) as [Hc ->].
    rewrite Bytes_prefixed; [done|].
    destruct c as [|x [|y c]]; [done|change (len [x]) with 1 in Hc; lia|done].
  - destruct (_ <? _); [done|].
    destruct (slice 1 _ _) as [s|] eqn:Es; [|done]. cbn [or_panic res_bind].
    destruct (slice (1 + _) _ _) as [r|] eqn:Er; [|done]. cbn [or_panic res_bind].
    intros [= -> <- ->]. eapply short_prefix_inv; [|..|exact Er]; eauto; lia.
  - destruct (readLen _ _) as [n| |] eqn:En; try done. cbn [res_bind]. destruct (_ <? _); [done|].
    destruct (slice _ (_ + n) _) as [s|] eqn:Es; [|done]. cbn [or_panic res_bind].
    destruct (slice (_ + n) _ _) as [r|] eqn:Er; [|done]. cbn [or_panic res_bind].
    intros [= -> <- ->].
    destruct (long_prefix_inv _ _ 0xc0 (b2z b0 - 0xf7) _ _ _ Hd ltac:(lia) ltac:(lia) En Es Er) as [_ ->]. done.
Qed.

(** ** Lemmas: flat lists *)

Lemma Bytes_nonempty b : len (Bytes b) <> 0.
Proof.
  destruct (lone_small b) eqn:E.
  - rewrite Bytes_lone by done. by destruct b as [|x [|y b]].
  - rewrite Bytes_prefixed by done. unfold lengthPrefix. pose proof (len_nonneg b).
    case_match; autorewrite with golen; [lia|].
    pose proof (len_nonneg (trimLeadingZeros (bigEndian (u64 (len b))))). lia.
Qed.

Lemma Bytes_len_ge b : len b <= len (Bytes b).
Proof.
  destruct (lone_small b) eqn:E; [by rewrite Bytes_lone|].
  rewrite Bytes_prefixed, len_app by done. pose proof (len_nonneg (lengthPrefix (len b) 128)). lia.
Qed.

Lemma DecodeList_loop_encoded items fuel out :
  len (concat (map Bytes items)) < 2 ^ 63 -> (length (concat (map Bytes items)) <= fuel)%nat ->
  DecodeList_loop fuel (concat (map Bytes items)) out = Some (Ok (out ++ items)).
Proof.
  revert fuel out. induction items as [|b items IH]; intros fuel out Hl Hf; simpl in *.
  { destruct fuel; simpl; by rewrite app_nil_r. }
  pose proof (Bytes_nonempty b) as Hne. pose proof (Bytes_len_ge b). rewrite len_app in Hl.
  pose proof (len_nonneg (concat (map Bytes items))). pose proof (len_nonneg b).
  destruct (Bytes b ++ concat (map Bytes items)) as [|x l] eqn:E.
  { apply app_eq_nil in E as [E _]. by rewrite E in Hne. }
  rewrite <- E in Hf. rewrite length_app in Hf. unfold len in Hne.
  destruct fuel as [|fuel]; [lia|]. cbn [DecodeList_loop]. rewrite <- E.
  rewrite readItem_Bytes by lia. rewrite IH, <- app_assoc by lia. done.
Qed.

Lemma DecodeList_List_lemma items :
  len (concat (map Bytes items)) < 2 ^ 63 -> DecodeList (List (map Bytes items)) = Some (Ok items).
Proof.
  intros Hl. unfold DecodeList, List. rewrite <- (app_nil_r (concat (map Bytes items))) at 2.
  rewrite readItem_List by (rewrite len_nil; lia). simpl. by apply DecodeList_loop_encoded.
Qed.

(** An accepted item is followed by a strictly shorter string, so the fuel suffices. *)
Lemma readItem_shorter data c rest :
  len data < 2 ^ 64 -> readItem data = Ok (c, false, rest) -> (length rest < length data)%nat.
Proof.
  intros Hd H%readItem_inv; [|done]. subst data. rewrite length_app.
  pose proof (Bytes_nonempty c). unfold len in *. lia.
Qed.

Lemma DecodeList_loop_total fuel payload out :
  len payload < 2 ^ 64 -> (length payload <= fuel)%nat ->
  DecodeList_loop fuel payload out <> None /\ DecodeList_loop fuel payload out <> Some Panic.
Proof.
  revert payload out. induction fuel as [|fuel IH]; intros [|x p] out Hl Hf; simpl in Hf; try done; try lia.
  cbn [DecodeList_loop]. pose proof (readItem_no_panic (x :: p)).
  destruct (readItem (x :: p)) as [[[c []] r]| |] eqn:E; try done.
  apply readItem_shorter in E; [|done]. simpl in E. unfold len in *. simpl length in Hl.
  apply IH; lia.
Qed.

Lemma DecodeList_loop_inv fuel payload out items :
  len payload < 2 ^ 64 -> DecodeList_loop fuel payload out = Some (Ok items) ->
  exists new, items = out ++ new /\ payload = concat (map Bytes new).
Proof.
  revert payload out. induction fuel as [|fuel IH]; intros [|x p] out Hl H; cbn [DecodeList_loop] in H; try done.
  - injection H as <-. exists []. by rewrite app_nil_r.
  - injection H as <-. exists []. by rewrite app_nil_r.
  - destruct (readItem (x :: p)) as [[[c []] r]| |] eqn:E; try done.
    apply readItem_inv in E; [|done]. rewrite E in Hl |- *. rewrite len_app in Hl.
    pose proof (len_nonneg (Bytes c)).
    apply IH in H as (new & -> & ->); [|lia]. exists (c :: new). by rewrite <- app_assoc.
Qed.

Lemma readItem_len data c l rest :
  len data < 2 ^ 64 -> readItem data = Ok (c, l, rest) -> len c <= len data.
Proof.
  intros Hd H%readItem_inv; [|done]. subst data. pose proof (len_nonneg rest).
  destruct l; rewrite !len_app; [|pose proof (Bytes_len_ge c); lia].
  pose proof (len_nonneg (lengthPrefix (len c) 192)). lia.
Qed.

Lemma DecodeList_canonical_lemma data items :
  len data < 2 ^ 63 -> DecodeList data = Some (Ok items) -> data = List (map Bytes items).
Proof.
  unfold DecodeList, List. intros Hd H.
  destruct (readItem data) as [[[p []] rest]| |] eqn:E; try done. simpl in H.
  destruct (Z.eqb_spec (len rest) 0) as [->%len_zero_inv|]; [|done]. simpl in H.
  pose proof (readItem_len data _ _ _ ltac:(lia) E).
  apply readItem_inv in E; [|lia]. apply DecodeList_loop_inv in H as (new & -> & ->); [|lia].
  by rewrite app_nil_r in E.
Qed.

Lemma DecodeList_total_lemma data :
  len data < 2 ^ 63 -> exists r, DecodeList data = Some r /\ r <> Panic.
Proof.
  intros Hd. unfold DecodeList. pose proof (readItem_no_panic data).
  destruct (readItem data) as [[[p []] rest]| |] eqn:E; try by eauto.
  simpl. destruct (len rest =? 0); simpl; [|by eauto].
  pose proof (readItem_len data _ _ _ ltac:(lia) E).
  destruct (DecodeList_loop_total (length p) p []) as [H1 H2]; [lia|lia|].
  destruct (DecodeList_loop _ _ _) as [r|]; [|done]. exists r. split; [done|]. by intros ->.
Qed.

(** ** Properties *)

(** Round trip.  Decoding the RLP list of any byte strings gives back exactly those strings
    (for payloads a Go slice can hold), so no signed field is lost or altered on the wire. *)
Theorem DecodeList_List items :
  len (concat (map Bytes items)) < 2 ^ 63 -> DecodeList (List (map Bytes items)) = Some (Ok items).
Proof. apply DecodeList_List_lemma. Qed.

Lemma DecodeList_List_witness :
  DecodeList (List (map Bytes [[]; [x05]; [x80]; replicate 60 x11]))
  = Some (Ok [[]; [x05]; [x80]; replicate 60 x11]).
Proof. apply (DecodeList_List [[]; [x05]; [x80]; replicate 60 x11]). vm_compute. reflexivity. Defined.

(** Canonicity.  Whatever [DecodeList] accepts is, byte for byte, the encoding of the items it
    returns: padding, non-minimal lengths and trailing bytes are all rejected, so a transaction has
    one encoding and its hash cannot be malleated through the wire format. *)
Theorem DecodeList_canonical data items :
  len data < 2 ^ 63 -> DecodeList data = Some (Ok items) -> data = List (map Bytes items).
Proof. apply DecodeList_canonical_lemma. Qed.

Lemma DecodeList_canonical_witness : [xc2; x05; x80] = List (map Bytes [[x05]; []]).
Proof. apply DecodeList_canonical; vm_compute; reflexivity. Defined.

(** Totality.  On every input (of a length a Go slice can have) the decoder returns a value or
    an error: it never indexes out of range, never loops, and never runs out of fuel in the model. *)
Theorem DecodeList_total data :
  len data < 2 ^ 63 -> exists r, DecodeList data = Some r /\ r <> Panic.
Proof. apply DecodeList_total_lemma. Qed.

Lemma DecodeList_total_witness : exists r, DecodeList [xf9; x00] = Some r /\ r <> Panic.
Proof. apply DecodeList_total. vm_compute. reflexivity. Defined.

(** ** Lemmas: the encoder of package [state] is this one *)

Lemma strip_zeros_trim b : be2z b <> 0 -> strip_zeros b = Some (trimLeadingZeros b).
Proof.
  induction b as [|c b IH]; [done|]. simpl. intros H. destruct (Z.eqb_spec (b2z c) 0) as [E|]; [|done].
  apply IH. rewrite be2z_cons, E in H. lia.
Qed.

Lemma strip_zeros_u64 x : 0 < x < 2 ^ 64 -> strip_zeros (be_fixed 8 x) = Some (trimLeadingZeros (bigEndian x)).
Proof.
  intros Hx. rewrite bigEndian_be_fixed. apply strip_zeros_trim. rewrite be2z_be_fixed.
  change (256 ^ Z.of_nat 8) with (2 ^ 64). rewrite Z.mod_small; lia.
Qed.

Lemma rlpLength_lengthPrefix n off : n < 2 ^ 64 -> rlpLength n off = Ok (lengthPrefix n off).
Proof.
  intros Hn. unfold rlpLength, lengthPrefix. destruct (Z.ltb_spec n 56); [done|].
  rewrite strip_zeros_u64 by (rewrite u64_small; lia). done.
Qed.

Lemma rlpBytes_Bytes b : len b < 2 ^ 64 -> rlpBytes b = Ok (Bytes b).
Proof.
  intros Hb. unfold rlpBytes, Bytes. rewrite !rlpLength_lengthPrefix by done.
  by destruct b as [|c [|]]; [..|destruct (_ <? _)|].
Qed.

Lemma rlpUint_Uint x : 0 <= x < 2 ^ 64 -> rlpUint x = Ok (Uint x).
Proof.
  intros Hx. unfold rlpUint. destruct (Z.eqb_spec x 0) as [->|]; [done|].
  rewrite strip_zeros_u64 by lia. cbn [or_panic res_bind]. rewrite rlpBytes_Bytes; [done|].
  rewrite trim_bigEndian, len_be_min by done. pose proof (byteLen_u64 x). lia.
Qed.

(** Equivalence.  The RLP encoder that package [state] uses for contract addresses produces the
    same bytes as package [rlp]'s, and its leading-zero loop never runs off its eight-byte buffer. *)
Theorem state_rlp_equiv b x items :
  len b < 2 ^ 64 -> 0 <= x < 2 ^ 64 -> len (concat items) < 2 ^ 64 ->
  rlpBytes b = Ok (Bytes b) /\ rlpUint x = Ok (Uint x) /\ rlpList items = Ok (List items).
Proof.
  intros Hb Hx Hi. split_and!; [by apply rlpBytes_Bytes|by apply rlpUint_Uint|].
  unfold rlpList. by rewrite rlpLength_lengthPrefix.
Qed.

Lemma state_rlp_equiv_witness :
  rlpBytes [x80] = Ok (Bytes [x80]) /\ rlpUint 1024 = Ok (Uint 1024)
  /\ rlpList [[x01]] = Ok (List [[x01]]).
Proof. apply (state_rlp_equiv [x80] 1024 [[x01]]); vm_compute; auto; split; congruence. Defined.
