(* ===== verification/Types.v ===== *)
(** * Packages [crypto] and [types]: transactions, headers, receipts, Merkle roots

    Models src/crypto/keys.go and src/types/{tx,block,merkle,receipt}.go.
    [uint64] fields are integers kept in range by the well-formedness
    predicates, nil-able [*big.Int] and [*Address] fields are options.  The
    [hash] and [sender] caches of a transaction are not modelled: they hold the
    value of a function of fields that do not change after signing ([Sign]
    clears them); the cache of a header, which the miner does mutate, is
    modelled in Pow.v.

    What a digest commits to is stated without assuming that Keccak is
    injective: two values with one digest are equal as long as it tells apart
    the byte strings that were hashed for these two values
    ([collision_free]). *)
From stdpp Require Import base numbers list sets.
From Stdlib Require Import ZArith Lia Strings.Byte.
From S2P Require Import Prelude Common Rlp.
#[local] Open Scope Z_scope.
#[local] Open Scope go_scope.
#[local] Open Scope list_scope.

(** ** Gas schedule of a transaction (block.go) *)

Definition IntrinsicGas : Z := 21000.
Definition TxGasContractCreation : Z := 53000.
Definition TxDataNonZeroGas : Z := 16.
Definition TxDataZeroGas : Z := 4.

Fixpoint dataGas (gas : Z) (data : list byte) : Z :=
  match data with
  | [] => gas
  | b :: r => dataGas (u64 (gas + (if b2z b =? 0 then TxDataZeroGas else TxDataNonZeroGas))) r
  end.

Definition IntrinsicGasFor (data : list byte) (isCreate : bool) : Z :=
  dataGas (if isCreate then TxGasContractCreation else IntrinsicGas) data.

(** ** Data (tx.go, block.go, receipt.go) *)

Definition TxTypeTransfer : Z := 0x00.
Definition TxTypeEthLegacy : Z := 0x64.

Definition isKnownTxType (t : Z) : bool := (t =? TxTypeTransfer) || (t =? TxTypeEthLegacy).

Record Transaction : Type := mkTx {
  tx_Type : Z;
  tx_ChainID : Z;
  tx_Nonce : Z;
  tx_To : option Address;
  tx_Value : option Z;
  tx_GasLimit : Z;
  tx_GasPrice : option Z;
  tx_Data : list byte;
  tx_Sig : list byte;
}.

Definition NewTransaction (chainID nonce : Z) (to : Address) (value gasLimit gasPrice : Z)
    (data : list byte) : Transaction :=
  mkTx TxTypeTransfer chainID nonce (Some to) (Some value) gasLimit (Some gasPrice) data [].

Record Header : Type := mkHeader {
  ParentHash : Hash;
  Height : Z;
  Timestamp : Z;
  h_TxRoot : Hash;
  h_ReceiptRoot : Hash;
  StateRoot : Hash;
  h_GasUsed : Z;
  h_GasLimit : Z;
  Proposer : Address;
  Difficulty : Z;
  h_Nonce : Z;
}.

#[export] Instance Transaction_eq_dec : EqDecision Transaction.
Proof. solve_decision. Defined.

#[export] Instance Header_eq_dec : EqDecision Header.
Proof. solve_decision. Defined.

Record Block : Type := mkBlock { b_Header : Header; b_Txs : list Transaction }.

#[export] Instance Block_eq_dec : EqDecision Block.
Proof. solve_decision. Defined.

Definition ReceiptFailed : Z := 0.
Definition ReceiptSuccess : Z := 1.

Record Receipt : Type := mkReceipt {
  Status : Z;
  CumulativeGasUsed : Z;
  r_GasUsed : Z;
  Logs : list Log;
}.

Definition SignatureLength : Z := 65.

Section Types.
Context `{Crypto}.

(** ** Package [crypto] (keys.go) *)

Definition PrivateKeyFromHex (s : list byte) : res privKey :=
  let? b := hex_DecodeString (trim0x s) in
  if negb (len b =? 32) then Err ErrKeyLength else Ok (PrivKeyFromBytes b).

Definition PrivateKey_Hex (k : privKey) : list byte := [x30; x78] ++ hex_EncodeToString (abytes (Serialize k)).

(** [keccak256(raw[1:])[12:]]: the tag byte stripped, the last twenty bytes kept. *)
Definition PublicKey_Address (raw : array 65) : Address :=
  let h := Keccak256 [drop 1 (abytes raw)] in
  array_of AddressLength (drop 12 (abytes h)).

Definition PrivateKey_Address (k : privKey) : Address := PublicKey_Address (PubKey k).

Definition crypto_Sign (digest : Hash) (key : privKey) : res (list byte) :=
  let sig := SignCompact key digest in
  if negb (len sig =? SignatureLength) then Err ErrSigLength else Ok sig.

Definition halfOrder : Z := Z.shiftr curveN 1.

Definition checkLowS (sig : list byte) : res unit :=
  if negb (len sig =? SignatureLength) then Err ErrSigLength
  else
    let? sb := or_panic (slice 33 65 sig) in
    if halfOrder <? be2z sb then Err ErrHighS else Ok tt.

Definition Recover (digest : Hash) (sig : list byte) : res (array 65) :=
  let? _ := checkLowS sig in
  if negb (len sig =? SignatureLength) then Err ErrSigLength
  else match RecoverCompact sig digest with
       | Some pub => Ok pub
       | None => Err ErrRecover
       end.

Definition RecoverAddress (digest : Hash) (sig : list byte) : res Address :=
  let? pub := Recover digest sig in Ok (PublicKey_Address pub).

(** ** Transactions (tx.go, and the digests of eth.go) *)

Definition addrBytes (to : option Address) : list byte :=
  match to with None => [] | Some a => abytes a end.

(** The EIP-155 preimage of [ethSigningHash]. *)
Definition ethSigningItems (tx : Transaction) : list (list byte) :=
  [Uint (tx_Nonce tx); Big (tx_GasPrice tx); Uint (tx_GasLimit tx);
   Bytes (addrBytes (tx_To tx)); Big (tx_Value tx); Bytes (tx_Data tx);
   Uint (tx_ChainID tx); Bytes []; Bytes []].

Definition ethSigningHash (tx : Transaction) : Hash := Keccak256 [List (ethSigningItems tx)].

(** The native preimage of [SigningHash]. *)
Definition signingPreimage (tx : Transaction) : list byte :=
  Encoder_Uint64 (tx_Type tx) ++ Encoder_Uint64 (tx_ChainID tx) ++ Encoder_Uint64 (tx_Nonce tx)
  ++ Encoder_OptionalAddress (tx_To tx) ++ Encoder_BigInt (tx_Value tx)
  ++ Encoder_Uint64 (tx_GasLimit tx) ++ Encoder_BigInt (tx_GasPrice tx) ++ Encoder_Bytes (tx_Data tx).

Definition SigningHash (tx : Transaction) : Hash :=
  if tx_Type tx =? TxTypeEthLegacy then ethSigningHash tx
  else Keccak256 [signingPreimage tx].

(** [uint64(tx.Sig[0] - 27)] (the subtraction at byte width), [v], and the signed RLP; nil for
    a signature that is not 65 bytes long. *)
Definition EncodeEthRaw (tx : Transaction) : list byte :=
  match tx_Sig tx with
  | sig0 :: _ =>
      if negb (len (tx_Sig tx) =? 65) then []
      else
        let recid := (b2z sig0 - 27) mod 256 in
        let v := u64 (tx_ChainID tx * 2 + 35 + recid) in
        let r := be2z (take 32 (drop 1 (tx_Sig tx))) in
        let s := be2z (take 32 (drop 33 (tx_Sig tx))) in
        List [Uint (tx_Nonce tx); Big (tx_GasPrice tx); Uint (tx_GasLimit tx);
              Bytes (addrBytes (tx_To tx)); Big (tx_Value tx); Bytes (tx_Data tx);
              Uint v; Big (Some r); Big (Some s)]
  | [] => []
  end.

Definition ethRawHash (tx : Transaction) : Hash := Keccak256 [EncodeEthRaw tx].

Definition tx_Hash (tx : Transaction) : Hash :=
  if (tx_Type tx =? TxTypeEthLegacy) && (len (tx_Sig tx) =? 65) then ethRawHash tx
  else Keccak256 [Encoder_Raw (abytes (SigningHash tx)) ++ Encoder_Bytes (tx_Sig tx)].

Definition tx_Sign (tx : Transaction) (key : privKey) : res Transaction :=
  let? sig := crypto_Sign (SigningHash tx) key in
  Ok (mkTx (tx_Type tx) (tx_ChainID tx) (tx_Nonce tx) (tx_To tx) (tx_Value tx) (tx_GasLimit tx)
        (tx_GasPrice tx) (tx_Data tx) sig).

Definition Sender (tx : Transaction) : res Address :=
  if negb (len (tx_Sig tx) =? SignatureLength) then Err ErrTxUnsigned
  else match RecoverAddress (SigningHash tx) (tx_Sig tx) with
       | Ok addr => Ok addr
       | Err _ => Err ErrBadSignature
       | Panic => Panic
       end.

Definition SanityCheck (tx : Transaction) (chainID : Z) : res unit :=
  if negb (isKnownTxType (tx_Type tx)) then Err ErrTxType
  else if negb (tx_ChainID tx =? chainID) then Err ErrChainID
  else match tx_Value tx with
  | None => Err ErrNegativeValue
  | Some value =>
      if Z.sgn value <? 0 then Err ErrNegativeValue
      else match tx_GasPrice tx with
      | None => Err ErrNegativeGasPrice
      | Some gasPrice =>
          if Z.sgn gasPrice <? 0 then Err ErrNegativeGasPrice
          else if tx_GasLimit tx <? IntrinsicGasFor (tx_Data tx) (bool_decide (tx_To tx = None))
          then Err ErrBelowIntrinsic
          else if negb (len (tx_Sig tx) =? SignatureLength) then Err ErrTxUnsigned
          else let? _ := Sender tx in Ok tt
      end
  end.

(** [GasLimit * GasPrice + Value]; a nil [*big.Int] operand panics. *)
Definition Cost (tx : Transaction) : res Z :=
  let? gasPrice := or_panic (tx_GasPrice tx) in
  let? value := or_panic (tx_Value tx) in
  Ok (tx_GasLimit tx * gasPrice + value).

(** ** Headers (block.go) *)

Definition headerPreimage (h : Header) : list byte :=
  Encoder_Raw (abytes (ParentHash h)) ++ Encoder_Uint64 (Height h) ++ Encoder_Int64 (Timestamp h)
  ++ Encoder_Raw (abytes (h_TxRoot h)) ++ Encoder_Raw (abytes (h_ReceiptRoot h))
  ++ Encoder_Raw (abytes (StateRoot h)) ++ Encoder_Uint64 (h_GasUsed h)
  ++ Encoder_Uint64 (h_GasLimit h) ++ Encoder_Raw (abytes (Proposer h))
  ++ Encoder_Uint64 (Difficulty h) ++ Encoder_Uint64 (h_Nonce h).

Definition Header_Hash (h : Header) : Hash := Keccak256 [headerPreimage h].

Definition Block_Hash (b : Block) : Hash := Header_Hash (b_Header b).
Definition Block_Height (b : Block) : Z := Height (b_Header b).

(** ** Merkle roots (merkle.go) *)

Definition leafTag : list byte := [x00].
Definition nodeTag : list byte := [x01].

Definition hashLeaf (data : list byte) : Hash := Keccak256 [leafTag; data].
Definition hashNode (l r : Hash) : Hash := Keccak256 [nodeTag; abytes l; abytes r].

(** One round of the loop: neighbours hashed together, an odd last node promoted. *)
Fixpoint merkle_next (layer : list Hash) : list Hash :=
  match layer with
  | l :: r :: rest => hashNode l r :: merkle_next rest
  | _ => layer
  end.

(** [for len(layer) > 1 {...}; return layer[0]]; [None]: out of fuel, or an empty layer. *)
Fixpoint merkle_loop (fuel : nat) (layer : list Hash) : option Hash :=
  match layer with
  | [] => None
  | [h] => Some h
  | _ => match fuel with
         | O => None
         | S f => merkle_loop f (merkle_next layer)
         end
  end.

(** A round more than halves the layer, so [length leaves] rounds are enough
    ([merkle_loop_total]): the default is never taken. *)
Definition MerkleRoot (leaves : list (list byte)) : Hash :=
  match leaves with
  | [] => ZeroHash
  | _ => default ZeroHash (merkle_loop (length leaves) (map hashLeaf leaves))
  end.

Definition TxRoot (txs : list Transaction) : Hash := MerkleRoot (map (fun tx => abytes (tx_Hash tx)) txs).

Definition VerifyTxRoot (b : Block) : bool := array_eqb (TxRoot (b_Txs b)) (h_TxRoot (b_Header b)).

(** ** Receipts (receipt.go) *)

Definition Receipt_encode (r : Receipt) : list byte :=
  Encoder_Uint64 (Status r) ++ Encoder_Uint64 (CumulativeGasUsed r) ++ Encoder_Uint64 (r_GasUsed r)
  ++ Encoder_Uint64 (u64 (len (Logs r))) ++ concat (map EncodeInto (Logs r)).

Definition ReceiptRoot (receipts : list Receipt) : Hash := MerkleRoot (map Receipt_encode receipts).

End Types.

(** ** Well-formedness: what the Go types and a signed, gossiped value guarantee *)

Definition is_u64 (z : Z) : Prop := 0 <= z < 2 ^ 64.
Definition is_u256 (z : Z) : Prop := 0 <= z < 2 ^ 256.

Record wf_tx (tx : Transaction) : Prop := {
  wf_Type : 0 <= tx_Type tx < 256;
  wf_ChainID : is_u64 (tx_ChainID tx);
  wf_Nonce : is_u64 (tx_Nonce tx);
  wf_GasLimit : is_u64 (tx_GasLimit tx);
  wf_Value : exists v, tx_Value tx = Some v /\ is_u256 v;
  wf_GasPrice : exists v, tx_GasPrice tx = Some v /\ is_u256 v;
  wf_Data : len (tx_Data tx) < 2 ^ 32;
  wf_Sig : len (tx_Sig tx) < 2 ^ 32;
}.

(** What executing a transaction needs of it; less than [wf_tx], and what [SanityCheck] leaves of the
    transactions a peer can send. *)
Record sound_tx (tx : Transaction) : Prop := {
  sx_Nonce : is_u64 (tx_Nonce tx);
  sx_GasLimit : is_u64 (tx_GasLimit tx);
  sx_Value : exists v, tx_Value tx = Some v /\ 0 <= v;
  sx_GasPrice : exists v, tx_GasPrice tx = Some v /\ 0 <= v;
  sx_Data : len (tx_Data tx) < 2 ^ 32;
}.

Record wf_header (h : Header) : Prop := {
  wf_Height : is_u64 (Height h);
  wf_Timestamp : - 2 ^ 63 <= Timestamp h < 2 ^ 63;
  wf_hGasUsed : is_u64 (h_GasUsed h);
  wf_hGasLimit : is_u64 (h_GasLimit h);
  wf_Difficulty : is_u64 (Difficulty h);
  wf_hNonce : is_u64 (h_Nonce h);
}.

Record wf_receipt (r : Receipt) : Prop := {
  wf_Status : is_u64 (Status r);
  wf_Cumulative : is_u64 (CumulativeGasUsed r);
  wf_rGasUsed : is_u64 (r_GasUsed r);
  wf_Logs : len (Logs r) < 2 ^ 64;
  wf_eachLog : Forall wf_log (Logs r);
}.

(** The widths of a receipt's numbers. *)
Definition receipt_widths (r : Receipt) : Prop := is_u64 (Status r) /\ is_u64 (CumulativeGasUsed r) /\ is_u64 (r_GasUsed r).

(** The fields a signature covers. *)
Definition signedFields (tx : Transaction) :=
  (tx_Type tx, tx_ChainID tx, tx_Nonce tx, tx_To tx, tx_Value tx, tx_GasLimit tx, tx_GasPrice tx, tx_Data tx).

(** ** Lemmas: the intrinsic gas never wraps for data that fits in memory *)

Definition byteGas (b : byte) : Z := if b2z b =? 0 then TxDataZeroGas else TxDataNonZeroGas.

Lemma byteGas_bounds b : 4 <= byteGas b <= 16.
Proof. unfold byteGas, TxDataZeroGas, TxDataNonZeroGas. case_match; lia. Qed.

Lemma dataGas_sum gas data :
  0 <= gas -> gas + 16 * len data < 2 ^ 64 ->
  dataGas gas data = gas + foldr Z.add 0 (map byteGas data)
  /\ 4 * len data <= foldr Z.add 0 (map byteGas data) <= 16 * len data.
Proof.
  revert gas. induction data as [|b data IH]; intros gas Hg Hl; [unfold len; simpl; lia|].
  cbn [dataGas map foldr].
  rewrite len_cons in Hl |- *. pose proof (byteGas_bounds b). pose proof (len_nonneg data).
  fold (byteGas b). rewrite u64_small by lia. destruct (IH (gas + byteGas b)) as [-> ?]; lia.
Qed.

Lemma IntrinsicGasFor_sum data c :
  len data < 2 ^ 59 ->
  IntrinsicGasFor data c = (if c then TxGasContractCreation else IntrinsicGas) + foldr Z.add 0 (map byteGas data)
  /\ 21000 + 4 * len data <= IntrinsicGasFor data c <= 53000 + 16 * len data.
Proof.
  intros Hl. unfold IntrinsicGasFor, TxGasContractCreation, IntrinsicGas. pose proof (len_nonneg data).
  destruct c.
  - destruct (dataGas_sum 53000 data) as [-> ?]; lia.
  - destruct (dataGas_sum 21000 data) as [-> ?]; lia.
Qed.

Section Digests.
Context `{Crypto}.

(** ** Lemmas: one digest, one preimage *)

Lemma collision_free_sub xs ys : xs ⊆ ys -> collision_free ys -> collision_free xs.
Proof. intros Hs Hc x y Hx Hy. apply Hc; by apply Hs. Qed.

Lemma nonzero_digests_sub xs ys : xs ⊆ ys -> nonzero_digests ys -> nonzero_digests xs.
Proof. intros Hs Hc x Hx. by apply Hc, Hs. Qed.

Lemma Keccak256_bind xs (x y : list byte) : collision_free xs -> x ∈ xs -> y ∈ xs -> Keccak256 [x] = Keccak256 [y] -> x = y.
Proof. unfold Keccak256. simpl. rewrite !app_nil_r. auto. Qed.

(** What [SigningHash], [tx_Hash] and [MerkleRoot] hash. *)
Definition signingInput (tx : Transaction) : list byte :=
  if tx_Type tx =? TxTypeEthLegacy then List (ethSigningItems tx) else signingPreimage tx.

Definition txInputs (tx : Transaction) : list (list byte) :=
  if (tx_Type tx =? TxTypeEthLegacy) && (len (tx_Sig tx) =? 65) then [EncodeEthRaw tx]
  else [signingInput tx; Encoder_Raw (abytes (SigningHash tx)) ++ Encoder_Bytes (tx_Sig tx)].

Definition leafInput (data : list byte) : list byte := leafTag ++ data.
Definition nodeInput (l r : Hash) : list byte := nodeTag ++ abytes l ++ abytes r.

Fixpoint nextInputs (layer : list Hash) : list (list byte) :=
  match layer with
  | l :: r :: rest => nodeInput l r :: nextInputs rest
  | _ => []
  end.

Fixpoint loopInputs (fuel : nat) (layer : list Hash) : list (list byte) :=
  match layer, fuel with
  | _ :: _ :: _, S f => nextInputs layer ++ loopInputs f (merkle_next layer)
  | _, _ => []
  end.

Definition merkleInputs (leaves : list (list byte)) : list (list byte) :=
  map leafInput leaves ++ loopInputs (length leaves) (map hashLeaf leaves).

Definition blockInputs (b : Block) : list (list byte) :=
  headerPreimage (b_Header b) :: merkleInputs (map (fun tx => abytes (tx_Hash tx)) (b_Txs b)).

Lemma SigningHash_input tx : SigningHash tx = Keccak256 [signingInput tx].
Proof. unfold SigningHash, signingInput, ethSigningHash. by destruct (_ =? _). Qed.

(** ** Lemmas: transactions *)

Lemma signingPreimage_inj a b :
  wf_tx a -> wf_tx b -> signingPreimage a = signingPreimage b -> signedFields a = signedFields b.
Proof.
  intros [Ta Ca Na Ga (va & Va & Hva) (pa & Pa & Hpa) Da _] [Tb Cb Nb Gb (vb & Vb & Hvb) (pb & Pb & Hpb) Db _].
  unfold signingPreimage, signedFields, is_u64, is_u256 in *. rewrite Va, Vb, Pa, Pb.
  intros [-> H1]%Encoder_Uint64_prefix; [|lia..].
  apply Encoder_Uint64_prefix in H1 as [-> H1]; [|lia..].
  apply Encoder_Uint64_prefix in H1 as [-> H1]; [|lia..].
  apply Encoder_OptionalAddress_prefix in H1 as [-> H1].
  apply Encoder_BigInt_prefix in H1 as [-> H1]; [|lia..].
  apply Encoder_Uint64_prefix in H1 as [-> H1]; [|lia..].
  apply Encoder_BigInt_prefix in H1 as [-> H1]; [|lia..].
  rewrite <- (app_nil_r (Encoder_Bytes (tx_Data a))), <- (app_nil_r (Encoder_Bytes (tx_Data b))) in H1.
  apply Encoder_Bytes_prefix in H1 as [-> _]; [done|lia..].
Qed.

Lemma len_u256 v : is_u256 v -> len (be_min v) <= 32.
Proof. intros Hv. rewrite len_be_min. apply byteLen_bound; [lia|]. unfold is_u256 in Hv. lia. Qed.

Lemma len_u64 v : is_u64 v -> len (be_min v) <= 8.
Proof. intros Hv. rewrite len_be_min. apply byteLen_bound; [lia|]. unfold is_u64 in Hv. lia. Qed.

Lemma len_addrBytes to : len (addrBytes to) <= 20.
Proof. destruct to; simpl; [by rewrite len_abytes|done]. Qed.

(** A list of RLP strings determines the strings. *)
Lemma List_inj l k :
  len (concat (map Bytes l)) < 2 ^ 63 -> len (concat (map Bytes k)) < 2 ^ 63 ->
  List (map Bytes l) = List (map Bytes k) -> l = k.
Proof.
  intros Hl Hk E. pose proof (DecodeList_List_lemma l Hl) as Dl. rewrite E, DecodeList_List_lemma in Dl by done.
  congruence.
Qed.

Lemma len_Bytes_le b : len b < 2 ^ 62 -> len (Bytes b) <= len b + 9.
Proof.
  intros Hb. destruct (lone_small b) eqn:E; [rewrite Bytes_lone by done; lia|].
  rewrite Bytes_prefixed, len_app by done. unfold lengthPrefix. pose proof (len_nonneg b).
  destruct (Z.ltb_spec (len b) 56); [rewrite len_cons, len_nil; lia|].
  rewrite u64_small, trim_bigEndian by lia. autorewrite with golen. rewrite len_be_min.
  pose proof (byteLen_u64 (len b)). lia.
Qed.

(** The nine strings of an Ethereum transaction; their encoding is far below 2^63 bytes. *)
Definition ethStrings (tx : Transaction) (x y z : list byte) : list (list byte) :=
  [be_min (tx_Nonce tx); be_min (default 0 (tx_GasPrice tx)); be_min (tx_GasLimit tx);
   addrBytes (tx_To tx); be_min (default 0 (tx_Value tx)); tx_Data tx; x; y; z].

Lemma ethStrings_len tx x y z :
  wf_tx tx -> len x <= 32 -> len y <= 32 -> len z <= 32 ->
  len (concat (map Bytes (ethStrings tx x y z))) < 2 ^ 62.
Proof.
  intros [_ _ Hn Hg (v & Hv & Hv') (p & Hp & Hp') Hd _] Hx Hy Hz. unfold ethStrings.
  rewrite Hv, Hp. simpl default. cbn [map concat]. rewrite !len_app, len_nil.
  pose proof (len_u64 _ Hn). pose proof (len_u64 _ Hg). pose proof (len_u256 _ Hv').
  pose proof (len_u256 _ Hp'). pose proof (len_addrBytes (tx_To tx)).
  repeat match goal with |- context [len (Bytes ?b)] =>
    let E := fresh in pose proof (len_Bytes_le b) as E; revert E; generalize (len (Bytes b)); intros ? end.
  lia.
Qed.

Lemma ethSigningItems_strings tx :
  wf_tx tx -> ethSigningItems tx = map Bytes (ethStrings tx (be_min (tx_ChainID tx)) [] []).
Proof.
  intros [_ Hc Hn Hg (v & Hv & _) (p & Hp & _) _ _]. unfold ethSigningItems, ethStrings.
  rewrite Hv, Hp, !Uint_be_min, !Big_be_min by done. reflexivity.
Qed.

Lemma addrBytes_inj a b : addrBytes a = addrBytes b -> a = b.
Proof.
  destruct a as [a|], b as [b|]; simpl; intros E; try done.
  - by apply array_eq in E as ->.
  - apply (f_equal length) in E. by rewrite abytes_length in E.
  - apply (f_equal length) in E. by rewrite abytes_length in E.
Qed.

Lemma ethStrings_inj a b x y z x' y' z' :
  wf_tx a -> wf_tx b -> ethStrings a x y z = ethStrings b x' y' z' ->
  tx_Nonce a = tx_Nonce b /\ tx_GasPrice a = tx_GasPrice b /\ tx_GasLimit a = tx_GasLimit b
  /\ tx_To a = tx_To b /\ tx_Value a = tx_Value b /\ tx_Data a = tx_Data b /\ x = x' /\ y = y' /\ z = z'.
Proof.
  intros [_ _ Na Ga (va & Va & Hva) (pa & Pa & Hpa) _ _] [_ _ Nb Gb (vb & Vb & Hvb) (pb & Pb & Hpb) _ _].
  unfold ethStrings, is_u64, is_u256 in *. rewrite Va, Vb, Pa, Pb. cbn [default from_option id].
  intros E. injection E as E1 E2 E3 E4 E5 E6 E7 E8 E9.
  apply be_min_inj in E1, E2, E3, E5; [|lia..]. apply addrBytes_inj in E4. split_and!; congruence.
Qed.

(** The first byte tells the two preimages apart: an RLP list starts at 0xc0 or above. *)
Lemma List_head l :
  len (concat l) < 2 ^ 62 -> exists c r, List l = c :: r /\ 0xc0 <= b2z c.
Proof.
  intros Hl. unfold List, lengthPrefix. pose proof (len_nonneg (concat l)).
  destruct (Z.ltb_spec (len (concat l)) 56).
  - eexists _, _. split; [reflexivity|]. rewrite z2b_small; lia.
  - eexists _, _. split; [reflexivity|]. rewrite u64_small, trim_bigEndian, len_be_min by lia.
    pose proof (byteLen_u64 (len (concat l))). rewrite z2b_small; lia.
Qed.

Lemma signingPreimage_head tx : wf_tx tx -> exists r, signingPreimage tx = x00 :: r.
Proof.
  intros [Ht _ _ _ _ _ _ _]. unfold signingPreimage, Encoder_Uint64. cbn [be_fixed app].
  eexists. f_equal. rewrite !Z.div_div by lia. apply b2z_inj. rewrite b2z_z2b.
  rewrite Z.div_small by lia. done.
Qed.

Lemma SigningHash_binding_lemma a b :
  wf_tx a -> wf_tx b -> collision_free [signingInput a; signingInput b] -> SigningHash a = SigningHash b ->
  signedFields a = signedFields b.
Proof.
  intros Ha Hb Hc. rewrite !SigningHash_input.
  assert (forall t, wf_tx t -> len (concat (map Bytes (ethStrings t (be_min (tx_ChainID t)) [] []))) < 2 ^ 62)
    as Hlen.
  { intros t Ht. pose proof (len_u64 _ (wf_ChainID t Ht)). apply ethStrings_len; [done|lia|done..]. }
  pose proof (Hlen a Ha). pose proof (Hlen b Hb).
  intros E%(Keccak256_bind _ _ _ Hc); [|by left|by right; left]. unfold signingInput in E. rewrite !ethSigningItems_strings in E by done.
  destruct (Z.eqb_spec (tx_Type a) TxTypeEthLegacy) as [Ea|Ea], (Z.eqb_spec (tx_Type b) TxTypeEthLegacy) as [Eb|Eb].
  - apply List_inj, ethStrings_inj in E as (E1 & E2 & E3 & E4 & E5 & E6 & E7 & _); [|done|done|lia..].
    apply be_min_inj in E7; [|apply Ha|apply Hb]. unfold signedFields. congruence.
  - destruct (List_head (map Bytes (ethStrings a (be_min (tx_ChainID a)) [] []))) as (c & r & E1 & E2); [done|].
    destruct (signingPreimage_head b Hb) as [r' E3]. rewrite E1, E3 in E. injection E as -> ->. by destruct E2.
  - destruct (List_head (map Bytes (ethStrings b (be_min (tx_ChainID b)) [] []))) as (c & r & E1 & E2); [done|].
    destruct (signingPreimage_head a Ha) as [r' E3]. rewrite E1, E3 in E. injection E as <- ->. by destruct E2.
  - by apply signingPreimage_inj.
Qed.

Lemma tx_Hash_native_binding a b :
  wf_tx a -> wf_tx b -> tx_Type a <> TxTypeEthLegacy -> tx_Type b <> TxTypeEthLegacy ->
  collision_free (txInputs a ++ txInputs b) -> tx_Hash a = tx_Hash b -> a = b.
Proof.
  intros Ha Hb Ta Tb. unfold tx_Hash, txInputs.
  destruct (Z.eqb_spec (tx_Type a) TxTypeEthLegacy); [done|].
  destruct (Z.eqb_spec (tx_Type b) TxTypeEthLegacy); [done|]. cbn [andb app]. intros Hc.
  intros E%(Keccak256_bind _ _ _ Hc); [|by right; left|by do 3 right; left].
  apply Encoder_Raw_prefix in E as [E1 E2].
  rewrite <- (app_nil_r (Encoder_Bytes (tx_Sig a))), <- (app_nil_r (Encoder_Bytes (tx_Sig b))) in E2.
  pose proof (wf_Sig a Ha). pose proof (wf_Sig b Hb).
  apply Encoder_Bytes_prefix in E2 as [E2 _]; [|lia..].
  apply SigningHash_binding_lemma in E1; [|done..|eapply collision_free_sub; [|exact Hc]; set_solver].
  destruct a, b. unfold signedFields in E1. simpl in *. congruence.
Qed.

(** A recovery byte Ethereum's [v] can carry. *)
Definition eth_sig (sig : list byte) : Prop :=
  exists rb rs ss, sig = rb :: rs ++ ss /\ (b2z rb = 27 \/ b2z rb = 28) /\ len rs = 32 /\ len ss = 32.

Lemma be_min_be2z_inj l k : length l = length k -> be_min (be2z l) = be_min (be2z k) -> l = k.
Proof. intros Hl E. apply be2z_inj; [done|]. apply be_min_inj; [apply be2z_range..|done]. Qed.

Lemma EncodeEthRaw_strings tx rb rs ss :
  is_u64 (tx_Nonce tx) -> is_u64 (tx_GasLimit tx) ->
  is_u64 (tx_ChainID tx * 2 + 35 + (b2z rb - 27)) ->
  (exists v, tx_Value tx = Some v) -> (exists p, tx_GasPrice tx = Some p) ->
  tx_Sig tx = rb :: rs ++ ss -> b2z rb = 27 \/ b2z rb = 28 -> len rs = 32 -> len ss = 32 ->
  EncodeEthRaw tx = List (map Bytes (ethStrings tx (be_min (tx_ChainID tx * 2 + 35 + (b2z rb - 27)))
    (be_min (be2z rs)) (be_min (be2z ss)))).
Proof.
  intros Hn Hg Hc (v & Hv) (p & Hp) Hsig Hrb Hrs Hss.
  unfold EncodeEthRaw. rewrite Hsig. rewrite len_cons, len_app, Hrs, Hss.
  change (negb (1 + (32 + 32) =? 65)) with false. cbv iota.
  assert (length rs = 32%nat) as Hrs' by (unfold len in Hrs; lia).
  assert (length ss = 32%nat) as Hss' by (unfold len in Hss; lia).
  change (drop 33 (rb :: rs ++ ss)) with (drop 32 (rs ++ ss)).
  change (drop 1 (rb :: rs ++ ss)) with (rs ++ ss).
  rewrite (take_app_length' rs ss 32 (eq_sym Hrs')), (drop_app_length' rs ss 32 (eq_sym Hrs')), (take_ge ss 32) by lia.
  unfold is_u64 in *. rewrite (Z.mod_small (b2z rb - 27)), u64_small by lia. unfold ethStrings.
  rewrite Hv, Hp, !Uint_be_min, !Big_be_min by lia. reflexivity.
Qed.

Lemma wf_tx_EncodeEthRaw tx rb rs ss :
  wf_tx tx -> tx_ChainID tx < 2 ^ 62 -> tx_Sig tx = rb :: rs ++ ss ->
  b2z rb = 27 \/ b2z rb = 28 -> len rs = 32 -> len ss = 32 ->
  EncodeEthRaw tx = List (map Bytes (ethStrings tx (be_min (tx_ChainID tx * 2 + 35 + (b2z rb - 27)))
    (be_min (be2z rs)) (be_min (be2z ss))))
  /\ len (concat (map Bytes (ethStrings tx (be_min (tx_ChainID tx * 2 + 35 + (b2z rb - 27)))
    (be_min (be2z rs)) (be_min (be2z ss))))) < 2 ^ 63.
Proof.
  intros Hw Hcid Hsig Hrb Hrs Hss.
  pose proof (wf_ChainID _ Hw) as Hc. pose proof (wf_Nonce _ Hw). pose proof (wf_GasLimit _ Hw).
  destruct (wf_Value _ Hw) as (v & ? & _), (wf_GasPrice _ Hw) as (p & ? & _). unfold is_u64 in Hc.
  split; [apply EncodeEthRaw_strings; eauto; unfold is_u64; lia|].
  apply Z.lt_trans with (2 ^ 62); [|done].
  apply ethStrings_len; [done|apply len_u256; unfold is_u256; lia|..]; apply len_u256.
  - pose proof (be2z_range rs) as R. rewrite Hrs in R. exact R.
  - pose proof (be2z_range ss) as R. rewrite Hss in R. exact R.
Qed.

Lemma tx_Hash_eth_binding a b :
  wf_tx a -> wf_tx b -> tx_Type a = TxTypeEthLegacy -> tx_Type b = TxTypeEthLegacy ->
  tx_ChainID a < 2 ^ 62 -> tx_ChainID b < 2 ^ 62 -> eth_sig (tx_Sig a) -> eth_sig (tx_Sig b) ->
  collision_free (txInputs a ++ txInputs b) -> tx_Hash a = tx_Hash b -> a = b.
Proof.
  intros Ha Hb Ta Tb Ca Cb (rb & rs & ss & Sa & Hrb & Hrs & Hss) (rb' & rs' & ss' & Sb & Hrb' & Hrs' & Hss').
  unfold tx_Hash, txInputs. rewrite Ta, Tb, Sa, Sb, !len_cons, !len_app, Hrs, Hss, Hrs', Hss'.
  change ((TxTypeEthLegacy =? TxTypeEthLegacy) && (1 + (32 + 32) =? 65)) with true. cbv iota.
  unfold ethRawHash. intros Hc E%(Keccak256_bind _ _ _ Hc); [|by left|by right; left].
  destruct (wf_tx_EncodeEthRaw a rb rs ss) as [Ea La]; [done..|].
  destruct (wf_tx_EncodeEthRaw b rb' rs' ss') as [Eb Lb]; [done..|].
  rewrite Ea, Eb in E. apply List_inj in E; [|done..].
  pose proof (wf_ChainID a Ha) as Wa. pose proof (wf_ChainID b Hb) as Wb. unfold is_u64 in *.
  apply ethStrings_inj in E as (E1 & E2 & E3 & E4 & E5 & E6 & E7 & E8 & E9); [|done..].
  apply be_min_inj in E7; [|lia..].
  apply be_min_be2z_inj in E8, E9; [|unfold len in *; lia..].
  assert (b2z rb = b2z rb') as Erb%b2z_inj by lia.
  destruct a, b. simpl in *. subst. assert (tx_ChainID0 = tx_ChainID1) by lia. congruence.
Qed.

(** ** Lemmas: headers and receipts *)

Lemma headerPreimage_inj a b : wf_header a -> wf_header b -> headerPreimage a = headerPreimage b -> a = b.
Proof.
  destruct a, b. intros [] []. unfold headerPreimage, is_u64 in *. simpl in *.
  intros [-> E]%Encoder_Raw_prefix.
  apply Encoder_Uint64_prefix in E as [-> E]; [|done..].
  apply Encoder_Int64_prefix in E as [-> E]; [|done..].
  do 3 apply Encoder_Raw_prefix in E as [-> E].
  do 2 (apply Encoder_Uint64_prefix in E as [-> E]; [|done..]).
  apply Encoder_Raw_prefix in E as [-> E].
  apply Encoder_Uint64_prefix in E as [-> E]; [|done..].
  apply be_fixed_inj in E as ->; done.
Qed.

Lemma Header_Hash_binding_lemma a b :
  wf_header a -> wf_header b -> collision_free [headerPreimage a; headerPreimage b] -> Header_Hash a = Header_Hash b -> a = b.
Proof.
  intros Ha Hb Hc E%(Keccak256_bind _ _ _ Hc); [|by left|by right; left]. by apply headerPreimage_inj.
Qed.

Lemma Receipt_encode_inj a b : wf_receipt a -> wf_receipt b -> Receipt_encode a = Receipt_encode b -> a = b.
Proof.
  destruct a as [sa ca ga la], b as [sb cb gb lb]. intros [] []. unfold Receipt_encode, is_u64 in *. simpl in *.
  intros [-> E]%Encoder_Uint64_prefix; [|done..].
  do 2 (apply Encoder_Uint64_prefix in E as [-> E]; [|done..]).
  apply Encoder_Uint64_prefix in E as [El E]; [|apply u64_range..].
  pose proof (len_nonneg la). pose proof (len_nonneg lb). rewrite !u64_small in El by lia.
  rewrite <- (app_nil_r (concat (map EncodeInto la))), <- (app_nil_r (concat (map EncodeInto lb))) in E.
  apply (concat_prefix EncodeInto wf_log) in E as [-> _]; [done| |done|done|unfold len in *; lia].
  apply EncodeInto_prefix.
Qed.

(** ** Lemmas: Merkle trees

    The reference definition of the root: a binary tree over the leaves, hashed
    bottom-up.  The loop builds the hashes of such a tree layer by layer. *)

Inductive mtree : Type :=
  | MLeaf (data : list byte)
  | MNode (l r : mtree).

Fixpoint mhash (t : mtree) : Hash :=
  match t with
  | MLeaf d => hashLeaf d
  | MNode l r => hashNode (mhash l) (mhash r)
  end.

Fixpoint minputs (t : mtree) : list (list byte) :=
  match t with
  | MLeaf d => [leafInput d]
  | MNode l r => nodeInput (mhash l) (mhash r) :: minputs l ++ minputs r
  end.

Fixpoint mleaves (t : mtree) : list (list byte) :=
  match t with
  | MLeaf d => [d]
  | MNode l r => mleaves l ++ mleaves r
  end.

Fixpoint mnext (layer : list mtree) : list mtree :=
  match layer with
  | l :: r :: rest => MNode l r :: mnext rest
  | _ => layer
  end.

(** Induction two elements at a time, as the loop walks a layer. *)
Lemma pairs_ind {A} (P : list A -> Prop) :
  P [] -> (forall x, P [x]) -> (forall x y l, P l -> P (x :: y :: l)) -> forall l, P l.
Proof.
  intros H0 H1 H2 l. enough (P l /\ forall x, P (x :: l)) by tauto.
  induction l as [|a l [IH1 IH2]]; auto.
Qed.

Lemma merkle_next_mnext ts : merkle_next (map mhash ts) = map mhash (mnext ts).
Proof. induction ts as [| |x y l IH] using pairs_ind; [done..|]. simpl. by rewrite IH. Qed.

Lemma mnext_inputs ts : concat (map minputs (mnext ts)) ⊆ concat (map minputs ts) ++ nextInputs (map mhash ts).
Proof. induction ts as [| |x y l IH] using pairs_ind; cbn [mnext map concat minputs nextInputs app]; set_solver. Qed.

Lemma mnext_leaves ts : concat (map mleaves (mnext ts)) = concat (map mleaves ts).
Proof. induction ts as [| |x y l IH] using pairs_ind; [done..|]. simpl. by rewrite IH, app_assoc. Qed.

Lemma mnext_shrinks x y ts : (length (mnext (x :: y :: ts)) <= S (length ts))%nat.
Proof.
  simpl. apply le_n_S. induction ts as [| |a b l IH] using pairs_ind; simpl; lia.
Qed.

Lemma mnext_cons ts : ts <> [] -> mnext ts <> [].
Proof. by destruct ts as [|x [|y ts]]. Qed.

(** Enough fuel gives the hash of a tree whose leaves are the layer's, in order; what is hashed is the tree's nodes. *)
Lemma merkle_loop_total fuel ts :
  ts <> [] -> (length ts <= fuel)%nat ->
  exists t, merkle_loop fuel (map mhash ts) = Some (mhash t) /\ mleaves t = concat (map mleaves ts)
    /\ minputs t ⊆ concat (map minputs ts) ++ loopInputs fuel (map mhash ts).
Proof.
  revert ts. induction fuel as [|fuel IH]; intros [|x [|y ts]] Hne Hf; simpl in Hf; try done; try lia.
  - exists x. simpl. rewrite app_nil_r. split_and!; [done..|set_solver].
  - change (merkle_loop (S fuel) (map mhash (x :: y :: ts)))
      with (merkle_loop fuel (merkle_next (map mhash (x :: y :: ts)))).
    change (loopInputs (S fuel) (map mhash (x :: y :: ts)))
      with (nextInputs (map mhash (x :: y :: ts)) ++ loopInputs fuel (merkle_next (map mhash (x :: y :: ts)))).
    rewrite merkle_next_mnext, <- mnext_leaves. pose proof (mnext_shrinks x y ts). pose proof (mnext_inputs (x :: y :: ts)) as Hn.
    destruct (IH (mnext (x :: y :: ts))) as (t & E1 & E2 & E3); [by apply mnext_cons|lia|]. exists t. split_and!; [done..|].
    clear IH. intros i Hi%E3. rewrite !elem_of_app in *. destruct Hi as [Hi%Hn|Hi]; [|by do 2 right]. rewrite elem_of_app in Hi. tauto.
Qed.

Lemma concat_singletons {A} (l : list A) : concat (map (fun x => [x]) l) = l.
Proof. induction l; simpl; congruence. Qed.

Lemma MerkleRoot_tree leaves :
  leaves <> [] -> exists t, MerkleRoot leaves = mhash t /\ mleaves t = leaves /\ minputs t ⊆ merkleInputs leaves.
Proof.
  intros Hne. destruct (merkle_loop_total (length leaves) (map MLeaf leaves)) as (t & E1 & E2 & E3).
  - by destruct leaves.
  - by rewrite length_map.
  - exists t. rewrite !map_map in E1, E3. unfold merkleInputs.
    replace (concat (map (fun x => minputs (MLeaf x)) leaves)) with (map leafInput leaves) in E3
      by (clear; induction leaves as [|d k IH]; [done|]; cbn [map concat minputs app]; by rewrite IH).
    change (fun x => mhash (MLeaf x)) with hashLeaf in E1, E3. unfold MerkleRoot. destruct leaves as [|l leaves]; [done|].
    rewrite E1, E2, map_map. split; [done|]. split; [|by rewrite map_map in E3]. apply (concat_singletons (l :: leaves)).
Qed.

(** The string hashed last. *)
Definition minput (t : mtree) : list byte := match t with MLeaf d => leafInput d | MNode l r => nodeInput (mhash l) (mhash r) end.

Lemma mhash_input t : mhash t = keccak256 (minput t) /\ minput t ∈ minputs t.
Proof.
  destruct t; cbn [mhash minput minputs]; unfold hashLeaf, hashNode, leafInput, nodeInput, Keccak256; cbn [concat]; rewrite !app_nil_r; split; [done|by left|done|by left].
Qed.

(** Tags keep leaf and node inputs apart, so a hash determines the whole tree. *)
Lemma mhash_binding xs t u : collision_free xs -> minputs t ⊆ xs -> minputs u ⊆ xs -> mhash t = mhash u -> t = u.
Proof.
  intros Hc. revert u. induction t as [d|l IHl r IHr]; intros u Ht Hu E.
  all: rewrite (proj1 (mhash_input _)), (proj1 (mhash_input u)) in E; apply Hc in E; [|apply Ht, mhash_input|apply Hu, mhash_input].
  - destruct u as [e|l' r']; [|done]. cbn in E. congruence.
  - destruct u as [e|l' r']; [done|]. cbn [minput] in E. apply app_inv_head in E. cbn [minputs] in Ht, Hu.
    apply app_inj_len in E as [E1%array_eq E2%array_eq]; [|by rewrite !abytes_length].
    f_equal; [apply IHl|apply IHr]; set_solver.
Qed.

Lemma MerkleRoot_zero l : nonzero_digests (merkleInputs l) -> MerkleRoot l = ZeroHash -> l = [].
Proof.
  intros Hz E. destruct (decide (l = [])) as [|Hl]; [done|]. destruct (MerkleRoot_tree l Hl) as (t & Et & _ & Hi).
  destruct (mhash_input t) as [Ex Hx]. destruct (Hz (minput t)); [by apply Hi|]. by rewrite <- Ex, <- Et.
Qed.

Lemma MerkleRoot_binding_lemma l k :
  collision_free (merkleInputs l ++ merkleInputs k) -> nonzero_digests (merkleInputs l ++ merkleInputs k) ->
  MerkleRoot l = MerkleRoot k -> l = k.
Proof.
  intros Hc Hz E. destruct (decide (l = [])) as [->|Hl].
  { symmetry. apply MerkleRoot_zero; [eapply nonzero_digests_sub; [|exact Hz]; set_solver|by rewrite <- E]. }
  destruct (decide (k = [])) as [->|Hk]; [apply MerkleRoot_zero; [eapply nonzero_digests_sub; [|exact Hz]; set_solver|done]|].
  destruct (MerkleRoot_tree l Hl) as (t & Et & <- & Ht), (MerkleRoot_tree k Hk) as (u & Eu & <- & Hu).
  rewrite Et, Eu in E. f_equal. apply (mhash_binding _ _ _ Hc); [set_solver..|done].
Qed.

(** ** Lemmas: signing and recovering *)

Lemma Sender_ok tx pub :
  len (tx_Sig tx) = 65 -> be2z (drop 33 (tx_Sig tx)) <= halfOrder ->
  RecoverCompact (tx_Sig tx) (SigningHash tx) = Some pub -> Sender tx = Ok (PublicKey_Address pub).
Proof.
  intros Hl Hs Hr. unfold Sender, RecoverAddress, Recover, checkLowS, SignatureLength.
  rewrite Hl. cbn [negb Z.eqb Pos.eqb]. rewrite slice_some by lia.
  change (Z.to_nat (65 - 33)) with 32%nat. change (Z.to_nat 33) with 33%nat.
  rewrite take_ge by (rewrite length_drop; unfold len in Hl; lia). cbn [or_panic res_bind].
  destruct (Z.ltb_spec halfOrder (be2z (drop 33 (tx_Sig tx)))); [lia|]. cbn [res_bind].
  by rewrite Hr.
Qed.

Lemma Sender_no_panic tx : Sender tx <> Panic.
Proof.
  unfold Sender, RecoverAddress, Recover, checkLowS. destruct (Z.eqb_spec (len (tx_Sig tx)) SignatureLength) as [E|]; [|done].
  unfold SignatureLength in E. cbn [negb]. rewrite slice_some by lia. cbn [or_panic res_bind].
  by destruct (_ <? _); [|destruct (RecoverCompact _ _)].
Qed.

(** What decred documents of its signer: 65 bytes, low s, and the key recovers. *)
Class SignLaws : Prop := {
  SignCompact_len : forall k d, len (SignCompact k d) = 65;
  SignCompact_low : forall k d, be2z (drop 33 (SignCompact k d)) <= halfOrder;
  Recover_SignCompact : forall k d, RecoverCompact (SignCompact k d) d = Some (PubKey k);
}.

(** What decred documents of the first byte of a compact signature: it is 27 plus a recovery
    code, plus 4 to flag a compressed key; the flag does not change the key. *)
Class CompressedFlagLaw : Prop := {
  Recover_flag : forall b rest d, 27 <= b2z b <= 30 ->
    RecoverCompact (z2b (b2z b + 4) :: rest) d = RecoverCompact (b :: rest) d;
}.

(** The same transaction with the flag set. *)
Definition set_flag (tx : Transaction) : Transaction :=
  match tx_Sig tx with
  | b :: rest => mkTx (tx_Type tx) (tx_ChainID tx) (tx_Nonce tx) (tx_To tx) (tx_Value tx)
      (tx_GasLimit tx) (tx_GasPrice tx) (tx_Data tx) (z2b (b2z b + 4) :: rest)
  | [] => tx
  end.

End Digests.

(** A toy instance, to exhibit values at which hypotheses hold; [curveN] is secp256k1's. *)
Definition toyKey : array 65 := array_of 65 [x04; x01].

#[local] Instance toyCrypto : Crypto := {|
  keccak256 := array_of HashLength;
  RecoverCompact := fun sig _ => Some toyKey;
  curveN := 0xfffffffffffffffffffffffffffffffebaaedce6af48a03bbfd25e8cd0364141;
  privKey := unit;
  PrivKeyFromBytes := fun _ => tt;
  Serialize := fun _ => array_of 32 [];
  PubKey := fun _ => toyKey;
  SignCompact := fun _ _ => x1b :: replicate 64 x01;
|}.

(** A hash that mixes, so that different blocks differ. *)
Definition mix (l : list byte) : Hash :=
  array_of 32 (be_fixed 32 (fold_left (fun a b => Z.land (a * 1000003 + b2z b + 1) 0x1fffffffffffffff) l 7)).

Definition mixCrypto : Crypto := {|
  keccak256 := mix;
  RecoverCompact := fun sig _ => Some toyKey;
  curveN := 0xfffffffffffffffffffffffffffffffebaaedce6af48a03bbfd25e8cd0364141;
  privKey := unit;
  PrivKeyFromBytes := fun _ => tt;
  Serialize := fun _ => array_of 32 [];
  PubKey := fun _ => toyKey;
  SignCompact := fun _ _ => x1b :: replicate 64 x01;
|}.

Definition toyTx : Transaction :=
  mkTx TxTypeTransfer 7 3 (Some BurnAddress) (Some 5) 30000 (Some 2) [x01; x00] (x1b :: replicate 64 x01).

Definition toyHeader : Header :=
  mkHeader ZeroHash 1 1700000000000 ZeroHash ZeroHash ZeroHash 0 30000000 ZeroAddress 1000 42.

Lemma wf_sound tx : wf_tx tx -> sound_tx tx.
Proof. intros [_ _ Hn Hg (v & Ev & [Hv _]) (p & Ep & [Hp _]) Hd _]. split; eauto. Qed.

Lemma toyTx_wf : wf_tx toyTx.
Proof.
  split; unfold is_u64, is_u256; cbn [toyTx tx_Type tx_ChainID tx_Nonce tx_GasLimit tx_Value tx_GasPrice];
    unfold TxTypeTransfer; [lia|lia|lia|lia| | | |].
  - exists 5. split; [done|lia].
  - exists 2. split; [done|lia].
  - reflexivity.
  - reflexivity.
Qed.

(** ** Properties *)

(** Replay protection.  The digest a signature covers commits to every signed field, the type
    byte and the chain id included: two well-formed transactions with one signing hash agree on all
    of them (across the native and the Ethereum encodings too), unless Keccak collides on the two
    strings that were hashed. *)
Theorem SigningHash_binding `{Crypto} a b :
  wf_tx a -> wf_tx b -> collision_free [signingInput a; signingInput b] -> SigningHash a = SigningHash b ->
  signedFields a = signedFields b.
Proof. apply SigningHash_binding_lemma. Qed.

(** [toyTx] under another signature. *)
Definition toyTx' : Transaction :=
  mkTx TxTypeTransfer 7 3 (Some BurnAddress) (Some 5) 30000 (Some 2) [x01; x00] (x1c :: replicate 64 x02).

(** Collision-freeness of given strings is decided by computing. *)
Lemma collision_free_dec `{Crypto} xs :
  forallb (fun x => forallb (fun y => bool_decide (keccak256 x = keccak256 y -> x = y)) xs) xs = true -> collision_free xs.
Proof.
  intros E x y Hx Hy. rewrite forallb_forall in E. specialize (E x ltac:(by apply list_elem_of_In)).
  rewrite forallb_forall in E. specialize (E y ltac:(by apply list_elem_of_In)). by apply bool_decide_eq_true_1 in E.
Qed.

Lemma nonzero_digests_dec `{Crypto} xs : forallb (fun x => bool_decide (keccak256 x <> ZeroHash)) xs = true -> nonzero_digests xs.
Proof.
  intros E x Hx. rewrite forallb_forall in E. specialize (E x ltac:(by apply list_elem_of_In)). by apply bool_decide_eq_true_1 in E.
Qed.

Lemma SigningHash_binding_witness : signedFields toyTx = signedFields toyTx'.
Proof.
  apply (SigningHash_binding toyTx toyTx'); [apply toyTx_wf| |apply collision_free_dec; vm_compute; reflexivity|reflexivity].
  destruct toyTx_wf. split; [assumption..|vm_compute; reflexivity].
Defined.

(** Identity.  The hash of a transaction commits to the whole of it, signature included: two
    native transactions, or two Ethereum ones whose signature byte is a canonical 27 or 28, that
    share a hash are the same transaction, unless Keccak collides on what was hashed for them. *)
Theorem tx_Hash_binding `{Crypto} a b :
  wf_tx a -> wf_tx b ->
  (tx_Type a <> TxTypeEthLegacy /\ tx_Type b <> TxTypeEthLegacy)
  \/ (tx_Type a = TxTypeEthLegacy /\ tx_Type b = TxTypeEthLegacy
      /\ tx_ChainID a < 2 ^ 62 /\ tx_ChainID b < 2 ^ 62 /\ eth_sig (tx_Sig a) /\ eth_sig (tx_Sig b)) ->
  collision_free (txInputs a ++ txInputs b) -> tx_Hash a = tx_Hash b -> a = b.
Proof.
  intros Ha Hb [[]|(? & ? & ? & ? & ? & ?)] Hc E; [by apply tx_Hash_native_binding|by apply tx_Hash_eth_binding].
Qed.

(** Header commitment.  The block hash commits to every header field, the proof-of-work nonce
    and the difficulty included; and for blocks whose body passes [VerifyTxRoot] it commits to the
    ordered list of transaction hashes: unless Keccak collides on what was hashed for the two
    blocks, or gives one of those strings the zero digest. *)
Theorem Block_Hash_commits `{Crypto} a b :
  wf_header (b_Header a) -> wf_header (b_Header b) ->
  VerifyTxRoot a = true -> VerifyTxRoot b = true -> collision_free (blockInputs a ++ blockInputs b) -> nonzero_digests (blockInputs a ++ blockInputs b) ->
  Block_Hash a = Block_Hash b -> b_Header a = b_Header b /\ map tx_Hash (b_Txs a) = map tx_Hash (b_Txs b).
Proof.
  unfold VerifyTxRoot, Block_Hash. intros Ha Hb Va%array_eqb_eq Vb%array_eqb_eq Hc Hz E. unfold blockInputs in Hc, Hz.
  apply Header_Hash_binding_lemma in E; [|done..|eapply collision_free_sub; [|exact Hc]; set_solver]. split; [done|].
  rewrite E, <- Vb in Va. apply MerkleRoot_binding_lemma in Va as El;
    [|eapply collision_free_sub; [|exact Hc]; set_solver|eapply nonzero_digests_sub; [|exact Hz]; set_solver].
  rewrite <- !(map_map tx_Hash abytes) in El. revert El.
  by apply (map_inj_on abytes (fun _ => True)); [intros; by apply array_eq|apply Forall_true..].
Qed.

(** Merkle binding (CVE-2012-2459 does not apply).  The root computed by the layer loop, with
    its promoted odd node and its leaf and node tags, determines the ordered list of leaves, whatever
    the two lists' lengths, unless Keccak collides on the strings hashed for the two roots or gives one
    of them the zero digest. *)
Theorem MerkleRoot_binding `{Crypto} l k :
  collision_free (merkleInputs l ++ merkleInputs k) -> nonzero_digests (merkleInputs l ++ merkleInputs k) ->
  MerkleRoot l = MerkleRoot k -> l = k.
Proof. apply MerkleRoot_binding_lemma. Qed.

Lemma MerkleRoot_binding_witness : [[x01]; [x02]; [x03]] = rev [[x03]; [x02]; [x01]].
Proof.
  apply (MerkleRoot_binding [[x01]; [x02]; [x03]] (rev [[x03]; [x02]; [x01]]));
    [apply collision_free_dec; vm_compute; reflexivity|apply nonzero_digests_dec; vm_compute; reflexivity|reflexivity].
Defined.

(** Receipt commitment.  The receipt root determines every receipt of the block: status, gas,
    and each log's address, topics and data. *)
Theorem ReceiptRoot_binding `{Crypto} l k :
  Forall wf_receipt l -> Forall wf_receipt k ->
  collision_free (merkleInputs (map Receipt_encode l) ++ merkleInputs (map Receipt_encode k)) ->
  nonzero_digests (merkleInputs (map Receipt_encode l) ++ merkleInputs (map Receipt_encode k)) ->
  ReceiptRoot l = ReceiptRoot k -> l = k.
Proof.
  intros Hl Hk Hc Hz E%MerkleRoot_binding_lemma; [|done..].
  revert E. by apply (map_inj_on Receipt_encode wf_receipt); [apply Receipt_encode_inj|..].
Qed.

(** A signed transaction recovers to its signer: after [Sign], [Sender] returns the address of
    the key, whichever signing hash the type selects. *)
Theorem Sign_Sender `{Crypto} `{!SignLaws} tx key :
  exists tx', tx_Sign tx key = Ok tx' /\ signedFields tx' = signedFields tx
    /\ Sender tx' = Ok (PrivateKey_Address key).
Proof.
  unfold tx_Sign, crypto_Sign, SignatureLength. rewrite SignCompact_len. simpl res_bind. eexists. split; [reflexivity|].
  split; [done|]. apply Sender_ok; cbn [tx_Sig]; [apply SignCompact_len|apply SignCompact_low|].
  apply Recover_SignCompact.
Qed.

Lemma toySignLaws : SignLaws.
Proof. split; [reflexivity| |reflexivity]. intros. vm_compute. congruence. Qed.

Lemma Sign_Sender_witness :
  exists tx', tx_Sign toyTx tt = Ok tx' /\ signedFields tx' = signedFields toyTx
    /\ Sender tx' = Ok (PrivateKey_Address tt).
Proof. exact (@Sign_Sender toyCrypto toySignLaws toyTx tt). Defined.

(** A third party can still change a transaction's hash.  The low-s rule removes one half of
    each signature pair, but nothing fixes the first signature byte: setting the compressed-key flag
    that the recovery ignores gives a transaction that passes [SanityCheck], has the same sender and
    the same signed fields, and a different hash (unless Keccak collides on what is hashed for the two). *)
Theorem signature_flag_malleable `{Crypto} `{!CompressedFlagLaw} tx chainID b rest :
  wf_tx tx -> tx_Type tx = TxTypeTransfer -> tx_Sig tx = b :: rest -> 27 <= b2z b <= 30 ->
  collision_free (txInputs (set_flag tx) ++ txInputs tx) -> SanityCheck tx chainID = Ok tt ->
  SanityCheck (set_flag tx) chainID = Ok tt /\ Sender (set_flag tx) = Sender tx
  /\ signedFields (set_flag tx) = signedFields tx
  /\ tx_Hash (set_flag tx) <> tx_Hash tx.
Proof.
  intros Hw Ht Hs Hb Hc. pose proof (Recover_flag b rest (SigningHash tx) Hb) as Hflag.
  assert (SigningHash (set_flag tx) = SigningHash tx) as Hsh by (unfold set_flag; by rewrite Hs).
  assert (Sender (set_flag tx) = Sender tx) as Hsend.
  { unfold Sender, RecoverAddress, Recover. rewrite Hsh. unfold set_flag. rewrite Hs. cbn [tx_Sig].
    rewrite Hflag. unfold checkLowS. rewrite !len_cons. done. }
  intros Hok. split_and!; [|done|unfold set_flag; by rewrite Hs|].
  - rewrite <- Hok. unfold SanityCheck. rewrite Hsend. unfold set_flag. rewrite Hs. cbn. by rewrite !len_cons.
  - intros E. apply tx_Hash_native_binding in E.
    + apply (f_equal tx_Sig) in E. unfold set_flag in E. rewrite Hs in E. cbn in E.
      injection E as E%(f_equal b2z). rewrite z2b_small in E; lia.
    + unfold set_flag. rewrite Hs. destruct Hw as [? ? ? ? ? ? ? Hsig]. rewrite Hs, len_cons in Hsig.
      split; try done. cbn [tx_Sig]. by rewrite len_cons.
    + done.
    + unfold set_flag. rewrite Hs. cbn [tx_Type]. by rewrite Ht.
    + by rewrite Ht.
    + done.
Qed.

Lemma mixFlagLaw : @CompressedFlagLaw mixCrypto.
Proof. split. reflexivity. Qed.

Lemma signature_flag_malleable_witness :
  @SanityCheck mixCrypto (set_flag toyTx) 7 = Ok tt /\ @Sender mixCrypto (set_flag toyTx) = @Sender mixCrypto toyTx
  /\ signedFields (set_flag toyTx) = signedFields toyTx /\ @tx_Hash mixCrypto (set_flag toyTx) <> @tx_Hash mixCrypto toyTx.
Proof.
  apply (@signature_flag_malleable mixCrypto mixFlagLaw toyTx 7 x1b (replicate 64 x01)).
  - apply toyTx_wf.
  - reflexivity.
  - reflexivity.
  - vm_compute. split; congruence.
  - apply collision_free_dec. vm_compute. reflexivity.
  - vm_compute. reflexivity.
Defined.
