(* ===== verification/EthTx.v ===== *)
(** * The Ethereum bridge: parsing legacy (EIP-155) transactions

    Models [ParseEthLegacyTx] and [bytesToUint64] of src/types/eth.go (the
    encoders of that file are in Types.v).  The parser is total on untrusted
    bytes, inverts [EncodeEthRaw], and re-encodes what it accepts byte for byte
    when the integer fields are minimal. *)
From stdpp Require Import base numbers list.
From Stdlib Require Import ZArith Lia Strings.Byte.
From S2P Require Import Prelude Common Rlp Types.
#[local] Open Scope Z_scope.
#[local] Open Scope go_scope.
#[local] Open Scope list_scope.

(** [n = n<<8 | uint64(c)] over at most eight bytes. *)
Definition bytesToUint64 (b : list byte) : res Z :=
  if 8 <? len b then Err ErrEthField else Ok (fold_left readLen_acc b 0).

(** The [switch vv := v.Uint64()] that recovers the chain id and the recovery id. *)
Definition splitV (v : Z) : res (Z * Z) :=
  let vv := Uint64 v in
  if (vv =? 27) || (vv =? 28) then Ok (0, vv - 27)
  else if 35 <=? vv then
    let x := vv - 35 in
    let recid := Z.land x 1 in
    Ok ((x - recid) / 2, recid)
  else Err ErrEthV.

Definition parseTo (toBytes : list byte) : res (option Address) :=
  if len toBytes =? 0 then Ok None
  else if len toBytes =? Z.of_nat AddressLength then Ok (Some (array_of AddressLength toBytes))
  else Err ErrEthField.

(** [make([]byte, 65)] with the recovery byte and [r], [s] copied in right-aligned. *)
Definition compactSig (recid : Z) (r s : list byte) : list byte :=
  z2b (27 + recid) :: (zeros (32 - len r) ++ r) ++ (zeros (32 - len s) ++ s).

(** [DecodeList] is total (see Rlp.v), so its [None] is never met. *)
Definition ParseEthLegacyTx `{Crypto} (raw : list byte) : res Transaction :=
  let? items := default Panic (DecodeList raw) in
  match items with
  | [i0; i1; i2; i3; i4; i5; i6; i7; i8] =>
      let? nonce := bytesToUint64 i0 in
      let gasPrice := be2z i1 in
      let? gasLimit := bytesToUint64 i2 in
      let value := be2z i4 in
      let v := be2z i6 in
      let? (chainID, recid) := splitV v in
      let? to := parseTo i3 in
      if (32 <? len i7) || (32 <? len i8) || (len i7 =? 0) || (len i8 =? 0) then Err ErrEthField
      else
        let sig := compactSig recid i7 i8 in
        let tx := mkTx TxTypeEthLegacy chainID nonce to (Some value) gasLimit (Some gasPrice) i5 sig in
        let? _ := Sender tx in
        Ok tx
  | _ => Err ErrEthFieldCount
  end.

(** ** Lemmas *)

Lemma bytesToUint64_be2z b : len b <= 8 -> bytesToUint64 b = Ok (be2z b).
Proof.
  intros Hb. unfold bytesToUint64. destruct (Z.ltb_spec 8 (len b)); [lia|].
  by rewrite readLen_fold_be2z.
Qed.

Lemma bytesToUint64_inv b n : bytesToUint64 b = Ok n -> n = be2z b /\ len b <= 8.
Proof.
  intros E. unfold bytesToUint64 in E. destruct (Z.ltb_spec 8 (len b)); [done|].
  rewrite readLen_fold_be2z in E by done. split; [congruence|done].
Qed.

Lemma land_1 x : Z.land x 1 = x mod 2.
Proof. change 1 with (Z.ones 1). by rewrite Z.land_ones. Qed.

Lemma splitV_encoded c recid :
  0 <= c < 2 ^ 62 -> recid = 0 \/ recid = 1 -> splitV (c * 2 + 35 + recid) = Ok (c, recid).
Proof.
  intros Hc Hr. unfold splitV. rewrite Uint64_small by lia.
  destruct (Z.eqb_spec (c * 2 + 35 + recid) 27), (Z.eqb_spec (c * 2 + 35 + recid) 28); try lia. simpl.
  destruct (Z.leb_spec 35 (c * 2 + 35 + recid)); [|lia].
  replace (c * 2 + 35 + recid - 35) with (recid + c * 2) by lia.
  rewrite land_1, Z.mod_add, Z.mod_small by lia.
  replace (recid + c * 2 - recid) with (c * 2) by lia. by rewrite Z.div_mul.
Qed.

Lemma splitV_inv v c recid :
  splitV v = Ok (c, recid) -> 35 <= v < 2 ^ 64 ->
  v = c * 2 + 35 + recid /\ (recid = 0 \/ recid = 1) /\ 0 <= c < 2 ^ 63.
Proof.
  intros E Hv. unfold splitV in E. rewrite Uint64_small in E by lia.
  destruct (Z.eqb_spec v 27), (Z.eqb_spec v 28); try lia. simpl in E.
  destruct (Z.leb_spec 35 v); [|lia]. injection E as <- <-.
  rewrite land_1.
  pose proof (Z.mod_pos_bound (v - 35) 2). pose proof (Z.div_mod (v - 35) 2).
  replace (v - 35 - (v - 35) mod 2) with ((v - 35) / 2 * 2) by lia. rewrite Z.div_mul by lia. lia.
Qed.

Lemma parseTo_addrBytes to : parseTo (addrBytes to) = Ok to.
Proof.
  destruct to as [a|]; [|done]. unfold parseTo. simpl addrBytes. rewrite len_abytes.
  cbn [Z.eqb Z.of_nat AddressLength]. simpl. by rewrite array_of_abytes.
Qed.

Lemma parseTo_inv b to : parseTo b = Ok to -> addrBytes to = b.
Proof.
  unfold parseTo. destruct (Z.eqb_spec (len b) 0) as [->%len_zero_inv|]; [by intros [= <-]|].
  destruct (Z.eqb_spec (len b) (Z.of_nat AddressLength)) as [E|]; [|done]. intros [= <-].
  apply abytes_array_of. unfold len in E. lia.
Qed.

Lemma be2z_zeros n : be2z (replicate n x00) = 0.
Proof. induction n as [|n IH]; [done|]. cbn [replicate]. by rewrite be2z_cons, IH. Qed.

(** Left-padding with zeros to 32 bytes undoes [big.Int.Bytes]. *)
Lemma pad_be_min l : len l = 32 -> zeros (32 - len (be_min (be2z l))) ++ be_min (be2z l) = l.
Proof.
  intros Hl. assert (len (be_min (be2z l)) <= 32) as Hm.
  { apply len_u256. pose proof (be2z_range l) as R. rewrite Hl in R. exact R. }
  pose proof (len_nonneg (be_min (be2z l))). apply be2z_inj.
  - unfold zeros. rewrite length_app, length_replicate. unfold len in *. lia.
  - rewrite be2z_app, be2z_be_min. unfold zeros.
    rewrite be2z_zeros. pose proof (be2z_range l). lia.
Qed.

Lemma len_pad l : len l <= 32 -> len (zeros (32 - len l) ++ l) = 32.
Proof. intros. pose proof (len_nonneg l). rewrite len_app, len_zeros; lia. Qed.

Lemma be2z_pad l : be2z (zeros (32 - len l) ++ l) = be2z l.
Proof.
  rewrite be2z_app. unfold zeros. by rewrite be2z_zeros.
Qed.

Lemma compactSig_split rb rs ss :
  b2z rb = 27 \/ b2z rb = 28 -> len rs = 32 -> len ss = 32 ->
  compactSig (b2z rb - 27) (be_min (be2z rs)) (be_min (be2z ss)) = rb :: rs ++ ss.
Proof.
  intros Hb Hr Hs. unfold compactSig. rewrite !pad_be_min by done. f_equal.
  replace (27 + (b2z rb - 27)) with (b2z rb) by lia. apply z2b_b2z.
Qed.

Lemma rs_accepted z : 0 < z < 2 ^ 256 -> (32 <? len (be_min z)) = false /\ (len (be_min z) =? 0) = false.
Proof.
  intros Hz. pose proof (len_u256 z ltac:(unfold is_u256; lia)).
  rewrite len_be_min in *. pose proof (byteLen_pos z ltac:(lia)).
  split; [by apply Z.ltb_ge|apply Z.eqb_neq; lia].
Qed.

Section Parser.
Context `{Crypto}.

Lemma ParseEthLegacyTx_items raw i0 i1 i2 i3 i4 i5 i6 i7 i8 c recid to a :
  DecodeList raw = Some (Ok [i0; i1; i2; i3; i4; i5; i6; i7; i8]) ->
  len i0 <= 8 -> len i2 <= 8 -> splitV (be2z i6) = Ok (c, recid) -> parseTo i3 = Ok to ->
  (32 <? len i7) = false -> (32 <? len i8) = false -> (len i7 =? 0) = false -> (len i8 =? 0) = false ->
  let tx := mkTx TxTypeEthLegacy c (be2z i0) to (Some (be2z i4)) (be2z i2) (Some (be2z i1)) i5
              (compactSig recid i7 i8) in
  Sender tx = Ok a -> ParseEthLegacyTx raw = Ok tx.
Proof.
  intros Hd H0 H2 Hv Hto H7 H8 Z7 Z8 tx Hs. unfold ParseEthLegacyTx. rewrite Hd. cbn [default from_option id res_bind].
  rewrite !bytesToUint64_be2z by done. cbn [res_bind]. rewrite Hv, Hto. cbn [res_bind].
  rewrite H7, H8, Z7, Z8. cbn [orb]. fold tx. by rewrite Hs.
Qed.

Lemma ParseEthLegacyTx_inv raw tx :
  ParseEthLegacyTx raw = Ok tx ->
  exists i0 i1 i2 i3 i4 i5 i6 i7 i8 c recid to,
    DecodeList raw = Some (Ok [i0; i1; i2; i3; i4; i5; i6; i7; i8])
    /\ len i0 <= 8 /\ len i2 <= 8 /\ splitV (be2z i6) = Ok (c, recid) /\ parseTo i3 = Ok to
    /\ 1 <= len i7 <= 32 /\ 1 <= len i8 <= 32
    /\ tx = mkTx TxTypeEthLegacy c (be2z i0) to (Some (be2z i4)) (be2z i2) (Some (be2z i1)) i5
              (compactSig recid i7 i8)
    /\ exists a, Sender tx = Ok a.
Proof.
  unfold ParseEthLegacyTx. destruct (DecodeList raw) as [[items| |]|]; try done.
  cbn [default from_option id res_bind].
  do 10 (destruct items as [|? items]; try done).
  destruct (bytesToUint64 l) as [n| |] eqn:E0; try done. cbn [res_bind].
  destruct (bytesToUint64 l1) as [g| |] eqn:E2; try done. cbn [res_bind].
  destruct (splitV (be2z l5)) as [[c recid]| |] eqn:Ev; try done. cbn [res_bind].
  destruct (parseTo l2) as [to| |] eqn:Eto; try done. cbn [res_bind].
  apply bytesToUint64_inv in E0 as [-> ?], E2 as [-> ?].
  destruct (Z.ltb_spec 32 (len l6)), (Z.ltb_spec 32 (len l7)), (Z.eqb_spec (len l6) 0), (Z.eqb_spec (len l7) 0);
    try done. cbn [orb].
  destruct (Sender _) as [a| |] eqn:Es; try done. intros [= <-].
  pose proof (len_nonneg l6). pose proof (len_nonneg l7).
  exists l, l0, l1, l2, l3, l4, l5, l6, l7, c, recid, to. split_and!; try done; try lia. by exists a.
Qed.

End Parser.

(** A concrete Ethereum transaction, and its raw encoding. *)
#[local] Existing Instance toyCrypto.

Definition toyEthTx : Transaction :=
  mkTx TxTypeEthLegacy 7 3 (Some BurnAddress) (Some 5) 30000 (Some 2) [x01; x00]
    (x1b :: replicate 32 x01 ++ replicate 32 x02).

Lemma toyEthTx_wf : wf_tx toyEthTx.
Proof.
  split; unfold is_u64, is_u256; cbn [toyEthTx tx_Type tx_ChainID tx_Nonce tx_GasLimit tx_Value tx_GasPrice];
    unfold TxTypeEthLegacy; [lia|lia|lia|lia| | | |].
  - exists 5. split; [done|lia].
  - exists 2. split; [done|lia].
  - reflexivity.
  - reflexivity.
Qed.

(** A raw transaction whose nonce is written [0x0005]: accepted, but re-encoded differently. *)
Definition paddedItems : list (list byte) :=
  [[x00; x05]; [x02]; [x75; x30]; []; [x05]; []; [x31]; [x01]; [x02]].

Lemma padded_nonce_reencodes :
  exists tx, ParseEthLegacyTx (List (map Bytes paddedItems)) = Ok tx
    /\ EncodeEthRaw tx <> List (map Bytes paddedItems).
Proof. eexists. split; [vm_compute; reflexivity|]. vm_compute. congruence. Qed.

(** ** Properties *)

(** C38: Round trip.  Parsing the raw signed RLP of an Ethereum transaction gives back the same
    transaction, signature included: no field changes between the wallet and the node. *)
Theorem Parse_EncodeEthRaw `{Crypto} tx rb rs ss a :
  wf_tx tx -> tx_Type tx = TxTypeEthLegacy -> tx_ChainID tx < 2 ^ 62 ->
  tx_Sig tx = rb :: rs ++ ss -> b2z rb = 27 \/ b2z rb = 28 -> len rs = 32 -> len ss = 32 ->
  0 < be2z rs -> 0 < be2z ss -> Sender tx = Ok a ->
  ParseEthLegacyTx (EncodeEthRaw tx) = Ok tx.
Proof.
  intros Hw Ht Hcid Hsig Hrb Hrs Hss Zr Zs Hs.
  destruct (wf_tx_EncodeEthRaw tx rb rs ss) as [E HL]; [done..|]. rewrite E.
  pose proof (wf_ChainID _ Hw) as Hc. pose proof (len_u64 _ (wf_Nonce _ Hw)). pose proof (len_u64 _ (wf_GasLimit _ Hw)).
  destruct (wf_Value _ Hw) as (v & Ev & Hv), (wf_GasPrice _ Hw) as (p & Ep & Hp).
  pose proof (wf_Nonce _ Hw). pose proof (wf_GasLimit _ Hw). unfold is_u64, is_u256 in *.
  pose proof (be2z_range rs) as Rr. pose proof (be2z_range ss) as Rs. rewrite Hrs in Rr. rewrite Hss in Rs.
  destruct (rs_accepted (be2z rs)) as [R1 R2]; [lia|]. destruct (rs_accepted (be2z ss)) as [S1 S2]; [lia|].
  assert (tx = mkTx TxTypeEthLegacy (tx_ChainID tx) (be2z (be_min (tx_Nonce tx))) (tx_To tx)
    (Some (be2z (be_min v))) (be2z (be_min (tx_GasLimit tx))) (Some (be2z (be_min p))) (tx_Data tx)
    (compactSig (b2z rb - 27) (be_min (be2z rs)) (be_min (be2z ss)))) as Etx.
  { rewrite compactSig_split, !be2z_be_min, !Z.abs_eq by (done || lia). destruct tx; simpl in *; congruence. }
  match goal with |- ParseEthLegacyTx ?r = _ => set (raw := r) end. rewrite Etx.
  eapply (ParseEthLegacyTx_items _ _ _ _ (addrBytes (tx_To tx)) _ _ (be_min (tx_ChainID tx * 2 + 35 + (b2z rb - 27))));
    try exact R1; try exact R2; try exact S1; try exact S2; try done.
  - unfold raw. rewrite DecodeList_List_lemma by done. unfold ethStrings. by rewrite Ev, Ep.
  - rewrite be2z_be_min, Z.abs_eq by lia. apply splitV_encoded; lia.
  - apply parseTo_addrBytes.
  - by rewrite <- Etx.
Qed.

Lemma Parse_EncodeEthRaw_witness : ParseEthLegacyTx (EncodeEthRaw toyEthTx) = Ok toyEthTx.
Proof.
  eapply (Parse_EncodeEthRaw toyEthTx x1b (replicate 32 x01) (replicate 32 x02));
    first [apply toyEthTx_wf | reflexivity | left; reflexivity].
Defined.

(** Re-broadcast.  What the parser accepts, [EncodeEthRaw] re-encodes to the bytes that were
    received, when the integer fields are minimal and [v] carries a chain id; so the node's hash of
    the transaction is the one the wallet computed. *)
Theorem EncodeEthRaw_Parse `{Crypto} raw tx i0 i1 i2 i3 i4 i5 i6 i7 i8 :
  len raw < 2 ^ 63 -> ParseEthLegacyTx raw = Ok tx ->
  DecodeList raw = Some (Ok [i0; i1; i2; i3; i4; i5; i6; i7; i8]) ->
  Forall minimal [i0; i1; i2; i4; i6; i7; i8] -> 35 <= be2z i6 < 2 ^ 64 ->
  EncodeEthRaw tx = raw.
Proof.
  intros Hl Hp Hd Hm Hv.
  apply ParseEthLegacyTx_inv in Hp as (j0 & j1 & j2 & j3 & j4 & j5 & j6 & j7 & j8 & c & recid & to & Hj & L0 & L2
    & Hsv & Hto & L7 & L8 & -> & _).
  rewrite Hd in Hj. injection Hj as <- <- <- <- <- <- <- <- <-.
  apply splitV_inv in Hsv as (Ev & Hrec & Hc); [|done].
  apply parseTo_inv in Hto. rewrite !Forall_cons in Hm. destruct Hm as (M0 & M1 & M2 & M4 & M6 & M7 & M8 & _).
  assert (b2z (z2b (27 + recid)) = 27 + recid) as Eb by (rewrite z2b_small; lia).
  assert (forall l, len l <= 8 -> is_u64 (be2z l)) as Hu.
  { intros l Hl8. pose proof (be2z_range l). split; [lia|]. apply Z.lt_le_trans with (256 ^ len l); [lia|].
    change (2 ^ 64) with (256 ^ 8). apply Z.pow_le_mono_r; lia. }
  rewrite (EncodeEthRaw_strings _ (z2b (27 + recid)) (zeros (32 - len i7) ++ i7) (zeros (32 - len i8) ++ i8));
    cbn [tx_Nonce tx_GasLimit tx_ChainID tx_Value tx_GasPrice tx_Sig]; eauto; try (apply len_pad; lia);
    rewrite ?Eb; try (unfold is_u64; lia).
  unfold ethStrings. cbn [tx_Nonce tx_GasPrice tx_GasLimit tx_To tx_Value tx_Data default from_option id].
  rewrite !be2z_pad, Hto. replace (c * 2 + 35 + (27 + recid - 27)) with (be2z i6) by lia.
  rewrite !be_min_be2z by done. symmetry. by apply DecodeList_canonical_lemma.
Qed.

Lemma EncodeEthRaw_Parse_witness : EncodeEthRaw toyEthTx = EncodeEthRaw toyEthTx.
Proof.
  eapply (EncodeEthRaw_Parse (EncodeEthRaw toyEthTx) toyEthTx);
    [vm_compute; reflexivity|vm_compute; reflexivity|vm_compute; reflexivity| |].
  - repeat constructor; vm_compute; congruence.
  - vm_compute. split; congruence.
Defined.

(** Totality.  The parser returns a transaction or an error on every byte string: untrusted
    input never reaches an out-of-range index or slice. *)
Theorem ParseEthLegacyTx_total `{Crypto} raw : len raw < 2 ^ 63 -> ParseEthLegacyTx raw <> Panic.
Proof.
  intros Hl. unfold ParseEthLegacyTx. destruct (DecodeList_total_lemma raw Hl) as (r & -> & Hr).
  cbn [default from_option id]. destruct r as [items| |]; [|done..]. cbn [res_bind].
  do 10 (destruct items as [|? items]; try done). unfold bytesToUint64, splitV, parseTo.
  repeat (case_match; cbn [res_bind]; try done).
  all: match goal with |- context [Sender ?t] => pose proof (Sender_no_panic t); destruct (Sender t) end; done.
Qed.

Lemma ParseEthLegacyTx_total_witness : @ParseEthLegacyTx toyCrypto [xc9; x80] <> Panic.
Proof. apply ParseEthLegacyTx_total. vm_compute. reflexivity. Defined.
