(* ===== verification/VmBase.v ===== *)
(** * Package [vm], the stateless parts: opcodes, gas, words, stack, memory

    Models src/vm/opcodes.go, stack.go, memory.go and the pure helpers of
    src/vm/exec.go and statedb.go: [decode] is the constant block that gives the
    opcodes their byte values, [gasCost] the static gas table, [binop_word] the
    two-operand arithmetic, [analyseJumpdests] the jump-destination analysis.
    Words are integers; [wrap] reduces them to 256 bits where the source does.
    [uint64] arithmetic of the memory pricing keeps its wrap-around, and the
    theorems show it never happens. *)
From stdpp Require Import base numbers list.
From Stdlib Require Import ZArith Lia Strings.Byte.
From S2P Require Import Prelude Common.
#[local] Open Scope Z_scope.
#[local] Open Scope go_scope.
#[local] Open Scope list_scope.

(** ** Opcodes (opcodes.go) *)

Inductive OpCode : Type :=
  | STOP | ADD | MUL | SUB | DIV | SDIV | MOD | SMOD | ADDMOD | MULMOD | EXP | SIGNEXTEND
  | LT | GT | SLT | SGT | EQ | ISZERO | AND | OR | XOR | NOT | BYTE | SHL | SHR | SAR
  | SHA3
  | ADDRESS | BALANCE | ORIGIN | CALLER | CALLVALUE | CALLDATALOAD | CALLDATASIZE | CALLDATACOPY
  | CODESIZE | CODECOPY | GASPRICE | EXTCODESIZE | EXTCODECOPY | RETURNDATASIZE | RETURNDATACOPY
  | EXTCODEHASH | BLOCKHASH | COINBASE | TIMESTAMP | NUMBER | DIFFICULTY | GASLIMIT | CHAINID
  | SELFBALANCE | BASEFEE
  | POP | MLOAD | MSTORE | MSTORE8 | SLOAD | SSTORE | JUMP | JUMPI | PC | MSIZE | GAS | JUMPDEST
  | MCOPY | PUSH0
  | PUSH (n : Z)   (* PUSH1..PUSH32 *)
  | DUP (n : Z)    (* DUP1..DUP16 *)
  | SWAP (n : Z)   (* SWAP1..SWAP16 *)
  | LOG (n : Z)    (* LOG0..LOG4 *)
  | CREATE | CALL | RETURN | DELEGATECALL | CREATE2 | STATICCALL | REVERT | INVALID
  | UNKNOWN.

Definition decode (c : byte) : OpCode :=
  let b := b2z c in
  if (0x60 <=? b) && (b <=? 0x7f) then PUSH (b - 0x60 + 1)
  else if (0x80 <=? b) && (b <=? 0x8f) then DUP (b - 0x80 + 1)
  else if (0x90 <=? b) && (b <=? 0x9f) then SWAP (b - 0x90 + 1)
  else if (0xa0 <=? b) && (b <=? 0xa4) then LOG (b - 0xa0)
  else match c with
  | x00 => STOP | x01 => ADD | x02 => MUL | x03 => SUB | x04 => DIV | x05 => SDIV
  | x06 => MOD | x07 => SMOD | x08 => ADDMOD | x09 => MULMOD | x0a => EXP | x0b => SIGNEXTEND
  | x10 => LT | x11 => GT | x12 => SLT | x13 => SGT | x14 => EQ | x15 => ISZERO
  | x16 => AND | x17 => OR | x18 => XOR | x19 => NOT | x1a => BYTE
  | x1b => SHL | x1c => SHR | x1d => SAR
  | x20 => SHA3
  | x30 => ADDRESS | x31 => BALANCE | x32 => ORIGIN | x33 => CALLER | x34 => CALLVALUE
  | x35 => CALLDATALOAD | x36 => CALLDATASIZE | x37 => CALLDATACOPY
  | x38 => CODESIZE | x39 => CODECOPY | x3a => GASPRICE
  | x3b => EXTCODESIZE | x3c => EXTCODECOPY | x3d => RETURNDATASIZE | x3e => RETURNDATACOPY
  | x3f => EXTCODEHASH
  | x40 => BLOCKHASH | x41 => COINBASE | x42 => TIMESTAMP | x43 => NUMBER | x44 => DIFFICULTY
  | x45 => GASLIMIT | x46 => CHAINID | x47 => SELFBALANCE | x48 => BASEFEE
  | x50 => POP | x51 => MLOAD | x52 => MSTORE | x53 => MSTORE8 | x54 => SLOAD | x55 => SSTORE
  | x56 => JUMP | x57 => JUMPI | x58 => PC | x59 => MSIZE | x5a => GAS | x5b => JUMPDEST
  | x5e => MCOPY | x5f => PUSH0
  | xf0 => CREATE | xf1 => CALL | xf3 => RETURN | xf4 => DELEGATECALL | xf5 => CREATE2
  | xfa => STATICCALL | xfd => REVERT | xfe => INVALID
  | _ => UNKNOWN
  end.

(** ** Gas (opcodes.go) *)

Definition LogGas : Z := 375.
Definition LogTopicGas : Z := 375.
Definition LogDataGas : Z := 8.
Definition CallBaseGas : Z := 700.
Definition CallValueGas : Z := 9000.
Definition Keccak256Gas : Z := 30.
Definition Keccak256WordGas : Z := 6.
Definition CreateGas : Z := 32000.
Definition CreateDataGas : Z := 200.
Definition SloadGas : Z := 800.
Definition SstoreSetGas : Z := 20000.
Definition SstoreResetGas : Z := 5000.
Definition SstoreNoopGas : Z := 800.

(** [isPush]: the number of immediate bytes of a PUSH. *)
Definition isPush (op : OpCode) : option Z :=
  match op with PUSH n => Some n | _ => None end.

(** The table [gasCost]; an opcode it does not mention costs 0. *)
Definition gasCost (op : OpCode) : Z :=
  match op with
  | PUSH _ | DUP _ | SWAP _ => 3
  | ADD | SUB | NOT | LT | GT | EQ | ISZERO => 3
  | SLT | SGT => 3
  | BALANCE | EXTCODESIZE | EXTCODEHASH => 700
  | EXTCODECOPY => 700
  | SELFBALANCE => 5
  | AND | OR | XOR | SHL | SHR | SAR | BYTE => 3
  | MUL | DIV | MOD | SDIV | SMOD | SIGNEXTEND => 5
  | ADDMOD | MULMOD => 8
  | EXP => 10
  | SHA3 => Keccak256Gas
  | POP => 2
  | MLOAD | MSTORE | MSTORE8 => 3
  | PC | MSIZE | GAS => 2
  | PUSH0 => 2
  | MCOPY => 3
  | ADDRESS | CALLER | CALLVALUE | CALLDATASIZE | GASLIMIT => 2
  | ORIGIN | GASPRICE | COINBASE | TIMESTAMP => 2
  | NUMBER | DIFFICULTY | CHAINID | BASEFEE => 2
  | BLOCKHASH => 20
  | CALLDATALOAD => 3
  | CALLDATACOPY => 3
  | CODESIZE => 2
  | CODECOPY => 3
  | RETURNDATASIZE => 2
  | RETURNDATACOPY => 3
  | JUMP => 8
  | JUMPI => 10
  | JUMPDEST => 1
  | SLOAD => SloadGas
  | _ => 0
  end.

Definition sstoreGas (cur next : Hash) : Z :=
  if array_eqb cur next then SstoreNoopGas
  else if Hash_IsZero cur then SstoreSetGas
  else SstoreResetGas.

(** ** Words (stack.go, exec.go, statedb.go, call.go) *)

Definition tt256 : Z := 2 ^ 256.
Definition tt256m1 : Z := 2 ^ 256 - 1.
Definition tt255 : Z := 2 ^ 255.

Definition wrap (v : Z) : Z := Z.land v tt256m1.

Definition toSigned (x : Z) : Z := if x <? tt255 then x else x - tt256.
Definition toUnsigned (x : Z) : Z := x mod tt256.

Definition boolToInt (b : bool) : Z := if b then 1 else 0.

Definition wordToHash (w : Z) : Hash := array_of HashLength (be_fixed 32 w).

(** [copy(a[:], h[12:])]: the low twenty bytes. *)
Definition wordToAddress (w : Z) : Address := array_of AddressLength (drop 12 (abytes (wordToHash w))).

(** [^uint64(0)] for a request out of range. *)
Definition clampGas (w : Z) : Z := if negb (IsUint64 w) then 2 ^ 64 - 1 else Uint64 w.

Definition bigOrZero (v : option Z) : Z := default 0 v.

(** [z.Exp(a, b, m)] by square and multiply on the bits of the exponent. *)
Fixpoint pow_mod_pos (a : Z) (p : positive) (m : Z) : Z :=
  match p with
  | xH => a mod m
  | xO q => let r := pow_mod_pos a q m in (r * r) mod m
  | xI q => let r := pow_mod_pos a q m in ((r * r) mod m * a) mod m
  end.

Definition big_Exp (a b m : Z) : Z :=
  match b with
  | Zpos p => pow_mod_pos a p m
  | _ => 1 mod m
  end.

(** The switch of [binop], EXP's gas charge apart. *)
Definition binop_word (op : OpCode) (a b : Z) : Z :=
  match op with
  | ADD => a + b
  | MUL => a * b
  | SUB => a - b
  | DIV => if Z.sgn b =? 0 then 0 else a / b
  | SDIV => let sb := toSigned b in
      if Z.sgn sb =? 0 then 0 else toUnsigned (Z.quot (toSigned a) sb)
  | MOD => if Z.sgn b =? 0 then 0 else a mod b
  | SMOD => let sb := toSigned b in
      if Z.sgn sb =? 0 then 0 else toUnsigned (Z.rem (toSigned a) sb)
  | SIGNEXTEND =>
      if 31 <? a then b
      else
        let bitPos := 8 * Uint64 a + 7 in
        let mask := Z.shiftl 1 (bitPos + 1) - 1 in
        if Z.testbit b bitPos then Z.lor b (Z.lxor tt256m1 mask) else Z.land b mask
  | BYTE =>
      if 32 <=? a then 0
      else Z.land (Z.shiftr b (8 * (31 - Uint64 a))) 0xff
  | EXP => big_Exp a b tt256
  | LT => boolToInt (a <? b)
  | GT => boolToInt (b <? a)
  | SLT => boolToInt (toSigned a <? toSigned b)
  | SGT => boolToInt (toSigned b <? toSigned a)
  | EQ => boolToInt (a =? b)
  | AND => Z.land a b
  | OR => Z.lor a b
  | XOR => Z.lxor a b
  | SHL => if 256 <=? a then 0 else Z.shiftl b (Uint64 a)
  | SHR => if 256 <=? a then 0 else Z.shiftr b (Uint64 a)
  | SAR => let sb := toSigned b in
      if 256 <=? a then (if Z.sgn sb <? 0 then tt256m1 else 0)
      else toUnsigned (Z.shiftr sb (Uint64 a))
  | _ => 0
  end.

(** ** The stack (stack.go): the head of the list is the top *)

Definition maxStack : Z := 1024.

Definition stack_push (st : list Z) (v : Z) : res (list Z) :=
  if maxStack <=? len st then Err ErrStackOverflow else Ok (wrap v :: st).

Definition stack_pop (st : list Z) : res (Z * list Z) :=
  match st with
  | [] => Err ErrStackUnderflow
  | v :: st' => Ok (v, st')
  end.

(** The word [n] slots from the top; the index is in range after the check. *)
Definition stack_peek (st : list Z) (n : Z) : res Z :=
  if len st <=? n then Err ErrStackUnderflow else or_panic (st !! Z.to_nat n).

Definition stack_dup (st : list Z) (n : Z) : res (list Z) :=
  let? v := stack_peek st (n - 1) in stack_push st v.

Definition stack_swap (st : list Z) (n : Z) : res (list Z) :=
  if len st <=? n then Err ErrStackUnderflow
  else
    let? top := or_panic (st !! 0%nat) in
    let? v := or_panic (st !! Z.to_nat n) in
    Ok (<[Z.to_nat n := top]> (<[0%nat := v]> st)).

(** ** Memory (memory.go) *)

Definition resize (m : list byte) (size : Z) : list byte :=
  if len m <? size then m ++ zeros (size - len m) else m.

(** [copy(m.data[lo:hi], val)] with [hi - lo = len val]; a slice out of range panics. *)
Definition mem_copy (m : list byte) (lo hi : Z) (val : list byte) : option (list byte) :=
  if (lo <=? hi) && (hi <=? len m)
  then Some (take (Z.to_nat lo) m ++ val ++ drop (Z.to_nat hi) m)
  else None.

Definition mem_set (m : list byte) (offset : Z) (val : list byte) : option (list byte) :=
  if 0 <? len val then mem_copy m offset (u64 (offset + u64 (len val))) val else Some m.

Definition mem_set32 (m : list byte) (offset : Z) (val : Z) : option (list byte) :=
  mem_copy m offset (u64 (offset + 32)) (be_fixed 32 val).

(** [make([]byte, size)] with as much of [data[off:...]] as there is copied over it. *)
Definition padded (data : list byte) (off size : Z) : list byte :=
  let d := take (Z.to_nat size) (drop (Z.to_nat off) data) in
  d ++ zeros (size - len d).

(** The slice [m.data[offset:min(offset+size, len)]] panics if the sum wraps below [offset]. *)
Definition mem_get (m : list byte) (offset size : Z) : option (list byte) :=
  if (size =? 0) || (len m <=? offset) then Some (zeros size)
  else if u64 (offset + size) <? offset then None
  else Some (padded m offset size).

Definition toWordSize (n : Z) : Z := u64 (n + 31) / 32.

Definition memoryCost (words : Z) : Z := u64 (u64 (words * 3) + u64 (words * words) / 512).

Definition maxMemBytes : Z := 2 ^ 32.

Definition expansionGas (m : list byte) (offset size : Z) : option Z :=
  if size =? 0 then Some 0
  else
    let end_ := u64 (offset + size) in
    if end_ <? offset then None
    else if maxMemBytes <? end_ then None
    else
      let newWords := toWordSize end_ in
      let oldWords := toWordSize (len m) in
      if newWords <=? oldWords then Some 0
      else Some (u64 (memoryCost newWords - memoryCost oldWords)).

(** [getData]: a read past the end is zero-padded; like [mem_get], the slice panics if
    [off + size] wraps. *)
Definition getData (data : list byte) (offset : Z) (size : Z) : option (list byte) :=
  if (size =? 0) || negb (IsUint64 offset) then Some (zeros size)
  else
    let off := Uint64 offset in
    if len data <=? off then Some (zeros size)
    else if u64 (off + size) <? off then None
    else Some (padded data off size).

(** ** Jump destinations (exec.go) *)

(** The loop of [analyseJumpdests] from offset [i]: [skip] counts the push data still to skip. *)
Fixpoint jumpdests_from (skip : Z) (code : list byte) : list bool :=
  match code with
  | [] => []
  | c :: rest =>
      if 0 <? skip then false :: jumpdests_from (skip - 1) rest
      else match decode c with
      | JUMPDEST => true :: jumpdests_from 0 rest
      | PUSH n => false :: jumpdests_from n rest
      | _ => false :: jumpdests_from 0 rest
      end
  end.

Definition analyseJumpdests (code : list byte) : list bool := jumpdests_from 0 code.

(** ** Lemmas: words *)

Definition is_word (w : Z) : Prop := 0 <= w < tt256.

Lemma wrap_mod v : wrap v = v mod tt256.
Proof. unfold wrap, tt256m1, tt256. change (2 ^ 256 - 1) with (Z.ones 256). by rewrite Z.land_ones. Qed.

Lemma wrap_word v : is_word (wrap v).
Proof. rewrite wrap_mod. apply Z.mod_pos_bound. reflexivity. Qed.

Lemma wrap_small v : is_word v -> wrap v = v.
Proof. intros. rewrite wrap_mod. by apply Z.mod_small. Qed.

Lemma wrap_wrap v : wrap (wrap v) = wrap v.
Proof. apply wrap_small, wrap_word. Qed.

Lemma toSigned_range a : is_word a -> - 2 ^ 255 <= toSigned a < 2 ^ 255.
Proof. unfold is_word, toSigned, tt255, tt256. destruct (Z.ltb_spec a (2 ^ 255)); lia. Qed.

(** Two's complement: [toUnsigned] inverts [toSigned] on signed words. *)
Lemma toSigned_toUnsigned x : - 2 ^ 255 <= x < 2 ^ 255 -> toSigned (toUnsigned x) = x.
Proof.
  intros Hx. unfold toUnsigned, toSigned, tt255, tt256. destruct (decide (0 <= x)).
  - rewrite Z.mod_small by lia. destruct (Z.ltb_spec x (2 ^ 255)); lia.
  - rewrite <- (Z.mod_add x 1), Z.mod_small by lia. destruct (Z.ltb_spec (x + 1 * 2 ^ 256) (2 ^ 255)); lia.
Qed.

Lemma toUnsigned_toSigned a : is_word a -> toUnsigned (toSigned a) = a.
Proof.
  unfold is_word, toUnsigned, toSigned, tt255, tt256. intros Ha. destruct (Z.ltb_spec a (2 ^ 255)).
  - apply Z.mod_small. lia.
  - rewrite <- (Z.mod_add (a - 2 ^ 256) 1), Z.mod_small by lia. lia.
Qed.

Lemma toUnsigned_word x : is_word (toUnsigned x).
Proof. apply Z.mod_pos_bound. reflexivity. Qed.

Lemma pow_mod_pos_spec a p m : 0 < m -> pow_mod_pos a p m = a ^ Z.pos p mod m.
Proof.
  intros Hm. induction p as [p IH|p IH|]; cbn [pow_mod_pos].
  - rewrite IH. rewrite <- Z.mul_mod by lia. rewrite Z.mul_mod_idemp_l by lia. f_equal.
    rewrite Pos2Z.inj_xI, Z.pow_add_r, Z.pow_1_r, <- Z.pow_add_r by lia. do 2 f_equal. lia.
  - rewrite IH. rewrite <- Z.mul_mod by lia. rewrite <- Z.pow_add_r by lia. do 2 f_equal. lia.
  - by rewrite Z.pow_1_r.
Qed.

Lemma big_Exp_spec a b m : 0 <= b -> 0 < m -> big_Exp a b m = a ^ b mod m.
Proof. intros Hb Hm. destruct b as [|p|p]; [done|by apply pow_mod_pos_spec|lia]. Qed.

(** ** Lemmas: byte strings of a given length *)

Lemma len_padded data off size : 0 <= size -> len (padded data off size) = size.
Proof.
  intros Hs. unfold padded. rewrite len_app.
  assert (len (take (Z.to_nat size) (drop (Z.to_nat off) data)) <= size).
  { unfold len. rewrite length_take. lia. }
  rewrite len_zeros by lia. lia.
Qed.

Lemma getData_ok data off size :
  0 <= size < 2 ^ 62 -> len data < 2 ^ 62 -> exists d, getData data off size = Some d /\ len d = size.
Proof.
  intros Hs Hd. unfold getData. destruct (_ || _); [eauto using len_zeros with lia|].
  pose proof (Uint64_range off). destruct (Z.leb_spec (len data) (Uint64 off)); [eauto using len_zeros with lia|].
  rewrite u64_small by lia. destruct (Z.ltb_spec (Uint64 off + size) (Uint64 off)); [lia|].
  exists (padded data (Uint64 off) size). split; [done|]. apply len_padded. lia.
Qed.

(** ** Lemmas: memory *)

Lemma len_resize m size : len (resize m size) = Z.max (len m) size.
Proof.
  unfold resize. pose proof (len_nonneg m). destruct (Z.ltb_spec (len m) size); [|lia].
  rewrite len_app, len_zeros; lia.
Qed.

Lemma mem_copy_ok m lo hi val :
  0 <= lo <= hi -> hi <= len m -> len val = hi - lo ->
  exists m', mem_copy m lo hi val = Some m' /\ len m' = len m.
Proof.
  intros Hlo Hhi Hv. unfold mem_copy. destruct (Z.leb_spec lo hi), (Z.leb_spec hi (len m)); try lia. simpl.
  eexists. split; [reflexivity|]. rewrite !len_app, len_take, len_drop by lia. lia.
Qed.

Lemma mem_set_ok m off val :
  0 <= off -> len val = 0 \/ off + len val <= len m -> len m < 2 ^ 63 ->
  exists m', mem_set m off val = Some m' /\ len m' = len m.
Proof.
  intros Ho Hv Hm. unfold mem_set. pose proof (len_nonneg val).
  destruct (Z.ltb_spec 0 (len val)); [|eauto].
  rewrite (u64_small (len val)), u64_small by lia. apply mem_copy_ok; lia.
Qed.

Lemma mem_set32_ok m off val :
  0 <= off -> off + 32 <= len m -> len m < 2 ^ 63 ->
  exists m', mem_set32 m off val = Some m' /\ len m' = len m.
Proof.
  intros Ho Hv Hm. unfold mem_set32. rewrite u64_small by lia.
  apply mem_copy_ok; [lia..|]. rewrite len_be_fixed. lia.
Qed.

Lemma mem_get_ok m off size :
  0 <= off -> 0 <= size -> size = 0 \/ off + size < 2 ^ 64 ->
  exists d, mem_get m off size = Some d /\ len d = size.
Proof.
  intros Ho Hs Hos. unfold mem_get. destruct (Z.eqb_spec size 0) as [->|]; [by exists []|].
  destruct (Z.leb_spec (len m) off); [eauto using len_zeros|]. cbn [orb].
  rewrite u64_small by lia. destruct (Z.ltb_spec (off + size) off); [lia|].
  eauto using len_padded.
Qed.

(** ** Lemmas: the price of memory *)

(** The price over the integers: 3 gas a word plus a quadratic term. *)
Definition memPrice (words : Z) : Z := 3 * words + words * words / 512.
Definition wordsFor (bytes : Z) : Z := (bytes + 31) / 32.

Lemma toWordSize_exact n : 0 <= n <= maxMemBytes -> toWordSize n = wordsFor n /\ 0 <= wordsFor n <= 2 ^ 27.
Proof.
  unfold maxMemBytes, toWordSize, wordsFor. intros Hn. rewrite u64_small by lia. split; [done|].
  split; [apply Z.div_pos; lia|]. apply Z.lt_succ_r, Z.div_lt_upper_bound; lia.
Qed.

Lemma memoryCost_exact w : 0 <= w <= 2 ^ 27 -> memoryCost w = memPrice w /\ 0 <= memPrice w < 2 ^ 63.
Proof.
  intros Hw. unfold memoryCost, memPrice. assert (0 <= w * w <= 2 ^ 54) by nia.
  assert (0 <= w * w / 512 <= 2 ^ 54) by (split; [apply Z.div_pos; lia|apply Z.div_le_upper_bound; lia]).
  rewrite !u64_small by (rewrite ?u64_small by lia; lia). lia.
Qed.

Lemma memPrice_mono a b : 0 <= a <= b -> memPrice a <= memPrice b.
Proof.
  intros H. unfold memPrice. assert (a * a / 512 <= b * b / 512) by (apply Z.div_le_mono; nia). lia.
Qed.

Lemma expansionGas_exact_lemma m off size :
  len m <= maxMemBytes -> 0 <= off < 2 ^ 64 -> 0 <= size < 2 ^ 64 ->
  expansionGas m off size =
    if size =? 0 then Some 0
    else if maxMemBytes <? off + size then None
    else Some (Z.max 0 (memPrice (wordsFor (off + size)) - memPrice (wordsFor (len m)))).
Proof.
  intros Hm Ho Hs. unfold expansionGas. destruct (Z.eqb_spec size 0); [done|].
  unfold maxMemBytes in *. destruct (Z.ltb_spec (2 ^ 32) (off + size)).
  - destruct (decide (off + size < 2 ^ 64)).
    + rewrite u64_small by lia. destruct (Z.ltb_spec (off + size) off); [done|].
      destruct (Z.ltb_spec (2 ^ 32) (off + size)); [done|lia].
    + assert (u64 (off + size) = off + size - 2 ^ 64) as ->.
      { unfold u64. rewrite <- (Z.mod_add _ (-1)), Z.mod_small; lia. }
      destruct (Z.ltb_spec (off + size - 2 ^ 64) off); [done|lia].
  - rewrite u64_small by lia. destruct (Z.ltb_spec (off + size) off); [lia|].
    destruct (Z.ltb_spec (2 ^ 32) (off + size)); [lia|].
    pose proof (len_nonneg m).
    destruct (toWordSize_exact (off + size)) as [-> Wn]; [unfold maxMemBytes; lia|].
    destruct (toWordSize_exact (len m)) as [-> Wo]; [unfold maxMemBytes; lia|].
    destruct (Z.leb_spec (wordsFor (off + size)) (wordsFor (len m))).
    + pose proof (memPrice_mono (wordsFor (off + size)) (wordsFor (len m))). rewrite Z.max_l by lia. done.
    + pose proof (memPrice_mono (wordsFor (len m)) (wordsFor (off + size))).
      destruct (memoryCost_exact (wordsFor (off + size))) as [-> ?]; [lia|].
      destruct (memoryCost_exact (wordsFor (len m))) as [-> ?]; [lia|].
      rewrite u64_small, Z.max_r by lia. done.
Qed.

(** ** Lemmas: jump destinations *)

(** The offsets at which an instruction starts when the code is read from the beginning. *)
Inductive insn_start (code : list byte) : Z -> Prop :=
  | IS_zero : insn_start code 0
  | IS_next p c : insn_start code p -> code !! Z.to_nat p = Some c ->
      insn_start code (p + 1 + default 0 (isPush (decode c))).

Lemma isPush_range c n : isPush (decode c) = Some n -> 1 <= n <= 32.
Proof.
  unfold decode. destruct ((0x60 <=? b2z c) && (b2z c <=? 0x7f)) eqn:E.
  - simpl. intros [= <-]. apply andb_true_iff in E as [E1%Z.leb_le E2%Z.leb_le]. lia.
  - repeat (case_match; simpl; try done).
Qed.

(** The number of bytes an instruction's immediate data takes. *)
Definition immediates (c : byte) : Z := default 0 (isPush (decode c)).

Lemma immediates_range c : 0 <= immediates c <= 32.
Proof.
  unfold immediates. destruct (isPush (decode c)) as [n|] eqn:E; simpl; [|lia].
  apply isPush_range in E. lia.
Qed.

Lemma insn_start_nonneg code p : insn_start code p -> 0 <= p.
Proof. induction 1 as [|p c _ IH _]; [done|]. pose proof (immediates_range c). unfold immediates in *. lia. Qed.

(** Instructions do not overlap: a later start is past the earlier instruction's data. *)
Lemma insn_start_disjoint code p q c :
  insn_start code p -> insn_start code q -> q < p -> code !! Z.to_nat q = Some c ->
  q + 1 + immediates c <= p.
Proof.
  remember (Z.to_nat (p + q)) as n eqn:Hn. revert p q c Hn.
  induction (lt_wf n) as [n _ IH]. intros p q c -> Hp Hq Hlt Hc.
  pose proof (insn_start_nonneg _ _ Hq).
  inversion Hp as [|p' c' Hp' Hc']; subst; [lia|]. pose proof (insn_start_nonneg _ _ Hp').
  fold (immediates c') in *. pose proof (immediates_range c').
  destruct (Z.lt_trichotomy q p') as [Hlt'|[->|Hgt]].
  - pose proof (IH (Z.to_nat (p' + q)) ltac:(lia) p' q c eq_refl Hp' Hq Hlt' Hc). lia.
  - rewrite Hc' in Hc. injection Hc as ->. lia.
  - pose proof (IH (Z.to_nat (q + p')) ltac:(lia) q p' c' eq_refl Hq Hp' ltac:(lia) Hc'). lia.
Qed.

Lemma length_jumpdests skip code : length (jumpdests_from skip code) = length code.
Proof.
  revert skip. induction code as [|c code IH]; intros skip; [done|]. cbn [jumpdests_from].
  repeat case_match; simpl; by rewrite IH.
Qed.

Definition isJumpdest (op : OpCode) : bool := match op with JUMPDEST => true | _ => false end.

Lemma isJumpdest_true op : isJumpdest op = true -> op = JUMPDEST.
Proof. by destruct op. Qed.

(** What the analysis does with one byte. *)
Lemma jumpdests_from_cons skip c code :
  0 <= skip ->
  jumpdests_from skip (c :: code) =
    if 0 <? skip then false :: jumpdests_from (skip - 1) code
    else isJumpdest (decode c) :: jumpdests_from (immediates c) code.
Proof.
  intros Hs. cbn [jumpdests_from]. destruct (Z.ltb_spec 0 skip); [done|]. unfold immediates.
  by destruct (decode c).
Qed.

(** Starting [skip] bytes before the next instruction, the analysis marks the JUMPDESTs that start
    an instruction. *)
Lemma jumpdests_from_spec pre code skip :
  0 <= skip -> (skip <= len code -> insn_start (pre ++ code) (len pre + skip)) ->
  (forall p, len pre <= p < len pre + skip -> ~ insn_start (pre ++ code) p) ->
  forall p, len pre <= p ->
  jumpdests_from skip code !! Z.to_nat (p - len pre) = Some true <->
  insn_start (pre ++ code) p /\ exists c, (pre ++ code) !! Z.to_nat p = Some c /\ decode c = JUMPDEST.
Proof.
  revert pre skip. induction code as [|c code IH]; intros pre skip Hs Hstart Hbetween p Hp.
  { rewrite app_nil_r. split; [done|]. intros (_ & c & Hc%lookup_lt_Some & _). unfold len in Hp. lia. }
  pose proof (len_nonneg pre). pose proof (len_nonneg code). rewrite len_cons in Hstart.
  assert ((pre ++ c :: code) !! Z.to_nat (len pre) = Some c) as Hc.
  { apply list_lookup_middle. unfold len. lia. }
  assert (forall sk, (sk <= len code -> insn_start (pre ++ c :: code) (len pre + 1 + sk)) ->
    0 <= sk -> (forall q, len pre + 1 <= q < len pre + 1 + sk -> ~ insn_start (pre ++ c :: code) q) ->
    forall q, len pre + 1 <= q ->
    jumpdests_from sk code !! Z.to_nat (q - (len pre + 1)) = Some true <->
    insn_start (pre ++ c :: code) q /\ exists c', (pre ++ c :: code) !! Z.to_nat q = Some c' /\ decode c' = JUMPDEST)
    as IH'.
  { intros sk H1 H2 H3 q Hq. specialize (IH (pre ++ [c]) sk H2). rewrite <- app_assoc, len_app in IH.
    change (len [c]) with 1 in IH. apply IH; done. }
  rewrite jumpdests_from_cons by done.
  destruct (Z.eq_dec p (len pre)) as [->|Hne].
  - replace (len pre - len pre) with 0 by lia. rewrite Hc. destruct (Z.ltb_spec 0 skip).
    + split; [done|]. intros [Hi _]. exfalso. apply (Hbetween (len pre)); [lia|done].
    + assert (skip = 0) as -> by lia. rewrite Z.add_0_r in Hstart. simpl. split.
      * intros [= Hd%isJumpdest_true]. split; [apply Hstart; lia|eauto].
      * intros (_ & c' & [= <-] & Hd). by rewrite Hd.
  - replace (Z.to_nat (p - len pre)) with (S (Z.to_nat (p - (len pre + 1)))) by lia.
    destruct (Z.ltb_spec 0 skip); cbn [lookup list_lookup].
    + apply IH'; [|lia| |lia].
      * intros. replace (len pre + 1 + (skip - 1)) with (len pre + skip) by lia. apply Hstart. lia.
      * intros q Hq. apply Hbetween. lia.
    + assert (skip = 0) as -> by lia. rewrite Z.add_0_r in Hstart. specialize (Hstart ltac:(lia)).
      pose proof (immediates_range c). apply IH'; [|lia| |lia].
      * intros _. by apply IS_next.
      * intros q Hq Hi. pose proof (insn_start_disjoint _ _ _ c Hi Hstart ltac:(lia) Hc). lia.
Qed.

Lemma analyseJumpdests_spec code p :
  0 <= p ->
  analyseJumpdests code !! Z.to_nat p = Some true <->
  insn_start code p /\ exists c, code !! Z.to_nat p = Some c /\ decode c = JUMPDEST.
Proof.
  intros Hp. pose proof (jumpdests_from_spec [] code 0) as Hspec. unfold analyseJumpdests.
  change (len []) with 0 in Hspec. cbn [app] in Hspec.
  rewrite <- (Hspec ltac:(lia) (fun _ => IS_zero code) ltac:(lia) p Hp). by rewrite Z.sub_0_r.
Qed.

(** ** Lemmas: arithmetic *)

Lemma toSigned_zero b : is_word b -> toSigned b = 0 <-> b = 0.
Proof. unfold is_word, toSigned, tt255, tt256. intros Hb. destruct (Z.ltb_spec b (2 ^ 255)); lia. Qed.

Lemma sgn_eqb_0 x : (Z.sgn x =? 0) = (x =? 0).
Proof. destruct (Z.eqb_spec x 0) as [->|Hx]; [done|]. apply Z.eqb_neq. lia. Qed.

Lemma quot_range x y :
  - 2 ^ 255 <= x < 2 ^ 255 -> y <> 0 -> ~ (x = - 2 ^ 255 /\ y = -1) -> - 2 ^ 255 <= Z.quot x y < 2 ^ 255.
Proof.
  intros Hx Hy Hm. assert (Z.abs (Z.quot x y) <= Z.abs x) as Ha.
  { rewrite <- Z.quot_abs by done. apply Z.quot_le_upper_bound; [lia|nia]. }
  assert (Z.abs x = Z.abs (Z.quot x y) -> Z.abs y = 1 \/ x = 0) as Hq.
  { intros E. rewrite <- Z.quot_abs in E by done. destruct (decide (Z.abs y = 1)); [by left|]. right.
    destruct (decide (x = 0)); [done|]. pose proof (Z.quot_lt (Z.abs x) (Z.abs y)). lia. }
  split; [lia|]. destruct (Z.eq_dec (Z.quot x y) (2 ^ 255)) as [E|]; [|lia]. exfalso.
  assert (Z.abs x = Z.abs (Z.quot x y)) as E' by lia. specialize (Hq E').
  destruct Hq as [Hy1|]; [|lia]. assert (y = 1 \/ y = -1) as [->| ->] by lia.
  - rewrite Z.quot_1_r in E. lia.
  - lia.
Qed.

Lemma SDIV_spec a b :
  is_word a -> is_word b ->
  toSigned (wrap (binop_word SDIV a b)) =
    if toSigned b =? 0 then 0
    else if (toSigned a =? - 2 ^ 255) && (toSigned b =? -1) then - 2 ^ 255
    else Z.quot (toSigned a) (toSigned b).
Proof.
  intros Ha Hb. cbn [binop_word]. rewrite sgn_eqb_0. destruct (Z.eqb_spec (toSigned b) 0); [done|].
  rewrite (wrap_small (toUnsigned _)) by apply toUnsigned_word.
  pose proof (toSigned_range a Ha). pose proof (toSigned_range b Hb).
  destruct (Z.eqb_spec (toSigned a) (- 2 ^ 255)) as [Ea|], (Z.eqb_spec (toSigned b) (-1)) as [Eb|]; cbn [andb].
  1: { rewrite Ea, Eb. reflexivity. }
  all: apply toSigned_toUnsigned, quot_range; lia.
Qed.

Lemma SMOD_spec a b :
  is_word a -> is_word b ->
  toSigned (wrap (binop_word SMOD a b)) = if toSigned b =? 0 then 0 else Z.rem (toSigned a) (toSigned b).
Proof.
  intros Ha Hb. cbn [binop_word]. rewrite sgn_eqb_0. destruct (Z.eqb_spec (toSigned b) 0) as [|Hne]; [done|].
  rewrite (wrap_small (toUnsigned _)) by apply toUnsigned_word.
  pose proof (toSigned_range a Ha). pose proof (toSigned_range b Hb).
  apply toSigned_toUnsigned. pose proof (Z.rem_bound_abs (toSigned a) (toSigned b) Hne). lia.
Qed.

Lemma SAR_spec a b :
  is_word a -> is_word b ->
  toSigned (wrap (binop_word SAR a b)) = toSigned b / 2 ^ Z.min a 256.
Proof.
  intros Ha Hb. cbn [binop_word]. pose proof (toSigned_range b Hb) as Rb. unfold is_word, tt256 in Ha.
  destruct (Z.leb_spec 256 a).
  - rewrite Z.min_r by lia. destruct (Z.ltb_spec (Z.sgn (toSigned b)) 0).
    + rewrite (wrap_small tt256m1) by (unfold is_word, tt256, tt256m1; lia).
      change (toSigned tt256m1) with (-1). apply Z.div_unique_pos with (r := toSigned b + 2 ^ 256); lia.
    + change (toSigned (wrap 0)) with 0. rewrite Z.div_small; lia.
  - rewrite Z.min_l, Uint64_small by lia. rewrite wrap_small by apply toUnsigned_word.
    rewrite Z.shiftr_div_pow2 by lia. apply toSigned_toUnsigned.
    assert (1 <= 2 ^ a) by (apply (Z.pow_le_mono_r 2 0 a); lia).
    split; [apply Z.div_le_lower_bound; nia|apply Z.div_lt_upper_bound; nia].
Qed.

Lemma unsigned_spec a b :
  is_word a -> is_word b ->
  wrap (binop_word ADD a b) = (a + b) mod tt256 /\
  wrap (binop_word SUB a b) = (a - b) mod tt256 /\
  wrap (binop_word MUL a b) = (a * b) mod tt256 /\
  wrap (binop_word DIV a b) = (if b =? 0 then 0 else a / b) /\
  wrap (binop_word MOD a b) = (if b =? 0 then 0 else a mod b) /\
  wrap (binop_word EXP a b) = a ^ b mod tt256 /\
  wrap (binop_word SHL a b) = (if 256 <=? a then 0 else b * 2 ^ a mod tt256) /\
  wrap (binop_word SHR a b) = (if 256 <=? a then 0 else b / 2 ^ a).
Proof.
  unfold is_word. intros Ha Hb. cbn [binop_word]. rewrite !sgn_eqb_0, !wrap_mod.
  assert (0 < tt256) by done.
  split_and!; try done.
  - destruct (Z.eqb_spec b 0); [done|]. apply Z.mod_small. split; [apply Z.div_pos; lia|].
    apply Z.div_lt_upper_bound; nia.
  - destruct (Z.eqb_spec b 0); [done|]. apply Z.mod_small. pose proof (Z.mod_pos_bound a b). lia.
  - rewrite big_Exp_spec, Z.mod_mod by lia. done.
  - destruct (Z.leb_spec 256 a); [done|]. by rewrite Uint64_small, Z.shiftl_mul_pow2 by lia.
  - destruct (Z.leb_spec 256 a); [done|]. rewrite Uint64_small, Z.shiftr_div_pow2 by lia.
    apply Z.mod_small. assert (1 <= 2 ^ a) by (apply (Z.pow_le_mono_r 2 0 a); lia).
    split; [apply Z.div_pos; lia|]. apply Z.div_lt_upper_bound; nia.
Qed.
