(* ===== verification/Precompiles.v ===== *)
(** * Package [vm], the precompiled contracts

    Models src/vm/precompiles.go, modexp.go, ripemd160.go and bn256.go: the
    native contracts at addresses 1 to 8, their gas and their output.  SHA-256
    is the Standard Library's [crypto/sha256], written out after FIPS 180-4.
    The pairing curve is the third-party package clearmatics/bn256, the class
    [Bn256]: opaque points with their parsers and group operations. *)
From stdpp Require Import base numbers list.
From Stdlib Require Import ZArith Lia Strings.Byte.
From S2P Require Import Prelude Common Types VmBase.
#[local] Open Scope Z_scope.
#[local] Open Scope go_scope.
#[local] Open Scope list_scope.

(** github.com/clearmatics/bn256: [Unmarshal] fails on a point off the curve (or subgroup). *)
Class Bn256 : Type := {
  G1 : Type;
  G2 : Type;
  G1_Unmarshal : list byte -> option G1;
  G2_Unmarshal : list byte -> option G2;
  G1_Add : G1 -> G1 -> G1;
  G1_ScalarMult : G1 -> Z -> G1;
  G1_Marshal : G1 -> array 64;
  PairingCheck : list G1 -> list G2 -> bool;
}.

(** ** 32-bit words *)

Definition not32 (x : Z) : Z := Z.lxor x (2 ^ 32 - 1).
Definition add32 (l : list Z) : Z := foldr Z.add 0 l mod 2 ^ 32.

Definition rotl32 (x : Z) (n : Z) : Z := Z.lor (u32 (Z.shiftl x n)) (Z.shiftr x (32 - n)).

(** ** RIPEMD-160 (ripemd160.go) *)

(** Little-endian integers of [n] bytes. *)
Definition le_fixed (n : nat) (z : Z) : list byte := rev (be_fixed n z).
Definition le2z (l : list byte) : Z := be2z (rev l).

Definition ripemdF (j x y z : Z) : Z :=
  if j <? 16 then Z.lxor (Z.lxor x y) z
  else if j <? 32 then Z.lor (Z.land x y) (Z.land (not32 x) z)
  else if j <? 48 then Z.lxor (Z.lor x (not32 y)) z
  else if j <? 64 then Z.lor (Z.land x z) (Z.land y (not32 z))
  else Z.lxor x (Z.lor y (not32 z)).

Definition ripemdKL (j : Z) : Z :=
  if j <? 16 then 0x00000000 else if j <? 32 then 0x5A827999 else if j <? 48 then 0x6ED9EBA1
  else if j <? 64 then 0x8F1BBCDC else 0xA953FD4E.

Definition ripemdKR (j : Z) : Z :=
  if j <? 16 then 0x50A28BE6 else if j <? 32 then 0x5C4DD124 else if j <? 48 then 0x6D703EF3
  else if j <? 64 then 0x7A6D76E9 else 0x00000000.

Definition ripemdRL : list nat :=
  [0; 1; 2; 3; 4; 5; 6; 7; 8; 9; 10; 11; 12; 13; 14; 15;
   7; 4; 13; 1; 10; 6; 15; 3; 12; 0; 9; 5; 2; 14; 11; 8;
   3; 10; 14; 4; 9; 15; 8; 1; 2; 7; 0; 6; 13; 11; 5; 12;
   1; 9; 11; 10; 0; 8; 12; 4; 13; 3; 7; 15; 14; 5; 6; 2;
   4; 0; 5; 9; 7; 12; 2; 10; 14; 1; 3; 8; 11; 6; 15; 13]%nat.

Definition ripemdRR : list nat :=
  [5; 14; 7; 0; 9; 2; 11; 4; 13; 6; 15; 8; 1; 10; 3; 12;
   6; 11; 3; 7; 0; 13; 5; 10; 14; 15; 8; 12; 4; 9; 1; 2;
   15; 5; 1; 3; 7; 14; 6; 9; 11; 8; 12; 2; 10; 0; 4; 13;
   8; 6; 4; 1; 3; 11; 15; 0; 5; 12; 2; 13; 9; 7; 10; 14;
   12; 15; 10; 4; 1; 5; 8; 7; 6; 2; 13; 14; 0; 3; 9; 11]%nat.

Definition ripemdSL : list Z :=
  [11; 14; 15; 12; 5; 8; 7; 9; 11; 13; 14; 15; 6; 7; 9; 8;
   7; 6; 8; 13; 11; 9; 7; 15; 7; 12; 15; 9; 11; 7; 13; 12;
   11; 13; 6; 7; 14; 9; 13; 15; 14; 8; 13; 6; 5; 12; 7; 5;
   11; 12; 14; 15; 14; 15; 9; 8; 9; 14; 5; 6; 8; 6; 5; 12;
   9; 15; 5; 11; 6; 8; 13; 12; 5; 12; 13; 14; 11; 8; 5; 6].

Definition ripemdSR : list Z :=
  [8; 9; 9; 11; 13; 15; 15; 5; 7; 7; 8; 11; 14; 14; 12; 6;
   9; 13; 15; 7; 12; 8; 9; 11; 7; 7; 12; 7; 6; 15; 13; 11;
   9; 7; 15; 11; 8; 6; 6; 14; 12; 13; 5; 14; 13; 13; 7; 5;
   15; 5; 8; 11; 14; 14; 6; 14; 6; 9; 12; 9; 12; 5; 15; 8;
   8; 5; 12; 9; 12; 5; 14; 6; 8; 13; 6; 5; 15; 13; 11; 11].

(** A line's registers [a b c d e], and one step of it. *)
Definition regs : Type := Z * Z * Z * Z * Z.

Definition ripemd_line (f k x s : Z) (r : regs) : regs :=
  let '(a, b, c, d, e) := r in
  let t := add32 [rotl32 (add32 [a; f; x; k]) s; e] in
  (e, t, b, rotl32 c 10, d).

Definition ripemd_step (x : list Z) (lr : regs * regs) (j : nat) : regs * regs :=
  let '(l, r) := lr in
  let '(_, bl, cl, dl, _) := l in
  let '(_, br, cr, dr, _) := r in
  let J := Z.of_nat j in
  (ripemd_line (ripemdF J bl cl dl) (ripemdKL J) (nth (nth j ripemdRL 0%nat) x 0) (nth j ripemdSL 0) l,
   ripemd_line (ripemdF (79 - J) br cr dr) (ripemdKR J) (nth (nth j ripemdRR 0%nat) x 0) (nth j ripemdSR 0) r).

Definition ripemd160Block (h : regs) (x : list Z) : regs :=
  let '((al, bl, cl, dl, el), (ar, br, cr, dr, er)) := fold_left (ripemd_step x) (seq 0 80) (h, h) in
  let '(h0, h1, h2, h3, h4) := h in
  (add32 [h1; cl; dr], add32 [h2; dl; er], add32 [h3; el; ar], add32 [h4; al; br], add32 [h0; bl; cr]).

(** The zeros that bring [n] bytes to 56 modulo 64 ([for len(padded)%64 != 56]). *)
Definition pad56 (n : Z) : Z := (56 - n) mod 64.

(** Cut into chunks of [n] bytes. *)
Fixpoint chunks (fuel : nat) (n : nat) (l : list byte) : list (list byte) :=
  match fuel, l with
  | S f, _ :: _ => take n l :: chunks f n (drop n l)
  | _, _ => []
  end.

Definition ripemd160 (msg : list byte) : list byte :=
  let bitLen := u64 (u64 (len msg) * 8) in
  let p := msg ++ [x80] in
  let padded := p ++ zeros (pad56 (len p)) ++ le_fixed 8 bitLen in
  let block h b := ripemd160Block h (map le2z (chunks 16 4 b)) in
  let '(h0, h1, h2, h3, h4) :=
    fold_left block (chunks (length padded) 64 padded)
      (0x67452301, 0xEFCDAB89, 0x98BADCFE, 0x10325476, 0xC3D2E1F0) in
  concat (map (le_fixed 4) [h0; h1; h2; h3; h4]).

(** ** SHA-256 (the Standard Library's [crypto/sha256]) *)

Definition rotr32 (x n : Z) : Z := rotl32 x (32 - n).

(** FIPS 180-4: the round constants are the first 32 bits of the fractional parts of the cube roots
    of the first 64 primes, the initial state those of the square roots of the first 8. *)
Definition sha256_primes : list Z :=
  [2; 3; 5; 7; 11; 13; 17; 19; 23; 29; 31; 37; 41; 43; 47; 53; 59; 61; 67; 71; 73; 79; 83; 89; 97; 101;
   103; 107; 109; 113; 127; 131; 137; 139; 149; 151; 157; 163; 167; 173; 179; 181; 191; 193; 197; 199;
   211; 223; 227; 229; 233; 239; 241; 251; 257; 263; 269; 271; 277; 281; 283; 293; 307; 311].

(** The integer cube root of [n], from bit [k - 1] down. *)
Fixpoint icbrt (k : nat) (n r : Z) : Z :=
  match k with
  | O => r
  | S k' => let c := r + 2 ^ Z.of_nat k' in icbrt k' n (if c * c * c <=? n then c else r)
  end.

Definition sha256_K : list Z := Eval cbv in map (fun p => icbrt 35 (p * 2 ^ 96) 0 mod 2 ^ 32) sha256_primes.

Definition sha256_init : list Z := Eval cbv in map (fun p => Z.sqrt (p * 2 ^ 64) mod 2 ^ 32) (take 8 sha256_primes).

(** The message schedule, newest word first. *)
Fixpoint sha256_sched (n : nat) (w : list Z) : list Z :=
  match n with
  | O => w
  | S n' =>
      let w2 := nth 1 w 0 in let w7 := nth 6 w 0 in let w15 := nth 14 w 0 in let w16 := nth 15 w 0 in
      let s0 := Z.lxor (Z.lxor (rotr32 w15 7) (rotr32 w15 18)) (Z.shiftr w15 3) in
      let s1 := Z.lxor (Z.lxor (rotr32 w2 17) (rotr32 w2 19)) (Z.shiftr w2 10) in
      sha256_sched n' (add32 [w16; s0; w7; s1] :: w)
  end.

Definition sha256_round (st : list Z) (kw : Z * Z) : list Z :=
  match st with
  | [a; b; c; d; e; f; g; h] =>
      let S1 := Z.lxor (Z.lxor (rotr32 e 6) (rotr32 e 11)) (rotr32 e 25) in
      let ch := Z.lxor (Z.land e f) (Z.land (not32 e) g) in
      let t1 := add32 [h; S1; ch; fst kw; snd kw] in
      let S0 := Z.lxor (Z.lxor (rotr32 a 2) (rotr32 a 13)) (rotr32 a 22) in
      let maj := Z.lxor (Z.lxor (Z.land a b) (Z.land a c)) (Z.land b c) in
      let t2 := add32 [S0; maj] in
      [add32 [t1; t2]; a; b; c; add32 [d; t1]; e; f; g]
  | _ => st
  end.

Definition sha256_block (h : list Z) (block : list byte) : list Z :=
  let w := rev (sha256_sched 48 (rev (map be2z (chunks 16 4 block)))) in
  zip_with (fun x y => add32 [x; y]) h (fold_left sha256_round (combine sha256_K w) h).

Definition sha256_Sum256 (msg : list byte) : list byte :=
  let p := msg ++ [x80] in
  let padded := p ++ zeros (pad56 (len p)) ++ be_fixed 8 (u64 (len msg * 8)) in
  concat (map (be_fixed 4)
    (fold_left sha256_block (chunks (length padded) 64 padded) sha256_init)).

(** ** Modular exponentiation (modexp.go) *)

Definition modexpQuadDivisor : Z := 20.

Definition modexpHeader (input : list byte) : res (Z * Z * Z) :=
  let? b := or_panic (getData input 0 32) in
  let? e := or_panic (getData input 32 32) in
  let? m := or_panic (getData input 64 32) in
  Ok (be2z b, be2z e, be2z m).

Definition adjustedFromHead (head base : Z) : Z :=
  if Z.sgn head =? 0 then base else base + (BitLen head - 1).

Definition multComplexity (x : Z) : Z :=
  let x2 := x * x in
  if x <=? 64 then x2
  else if x <=? 1024 then x2 / 4 + x * 96 - 3072
  else x2 / 16 + x * 480 - 199680.

Definition modexpGas (input : list byte) : res Z :=
  let? (baseLen, expLen, modLen) := modexpHeader input in
  let expOff := 96 + baseLen in
  let? adjExpLen :=
    (if expLen <=? 32 then
       let? expHead := or_panic (getData input expOff (Uint64 expLen)) in
       Ok (adjustedFromHead (be2z expHead) 0)
     else
       let? expHead := or_panic (getData input expOff 32) in
       let tail := expLen - 32 in
       Ok (adjustedFromHead (be2z expHead) (tail * 8))) in
  let adjExpLen := if Z.sgn adjExpLen <? 1 then 1 else adjExpLen in
  let maxLen := if baseLen <? modLen then modLen else baseLen in
  let cost := multComplexity maxLen * adjExpLen / modexpQuadDivisor in
  if negb (IsUint64 cost) then Ok (2 ^ 64 - 1) else Ok (Uint64 cost).

(** [res.FillBytes(out)] fits: the result is below the modulus, which has [modLen] bytes. *)
Definition modexpRun (input : list byte) : res (list byte) :=
  let? (baseLenB, expLenB, modLenB) := modexpHeader input in
  let baseLen := Uint64 baseLenB in
  let expLen := Uint64 expLenB in
  let modLen := Uint64 modLenB in
  if modLen =? 0 then Ok []
  else
    let baseOff := 96 in
    let expOff := baseOff + baseLenB in
    let modOff := expOff + expLenB in
    let? base := or_panic (getData input baseOff baseLen) in
    let? exp := or_panic (getData input expOff expLen) in
    let? mod_ := or_panic (getData input modOff modLen) in
    if Z.sgn (be2z mod_) =? 0 then Ok (zeros modLen)
    else Ok (be_fixed (Z.to_nat modLen) (big_Exp (be2z base) (be2z exp) (be2z mod_))).

(** ** ECRECOVER, SHA256, RIPEMD160, IDENTITY (precompiles.go) *)

Definition linearWordGas (base perWord : Z) (input : list byte) : Z :=
  u64 (base + u64 (perWord * toWordSize (u64 (len input)))).

(** [make([]byte, 32); copy(out[12:], d)] for twenty bytes [d]. *)
Definition leftPad32 (d : list byte) : list byte := zeros 12 ++ d.

Definition ecrecoverRun `{Crypto} (input : list byte) : res (list byte) :=
  let inp := copy_to 128 input in
  if negb (forallb (fun c => b2z c =? 0) (take 31 (drop 32 inp))) then Ok []
  else
    let? v := or_panic (inp !! 63%nat) in
    if negb (b2z v =? 27) && negb (b2z v =? 28) then Ok []
    else
      let digest := array_of HashLength (take 32 inp) in
      let sig := v :: take 32 (drop 64 inp) ++ take 32 (drop 96 inp) in
      match RecoverAddress digest sig with
      | Ok addr => Ok (leftPad32 (abytes addr))
      | Err _ => Ok []
      | Panic => Panic
      end.

(** ** The pairing curve (bn256.go) *)

Definition bn256AddGas : Z := 150.
Definition bn256ScalarMulGas : Z := 6000.
Definition bn256PairingBase : Z := 45000.
Definition bn256PairingPer : Z := 34000.
Definition bn256PairSize : Z := 192.

Section Bn256.
Context `{Bn256}.

Definition newG1 (blob : list byte) : res G1 :=
  match G1_Unmarshal blob with Some p => Ok p | None => Err ErrBn256Point end.

Definition newG2 (blob : list byte) : res G2 :=
  match G2_Unmarshal blob with Some p => Ok p | None => Err ErrBn256Point end.

Definition bn256AddRun (input : list byte) : res (list byte) :=
  let? b1 := or_panic (getData input 0 64) in
  let? x := newG1 b1 in
  let? b2 := or_panic (getData input 64 64) in
  let? y := newG1 b2 in
  Ok (abytes (G1_Marshal (G1_Add x y))).

Definition bn256ScalarMulRun (input : list byte) : res (list byte) :=
  let? b1 := or_panic (getData input 0 64) in
  let? p := newG1 b1 in
  let? b2 := or_panic (getData input 64 32) in
  Ok (abytes (G1_Marshal (G1_ScalarMult p (be2z b2)))).

(** The loop that parses the (G1, G2) pairs, [input] being cut into 192-byte terms. *)
Fixpoint pairing_terms (terms : list (list byte)) (cs : list G1) (ts : list G2) : res (list G1 * list G2) :=
  match terms with
  | [] => Ok (cs, ts)
  | b :: rest =>
      let? c := newG1 (take 64 b) in
      let? t := newG2 (drop 64 b) in
      pairing_terms rest (cs ++ [c]) (ts ++ [t])
  end.

Definition bn256PairingRun (input : list byte) : res (list byte) :=
  if negb (len input mod bn256PairSize =? 0) then Err ErrBadPairingInput
  else
    let? (cs, ts) := pairing_terms (chunks (length input) 192 input) [] [] in
    Ok (zeros 31 ++ [if PairingCheck cs ts then x01 else x00]).

Definition bn256PairingGas (input : list byte) : Z :=
  u64 (bn256PairingBase + u64 (len input / bn256PairSize * bn256PairingPer)).

End Bn256.

(** ** Dispatch (precompiles.go) *)

Inductive precompile : Type :=
  | ecrecoverPrecompile | sha256Precompile | ripemd160Precompile | identityPrecompile
  | modexpPrecompile | bn256AddPrecompile | bn256ScalarMulPrecompile | bn256PairingPrecompile.

Definition precompileFor (addr : Address) : option precompile :=
  if negb (forallb (fun c => b2z c =? 0) (take 19 (abytes addr))) then None
  else match abytes addr !! 19%nat with
  | Some x01 => Some ecrecoverPrecompile
  | Some x02 => Some sha256Precompile
  | Some x03 => Some ripemd160Precompile
  | Some x04 => Some identityPrecompile
  | Some x05 => Some modexpPrecompile
  | Some x06 => Some bn256AddPrecompile
  | Some x07 => Some bn256ScalarMulPrecompile
  | Some x08 => Some bn256PairingPrecompile
  | _ => None
  end.

Definition precompile_gas (p : precompile) (input : list byte) : res Z :=
  match p with
  | ecrecoverPrecompile => Ok 3000
  | sha256Precompile => Ok (linearWordGas 60 12 input)
  | ripemd160Precompile => Ok (linearWordGas 600 120 input)
  | identityPrecompile => Ok (linearWordGas 15 3 input)
  | modexpPrecompile => modexpGas input
  | bn256AddPrecompile => Ok bn256AddGas
  | bn256ScalarMulPrecompile => Ok bn256ScalarMulGas
  | bn256PairingPrecompile => Ok (bn256PairingGas input)
  end.

Definition precompile_run `{Crypto} `{Bn256} (p : precompile) (input : list byte) : res (list byte) :=
  match p with
  | ecrecoverPrecompile => ecrecoverRun input
  | sha256Precompile => Ok (sha256_Sum256 input)
  | ripemd160Precompile => Ok (leftPad32 (ripemd160 input))
  | identityPrecompile => Ok input
  | modexpPrecompile => modexpRun input
  | bn256AddPrecompile => bn256AddRun input
  | bn256ScalarMulPrecompile => bn256ScalarMulRun input
  | bn256PairingPrecompile => bn256PairingRun input
  end.

(** The outcome of running code (interpreter.go): a nil [Err] is [None]. *)
Record Result : Type := mkResult { Ret : list byte; GasLeft : Z; r_Err : option error }.

Definition runPrecompile `{Crypto} `{Bn256} (p : precompile) (input : list byte) (gas : Z) : res Result :=
  let? cost := precompile_gas p input in
  if gas <? cost then Ok (mkResult [] 0 (Some ErrOutOfGas))
  else match precompile_run p input with
       | Ok ret => Ok (mkResult ret (gas - cost) None)
       | Err e => Ok (mkResult [] 0 (Some e))
       | Panic => Panic
       end.

(** ** Lemmas: hash outputs have a fixed length *)

Lemma len_concat_map {X} (f : X -> list byte) (l : list X) k :
  (forall x, len (f x) = k) -> len (concat (map f l)) = k * len l.
Proof.
  intros Hf. induction l as [|x l IH]; cbn [map concat]; [unfold len; simpl; lia|].
  rewrite len_app, IH, Hf, len_cons. lia.
Qed.

Lemma len_ripemd160 msg : len (ripemd160 msg) = 20.
Proof.
  unfold ripemd160. destruct (fold_left _ _ _) as [[[[h0 h1] h2] h3] h4].
  rewrite (len_concat_map _ _ 4); [reflexivity|]. intros x. unfold le_fixed, len. by rewrite length_rev, length_be_fixed.
Qed.

Lemma sha256_round_length st kw : length (sha256_round st kw) = length st.
Proof. unfold sha256_round. repeat case_match; by subst. Qed.

Lemma sha256_rounds_length l st : length (fold_left sha256_round l st) = length st.
Proof. revert st. induction l as [|x l IH]; intros st; [done|]. cbn [fold_left]. by rewrite IH, sha256_round_length. Qed.

Lemma sha256_block_length h b : length (sha256_block h b) = length h.
Proof. unfold sha256_block. rewrite length_zip_with, sha256_rounds_length. lia. Qed.

Lemma len_sha256 msg : len (sha256_Sum256 msg) = 32.
Proof.
  unfold sha256_Sum256. rewrite (len_concat_map _ _ 4); [|intros x; apply len_be_fixed].
  enough (forall l h, length h = 8%nat -> length (fold_left sha256_block l h) = 8%nat) as E.
  { unfold len. rewrite E by done. done. }
  induction l as [|x l IH]; intros h Hh; [done|]. cbn [fold_left]. apply IH. by rewrite sha256_block_length.
Qed.

(** ** Lemmas: modular exponentiation *)

Lemma multComplexity_pos x : 1 <= x -> 1 <= multComplexity x.
Proof.
  intros Hx. unfold multComplexity. destruct (Z.leb_spec x 64); [nia|].
  destruct (Z.leb_spec x 1024).
  - assert (0 <= x * x / 4) by (apply Z.div_pos; nia). lia.
  - assert (0 <= x * x / 16) by (apply Z.div_pos; nia). lia.
Qed.

Lemma multComplexity_large x : 2 ^ 40 <= x -> 2 ^ 70 <= multComplexity x.
Proof.
  intros Hx. unfold multComplexity. destruct (Z.leb_spec x 64); [lia|]. destruct (Z.leb_spec x 1024); [lia|].
  assert (2 ^ 76 <= x * x / 16) by (apply Z.div_le_lower_bound; nia). lia.
Qed.

Lemma modexpHeader_ok input :
  len input < 2 ^ 62 ->
  exists b e m, modexpHeader input = Ok (b, e, m) /\ 0 <= b < 2 ^ 256 /\ 0 <= e < 2 ^ 256 /\ 0 <= m < 2 ^ 256.
Proof.
  intros Hi. unfold modexpHeader.
  assert (forall d, len d = 32 -> 0 <= be2z d < 2 ^ 256) as R.
  { intros d Hd. pose proof (be2z_range d) as R. rewrite Hd in R. exact R. }
  destruct (getData_ok input 0 32) as (b & -> & ?); [lia|done|].
  destruct (getData_ok input 32 32) as (e & -> & ?); [lia|done|].
  destruct (getData_ok input 64 32) as (m & -> & ?); [lia|done|]. cbn [or_panic res_bind].
  exists (be2z b), (be2z e), (be2z m). auto.
Qed.

(** The price bounds the declared lengths: whatever can be paid for with [gas] can be read. *)
Lemma modexpGas_bounds input b e m cost gas :
  len input < 2 ^ 62 -> modexpHeader input = Ok (b, e, m) -> 0 <= b -> 0 <= e -> 0 <= m ->
  modexpGas input = Ok cost -> cost <= gas -> gas <= 2 ^ 60 -> 1 <= m ->
  b < 2 ^ 40 /\ m < 2 ^ 40 /\ e < 2 ^ 62.
Proof.
  intros Hi Hh Hb He Hm Hg Hc Hgas Hm1. unfold modexpGas in Hg. rewrite Hh in Hg. cbn [res_bind] in Hg.
  match type of Hg with res_bind ?c _ = _ => destruct c as [adj| |] eqn:Eadj; try done end. cbn [res_bind] in Hg.
  set (maxLen := if b <? m then m else b) in *.
  assert (b <= maxLen /\ m <= maxLen) as [Hb' Hm'] by (unfold maxLen; destruct (Z.ltb_spec b m); lia).
  set (adj' := if Z.sgn adj <? 1 then 1 else adj) in *.
  assert (1 <= adj' /\ adj <= adj') as [Ha1 Ha2].
  { unfold adj'. destruct (Z.ltb_spec (Z.sgn adj) 1); lia. }
  assert (1 <= multComplexity maxLen) as Hmc by (apply multComplexity_pos; lia).
  destruct (IsUint64 _) eqn:Eu; cbn [negb] in Hg; [|injection Hg as <-; lia].
  apply IsUint64_true in Eu. rewrite Uint64_small in Hg by done. injection Hg as <-.
  assert (multComplexity maxLen * adj' < 20 * (2 ^ 60 + 1)) as Hprod.
  { unfold modexpQuadDivisor in *. apply Z.nle_gt. intros Hle.
    assert (2 ^ 60 + 1 <= multComplexity maxLen * adj' / 20) by (apply Z.div_le_lower_bound; lia). lia. }
  assert (maxLen < 2 ^ 40).
  { apply Z.nle_gt. intros Hle. pose proof (multComplexity_large maxLen Hle). nia. }
  split; [lia|]. split; [lia|].
  destruct (Z.leb_spec e 32); [lia|].
  destruct (getData input (96 + b) 32) as [hd|]; [|done]. cbn [or_panic res_bind] in Eadj.
  injection Eadj as Eadj. assert ((e - 32) * 8 <= adj).
  { rewrite <- Eadj. unfold adjustedFromHead. rewrite sgn_eqb_0. destruct (Z.eqb_spec (be2z hd) 0); [lia|].
    unfold BitLen. destruct (Z.eqb_spec (be2z hd) 0); [lia|]. pose proof (Z.log2_nonneg (Z.abs (be2z hd))). lia. }
  assert (adj' < 20 * (2 ^ 60 + 1)) by nia. lia.
Qed.

Lemma modexpGas_ok input : len input < 2 ^ 62 -> exists cost, modexpGas input = Ok cost /\ 0 <= cost.
Proof.
  intros Hi. unfold modexpGas. destruct (modexpHeader_ok input Hi) as (b & e & m & -> & _ & He & _).
  cbn [res_bind].
  match goal with |- context [res_bind ?c _] => assert (exists adj, c = Ok adj) as [adj ->] end.
  { destruct (Z.leb_spec e 32).
    - destruct (getData_ok input (96 + b) (Uint64 e)) as (d & -> & _); [rewrite Uint64_small; lia|done|]. by eexists.
    - destruct (getData_ok input (96 + b) 32) as (d & -> & _); [lia|done|]. by eexists. }
  cbn [res_bind]. case_match; eexists; (split; [reflexivity|]); [lia|apply Uint64_range].
Qed.

Lemma modexpRun_ok input cost gas :
  len input < 2 ^ 62 -> modexpGas input = Ok cost -> cost <= gas -> gas <= 2 ^ 60 ->
  exists ret, modexpRun input = Ok ret /\ len ret < 2 ^ 62.
Proof.
  intros Hi Hg Hc Hgas. destruct (modexpHeader_ok input Hi) as (b & e & m & Hh & Hb & He & Hm).
  unfold modexpRun. rewrite Hh. cbn [res_bind]. destruct (Z.eqb_spec (Uint64 m) 0); [by exists []|].
  assert (1 <= m) as Hm1 by (destruct (decide (m = 0)) as [->|]; [done|lia]).
  destruct (modexpGas_bounds input b e m cost gas) as (Hb' & Hm' & He'); [lia || done..|].
  rewrite !Uint64_small by lia.
  destruct (getData_ok input 96 b) as (d1 & -> & _); [lia|done|].
  destruct (getData_ok input (96 + b) e) as (d2 & -> & _); [lia|done|].
  destruct (getData_ok input (96 + b + e) m) as (d3 & -> & _); [lia|done|]. cbn [or_panic res_bind].
  destruct (_ =? 0); eexists; (split; [reflexivity|]).
  - rewrite len_zeros; lia.
  - rewrite len_be_fixed. lia.
Qed.

(** ** Lemmas: no precompile panics *)

Section NoPanic.
Context `{Crypto} `{Bn256}.

Lemma RecoverAddress_no_panic digest sig : RecoverAddress digest sig <> Panic.
Proof.
  unfold RecoverAddress, Recover, checkLowS, SignatureLength.
  destruct (Z.eqb_spec (len sig) 65) as [E|]; [|done].
  cbn [negb]. rewrite slice_some by lia. cbn [or_panic res_bind].
  by destruct (_ <? _); [|destruct (RecoverCompact _ _)].
Qed.

Lemma ecrecoverRun_ok input : exists ret, ecrecoverRun input = Ok ret /\ len ret <= 32.
Proof.
  unfold ecrecoverRun. destruct (forallb _ _); [|by exists []]. cbn [negb].
  assert (exists v, copy_to 128 input !! 63%nat = Some v) as [v ->].
  { apply lookup_lt_is_Some. pose proof (copy_to_length 128 input) as E%Nat.eqb_eq. lia. }
  cbn [or_panic res_bind]. destruct (_ && _); [by exists []|].
  match goal with |- context [RecoverAddress ?d ?s] =>
    pose proof (RecoverAddress_no_panic d s); destruct (RecoverAddress d s) as [a| |] end; [|by exists []|done].
  eexists. split; [reflexivity|]. unfold leftPad32. rewrite len_app, len_abytes, len_zeros; done.
Qed.

Lemma pairing_terms_no_panic terms cs ts : pairing_terms terms cs ts <> Panic.
Proof.
  revert cs ts. induction terms as [|b terms IH]; intros cs ts; [done|]. cbn [pairing_terms]. unfold newG1, newG2.
  destruct (G1_Unmarshal _); [|done]. cbn [res_bind]. destruct (G2_Unmarshal _); [apply IH|done].
Qed.

Lemma runPrecompile_ok p input gas :
  len input < 2 ^ 62 -> 0 <= gas <= 2 ^ 60 ->
  exists r, runPrecompile p input gas = Ok r /\ 0 <= GasLeft r <= gas /\ len (Ret r) < 2 ^ 64.
Proof.
  intros Hi Hg. unfold runPrecompile.
  assert (exists cost, precompile_gas p input = Ok cost /\ 0 <= cost) as (cost & Ecost & Hcost).
  { destruct p; cbn [precompile_gas]; unfold linearWordGas, bn256PairingGas; [..|by apply modexpGas_ok| | |].
    all: eexists; split; [reflexivity|]; first [done | apply u64_range]. }
  rewrite Ecost. cbn [res_bind]. destruct (Z.ltb_spec gas cost); [eexists; split; [reflexivity|]; cbn [Ret GasLeft]; split; [lia|done]|].
  assert ((exists ret, precompile_run p input = Ok ret /\ len ret < 2 ^ 64)
    \/ exists e, precompile_run p input = Err e) as [(ret & -> & Hret)|(e & ->)].
  2: { eexists. split; [reflexivity|]. cbn [Ret GasLeft]. lia. }
  2: { eexists. split; [reflexivity|]. cbn [Ret GasLeft]. split; [lia|done]. }
  destruct p; cbn [precompile_run precompile_gas] in *.
  - left. destruct (ecrecoverRun_ok input) as (r & -> & ?). eexists. split; [reflexivity|lia].
  - left. eexists. split; [reflexivity|]. rewrite len_sha256. lia.
  - left. eexists. split; [reflexivity|]. unfold leftPad32. rewrite len_app, len_ripemd160, len_zeros; lia.
  - left. eexists. split; [reflexivity|lia].
  - left. destruct (modexpRun_ok input cost gas) as (r & -> & ?); [done..|lia|]. eexists. split; [reflexivity|lia].
  - unfold bn256AddRun, newG1. destruct (getData_ok input 0 64) as (d1 & -> & _); [lia|done|].
    destruct (getData_ok input 64 64) as (d2 & -> & _); [lia|done|]. cbn [or_panic res_bind].
    destruct (G1_Unmarshal d1); [|by right; eexists]. cbn [res_bind].
    destruct (G1_Unmarshal d2); [|by right; eexists]. cbn [res_bind].
    left. eexists. split; [reflexivity|]. by rewrite len_abytes.
  - unfold bn256ScalarMulRun, newG1. destruct (getData_ok input 0 64) as (d1 & -> & _); [lia|done|].
    destruct (getData_ok input 64 32) as (d2 & -> & _); [lia|done|]. cbn [or_panic res_bind].
    destruct (G1_Unmarshal d1); [|by right; eexists]. cbn [res_bind].
    left. eexists. split; [reflexivity|]. by rewrite len_abytes.
  - unfold bn256PairingRun. destruct (_ =? 0); [|by right; eexists]. cbn [negb].
    match goal with |- context [pairing_terms ?t ?c ?d] =>
      pose proof (pairing_terms_no_panic t c d); destruct (pairing_terms t c d) as [[cs ts]| |] end;
      [|by right; eexists|done].
    cbn [res_bind]. left. eexists. split; [reflexivity|]. rewrite len_app, len_zeros; done.
Qed.

End NoPanic.
