(* ===== verification/Vm.v ===== *)
(** * Package [vm], the interpreter: frames, opcodes, calls and creations

    Models src/vm/interpreter.go, exec.go, call.go and statedb.go.  The Go
    struct [interp] is split into the part a frame never changes ([Frame]) and
    the part it mutates ([interp]), the world behind [ctx.State] included: the
    interface vm.StateDB is the class [StateDB], and a nil interface is a
    [None] world.  A Go function that mutates the frame and may return an error
    is a computation of the monad [M]: it ends with a value, with an error (and
    the data a REVERT returns), with a run-time panic ([Crash]), or without
    fuel ([Diverge]).  [run] passes to each step the execution of sub-calls with
    one unit of fuel less; VmProofs.v shows that [gas + 1] units are enough,
    that [Crash] and [Diverge] do not happen, and what a run does to the world. *)
From stdpp Require Import base numbers list.
From Stdlib Require Import ZArith Lia Strings.Byte.
From S2P Require Import Prelude Common Rlp Types VmBase Precompiles.
#[local] Open Scope Z_scope.
#[local] Open Scope go_scope.
#[local] Open Scope list_scope.

(** ** The state behind the interpreter (statedb.go) *)

Class StateDB (S : Type) : Type := {
  GetStorage : S -> Address -> Hash -> Hash;
  SetStorage : S -> Address -> Hash -> Hash -> S;
  GetCode : S -> Address -> list byte;
  SetCode : S -> Address -> list byte -> S;
  GetNonce : S -> Address -> Z;
  SetNonce : S -> Address -> Z -> S;
  GetBalance : S -> Address -> Z;
  AddBalance : S -> Address -> Z -> S;
  SubBalance : S -> Address -> Z -> S;
  Snapshot : S -> Z * S;
  RevertToSnapshot : S -> Z -> S;
  AddLog : S -> Log -> S;
}.

Definition MaxCallDepth : Z := 1024.
Definition MaxCodeSize : Z := 24576.

(** [Context], its [State] apart (see [interp]). *)
Record Context : Type := mkContext {
  c_Address : Address;
  c_Caller : Address;
  c_Value : option Z;
  c_BlockGasLimit : Z;
  c_Origin : Address;
  c_GasPrice : option Z;
  c_Coinbase : Address;
  c_BlockNumber : Z;
  c_Time : Z;
  c_Difficulty : option Z;
  c_ChainID : Z;
  c_BaseFee : option Z;
  c_Static : bool;
}.

(** The immutable fields of the Go struct [interp]. *)
Record Frame : Type := mkFrame {
  f_code : list byte;
  f_input : list byte;
  f_jumps : list bool;
  f_ctx : Context;
  f_depth : Z;
}.

(** The mutable ones, with the world behind [ctx.State]. *)
Record interp (S : Type) : Type := mkInterp {
  stack : list Z;
  mem : list byte;
  pc : Z;
  gas : Z;
  jumped : bool;
  returnData : list byte;
  world : option S;
}.
Arguments mkInterp {_} _ _ _ _ _ _ _.
Arguments stack {_} _.
Arguments mem {_} _.
Arguments pc {_} _.
Arguments gas {_} _.
Arguments jumped {_} _.
Arguments returnData {_} _.
Arguments world {_} _.

Section Setters.
Context {S : Type}.
Definition with_stack (v : list Z) (m : interp S) : interp S :=
  mkInterp v (mem m) (pc m) (gas m) (jumped m) (returnData m) (world m).
Definition with_mem (v : list byte) (m : interp S) : interp S :=
  mkInterp (stack m) v (pc m) (gas m) (jumped m) (returnData m) (world m).
Definition with_pc (v : Z) (m : interp S) : interp S :=
  mkInterp (stack m) (mem m) v (gas m) (jumped m) (returnData m) (world m).
Definition with_gas (v : Z) (m : interp S) : interp S :=
  mkInterp (stack m) (mem m) (pc m) v (jumped m) (returnData m) (world m).
Definition with_jumped (v : bool) (m : interp S) : interp S :=
  mkInterp (stack m) (mem m) (pc m) (gas m) v (returnData m) (world m).
Definition with_returnData (v : list byte) (m : interp S) : interp S :=
  mkInterp (stack m) (mem m) (pc m) (gas m) (jumped m) v (world m).
Definition with_world (v : option S) (m : interp S) : interp S :=
  mkInterp (stack m) (mem m) (pc m) (gas m) (jumped m) (returnData m) v.
End Setters.

(** ** The monad of frame computations *)

Inductive outcome (S A : Type) : Type :=
  | Done (a : A) (m : interp S)
  | Fail (e : error) (ret : list byte) (m : interp S)
  | Crash
  | Diverge.
Arguments Done {_ _} _ _.
Arguments Fail {_ _} _ _ _.
Arguments Crash {_ _}.
Arguments Diverge {_ _}.

Definition M (S A : Type) : Type := interp S -> outcome S A.

Definition M_bind {S A B} (c : M S A) (k : A -> M S B) : M S B :=
  fun m => match c m with
           | Done a m' => k a m'
           | Fail e ret m' => Fail e ret m'
           | Crash => Crash
           | Diverge => Diverge
           end.

Declare Scope vm_scope.
Delimit Scope vm_scope with vm.
Notation "'let!' x := c 'in' k" := (M_bind c (fun x => k))
  (at level 10, x pattern, c at level 100, k at level 200) : vm_scope.
Notation "c ;; k" := (M_bind c (fun _ => k)) (at level 100, k at level 200, right associativity) : vm_scope.
#[local] Open Scope vm_scope.

(** The result of executing a frame, with the world it leaves. *)
Inductive exres (S : Type) : Type :=
  | Ran (r : Result) (w : option S)
  | Crashed
  | NoFuel.
Arguments Ran {_} _ _.
Arguments Crashed {_}.
Arguments NoFuel {_}.

(** ** Contract addresses and the call modes (call.go) *)

Definition createAddress `{Crypto} (creator : Address) (nonce : Z) : Address :=
  let h := Keccak256 [List [Bytes (abytes creator); Uint nonce]] in
  array_of AddressLength (drop 12 (abytes h)).

Definition create2Address `{Crypto} (creator : Address) (salt : Hash) (initCode : list byte) : Address :=
  let inner := Keccak256 [initCode] in
  let h := Keccak256 [[xff]; abytes creator; abytes salt; abytes inner] in
  array_of AddressLength (drop 12 (abytes h)).

Inductive callMode : Type := callRegular | callDelegate | callStatic.

Definition isRegular (mode : callMode) : bool := match mode with callRegular => true | _ => false end.
Definition isStaticCall (mode : callMode) : bool := match mode with callStatic => true | _ => false end.

Section Interpreter.
Context {S : Type} `{StateDB S} `{Crypto} `{Bn256}.

(** A sub-execution: [execute] on code, input, gas, context, depth and the shared world. *)
Definition Exec : Type := list byte -> list byte -> Z -> Context -> Z -> option S -> exres S.

(** ** Primitive computations *)

Definition mret {A} (a : A) : M S A := fun m => Done a m.
Definition fail {A} (e : error) : M S A := fun m => Fail e [] m.
Definition gets {A} (f : interp S -> A) : M S A := fun m => Done (f m) m.
Definition modify (f : interp S -> interp S) : M S unit := fun m => Done tt (f m).
Definition lift {A} (r : res A) : M S A :=
  fun m => match r with Ok a => Done a m | Err e => Fail e [] m | Panic => Crash end.

Definition pop : M S Z :=
  let! st := gets stack in
  let! (v, st') := lift (stack_pop st) in
  modify (with_stack st');; mret v.

Definition push (v : Z) : M S unit :=
  let! st := gets stack in
  let! st' := lift (stack_push st v) in
  modify (with_stack st').

Definition pop2 : M S (Z * Z) :=
  let! a := pop in
  let! b := pop in
  mret (a, b).

(** [useGas]: out of gas also empties the tank. *)
Definition useGas (cost : Z) : M S unit :=
  fun m => if gas m <? cost then Fail ErrOutOfGas [] (with_gas 0 m)
           else Done tt (with_gas (gas m - cost) m).

Definition chargeMem (off size : Z) : M S unit :=
  if Z.sgn size =? 0 then mret tt
  else if negb (IsUint64 off) || negb (IsUint64 size) then fail ErrOutOfGas
  else
    let! m := gets mem in
    match expansionGas m (Uint64 off) (Uint64 size) with
    | None => fail ErrOutOfGas
    | Some g =>
        useGas g;;
        modify (fun i => with_mem (resize (mem i) (u64 (Uint64 off + Uint64 size))) i)
    end.

Definition memGet (offset size : Z) : M S (list byte) :=
  let! m := gets mem in lift (or_panic (mem_get m offset size)).

Definition memSet (offset : Z) (val : list byte) : M S unit :=
  let! m := gets mem in
  let! m' := lift (or_panic (mem_set m offset val)) in
  modify (with_mem m').

Definition memSet32 (offset val : Z) : M S unit :=
  let! m := gets mem in
  let! m' := lift (or_panic (mem_set32 m offset val)) in
  modify (with_mem m').

(** The opcodes that guard against a nil state, and the calls that do not. *)
Definition requireState : M S S :=
  fun m => match world m with Some s => Done s m | None => Fail ErrNoState [] m end.
Definition theState : M S S :=
  fun m => match world m with Some s => Done s m | None => Crash end.
Definition putState (s : S) : M S unit := modify (with_world (Some s)).

(** Hand the world to a sub-execution and take it back. *)
Definition runSub (exe : Exec) (code input : list byte) (g : Z) (ctx : Context) (depth : Z) : M S Result :=
  fun m => match exe code input g ctx depth (world m) with
           | Ran r w => Done r (with_world w m)
           | Crashed => Crash
           | NoFuel => Diverge
           end.

(** ** exec.go *)

Definition doPush (fr : Frame) (n : Z) : M S unit :=
  let! p := gets pc in
  let start := u64 (p + 1) in
  let end_ := u64 (start + n) in
  let buf := padded (f_code fr) start n in
  modify (with_pc end_);;
  push (be2z buf).

Definition binop (op : OpCode) (a b : Z) : M S unit :=
  match op with
  | EXP =>
      useGas (u64 (50 * byteLen b));;
      push (wrap (binop_word op a b))
  | _ => push (wrap (binop_word op a b))
  end.

Definition jump (fr : Frame) (dest : Z) : M S unit :=
  if negb (IsUint64 dest) then fail ErrInvalidJump
  else
    let d := Uint64 dest in
    if (len (f_jumps fr) <=? d) || negb (default false (f_jumps fr !! Z.to_nat d)) then fail ErrInvalidJump
    else modify (with_pc d);; modify (with_jumped true).

Definition readMem : M S (list byte) :=
  let! off := pop in
  let! size := pop in
  chargeMem off size;;
  memGet (Uint64 off) (Uint64 size).

(** The loop that pops the topics of a LOG. *)
Fixpoint popTopics (n : nat) : M S (list Hash) :=
  match n with
  | O => mret []
  | Datatypes.S n' =>
      let! t := pop in
      let! rest := popTopics n' in
      mret (wordToHash t :: rest)
  end.

Definition opLog (fr : Frame) (n : Z) : M S unit :=
  if c_Static (f_ctx fr) then fail ErrStaticStateChange
  else
    let! off := pop in
    let! size := pop in
    let! topics := popTopics (Z.to_nat n) in
    chargeMem off size;;
    useGas (LogGas + n * LogTopicGas);;
    let sz := Uint64 size in
    useGas (u64 (LogDataGas * sz));;
    let! s := requireState in
    let! data := memGet (Uint64 off) sz in
    putState (AddLog s (mkLog (c_Address (f_ctx fr)) topics data)).

(** ADD .. SAR, ADDMOD, MULMOD, SHA3, ISZERO, NOT, POP *)
Definition exec_arith (op : OpCode) : M S unit :=
  match op with
  | ADDMOD | MULMOD =>
      let! a := pop in
      let! b := pop in
      let! n := pop in
      let z := if negb (Z.sgn n =? 0)
               then (match op with ADDMOD => a + b | _ => a * b end) mod n
               else 0 in
      push z
  | SHA3 =>
      let! off := pop in
      let! size := pop in
      chargeMem off size;;
      useGas (u64 (Keccak256WordGas * toWordSize (Uint64 size)));;
      let! data := memGet (Uint64 off) (Uint64 size) in
      push (be2z (abytes (Keccak256 [data])))
  | ISZERO =>
      let! a := pop in
      if Z.sgn a =? 0 then push 1 else push 0
  | NOT =>
      let! a := pop in
      push (wrap (Z.lxor a tt256m1))
  | POP =>
      let! _ := pop in
      mret tt
  | _ =>
      let! (a, b) := pop2 in
      binop op a b
  end.

(** MLOAD, MSTORE, MSTORE8, MCOPY *)
Definition exec_memory (op : OpCode) : M S unit :=
  match op with
  | MLOAD =>
      let! off := pop in
      chargeMem off 32;;
      let! d := memGet (Uint64 off) 32 in
      push (be2z d)
  | MSTORE =>
      let! (off, val) := pop2 in
      chargeMem off 32;;
      memSet32 (Uint64 off) val
  | MSTORE8 =>
      let! (off, val) := pop2 in
      chargeMem off 1;;
      memSet (Uint64 off) [z2b (Z.land (Uint64 val) 0xff)]
  | _ (* MCOPY *) =>
      let! destOff := pop in
      let! srcOff := pop in
      let! length := pop in
      chargeMem destOff length;;
      chargeMem srcOff length;;
      useGas (u64 (3 * toWordSize (Uint64 length)));;
      let! d := memGet (Uint64 srcOff) (Uint64 length) in
      memSet (Uint64 destOff) d
  end.

(** SLOAD, SSTORE, BALANCE, SELFBALANCE, EXTCODESIZE, EXTCODEHASH *)
Definition exec_state (fr : Frame) (op : OpCode) : M S unit :=
  let self := c_Address (f_ctx fr) in
  match op with
  | SLOAD =>
      let! key := pop in
      let! s := requireState in
      push (be2z (abytes (GetStorage s self (wordToHash key))))
  | SSTORE =>
      if c_Static (f_ctx fr) then fail ErrStaticStateChange
      else
        let! (key, val) := pop2 in
        let! s := requireState in
        let kh := wordToHash key in
        let vh := wordToHash val in
        let cur := GetStorage s self kh in
        useGas (sstoreGas cur vh);;
        putState (SetStorage s self kh vh)
  | BALANCE =>
      let! addr := pop in
      let! s := requireState in
      push (GetBalance s (wordToAddress addr))
  | SELFBALANCE =>
      let! s := requireState in
      push (GetBalance s self)
  | EXTCODESIZE =>
      let! addr := pop in
      let! s := requireState in
      push (u64 (len (GetCode s (wordToAddress addr))))
  | _ (* EXTCODEHASH *) =>
      let! addr := pop in
      let! s := requireState in
      let a := wordToAddress addr in
      let code := GetCode s a in
      if 0 <? len code then push (be2z (abytes (Keccak256 [code])))
      else if negb (Z.sgn (GetBalance s a) =? 0) || negb (GetNonce s a =? 0)
      then push (be2z (abytes (Keccak256 [[]])))
      else push 0
  end.

(** ADDRESS, CALLER, ORIGIN, GASPRICE, COINBASE, TIMESTAMP, NUMBER, DIFFICULTY, CHAINID, BASEFEE,
    BLOCKHASH, CALLVALUE, GASLIMIT, CALLDATASIZE, CODESIZE, PC, MSIZE, GAS, RETURNDATASIZE, PUSH0 *)
Definition exec_env (fr : Frame) (op : OpCode) : M S unit :=
  let ctx := f_ctx fr in
  match op with
  | ADDRESS => push (be2z (abytes (c_Address ctx)))
  | CALLER => push (be2z (abytes (c_Caller ctx)))
  | ORIGIN => push (be2z (abytes (c_Origin ctx)))
  | GASPRICE => push (bigOrZero (c_GasPrice ctx))
  | COINBASE => push (be2z (abytes (c_Coinbase ctx)))
  | TIMESTAMP => push (c_Time ctx)
  | NUMBER => push (c_BlockNumber ctx)
  | DIFFICULTY => push (bigOrZero (c_Difficulty ctx))
  | CHAINID => push (c_ChainID ctx)
  | BASEFEE => push (bigOrZero (c_BaseFee ctx))
  | BLOCKHASH =>
      let! _ := pop in
      push 0
  | CALLVALUE => push (default 0 (c_Value ctx))
  | GASLIMIT => push (c_BlockGasLimit ctx)
  | CALLDATASIZE => push (u64 (len (f_input fr)))
  | CODESIZE => push (u64 (len (f_code fr)))
  | PC => let! p := gets pc in push p
  | MSIZE => let! m := gets mem in push (u64 (len m))
  | GAS => let! g := gets gas in push g
  | RETURNDATASIZE => let! d := gets returnData in push (u64 (len d))
  | _ (* PUSH0 *) => push 0
  end.

(** RETURNDATACOPY: strict bounds, a read past the return data faults. *)
Definition opReturnDataCopy : M S unit :=
  let! memOff := pop in
  let! dataOff := pop in
  let! length := pop in
  let end_ := dataOff + length in
  let! rd := gets returnData in
  if negb (IsUint64 end_) || (u64 (len rd) <? Uint64 end_) then fail ErrReturnDataOutOfBounds
  else
    chargeMem memOff length;;
    useGas (u64 (3 * toWordSize (Uint64 length)));;
    let! d := lift (or_panic (slice (Uint64 dataOff) (Uint64 end_) rd)) in
    memSet (Uint64 memOff) d.

(** CALLDATALOAD, CALLDATACOPY, CODECOPY, EXTCODECOPY, RETURNDATACOPY *)
Definition exec_copy (fr : Frame) (op : OpCode) : M S unit :=
  match op with
  | CALLDATALOAD =>
      let! off := pop in
      let! d := lift (or_panic (getData (f_input fr) off 32)) in
      push (be2z d)
  | CALLDATACOPY | CODECOPY =>
      let! memOff := pop in
      let! dataOff := pop in
      let! length := pop in
      chargeMem memOff length;;
      useGas (u64 (3 * toWordSize (Uint64 length)));;
      let src := match op with CALLDATACOPY => f_input fr | _ => f_code fr end in
      let! d := lift (or_panic (getData src dataOff (Uint64 length))) in
      memSet (Uint64 memOff) d
  | EXTCODECOPY =>
      let! addr := pop in
      let! memOff := pop in
      let! codeOff := pop in
      let! length := pop in
      let! s := requireState in
      chargeMem memOff length;;
      useGas (u64 (3 * toWordSize (Uint64 length)));;
      let code := GetCode s (wordToAddress addr) in
      let! d := lift (or_panic (getData code codeOff (Uint64 length))) in
      memSet (Uint64 memOff) d
  | _ (* RETURNDATACOPY *) => opReturnDataCopy
  end.

(** ** call.go *)

(** The callee's context: DELEGATECALL keeps the caller's address, sender and value. *)
Definition subContext (ctx : Context) (mode : callMode) (target : Address) (value : Z) : Context :=
  let '(address, caller, v) :=
    match mode with
    | callDelegate => (c_Address ctx, c_Caller ctx, c_Value ctx)
    | callStatic => (target, c_Address ctx, Some 0)
    | callRegular => (target, c_Address ctx, Some value)
    end in
  mkContext address caller v (c_BlockGasLimit ctx) (c_Origin ctx) (c_GasPrice ctx) (c_Coinbase ctx)
    (c_BlockNumber ctx) (c_Time ctx) (c_Difficulty ctx) (c_ChainID ctx) (c_BaseFee ctx)
    (c_Static ctx || isStaticCall mode).

(** [SubBalance(from, value); AddBalance(to, value)] when there is value to move. *)
Definition moveValue (moves : bool) (from to : Address) (value : Z) : M S unit :=
  if moves then
    let! s := theState in
    putState (AddBalance (SubBalance s from value) to value)
  else mret tt.

(** Lines 150-157: a precompile address runs native code, any other its bytecode. *)
Definition callee (exe : Exec) (fr : Frame) (mode : callMode) (target : Address) (value : Z)
    (args : list byte) (give : Z) : M S Result :=
  match precompileFor target with
  | Some p => lift (runPrecompile p args give)
  | None =>
      let! s := theState in
      runSub exe (GetCode s target) args give (subContext (f_ctx fr) mode target value) (f_depth fr + 1)
  end.

(** Lines 173-181: as much of the return data as fits the window. *)
Definition copyReturn (retOff retSize : Z) (ret : list byte) : M S unit :=
  if 0 <? Z.sgn retSize then
    let n := Uint64 retSize in
    let n := if u64 (len ret) <? n then u64 (len ret) else n in
    let! d := lift (or_panic (slice 0 n ret)) in
    memSet (Uint64 retOff) d
  else mret tt.

(** Lines 142-182: hand over the gas, snapshot, move the value, run the callee, undo on failure. *)
Definition callTarget (exe : Exec) (fr : Frame) (mode : callMode) (target : Address) (value : Z)
    (args : list byte) (give retOff retSize : Z) : M S unit :=
  modify (fun i => with_gas (gas i - give) i);;
  let! s := theState in
  let (snap, s1) := Snapshot s in
  putState s1;;
  moveValue (isRegular mode && (0 <? Z.sgn value)) (c_Address (f_ctx fr)) target value;;
  let! r := callee exe fr mode target value args give in
  modify (fun i => with_gas (u64 (gas i + GasLeft r)) i);;
  modify (with_returnData (Ret r));;
  let! success :=
    match r_Err r with
    | Some _ => let! s3 := theState in putState (RevertToSnapshot s3 snap);; mret 0
    | None => mret 1
    end in
  copyReturn retOff retSize (Ret r);;
  push success.

Definition opCall (exe : Exec) (fr : Frame) (mode : callMode) : M S unit :=
  let ctx := f_ctx fr in
  let! gasWord := pop in
  let! toWord := pop in
  let! value := (if isRegular mode then pop else mret 0) in
  let! argsOff := pop in
  let! argsSize := pop in
  let! retOff := pop in
  let! retSize := pop in
  if isRegular mode && (0 <? Z.sgn value) && c_Static ctx then fail ErrStaticStateChange
  else
    let cost := if isRegular mode && (0 <? Z.sgn value) then CallBaseGas + CallValueGas else CallBaseGas in
    useGas cost;;
    chargeMem argsOff argsSize;;
    chargeMem retOff retSize;;
    let! args := memGet (Uint64 argsOff) (Uint64 argsSize) in
    let target := wordToAddress toWord in
    let! g := gets gas in
    let give := g - g / 64 in
    let reqGas := clampGas gasWord in
    let give := if reqGas <? give then reqGas else give in
    modify (with_returnData []);;
    if MaxCallDepth <=? f_depth fr then push 0
    else
      let! refused :=
        (if isRegular mode && (0 <? Z.sgn value)
         then let! s := theState in mret (GetBalance s (c_Address ctx) <? value)
         else mret false) in
      if refused : bool then push 0
      else callTarget exe fr mode target value args give retOff retSize.

(** Lines 266-305: snapshot, move the value, run the init code, store what it returns. *)
Definition createAt (exe : Exec) (fr : Frame) (newAddr : Address) (value : Z) (initCode : list byte)
    (give : Z) : M S unit :=
  let ctx := f_ctx fr in
  let creator := c_Address ctx in
  let! s := theState in
  let (snap, s1) := Snapshot s in
  putState s1;;
  moveValue (0 <? Z.sgn value) creator newAddr value;;
  let sub := mkContext newAddr creator (Some value) (c_BlockGasLimit ctx) (c_Origin ctx) (c_GasPrice ctx)
    (c_Coinbase ctx) (c_BlockNumber ctx) (c_Time ctx) (c_Difficulty ctx) (c_ChainID ctx) (c_BaseFee ctx)
    (c_Static ctx) in
  let! r := runSub exe initCode [] give sub (f_depth fr + 1) in
  modify (fun i => with_gas (u64 (gas i + GasLeft r)) i);;
  let revert := (let! s3 := theState in putState (RevertToSnapshot s3 snap)) in
  match r_Err r with
  | Some _ => revert;; modify (with_returnData (Ret r));; push 0
  | None =>
      if MaxCodeSize <? u64 (len (Ret r)) then revert;; push 0
      else
        let codeGas := u64 (CreateDataGas * u64 (len (Ret r))) in
        let! g := gets gas in
        if g <? codeGas then revert;; push 0
        else
          modify (fun i => with_gas (gas i - codeGas) i);;
          let! s4 := theState in
          putState (SetCode s4 newAddr (Ret r));;
          modify (with_returnData []);;
          push (be2z (abytes newAddr))
  end.

Definition opCreate (exe : Exec) (fr : Frame) (create2 : bool) : M S unit :=
  let ctx := f_ctx fr in
  if c_Static ctx then fail ErrStaticStateChange
  else
    let! value := pop in
    let! offset := pop in
    let! size := pop in
    let! salt := (if create2 then pop else mret 0) in
    useGas CreateGas;;
    chargeMem offset size;;
    (if create2 then useGas (u64 (Keccak256WordGas * toWordSize (Uint64 size))) else mret tt);;
    let! initCode := memGet (Uint64 offset) (Uint64 size) in
    let creator := c_Address ctx in
    modify (with_returnData []);;
    if MaxCallDepth <=? f_depth fr then push 0
    else
      let! refused :=
        (if 0 <? Z.sgn value
         then let! s := theState in mret (GetBalance s creator <? value)
         else mret false) in
      if refused : bool then push 0
      else
        let! s := theState in
        let nonce := GetNonce s creator in
        let newAddr := if create2 then create2Address creator (wordToHash salt) initCode
                       else createAddress creator nonce in
        let s1 := SetNonce s creator (u64 (nonce + 1)) in
        putState s1;;
        let! g := gets gas in
        let give := g - g / 64 in
        modify (with_gas (g - give));;
        if negb (GetNonce s1 newAddr =? 0) || (0 <? len (GetCode s1 newAddr)) then push 0
        else createAt exe fr newAddr value initCode give.

(** ** The opcode switch of [exec] *)

(** [Some ret] is done with return data [ret]; [None] continues. *)
Definition cont (c : M S unit) : M S (option (list byte)) := c;; mret None.

Definition exec (exe : Exec) (fr : Frame) (op : OpCode) : M S (option (list byte)) :=
  match op with
  | ADD | MUL | SUB | DIV | SDIV | MOD | SMOD | SIGNEXTEND | EXP
  | LT | GT | SLT | SGT | EQ | AND | OR | XOR | BYTE | SHL | SHR | SAR
  | ADDMOD | MULMOD | SHA3 | ISZERO | NOT | POP => cont (exec_arith op)
  | MLOAD | MSTORE | MSTORE8 | MCOPY => cont (exec_memory op)
  | SLOAD | SSTORE | BALANCE | SELFBALANCE | EXTCODESIZE | EXTCODEHASH => cont (exec_state fr op)
  | ADDRESS | CALLER | ORIGIN | GASPRICE | COINBASE | TIMESTAMP | NUMBER | DIFFICULTY | CHAINID
  | BASEFEE | BLOCKHASH | CALLVALUE | GASLIMIT | CALLDATASIZE | CODESIZE | PC | MSIZE | GAS
  | RETURNDATASIZE | PUSH0 => cont (exec_env fr op)
  | CALLDATALOAD | CALLDATACOPY | CODECOPY | EXTCODECOPY | RETURNDATACOPY => cont (exec_copy fr op)
  | JUMP =>
      let! dest := pop in
      cont (jump fr dest)
  | JUMPI =>
      let! (dest, cond) := pop2 in
      if negb (Z.sgn cond =? 0) then cont (jump fr dest) else mret None
  | JUMPDEST => mret None
  | LOG n => cont (opLog fr n)
  | CREATE => cont (opCreate exe fr false)
  | CREATE2 => cont (opCreate exe fr true)
  | CALL => cont (opCall exe fr callRegular)
  | DELEGATECALL => cont (opCall exe fr callDelegate)
  | STATICCALL => cont (opCall exe fr callStatic)
  | RETURN =>
      let! data := readMem in
      mret (Some data)
  | REVERT =>
      let! data := readMem in
      fun m => Fail ErrReverted data m
  | _ => fail ErrInvalidOpcode
  end.

(** ** interpreter.go *)

Definition liftStack (f : list Z -> res (list Z)) : M S unit :=
  let! st := gets stack in
  let! st' := lift (f st) in
  modify (with_stack st').

Definition incPc : M S unit := modify (fun i => with_pc (u64 (pc i + 1)) i).

(** One iteration of the loop of [run], on the opcode byte [c] at [pc]. *)
Definition step (exe : Exec) (fr : Frame) (c : byte) : M S (option (list byte)) :=
  let op := decode c in
  useGas (gasCost op);;
  match op with
  | STOP => mret (Some [])
  | PUSH n => doPush fr n;; mret None
  | DUP n => liftStack (fun st => stack_dup st n);; incPc;; mret None
  | SWAP n => liftStack (fun st => stack_swap st n);; incPc;; mret None
  | _ =>
      let! r := exec exe fr op in
      match r with
      | Some ret => mret (Some ret)
      | None =>
          let! j := gets jumped in
          if j : bool then modify (with_jumped false);; mret None
          else incPc;; mret None
      end
  end.

Definition initInterp (g : Z) (w : option S) : interp S := mkInterp [] [] 0 g false [] w.

(** [execute] around a given implementation of [run]: what the caller sees of a frame. *)
Definition execute_with (runf : Frame -> M S (list byte)) : Exec :=
  fun code input g ctx depth w =>
    match runf (mkFrame code input (analyseJumpdests code) ctx depth) (initInterp g w) with
    | Done ret m => Ran (mkResult ret (gas m) None) (world m)
    | Fail ErrReverted ret m => Ran (mkResult ret (gas m) (Some ErrReverted)) (world m)
    | Fail e _ m => Ran (mkResult [] 0 (Some e)) (world m)
    | Crash => Crashed
    | Diverge => NoFuel
    end.

Fixpoint run (fuel : nat) (fr : Frame) : M S (list byte) :=
  match fuel with
  | O => fun _ => Diverge
  | Datatypes.S k => fun m =>
      match f_code fr !! Z.to_nat (pc m) with
      | Some c =>
          (let! r := step (execute_with (run k)) fr c in
           match r with
           | Some ret => mret ret
           | None => run k fr
           end) m
      | None => Done [] m
      end
  end.

Definition execute (fuel : nat) : Exec := execute_with (run fuel).

(** Every iteration that continues costs at least one unit of gas, and a sub-call is handed less
    than what is left: [gas + 1] units of fuel are enough. *)
Definition fuelFor (g : Z) : nat := Datatypes.S (Z.to_nat g).

Definition Run (code input : list byte) (g : Z) (ctx : Context) (w : option S) : exres S :=
  execute (fuelFor g) code input g ctx 0 w.

End Interpreter.
