(* ===== verification/VmProofs.v ===== *)
(** * What a run of the interpreter does

    [Trans] is the abstract specification of the interpreter's effect on the
    world: a step relation whose rules are the writes the code guards for (a
    storage write or a log by an account that runs code, a transfer covered by
    the sender's balance, a nonce bump, the code of a new contract), closed
    under savepoints and reverts; in a static frame only savepoints remain.
    [run_ok] shows, by induction on the fuel, that every run of every byte
    string halts within its gas, never panics, and moves the world along
    [Trans].  What [Trans] preserves is then shown by rule induction, once, in
    the files that instantiate the state. *)
From stdpp Require Import base numbers list.
From Stdlib Require Import ZArith Lia Strings.Byte.
From S2P Require Import Prelude Common Rlp Types VmBase Precompiles Vm.
#[local] Open Scope Z_scope.
#[local] Open Scope vm_scope.
#[local] Open Scope list_scope.

(** ** The effect of a run on the world *)

Section Trans.
Context {S : Type} `{StateDB S}.

(** The accounts that run code. *)
Context (A : Address -> Prop).

Inductive Trans : bool -> S -> S -> Prop :=
  | T_refl st s : Trans st s s
  | T_trans st s1 s2 s3 : Trans st s1 s2 -> Trans st s2 s3 -> Trans st s1 s3
  | T_weaken s s' : Trans true s s' -> Trans false s s'
  | T_snapshot st s : Trans st s (snd (Snapshot s))
  | T_revert st s s' : Trans st (snd (Snapshot s)) s' -> Trans st s (RevertToSnapshot s' (fst (Snapshot s)))
  | T_storage s a k v : A a -> Trans false s (SetStorage s a k v)
  | T_log s l : A (l_Address l) -> Trans false s (AddLog s l)
  | T_transfer s a b v : A a -> 0 < v <= GetBalance s a ->
      Trans false (snd (Snapshot s)) (AddBalance (SubBalance (snd (Snapshot s)) a v) b v)
  | T_nonce s a : A a -> Trans false s (SetNonce s a (u64 (GetNonce s a + 1)))
  | T_code s a code : A a -> len code <= MaxCodeSize -> Trans false s (SetCode s a code).

Lemma T_static st st' s s' : (st = true -> st' = true) -> Trans st' s s' -> Trans st s s'.
Proof. destruct st, st'; intros E HT; auto using T_weaken. by specialize (E eq_refl). Qed.

End Trans.

Create HintDb vm.
#[export] Hint Constructors Trans : vm.

(** What the interpreter itself relies on: bumping a nonce moves no balance (CREATE checks the
    balance first and transfers after). *)
Class StateDBLaws (S : Type) `{StateDB S} : Prop := {
  GetBalance_SetNonce : forall s a n b, GetBalance (SetNonce s a n) b = GetBalance s b;
}.

(** ** A weakest precondition for frame computations *)

Section Wp.
Context {S : Type}.

Definition wp {X} (c : M S X) (Q : X -> interp S -> Prop) (E : error -> list byte -> interp S -> Prop)
    (m : interp S) : Prop :=
  match c m with
  | Done a m' => Q a m'
  | Fail e ret m' => E e ret m'
  | Crash | Diverge => False
  end.

Lemma wp_bind {X Y} (c : M S X) (k : X -> M S Y) Q E m :
  wp c (fun a => wp (k a) Q E) E m -> wp (M_bind c k) Q E m.
Proof. unfold wp, M_bind. by destruct (c m). Qed.

Lemma wp_mono {X} (c : M S X) (Q Q' : X -> interp S -> Prop) (E E' : error -> list byte -> interp S -> Prop) m :
  wp c Q E m -> (forall a m', Q a m' -> Q' a m') -> (forall e r m', E e r m' -> E' e r m') -> wp c Q' E' m.
Proof. unfold wp. destruct (c m); eauto. Qed.

(** Sequencing through an intermediate assertion. *)
Lemma wp_seq {X Y} (c : M S X) (k : X -> M S Y) (R : X -> interp S -> Prop) (E1 : error -> list byte -> interp S -> Prop) Q E m :
  wp c R E1 m -> (forall e r m', E1 e r m' -> E e r m') -> (forall a m', R a m' -> wp (k a) Q E m') ->
  wp (M_bind c k) Q E m.
Proof. intros Hc HE Hk. apply wp_bind. eapply wp_mono; eauto. Qed.

Lemma wp_mret {X} (a : X) (Q : X -> interp S -> Prop) E m : Q a m -> wp (mret a) Q E m.
Proof. done. Qed.

Lemma wp_gets {X} (f : interp S -> X) (Q : X -> interp S -> Prop) E m : Q (f m) m -> wp (gets f) Q E m.
Proof. done. Qed.

Lemma wp_modify f (Q : unit -> interp S -> Prop) E m : Q tt (f m) -> wp (modify f) Q E m.
Proof. done. Qed.

Lemma wp_lift_ok {X} (r : res X) x (Q : X -> interp S -> Prop) E m : r = Ok x -> Q x m -> wp (lift r) Q E m.
Proof. intros ->. done. Qed.

Lemma wp_panic_some {X} (o : option X) x (Q : X -> interp S -> Prop) E m :
  o = Some x -> Q x m -> wp (lift (or_panic o)) Q E m.
Proof. intros ->. done. Qed.

End Wp.

Definition stack_ok (st : list Z) : Prop := len st <= maxStack /\ Forall is_word st.

Lemma stack_push_ok st v st' : stack_ok st -> stack_push st v = Ok st' -> stack_ok st'.
Proof.
  unfold stack_push, stack_ok, maxStack. intros [Hl Hf]. destruct (Z.leb_spec 1024 (len st)); [done|].
  intros [= <-]. rewrite len_cons. split; [lia|]. constructor; [apply wrap_word|done].
Qed.

(** Gas a frame may be given: any block's gas limit is far below it. *)
Definition maxGas : Z := 2 ^ 60.

Section Run.
Context {S : Type} `{StateDBLaws S} `{Crypto} `{Bn256}.

(** [A]: the accounts that run code.  [P]: what is known of every reachable world. *)
Context (A : Address -> Prop) (P : S -> Prop).
Hypothesis P_trans : forall st s s', P s -> Trans A st s s' -> P s'.
Hypothesis P_code_len : forall s a, P s -> len (GetCode s a) < 2 ^ 62.
Hypothesis P_coded : forall s a, P s -> GetCode s a <> [] -> A a.
Hypothesis P_fresh : forall s a, P s -> GetNonce s a = 0 -> GetCode s a = [] -> A a.

(** Between the steps of one opcode at [p0]: gas at most [g], at least [L] bytes of memory, the
    world reached from [s0]. *)
Record good (fr : Frame) (s0 : S) (p0 g L : Z) (m : interp S) : Prop := {
  gd_stack : stack_ok (stack m);
  gd_mem : L <= len (mem m) <= maxMemBytes;
  gd_ret : len (returnData m) < 2 ^ 64;
  gd_gas : 0 <= gas m <= g;
  gd_pc : (jumped m = false /\ pc m = p0)
          \/ (jumped m = true /\ 0 <= pc m /\ f_jumps fr !! Z.to_nat (pc m) = Some true);
  gd_world : exists s, world m = Some s /\ Trans A (c_Static (f_ctx fr)) s0 s;
}.

(** What holds when a frame ends, with return data [ret] or by an error. *)
Definition final (fr : Frame) (s0 : S) (g : Z) (ret : list byte) (m : interp S) : Prop :=
  (exists s, world m = Some s /\ Trans A (c_Static (f_ctx fr)) s0 s)
  /\ 0 <= gas m <= g /\ len ret <= maxMemBytes.

Definition Epost (fr : Frame) (s0 : S) (g : Z) : error -> list byte -> interp S -> Prop :=
  fun _ => final fr s0 g.

Lemma good_fail fr s0 p0 g g' L m e ret :
  good fr s0 p0 g L m -> g <= g' -> len ret <= maxMemBytes -> Epost fr s0 g' e ret m.
Proof. intros [_ _ _ Hg _ Hw] Hgg Hr. split_and!; [done|lia|lia|done]. Qed.

Lemma good_mono fr s0 p0 g g' L L' m :
  good fr s0 p0 g L m -> g <= g' -> L' <= L -> good fr s0 p0 g' L' m.
Proof. intros [] ? ?. split; auto with lia. Qed.

Lemma good_rebase fr s0 s1 p0 g L m :
  Trans A (c_Static (f_ctx fr)) s0 s1 -> good fr s1 p0 g L m -> good fr s0 p0 g L m.
Proof. intros HT [? ? ? ? ? (s & Hs & HT')]. split; auto. exists s. eauto with vm. Qed.

Lemma Epost_rebase fr s0 s1 g g' e r m :
  Trans A (c_Static (f_ctx fr)) s0 s1 -> g <= g' -> Epost fr s1 g e r m -> Epost fr s0 g' e r m.
Proof. intros HT Hg ((s & Hs & HT') & ? & ?). split_and!; [|lia..|done]. exists s. eauto with vm. Qed.

Lemma nil_len : len (@nil byte) <= maxMemBytes.
Proof. done. Qed.

Section Primitives.
Context (fr : Frame) (s0 : S) (p0 g0 : Z).
Abbreviation G := (good fr s0 p0).
Abbreviation E := (Epost fr s0 g0).

Lemma wp_fail {X} g L e (Q : X -> interp S -> Prop) m : g <= g0 -> G g L m -> wp (fail e) Q E m.
Proof. intros. unfold wp, fail. by eapply good_fail. Qed.

Lemma wp_pop g L Q m :
  g <= g0 -> G g L m -> (forall v m', is_word v -> G g L m' -> Q v m') -> wp pop Q E m.
Proof.
  intros Hg Hm HQ. unfold wp, pop, M_bind, gets, lift, stack_pop, modify, mret.
  destruct (stack m) as [|v st] eqn:Es; [by eapply good_fail|].
  destruct Hm as [[Hl Hf] ? ? ? ? ?]. rewrite Es in Hl, Hf. rewrite len_cons in Hl.
  inversion Hf; subst. apply HQ; [done|]. split; try done. split; [simpl; lia|done].
Qed.

Lemma wp_push g L v Q m :
  g <= g0 -> G g L m -> (forall m', G g L m' -> jumped m' = jumped m -> pc m' = pc m -> Q tt m') ->
  wp (push v) Q E m.
Proof.
  intros Hg Hm HQ. unfold wp, push, M_bind, gets, lift, modify.
  destruct (stack_push (stack m) v) as [st| |] eqn:Es; [|by eapply good_fail|].
  - apply HQ; [|done..]. destruct Hm. split; try done. simpl. by eapply stack_push_ok.
  - unfold stack_push in Es. by destruct (_ <=? _).
Qed.

Lemma wp_useGas g L cost Q m :
  g <= g0 -> 0 <= cost -> G g L m -> (forall m', G (g - cost) L m' -> Q tt m') -> wp (useGas cost) Q E m.
Proof.
  intros Hg Hc Hm HQ. unfold wp, useGas. destruct (Z.ltb_spec (gas m) cost).
  - destruct Hm. split_and!; simpl; try done; lia.
  - apply HQ. destruct Hm. split; simpl; auto with lia.
Qed.

(** After charging, the window [off, off + size) is inside memory (or empty). *)
Definition window (off size L : Z) : Prop :=
  size = 0 \/ (0 < size /\ 0 <= off /\ off + size <= L /\ Uint64 off = off /\ Uint64 size = size).

Lemma window_mono off size L L' : L <= L' -> window off size L -> window off size L'.
Proof. unfold window. lia. Qed.

Lemma wp_chargeMem g L off size Q m :
  g <= g0 -> is_word off -> is_word size -> G g L m ->
  (forall L' m', G g L' m' -> L <= L' -> L' <= maxMemBytes -> window off size L' -> Q tt m') ->
  wp (chargeMem off size) Q E m.
Proof.
  intros Hg Ho Hs Hm HQ. unfold chargeMem. rewrite sgn_eqb_0.
  destruct (Z.eqb_spec size 0) as [->|Hne].
  { apply wp_mret. apply (HQ L); [done|lia|destruct Hm; lia|by left]. }
  destruct (IsUint64 off) eqn:Eo; [|by eapply wp_fail]. destruct (IsUint64 size) eqn:Es; [|by eapply wp_fail].
  cbn [negb orb]. apply IsUint64_true in Eo, Es. rewrite !Uint64_small by done.
  apply wp_bind, wp_gets. rewrite expansionGas_exact_lemma by (destruct Hm; lia).
  destruct (Z.eqb_spec size 0); [done|].
  destruct (Z.ltb_spec maxMemBytes (off + size)); [by eapply wp_fail|].
  apply wp_bind. eapply wp_useGas; [exact Hg|apply Z.le_max_l|exact Hm|]. intros m' Hm'.
  apply wp_modify. unfold maxMemBytes in *. rewrite u64_small by lia.
  apply (HQ (Z.max L (off + size))); [|lia|destruct Hm; unfold maxMemBytes in *; lia|].
  - destruct Hm' as [? Hmem ? ? ? ?]. split; try done; simpl; [|lia].
    rewrite len_resize. unfold maxMemBytes in *. lia.
  - right. rewrite !Uint64_small by lia. lia.
Qed.

Lemma wp_memGet g L off size n Q m :
  g <= g0 -> G g L m -> window off size L -> n = Uint64 size ->
  (forall d, len d = Uint64 size -> len d <= maxMemBytes -> Q d m) ->
  wp (memGet (Uint64 off) n) Q E m.
Proof.
  intros Hg Hm Hw -> HQ. apply wp_bind, wp_gets. pose proof (Uint64_range off).
  assert (L <= 2 ^ 32) by (destruct Hm; unfold maxMemBytes in *; lia).
  destruct (mem_get_ok (mem m) (Uint64 off) (Uint64 size)) as (d & Hd & Hl).
  - lia.
  - apply Uint64_range.
  - destruct Hw as [->|(? & ? & ? & -> & ->)]; [by left|]. right. lia.
  - eapply wp_panic_some; [exact Hd|]. apply HQ; [done|]. rewrite Hl. unfold maxMemBytes.
    destruct Hw as [->|(? & ? & ? & ? & ->)]; [done|lia].
Qed.

Lemma good_with_mem g L m d : G g L m -> len d = len (mem m) -> G g L (with_mem d m).
Proof. intros [] Hl. split; simpl; auto. lia. Qed.

Lemma wp_memSet g L off val Q m :
  g <= g0 -> G g L m -> 0 <= off -> len val = 0 \/ off + len val <= L ->
  (forall m', G g L m' -> Q tt m') -> wp (memSet off val) Q E m.
Proof.
  intros Hg Hm Ho Hw HQ. apply wp_bind, wp_gets, wp_bind.
  assert (L <= len (mem m) <= 2 ^ 32) by (destruct Hm; unfold maxMemBytes in *; lia).
  destruct (mem_set_ok (mem m) off val) as (d & Hd & Hl); [done|lia|lia|].
  eapply wp_panic_some; [exact Hd|]. apply wp_modify, HQ. by apply good_with_mem.
Qed.

Lemma wp_memSet_window g L off size val Q m :
  g <= g0 -> G g L m -> window off size L -> len val <= Uint64 size ->
  (forall m', G g L m' -> Q tt m') -> wp (memSet (Uint64 off) val) Q E m.
Proof.
  intros Hg Hm Hw Hv HQ. pose proof (Uint64_range off). pose proof (len_nonneg val).
  eapply wp_memSet; [done|exact Hm|lia| |done].
  destruct Hw as [->|(? & ? & ? & -> & ?)]; [left; change (Uint64 0) with 0 in Hv; lia|right; lia].
Qed.

Lemma wp_getData src off n Q m :
  len src < 2 ^ 62 -> 0 <= n <= maxMemBytes -> (forall d, len d = n -> Q d m) ->
  wp (lift (or_panic (getData src off n))) Q E m.
Proof.
  intros Hs Hn HQ. unfold maxMemBytes in Hn. destruct (getData_ok src off n) as (d & Hd & Hl); [lia|done|].
  eapply wp_panic_some; [exact Hd|]. auto.
Qed.

Lemma window_size off size L : L <= maxMemBytes -> window off size L -> 0 <= Uint64 size <= maxMemBytes.
Proof.
  intros HL [->|(? & ? & ? & ? & ->)]; [done|]. lia.
Qed.

Lemma wp_memSet32 g L off val Q m :
  g <= g0 -> G g L m -> window off 32 L -> (forall m', G g L m' -> Q tt m') -> wp (memSet32 (Uint64 off) val) Q E m.
Proof.
  intros Hg Hm Hw HQ. apply wp_bind, wp_gets, wp_bind.
  assert (L <= len (mem m) <= 2 ^ 32) by (destruct Hm; unfold maxMemBytes in *; lia).
  destruct Hw as [|(_ & ? & ? & -> & _)]; [done|].
  destruct (mem_set32_ok (mem m) off val) as (d & Hd & Hl); [lia..|].
  eapply wp_panic_some; [exact Hd|]. apply wp_modify, HQ. by apply good_with_mem.
Qed.

Lemma wp_requireState g L Q m :
  G g L m -> (forall s, Trans A (c_Static (f_ctx fr)) s0 s -> Q s m) -> wp requireState Q E m.
Proof. intros [? ? ? ? ? (s & Hs & HT)] HQ. unfold wp, requireState. rewrite Hs. auto. Qed.

Lemma wp_theState g L Q m :
  G g L m -> (forall s, Trans A (c_Static (f_ctx fr)) s0 s -> Q s m) -> wp theState Q E m.
Proof. intros [? ? ? ? ? (s & Hs & HT)] HQ. unfold wp, theState. rewrite Hs. auto. Qed.

Lemma wp_putState g L s Q m :
  G g L m -> Trans A (c_Static (f_ctx fr)) s0 s -> (forall m', G g L m' -> Q tt m') -> wp (putState s) Q E m.
Proof. intros Hm HT HQ. apply wp_modify, HQ. destruct Hm. split; try done. exists s. done. Qed.

Lemma wp_setReturnData g L d Q m :
  G g L m -> len d < 2 ^ 64 -> (forall m', G g L m' -> Q tt m') -> wp (modify (with_returnData d)) Q E m.
Proof. intros Hm Hd HQ. apply wp_modify, HQ. by destruct Hm. Qed.

End Primitives.

(** ** Opcode groups *)

Lemma sstoreGas_nonneg cur next : 800 <= sstoreGas cur next.
Proof. unfold sstoreGas, SstoreNoopGas, SstoreSetGas, SstoreResetGas. repeat case_match; lia. Qed.

Ltac nonneg := first [apply u64_range | assumption | lia].

(** One step of a symbolic execution: the goal is a [wp] whose head is a primitive. *)
Ltac vm1 :=
  lazymatch goal with
  | |- wp (M_bind _ _) _ _ _ => apply wp_bind
  | |- wp (mret _) _ _ _ => apply wp_mret
  | |- wp (gets _) _ _ _ => apply wp_gets
  | |- wp pop2 _ _ _ => unfold pop2
  | |- wp pop _ _ _ => eapply wp_pop; [|eassumption|intros ? ? ? ?]; [lia|]
  | |- wp (push _) _ _ _ => eapply wp_push; [|eassumption|intros ? ? _ _]; [lia|]
  | |- wp (fail _) _ _ _ => eapply wp_fail; [|eassumption]; lia
  | |- wp (useGas ?c) _ _ _ =>
      let Hc := fresh "Hc" in
      try match c with sstoreGas ?x ?y => pose proof (sstoreGas_nonneg x y) end;
      assert (0 <= c) as Hc by nonneg;
      eapply wp_useGas; [|exact Hc|eassumption|intros ? ?]; [lia|]
  | |- wp (chargeMem _ _) _ _ _ =>
      eapply wp_chargeMem; [| | |eassumption|intros ? ? ? ? ? ?];
        [lia|done || assumption|done || assumption|]
  | |- wp (memGet _ _) _ _ _ =>
      eapply wp_memGet; [|eassumption|eauto using window_mono|reflexivity|intros ? ? ?]; [lia|]
  | |- wp (memSet32 _ _) _ _ _ =>
      eapply wp_memSet32; [|eassumption|eassumption|intros ? ?]; [lia|]
  | |- wp (memSet _ _) _ _ _ =>
      eapply wp_memSet_window; [|eassumption|eauto using window_mono| |intros ? ?]; [lia| |]
  | |- wp (lift (or_panic (getData _ _ _))) _ _ _ =>
      eapply wp_getData; [assumption|done || (eapply window_size; cycle 1; [eassumption|lia])|intros ? ?]
  | |- wp requireState _ _ _ => eapply wp_requireState; [eassumption|intros ? ?]
  | |- wp theState _ _ _ => eapply wp_theState; [eassumption|intros ? ?]
  | |- wp (putState _) _ _ _ => eapply wp_putState; [eassumption| |intros ? ?]
  | |- wp (if ?b then _ else _) _ _ _ => destruct b eqn:?
  end.
Ltac vm := repeat vm1.

Definition Qcont (fr : Frame) (s0 : S) (p0 g : Z) : unit -> interp S -> Prop :=
  fun _ m' => exists L', good fr s0 p0 g L' m'.

Lemma Qcont_intro fr s0 p0 g g' L m : good fr s0 p0 g L m -> g <= g' -> Qcont fr s0 p0 g' tt m.
Proof. intros. exists L. eapply good_mono; eauto; lia. Qed.

Ltac vdone := first [by (eapply Qcont_intro; [eassumption|lia]) | idtac].

Lemma byteLen_word b : is_word b -> 0 <= byteLen b <= 32.
Proof.
  intros Hb. split; [apply byteLen_nonneg|]. apply byteLen_bound; [lia|].
  unfold is_word, tt256 in Hb. change (256 ^ 32) with (2 ^ 256). lia.
Qed.

Lemma word_32 : is_word 32.
Proof. done. Qed.

Lemma word_1 : is_word 1.
Proof. done. Qed.

Section Groups.
Context (fr : Frame) (s0 : S) (p0 g : Z).

Lemma wp_binop op a b L m :
  good fr s0 p0 g L m -> wp (binop op a b) (Qcont fr s0 p0 g) (Epost fr s0 g) m.
Proof. intros Hm. unfold binop. destruct op; vm; vdone. Qed.

Lemma wp_exec_arith op L m :
  good fr s0 p0 g L m -> wp (exec_arith op) (Qcont fr s0 p0 g) (Epost fr s0 g) m.
Proof.
  intros Hm. unfold exec_arith.
  destruct op; vm; vdone; try (by eapply wp_binop; eauto).
Qed.

Lemma wp_exec_memory op L m :
  good fr s0 p0 g L m -> wp (exec_memory op) (Qcont fr s0 p0 g) (Epost fr s0 g) m.
Proof. intros Hm. unfold exec_memory. destruct op; vm; vdone; try done; try lia.
Qed.

Lemma wp_exec_env op L m :
  good fr s0 p0 g L m -> wp (exec_env fr op) (Qcont fr s0 p0 g) (Epost fr s0 g) m.
Proof. intros Hm. unfold exec_env. destruct op; vm; vdone. Qed.

(** A storage write costs at least 800 gas, whatever the static table says. *)
Lemma wp_SSTORE L m :
  good fr s0 p0 g L m -> A (c_Address (f_ctx fr)) ->
  wp (exec_state fr SSTORE) (Qcont fr s0 p0 (g - 800)) (Epost fr s0 g) m.
Proof.
  intros Hm HA. cbn [exec_state]. destruct (c_Static (f_ctx fr)) eqn:Es; [by vm|].
  vm; vdone. rewrite Es in *. eauto with vm.
Qed.

Lemma wp_exec_state op L m :
  match op with SSTORE => False | _ => True end ->
  good fr s0 p0 g L m -> wp (exec_state fr op) (Qcont fr s0 p0 g) (Epost fr s0 g) m.
Proof. intros Hop Hm. unfold exec_state. destruct op; try done; vm; vdone. Qed.

Lemma wp_opReturnDataCopy L m :
  good fr s0 p0 g L m -> wp opReturnDataCopy (Qcont fr s0 p0 g) (Epost fr s0 g) m.
Proof.
  intros Hm. unfold opReturnDataCopy. vm; vdone.
  match goal with E : _ || _ = false |- _ =>
    apply orb_false_iff in E as [Hu%negb_false_iff%IsUint64_true Hle%Z.ltb_ge] end.
  unfold is_word in *. match goal with Hg : good _ _ _ _ _ ?mm |- context [returnData ?mm] =>
    pose proof (gd_ret _ _ _ _ _ _ Hg) as Hrd; pose proof (len_nonneg (returnData mm)) end.
  rewrite u64_small in Hle by lia. rewrite !Uint64_small in * by lia.
  destruct (slice_exists v0 (v0 + v1) (returnData m'1)) as [d Hd]; [lia|exact Hle|].
  eapply wp_panic_some; [exact Hd|]. apply slice_len in Hd.
  vm; vdone. rewrite Uint64_small; lia.
Qed.

Lemma wp_exec_copy op L m :
  len (f_code fr) < 2 ^ 62 -> len (f_input fr) < 2 ^ 62 -> P s0 ->
  good fr s0 p0 g L m -> wp (exec_copy fr op) (Qcont fr s0 p0 g) (Epost fr s0 g) m.
Proof.
  intros Hcode Hinput HP Hm. unfold exec_copy.
  destruct op; try (by eapply wp_opReturnDataCopy); vm; vdone; try lia.
  assert (len (GetCode s (wordToAddress v)) < 2 ^ 62) by eauto. vm; vdone; lia.
Qed.

(** ** Jumps, logs, return data *)

Lemma wp_jump dest L m :
  good fr s0 p0 g L m -> wp (jump fr dest) (Qcont fr s0 p0 g) (Epost fr s0 g) m.
Proof.
  intros Hm. unfold jump. destruct (IsUint64 dest) eqn:Eu; [|by vm].
  cbn [negb]. destruct (_ || _) eqn:Ej; [by vm|]. apply orb_false_iff in Ej as [_ Ej%negb_false_iff].
  pose proof (Uint64_range dest). apply wp_bind, wp_modify, wp_modify.
  exists L. destruct Hm. split; try done. right. cbn. split_and!; [done|lia|].
  destruct (f_jumps fr !! Z.to_nat (Uint64 dest)); simpl in Ej; by subst.
Qed.

Lemma wp_popTopics n L Q m :
  good fr s0 p0 g L m -> (forall l m', good fr s0 p0 g L m' -> Q l m') ->
  wp (popTopics n) Q (Epost fr s0 g) m.
Proof.
  revert Q m. induction n as [|n IH]; intros Q m Hm HQ; cbn [popTopics]; vm; [eauto|].
  eapply IH; [eassumption|]. intros l m2 Hm2. vm. eauto.
Qed.

Lemma wp_opLog n L m :
  good fr s0 p0 g L m -> 0 <= n -> A (c_Address (f_ctx fr)) ->
  wp (opLog fr n) (Qcont fr s0 p0 (g - 375)) (Epost fr s0 g) m.
Proof.
  intros Hm Hn HA. unfold opLog. destruct (c_Static (f_ctx fr)) eqn:Es; [by vm|].
  do 4 vm1. apply wp_bind. eapply wp_popTopics; [eassumption|]. intros l m2 Hm2.
  unfold LogGas, LogTopicGas. vm; vdone. rewrite Es in *. eauto with vm.
Qed.

Lemma wp_readMem L m :
  good fr s0 p0 g L m ->
  wp readMem (fun d m' => exists L', good fr s0 p0 g L' m' /\ len d <= maxMemBytes) (Epost fr s0 g) m.
Proof. intros Hm. unfold readMem. vm. eauto. Qed.

(** ** Calls and creations, against a specification of the sub-execution *)

(** What a sub-execution with at most [K] gas promises its caller. *)
Definition exe_ok (K : Z) (exe : @Exec S) : Prop :=
  forall code input g ctx depth s,
    0 <= g <= K -> len code < 2 ^ 62 -> len input < 2 ^ 62 -> code = [] \/ A (c_Address ctx) -> P s ->
    exists r s', exe code input g ctx depth (Some s) = Ran r (Some s')
      /\ Trans A (c_Static ctx) s s' /\ 0 <= GasLeft r <= g /\ len (Ret r) < 2 ^ 64.

Lemma good_world L m s :
  good fr s0 p0 g L m -> Trans A (c_Static (f_ctx fr)) s0 s -> good fr s0 p0 g L (with_world (Some s) m).
Proof. intros [] ?. split; try done. by exists s. Qed.

Lemma wp_moveValue from to value moves s L Q m :
  good fr (snd (Snapshot s)) p0 g L m -> world m = Some (snd (Snapshot s)) ->
  (moves = true -> c_Static (f_ctx fr) = false /\ A from /\ 0 < value <= GetBalance s from) ->
  (forall m', good fr (snd (Snapshot s)) p0 g L m' -> gas m' = gas m -> Q tt m') ->
  wp (moveValue moves from to value) Q (Epost fr (snd (Snapshot s)) g) m.
Proof.
  intros Hm Hw Hmv HQ. unfold moveValue. destruct moves; [|vm; auto].
  destruct Hmv as (Hst & HA & Hv); [done|]. apply wp_bind. unfold wp at 1, theState. rewrite Hw.
  apply wp_modify. apply HQ; [|done]. destruct Hm. split; try done. eexists. split; [reflexivity|].
  rewrite Hst. eauto with vm.
Qed.

Lemma wp_copyReturn retOff retSize ret L Q m :
  good fr s0 p0 g L m -> is_word retSize -> window retOff retSize L -> len ret < 2 ^ 64 ->
  (forall m', good fr s0 p0 g L m' -> Q tt m') -> wp (copyReturn retOff retSize ret) Q (Epost fr s0 g) m.
Proof.
  intros Hm Hs Hw Hr HQ. unfold copyReturn. destruct (0 <? Z.sgn retSize); [|vm; auto].
  pose proof (len_nonneg ret). pose proof (Uint64_range retSize). rewrite u64_small by lia.
  set (n := if len ret <? Uint64 retSize then len ret else Uint64 retSize).
  assert (0 <= n <= len ret /\ n <= Uint64 retSize) as [Hn Hn'].
  { unfold n. destruct (Z.ltb_spec (len ret) (Uint64 retSize)); lia. }
  destruct (slice_exists 0 n ret) as [d Hd]; [lia..|]. apply wp_bind. eapply wp_panic_some; [exact Hd|].
  apply slice_len in Hd. eapply wp_memSet_window; [|eassumption..|lia|done]. lia.
Qed.

Section Callee.
Context (K : Z) (exe : @Exec S).
Hypothesis Hexe : exe_ok K exe.
Hypothesis HP : P s0.
Hypothesis HA : A (c_Address (f_ctx fr)).

Lemma wp_runSub code input give ctx depth s L Q m :
  good fr s0 p0 g L m -> world m = Some s -> Trans A (c_Static (f_ctx fr)) s0 s ->
  0 <= give <= K -> len code < 2 ^ 62 -> len input < 2 ^ 62 -> code = [] \/ A (c_Address ctx) ->
  (c_Static (f_ctx fr) = true -> c_Static ctx = true) ->
  (forall r m', good fr s0 p0 g L m' -> gas m' = gas m -> 0 <= GasLeft r <= give -> len (Ret r) < 2 ^ 64 -> Q r m') ->
  wp (runSub exe code input give ctx depth) Q (Epost fr s0 g) m.
Proof.
  intros Hm Hw HT Hg Hc Hi Hact Hst HQ. unfold wp, runSub. rewrite Hw.
  destruct (Hexe code input give ctx depth s) as (r & s' & -> & HT' & Hgl & Hret); [eauto..|].
  apply HQ; [|done..]. apply good_world; [done|]. eapply T_trans; [exact HT|]. by eapply T_static.
Qed.

Lemma wp_callee mode target value args give L Q m :
  good fr s0 p0 g L m -> 0 <= give <= K -> K <= maxGas -> len args < 2 ^ 62 ->
  (forall r m', good fr s0 p0 g L m' -> gas m' = gas m -> 0 <= GasLeft r <= give -> len (Ret r) < 2 ^ 64 -> Q r m') ->
  wp (callee exe fr mode target value args give) Q (Epost fr s0 g) m.
Proof.
  intros Hm Hg HK Ha HQ. unfold callee, maxGas in *. destruct (precompileFor target) as [p|].
  - destruct (runPrecompile_ok p args give) as (r & Hr & Hgl & Hret); [done|lia|].
    eapply wp_lift_ok; [exact Hr|]. auto.
  - destruct (gd_world _ _ _ _ _ _ Hm) as (s & Hw & HT). apply wp_bind. unfold wp at 1, theState. rewrite Hw.
    eapply wp_runSub; [exact Hm|exact Hw|exact HT|exact Hg| |exact Ha| | |exact HQ].
    + eauto.
    + destruct (GetCode s target) as [|c l] eqn:Ec; [by left|]. right.
      assert (A target) by (apply (P_coded s); [eauto|by rewrite Ec]).
      by destruct mode.
    + intros Hst. destruct mode; cbn [subContext c_Static]; by rewrite Hst.
Qed.

End Callee.

Lemma good_regas g' L m v :
  good fr s0 p0 g L m -> 0 <= v <= g' -> good fr s0 p0 g' L (with_gas v m).
Proof. intros [] ?. by split. Qed.

End Groups.

Lemma Epost_mono fr s0 g g' e r m : g <= g' -> Epost fr s0 g e r m -> Epost fr s0 g' e r m.
Proof. intros Hg (? & ? & ?). split_and!; [done|lia|lia|done]. Qed.

(** The end of a call: on failure the world goes back to the savepoint. *)
Lemma wp_callEnd fr s0 p0 g L s retOff retSize r m :
  Trans A (c_Static (f_ctx fr)) s0 s ->
  good fr (snd (Snapshot s)) p0 g L m -> is_word retSize -> window retOff retSize L -> len (Ret r) < 2 ^ 64 ->
  wp (let! success :=
        match r_Err r with
        | Some _ => let! s3 := theState in putState (RevertToSnapshot s3 (fst (Snapshot s)));; mret 0
        | None => mret 1
        end in
      copyReturn retOff retSize (Ret r);;
      push success) (Qcont fr s0 p0 g) (Epost fr s0 g) m.
Proof.
  intros HT Hm Hrs Hwin Hret.
  eapply wp_seq with (R := fun _ m' => good fr s0 p0 g L m') (E1 := Epost fr s0 g); [|done|].
  - destruct (r_Err r).
    + destruct (gd_world _ _ _ _ _ _ Hm) as (s3 & Hw & HT3).
      apply wp_bind. unfold wp at 1, theState. rewrite Hw. apply wp_bind, wp_modify, wp_mret.
      destruct Hm. split; try done. eexists. split; [reflexivity|]. eauto with vm.
    + apply wp_mret. eapply good_rebase; [|exact Hm]. eauto with vm.
  - intros v m' Hm'. apply wp_bind. eapply wp_copyReturn; [exact Hm'|done..|]. intros. vm; vdone.
Qed.

Lemma wp_callTarget fr s0 p0 g L K exe mode target value args give retOff retSize s m :
  exe_ok K exe -> P s0 -> A (c_Address (f_ctx fr)) -> g <= maxGas -> K <= maxGas ->
  good fr s0 p0 g L m -> world m = Some s -> Trans A (c_Static (f_ctx fr)) s0 s ->
  0 <= give <= K -> give <= gas m -> len args < 2 ^ 62 ->
  is_word retSize -> window retOff retSize L ->
  (isRegular mode && (0 <? Z.sgn value) = true ->
    c_Static (f_ctx fr) = false /\ value <= GetBalance s (c_Address (f_ctx fr))) ->
  wp (callTarget exe fr mode target value args give retOff retSize) (Qcont fr s0 p0 g) (Epost fr s0 g) m.
Proof.
  intros Hexe HP HA Hg HK Hm Hw HT Hgive Hgm Hargs Hrs Hwin Hbal. unfold callTarget, maxGas in *.
  assert (P s) as HPs by eauto. pose proof (gd_gas _ _ _ _ _ _ Hm) as Hgas.
  apply wp_bind, wp_modify, wp_bind. unfold wp at 1, theState. cbn [world with_gas]. rewrite Hw.
  rewrite (surjective_pairing (Snapshot s)).
  assert (Trans A (c_Static (f_ctx fr)) s0 (snd (Snapshot s))) as HT1 by eauto with vm.
  apply wp_bind, wp_modify. set (m1 := with_world _ _).
  assert (good fr (snd (Snapshot s)) p0 (g - give) L m1) as Hm1.
  { destruct Hm. split; try done; cbn; [lia|]. eexists. split; [reflexivity|]. eauto with vm. }
  eapply wp_seq with (E1 := Epost fr (snd (Snapshot s)) (g - give))
    (R := fun _ m2 => good fr (snd (Snapshot s)) p0 (g - give) L m2 /\ gas m2 = gas m1).
  { eapply wp_moveValue with (s := s); [exact Hm1|done| |intros m2 Hm2 Hg2; exact (conj Hm2 Hg2)].
    intros Hmv. destruct (Hbal Hmv) as [Hst Hb]. apply andb_true_iff in Hmv as [_ Hv%Z.ltb_lt]. split_and!; try done. lia. }
  { intros e r m'. apply Epost_rebase; [done|lia]. }
  intros [] m2 [Hm2 Hg2]. change (gas m1) with (gas m - give) in Hg2.
  eapply wp_seq with (E1 := Epost fr (snd (Snapshot s)) (g - give))
    (R := fun r m3 => good fr (snd (Snapshot s)) p0 (g - give) L m3 /\ gas m3 = gas m2
      /\ 0 <= GasLeft r <= give /\ len (Ret r) < 2 ^ 64).
  { eapply wp_callee; [exact Hexe|eauto|exact HA|exact Hm2|exact Hgive|exact HK|exact Hargs|].
    intros r m3 Hm3 Hg3 Hgl Hret. exact (conj Hm3 (conj Hg3 (conj Hgl Hret))). }
  { intros e r m'. apply Epost_rebase; [done|lia]. }
  intros r m3 (Hm3 & Hg3 & Hgl & Hret).
  apply wp_bind, wp_modify, wp_bind, wp_modify.
  apply (wp_callEnd fr s0 p0 g L s); [done| |done..].
  destruct Hm3. split; try done; cbn. rewrite u64_small; lia.
Qed.

Lemma wp_popIf fr s0 p0 g L (b : bool) m :
  good fr s0 p0 g L m ->
  wp (if b then pop else mret 0) (fun v m' => is_word v /\ good fr s0 p0 g L m') (Epost fr s0 g) m.
Proof. intros Hm. vm; done. Qed.

(** The gas handed over: what was asked for, at most all but a 64th of what is left. *)
Lemma give_bounds gw g :
  0 <= g -> 0 <= (if clampGas gw <? g - g / 64 then clampGas gw else g - g / 64) <= g.
Proof.
  intros Hg. assert (0 <= g / 64) by (apply Z.div_pos; lia). assert (0 <= clampGas gw).
  { unfold clampGas. case_match; [lia|apply Uint64_range]. }
  assert (g / 64 <= g) by (apply Z.div_le_upper_bound; lia).
  destruct (Z.ltb_spec (clampGas gw) (g - g / 64)); lia.
Qed.

Lemma good_clearReturn fr s0 p0 g L m : good fr s0 p0 g L m -> good fr s0 p0 g L (with_returnData [] m).
Proof. intros []. by split. Qed.

(** A call costs at least 700 gas; the callee is handed less than the caller had. *)
Lemma wp_opCall fr s0 p0 g L exe mode m :
  exe_ok (g - 1) exe -> P s0 -> A (c_Address (f_ctx fr)) -> g <= maxGas ->
  good fr s0 p0 g L m -> wp (opCall exe fr mode) (Qcont fr s0 p0 (g - 700)) (Epost fr s0 g) m.
Proof.
  intros Hexe HP HA Hg Hm. unfold opCall. do 4 vm1. eapply wp_seq; [eapply wp_popIf; eassumption|done|].
  intros value m1 [Hval Hm1]. do 8 vm1.
  destruct (isRegular mode && (0 <? Z.sgn value) && c_Static (f_ctx fr)) eqn:Est; [by vm|].
  set (cost := if isRegular mode && (0 <? Z.sgn value) then CallBaseGas + CallValueGas else CallBaseGas).
  assert (700 <= cost) by (unfold cost, CallBaseGas, CallValueGas; case_match; lia).
  do 8 vm1. apply wp_bind, wp_gets.
  match goal with |- wp _ _ _ ?mm => set (mc := mm) in * end.
  assert (good fr s0 p0 (g - 700) L'0 mc) as Hmc by (eapply good_mono; [eassumption|lia..]).
  pose proof (gd_gas _ _ _ _ _ _ Hmc) as Hgas. pose proof (give_bounds v (gas mc) ltac:(lia)) as Hgive.
  set (give := if clampGas v <? _ then _ else _) in *.
  apply wp_bind, wp_modify. pose proof (good_clearReturn _ _ _ _ _ _ Hmc) as Hmr.
  destruct (MaxCallDepth <=? f_depth fr); [vm; vdone|].
  destruct (gd_world _ _ _ _ _ _ Hmr) as (s & Hw & HT).
  eapply wp_seq with (E1 := Epost fr s0 g) (R := fun (b : bool) m' => m' = with_returnData [] mc
    /\ (b = false -> isRegular mode && (0 <? Z.sgn value) = true -> value <= GetBalance s (c_Address (f_ctx fr)))).
  { destruct (isRegular mode && (0 <? Z.sgn value)); [|vm; done].
    apply wp_bind. unfold wp at 1, theState. rewrite Hw. apply wp_mret. split; [done|].
    intros ?%Z.ltb_ge. done. }
  { done. }
  intros [] mx [-> Hbal]; [vm; vdone|].
  eapply wp_mono with (Q := Qcont fr s0 p0 (g - 700)) (E := Epost fr s0 (g - 700));
    [|done|intros ? ? ?; apply Epost_mono; lia].
  eapply wp_callTarget with (K := g - 1) (s := s); eauto;
    try (unfold maxGas, maxMemBytes in *; cbn [gas with_returnData]; lia).
  intros Hmv. rewrite Hmv in Est. split; [by destruct (c_Static (f_ctx fr))|auto].
Qed.

Lemma wp_revert fr s0 p0 g g' L s Q m :
  Trans A (c_Static (f_ctx fr)) s0 s -> good fr (snd (Snapshot s)) p0 g L m ->
  (forall m', good fr s0 p0 g L m' -> Q tt m') ->
  wp (let! s3 := theState in putState (RevertToSnapshot s3 (fst (Snapshot s)))) Q (Epost fr s0 g') m.
Proof.
  intros HT Hm HQ. destruct (gd_world _ _ _ _ _ _ Hm) as (s3 & Hw & HT3).
  apply wp_bind. unfold wp at 1, theState. rewrite Hw. apply wp_modify, HQ.
  destruct Hm. split; try done. eexists. split; [reflexivity|]. eauto with vm.
Qed.

(** The end of a creation: the returned code is stored if it is small enough and paid for. *)
Lemma wp_createEnd fr s0 p0 g L s newAddr r m :
  c_Static (f_ctx fr) = false -> A newAddr -> Trans A (c_Static (f_ctx fr)) s0 s ->
  good fr (snd (Snapshot s)) p0 g L m -> len (Ret r) < 2 ^ 64 ->
  wp (let revert := (let! s3 := theState in putState (RevertToSnapshot s3 (fst (Snapshot s)))) in
      match r_Err r with
      | Some _ => revert;; modify (with_returnData (Ret r));; push 0
      | None =>
          if MaxCodeSize <? u64 (len (Ret r)) then revert;; push 0
          else
            let codeGas := u64 (CreateDataGas * u64 (len (Ret r))) in
            let! g := gets gas in
            if g <? codeGas then revert;; push 0
            else
              modify (fun i => with_gas (gas i - codeGas) i);;
              let! s4 := theState in
              putState (SetCode s4 newAddr (Ret r));;
              modify (with_returnData []);;
              push (be2z (abytes newAddr))
      end) (Qcont fr s0 p0 g) (Epost fr s0 g) m.
Proof.
  intros Hst HA HT Hm Hret. cbv zeta.
  assert (good fr s0 p0 g L m) as Hm0 by (eapply good_rebase; [|exact Hm]; eauto with vm).
  destruct (r_Err r).
  { apply wp_bind. eapply wp_revert; [done|exact Hm|]. intros m' Hm'. apply wp_bind.
    eapply wp_setReturnData; [exact Hm'|done|]. intros. vm; vdone. }
  pose proof (len_nonneg (Ret r)). rewrite (u64_small (len (Ret r))) by lia.
  destruct (Z.ltb_spec MaxCodeSize (len (Ret r))).
  { apply wp_bind. eapply wp_revert; [done|exact Hm|]. intros. vm; vdone. }
  apply wp_bind, wp_gets. set (codeGas := u64 _). pose proof (u64_range (CreateDataGas * len (Ret r))).
  destruct (Z.ltb_spec (gas m) codeGas).
  { apply wp_bind. eapply wp_revert; [done|exact Hm|]. intros. vm; vdone. }
  apply wp_bind, wp_modify.
  assert (good fr s0 p0 g L (with_gas (gas m - codeGas) m)) as Hm1.
  { destruct Hm0. split; try done. cbn [gas with_gas]. subst codeGas. lia. }
  apply wp_bind. eapply wp_theState; [exact Hm1|]. intros s4 HT4.
  apply wp_bind. eapply wp_putState; [exact Hm1|rewrite Hst in *; eauto with vm|]. intros m2 Hm2.
  apply wp_bind. eapply wp_setReturnData; [exact Hm2|done|]. intros. vm; vdone.
Qed.

Lemma wp_createAt fr s0 p0 g L K exe newAddr value initCode give s m :
  exe_ok K exe -> P s0 -> A (c_Address (f_ctx fr)) -> A newAddr -> c_Static (f_ctx fr) = false ->
  g <= maxGas -> good fr s0 p0 g L m -> world m = Some s -> Trans A (c_Static (f_ctx fr)) s0 s ->
  0 <= give <= K -> gas m + give <= g -> len initCode < 2 ^ 62 ->
  ((0 <? Z.sgn value) = true -> 0 < value <= GetBalance s (c_Address (f_ctx fr))) ->
  wp (createAt exe fr newAddr value initCode give) (Qcont fr s0 p0 g) (Epost fr s0 g) m.
Proof.
  intros Hexe HP HA HAn Hst Hg Hm Hw HT Hgive Hgm Hinit Hbal. unfold createAt, maxGas in *.
  assert (P s) as HPs by eauto. pose proof (gd_gas _ _ _ _ _ _ Hm) as Hgas.
  apply wp_bind. unfold wp at 1, theState. rewrite Hw. rewrite (surjective_pairing (Snapshot s)).
  assert (Trans A (c_Static (f_ctx fr)) s0 (snd (Snapshot s))) as HT1 by eauto with vm.
  apply wp_bind, wp_modify. set (m1 := with_world _ _).
  assert (good fr (snd (Snapshot s)) p0 g L m1) as Hm1.
  { destruct Hm. split; try done. eexists. split; [reflexivity|]. eauto with vm. }
  eapply wp_seq with (E1 := Epost fr (snd (Snapshot s)) g)
    (R := fun _ m2 => good fr (snd (Snapshot s)) p0 g L m2 /\ gas m2 = gas m1).
  { eapply wp_moveValue with (s := s); [exact Hm1|done|auto|intros m2 Hm2 Hg2; exact (conj Hm2 Hg2)]. }
  { intros e r m'. apply Epost_rebase; [done|lia]. }
  intros [] m2 [Hm2 Hg2]. change (gas m1) with (gas m) in Hg2.
  destruct (gd_world _ _ _ _ _ _ Hm2) as (s2 & Hw2 & HT2).
  eapply wp_seq with (E1 := Epost fr (snd (Snapshot s)) g)
    (R := fun r m3 => good fr (snd (Snapshot s)) p0 g L m3 /\ gas m3 = gas m2
      /\ 0 <= GasLeft r <= give /\ len (Ret r) < 2 ^ 64).
  { eapply wp_runSub; [exact Hexe|eauto|exact Hm2|exact Hw2|exact HT2|exact Hgive|exact Hinit|done|by right|done|].
    intros r m3 Hm3 Hg3 Hgl Hret. exact (conj Hm3 (conj Hg3 (conj Hgl Hret))). }
  { intros e r m'. apply Epost_rebase; [done|lia]. }
  intros r m3 (Hm3 & Hg3 & Hgl & Hret). apply wp_bind, wp_modify.
  apply (wp_createEnd fr s0 p0 g L s); [done..| |done].
  destruct Hm3. split; try done; cbn [gas with_gas]. rewrite u64_small; lia.
Qed.

Lemma wp_opCreate fr s0 p0 g L exe create2 m :
  exe_ok (g - 1) exe -> P s0 -> A (c_Address (f_ctx fr)) -> g <= maxGas ->
  good fr s0 p0 g L m -> wp (opCreate exe fr create2) (Qcont fr s0 p0 (g - 32000)) (Epost fr s0 g) m.
Proof.
  intros Hexe HP HA Hg Hm. unfold opCreate. destruct (c_Static (f_ctx fr)) eqn:Hst; [by vm|].
  do 6 vm1. eapply wp_seq; [eapply wp_popIf; eassumption|done|].
  intros salt m1 [Hsalt Hm1]. unfold CreateGas. do 4 vm1.
  eapply wp_seq with (E1 := Epost fr s0 g) (R := fun _ mm => good fr s0 p0 (g - 32000) L' mm).
  { destruct create2; [|by vm]. vm. eapply good_mono; [eassumption|lia..]. }
  { done. }
  intros [] mc Hmc. do 2 vm1. apply wp_bind, wp_modify. pose proof (good_clearReturn _ _ _ _ _ _ Hmc) as Hmr.
  destruct (MaxCallDepth <=? f_depth fr); [vm; vdone|].
  destruct (gd_world _ _ _ _ _ _ Hmr) as (s & Hw & HT).
  eapply wp_seq with (E1 := Epost fr s0 g) (R := fun (b : bool) mm => mm = with_returnData [] mc
    /\ (b = false -> (0 <? Z.sgn v) = true -> v <= GetBalance s (c_Address (f_ctx fr)))).
  { destruct (0 <? Z.sgn v); [|vm; done].
    apply wp_bind. unfold wp at 1, theState. rewrite Hw. apply wp_mret. split; [done|].
    intros ?%Z.ltb_ge. done. }
  { done. }
  intros [] mx [-> Hbal]; [vm; vdone|].
  apply wp_bind. unfold wp at 1, theState. rewrite Hw. cbv zeta.
  set (creator := c_Address (f_ctx fr)) in *. set (s1 := SetNonce s creator _).
  set (newAddr := if create2 then _ else _).
  assert (Trans A (c_Static (f_ctx fr)) s0 s1) as HT1 by (rewrite Hst in *; eauto with vm).
  apply wp_bind, wp_modify, wp_bind, wp_gets, wp_bind, wp_modify. cbn [gas with_world with_returnData].
  pose proof (gd_gas _ _ _ _ _ _ Hmc) as Hgas. pose proof (give_bounds (2 ^ 64) (gas mc) ltac:(lia)) as Hgive.
  change (clampGas (2 ^ 64)) with (2 ^ 64 - 1) in Hgive. unfold maxGas in *.
  assert (0 <= gas mc - gas mc / 64 <= gas mc) as Hgive'.
  { destruct (Z.ltb_spec (2 ^ 64 - 1) (gas mc - gas mc / 64)); [|done].
    assert (0 <= gas mc / 64) by (apply Z.div_pos; lia). lia. }
  set (give := gas mc - gas mc / 64) in *. set (mz := with_gas _ _).
  assert (good fr s0 p0 (g - 32000) L' mz) as Hmz.
  { destruct Hmr. split; try done; cbn; [lia|]. exists s1. done. }
  destruct (negb _ || _) eqn:Ecol; [vm; vdone|].
  apply orb_false_iff in Ecol as [Hn0%negb_false_iff%Z.eqb_eq Hc0%Z.ltb_ge].
  assert (GetCode s1 newAddr = []) as Hc0' by (apply len_zero_inv; pose proof (len_nonneg (GetCode s1 newAddr)); lia).
  eapply wp_mono with (Q := Qcont fr s0 p0 (g - 32000)) (E := Epost fr s0 (g - 32000));
    [|done|intros ? ? ?; apply Epost_mono; lia].
  eapply wp_createAt with (K := g - 1) (s := s1); eauto;
    try (unfold maxGas, maxMemBytes in *; cbn; lia).
  intros Hv. split; [apply Z.ltb_lt in Hv; lia|]. unfold s1. rewrite GetBalance_SetNonce. auto.
Qed.

(** ** One opcode, one iteration, the whole run *)

Lemma exe_ok_mono K K' exe : exe_ok K exe -> K' <= K -> exe_ok K' exe.
Proof. intros He HK code input g ctx depth s Hg. apply He. lia. Qed.

(** What the construction of a frame guarantees. *)
Record wf_frame (fr : Frame) : Prop := {
  wf_code : len (f_code fr) < 2 ^ 62;
  wf_input : len (f_input fr) < 2 ^ 62;
  wf_jumps : f_jumps fr = analyseJumpdests (f_code fr);
}.

(** After an opcode: continuing costs at least one unit of gas in all. *)
Definition Qexec (fr : Frame) (s0 : S) (p0 g total : Z) : option (list byte) -> interp S -> Prop :=
  fun r m' => match r with
  | None => exists L', good fr s0 p0 (total - 1) L' m'
  | Some d => (exists L', good fr s0 p0 g L' m') /\ len d <= maxMemBytes
  end.

Lemma Qexec_none fr s0 p0 g g' total L m :
  good fr s0 p0 g' L m -> g' <= total - 1 -> Qexec fr s0 p0 g total None m.
Proof. intros Hm ?. exists L. eapply good_mono; [exact Hm|lia..]. Qed.

Lemma wp_cont fr s0 p0 g g' total c m :
  wp c (Qcont fr s0 p0 g') (Epost fr s0 g) m -> g' <= total - 1 ->
  wp (cont c) (Qexec fr s0 p0 g total) (Epost fr s0 g) m.
Proof.
  intros Hc Hg. apply wp_bind. eapply wp_mono; [exact Hc| |done].
  intros [] m' (L' & Hm'). apply wp_mret. exists L'. eapply good_mono; [exact Hm'|lia..].
Qed.

Lemma wp_exec fr s0 p0 g L exe op m :
  wf_frame fr -> A (c_Address (f_ctx fr)) -> P s0 -> exe_ok (g - 1) exe -> g <= maxGas ->
  (forall n, op = LOG n -> 0 <= n) ->
  good fr s0 p0 g L m ->
  wp (exec exe fr op) (Qexec fr s0 p0 g (g + gasCost op)) (Epost fr s0 g) m.
Proof.
  intros Hf HA HP Hexe Hg Hlog Hm. destruct Hf as [Hcode Hinput Hj]. unfold exec.
  destruct op; try (by vm);
    try (eapply wp_cont; [by eapply wp_exec_arith|cbn [gasCost]; unfold Keccak256Gas; lia]);
    try (eapply wp_cont; [by eapply wp_exec_memory|cbn [gasCost]; lia]);
    try (eapply wp_cont; [by eapply wp_exec_env|cbn [gasCost]; lia]);
    try (eapply wp_cont; [by eapply wp_exec_copy|cbn [gasCost]; lia]);
    try (eapply wp_cont; [by eapply wp_exec_state|cbn [gasCost]; unfold SloadGas; lia]).
  - eapply wp_cont; [by eapply wp_SSTORE|cbn [gasCost]; lia].
  - do 2 vm1. eapply wp_cont; [by eapply wp_jump|cbn [gasCost]; lia].
  - vm; [eapply wp_cont; [by eapply wp_jump|cbn [gasCost]; lia]|].
    eapply Qexec_none; [eassumption|cbn [gasCost]; lia].
  - vm. eapply Qexec_none; [eassumption|cbn [gasCost]; lia].
  - eapply wp_cont; [eapply wp_opLog; eauto|cbn [gasCost]; lia].
  - eapply wp_cont; [eapply wp_opCreate; eauto|cbn [gasCost]; lia].
  - eapply wp_cont; [eapply wp_opCall; eauto|cbn [gasCost]; lia].
  - apply wp_bind. eapply wp_mono; [by eapply wp_readMem| |done]. intros d m' (L' & Hm' & Hd). split; eauto.
  - eapply wp_cont; [eapply wp_opCall; eauto|cbn [gasCost]; lia].
  - eapply wp_cont; [eapply wp_opCreate; eauto|cbn [gasCost]; lia].
  - eapply wp_cont; [eapply wp_opCall; eauto|cbn [gasCost]; lia].
  - apply wp_bind. eapply wp_mono; [by eapply wp_readMem| |done]. intros d m' (L' & Hm' & Hd).
    unfold wp. eapply good_fail; [exact Hm'|lia|done].
Qed.

(** Between two iterations of the loop. *)
Record minv (fr : Frame) (s0 : S) (g : Z) (m : interp S) : Prop := {
  mi_stack : stack_ok (stack m);
  mi_mem : len (mem m) <= maxMemBytes;
  mi_ret : len (returnData m) < 2 ^ 64;
  mi_gas : 0 <= gas m <= g;
  mi_jumped : jumped m = false;
  mi_pc : insn_start (f_code fr) (pc m);
  mi_world : exists s, world m = Some s /\ Trans A (c_Static (f_ctx fr)) s0 s;
}.

Lemma minv_good fr s0 g m : minv fr s0 g m -> good fr s0 (pc m) g 0 m.
Proof. intros []. split; auto. pose proof (len_nonneg (mem m)). lia. Qed.

Lemma good_minv fr s0 p0 g L m :
  good fr s0 p0 g L m -> jumped m = false -> insn_start (f_code fr) (pc m) -> minv fr s0 g m.
Proof. intros [] ? ?. split; auto. lia. Qed.

Lemma len_lookup {X} (l : list X) p c : 0 <= p -> l !! Z.to_nat p = Some c -> p < len l.
Proof. intros Hp Hc%lookup_lt_Some. unfold len. lia. Qed.

Lemma wp_incPc fr s0 p0 g g' L c m :
  wf_frame fr -> insn_start (f_code fr) p0 -> f_code fr !! Z.to_nat p0 = Some c -> isPush (decode c) = None ->
  good fr s0 p0 g L m -> jumped m = false ->
  wp (incPc;; mret None) (fun r m' => r = @None (list byte) /\ minv fr s0 g m') (Epost fr s0 g') m.
Proof.
  intros Hf Hp Hc Hpush Hm Ej. pose proof (insn_start_nonneg _ _ Hp).
  pose proof (len_lookup (f_code fr) p0 c ltac:(lia) Hc). pose proof (wf_code _ Hf).
  destruct (gd_pc _ _ _ _ _ _ Hm) as [[_ Ep]|[Ej' _]]; [|congruence].
  apply wp_bind, wp_modify, wp_mret. split; [done|].
  eapply good_minv with (p0 := u64 (pc m + 1)) (L := L); cbn [jumped pc with_pc]; [|done|].
  - destruct Hm. split; try done. by left.
  - rewrite Ep, u64_small by lia. pose proof (IS_next _ _ _ Hp Hc) as Hn. rewrite Hpush in Hn.
    by rewrite Z.add_0_r in Hn.
Qed.

(** The end of an iteration: a jump lands on a JUMPDEST, anything else moves past the opcode. *)
Lemma wp_advance fr s0 p0 g g' L c m :
  wf_frame fr -> insn_start (f_code fr) p0 -> f_code fr !! Z.to_nat p0 = Some c -> isPush (decode c) = None ->
  good fr s0 p0 g L m ->
  wp (let! j := gets jumped in
      if j : bool then modify (with_jumped false);; mret None
      else incPc;; mret None)
    (fun r m' => r = @None (list byte) /\ minv fr s0 g m') (Epost fr s0 g') m.
Proof.
  intros Hf Hp Hc Hpush Hm. apply wp_bind, wp_gets. destruct (jumped m) eqn:Ej; [|by eapply wp_incPc].
  destruct (gd_pc _ _ _ _ _ _ Hm) as [[Ej' _]|(_ & Hpos & Hj)]; [congruence|].
  apply wp_bind, wp_modify, wp_mret. split; [done|].
  eapply good_minv with (p0 := pc m) (L := L); cbn [jumped pc with_jumped]; [|done|].
  - destruct Hm. split; try done. by left.
  - rewrite (wf_jumps _ Hf), analyseJumpdests_spec in Hj by done. by destruct Hj.
Qed.

Lemma stack_dup_ok st n : 1 <= n -> stack_ok st -> stack_dup st n <> Panic /\ forall st', stack_dup st n = Ok st' -> stack_ok st'.
Proof.
  intros Hn Hst. unfold stack_dup, stack_peek. destruct (Z.leb_spec (len st) (n - 1)); [done|].
  destruct (lookup_lt_is_Some_2 st (Z.to_nat (n - 1))) as [v ->]; [unfold len in *; lia|]. cbn [or_panic res_bind].
  split; [unfold stack_push; by case_match|]. intros st'. by apply stack_push_ok.
Qed.

Lemma stack_swap_ok st n : 1 <= n -> stack_ok st -> stack_swap st n <> Panic /\ forall st', stack_swap st n = Ok st' -> stack_ok st'.
Proof.
  intros Hn [Hl Hf]. unfold stack_swap. destruct (Z.leb_spec (len st) n); [done|].
  destruct (lookup_lt_is_Some_2 st 0%nat) as [t Ht]; [unfold len in *; lia|].
  destruct (lookup_lt_is_Some_2 st (Z.to_nat n)) as [v Hv]; [unfold len in *; lia|].
  rewrite Ht, Hv. cbn [or_panic res_bind]. split; [done|]. intros st' [= <-].
  split; [unfold len in *; by rewrite !length_insert|].
  apply Forall_insert; [apply Forall_insert; [done|]|]; by eapply Forall_lookup_1.
Qed.

Lemma wp_liftStack fr s0 p0 g L f Q m :
  good fr s0 p0 g L m -> f (stack m) <> Panic -> (forall st, f (stack m) = Ok st -> stack_ok st) ->
  (forall m', good fr s0 p0 g L m' -> jumped m' = jumped m -> Q tt m') ->
  wp (liftStack f) Q (Epost fr s0 g) m.
Proof.
  intros Hm Hp Hok HQ. unfold liftStack. apply wp_bind, wp_gets, wp_bind. unfold wp, lift.
  destruct (f (stack m)) as [st|e|] eqn:E; [|by eapply good_fail|done].
  apply HQ; [|done]. destruct Hm. split; try done. by apply Hok.
Qed.

Lemma decode_ranges c :
  match decode c with
  | PUSH n => 1 <= n <= 32
  | DUP n | SWAP n => 1 <= n <= 16
  | LOG n => 0 <= n <= 4
  | _ => True
  end.
Proof.
  unfold decode.
  destruct (_ && _) eqn:E1; [apply andb_true_iff in E1 as [?%Z.leb_le ?%Z.leb_le]; lia|].
  destruct (_ && _) eqn:E2 in |- *; [apply andb_true_iff in E2 as [?%Z.leb_le ?%Z.leb_le]; lia|].
  destruct (_ && _) eqn:E3 in |- *; [apply andb_true_iff in E3 as [?%Z.leb_le ?%Z.leb_le]; lia|].
  destruct (_ && _) eqn:E4 in |- *; [apply andb_true_iff in E4 as [?%Z.leb_le ?%Z.leb_le]; lia|].
  by destruct c.
Qed.

(** One iteration: it ends the frame, or continues with at least one unit of gas less. *)
Definition Qstep (fr : Frame) (s0 : S) (g : Z) : option (list byte) -> interp S -> Prop :=
  fun r m' => match r with
  | None => minv fr s0 (g - 1) m'
  | Some d => final fr s0 g d m'
  end.

Lemma minv_mono fr s0 g g' m : minv fr s0 g m -> g <= g' -> minv fr s0 g' m.
Proof. intros [] ?. split; auto. lia. Qed.

Lemma wp_doPush fr s0 g n c m :
  wf_frame fr -> minv fr s0 g m -> f_code fr !! Z.to_nat (pc m) = Some c -> isPush (decode c) = Some n ->
  wp (doPush fr n;; mret None) (fun r m' => r = @None (list byte) /\ minv fr s0 g m') (Epost fr s0 g) m.
Proof.
  intros Hf Hm Hc Hn. pose proof (isPush_range _ _ Hn). pose proof (mi_pc _ _ _ _ Hm) as Hp.
  pose proof (insn_start_nonneg _ _ Hp). pose proof (len_lookup (f_code fr) (pc m) c ltac:(lia) Hc).
  pose proof (wf_code _ Hf). pose proof (IS_next _ _ _ Hp Hc) as Hnext. rewrite Hn in Hnext. simpl in Hnext.
  unfold doPush. apply wp_bind, wp_bind, wp_gets, wp_bind, wp_modify.
  rewrite (u64_small (pc m + 1)), u64_small by lia.
  assert (good fr s0 (pc m + 1 + n) g 0 (with_pc (pc m + 1 + n) m)) as Hg.
  { apply minv_good in Hm as Hg0. destruct Hg0. split; try done. left. split; [apply Hm|done]. }
  eapply wp_push; [|exact Hg|]; [lia|]. intros m' Hm' Ej Ep. apply wp_mret. split; [done|].
  eapply good_minv; [exact Hm'|rewrite Ej; apply Hm|rewrite Ep; exact Hnext].
Qed.

Lemma wp_useGas_minv fr s0 g cost Q m :
  minv fr s0 g m -> 0 <= cost ->
  (minv fr s0 (g - cost) (with_gas (gas m - cost) m) -> Q tt (with_gas (gas m - cost) m)) ->
  wp (useGas cost) Q (Epost fr s0 g) m.
Proof.
  intros Hm Hc HQ. unfold wp, useGas. destruct (Z.ltb_spec (gas m) cost).
  - destruct Hm. split_and!; simpl; try done; lia.
  - apply HQ. destruct Hm. split; simpl; auto with lia.
Qed.

Lemma gasCost_nonneg op : 0 <= gasCost op.
Proof. destruct op; cbn [gasCost]; unfold Keccak256Gas, SloadGas; lia. Qed.

(** The opcodes that reach [exec], after their static gas. *)
Lemma wp_execStep fr s0 g total exe c m :
  wf_frame fr -> A (c_Address (f_ctx fr)) -> P s0 -> exe_ok (total - 1) exe -> total <= maxGas -> g + gasCost (decode c) = total ->
  minv fr s0 g m -> f_code fr !! Z.to_nat (pc m) = Some c -> isPush (decode c) = None ->
  wp (let! r := exec exe fr (decode c) in
      match r with
      | Some ret => mret (Some ret)
      | None =>
          let! j := gets jumped in
          if j : bool then modify (with_jumped false);; mret None
          else incPc;; mret None
      end) (Qstep fr s0 total) (Epost fr s0 total) m.
Proof.
  intros Hf HA HP Hexe Hg Htot Hm Hc Hpush. pose proof (gasCost_nonneg (decode c)). pose proof (decode_ranges c) as Hr.
  eapply wp_seq with (E1 := Epost fr s0 g); [eapply wp_exec| |].
  - done.
  - done.
  - done.
  - eapply exe_ok_mono; [exact Hexe|lia].
  - lia.
  - intros n E. rewrite E in Hr. lia.
  - by apply minv_good.
  - intros e r m'. apply Epost_mono. lia.
  - intros [d|] m'; cbn [Qexec].
    + intros [(L' & Hm') Hd]. apply wp_mret. eapply good_fail with (e := ErrReverted); [exact Hm'|lia|done].
    + rewrite Htot. intros (L' & Hm').
      eapply wp_mono; [eapply wp_advance; [done|apply Hm|done|done|exact Hm']| |done].
      intros r m2 [-> Hm2]. exact Hm2.
Qed.

Lemma wp_stackStep fr s0 g total f c m :
  wf_frame fr -> g <= total - 1 -> minv fr s0 g m -> f_code fr !! Z.to_nat (pc m) = Some c ->
  isPush (decode c) = None ->
  f (stack m) <> Panic -> (forall st, f (stack m) = Ok st -> stack_ok st) ->
  wp (liftStack f;; incPc;; mret None) (Qstep fr s0 total) (Epost fr s0 total) m.
Proof.
  intros Hf Hg Hm Hc Hpush Hp Hok. apply minv_good in Hm as Hgood. apply wp_bind.
  eapply wp_mono with (E := Epost fr s0 g) (Q := fun _ m' => good fr s0 (pc m) g 0 m' /\ jumped m' = jumped m);
    [eapply wp_liftStack; eauto| |intros ? ? ?; apply Epost_mono; lia].
  - intros [] m' [Hm' Ej]. eapply wp_mono; [eapply wp_incPc; [done|apply Hm|done|done|exact Hm'|]| |done].
    + rewrite Ej. apply Hm.
    + intros r m2 [-> Hm2]. cbn [Qstep]. eapply minv_mono; [exact Hm2|lia].
Qed.

Lemma wp_step fr s0 g exe c m :
  wf_frame fr -> A (c_Address (f_ctx fr)) -> P s0 -> exe_ok (g - 1) exe -> g <= maxGas ->
  minv fr s0 g m -> f_code fr !! Z.to_nat (pc m) = Some c ->
  wp (step exe fr c) (Qstep fr s0 g) (Epost fr s0 g) m.
Proof.
  intros Hf HA HP Hexe Hg Hm Hc. unfold step. pose proof (decode_ranges c) as Hr.
  apply wp_bind. eapply wp_useGas_minv; [exact Hm|apply gasCost_nonneg|]. intros Hm1.
  set (m1 := with_gas _ m) in *. assert (f_code fr !! Z.to_nat (pc m1) = Some c) as Hc1 by done.
  pose proof (wp_execStep fr s0 (g - gasCost (decode c)) g exe c m1 Hf HA HP Hexe Hg ltac:(lia) Hm1 Hc1) as Hx.
  destruct (decode c) eqn:Eop; try (by apply Hx).
  - eapply wp_mono with (E := Epost fr s0 (g - 3)); [eapply wp_doPush; [done|exact Hm1|done|by rewrite Eop]| |].
    + intros r m2 [-> Hm2]. cbn [Qstep gasCost] in *. eapply minv_mono; [exact Hm2|lia].
    + intros ? ? ?. apply Epost_mono. lia.
  - destruct (stack_dup_ok (stack m1) n) as [? ?]; [lia|apply Hm1|].
    eapply wp_stackStep; [done| |exact Hm1|done|by rewrite Eop|done|done]. cbn [gasCost]. lia.
  - destruct (stack_swap_ok (stack m1) n) as [? ?]; [lia|apply Hm1|].
    eapply wp_stackStep; [done| |exact Hm1|done|by rewrite Eop|done|done]. cbn [gasCost]. lia.
Qed.

(** ** Runs and executions *)

Lemma minv_init fr s g : 0 <= g -> minv fr s g (initInterp g (Some s)).
Proof.
  intros Hg. split; cbn; [split; [done|constructor]|done|done|lia|done|constructor|].
  exists s. eauto with vm.
Qed.

(** A sub-execution whose [run] meets its specification meets the caller's. *)
Lemma execute_with_ok K (runf : Frame -> M S (list byte)) :
  (forall fr s g m, wf_frame fr -> f_code fr = [] \/ A (c_Address (f_ctx fr)) -> P s -> g <= K -> minv fr s g m ->
    wp (runf fr) (final fr s g) (Epost fr s g) m) ->
  exe_ok K (execute_with runf).
Proof.
  intros Hrun code input g ctx depth s Hg Hc Hi Hact HP. unfold execute_with.
  set (fr := mkFrame _ _ _ _ _). set (m := initInterp g (Some s)).
  assert (wf_frame fr) as Hf by (by split).
  specialize (Hrun fr s g m Hf Hact HP ltac:(lia) (minv_init fr s g ltac:(lia))). unfold wp in Hrun.
  assert (forall e m', Epost fr s g e [] m' -> exists s', world m' = Some s' /\ Trans A (c_Static ctx) s s'
    /\ 0 <= gas m' <= g) as Hpost.
  { intros e m' ((s' & Hw & HT) & Hgas & _). eauto. }
  unfold maxMemBytes in *. destruct (runf fr m) as [ret m'|e ret m'| |]; [..|done|done].
  - destruct Hrun as ((s' & Hw & HT) & Hgas & Hret). rewrite Hw. eexists _, s'. unfold maxMemBytes in Hret.
    split; [reflexivity|]. cbn [GasLeft Ret]. split_and!; [done|lia..].
  - destruct Hrun as ((s' & Hw & HT) & Hgas & Hret). rewrite Hw. unfold maxMemBytes in Hret.
    destruct e; (eexists _, s'; split; [reflexivity|]; cbn [GasLeft Ret]; split_and!; try done; lia).
Qed.

(** Every run halts within [gas + 1] units of fuel, without a panic, along [Trans]. *)
Lemma run_ok fuel fr s0 g m :
  wf_frame fr -> f_code fr = [] \/ A (c_Address (f_ctx fr)) -> P s0 -> g <= maxGas -> g < Z.of_nat fuel ->
  minv fr s0 g m -> wp (run fuel fr) (final fr s0 g) (Epost fr s0 g) m.
Proof.
  revert fr s0 g m. induction fuel as [|k IH]; intros fr s0 g m Hf Hact HP Hg Hfuel Hm.
  { pose proof (mi_gas _ _ _ _ Hm). lia. }
  unfold wp. cbn [run]. destruct (f_code fr !! Z.to_nat (pc m)) as [c|] eqn:Hc.
  2: { destruct Hm. split_and!; [done|lia|lia|done]. }
  assert (A (c_Address (f_ctx fr))) as HA by (destruct Hact as [E|]; [by rewrite E in Hc|done]).
  change (wp (let! r := step (execute_with (run k)) fr c in
              match r with Some ret => mret ret | None => run k fr end) (final fr s0 g) (Epost fr s0 g) m).
  eapply wp_seq; [eapply wp_step; [done..| |done|exact Hm|done]|done|].
  - apply execute_with_ok. intros fr' s g' m' Hf' Hact' HP' Hg' Hm'. apply IH; try done; unfold maxGas in *; lia.
  - intros [d|] m'; cbn [Qstep]; [intros Hfin; by apply wp_mret|]. intros Hm'.
    eapply wp_mono; [apply (IH fr s0 (g - 1)); try done; lia|..].
    + intros ret m2 (? & ? & ?). split_and!; [done|lia|lia|done].
    + intros e r m2. apply Epost_mono. lia.
Qed.

Lemma execute_ok fuel K : K <= maxGas -> K < Z.of_nat fuel -> exe_ok K (execute fuel).
Proof.
  intros HK Hf. apply execute_with_ok. intros fr s g m Hwf Hact HP Hg Hm. apply run_ok; try done; lia.
Qed.

Lemma Run_ok code input g ctx s :
  0 <= g <= maxGas -> len code < 2 ^ 62 -> len input < 2 ^ 62 -> code = [] \/ A (c_Address ctx) -> P s ->
  exists r s', Run code input g ctx (Some s) = Ran r (Some s')
    /\ Trans A (c_Static ctx) s s' /\ 0 <= GasLeft r <= g /\ len (Ret r) < 2 ^ 64.
Proof.
  intros Hg Hc Hi Hact HP. unfold Run. apply (execute_ok (fuelFor g) g); try done; unfold fuelFor; lia.
Qed.

End Run.
