(* ===== verification/VmProps.v ===== *)
(** * Theorems about the interpreter's parts: words, memory, jumps, precompiles *)
From stdpp Require Import base numbers list gmap.
From Stdlib Require Import ZArith Lia Strings.Byte.
From S2P Require Import Prelude Common Types VmBase Precompiles Vm VmProofs.
#[local] Open Scope Z_scope.
#[local] Open Scope list_scope.

(** ** Helpers *)

(** Reading a field that lies within the data. *)
Lemma getData_field pre field post off :
  off = len pre -> len (pre ++ field ++ post) < 2 ^ 62 -> getData (pre ++ field ++ post) off (len field) = Some field.
Proof.
  intros -> Hl. rewrite !len_app in Hl. pose proof (len_nonneg pre). pose proof (len_nonneg field).
  pose proof (len_nonneg post). unfold getData.
  destruct (Z.eqb_spec (len field) 0) as [E|E].
  { cbn [orb]. rewrite E. destruct field; [done|]. rewrite len_cons in E. pose proof (len_nonneg field). lia. }
  unfold IsUint64, Uint64. destruct (Z.leb_spec 0 (len pre)), (Z.ltb_spec (len pre) (2 ^ 64)); try lia. cbn [andb negb orb].
  rewrite Z.abs_eq, Z.mod_small, !len_app by lia. destruct (Z.leb_spec (len pre + (len field + len post)) (len pre)); [lia|].
  rewrite u64_small by lia. destruct (Z.ltb_spec (len pre + len field) (len pre)); [lia|]. f_equal. unfold padded.
  replace (Z.to_nat (len pre)) with (length pre) by (unfold len; lia).
  replace (Z.to_nat (len field)) with (length field) by (unfold len; lia).
  rewrite drop_app_length, take_app_length, Z.sub_diag. unfold zeros. cbn. apply app_nil_r.
Qed.

(** The MODEXP input: three 32-byte lengths, then the three numbers. *)
Definition modexpInput (base exp md : list byte) : list byte :=
  be_fixed 32 (len base) ++ be_fixed 32 (len exp) ++ be_fixed 32 (len md) ++ base ++ exp ++ md.

Lemma modexpInput_header base exp md :
  len base + len exp + len md < 2 ^ 61 -> modexpHeader (modexpInput base exp md) = Ok (len base, len exp, len md).
Proof.
  intros Hl. pose proof (len_nonneg base). pose proof (len_nonneg exp). pose proof (len_nonneg md).
  assert (len (modexpInput base exp md) < 2 ^ 62) as Hi.
  { unfold modexpInput. rewrite !len_app, !len_be_fixed. lia. }
  unfold modexpHeader, modexpInput in *. set (B := be_fixed 32 (len base)) in *. set (E := be_fixed 32 (len exp)) in *.
  set (M := be_fixed 32 (len md)) in *.
  assert (len B = 32 /\ len E = 32 /\ len M = 32) as (HB & HE & HM) by (unfold B, E, M; by rewrite !len_be_fixed).
  pose proof (getData_field [] B (E ++ M ++ base ++ exp ++ md) 0 eq_refl Hi) as G1. rewrite HB in G1. cbn [app] in G1.
  pose proof (getData_field B E (M ++ base ++ exp ++ md) 32 (eq_sym HB) Hi) as G2. rewrite HE in G2.
  pose proof (getData_field (B ++ E) M (base ++ exp ++ md) 64) as G3. rewrite len_app, HB, HE, HM, <- app_assoc in G3.
  rewrite G1, G2, G3 by done. cbn [or_panic res_bind]. unfold B, E, M.
  rewrite !be2z_be_fixed, !Z.mod_small by (change (256 ^ Z.of_nat 32) with (2 ^ 256); lia). done.
Qed.

(** ** Concrete instances of the external libraries *)

#[local] Existing Instance toyCrypto.

#[local] Instance toyBn256 : Bn256 := {|
  G1 := unit; G2 := unit;
  G1_Unmarshal := fun _ => None;
  G2_Unmarshal := fun _ => None;
  G1_Add := fun _ _ => tt;
  G1_ScalarMult := fun _ _ => tt;
  G1_Marshal := fun _ => array_of 64 [];
  PairingCheck := fun _ _ => true;
|}.

(** ** Properties *)

(** The arithmetic opcodes compute on 256-bit words: addition, subtraction, multiplication and
    exponentiation modulo 2^256, division and remainder with zero for a zero divisor, shifts; SDIV,
    SMOD and SAR on the signed reading (truncating division, the one overflow -2^255 / -1 wrapping
    back, arithmetic shift rounding down). *)
Theorem arithmetic_spec a b :
  is_word a -> is_word b ->
  (wrap (binop_word ADD a b) = (a + b) mod tt256 /\
   wrap (binop_word SUB a b) = (a - b) mod tt256 /\
   wrap (binop_word MUL a b) = (a * b) mod tt256 /\
   wrap (binop_word DIV a b) = (if b =? 0 then 0 else a / b) /\
   wrap (binop_word MOD a b) = (if b =? 0 then 0 else a mod b) /\
   wrap (binop_word EXP a b) = a ^ b mod tt256 /\
   wrap (binop_word SHL a b) = (if 256 <=? a then 0 else b * 2 ^ a mod tt256) /\
   wrap (binop_word SHR a b) = (if 256 <=? a then 0 else b / 2 ^ a)) /\
  toSigned (wrap (binop_word SDIV a b)) =
    (if toSigned b =? 0 then 0
     else if (toSigned a =? - 2 ^ 255) && (toSigned b =? -1) then - 2 ^ 255
     else Z.quot (toSigned a) (toSigned b)) /\
  toSigned (wrap (binop_word SMOD a b)) = (if toSigned b =? 0 then 0 else Z.rem (toSigned a) (toSigned b)) /\
  toSigned (wrap (binop_word SAR a b)) = toSigned b / 2 ^ Z.min a 256.
Proof. intros Ha Hb. split; [by apply unsigned_spec|]. split_and!; [by apply SDIV_spec|by apply SMOD_spec|by apply SAR_spec]. Qed.

Lemma arithmetic_spec_witness :
  let a := 2 ^ 256 - 7 in let b := 2 in
  wrap (binop_word ADD a b) = (a + b) mod tt256
  /\ toSigned (wrap (binop_word SDIV a b)) = -3 /\ toSigned (wrap (binop_word SMOD a b)) = -1.
Proof.
  destruct (arithmetic_spec (2 ^ 256 - 7) 2) as ((HA & _) & HD & HM & _); [unfold is_word, tt256; lia..|].
  split_and!; [exact HA|etransitivity; [exact HD|vm_compute; reflexivity]|etransitivity; [exact HM|vm_compute; reflexivity]].
Defined.

(** Memory is priced exactly and without overflow: an access to [size] bytes at [off] costs the
    difference of the quadratic price before and after the growth to whole words, nothing for an
    empty access, and is refused beyond the 4 GiB cap, at any 64-bit offset and size. *)
Theorem expansionGas_exact m off size :
  len m <= maxMemBytes -> 0 <= off < 2 ^ 64 -> 0 <= size < 2 ^ 64 ->
  expansionGas m off size =
    if size =? 0 then Some 0
    else if maxMemBytes <? off + size then None
    else Some (Z.max 0 (memPrice (wordsFor (off + size)) - memPrice (wordsFor (len m)))).
Proof. apply expansionGas_exact_lemma. Qed.

Lemma expansionGas_exact_witness :
  expansionGas [] (2 ^ 64 - 1) 2 = None /\ expansionGas [] 64 32 = Some (memPrice 3).
Proof.
  split.
  - etransitivity; [apply (expansionGas_exact [] (2 ^ 64 - 1) 2); [vm_compute; congruence|lia|lia]|vm_compute; reflexivity].
  - etransitivity; [apply (expansionGas_exact [] 64 32); [vm_compute; congruence|lia|lia]|vm_compute; reflexivity].
Defined.

(** The jump-destination analysis is exact: a position is a valid target exactly when an
    instruction starts there (so not inside push data) and that instruction is JUMPDEST. *)
Theorem jumpdests_exact code p :
  0 <= p ->
  analyseJumpdests code !! Z.to_nat p = Some true <->
  insn_start code p /\ exists c, code !! Z.to_nat p = Some c /\ decode c = JUMPDEST.
Proof. apply analyseJumpdests_spec. Qed.

(** PUSH1 0x5b; JUMPDEST: position 1 is data, position 2 a target. *)
Lemma jumpdests_exact_witness :
  insn_start [x60; x5b; x5b] 2 /\ (exists c, [x60; x5b; x5b] !! Z.to_nat 2 = Some c /\ decode c = JUMPDEST)
  /\ ~ insn_start [x60; x5b; x5b] 1.
Proof.
  destruct (proj1 (jumpdests_exact [x60; x5b; x5b] 2 ltac:(lia)) eq_refl) as [H1 H2]. split_and!; [exact H1|exact H2|].
  intros HS. assert (analyseJumpdests [x60; x5b; x5b] !! Z.to_nat 1 = Some true) as E; [|discriminate E].
  apply (jumpdests_exact [x60; x5b; x5b] 1 ltac:(lia)). split; [exact HS|]. exists x5b. split; reflexivity.
Defined.

(** The MODEXP precompile computes modular exponentiation: on the standard input (three lengths,
    then base, exponent and modulus of any sizes) it returns base^exponent mod modulus in exactly as
    many bytes as the modulus has, and zeros for a zero modulus. *)
Theorem modexp_exact base exp md :
  len base + len exp + len md < 2 ^ 61 ->
  modexpRun (modexpInput base exp md)
  = Ok (if be2z md =? 0 then zeros (len md) else be_fixed (length md) (be2z base ^ be2z exp mod be2z md)).
Proof.
  intros Hl. unfold modexpRun. rewrite modexpInput_header by done. cbn [res_bind].
  pose proof (len_nonneg base). pose proof (len_nonneg exp). pose proof (len_nonneg md).
  unfold Uint64. rewrite !Z.abs_eq, !Z.mod_small by lia.
  destruct (Z.eqb_spec (len md) 0) as [E|E].
  { destruct md as [|x md]; [done|]. rewrite len_cons in E. pose proof (len_nonneg md). lia. }
  assert (len (modexpInput base exp md) < 2 ^ 62) as Hi.
  { unfold modexpInput. rewrite !len_app, !len_be_fixed. lia. }
  set (H3 := be_fixed 32 (len base) ++ be_fixed 32 (len exp) ++ be_fixed 32 (len md)).
  assert (len H3 = 96) as E3 by (unfold H3; by rewrite !len_app, !len_be_fixed).
  assert (modexpInput base exp md = H3 ++ base ++ exp ++ md) as Ei by (unfold modexpInput, H3; by rewrite <- !app_assoc).
  rewrite Ei in *. rewrite (getData_field H3 base (exp ++ md) 96) by done.
  pose proof (getData_field (H3 ++ base) exp md (96 + len base)) as G2. rewrite len_app, <- app_assoc, E3 in G2.
  rewrite G2 by done. cbn [or_panic res_bind].
  pose proof (getData_field (H3 ++ base ++ exp) md [] (96 + len base + len exp)) as G3.
  rewrite app_nil_r, <- !app_assoc in G3. rewrite G3; [|rewrite !len_app; lia|done]. cbn [or_panic res_bind].
  pose proof (be2z_range md) as Hm. pose proof (be2z_range exp).
  destruct (Z.eqb_spec (be2z md) 0) as [->|Hz]; [done|].
  destruct (Z.eqb_spec (Z.sgn (be2z md)) 0); [lia|]. rewrite big_Exp_spec by lia. f_equal. f_equal. unfold len. lia.
Qed.

(** 3^5 mod 7 = 5, in two bytes. *)
Lemma modexp_exact_witness : modexpRun (modexpInput [x03] [x05] [x00; x07]) = Ok [x00; x05].
Proof. etransitivity; [apply (modexp_exact [x03] [x05] [x00; x07]); vm_compute; reflexivity|vm_compute; reflexivity]. Defined.

(** No precompile panics, whatever its input: within 2^60 gas it returns, has used at most its gas,
    and a failure is an error value. *)
Theorem runPrecompile_safe `{Crypto} `{Bn256} p input gas :
  len input < 2 ^ 62 -> 0 <= gas <= 2 ^ 60 ->
  exists r, runPrecompile p input gas = Ok r /\ 0 <= GasLeft r <= gas /\ len (Ret r) < 2 ^ 64.
Proof. apply runPrecompile_ok. Qed.

Lemma runPrecompile_safe_witness :
  exists r, runPrecompile sha256Precompile [x61] 100 = Ok r /\ 0 <= GasLeft r <= 100 /\ len (Ret r) < 2 ^ 64.
Proof. apply (runPrecompile_safe sha256Precompile [x61] 100); [vm_compute; reflexivity|lia]. Defined.

(** The hash precompiles written out in the repository meet published test vectors: SHA-256 of
    the empty string and of abc, RIPEMD-160 of the empty string, of abc and of the text message
    digest. *)
Theorem hash_vectors :
  let ascii l := map z2b l in
  sha256_Sum256 (ascii [97; 98; 99])
    = be_fixed 32 0xba7816bf8f01cfea414140de5dae2223b00361a396177a9cb410ff61f20015ad
  /\ sha256_Sum256 []
    = be_fixed 32 0xe3b0c44298fc1c149afbf4c8996fb92427ae41e4649b934ca495991b7852b855
  /\ ripemd160 [] = be_fixed 20 0x9c1185a5c5e9fc54612808977ee8f548b2258d31
  /\ ripemd160 (ascii [97; 98; 99]) = be_fixed 20 0x8eb208f7e05d987a9b044a8e98c6b087f15a0bfc
  /\ ripemd160 (ascii [109; 101; 115; 115; 97; 103; 101; 32; 100; 105; 103; 101; 115; 116])
    = be_fixed 20 0x5d0689ef49d2fae572b881b123a85ffa21595f36.
Proof. vm_compute. repeat split. Qed.

(** Seven zero words, then CALL. *)
Definition callNothing : list byte := concat (replicate 7 [x60; x00]) ++ [xf1].

(** Without a state, SLOAD is an error value, but CALL dereferences it and panics. *)
Theorem nil_state_call_panics `{Crypto} `{Bn256} `{StateDB St} (ctx : Context) :
  Run callNothing [] 100000 ctx (None : option St) = Crashed
  /\ exists r, Run [x60; x00; x54] [] 100000 ctx (None : option St) = Ran r None /\ r_Err r = Some ErrNoState.
Proof.
  split; [vm_compute; reflexivity|]. eexists. split; [vm_compute; reflexivity|reflexivity].
Qed.
