(* ===== verification/VmSim.v ===== *)
(** * The interpreter sees its world only through [StateDB]

    A relation between two worlds that every operation of the interface
    respects ([StateDBSim]) is respected by a whole run: the results are equal
    and the final worlds related ([Run_sim]).  The proof is one lemma per
    primitive of the monad and one tactic that walks the opcodes. *)
From stdpp Require Import base numbers list option.
From Stdlib Require Import ZArith Lia Strings.Byte.
From S2P Require Import Prelude Common Rlp Types VmBase Precompiles Vm.
#[local] Open Scope Z_scope.
#[local] Open Scope list_scope.

Class StateDBSim {S1 S2 : Type} `{!StateDB S1} `{!StateDB S2} (R : S1 -> S2 -> Prop) : Prop := {
  sim_GetStorage s t a k : R s t -> GetStorage s a k = GetStorage t a k;
  sim_GetCode s t a : R s t -> GetCode s a = GetCode t a;
  sim_GetNonce s t a : R s t -> GetNonce s a = GetNonce t a;
  sim_GetBalance s t a : R s t -> GetBalance s a = GetBalance t a;
  sim_SetStorage s t a k v : R s t -> R (SetStorage s a k v) (SetStorage t a k v);
  sim_SetCode s t a c : R s t -> R (SetCode s a c) (SetCode t a c);
  sim_SetNonce s t a n : R s t -> R (SetNonce s a n) (SetNonce t a n);
  sim_AddBalance s t a v : R s t -> R (AddBalance s a v) (AddBalance t a v);
  sim_SubBalance s t a v : R s t -> R (SubBalance s a v) (SubBalance t a v);
  sim_AddLog s t l : R s t -> R (AddLog s l) (AddLog t l);
  sim_Snapshot s t : R s t -> fst (Snapshot s) = fst (Snapshot t) /\ R (snd (Snapshot s)) (snd (Snapshot t));
  sim_Revert s t i : R s t -> R (RevertToSnapshot s i) (RevertToSnapshot t i);
}.

Section Sim.
Context {S1 S2 : Type} `{!StateDB S1} `{!StateDB S2} (R : S1 -> S2 -> Prop) `{!StateDBSim R}.
Context `{Crypto} `{Bn256}.

Record isim (m : interp S1) (n : interp S2) : Prop := {
  is_stack : stack m = stack n;
  is_mem : mem m = mem n;
  is_pc : pc m = pc n;
  is_gas : gas m = gas n;
  is_jumped : jumped m = jumped n;
  is_returnData : returnData m = returnData n;
  is_world : option_Forall2 R (world m) (world n);
}.

Definition osim {A B} (RA : A -> B -> Prop) (o : outcome S1 A) (p : outcome S2 B) : Prop :=
  match o, p with
  | Done a m, Done b n => RA a b /\ isim m n
  | Fail e r m, Fail f q n => e = f /\ r = q /\ isim m n
  | Crash, Crash => True
  | Diverge, Diverge => True
  | _, _ => False
  end.

Definition msim {A B} (RA : A -> B -> Prop) (c : M S1 A) (d : M S2 B) : Prop :=
  forall m n, isim m n -> osim RA (c m) (d n).

Definition xsim (x : exres S1) (y : exres S2) : Prop :=
  match x, y with
  | Ran r w, Ran q v => r = q /\ option_Forall2 R w v
  | Crashed, Crashed => True
  | NoFuel, NoFuel => True
  | _, _ => False
  end.

Definition esim (e : @Exec S1) (f : @Exec S2) : Prop :=
  forall code input g ctx depth w v, option_Forall2 R w v ->
    xsim (e code input g ctx depth w) (f code input g ctx depth v).

(** ** Primitives *)

Lemma msim_bind {A B A' B'} (RA : A -> A' -> Prop) (RB : B -> B' -> Prop) c d k l :
  msim RA c d -> (forall a b, RA a b -> msim RB (k a) (l b)) -> msim RB (M_bind c k) (M_bind d l).
Proof.
  intros Hc Hk m n Hm. specialize (Hc m n Hm). unfold M_bind, osim in *.
  destruct (c m), (d n); try done. destruct Hc as [Ha Hi]. by apply Hk.
Qed.

Lemma msim_ret {A B} (RA : A -> B -> Prop) a b : RA a b -> msim RA (mret a) (mret b).
Proof. intros Ha m n Hm. by split. Qed.

Lemma msim_fail {A B} (RA : A -> B -> Prop) e : msim RA (fail e) (fail e).
Proof. by intros m n Hm. Qed.

Lemma msim_lift {A} (r : res A) : msim eq (lift r) (lift r).
Proof. intros m n Hm. by destruct r. Qed.

Lemma msim_gets {A} (f : forall S, interp S -> A) :
  (forall m n, isim m n -> f S1 m = f S2 n) -> msim eq (gets (f S1)) (gets (f S2)).
Proof. intros Hf m n Hm. split; [by apply Hf|done]. Qed.

Lemma msim_modify f g : (forall m n, isim m n -> isim (f m) (g n)) -> msim eq (modify f) (modify g).
Proof. intros Hf m n Hm. split; [done|by apply Hf]. Qed.

Lemma msim_useGas c : msim eq (useGas c) (useGas c).
Proof.
  intros m n Hm. unfold useGas. rewrite (is_gas _ _ Hm). destruct (_ <? _); cbn; split_and!; try done;
    destruct Hm; split; cbn; congruence || done.
Qed.

Lemma msim_theState : msim R theState theState.
Proof.
  intros m n Hm. unfold theState. destruct (is_world _ _ Hm) as [s t Hst|]; [|done]. by split.
Qed.

Lemma msim_requireState : msim R requireState requireState.
Proof.
  intros m n Hm. unfold requireState. by destruct (is_world _ _ Hm) as [s t Hst|].
Qed.

Lemma msim_putState s t : R s t -> msim eq (putState s) (putState t).
Proof. intros Hst. apply msim_modify. intros m n []. split; cbn; try done. by constructor. Qed.

Lemma msim_runSub e f code input g ctx depth :
  esim e f -> msim eq (runSub e code input g ctx depth) (runSub f code input g ctx depth).
Proof.
  intros He m n Hm. unfold runSub. specialize (He code input g ctx depth _ _ (is_world _ _ Hm)). unfold xsim in He.
  destruct (e _ _ _ _ _ _), (f _ _ _ _ _ _); try done. destruct He as [-> Hw]. split; [done|].
  destruct Hm. by split.
Qed.

Lemma msim_stack : msim eq (gets stack) (gets stack).
Proof. apply (msim_gets (@stack)). by intros m n []. Qed.
Lemma msim_mem : msim eq (gets mem) (gets mem).
Proof. apply (msim_gets (@mem)). by intros m n []. Qed.
Lemma msim_pc : msim eq (gets pc) (gets pc).
Proof. apply (msim_gets (@pc)). by intros m n []. Qed.
Lemma msim_gas : msim eq (gets gas) (gets gas).
Proof. apply (msim_gets (@gas)). by intros m n []. Qed.
Lemma msim_jumped : msim eq (gets jumped) (gets jumped).
Proof. apply (msim_gets (@jumped)). by intros m n []. Qed.
Lemma msim_returnData : msim eq (gets returnData) (gets returnData).
Proof. apply (msim_gets (@returnData)). by intros m n []. Qed.

Create HintDb msim.
#[local] Hint Resolve msim_ret msim_fail msim_lift msim_useGas msim_theState msim_requireState msim_runSub
  msim_stack msim_mem msim_pc msim_gas msim_jumped msim_returnData : msim.

(** A value bound on both sides: equal, or a related pair of worlds whose readings agree. *)
Ltac sim_values :=
  let a := fresh "a" in let b := fresh "b" in let E := fresh "E" in
  intros a b E;
  lazymatch type of E with
  | a = b => subst b; lazymatch type of a with (_ * _)%type => destruct a as [? ?] | _ => idtac end
  | _ => rewrite ?(sim_GetBalance a b _ E), ?(sim_GetNonce a b _ E), ?(sim_GetCode a b _ E), ?(sim_GetStorage a b _ _ E),
           ?(sim_GetNonce _ _ _ (sim_SetNonce a b _ _ E)), ?(sim_GetCode _ _ _ (sim_SetNonce a b _ _ E))
  end.

Ltac sim_world :=
  first [assumption | apply sim_SetStorage | apply sim_SetCode | apply sim_SetNonce | apply sim_AddBalance
        | apply sim_SubBalance | apply sim_AddLog | apply sim_Revert].

Ltac sim :=
  repeat match goal with
  | |- msim _ (M_bind ?c ?k) (M_bind ?d ?l) =>
      first [apply (msim_bind R _ c d k l) | apply (msim_bind eq _ c d k l)]; [solve [sim]|sim_values]
  | |- msim _ (modify _) (modify _) => apply msim_modify; intros ? ? []; split;
      cbn [with_stack with_mem with_pc with_gas with_jumped with_returnData with_world
           stack mem pc gas jumped returnData world];
      first [assumption | reflexivity | match goal with E : _ = _ |- _ => rewrite E; reflexivity end]
  | |- msim _ (putState _) (putState _) => apply msim_putState; repeat sim_world
  | |- msim _ (if ?b then _ else _) _ => destruct b
  | |- msim _ (match ?x with _ => _ end) _ => destruct x
  | |- msim _ _ _ => solve [eauto with msim]
  end.

Lemma msim_pop : msim eq pop pop.
Proof.
  unfold pop. sim.
Qed.

Lemma msim_push v : msim eq (push v) (push v).
Proof. unfold push. sim. Qed.

#[local] Hint Resolve msim_pop msim_push : msim.

Lemma msim_pop2 : msim eq pop2 pop2.
Proof. unfold pop2. sim. Qed.

#[local] Hint Resolve msim_pop2 : msim.

Lemma msim_chargeMem off size : msim eq (chargeMem off size) (chargeMem off size).
Proof. unfold chargeMem. sim. Qed.

Lemma msim_memGet off size : msim eq (memGet off size) (memGet off size).
Proof. unfold memGet. sim. Qed.

Lemma msim_memSet off v : msim eq (memSet off v) (memSet off v).
Proof. unfold memSet. sim. Qed.

Lemma msim_memSet32 off v : msim eq (memSet32 off v) (memSet32 off v).
Proof. unfold memSet32. sim. Qed.

#[local] Hint Resolve msim_chargeMem msim_memGet msim_memSet msim_memSet32 : msim.

(** ** Opcodes *)

Lemma msim_popTopics n : msim eq (popTopics n) (popTopics n).
Proof. induction n; cbn [popTopics]; sim. Qed.

Lemma msim_binop op a b : msim eq (binop op a b) (binop op a b).
Proof. unfold binop. sim. Qed.

#[local] Hint Resolve msim_popTopics msim_binop : msim.

Lemma msim_exec_arith op : msim eq (exec_arith op) (exec_arith op).
Proof. unfold exec_arith. destruct op; sim. Qed.

Lemma msim_exec_memory op : msim eq (exec_memory op) (exec_memory op).
Proof. unfold exec_memory. destruct op; sim. Qed.

Lemma msim_exec_state fr op : msim eq (exec_state fr op) (exec_state fr op).
Proof. unfold exec_state. destruct op; sim. Qed.

Lemma msim_exec_env fr op : msim eq (exec_env fr op) (exec_env fr op).
Proof. unfold exec_env. destruct op; sim. Qed.

Lemma msim_exec_copy fr op : msim eq (exec_copy fr op) (exec_copy fr op).
Proof. unfold exec_copy, opReturnDataCopy. destruct op; sim. Qed.

Lemma msim_opLog fr n : msim eq (opLog fr n) (opLog fr n).
Proof. unfold opLog. sim. Qed.

Lemma msim_jump fr d : msim eq (jump fr d) (jump fr d).
Proof. unfold jump. sim. Qed.

Lemma msim_doPush fr n : msim eq (doPush fr n) (doPush fr n).
Proof. unfold doPush. sim. Qed.

#[local] Hint Resolve msim_exec_arith msim_exec_memory msim_exec_state msim_exec_env msim_exec_copy msim_opLog
  msim_jump msim_doPush : msim.

(** ** Calls and creations *)

Lemma msim_moveValue b from to v : msim eq (moveValue b from to v) (moveValue b from to v).
Proof. unfold moveValue. sim. Qed.

Lemma msim_copyReturn off size ret : msim eq (copyReturn off size ret) (copyReturn off size ret).
Proof. unfold copyReturn. sim. Qed.

#[local] Hint Resolve msim_moveValue msim_copyReturn : msim.

(** Take a savepoint on both sides. *)
Lemma msim_savepoint {A B} (RA : A -> B -> Prop) s t (k : Z -> S1 -> M S1 A) (l : Z -> S2 -> M S2 B) :
  R s t -> (forall i s' t', R s' t' -> msim RA (k i s') (l i t')) ->
  msim RA (let (i, s') := Snapshot s in k i s') (let (i, t') := Snapshot t in l i t').
Proof.
  intros Hst Hk. destruct (sim_Snapshot s t Hst) as [Ei Hs]. destruct (Snapshot s), (Snapshot t). cbn in Ei, Hs.
  subst. by apply Hk.
Qed.

Context (e : @Exec S1) (f : @Exec S2) (Hef : esim e f).

Lemma msim_callee fr mode target v args give : msim eq (callee e fr mode target v args give) (callee f fr mode target v args give).
Proof. unfold callee. sim. Qed.

#[local] Hint Resolve msim_callee : msim.

Lemma msim_callTarget fr mode target v args give off size :
  msim eq (callTarget e fr mode target v args give off size) (callTarget f fr mode target v args give off size).
Proof.
  unfold callTarget. eapply msim_bind; [solve [sim]|sim_values]. eapply msim_bind; [apply msim_theState|intros s t Hst].
  apply msim_savepoint; [done|]. intros i s' t' Hst'. sim.
Qed.

Lemma msim_opCall fr mode : msim eq (opCall e fr mode) (opCall f fr mode).
Proof. pose proof msim_callTarget. unfold opCall. sim. Qed.

Lemma msim_createAt fr a v code give : msim eq (createAt e fr a v code give) (createAt f fr a v code give).
Proof.
  unfold createAt. eapply msim_bind; [apply msim_theState|intros s t Hst].
  apply msim_savepoint; [done|]. intros i s' t' Hst'. sim.
Qed.

Lemma msim_opCreate fr b : msim eq (opCreate e fr b) (opCreate f fr b).
Proof.
  pose proof msim_createAt. unfold opCreate. sim.
Qed.

#[local] Hint Resolve msim_opCall msim_opCreate : msim.

Lemma msim_cont c d : msim eq c d -> msim eq (cont c) (cont d).
Proof. intros Hcd. unfold cont. sim. Qed.

Lemma msim_readMem : msim eq readMem readMem.
Proof. unfold readMem. sim. Qed.

#[local] Hint Resolve msim_cont msim_readMem : msim.

Lemma msim_reverted (data : list byte) :
  msim (@eq (option (list byte))) (fun m => Fail ErrReverted data m) (fun m => Fail ErrReverted data m).
Proof. by intros m n Hm. Qed.

#[local] Hint Resolve msim_reverted : msim.

Lemma msim_exec fr op : msim eq (exec e fr op) (exec f fr op).
Proof. unfold exec. destruct op; sim. Qed.

#[local] Hint Resolve msim_exec : msim.

Lemma msim_liftStack g : msim eq (liftStack g) (liftStack g).
Proof. unfold liftStack. sim. Qed.

Lemma msim_incPc : msim eq incPc incPc.
Proof. unfold incPc. sim. Qed.

#[local] Hint Resolve msim_liftStack msim_incPc : msim.

Lemma msim_step fr c : msim eq (step e fr c) (step f fr c).
Proof. unfold step. destruct (decode c); sim. Qed.

End Sim.

(** ** Whole runs *)

Section Runs.
Context {S1 S2 : Type} `{!StateDB S1} `{!StateDB S2} (R : S1 -> S2 -> Prop) `{!StateDBSim R}.
Context `{Crypto} `{Bn256}.

Lemma esim_execute_with (g : Frame -> M S1 (list byte)) (h : Frame -> M S2 (list byte)) :
  (forall fr, msim R eq (g fr) (h fr)) -> esim R (execute_with g) (execute_with h).
Proof.
  intros Hgh code input gs ctx depth w v Hw. unfold execute_with.
  specialize (Hgh (mkFrame code input (analyseJumpdests code) ctx depth) (initInterp gs w) (initInterp gs v)).
  unfold osim in Hgh. destruct (g _ _), (h _ _); try (by destruct Hgh).
  - destruct Hgh as [-> []]; [done|]. cbn. split; [congruence|done].
  - destruct Hgh as (-> & -> & []); [done|]. destruct e0; cbn; (split; [congruence|done]).
Qed.

Lemma msim_run fuel fr : msim R eq (run fuel fr) (run fuel fr).
Proof.
  revert fr. induction fuel as [|k IH]; intros fr m n Hm; [done|]. cbn [run].
  rewrite (is_pc _ _ _ Hm). destruct (f_code fr !! Z.to_nat (pc n)) as [c|]; [|done].
  revert m n Hm. apply (msim_bind R eq).
  - apply msim_step; [done|]. by apply esim_execute_with.
  - intros a b <-. destruct a; [by apply msim_ret|apply IH].
Qed.

(** Related worlds, the same run: equal results, related worlds. *)
Lemma Run_sim code input g ctx s t :
  R s t -> xsim R (Run code input g ctx (Some s)) (Run code input g ctx (Some t)).
Proof. intros Hst. apply (esim_execute_with _ _ (msim_run _)). by constructor. Qed.

End Runs.
