(* ===== verification/State.v ===== *)
(** * Package [state], the world state

    Models src/state/state.go.  The maps are stdpp finite maps, so the order in
    which Go ranges over them is gone from the model: where the source sorts
    keys before hashing, the model sorts them too, and [sort_arrays_ext] says
    the result does not depend on the order it started from.  [State_Snapshot]
    and [State_RevertToSnapshot] are the journal of the source, entry by entry;
    StateProofs.v shows that they implement full copies.  Accounts are values:
    the source copies an account before changing it, so no two references to
    one account can be told apart. *)
From stdpp Require Import base numbers list gmap sorting.
From Stdlib Require Import ZArith Lia Strings.Byte.
From S2P Require Import Prelude Common Types VmBase Precompiles Vm.
#[local] Open Scope Z_scope.
#[local] Open Scope list_scope.

(** ** Accounts *)

Record Account : Type := mkAccount {
  Nonce : Z;
  Balance : Z;
  Storage : gmap Hash Hash;
  Code : list byte;
}.

Definition emptyAccount : Account := mkAccount 0 0 ∅ [].

Definition with_Nonce (n : Z) (a : Account) : Account := mkAccount n (Balance a) (Storage a) (Code a).
Definition with_Balance (b : Z) (a : Account) : Account := mkAccount (Nonce a) b (Storage a) (Code a).
Definition with_Storage (st : gmap Hash Hash) (a : Account) : Account := mkAccount (Nonce a) (Balance a) st (Code a).
Definition with_Code (c : list byte) (a : Account) : Account := mkAccount (Nonce a) (Balance a) (Storage a) c.

(** The keys of a map, sorted by [bytes.Compare]. *)
Definition sortedKeys {n V} (m : gmap (array n) V) : list (array n) := sort_arrays (map_to_list m).*1.

Definition Account_encode (a : Account) : list byte :=
  let keys := sortedKeys (Storage a) in
  Encoder_Uint64 (Nonce a) ++ Encoder_BigInt (Some (Balance a))
  ++ Encoder_Uint64 (u64 (len keys))
  ++ concat (map (fun k => Encoder_Raw (abytes k)
                           ++ Encoder_Raw (abytes (default ZeroHash (Storage a !! k)))) keys)
  ++ (if 0 <? len (Code a) then Encoder_Bytes (Code a) else []).

(** ** The state *)

Record blockContext : Type := mkBlockContext { number : Z; time : Z; difficulty : option Z }.

Record snapshot : Type := mkSnapshot { journalLen : Z; logCount : Z; sn_burned : Z }.

Record journalEntry : Type := mkJournalEntry {
  je_addr : Address;
  je_prev : option Account;   (* [existed] is [Some] *)
  je_wasTouched : bool;
}.

Record State : Type := mkState {
  accounts : gmap Address Account;
  touched : gset Address;
  snapshots : list snapshot;
  journal : list journalEntry;
  logs : list Log;
  bctx : blockContext;
  burned : option Z;
}.

Definition with_accounts (m : gmap Address Account) (t : gset Address) (j : list journalEntry) (s : State) : State :=
  mkState m t (snapshots s) j (logs s) (bctx s) (burned s).

Definition State_New : State := mkState ∅ ∅ [] [] [] (mkBlockContext 0 0 None) (Some 0).

Definition SetBlockContext (s : State) (num timeSeconds diff : Z) : State :=
  mkState (accounts s) (touched s) (snapshots s) (journal s) (logs s)
    (mkBlockContext num timeSeconds (Some diff)) (burned s).

Definition burnedOrZero (s : State) : Z := default 0 (burned s).

(** A deep copy; the savepoints and the journal are not carried over. *)
Definition State_Copy (s : State) : State :=
  mkState (accounts s) (touched s) [] [] (logs s) (bctx s) (Some (burnedOrZero s)).

Definition ClearTouched (s : State) : State :=
  mkState (accounts s) ∅ (snapshots s) (journal s) (logs s) (bctx s) (burned s).

Definition Touched (s : State) : list Address := sort_arrays (elements (touched s)).

Definition Exists (s : State) (addr : Address) : bool := bool_decide (is_Some (accounts s !! addr)).

Definition State_Get (s : State) (addr : Address) : Account := default emptyAccount (accounts s !! addr).

(** No nonce, balance, storage or code: such an account is deleted, not stored. *)
Definition isEmpty (acc : Account) : bool :=
  (Nonce acc =? 0) && (Z.sgn (Balance acc) =? 0) && bool_decide (Storage acc = ∅) && (len (Code acc) =? 0).

Definition State_set (s : State) (addr : Address) (acc : Account) : State :=
  let j := if 0 <? len (snapshots s)
           then journal s ++ [mkJournalEntry addr (accounts s !! addr) (bool_decide (addr ∈ touched s))]
           else journal s in
  let t := {[addr]} ∪ touched s in
  if isEmpty acc then with_accounts (delete addr (accounts s)) t j s
  else with_accounts (<[addr := acc]> (accounts s)) t j s.

Definition State_Balance (s : State) (addr : Address) : Z := Balance (State_Get s addr).
Definition State_Nonce (s : State) (addr : Address) : Z := Nonce (State_Get s addr).

Definition RestoreAccount (s : State) (addr : Address) (nonce : Z) (balance : option Z)
    (storage : gmap Hash Hash) (code : list byte) : State :=
  State_set s addr (mkAccount nonce (default 0 balance) storage code).

Definition SumBalances (s : State) : Z := map_fold (fun _ acc total => total + Balance acc) 0 (accounts s).

(** ** Issuance *)

Definition BaseBlockReward : Z := 25 * 10 ^ 18.
Definition HalvingInterval : Z := 1000000.

Definition BlockRewardAt (height : Z) : Z := Z.shiftr BaseBlockReward (height / HalvingInterval).

(** The loop of [CumulativeIssued] over the eras ([None]: out of fuel); the reward is zero from
    era 65 on, so 66 rounds are enough. *)
Fixpoint CumulativeIssued_loop (fuel : nat) (era h total : Z) : option Z :=
  match fuel with
  | O => None
  | S f =>
      let start := u64 (era * HalvingInterval) in
      if h <? start then Some total
      else
        let reward := BlockRewardAt start in
        if Z.sgn reward =? 0 then Some total
        else
          let lo := if start =? 0 then 1 else start in
          let hi := u64 (start + HalvingInterval - 1) in
          let hi := if h <? hi then h else hi in
          if hi <? lo then CumulativeIssued_loop f (u64 (era + 1)) h total
          else CumulativeIssued_loop f (u64 (era + 1)) h (total + reward * u64 (hi - lo + 1))
  end.

Definition CumulativeIssued (h : Z) : option Z := CumulativeIssued_loop 67 0 h 0.

(** ** Contract storage, code, balances, nonces *)

Definition State_GetStorage (s : State) (addr : Address) (key : Hash) : Hash :=
  match accounts s !! addr with
  | None => ZeroHash
  | Some acc => default ZeroHash (Storage acc !! key)
  end.

Definition State_SetStorage (s : State) (addr : Address) (key value : Hash) : State :=
  let acc := State_Get s addr in
  State_set s addr
    (if Hash_IsZero value then with_Storage (delete key (Storage acc)) acc
     else with_Storage (<[key := value]> (Storage acc)) acc).

Definition State_GetCode (s : State) (addr : Address) : list byte :=
  match accounts s !! addr with None => [] | Some acc => Code acc end.

Definition State_SetCode (s : State) (addr : Address) (code : list byte) : State :=
  State_set s addr (with_Code code (State_Get s addr)).

Definition State_SubBalance (s : State) (addr : Address) (amount : Z) : State :=
  let acc := State_Get s addr in State_set s addr (with_Balance (Balance acc - amount) acc).

Definition Credit (s : State) (addr : Address) (amount : Z) : State :=
  let acc := State_Get s addr in State_set s addr (with_Balance (Balance acc + amount) acc).

Definition State_SetNonce (s : State) (addr : Address) (nonce : Z) : State :=
  State_set s addr (with_Nonce nonce (State_Get s addr)).

(** ** Savepoints *)

Definition State_Snapshot (s : State) : Z * State :=
  let s' := mkState (accounts s) (touched s)
              (snapshots s ++ [mkSnapshot (len (journal s)) (len (logs s)) (burnedOrZero s)])
              (journal s) (logs s) (bctx s) (burned s) in
  (len (snapshots s') - 1, s').

(** Undo one journalled write. *)
Definition undo (w : gmap Address Account * gset Address) (e : journalEntry) : gmap Address Account * gset Address :=
  (match je_prev e with
   | Some acc => <[je_addr e := acc]> (fst w)
   | None => delete (je_addr e) (fst w)
   end,
   if je_wasTouched e then {[je_addr e]} ∪ snd w else snd w ∖ {[je_addr e]}).

(** Newest first, from the end of the journal down to [journalLen]. *)
Definition State_RevertToSnapshot (s : State) (id : Z) : State :=
  if (id <? 0) || (len (snapshots s) <=? id) then s
  else match snapshots s !! Z.to_nat id with
  | None => s
  | Some snap =>
      let n := Z.to_nat (journalLen snap) in
      let '(m, t) := fold_left undo (rev (drop n (journal s))) (accounts s, touched s) in
      mkState m t (take (Z.to_nat id) (snapshots s)) (take n (journal s))
        (take (Z.to_nat (logCount snap)) (logs s)) (bctx s) (Some (sn_burned snap))
  end.

Definition DiscardSnapshots (s : State) : State :=
  mkState (accounts s) (touched s) [] [] (logs s) (bctx s) (burned s).

(** ** Logs *)

Definition State_AddLog (s : State) (log : Log) : State :=
  mkState (accounts s) (touched s) (snapshots s) (journal s) (logs s ++ [log]) (bctx s) (burned s).

Definition LogCount (s : State) : Z := len (logs s).

Definition LogsSince (s : State) (start : Z) : list Log :=
  if len (logs s) <=? start then [] else drop (Z.to_nat start) (logs s).

(** ** The root and the burn total *)

Definition Root `{Crypto} (s : State) : Hash :=
  let addrs := sortedKeys (accounts s) in
  let leaves := map (fun addr => Encoder_Raw (abytes addr)
                                 ++ Encoder_Bytes (Account_encode (State_Get s addr))) addrs in
  let root := MerkleRoot leaves in
  if Z.sgn (burnedOrZero s) =? 0 then root
  else Keccak256 [Encoder_Raw (abytes root) ++ Encoder_BigInt (burned s)].

Definition Burn (s : State) (amount : option Z) : State :=
  match amount with
  | None => s
  | Some a => if Z.sgn a <=? 0 then s
              else mkState (accounts s) (touched s) (snapshots s) (journal s) (logs s) (bctx s)
                     (Some (burnedOrZero s + a))
  end.

Definition Burned (s : State) : Z := burnedOrZero s.

Definition SetBurned (s : State) (v : option Z) : State :=
  mkState (accounts s) (touched s) (snapshots s) (journal s) (logs s) (bctx s) (Some (default 0 v)).

(** ** The state as the interpreter's [StateDB] *)

#[export] Instance State_StateDB : StateDB State := {|
  GetStorage := State_GetStorage;
  SetStorage := State_SetStorage;
  GetCode := State_GetCode;
  SetCode := State_SetCode;
  GetNonce := State_Nonce;
  SetNonce := State_SetNonce;
  GetBalance := State_Balance;
  AddBalance := Credit;
  SubBalance := State_SubBalance;
  Snapshot := State_Snapshot;
  RevertToSnapshot := State_RevertToSnapshot;
  AddLog := State_AddLog;
|}.
