(* ===== verification/StateProofs.v ===== *)
(** * The journal implements copies, and what runs of the interpreter preserve

    Three layers.  First the savepoints: [saved s i] is the state that
    reverting [s] to savepoint [i] restores; every write keeps it, which makes
    the journal of state.go a correct implementation of "copy the whole state"
    ([journal_refines]: a simulation over any sequence of operations).  Then a
    rule-induction principle for [Trans] over the content ([Trans_rel]).  Last,
    its instances: balances and burns are conserved, no balance goes negative,
    an account without code keeps its nonce, static frames change nothing. *)
From stdpp Require Import base numbers list gmap sorting.
From Stdlib Require Import ZArith Lia Strings.Byte.
From S2P Require Import Prelude Common Types VmBase Precompiles Vm VmProofs State.
#[local] Open Scope Z_scope.
#[local] Open Scope list_scope.

(** ** The content of a state: what a savepoint saves *)

Definition World : Type := gmap Address Account * gset Address * list Log * Z.

Definition content (s : State) : World := (accounts s, touched s, logs s, burnedOrZero s).

Definition depth (s : State) : nat := length (snapshots s).

(** The state that reverting to savepoint [i] gives back. *)
Definition saved (s : State) (i : nat) : State := State_RevertToSnapshot s (Z.of_nat i).

(** The same state, its burn total not nil. *)
Definition norm (s : State) : State :=
  mkState (accounts s) (touched s) (snapshots s) (journal s) (logs s) (bctx s) (Some (burnedOrZero s)).

(** Savepoints lie within the journal and the logs, older ones below newer ones. *)
Record sp_inv (s : State) : Prop := {
  sp_bound : forall i sn, snapshots s !! i = Some sn ->
    0 <= journalLen sn <= len (journal s) /\ 0 <= logCount sn <= len (logs s);
  sp_mono : forall i j si sj, (i <= j)%nat -> snapshots s !! i = Some si -> snapshots s !! j = Some sj ->
    journalLen si <= journalLen sj /\ logCount si <= logCount sj;
}.

(** Undoing the journal from the savepoint's mark. *)
Definition undoFrom (n : Z) (s : State) : gmap Address Account * gset Address :=
  fold_left undo (rev (drop (Z.to_nat n) (journal s))) (accounts s, touched s).

Lemma saved_spec s i sn :
  snapshots s !! i = Some sn ->
  saved s i =
    mkState (fst (undoFrom (journalLen sn) s)) (snd (undoFrom (journalLen sn) s))
      (take i (snapshots s)) (take (Z.to_nat (journalLen sn)) (journal s))
      (take (Z.to_nat (logCount sn)) (logs s)) (bctx s) (Some (sn_burned sn)).
Proof.
  intros Hi. pose proof (lookup_lt_Some _ _ _ Hi). unfold saved, State_RevertToSnapshot, undoFrom.
  destruct (Z.ltb_spec (Z.of_nat i) 0); [lia|].
  destruct (Z.leb_spec (len (snapshots s)) (Z.of_nat i)); [unfold len in *; lia|]. cbn [orb].
  rewrite !Nat2Z.id, Hi. by destruct (fold_left _ _ _).
Qed.

Lemma depth_lookup s i : (i < depth s)%nat -> exists sn, snapshots s !! i = Some sn.
Proof. intros Hi. by apply lookup_lt_is_Some_2. Qed.

(** ** One write *)

(** The journal entry that [set] records undoes it. *)
Lemma undo_set (m : gmap Address Account) (t : gset Address) a acc :
  undo (if isEmpty acc then delete a m else <[a := acc]> m, {[a]} ∪ t)
    (mkJournalEntry a (m !! a) (bool_decide (a ∈ t))) = (m, t).
Proof.
  unfold undo. cbn [je_prev je_addr je_wasTouched fst snd]. f_equal.
  - destruct (m !! a) as [p|] eqn:Ea; destruct (isEmpty acc).
    + by rewrite insert_delete_eq, insert_id.
    + by rewrite insert_insert_eq, insert_id.
    + by rewrite delete_delete_eq, delete_id.
    + by rewrite delete_insert_id.
  - destruct (decide (a ∈ t)) as [Ht|Ht].
    + rewrite bool_decide_eq_true_2 by done. apply set_eq. intros x. set_unfold. intuition congruence.
    + rewrite bool_decide_eq_false_2 by done. apply set_eq. intros x. set_unfold. intuition congruence.
Qed.

Lemma set_fields s a acc :
  snapshots (State_set s a acc) = snapshots s /\ logs (State_set s a acc) = logs s
  /\ bctx (State_set s a acc) = bctx s /\ burned (State_set s a acc) = burned s
  /\ touched (State_set s a acc) = {[a]} ∪ touched s
  /\ accounts (State_set s a acc) = (if isEmpty acc then delete a (accounts s) else <[a := acc]> (accounts s))
  /\ journal (State_set s a acc) =
     if 0 <? len (snapshots s)
     then journal s ++ [mkJournalEntry a (accounts s !! a) (bool_decide (a ∈ touched s))]
     else journal s.
Proof. unfold State_set. by destruct (isEmpty acc). Qed.

Lemma len_snoc {X} (l : list X) x : len (l ++ [x]) = len l + 1.
Proof. unfold len. rewrite length_app. simpl. lia. Qed.

(** A list kept up to [n] is not changed by what is appended later. *)
Lemma take_app_keep {X} (l k : list X) n : 0 <= n <= len l -> take (Z.to_nat n) (l ++ k) = take (Z.to_nat n) l.
Proof. intros Hn. apply take_app_le. unfold len in Hn. lia. Qed.

Lemma undoFrom_set s a acc n :
  0 <= n <= len (journal s) -> 0 < len (snapshots s) -> undoFrom n (State_set s a acc) = undoFrom n s.
Proof.
  intros Hn Hsp. unfold undoFrom. destruct (set_fields s a acc) as (_ & _ & _ & _ & -> & -> & ->).
  destruct (Z.ltb_spec 0 (len (snapshots s))); [|lia].
  rewrite drop_app_le, rev_app_distr, fold_left_app by (unfold len in Hn; lia). cbn [rev app fold_left].
  by rewrite undo_set.
Qed.

Lemma set_inv s a acc : sp_inv s -> sp_inv (State_set s a acc).
Proof.
  intros [Hb Hm]. destruct (set_fields s a acc) as (E1 & E2 & _ & _ & _ & _ & E3).
  split; rewrite E1, ?E2, ?E3; [|done]. intros i sn Hi. destruct (Hb i sn Hi) as [? ?].
  split; [|done]. destruct (Z.ltb_spec 0 (len (snapshots s))); rewrite ?len_snoc; lia.
Qed.

Lemma set_saved s a acc i : sp_inv s -> (i < depth s)%nat -> saved (State_set s a acc) i = saved s i.
Proof.
  intros [Hb Hm] Hi. destruct (depth_lookup s i Hi) as [sn Hsn]. destruct (Hb i sn Hsn).
  assert (0 < len (snapshots s)) by (unfold depth, len in *; lia).
  destruct (set_fields s a acc) as (E1 & E2 & E3 & _ & _ & _ & E7).
  rewrite (saved_spec _ i sn) by (by rewrite E1). rewrite (saved_spec s i sn Hsn).
  rewrite undoFrom_set, E1, E2, E3, E7 by lia.
  destruct (Z.ltb_spec 0 (len (snapshots s))); [|lia]. by rewrite (take_app_keep (journal s)).
Qed.

(** ** Logs, burns, savepoints, reverts *)

Lemma AddLog_inv s l : sp_inv s -> sp_inv (State_AddLog s l).
Proof.
  intros [Hb Hm]. split; cbn; [|exact Hm]. intros i sn Hi. destruct (Hb i sn Hi). rewrite len_snoc. lia.
Qed.

Lemma AddLog_saved s l i : sp_inv s -> (i < depth s)%nat -> saved (State_AddLog s l) i = saved s i.
Proof.
  intros [Hb _] Hi. destruct (depth_lookup s i Hi) as [sn Hsn]. rewrite !(saved_spec _ i sn) by done.
  destruct (Hb i sn Hsn). cbn [State_AddLog logs]. rewrite take_app_keep by lia. done.
Qed.

Lemma Burn_inv s v : sp_inv s -> sp_inv (Burn s v).
Proof. intros [Hb Hm]. unfold Burn. destruct v as [v|]; [destruct (_ <=? _)|]; by split. Qed.

Lemma Burn_saved s v i : (i < depth s)%nat -> saved (Burn s v) i = saved s i.
Proof.
  intros Hi. destruct (depth_lookup s i Hi) as [sn Hsn]. unfold Burn. destruct v as [v|]; [|done].
  destruct (_ <=? _); [done|]. by rewrite !(saved_spec _ i sn).
Qed.

Lemma Burn_depth s v : depth (Burn s v) = depth s.
Proof. unfold Burn. destruct v as [v|]; [destruct (_ <=? _)|]; done. Qed.

Lemma Snapshot_id s : fst (State_Snapshot s) = Z.of_nat (depth s).
Proof. unfold State_Snapshot, depth. cbn. rewrite len_snoc. unfold len. lia. Qed.

Lemma Snapshot_depth s : depth (snd (State_Snapshot s)) = S (depth s).
Proof. unfold State_Snapshot, depth. cbn. rewrite length_app. simpl. lia. Qed.

Lemma Snapshot_content s : content (snd (State_Snapshot s)) = content s.
Proof. done. Qed.

Lemma Snapshot_lookup s i sn :
  snapshots (snd (State_Snapshot s)) !! i = Some sn ->
  (snapshots s !! i = Some sn) \/ (i = depth s /\ sn = mkSnapshot (len (journal s)) (len (logs s)) (burnedOrZero s)).
Proof.
  cbn. intros H. apply lookup_app_Some in H as [|[Hl H]]; [by left|]. right.
  apply list_lookup_singleton_Some in H as [H <-]. split; [unfold depth; lia|done].
Qed.

Lemma Snapshot_inv s : sp_inv s -> sp_inv (snd (State_Snapshot s)).
Proof.
  intros [Hb Hm]. split.
  - intros i sn [Hi|[-> ->]]%Snapshot_lookup; cbn; [by apply (Hb i)|].
    pose proof (len_nonneg (journal s)). pose proof (len_nonneg (logs s)). lia.
  - intros i j si sj Hij [Hi|[-> ->]]%Snapshot_lookup [Hj|[-> ->]]%Snapshot_lookup; cbn.
    + by eapply Hm.
    + destruct (Hb i si Hi). lia.
    + apply lookup_lt_Some in Hj. unfold depth in Hij. lia.
    + lia.
Qed.

Lemma Snapshot_saved_old s i : (i < depth s)%nat -> saved (snd (State_Snapshot s)) i = saved s i.
Proof.
  intros Hi. destruct (depth_lookup s i Hi) as [sn Hsn].
  rewrite (saved_spec (snd _) i sn) by (cbn; by rewrite lookup_app_l). rewrite (saved_spec s i sn) by done.
  unfold undoFrom. cbn. by rewrite take_app_le by (unfold depth in Hi; lia).
Qed.

Lemma Snapshot_saved_new s : saved (snd (State_Snapshot s)) (depth s) = norm s.
Proof.
  erewrite saved_spec by (cbn; unfold depth; apply list_lookup_middle; reflexivity).
  unfold undoFrom, norm. cbn. unfold len. rewrite !Nat2Z.id, drop_all, !firstn_all. unfold depth.
  by rewrite take_app_length.
Qed.

(** ** Reverting *)

Lemma Revert_depth s i : (i < depth s)%nat -> depth (saved s i) = i.
Proof.
  intros Hi. destruct (depth_lookup s i Hi) as [sn Hsn]. rewrite (saved_spec s i sn Hsn). unfold depth in *. cbn.
  rewrite length_take. lia.
Qed.

Lemma Revert_inv s i : sp_inv s -> (i < depth s)%nat -> sp_inv (saved s i).
Proof.
  intros [Hb Hm] Hi. destruct (depth_lookup s i Hi) as [sn Hsn]. rewrite (saved_spec s i sn Hsn).
  destruct (Hb i sn Hsn) as [? ?]. split; cbn.
  - intros j sj Hj. apply lookup_take_Some in Hj as [Hj Hlt].
    destruct (Hm j i sj sn ltac:(lia) Hj Hsn). destruct (Hb j sj Hj). rewrite !len_take by lia. lia.
  - intros j k sj sk Hjk Hj Hk. apply lookup_take_Some in Hj as [Hj _], Hk as [Hk _]. by eapply (Hm j k).
Qed.

(** Undoing to [n] after undoing to a later mark [k] is undoing to [n]. *)
Lemma undoFrom_revert s n k sps lg bc bu :
  0 <= n <= k -> k <= len (journal s) ->
  undoFrom n (mkState (fst (undoFrom k s)) (snd (undoFrom k s)) sps (take (Z.to_nat k) (journal s)) lg bc bu)
  = undoFrom n s.
Proof.
  intros Hn Hk. unfold undoFrom at 1. cbn [accounts touched journal]. rewrite <- surjective_pairing.
  unfold undoFrom. rewrite <- fold_left_app, <- rev_app_distr. f_equal. f_equal.
  rewrite <- (take_drop (Z.to_nat k) (journal s)) at 3. rewrite drop_app_le; [done|].
  rewrite length_take. unfold len in Hk. lia.
Qed.

Lemma Revert_saved s i j :
  sp_inv s -> (i < depth s)%nat -> (j < i)%nat -> saved (saved s i) j = saved s j.
Proof.
  intros [Hb Hm] Hi Hj. destruct (depth_lookup s i Hi) as [si Hsi].
  destruct (depth_lookup s j ltac:(lia)) as [sj Hsj].
  destruct (Hm j i sj si ltac:(lia) Hsj Hsi) as [Hjl Hlc]. destruct (Hb j sj Hsj), (Hb i si Hsi).
  rewrite (saved_spec s j sj Hsj). rewrite (saved_spec _ j sj).
  2: { rewrite (saved_spec s i si Hsi). cbn. apply lookup_take_Some. split; [done|lia]. }
  rewrite (saved_spec s i si Hsi), undoFrom_revert by lia. cbn [logs snapshots journal bctx].
  by rewrite !take_take, !Nat.min_l by lia.
Qed.

Lemma Revert_out_of_range s i : i < 0 \/ len (snapshots s) <= i -> State_RevertToSnapshot s i = s.
Proof.
  intros Hi. unfold State_RevertToSnapshot.
  destruct (Z.ltb_spec i 0); [done|]. destruct (Z.leb_spec (len (snapshots s)) i); [done|lia].
Qed.

Lemma sp_inv_empty s : snapshots s = [] -> sp_inv s.
Proof. intros E. split; rewrite E; intros; by rewrite lookup_nil in *. Qed.

(** ** The journal refines full copies

    The specification: savepoints are whole copies of the content, kept on a
    stack; a mutator acts on the current content alone. *)

Inductive op : Type :=
  | OSet (a : Address) (f : Account -> Account)
  | OSetNonce (a : Address) (n : Z)
  | OSetCode (a : Address) (code : list byte)
  | OSetStorage (a : Address) (k v : Hash)
  | OSubBalance (a : Address) (v : Z)
  | OCredit (a : Address) (v : Z)
  | OAddLog (l : Log)
  | OBurn (v : option Z)
  | OSnapshot
  | ORevert (id : Z)
  | ODiscard.

(** The code: every operation on the journalled state.  [OSet] is the update that
    ApplyTx makes by hand ([set] of a changed copy). *)
Definition run_op (s : State) (o : op) : State :=
  match o with
  | OSet a f => State_set s a (f (State_Get s a))
  | OSetNonce a n => State_SetNonce s a n
  | OSetCode a code => State_SetCode s a code
  | OSetStorage a k v => State_SetStorage s a k v
  | OSubBalance a v => State_SubBalance s a v
  | OCredit a v => Credit s a v
  | OAddLog l => State_AddLog s l
  | OBurn v => Burn s v
  | OSnapshot => snd (State_Snapshot s)
  | ORevert id => State_RevertToSnapshot s id
  | ODiscard => DiscardSnapshots s
  end.

(** A state with this content, no savepoint and no journal. *)
Definition bare (w : World) : State :=
  let '(m, t, l, b) := w in mkState m t [] [] l (mkBlockContext 0 0 None) (Some b).

Record CopyState : Type := mkCopy { cur : World; copies : list World }.

Definition copy_op (c : CopyState) (o : op) : CopyState :=
  match o with
  | OSnapshot => mkCopy (cur c) (copies c ++ [cur c])
  | ORevert id =>
      if (id <? 0) || (len (copies c) <=? id) then c
      else match copies c !! Z.to_nat id with
           | Some w => mkCopy w (take (Z.to_nat id) (copies c))
           | None => c
           end
  | ODiscard => mkCopy (cur c) []
  | _ => mkCopy (content (run_op (bare (cur c)) o)) (copies c)
  end.

(** The simulation relation. *)
Record refines (s : State) (c : CopyState) : Prop := {
  rf_inv : sp_inv s;
  rf_cur : cur c = content s;
  rf_depth : length (copies c) = depth s;
  rf_saved : forall i, (i < depth s)%nat -> copies c !! i = Some (content (saved s i));
}.

Definition is_mutator (o : op) : Prop := match o with OSnapshot | ORevert _ | ODiscard => False | _ => True end.

Lemma content_set s s' a f :
  content s = content s' -> content (State_set s a (f (State_Get s a))) = content (State_set s' a (f (State_Get s' a))).
Proof.
  intros E. unfold content in *. injection E as E1 E2 E3 E4. unfold State_Get, State_set. rewrite E1, E2.
  destruct (isEmpty _); unfold burnedOrZero in *; cbn; congruence.
Qed.

(** A mutator is [set] of a changed account, or touches only the logs or the burn total. *)
Lemma run_op_cases o : is_mutator o ->
  (exists a f, forall s' : State, run_op s' o = State_set s' a (f (State_Get s' a)))
  \/ (exists l, o = OAddLog l) \/ (exists v, o = OBurn v).
Proof.
  destruct o as [a f|a n|a code|a k v|a v|a v|l|v| | |]; intros Hm; try done; [left|left|left|left|left|left|by eauto|by eauto].
  - by exists a, f.
  - by exists a, (with_Nonce n).
  - by exists a, (with_Code code).
  - by exists a, (fun acc => if Hash_IsZero v then with_Storage (delete k (Storage acc)) acc
                   else with_Storage (<[k := v]> (Storage acc)) acc).
  - by exists a, (fun acc => with_Balance (Balance acc - v) acc).
  - by exists a, (fun acc => with_Balance (Balance acc + v) acc).
Qed.

Lemma content_bare s : content (bare (content s)) = content s.
Proof. done. Qed.

Lemma mutator_content s s' o : is_mutator o -> content s = content s' -> content (run_op s o) = content (run_op s' o).
Proof.
  intros Hm E. destruct (run_op_cases o Hm) as [(a & f & Ho)|[[l ->]|[v ->]]].
  - rewrite !Ho. by apply content_set.
  - cbn. unfold content in *. injection E as E1 E2 E3 E4. unfold burnedOrZero in *. cbn. congruence.
  - cbn. unfold Burn. destruct v as [v|]; [|done]. destruct (_ <=? _); [done|].
    unfold content in *. injection E as E1 E2 E3 E4. cbn. congruence.
Qed.

Lemma mutator_savepoints s o : is_mutator o -> sp_inv s ->
  sp_inv (run_op s o) /\ depth (run_op s o) = depth s
  /\ forall i, (i < depth s)%nat -> saved (run_op s o) i = saved s i.
Proof.
  intros Hm Hi. destruct (run_op_cases o Hm) as [(a & f & Ho)|[[l ->]|[v ->]]].
  - rewrite Ho. destruct (set_fields s a (f (State_Get s a))) as [E _].
    split_and!; [by apply set_inv|unfold depth; by rewrite E|intros; by apply set_saved].
  - split_and!; [by apply AddLog_inv|done|intros; by apply AddLog_saved].
  - split_and!; [by apply Burn_inv|apply Burn_depth|intros; by apply Burn_saved].
Qed.

Lemma refines_mutator s c o : is_mutator o -> refines s c -> refines (run_op s o) (copy_op c o).
Proof.
  intros Hm [Hi Hc Hd Hs]. destruct (mutator_savepoints s o Hm Hi) as (Hi' & Hd' & Hs').
  assert (copy_op c o = mkCopy (content (run_op (bare (cur c)) o)) (copies c)) as -> by (by destruct o).
  split; cbn [cur copies]; [done| |by rewrite Hd'|].
  - apply mutator_content; [done|]. by rewrite Hc, content_bare.
  - intros i Hlt. rewrite Hd' in Hlt. by rewrite Hs', Hs.
Qed.

Lemma refines_snapshot s c : refines s c -> refines (run_op s OSnapshot) (copy_op c OSnapshot).
Proof.
  intros [Hi Hc Hd Hs]. cbn [run_op copy_op]. split; cbn [cur copies].
  - by apply Snapshot_inv.
  - by rewrite Snapshot_content.
  - rewrite Snapshot_depth, length_app. simpl. lia.
  - intros i. rewrite Snapshot_depth. intros Hlt. destruct (decide (i = depth s)) as [->|].
    + rewrite Snapshot_saved_new, <- Hd, list_lookup_middle by done. by rewrite Hc.
    + rewrite Snapshot_saved_old, lookup_app_l by lia. apply Hs. lia.
Qed.

Lemma refines_revert s c id : refines s c -> refines (run_op s (ORevert id)) (copy_op c (ORevert id)).
Proof.
  intros [Hi Hc Hd Hs]. cbn [run_op copy_op].
  assert (len (copies c) = len (snapshots s)) as El by (unfold len; by rewrite Hd).
  destruct (Z.ltb_spec id 0) as [Hneg|Hpos]; [cbn [orb]; rewrite Revert_out_of_range by lia; done|].
  destruct (Z.leb_spec (len (copies c)) id) as [Hge|Hlt]; [cbn [orb]; rewrite Revert_out_of_range by lia; done|].
  cbn [orb]. rewrite <- (Z2Nat.id id) by lia. set (i := Z.to_nat id). rewrite Nat2Z.id.
  assert ((i < depth s)%nat) as Hlt' by (unfold depth, len, i in *; lia).
  rewrite (Hs i Hlt'). change (State_RevertToSnapshot s (Z.of_nat i)) with (saved s i). split; cbn [cur copies].
  - by apply Revert_inv.
  - done.
  - rewrite Revert_depth, length_take by done. lia.
  - intros j. rewrite Revert_depth by done. intros Hj.
    rewrite lookup_take_lt, Revert_saved by done. apply Hs. lia.
Qed.

Lemma refines_step s c o : refines s c -> refines (run_op s o) (copy_op c o).
Proof.
  intros HR. destruct o; try (by apply refines_mutator).
  - by apply refines_snapshot.
  - by apply refines_revert.
  - destruct HR as [Hi Hc Hd Hs]. split; cbn; [by apply sp_inv_empty|by rewrite Hc|done|intros i Hlt; unfold depth in Hlt; cbn in Hlt; lia].
Qed.

Lemma refines_run ops s c : refines s c -> refines (fold_left run_op ops s) (fold_left copy_op ops c).
Proof. revert s c. induction ops as [|o ops IH]; intros s c HR; [done|]. apply IH, refines_step, HR. Qed.

(** ** Induction over the effects of a run *)

(** Any effect of a run keeps the savepoints below the depth it started from. *)
Lemma Trans_savepoints A st (s s' : State) : Trans A st s s' -> sp_inv s ->
  sp_inv s' /\ (depth s <= depth s')%nat /\ forall i, (i < depth s)%nat -> saved s' i = saved s i.
Proof.
  assert (forall s o, is_mutator o -> sp_inv s -> sp_inv (run_op s o) /\ (depth s <= depth (run_op s o))%nat
    /\ forall i, (i < depth s)%nat -> saved (run_op s o) i = saved s i) as Hop.
  { intros x o Hm Hx. destruct (mutator_savepoints x o Hm Hx) as (? & -> & ?). done. }
  induction 1 as [| st s1 s2 s3 _ IH1 _ IH2 | s s' _ IH | st s | st s s' _ IH | s a k v _ | s l _ | s a b v _ Hv
    | s a _ | s a code _ _]; intros Hi.
  - done.
  - destruct (IH1 Hi) as (Hi2 & Hd2 & Hs2). destruct (IH2 Hi2) as (Hi3 & Hd3 & Hs3).
    split_and!; [done|lia|]. intros i Hlt. rewrite Hs3 by lia. by apply Hs2.
  - by apply IH.
  - cbn [Snapshot State_StateDB]. rewrite Snapshot_depth. split_and!; [by apply Snapshot_inv|lia|intros; by apply Snapshot_saved_old].
  - cbn [Snapshot RevertToSnapshot State_StateDB] in *. rewrite Snapshot_id.
    change (State_RevertToSnapshot s' (Z.of_nat (depth s))) with (saved s' (depth s)). destruct (IH (Snapshot_inv s Hi)) as (Hi' & Hd & Hs). rewrite Snapshot_depth in Hd, Hs.
    assert ((depth s < depth s')%nat) as Hlt by lia.
    split_and!; [by apply Revert_inv|rewrite Revert_depth by done; lia|].
    intros i Hlt'. rewrite Revert_saved by done. rewrite Hs by lia. by apply Snapshot_saved_old.
  - apply (Hop s (OSetStorage a k v)); done.
  - apply (Hop s (OAddLog l)); done.
  - set (s0 := snd (Snapshot s)) in *. destruct (Hop s0 (OSubBalance a v) I Hi) as (Hi1 & Hd1 & Hs1).
    destruct (Hop _ (OCredit b v) I Hi1) as (Hi2 & Hd2 & Hs2).
    cbn [run_op] in *. split_and!; [done|cbn [AddBalance SubBalance State_StateDB] in *; lia|].
    intros i Hlt. transitivity (saved (State_SubBalance s0 a v) i); [apply Hs2; lia|by apply Hs1].
  - apply (Hop s (OSetNonce a _)); done.
  - apply (Hop s (OSetCode a code)); done.
Qed.

(** Reverting to the savepoint a run started from gives back the state, savepoints and journal
    included. *)
Lemma revert_restores A st (s s' : State) :
  sp_inv s -> Trans A st (snd (State_Snapshot s)) s' ->
  State_RevertToSnapshot s' (fst (State_Snapshot s)) = norm s.
Proof.
  intros Hi HT. rewrite Snapshot_id.
  destruct (Trans_savepoints _ _ _ _ HT (Snapshot_inv s Hi)) as (_ & Hd & Hs). rewrite Snapshot_depth in Hd, Hs.
  change (saved s' (depth s) = norm s). rewrite Hs by lia. apply Snapshot_saved_new.
Qed.

(** A transitive relation on contents that holds of each single effect holds of a run. *)
Section Trans_rel.
Context (A : Address -> Prop) (Q : State -> State -> Prop).
Hypothesis Q_same : forall s s', content s = content s' -> Q s s'.
Hypothesis Q_trans : forall s1 s2 s3, Q s1 s2 -> Q s2 s3 -> Q s1 s3.
Hypothesis Q_storage : forall s a k v, A a -> Q s (State_SetStorage s a k v).
Hypothesis Q_log : forall s l, A (l_Address l) -> Q s (State_AddLog s l).
Hypothesis Q_transfer : forall s a b v, A a -> 0 < v <= State_Balance s a -> Q s (Credit (State_SubBalance s a v) b v).
Hypothesis Q_nonce : forall s a, A a -> Q s (State_SetNonce s a (u64 (State_Nonce s a + 1))).
Hypothesis Q_code : forall s a code, A a -> len code <= MaxCodeSize -> Q s (State_SetCode s a code).

Lemma Trans_rel st (s s' : State) : Trans A st s s' -> sp_inv s -> Q s s'.
Proof.
  induction 1 as [| st s1 s2 s3 HT1 IH1 _ IH2 | | st s | st s s' HT _ | | | s a b v Ha Hv | |]; intros Hi; auto.
  - eapply Q_trans; [by apply IH1|]. apply IH2. by apply (Trans_savepoints _ _ _ _ HT1 Hi).
  - apply Q_same. cbn [Snapshot RevertToSnapshot State_StateDB]. by rewrite (revert_restores A st s s').
Qed.
End Trans_rel.

(** A static run changes nothing at all. *)
Lemma Trans_static_content A st (s s' : State) : Trans A st s s' -> st = true -> sp_inv s -> content s' = content s.
Proof.
  induction 1 as [| st s1 s2 s3 HT1 IH1 _ IH2 | | | st s s' HT _ | | | | |]; intros E Hi; try done.
  - rewrite IH2, IH1; try done. by apply (Trans_savepoints _ _ _ _ HT1 Hi).
  - cbn [Snapshot RevertToSnapshot State_StateDB]. by rewrite (revert_restores A st s s').
Qed.

(** ** Lookups after [set] *)

Lemma Get_set_eq s a acc : isEmpty acc = false -> State_Get (State_set s a acc) a = acc.
Proof.
  intros He. unfold State_Get. destruct (set_fields s a acc) as (_ & _ & _ & _ & _ & -> & _). rewrite He.
  by rewrite lookup_insert_eq.
Qed.

Lemma Get_set_ne s a b acc : a <> b -> State_Get (State_set s a acc) b = State_Get s b.
Proof.
  intros Hne. unfold State_Get. destruct (set_fields s a acc) as (_ & _ & _ & _ & _ & -> & _).
  destruct (isEmpty acc); [by rewrite lookup_delete_ne|by rewrite lookup_insert_ne].
Qed.

(** An empty account reads back as the empty account. *)
Lemma isEmpty_fields acc : isEmpty acc = true <->
  Nonce acc = 0 /\ Balance acc = 0 /\ Storage acc = ∅ /\ Code acc = [].
Proof.
  unfold isEmpty. rewrite !andb_true_iff, bool_decide_eq_true, !Z.eqb_eq, Z.sgn_null_iff.
  assert (len (Code acc) = 0 <-> Code acc = []) as ->; [|tauto].
  unfold len. destruct (Code acc); simpl; split; (done || lia).
Qed.

Lemma isEmpty_true acc : isEmpty acc = true -> acc = emptyAccount.
Proof. destruct acc. rewrite isEmpty_fields. cbn. intros (-> & -> & -> & ->). done. Qed.

Lemma Get_set s a b acc : State_Get (State_set s a acc) b = if decide (a = b) then acc else State_Get s b.
Proof.
  destruct (decide (a = b)) as [<-|Hne]; [|by apply Get_set_ne].
  destruct (isEmpty acc) eqn:He; [|by apply Get_set_eq].
  unfold State_Get. destruct (set_fields s a acc) as (_ & _ & _ & _ & _ & -> & _). rewrite He.
  rewrite lookup_delete_eq. symmetry. by apply isEmpty_true.
Qed.

Lemma GetCode_Get s a : State_GetCode s a = Code (State_Get s a).
Proof. unfold State_GetCode, State_Get. by destruct (accounts s !! a). Qed.

Lemma GetStorage_Get s a k : State_GetStorage s a k = default ZeroHash (Storage (State_Get s a) !! k).
Proof. unfold State_GetStorage, State_Get. by destruct (accounts s !! a). Qed.

(** The account operations, read back. *)
Lemma Get_Credit s a b v :
  State_Get (Credit s a v) b
  = if decide (a = b) then with_Balance (Balance (State_Get s a) + v) (State_Get s a) else State_Get s b.
Proof. apply Get_set. Qed.

Lemma Get_SubBalance s a b v :
  State_Get (State_SubBalance s a v) b
  = if decide (a = b) then with_Balance (Balance (State_Get s a) - v) (State_Get s a) else State_Get s b.
Proof. apply Get_set. Qed.

Lemma Get_SetNonce s a b n :
  State_Get (State_SetNonce s a n) b = if decide (a = b) then with_Nonce n (State_Get s a) else State_Get s b.
Proof. apply Get_set. Qed.

Lemma Get_SetCode s a b code :
  State_Get (State_SetCode s a code) b = if decide (a = b) then with_Code code (State_Get s a) else State_Get s b.
Proof. apply Get_set. Qed.

Lemma Get_SetStorage s a b k v :
  State_Get (State_SetStorage s a k v) b
  = if decide (a = b) then
      (if Hash_IsZero v then with_Storage (delete k (Storage (State_Get s a))) (State_Get s a)
       else with_Storage (<[k := v]> (Storage (State_Get s a))) (State_Get s a))
    else State_Get s b.
Proof. apply Get_set. Qed.

Create Rewrite HintDb get.
#[export] Hint Rewrite Get_Credit Get_SubBalance Get_SetNonce Get_SetCode Get_SetStorage : get.

#[export] Instance State_StateDBLaws : StateDBLaws State.
Proof.
  split. intros s a n b. cbn. unfold State_Balance. rewrite Get_SetNonce. by destruct (decide (a = b)) as [<-|].
Qed.
