(* ===== verification/StateInv.v ===== *)
(** * Invariants of the world state

    The supply ([supply]: all balances plus the burn total), well-formed
    accounts ([wf_state]) and a protected account (one without code that has
    sent a transaction), each kept by every effect of an interpreter run; then
    the interpreter on [State]: it returns, within its gas, and keeps them. *)
From stdpp Require Import base numbers list gmap sorting.
From Stdlib Require Import ZArith Lia Strings.Byte.
From S2P Require Import Prelude Common Types VmBase Precompiles Vm VmProofs State StateProofs.
#[local] Open Scope Z_scope.
#[local] Open Scope list_scope.

(** ** Sums of balances *)

Definition sumBal (m : gmap Address Account) : Z := map_fold (fun _ acc total => total + Balance acc) 0 m.

Definition balOf (o : option Account) : Z := match o with Some acc => Balance acc | None => 0 end.

(** Everything that exists or was destroyed. *)
Definition supply (s : State) : Z := SumBalances s + Burned s.

Record wf_account (acc : Account) : Prop := {
  wa_nonce : is_u64 (Nonce acc);
  wa_balance : 0 <= Balance acc;
  wa_storage : forall k v, Storage acc !! k = Some v -> Hash_IsZero v = false;
  wa_code : len (Code acc) < 2 ^ 62;
}.

(** No empty account is stored, and every account is well formed. *)
Record wf_state (s : State) : Prop := {
  ws_accounts : forall a acc, accounts s !! a = Some acc -> wf_account acc /\ isEmpty acc = false;
  ws_burned : 0 <= burnedOrZero s;
}.

(** A key-controlled account that has already sent a transaction. *)
Definition eoa (a : Address) (s : State) : Prop := State_Nonce s a <> 0 /\ State_GetCode s a = [].

(** What the interpreter needs of the state; [p] is an account that must never run code. *)
Definition vm_ready (p : option Address) (s : State) : Prop :=
  sp_inv s /\ wf_state s /\ forall a, p = Some a -> eoa a s.

Definition runs_code (p : option Address) (a : Address) : Prop := p <> Some a.

Lemma sumBal_insert_fresh (m : gmap Address Account) a acc :
  m !! a = None -> sumBal (<[a := acc]> m) = sumBal m + Balance acc.
Proof. intros Hm. unfold sumBal. rewrite map_fold_insert_L; [done| |done]. intros. lia. Qed.

Lemma sumBal_delete (m : gmap Address Account) a : sumBal (delete a m) = sumBal m - balOf (m !! a).
Proof.
  destruct (m !! a) as [acc|] eqn:Hm; cbn; [|rewrite delete_id by done; lia].
  rewrite <- (insert_delete_id m a acc Hm) at 2. rewrite sumBal_insert_fresh by apply lookup_delete_eq. lia.
Qed.

Lemma sumBal_insert (m : gmap Address Account) a acc :
  sumBal (<[a := acc]> m) = sumBal m - balOf (m !! a) + Balance acc.
Proof.
  rewrite <- insert_delete_eq, sumBal_insert_fresh by apply lookup_delete_eq. by rewrite sumBal_delete.
Qed.

Lemma balOf_Get s a : balOf (accounts s !! a) = Balance (State_Get s a).
Proof. unfold State_Get. by destruct (accounts s !! a). Qed.

Lemma supply_set s a acc : supply (State_set s a acc) = supply s - Balance (State_Get s a) + Balance acc.
Proof.
  unfold supply, Burned, burnedOrZero, SumBalances.
  destruct (set_fields s a acc) as (_ & _ & _ & -> & _ & -> & _).
  rewrite <- balOf_Get. destruct (isEmpty acc) eqn:He.
  - pose proof (sumBal_delete (accounts s) a). unfold sumBal in *. apply isEmpty_true in He as ->. cbn. lia.
  - pose proof (sumBal_insert (accounts s) a acc). unfold sumBal in *. lia.
Qed.

Lemma supply_Credit s a v : supply (Credit s a v) = supply s + v.
Proof. unfold Credit. rewrite supply_set. cbn. lia. Qed.

Lemma supply_SubBalance s a v : supply (State_SubBalance s a v) = supply s - v.
Proof. unfold State_SubBalance. rewrite supply_set. cbn. lia. Qed.

Lemma supply_Burn s v : 0 <= v -> supply (Burn s (Some v)) = supply s + v.
Proof.
  intros Hv. unfold Burn. destruct (Z.leb_spec (Z.sgn v) 0) as [H|H].
  - assert (v = 0) by lia. lia.
  - unfold supply, SumBalances, Burned, burnedOrZero. cbn. lia.
Qed.

Lemma supply_SetNonce s a n : supply (State_SetNonce s a n) = supply s.
Proof. unfold State_SetNonce. rewrite supply_set. cbn. lia. Qed.

Lemma supply_SetCode s a c : supply (State_SetCode s a c) = supply s.
Proof. unfold State_SetCode. rewrite supply_set. cbn. lia. Qed.

Lemma supply_SetStorage s a k v : supply (State_SetStorage s a k v) = supply s.
Proof. unfold State_SetStorage. rewrite supply_set. destruct (Hash_IsZero v); cbn; lia. Qed.

Create Rewrite HintDb supply.
#[export] Hint Rewrite supply_Credit supply_SubBalance supply_SetNonce supply_SetCode supply_SetStorage : supply.

Lemma supply_content s s' : content s = content s' -> supply s = supply s'.
Proof. unfold content, supply, Burned, SumBalances. intros E. injection E as -> _ _ ->. done. Qed.

(** Running code neither mints nor destroys. *)
Lemma Trans_supply A st (s s' : State) : Trans A st s s' -> sp_inv s -> supply s' = supply s.
Proof.
  apply (Trans_rel A (fun s s' => supply s' = supply s)); intros; autorewrite with supply; try lia.
  - by apply supply_content.
  - done.
Qed.

(** ** Well-formed accounts *)

Lemma wf_emptyAccount : wf_account emptyAccount.
Proof. split; cbn; [unfold is_u64; lia|lia|intros k v; by rewrite lookup_empty|rewrite len_nil; lia]. Qed.

Lemma wf_Get s a : wf_state s -> wf_account (State_Get s a).
Proof.
  intros [Hs _]. unfold State_Get. destruct (accounts s !! a) as [acc|] eqn:E; [by apply (Hs a)|apply wf_emptyAccount].
Qed.

Lemma wf_set s a acc : wf_state s -> wf_account acc -> wf_state (State_set s a acc).
Proof.
  intros [Hs Hb] Ha. destruct (set_fields s a acc) as (_ & _ & _ & E4 & _ & E6 & _).
  split; [|unfold burnedOrZero in *; by rewrite E4]. rewrite E6. intros b acc'. destruct (isEmpty acc) eqn:He.
  - intros [_ H]%lookup_delete_Some. by apply (Hs b).
  - intros [[<- <-]|[_ H]]%lookup_insert_Some; [done|by apply (Hs b)].
Qed.

Lemma wf_content s s' : content s = content s' -> wf_state s -> wf_state s'.
Proof. unfold content. intros E. injection E as E1 _ _ E4. intros [H1 H2]. split; rewrite <- ?E1, <- ?E4; done. Qed.

Lemma wf_with_Balance acc v : wf_account acc -> 0 <= v -> wf_account (with_Balance v acc).
Proof. intros [? ? ? ?] Hv. by split. Qed.

Lemma wf_with_Nonce acc n : wf_account acc -> is_u64 n -> wf_account (with_Nonce n acc).
Proof. intros [? ? ? ?] Hv. by split. Qed.

Lemma wf_with_Code acc c : wf_account acc -> len c < 2 ^ 62 -> wf_account (with_Code c acc).
Proof. intros [? ? ? ?] Hv. by split. Qed.

Lemma wf_SetStorage s a k v : wf_state s -> wf_state (State_SetStorage s a k v).
Proof.
  intros Hs. apply wf_set; [done|]. destruct (wf_Get s a Hs) as [? ? Hst ?].
  destruct (Hash_IsZero v) eqn:Hv; split; try done; cbn; intros k' v'.
  - intros [_ H]%lookup_delete_Some. by eapply Hst.
  - intros [[<- <-]|[_ H]]%lookup_insert_Some; [done|by eapply Hst].
Qed.

Lemma wf_Credit s a v : wf_state s -> 0 <= v -> wf_state (Credit s a v).
Proof. intros Hs Hv. apply wf_set; [done|]. apply wf_with_Balance; [by apply wf_Get|]. destruct (wf_Get s a Hs). lia. Qed.

Lemma wf_SubBalance s a v : wf_state s -> v <= State_Balance s a -> wf_state (State_SubBalance s a v).
Proof. intros Hs Hv. apply wf_set; [done|]. apply wf_with_Balance; [by apply wf_Get|]. unfold State_Balance in Hv. lia. Qed.

Lemma wf_SetNonce s a n : wf_state s -> is_u64 n -> wf_state (State_SetNonce s a n).
Proof. intros Hs Hn. apply wf_set; [done|]. apply wf_with_Nonce; [by apply wf_Get|done]. Qed.

Lemma wf_SetCode s a c : wf_state s -> len c < 2 ^ 62 -> wf_state (State_SetCode s a c).
Proof. intros Hs Hn. apply wf_set; [done|]. apply wf_with_Code; [by apply wf_Get|done]. Qed.

Lemma wf_Burn s v : wf_state s -> wf_state (Burn s v).
Proof.
  intros [H1 H2]. unfold Burn. destruct v as [v|]; [|done]. destruct (Z.leb_spec (Z.sgn v) 0); [done|].
  split; [done|]. unfold burnedOrZero in *. cbn. lia.
Qed.

Lemma is_u64_u64 z : is_u64 (u64 z).
Proof. unfold is_u64. apply u64_range. Qed.

#[export] Hint Resolve wf_SetStorage wf_Credit wf_SubBalance wf_SetNonce wf_SetCode wf_Burn is_u64_u64 : vm.

Lemma Trans_wf A st (s s' : State) : Trans A st s s' -> sp_inv s -> wf_state s -> wf_state s'.
Proof.
  apply (Trans_rel A (fun s s' => wf_state s -> wf_state s')); auto with vm.
  - intros x y. apply wf_content.
  - intros x l _ [? ?]. by split.
  - intros x a b v _ Hv Hx. apply wf_Credit; [apply wf_SubBalance; [done|lia]|lia].
  - intros x a c _ Hc Hx. apply wf_SetCode; [done|]. unfold MaxCodeSize in Hc. lia.
Qed.

(** ** What a state has touched *)

(** Every account that differs is recorded as touched. *)
Definition touches (s s' : State) : Prop :=
  touched s ⊆ touched s' /\ forall a, a ∉ touched s' -> accounts s' !! a = accounts s !! a.

Lemma touches_content s s' : content s = content s' -> touches s s'.
Proof. unfold content, touches. intros E. injection E as -> -> _ _. done. Qed.

Lemma touches_trans s1 s2 s3 : touches s1 s2 -> touches s2 s3 -> touches s1 s3.
Proof. intros [H1 E1] [H2 E2]. split; [set_solver|]. intros a Ha. rewrite E2 by done. apply E1. set_solver. Qed.

Lemma touches_set s a acc : touches s (State_set s a acc).
Proof.
  unfold touches. destruct (set_fields s a acc) as (_ & _ & _ & _ & -> & -> & _). split; [set_solver|].
  intros b Hb. assert (a <> b) by set_solver.
  destruct (isEmpty acc); [by rewrite lookup_delete_ne|by rewrite lookup_insert_ne].
Qed.

Lemma touches_Burn s v : touches s (Burn s v).
Proof. unfold Burn. destruct v as [v|]; [|done]. by destruct (_ <=? _). Qed.

Lemma Trans_touches A st (s s' : State) : Trans A st s s' -> sp_inv s -> touches s s'.
Proof.
  apply (Trans_rel A touches).
  - apply touches_content.
  - apply touches_trans.
  - intros. apply touches_set.
  - done.
  - intros. eapply touches_trans; apply touches_set.
  - intros. apply touches_set.
  - intros. apply touches_set.
Qed.

(** ** A protected account *)

Lemma eoa_content a s s' : content s = content s' -> eoa a s -> eoa a s'.
Proof.
  unfold content, eoa, State_Nonce, State_GetCode, State_Get. intros E. injection E as -> _ _ _. done.
Qed.

(** Its nonce and code stay as they are, whatever runs elsewhere. *)
Lemma Trans_eoa a st (s s' : State) :
  Trans (runs_code (Some a)) st s s' -> sp_inv s -> eoa a s -> eoa a s' /\ State_Nonce s' a = State_Nonce s a.
Proof.
  assert (forall s s' : State, Nonce (State_Get s' a) = Nonce (State_Get s a) ->
    Code (State_Get s' a) = Code (State_Get s a) -> eoa a s -> eoa a s' /\ State_Nonce s' a = State_Nonce s a) as Hk.
  { intros x y En Ec. unfold eoa, State_Nonce. rewrite !GetCode_Get, En, Ec. done. }
  apply (Trans_rel _ (fun s s' => eoa a s -> eoa a s' /\ State_Nonce s' a = State_Nonce s a)).
  - intros x y E. apply Hk; unfold State_Get; unfold content in E; injection E as -> _ _ _; done.
  - intros x y z H1 H2 Hx. destruct (H1 Hx) as [Hy E]. destruct (H2 Hy) as [Hz E']. split; [done|]. by rewrite E'.
  - intros x b k v Hb. apply Hk; autorewrite with get; (destruct (decide (b = a)) as [->|]; [by destruct Hb|done]).
  - intros x l _. by apply Hk.
  - intros x b c v Hb _. apply Hk; autorewrite with get;
      repeat (case_decide; subst; try done); by destruct Hb.
  - intros x b Hb. apply Hk; autorewrite with get; (destruct (decide (b = a)) as [->|]; [by destruct Hb|done]).
  - intros x b c Hb _. apply Hk; autorewrite with get; (destruct (decide (b = a)) as [->|]; [by destruct Hb|done]).
Qed.

(** ** The interpreter on the world state *)

Lemma vm_ready_trans p st (s s' : State) : vm_ready p s -> Trans (runs_code p) st s s' -> vm_ready p s'.
Proof.
  intros (Hi & Hw & He) HT. split_and!.
  - by apply (Trans_savepoints _ _ _ _ HT Hi).
  - by eapply Trans_wf.
  - intros a ->. by apply (Trans_eoa a st s s' HT Hi (He a eq_refl)).
Qed.

Lemma vm_ready_code_len p s a : vm_ready p s -> len (State_GetCode s a) < 2 ^ 62.
Proof. intros (_ & Hw & _). rewrite GetCode_Get. by apply wf_Get. Qed.

Lemma vm_ready_coded p s a : vm_ready p s -> State_GetCode s a <> [] -> runs_code p a.
Proof. intros (_ & _ & He) Hc ->. by destruct (He a eq_refl). Qed.

Lemma vm_ready_fresh p s a : vm_ready p s -> State_Nonce s a = 0 -> State_GetCode s a = [] -> runs_code p a.
Proof. intros (_ & _ & He) Hn _ ->. by destruct (He a eq_refl). Qed.

Section Interpreter.
Context `{Crypto} `{Bn256}.

Lemma Run_State p code input g ctx s :
  0 <= g <= maxGas -> len code < 2 ^ 62 -> len input < 2 ^ 62 ->
  code = [] \/ runs_code p (c_Address ctx) -> vm_ready p s ->
  exists r s', Run code input g ctx (Some s) = Ran r (Some s')
    /\ Trans (runs_code p) (c_Static ctx) s s' /\ 0 <= GasLeft r <= g /\ len (Ret r) < 2 ^ 64.
Proof.
  apply (Run_ok (runs_code p) (vm_ready p)).
  - intros. by eapply vm_ready_trans.
  - intros x a. apply vm_ready_code_len.
  - intros x a. apply vm_ready_coded.
  - intros x a. apply vm_ready_fresh.
Qed.

Lemma step_State p fuel fr s g m c :
  wf_frame fr -> vm_ready p s -> g <= maxGas -> g - 1 < Z.of_nat fuel -> runs_code p (c_Address (f_ctx fr)) ->
  minv (runs_code p) fr s g m -> f_code fr !! Z.to_nat (pc m) = Some c ->
  wp (step (execute fuel) fr c) (Qstep (runs_code p) fr s g) (Epost (runs_code p) fr s g) m.
Proof.
  intros Hf Hs Hg Hfuel Hact Hm Hc. eapply (wp_step (runs_code p) (vm_ready p)); try done.
  - intros. by eapply vm_ready_trans.
  - intros x a. apply vm_ready_code_len.
  - intros x a. apply vm_ready_coded.
  - intros x a. apply vm_ready_fresh.
  - apply execute_ok; try done; [|intros x a; apply vm_ready_code_len|intros x a; apply vm_ready_coded|intros x a; apply vm_ready_fresh|lia].
    intros. by eapply vm_ready_trans.
Qed.

End Interpreter.
