(* ===== verification/Transition.v ===== *)
(** * The state transition (state/transition.go)

    [ApplyTx], [Call], [EstimateGas], [CreditBlockReward], [distributeFee] and
    [ApplyBlock].  The Go code updates one shared [*State]; each definition
    takes it and gives it back.  [outcome]s: a call returns, raises an error
    (with the state it leaves behind), or panics; [NoFuel] is the interpreter's
    only, and never happens (TransitionProofs). *)
From stdpp Require Import base numbers list gmap sorting.
From Stdlib Require Import ZArith Lia Strings.Byte.
From S2P Require Import Prelude Common Rlp Types VmBase Precompiles Vm State.
#[local] Open Scope Z_scope.
#[local] Open Scope list_scope.
#[local] Open Scope go_scope.

(** [E]: what an error carries, [A]: the results. *)
Inductive callres (E A : Type) : Type :=
  | Returns (a : A)
  | Raises (e : E)
  | Panics
  | OutOfFuel.
Arguments Returns {_ _} _.
Arguments Raises {_ _} _.
Arguments Panics {_ _}.
Arguments OutOfFuel {_ _}.

(** The two package variables of the treasury split, set once from the genesis
    configuration (core/blockchain.go). *)
Record rewardSplit : Type := mkSplit { TreasuryRewardBasisPoints : Z; TreasuryRewardAddress : Address }.

Definition GasLimitBoundDivisor : Z := 1024.
Definition MinBlockGasLimit : Z := 1000000.
Definition codeDepositGas : Z := 200.
Definition FeeBurnBasisPoints : Z := 2000.

Definition distributeFee (s : State) (proposer : Address) (fee : Z) : State :=
  let burn := fee * FeeBurnBasisPoints / 10000 in
  let tip := fee - burn in
  Credit (Burn s (Some burn)) proposer tip.

Definition CreditBlockReward (split : rewardSplit) (s : State) (miner : Address) (height : Z) : State :=
  let reward := BlockRewardAt height in
  if (0 <? TreasuryRewardBasisPoints split) && negb (array_eqb (TreasuryRewardAddress split) ZeroAddress) then
    let treasuryCut := reward * TreasuryRewardBasisPoints split / 10000 in
    let s := if array_eqb (TreasuryRewardAddress split) BurnAddress then Burn s (Some treasuryCut)
             else Credit s (TreasuryRewardAddress split) treasuryCut in
    Credit s miner (reward - treasuryCut)
  else Credit s miner reward.

Section Transition.
Context `{Crypto} `{Bn256}.

Definition CreateAddress (sender : Address) (nonce : Z) : res Address :=
  let? b := rlpBytes (abytes sender) in
  let? n := rlpUint nonce in
  let? l := rlpList [b; n] in
  Ok (array_of AddressLength (drop 12 (abytes (Keccak256 [l])))).

(** ** ApplyTx *)

(** The environment every frame of a transaction sees. *)
Definition txEnv (s : State) (tx : Transaction) (sender coinbase : Address) (blockGasLimit : Z)
    (address : Address) : Context :=
  mkContext address sender (tx_Value tx) blockGasLimit sender (tx_GasPrice tx) coinbase
    (number (bctx s)) (time (bctx s)) (difficulty (bctx s)) (tx_ChainID tx) None false.

(** What the creation case does with the result of the init code: the error, the gas used, the state. *)
Definition depositCode (addr : Address) (gasBudget : Z) (res : Result) (s : State) : option error * Z * State :=
  let vmGasUsed := u64 (gasBudget - GasLeft res) in
  match r_Err res with
  | Some e => (Some e, vmGasUsed, s)
  | None =>
      if MaxCodeSize <? len (Ret res) then (Some ErrMaxCodeSize, gasBudget, s)
      else
        let codeGas := u64 (codeDepositGas * len (Ret res)) in
        if GasLeft res <? codeGas then (Some ErrOutOfGas, gasBudget, s)
        else (None, u64 (vmGasUsed + codeGas), State_SetCode s addr (Ret res))
  end.

(** The switch of [ApplyTx]: creation, contract call, burn, transfer. *)
Definition execMessage (s : State) (tx : Transaction) (sender coinbase : Address)
    (blockGasLimit gasBudget value : Z) : callres error (option error * Z * State) :=
  match tx_To tx with
  | None =>
      match CreateAddress sender (tx_Nonce tx) with
      | Ok addr =>
          if negb (State_Nonce s addr =? 0) || (0 <? len (State_GetCode s addr))
          then Returns (Some ErrContractCollision, gasBudget, s)
          else
            let s := Credit s addr value in
            match Run (tx_Data tx) [] gasBudget (txEnv s tx sender coinbase blockGasLimit addr) (Some s) with
            | Ran res (Some s) => Returns (depositCode addr gasBudget res s)
            | Ran _ None | Crashed => Panics
            | NoFuel => OutOfFuel
            end
      | _ => Panics
      end
  | Some to =>
      if 0 <? len (State_GetCode s to) then
        let s := Credit s to value in
        match Run (State_GetCode s to) (tx_Data tx) gasBudget
                (txEnv s tx sender coinbase blockGasLimit to) (Some s) with
        | Ran res (Some s) => Returns (r_Err res, u64 (gasBudget - GasLeft res), s)
        | Ran _ None | Crashed => Panics
        | NoFuel => OutOfFuel
        end
      else if array_eqb to BurnAddress then Returns (None, 0, Burn s (Some value))
      else Returns (None, 0, Credit s to value)
  end.

(** From the switch to the end: commit or undo, refund, distribute the fee. *)
Definition finishTx (snap logStart intrinsic gasBudget maxFee gasPrice : Z) (sender coinbase : Address)
    (vmErr : option error) (vmGasUsed : Z) (s : State) : Z * Z * list Log * State :=
  let '(status, vmGasUsed, s) :=
    match vmErr with
    | Some e => (ReceiptFailed, if bool_decide (e = ErrReverted) then vmGasUsed else gasBudget,
                 State_RevertToSnapshot s snap)
    | None => (ReceiptSuccess, vmGasUsed, DiscardSnapshots s)
    end in
  let gasUsed := u64 (intrinsic + vmGasUsed) in
  let spent := gasUsed * gasPrice in
  let refund := maxFee - spent in
  let s := if 0 <? Z.sgn refund then Credit s sender refund else s in
  let s := distributeFee s coinbase spent in
  (gasUsed, status, LogsSince s logStart, s).

(** The results: gas used, status, the transaction's logs. *)
Definition ApplyTx (s : State) (tx : Transaction) (coinbase : Address) (blockGasLimit : Z)
    : callres (error * State) (Z * Z * list Log * State) :=
  match Sender tx with
  | Err e => Raises (e, s)
  | Panic => Panics
  | Ok sender =>
      let acc := State_Get s sender in
      if tx_Nonce tx <? Nonce acc then Raises (ErrNonceTooLow, s)
      else if Nonce acc <? tx_Nonce tx then Raises (ErrNonceTooHigh, s)
      else
        let intrinsic := IntrinsicGasFor (tx_Data tx) (bool_decide (tx_To tx = None)) in
        if tx_GasLimit tx <? intrinsic then Raises (ErrGasLimit, s)
        else if (0 <? blockGasLimit) && (blockGasLimit <? tx_GasLimit tx) then Raises (ErrGasLimit, s)
        else match Cost tx, tx_GasPrice tx, tx_Value tx with
        | Ok cost, Some gasPrice, Some value =>
            if Balance acc <? cost then Raises (ErrInsufficient, s)
            else
              let maxFee := tx_GasLimit tx * gasPrice in
              let s := State_set s sender (with_Nonce (u64 (Nonce acc + 1))
                                             (with_Balance (Balance acc - maxFee) acc)) in
              let logStart := LogCount s in
              let '(snap, s) := State_Snapshot s in
              let sacc := State_Get s sender in
              let s := State_set s sender (with_Balance (Balance sacc - value) sacc) in
              let gasBudget := u64 (tx_GasLimit tx - intrinsic) in
              match execMessage s tx sender coinbase blockGasLimit gasBudget value with
              | Returns (vmErr, vmGasUsed, s) =>
                  Returns (finishTx snap logStart intrinsic gasBudget maxFee gasPrice sender coinbase
                             vmErr vmGasUsed s)
              | Raises e => Raises (e, s)
              | Panics => Panics
              | OutOfFuel => OutOfFuel
              end
        | _, _, _ => Panics
        end
  end.

(** ** Read-only calls and gas estimation *)

(** A [vm.Context] with only the caller, the value and the running address set. *)
Definition probeContext (from : Address) (value : Z) (address : Address) : Context :=
  mkContext address from (Some value) 0 ZeroAddress None ZeroAddress 0 0 None 0 None false.

Definition Call (s : State) (from to : Address) (data : list byte) (gas : Z) : exres State :=
  Run (State_GetCode s to) data gas (probeContext from 0 to) (Some s).

Definition ternErr (isOutOfGas : bool) (err : error) : option error := if isOutOfGas then None else Some err.

(** One probe of the message at a gas limit: whether it completes, and the error no gas can fix;
    [defer RevertToSnapshot] undoes it. *)
Definition probe (from : Address) (to : option Address) (data : list byte) (value intrinsic : Z)
    (s : State) (gasLimit : Z) : callres error (bool * option error * State) :=
  if gasLimit <? intrinsic then Returns (false, None, s)
  else
    let budget := u64 (gasLimit - intrinsic) in
    let '(snap, s) := State_Snapshot s in
    let fault e s := Returns (false, ternErr (bool_decide (e = ErrOutOfGas)) e, State_RevertToSnapshot s snap) in
    match to with
    | None =>
        match CreateAddress from (State_Nonce s from) with
        | Ok addr =>
            let s := Credit s addr value in
            match Run data [] budget (probeContext from value addr) (Some s) with
            | Ran res (Some s) =>
                match r_Err res with
                | Some e => fault e s
                | None =>
                    if MaxCodeSize <? len (Ret res)
                    then Returns (false, Some ErrMaxCodeSize, State_RevertToSnapshot s snap)
                    else if GasLeft res <? u64 (codeDepositGas * len (Ret res))
                    then Returns (false, None, State_RevertToSnapshot s snap)
                    else Returns (true, None, State_RevertToSnapshot s snap)
                end
            | Ran _ None | Crashed => Panics
            | NoFuel => OutOfFuel
            end
        | _ => Panics
        end
    | Some a =>
        if len (State_GetCode s a) =? 0 then Returns (true, None, State_RevertToSnapshot s snap)
        else
          let s := Credit s a value in
          match Run (State_GetCode s a) data budget (probeContext from value a) (Some s) with
          | Ran res (Some s) =>
              match r_Err res with
              | Some e => fault e s
              | None => Returns (true, None, State_RevertToSnapshot s snap)
              end
          | Ran _ None | Crashed => Panics
          | NoFuel => OutOfFuel
          end
    end.

(** The binary search between a failing [lo] and a succeeding [hi]. *)
Fixpoint estimate_loop (fuel : nat) (from : Address) (to : option Address) (data : list byte)
    (value intrinsic : Z) (s : State) (lo hi : Z) : callres error (Z * State) :=
  match fuel with
  | O => OutOfFuel
  | S f =>
      if u64 (lo + 1) <? hi then
        let mid := u64 (lo + u64 (hi - lo) / 2) in
        match probe from to data value intrinsic s mid with
        | Returns (_, Some _, s) => estimate_loop f from to data value intrinsic s mid hi
        | Returns (true, None, s) => estimate_loop f from to data value intrinsic s lo mid
        | Returns (false, None, s) => estimate_loop f from to data value intrinsic s mid hi
        | Raises e => Raises e
        | Panics => Panics
        | OutOfFuel => OutOfFuel
        end
      else Returns (hi, s)
  end.

Definition EstimateGas (s : State) (from : Address) (to : option Address) (data : list byte)
    (value : option Z) (gasCap : Z) : callres (error * State) (Z * State) :=
  let intrinsic := IntrinsicGasFor data (bool_decide (to = None)) in
  let value := default 0 value in
  match probe from to data value intrinsic s gasCap with
  | Returns (_, Some e, s) => Raises (e, s)
  | Returns (false, None, s) => Raises (ErrOutOfGas, s)
  | Returns (true, None, s) =>
      match estimate_loop 66 from to data value intrinsic s (u64 (intrinsic - 1)) gasCap with
      | Returns r => Returns r
      | Raises e => Raises (e, s)
      | Panics => Panics
      | OutOfFuel => OutOfFuel
      end
  | Raises e => Raises (e, s)
  | Panics => Panics
  | OutOfFuel => OutOfFuel
  end.

(** ** ApplyBlock *)

(** The checks that bind a block to its parent. *)
Definition checkParent (h ph : Header) : res unit :=
  if negb (array_eqb (ParentHash h) (Header_Hash ph)) then Err ErrBadParent
  else if negb (Height h =? u64 (Height ph + 1)) then Err ErrBadHeight
  else if Timestamp h <=? Timestamp ph then Err ErrBadTimestamp
  else
    let lim := h_GasLimit h in
    let plim := h_GasLimit ph in
    let diff := if lim <? plim then u64 (plim - lim) else u64 (lim - plim) in
    if (lim <? MinBlockGasLimit) || (plim / GasLimitBoundDivisor <=? diff) then Err ErrBadGasLimit
    else Ok tt.

(** The loop over the transactions. *)
Fixpoint applyTxs (s : State) (txs : list Transaction) (h : Header) (totalGas : Z) (receipts : list Receipt)
    : callres error (State * Z * list Receipt) :=
  match txs with
  | [] => Returns (s, totalGas, receipts)
  | tx :: txs =>
      match ApplyTx s tx (Proposer h) (h_GasLimit h) with
      | Returns (used, status, logs, s) =>
          let totalGas := u64 (totalGas + used) in
          if h_GasLimit h <? totalGas then Raises ErrGasLimit
          else applyTxs s txs h totalGas (receipts ++ [mkReceipt status totalGas used logs])
      | Raises (e, _) => Raises e
      | Panics => Panics
      | OutOfFuel => OutOfFuel
      end
  end.

(** The body under the panic firewall. *)
Definition applyBlockBody (split : rewardSplit) (parent : State) (b : Block) (parentHeader : option Header)
    : callres error (State * list Receipt) :=
  let h := b_Header b in
  if negb (VerifyTxRoot b) then Raises ErrBadTxRoot
  else match (match parentHeader with
              | None => if 0 <? Height h then Err ErrBadParent else Ok tt
              | Some ph => checkParent h ph
              end) with
  | Err e => Raises e
  | Panic => Panics
  | Ok _ =>
      let next := ClearTouched (State_Copy parent) in
      let next := SetBlockContext next (Height h) (u64 (Timestamp h) / 1000) (Difficulty h) in
      match applyTxs next (b_Txs b) h 0 [] with
      | Returns (next, totalGas, receipts) =>
          if negb (totalGas =? h_GasUsed h) then Raises ErrGasUsed
          else if negb (array_eqb (ReceiptRoot receipts) (h_ReceiptRoot h)) then Raises ErrBadReceiptRoot
          else
            let next := CreditBlockReward split next (Proposer h) (Height h) in
            if negb (array_eqb (Root next) (StateRoot h)) then Raises ErrBadStateRoot
            else Returns (next, receipts)
      | Raises e => Raises e
      | Panics => Panics
      | OutOfFuel => OutOfFuel
      end
  end.

(** [defer recover]: a panic becomes a rejected block. *)
Definition ApplyBlock (split : rewardSplit) (parent : State) (b : Block) (parentHeader : option Header)
    : callres error (State * list Receipt) :=
  match applyBlockBody split parent b parentHeader with
  | Panics => Raises ErrBlockPanic
  | r => r
  end.

End Transition.
