(* ===== verification/TransitionProofs.v ===== *)
(** * Correctness of the state transition

    A transaction either changes nothing (an error) or commits; when it commits
    the supply is conserved, the state stays well formed, the gas lies between
    the intrinsic gas and the limit, a failed execution leaves exactly the fee
    and the nonce, and an account without code advances its nonce by exactly
    one.  Blocks add their reward and nothing else.  Nothing here panics or
    fails to return. *)
From stdpp Require Import base numbers list gmap sorting.
From Stdlib Require Import ZArith Lia Strings.Byte.
From S2P Require Import Prelude Common Rlp Types VmBase Precompiles Vm VmProofs State StateProofs StateInv Transition.
#[local] Open Scope Z_scope.
#[local] Open Scope list_scope.

(** The sender's account with [fee] charged and its nonce advanced. *)
Definition chargeTx (s : State) (sender : Address) (fee : Z) : State :=
  let acc := State_Get s sender in
  State_set s sender (with_Nonce (u64 (Nonce acc + 1)) (with_Balance (Balance acc - fee) acc)).

(** What the steps between the savepoint and its commit or revert keep. *)
Record tx_step (p : option Address) (s s' : State) : Prop := {
  ts_ready : vm_ready p s';
  ts_depth : (depth s <= depth s')%nat;
  ts_saved : forall i, (i < depth s)%nat -> saved s' i = saved s i;
  ts_nonce : forall a, p = Some a -> State_Nonce s' a = State_Nonce s a;
  ts_touches : touches s s';
}.

Lemma tx_step_trans p s1 s2 s3 : tx_step p s1 s2 -> tx_step p s2 s3 -> tx_step p s1 s3.
Proof.
  intros [? ? Hs1 Hn1 Ht1] [? ? Hs2 Hn2 Ht2]. split; [done|lia| | |by eapply touches_trans].
  - intros i Hi. rewrite Hs2 by lia. by apply Hs1.
  - intros a Ha. rewrite Hn2 by done. by apply Hn1.
Qed.

Lemma tx_step_Trans p st s s' : vm_ready p s -> Trans (runs_code p) st s s' -> tx_step p s s'.
Proof.
  intros Hr HT. pose proof Hr as (Hi & Hw & He).
  destruct (Trans_savepoints _ _ _ _ HT Hi) as (_ & Hd & Hs). split; [by eapply vm_ready_trans|done|done| |by eapply Trans_touches].
  intros a ->. by apply (Trans_eoa a st s s' HT Hi (He a eq_refl)).
Qed.

(** A mutator that keeps the state well formed and the protected account's nonce and code. *)
Lemma tx_step_op p s o :
  is_mutator o -> vm_ready p s -> wf_state (run_op s o) ->
  (forall a, p = Some a -> Nonce (State_Get (run_op s o) a) = Nonce (State_Get s a)
                           /\ Code (State_Get (run_op s o) a) = Code (State_Get s a)) ->
  touches s (run_op s o) -> tx_step p s (run_op s o).
Proof.
  intros Hm (Hi & Hw & He) Hw' Hk Ht. destruct (mutator_savepoints s o Hm Hi) as (Hi' & Hd & Hs).
  assert (forall a, p = Some a -> State_Nonce (run_op s o) a = State_Nonce s a) as Hn.
  { intros a Ha. unfold State_Nonce. by apply Hk. }
  split; [split_and!; try done|lia|done|done|done].
  intros a Ha. destruct (He a Ha) as [Hn' Hc]. destruct (Hk a Ha) as [_ Hkc]. split; [by rewrite Hn|].
  rewrite GetCode_Get in *. by rewrite Hkc.
Qed.

Lemma tx_step_Credit p s a v : vm_ready p s -> 0 <= v -> tx_step p s (Credit s a v).
Proof.
  intros Hr Hv. apply (tx_step_op p s (OCredit a v)); [done..|by apply wf_Credit; [apply Hr|]| |apply touches_set].
  intros b _. cbn [run_op]. autorewrite with get. by destruct (decide (a = b)) as [<-|].
Qed.

Lemma tx_step_Burn p s v : vm_ready p s -> tx_step p s (Burn s v).
Proof.
  intros Hr. apply (tx_step_op p s (OBurn v)); [done..|by apply wf_Burn; apply Hr| |apply touches_Burn].
  intros b _. cbn [run_op]. unfold Burn. destruct v as [v|]; [|done]. by destruct (_ <=? _).
Qed.

Lemma tx_step_SetCode p s a code :
  vm_ready p s -> runs_code p a -> len code < 2 ^ 62 -> tx_step p s (State_SetCode s a code).
Proof.
  intros Hr Ha Hc. apply (tx_step_op p s (OSetCode a code)); [done..|by apply wf_SetCode; [apply Hr|]| |apply touches_set].
  intros b Hb. cbn [run_op]. autorewrite with get. destruct (decide (a = b)) as [<-|]; [by destruct Ha|done].
Qed.

(** ** Settling the fee *)

(** The refund and the fee, as [finishTx] ends. *)
Definition settle (s : State) (sender coinbase : Address) (maxFee spent : Z) : State :=
  distributeFee (if 0 <? Z.sgn (maxFee - spent) then Credit s sender (maxFee - spent) else s) coinbase spent.

(** Nonces and code are as before. *)
Definition same_code (s s' : State) : Prop :=
  forall a, Nonce (State_Get s' a) = Nonce (State_Get s a) /\ Code (State_Get s' a) = Code (State_Get s a).

Lemma Get_Burn s v a : State_Get (Burn s v) a = State_Get s a.
Proof. unfold Burn. destruct v as [v|]; [|done]. by destruct (_ <=? _). Qed.

Lemma snapshots_Burn s v : snapshots (Burn s v) = snapshots s.
Proof. unfold Burn. destruct v as [v|]; [|done]. by destruct (_ <=? _). Qed.

Lemma snapshots_Credit s a v : snapshots (Credit s a v) = snapshots s.
Proof. unfold Credit. by destruct (set_fields s a (with_Balance (Balance (State_Get s a) + v) (State_Get s a))). Qed.

(** With no savepoint nothing is journalled. *)
Lemma journal_set s a acc : snapshots s = [] -> journal (State_set s a acc) = journal s.
Proof. intros Hs. destruct (set_fields s a acc) as (_ & _ & _ & _ & _ & _ & ->). by rewrite Hs. Qed.

Lemma journal_Burn s v : journal (Burn s v) = journal s.
Proof. unfold Burn. destruct v as [v|]; [|done]. by destruct (_ <=? _). Qed.

Lemma same_code_Credit s a v : same_code s (Credit s a v).
Proof. intros b. rewrite Get_Credit. by destruct (decide (a = b)) as [<-|]. Qed.

Lemma fee_split fee : 0 <= fee -> 0 <= fee * FeeBurnBasisPoints / 10000 <= fee.
Proof. intros Hf. unfold FeeBurnBasisPoints. split; [apply Z.div_pos; lia|apply Z.div_le_upper_bound; lia]. Qed.

(** All of the fee is either burned or paid to the proposer. *)
Lemma distributeFee_ok s cb fee : wf_state s -> 0 <= fee ->
  wf_state (distributeFee s cb fee) /\ supply (distributeFee s cb fee) = supply s + fee
  /\ snapshots (distributeFee s cb fee) = snapshots s /\ same_code s (distributeFee s cb fee).
Proof.
  intros Hw Hf. pose proof (fee_split fee Hf). unfold distributeFee. split_and!.
  - apply wf_Credit; [by apply wf_Burn|lia].
  - rewrite supply_Credit, supply_Burn by lia. lia.
  - by rewrite snapshots_Credit, snapshots_Burn.
  - intros a. rewrite Get_Credit, !Get_Burn. by destruct (decide (cb = a)) as [<-|].
Qed.

Lemma settle_ok s sender cb maxFee spent : wf_state s -> 0 <= spent <= maxFee ->
  wf_state (settle s sender cb maxFee spent) /\ supply (settle s sender cb maxFee spent) = supply s + maxFee
  /\ snapshots (settle s sender cb maxFee spent) = snapshots s /\ same_code s (settle s sender cb maxFee spent).
Proof.
  intros Hw Hs. unfold settle. destruct (Z.ltb_spec 0 (Z.sgn (maxFee - spent))).
  - destruct (distributeFee_ok (Credit s sender (maxFee - spent)) cb spent) as (? & -> & -> & Hc);
      [apply wf_Credit; [done|lia]|lia|].
    rewrite supply_Credit, snapshots_Credit. split_and!; [done|lia|done|].
    intros a. destruct (Hc a) as [-> ->]. apply same_code_Credit.
  - destruct (distributeFee_ok s cb spent) as (? & -> & -> & Hc); [done|lia|]. split_and!; [done|lia|done..].
Qed.

Lemma settle_journal s sender cb maxFee spent :
  snapshots s = [] -> journal (settle s sender cb maxFee spent) = journal s.
Proof.
  intros Hs. unfold settle, distributeFee, Credit at 1.
  destruct (0 <? Z.sgn (maxFee - spent)); rewrite journal_set, journal_Burn by (by rewrite snapshots_Burn, ?snapshots_Credit); [|done].
  by apply journal_set.
Qed.

Lemma touches_settle s sender cb maxFee spent : touches s (settle s sender cb maxFee spent).
Proof.
  unfold settle, distributeFee. eapply touches_trans; [|apply touches_set]. eapply touches_trans; [|apply touches_Burn].
  destruct (_ <? _); [apply touches_set|done].
Qed.

Lemma content_set_set s a x y : content (State_set (State_set s a x) a y) = content (State_set s a y).
Proof.
  unfold content, burnedOrZero. destruct (set_fields (State_set s a x) a y) as (_ & -> & _ & -> & -> & -> & _).
  destruct (set_fields s a x) as (_ & -> & _ & -> & -> & -> & _).
  destruct (set_fields s a y) as (_ & -> & _ & -> & -> & -> & _).
  f_equal; f_equal; f_equal.
  - destruct (isEmpty x), (isEmpty y);
      rewrite ?delete_delete_eq, ?insert_delete_eq, ?delete_insert_eq, ?insert_insert_eq; done.
  - apply set_eq. intros b. set_unfold. intuition congruence.
Qed.

Lemma content_norm s : content (norm s) = content s.
Proof. done. Qed.

(** Charging the limit and refunding the rest is charging what was spent. *)
Lemma settle_charge s sender cb maxFee spent :
  spent <= maxFee ->
  content (settle (norm (chargeTx s sender maxFee)) sender cb maxFee spent)
  = content (distributeFee (chargeTx s sender spent) cb spent).
Proof.
  intros Hs. unfold settle, distributeFee.
  apply (mutator_content _ _ (OCredit cb _)); [done|]. apply (mutator_content _ _ (OBurn (Some (spent * FeeBurnBasisPoints / 10000)))); [done|].
  destruct (Z.ltb_spec 0 (Z.sgn (maxFee - spent))).
  - transitivity (content (Credit (chargeTx s sender maxFee) sender (maxFee - spent))).
    { by apply (mutator_content _ _ (OCredit sender (maxFee - spent))). }
    unfold Credit, chargeTx. rewrite content_set_set, Get_set, decide_True by done. f_equal. f_equal.
    destruct (State_Get s sender). unfold with_Nonce, with_Balance. cbn. f_equal. lia.
  - rewrite content_norm. assert (maxFee = spent) as -> by lia. done.
Qed.

Section Proofs.
Context `{Crypto} `{Bn256}.

(** The two derivations of a contract address, state's and the interpreter's, agree. *)
Lemma CreateAddress_createAddress a n : is_u64 n -> CreateAddress a n = Ok (createAddress a n).
Proof.
  intros Hn. unfold CreateAddress, createAddress, is_u64 in *.
  pose proof (len_abytes a) as Ha. change (Z.of_nat AddressLength) with 20 in Ha.
  rewrite rlpBytes_Bytes, rlpUint_Uint by lia.
  cbn [res_bind]. unfold rlpList.
  pose proof (len_u64 n Hn). pose proof (len_Bytes_le (abytes a)). pose proof (len_Bytes_le (be_min n)).
  rewrite rlpLength_lengthPrefix; [done|]. cbn [concat]. rewrite app_nil_r, len_app, (Uint_be_min n) by done.
  lia.
Qed.

(** ** The message *)

(** Credit the value, run code of [a], and then: the step, the supply, the gas. *)
Lemma credit_run p s a value code input g ctx :
  vm_ready p s -> 0 <= value -> 0 <= g <= maxGas -> len code < 2 ^ 62 -> len input < 2 ^ 62 ->
  code = [] \/ runs_code p (c_Address ctx) ->
  exists r s', Run code input g ctx (Some (Credit s a value)) = Ran r (Some s')
    /\ tx_step p s s' /\ supply s' = supply s + value /\ 0 <= GasLeft r <= g /\ len (Ret r) < 2 ^ 64.
Proof.
  intros Hr Hv Hg Hc Hi Ha. pose proof (tx_step_Credit p s a value Hr Hv) as Hs1.
  destruct (Run_State p code input g ctx (Credit s a value)) as (r & s' & E & HT & Hg' & Hret); try done.
  { apply Hs1. }
  exists r, s'. split_and!; try done; try lia.
  - eapply tx_step_trans; [exact Hs1|]. eapply tx_step_Trans; [apply Hs1|done].
  - erewrite Trans_supply; [apply supply_Credit|done|apply Hs1].
Qed.

Lemma depositCode_ok p addr g r s0 s v :
  tx_step p s0 s -> runs_code p addr -> supply s = supply s0 + v -> 0 <= GasLeft r <= g -> g < 2 ^ 64 ->
  exists vmErr used s', depositCode addr g r s = (vmErr, used, s')
    /\ tx_step p s0 s' /\ 0 <= used <= g /\ supply s' = supply s0 + v.
Proof.
  intros Hs Ha Hsup Hg Hg64. unfold depositCode, codeDepositGas. rewrite (u64_small (g - GasLeft r)) by lia.
  destruct (r_Err r) as [e|]; [do 3 eexists; split; [done|]; split; [done|lia]|].
  unfold MaxCodeSize. destruct (Z.ltb_spec 24576 (len (Ret r))); [do 3 eexists; split; [done|]; split; [done|lia]|].
  pose proof (len_nonneg (Ret r)). rewrite (u64_small (200 * _)) by lia.
  destruct (Z.ltb_spec (GasLeft r) (200 * len (Ret r))); [do 3 eexists; split; [done|]; split; [done|lia]|].
  rewrite u64_small by lia. do 3 eexists. split; [done|]. split_and!; [|lia..|by rewrite supply_SetCode].
  eapply tx_step_trans; [exact Hs|]. apply tx_step_SetCode; [apply Hs|done|lia].
Qed.

Lemma tx_step_refl p s : vm_ready p s -> tx_step p s s.
Proof. by split. Qed.

Lemma execMessage_ok p s tx sender cb lim g value :
  vm_ready p s -> sound_tx tx -> tx_Value tx = Some value -> 0 <= g <= maxGas ->
  exists vmErr used s', execMessage s tx sender cb lim g value = Returns (vmErr, used, s')
    /\ tx_step p s s' /\ 0 <= used <= g /\ (vmErr = None -> supply s' = supply s + value).
Proof.
  intros Hr Hwf Hv Hg. pose proof (sx_Data tx Hwf). assert (0 <= value) as Hv0.
  { destruct (sx_Value tx Hwf) as (v & E & Hv'). rewrite E in Hv. injection Hv as <-. lia. }
  assert (len (@nil byte) < 2 ^ 62) by (rewrite len_nil; lia).
  assert (maxGas = 2 ^ 60) as HM by done. unfold execMessage. destruct (tx_To tx) as [to|].
  - destruct (Z.ltb_spec 0 (len (State_GetCode s to))) as [Hc|Hc].
    + assert (State_GetCode (Credit s to value) to = State_GetCode s to) as ->.
      { rewrite !GetCode_Get, Get_Credit. by rewrite decide_True. }
      destruct (credit_run p s to value (State_GetCode s to) (tx_Data tx) g
        (txEnv (Credit s to value) tx sender cb lim to)) as (r & s' & -> & Hs & Hsup & Hgl & _); try done; try lia.
      * by eapply vm_ready_code_len.
      * right. apply (vm_ready_coded p s to); [done|]. intros E. by rewrite E in Hc.
      * rewrite u64_small by lia. do 3 eexists. split; [done|]. split; [done|]. split; [lia|done].
    + destruct (array_eqb to BurnAddress); do 3 eexists; (split; [done|]); split_and!; try lia.
      * by apply tx_step_Burn.
      * intros _. by apply supply_Burn.
      * by apply tx_step_Credit.
      * intros _. apply supply_Credit.
  - rewrite CreateAddress_createAddress by apply (sx_Nonce tx Hwf).
    set (addr := createAddress sender (tx_Nonce tx)).
    destruct (Z.eqb_spec (State_Nonce s addr) 0) as [Hn|]; cbn [negb orb].
    2: { do 3 eexists. split; [done|]. split_and!; [by apply tx_step_refl|lia..|done]. }
    destruct (Z.ltb_spec 0 (len (State_GetCode s addr))) as [|Hc].
    { do 3 eexists. split; [done|]. split_and!; [by apply tx_step_refl|lia..|done]. }
    assert (runs_code p addr) as Ha.
    { eapply vm_ready_fresh; [done..|]. destruct (State_GetCode s addr); [done|]. rewrite len_cons in Hc.
      pose proof (len_nonneg l). lia. }
    destruct (credit_run p s addr value (tx_Data tx) [] g (txEnv (Credit s addr value) tx sender cb lim addr))
      as (r & s' & -> & Hs & Hsup & Hgl & _); try done; try lia; [by right|].
    destruct (depositCode_ok p addr g r s s' value Hs Ha Hsup Hgl ltac:(lia)) as (e & u & s'' & -> & ? & ? & ?).
    eauto 10.
Qed.

(** ** One transaction *)

(** The nonce of [a] once [sender]'s transaction is charged. *)
Definition bumped (s : State) (sender a : Address) : Z :=
  if decide (a = sender) then u64 (State_Nonce s a + 1) else State_Nonce s a.

(** [p], if any, is an account without code that has then sent a transaction. *)
Definition protects (p : option Address) (s : State) (sender : Address) : Prop :=
  forall a, p = Some a -> State_GetCode s a = [] /\ bumped s sender a <> 0.

(** What a committed transaction guarantees. *)
Record committed (p : option Address) (s : State) (tx : Transaction) (sender cb : Address) (gp used status : Z)
    (s' : State) : Prop := {
  cm_wf : wf_state s';
  cm_snapshots : snapshots s' = [];
  cm_journal : journal s = [] -> journal s' = [];
  cm_supply : supply s' = supply s;
  cm_gas : IntrinsicGasFor (tx_Data tx) (bool_decide (tx_To tx = None)) <= used <= tx_GasLimit tx;
  cm_status : status = ReceiptSuccess
    \/ status = ReceiptFailed
       /\ content s' = content (distributeFee (chargeTx s sender (used * gp)) cb (used * gp));
  cm_eoa : forall a, p = Some a -> eoa a s' /\ State_Nonce s' a = bumped s sender a;
  cm_touches : touches s s';
}.

Lemma chargeTx_ok s sender fee : wf_state s -> fee <= State_Balance s sender ->
  wf_state (chargeTx s sender fee) /\ supply (chargeTx s sender fee) = supply s - fee
  /\ snapshots (chargeTx s sender fee) = snapshots s
  /\ (forall a, State_Nonce (chargeTx s sender fee) a = bumped s sender a)
  /\ (forall a, State_GetCode (chargeTx s sender fee) a = State_GetCode s a)
  /\ State_Balance (chargeTx s sender fee) sender = State_Balance s sender - fee.
Proof.
  intros Hw Hf. unfold chargeTx, bumped, State_Balance, State_Nonce in *. split_and!.
  - apply wf_set; [done|]. apply wf_with_Nonce; [|apply is_u64_u64]. apply wf_with_Balance; [by apply wf_Get|lia].
  - rewrite supply_set. cbn. lia.
  - by destruct (set_fields s sender (with_Nonce (u64 (Nonce (State_Get s sender) + 1))
      (with_Balance (Balance (State_Get s sender) - fee) (State_Get s sender)))).
  - intros a. rewrite Get_set. destruct (decide (sender = a)) as [<-|]; [by rewrite decide_True|by rewrite decide_False].
  - intros a. rewrite !GetCode_Get, Get_set. by destruct (decide (sender = a)) as [<-|].
  - rewrite Get_set, decide_True; [done|done].
Qed.

(** After the charge and the value's debit, inside the savepoint. *)
Lemma debited_ok p s1 sender value :
  wf_state s1 -> snapshots s1 = [] -> 0 <= value <= State_Balance s1 sender ->
  (forall a, p = Some a -> eoa a s1) ->
  let s3 := State_SubBalance (snd (State_Snapshot s1)) sender value in
  vm_ready p s3 /\ depth s3 = 1%nat /\ saved s3 0 = norm s1 /\ supply s3 = supply s1 - value
  /\ forall a, State_Nonce s3 a = State_Nonce s1 a.
Proof.
  intros Hw Hsp Hv Hp s3. pose proof (Snapshot_inv s1 (sp_inv_empty s1 Hsp)) as Hi.
  destruct (mutator_savepoints _ (OSubBalance sender value) I Hi) as (Hi3 & Hd3 & Hs3).
  rewrite Snapshot_depth in Hd3, Hs3. assert (depth s1 = 0%nat) as Hd1 by (unfold depth; by rewrite Hsp).
  assert (forall a, Nonce (State_Get s3 a) = Nonce (State_Get s1 a) /\ Code (State_Get s3 a) = Code (State_Get s1 a)) as Hg.
  { intros a. subst s3. rewrite Get_SubBalance. by destruct (decide (sender = a)) as [<-|]. }
  split_and!.
  - split_and!; [done|apply wf_SubBalance; [by apply (wf_content s1)|apply Hv]|]. intros a Ha. destruct (Hp a Ha) as [H1 H2].
    unfold eoa, State_Nonce in *. rewrite GetCode_Get in *. by destruct (Hg a) as [-> ->].
  - etransitivity; [exact Hd3|lia].
  - etransitivity; [apply Hs3; lia|]. rewrite <- Hd1. apply Snapshot_saved_new.
  - unfold s3. by rewrite supply_SubBalance.
  - intros a. apply Hg.
Qed.

(** The end of a transaction, from what holds just before the refund. *)
Lemma settle_committed p s tx sender cb gp used status s5 :
  wf_state s5 -> snapshots s5 = [] -> (journal s = [] -> journal s5 = []) ->
  supply s5 = supply s - tx_GasLimit tx * gp -> 0 <= gp ->
  0 <= used -> IntrinsicGasFor (tx_Data tx) (bool_decide (tx_To tx = None)) <= used <= tx_GasLimit tx ->
  (forall a, p = Some a -> eoa a s5 /\ State_Nonce s5 a = bumped s sender a) ->
  status = ReceiptSuccess \/ status = ReceiptFailed /\ s5 = norm (chargeTx s sender (tx_GasLimit tx * gp)) ->
  touches s s5 -> committed p s tx sender cb gp used status (settle s5 sender cb (tx_GasLimit tx * gp) (used * gp)).
Proof.
  intros Hw Hsp Hj Hsup Hgp Hu0 Hu Hp Hst Ht5. assert (0 <= used * gp <= tx_GasLimit tx * gp) as Hfee by nia.
  destruct (settle_ok s5 sender cb _ _ Hw Hfee) as (Hw' & Hsup' & Hsp' & Hc).
  split; [done|by rewrite Hsp'|by intros; rewrite settle_journal; auto|lia|done| | |].
  - destruct Hst as [->|[-> ->]]; [by left|]. right. split; [done|]. apply settle_charge. lia.
  - intros a Ha. destruct (Hp a Ha) as [[H1 H2] H3]. unfold eoa, State_Nonce in *. rewrite GetCode_Get in *.
    by destruct (Hc a) as [-> ->].
  - eapply touches_trans; [exact Ht5|apply touches_settle].
Qed.

Lemma finishTx_ok p s tx sender cb gp value vmErr used s4 logStart :
  wf_state s -> snapshots s = [] -> sound_tx tx -> 0 <= gp -> 0 <= value ->
  tx_GasLimit tx * gp + value <= State_Balance s sender -> protects p s sender ->
  let intrinsic := IntrinsicGasFor (tx_Data tx) (bool_decide (tx_To tx = None)) in
  intrinsic <= tx_GasLimit tx -> 0 <= used <= tx_GasLimit tx - intrinsic ->
  let s1 := chargeTx s sender (tx_GasLimit tx * gp) in
  let s3 := State_SubBalance (snd (State_Snapshot s1)) sender value in
  tx_step p s3 s4 -> (vmErr = None -> supply s4 = supply s3 + value) ->
  let '(gasUsed, status, _, s') :=
    finishTx (fst (State_Snapshot s1)) logStart intrinsic (tx_GasLimit tx - intrinsic) (tx_GasLimit tx * gp) gp
      sender cb vmErr used s4 in
  committed p s tx sender cb gp gasUsed status s'.
Proof.
  intros Hw Hsp Hwf Hgp Hv Hbal Hp intrinsic Hint Hu s1 s3 Hs4 Hsup4.
  pose proof (sx_GasLimit tx Hwf) as HG. pose proof (sx_Data tx Hwf) as HD. unfold is_u64 in HG.
  assert (21000 <= intrinsic) as Hi21 by (unfold intrinsic; destruct (IntrinsicGasFor_sum (tx_Data tx)
    (bool_decide (tx_To tx = None)) ltac:(lia)); pose proof (len_nonneg (tx_Data tx)); lia).
  assert (0 <= tx_GasLimit tx * gp) by nia.
  destruct (chargeTx_ok s sender (tx_GasLimit tx * gp) Hw ltac:(lia)) as (Hw1 & Hsup1 & Hsp1 & Hn1 & Hc1 & Hb1).
  rewrite Hsp in Hsp1. fold s1 in Hw1, Hsup1, Hsp1, Hn1, Hc1, Hb1.
  assert (s1 = chargeTx s sender (tx_GasLimit tx * gp)) as Es1 by done. clearbody s1.
  assert (forall a, p = Some a -> eoa a s1) as Hp1.
  { intros a Ha. destruct (Hp a Ha). split; [by rewrite Hn1|by rewrite Hc1]. }
  destruct (debited_ok p s1 sender value Hw1 Hsp1 ltac:(lia) Hp1)
    as (Hr3 & Hd3 & Hsv3 & Hsup3 & Hn3).
  fold s3 in Hr3, Hd3, Hsv3, Hsup3, Hn3.
  assert (State_RevertToSnapshot s4 (fst (State_Snapshot s1)) = norm s1) as Hrev.
  { rewrite Snapshot_id. unfold depth. rewrite Hsp1. change (saved s4 0 = norm s1).
    destruct Hs4 as [_ Hd4 Hsv4 _ _]. rewrite Hsv4 by lia. done. }
  assert (touches s s1) as Hts1 by (rewrite Es1; apply touches_set).
  unfold finishTx. destruct vmErr as [e|].
  - rewrite Hrev. set (u := if bool_decide _ then _ else _). assert (0 <= u <= tx_GasLimit tx - intrinsic) by (by subst u; case_bool_decide; lia).
    rewrite u64_small by lia. apply settle_committed; try done; try lia; [by apply (wf_content s1)| | |right; by rewrite Es1].
    { rewrite Es1. intros Hj. unfold chargeTx. cbn [norm journal]. by rewrite journal_set. }
    intros a Ha. split; [apply (eoa_content a s1); [done|by apply Hp1]|apply Hn1].
  - rewrite u64_small by lia. destruct Hs4 as [(Hi4 & Hw4 & He4) _ _ Hn4 Ht4].
    apply (settle_committed p s tx sender cb gp (intrinsic + used) ReceiptSuccess (DiscardSnapshots s4));
      try done; try lia; try (by left).
    + by apply (wf_content s4).
    + rewrite (supply_content _ s4) by done. rewrite Hsup4 by done. lia.
    + intros a Ha. split; [by apply (eoa_content a s4); [|apply He4]|]. rewrite <- Hn1, <- Hn3. by apply Hn4.
    + eapply touches_trans; [exact Hts1|]. eapply touches_trans; [apply (touches_set (snd (State_Snapshot s1)))|exact Ht4].
Qed.

Lemma finishTx_logs snap logStart intrinsic g maxFee gp sender cb vmErr used s :
  let '(_, _, lgs, s') := finishTx snap logStart intrinsic g maxFee gp sender cb vmErr used s in
  lgs = LogsSince s' logStart.
Proof. unfold finishTx. by destruct vmErr. Qed.

(** An error changes nothing, a return is [committed], and there is no other outcome. *)
Lemma ApplyTx_spec p s tx cb lim :
  wf_state s -> snapshots s = [] -> sound_tx tx -> 0 < lim <= maxGas ->
  (forall sender, Sender tx = Ok sender -> protects p s sender) ->
  match ApplyTx s tx cb lim with
  | Raises (e, s') => s' = s
  | Returns (used, status, lgs, s') =>
      lgs = LogsSince s' (LogCount s) /\ exists sender gp value, Sender tx = Ok sender /\ tx_GasPrice tx = Some gp /\ tx_Value tx = Some value
        /\ tx_Nonce tx = State_Nonce s sender /\ tx_GasLimit tx <= lim
        /\ tx_GasLimit tx * gp + value <= State_Balance s sender
        /\ committed p s tx sender cb gp used status s'
  | _ => False
  end.
Proof.
  intros Hw Hsp Hwf Hlim Hp. unfold ApplyTx. pose proof (Sender_no_panic tx).
  destruct (Sender tx) as [sender|e|]; [|done..]. specialize (Hp sender eq_refl).
  destruct (Z.ltb_spec (tx_Nonce tx) (Nonce (State_Get s sender))); [done|].
  destruct (Z.ltb_spec (Nonce (State_Get s sender)) (tx_Nonce tx)); [done|].
  set (intrinsic := IntrinsicGasFor _ _).
  destruct (Z.ltb_spec (tx_GasLimit tx) intrinsic) as [|Hint]; [done|].
  destruct (Z.ltb_spec 0 lim); [|lia].
  destruct (Z.ltb_spec lim (tx_GasLimit tx)); [done|]. cbn [andb].
  destruct (sx_Value tx Hwf) as (value & HV & HV'), (sx_GasPrice tx Hwf) as (gp & HP & HP').
  unfold Cost. rewrite HV, HP. cbn [or_panic res_bind].
  destruct (Z.ltb_spec (Balance (State_Get s sender)) (tx_GasLimit tx * gp + value)) as [|Hbal]; [done|].
  fold (chargeTx s sender (tx_GasLimit tx * gp)). set (s1 := chargeTx s sender (tx_GasLimit tx * gp)).
  rewrite (surjective_pairing (State_Snapshot s1)). set (s2 := snd (State_Snapshot s1)).
  fold (State_SubBalance s2 sender value). set (s3 := State_SubBalance s2 sender value).
  pose proof (sx_GasLimit tx Hwf) as HG. pose proof (sx_Data tx Hwf) as HD. unfold is_u64 in HG.
  assert (21000 <= intrinsic) by (unfold intrinsic; destruct (IntrinsicGasFor_sum (tx_Data tx)
    (bool_decide (tx_To tx = None)) ltac:(lia)); pose proof (len_nonneg (tx_Data tx)); lia).
  rewrite u64_small by lia. assert (0 <= tx_GasLimit tx * gp) by nia.
  destruct (chargeTx_ok s sender (tx_GasLimit tx * gp) Hw ltac:(unfold State_Balance; lia))
    as (Hw1 & _ & Hsp1 & Hn1 & Hc1 & Hb1).
  destruct (debited_ok p s1 sender value Hw1 ltac:(unfold s1; by rewrite Hsp1) ltac:(unfold s1; unfold State_Balance in *; lia))
    as (Hr3 & _).
  { intros a Ha. destruct (Hp a Ha). split; [unfold s1; by rewrite Hn1|unfold s1; by rewrite Hc1]. }
  destruct (execMessage_ok p s3 tx sender cb lim (tx_GasLimit tx - intrinsic) value Hr3 Hwf HV ltac:(lia))
    as (vmErr & used & s4 & -> & Hs4 & Hu & Hsup).
  pose proof (finishTx_ok p s tx sender cb gp value vmErr used s4 (LogCount s1) Hw Hsp Hwf ltac:(lia) ltac:(lia)
    ltac:(unfold State_Balance; lia) Hp Hint Hu Hs4 Hsup) as Hfin.
  fold intrinsic s1 in Hfin. assert (LogCount s1 = LogCount s) as HL by (unfold LogCount, s1, chargeTx; f_equal; apply set_fields).
  rewrite HL in *. pose proof (finishTx_logs (fst (State_Snapshot s1)) (LogCount s) intrinsic (tx_GasLimit tx - intrinsic)
    (tx_GasLimit tx * gp) gp sender cb vmErr used s4) as Hlog.
  destruct (finishTx _ _ _ _ _ _ _ _ _ _ _) as [[[gasUsed status] lgs] s']. split; [done|].
  exists sender, gp, value. unfold State_Nonce, State_Balance. split_and!; try done; lia.
Qed.

End Proofs.
