(* ===== verification/BlockProofs.v ===== *)
(** * Blocks, sequences of transitions, gas estimation

    [ApplyBlock] from its parts; the invariants of every state the chain can
    reach ([chain_steps]); replay protection; [EstimateGas]'s binary search. *)
From stdpp Require Import base numbers list gmap sorting.
From Stdlib Require Import ZArith Lia Strings.Byte.
From S2P Require Import Prelude Common Rlp Types VmBase Precompiles Vm VmProofs State StateProofs StateInv Transition TransitionProofs.
#[local] Open Scope Z_scope.
#[local] Open Scope list_scope.

(** ** The reward *)

Lemma BlockRewardAt_nonneg h : 0 <= BlockRewardAt h.
Proof. unfold BlockRewardAt. apply Z.shiftr_nonneg. unfold BaseBlockReward. lia. Qed.

(** The whole reward is issued, whatever the split, and nothing else. *)
Lemma CreditBlockReward_ok split s miner h :
  wf_state s -> TreasuryRewardBasisPoints split <= 10000 ->
  wf_state (CreditBlockReward split s miner h)
  /\ supply (CreditBlockReward split s miner h) = supply s + BlockRewardAt h
  /\ snapshots (CreditBlockReward split s miner h) = snapshots s
  /\ same_code s (CreditBlockReward split s miner h).
Proof.
  intros Hw Hb. pose proof (BlockRewardAt_nonneg h) as Hr. unfold CreditBlockReward.
  destruct (Z.ltb_spec 0 (TreasuryRewardBasisPoints split)) as [Hpos|]; cbn [andb].
  2: { split_and!; [by apply wf_Credit|apply supply_Credit|apply snapshots_Credit|apply same_code_Credit]. }
  destruct (array_eqb _ ZeroAddress); cbn [negb].
  { split_and!; [by apply wf_Credit|apply supply_Credit|apply snapshots_Credit|apply same_code_Credit]. }
  set (cut := BlockRewardAt h * TreasuryRewardBasisPoints split / 10000).
  assert (0 <= cut <= BlockRewardAt h) as Hcut.
  { unfold cut. split; [apply Z.div_pos; nia|apply Z.div_le_upper_bound; nia]. }
  destruct (array_eqb _ BurnAddress).
  - rewrite supply_Credit, supply_Burn, snapshots_Credit, snapshots_Burn by lia.
    split_and!; [apply wf_Credit; [by apply wf_Burn|lia]|lia|done|].
    intros a. destruct (same_code_Credit (Burn s (Some cut)) miner (BlockRewardAt h - cut) a) as [-> ->].
    by rewrite Get_Burn.
  - rewrite !supply_Credit, !snapshots_Credit.
    split_and!; [apply wf_Credit; [apply wf_Credit; [done|lia]|lia]|lia|done|].
    intros a. destruct (same_code_Credit (Credit s (TreasuryRewardAddress split) cut) miner (BlockRewardAt h - cut) a)
      as [-> ->]. apply same_code_Credit.
Qed.

Lemma touches_reward split s miner h : touches s (CreditBlockReward split s miner h).
Proof.
  unfold CreditBlockReward. destruct (_ && _); [|apply touches_set].
  eapply touches_trans; [|apply touches_set]. destruct (array_eqb _ BurnAddress); [apply touches_Burn|apply touches_set].
Qed.

(** ** Receipts *)

(** Each receipt's cumulative gas is the running total. *)
Fixpoint cumulative (total : Z) (rs : list Receipt) : Prop :=
  match rs with
  | [] => True
  | r :: rs => CumulativeGasUsed r = total + r_GasUsed r /\ cumulative (CumulativeGasUsed r) rs
  end.

Definition gasSum (rs : list Receipt) : Z := foldr (fun r n => r_GasUsed r + n) 0 rs.

Section Blocks.
Context `{Crypto} `{Bn256}.

Lemma protects_none s sender : protects None s sender.
Proof. by intros a [=]. Qed.

Lemma applyTxs_spec txs s h total rs :
  wf_state s -> snapshots s = [] -> Forall sound_tx txs -> 0 < h_GasLimit h <= maxGas -> 0 <= total <= h_GasLimit h ->
  match applyTxs s txs h total rs with
  | Returns (s', total', rs') =>
      wf_state s' /\ snapshots s' = [] /\ supply s' = supply s /\ touches s s' /\ total' <= h_GasLimit h
      /\ exists new, rs' = rs ++ new /\ length new = length txs /\ cumulative total new /\ total' = total + gasSum new
         /\ Forall receipt_widths new /\ len new <= gasSum new /\ Forall (fun tx => exists a, Sender tx = Ok a) txs
  | Raises _ => True
  | _ => False
  end.
Proof.
  intros Hw Hsp Htx Hlim Ht. assert (maxGas = 2 ^ 60) as HM by done.
  revert s total rs Hw Hsp Ht. induction Htx as [|tx txs Hwf _ IH]; intros s total rs Hw Hsp Ht; cbn [applyTxs].
  - split_and!; try done; try lia. exists []. rewrite app_nil_r. cbn. split_and!; try done; lia.
  - pose proof (ApplyTx_spec None s tx (Proposer h) (h_GasLimit h) Hw Hsp Hwf Hlim (fun _ _ => protects_none _ _)) as Hsp1.
    destruct (ApplyTx s tx _ _) as [[[[used status] lgs] s1]|[]| |]; try done.
    destruct Hsp1 as (_ & sender & gp & value & Hsnd & _ & _ & _ & Hgl & _ & [Hw1 Hs1 _ Hsup1 Hg1 Hst1 _ Ht1]).
    assert (1 <= used).
    { pose proof (sx_Data tx Hwf). pose proof (len_nonneg (tx_Data tx)).
      destruct (IntrinsicGasFor_sum (tx_Data tx) (bool_decide (tx_To tx = None)) ltac:(lia)). lia. }
    rewrite u64_small by lia. destruct (Z.ltb_spec (h_GasLimit h) (total + used)); [done|].
    pose proof (IH s1 (total + used) (rs ++ [mkReceipt status (total + used) used lgs]) Hw1 Hs1 ltac:(lia)) as H3.
    destruct (applyTxs s1 txs h _ _) as [[[s' total'] rs']| | |]; try done.
    destruct H3 as (? & ? & Hsup & Ht2 & ? & new & -> & Hl & Hc & -> & Hwd & Hn & Hsn). split_and!; try done; [lia|by eapply touches_trans|].
    exists (mkReceipt status (total + used) used lgs :: new). rewrite <- app_assoc. cbn.
    split_and!; [done|lia|done|done|unfold gasSum; lia| |rewrite len_cons; unfold gasSum in *; lia|constructor; [by exists sender|done]].
    constructor; [|done]. unfold receipt_widths, is_u64. cbn.
    split_and!; try lia; destruct Hst1 as [->|[-> _]]; unfold ReceiptSuccess, ReceiptFailed; lia.
Qed.

(** The bounds [checkParent] enforces. *)
Lemma checkParent_ok h ph :
  is_u64 (h_GasLimit h) -> is_u64 (h_GasLimit ph) -> checkParent h ph = Ok tt ->
  ParentHash h = Header_Hash ph /\ Height h = u64 (Height ph + 1) /\ Timestamp ph < Timestamp h
  /\ MinBlockGasLimit <= h_GasLimit h /\ Z.abs (h_GasLimit h - h_GasLimit ph) < h_GasLimit ph / GasLimitBoundDivisor.
Proof.
  unfold checkParent, is_u64. intros Hl Hp. destruct (array_eqb_spec (ParentHash h) (Header_Hash ph)); [|done]. cbn [negb].
  destruct (Z.eqb_spec (Height h) (u64 (Height ph + 1))); [|done]. cbn [negb].
  destruct (Z.leb_spec (Timestamp h) (Timestamp ph)); [done|].
  destruct (Z.ltb_spec (h_GasLimit h) MinBlockGasLimit); [done|]. cbn [orb].
  destruct (Z.ltb_spec (h_GasLimit h) (h_GasLimit ph)); rewrite u64_small by lia;
    match goal with |- context [?a <=? ?b] => destruct (Z.leb_spec a b); [done|] end;
    intros _; split_and!; try done; lia.
Qed.

Lemma checkParent_no_panic h ph : checkParent h ph <> Panic.
Proof. unfold checkParent. repeat (case_match; try done). Qed.

(** What a block that executes guarantees. *)
Record block_post (parent : State) (b : Block) (next : State) (receipts : list Receipt) : Prop := {
  bp_wf : wf_state next;
  bp_snapshots : snapshots next = [];
  bp_supply : supply next = supply parent + BlockRewardAt (Height (b_Header b));
  bp_stateRoot : Root next = StateRoot (b_Header b);
  bp_txRoot : TxRoot (b_Txs b) = h_TxRoot (b_Header b);
  bp_receiptRoot : ReceiptRoot receipts = h_ReceiptRoot (b_Header b);
  bp_receipts : length receipts = length (b_Txs b) /\ cumulative 0 receipts;
  bp_widths : Forall receipt_widths receipts;
  bp_touched : forall a, a ∉ touched next -> accounts next !! a = accounts parent !! a;
  bp_gas : gasSum receipts = h_GasUsed (b_Header b) /\ h_GasUsed (b_Header b) <= h_GasLimit (b_Header b);
  bp_count : len receipts <= h_GasLimit (b_Header b);
  bp_senders : Forall (fun tx => exists a, Sender tx = Ok a) (b_Txs b);
}.

(** A block either executes, or is rejected for a reason other than a panic. *)
Lemma ApplyBlock_spec split parent b ph :
  wf_state parent -> TreasuryRewardBasisPoints split <= 10000 -> Forall sound_tx (b_Txs b) ->
  0 < h_GasLimit (b_Header b) <= maxGas ->
  match ApplyBlock split parent b ph with
  | Returns (next, receipts) =>
      block_post parent b next receipts
      /\ match ph with Some ph => checkParent (b_Header b) ph = Ok tt | None => Height (b_Header b) <= 0 end
  | Raises e => applyBlockBody split parent b ph = Raises e
  | _ => False
  end.
Proof.
  intros Hw Hsplit Htx Hlim. unfold ApplyBlock, applyBlockBody. set (h := b_Header b) in *.
  unfold VerifyTxRoot. fold h. destruct (array_eqb_spec (TxRoot (b_Txs b)) (h_TxRoot h)) as [Etx|]; [cbn [negb]|done].
  set (pre := match ph with Some _ => _ | None => _ end). destruct pre as [u|e|] eqn:Epre.
  2: done.
  2: { unfold pre in Epre. destruct ph as [ph|]; [by destruct (checkParent_no_panic h ph)|by destruct (0 <? Height h)]. }
  assert (match ph with Some ph => checkParent h ph = Ok tt | None => Height h <= 0 end) as Hph.
  { unfold pre in Epre. destruct u, ph as [ph|]; [done|]. by destruct (Z.ltb_spec 0 (Height h)). }
  set (next0 := SetBlockContext _ _ _ _).
  assert (wf_state next0) as Hw0 by (destruct Hw; by split).
  pose proof (applyTxs_spec (b_Txs b) next0 h 0 [] Hw0 eq_refl Htx Hlim ltac:(lia)) as Hap.
  destruct (applyTxs next0 (b_Txs b) h 0 []) as [[[s1 total] rs]| | |]; try done.
  destruct Hap as (Hw1 & Hs1 & Hsup1 & Ht1 & Htot & new & -> & Hl & Hc & -> & Hwd & Hn & Hsn). cbn [app].
  destruct (Z.eqb_spec (0 + gasSum new) (h_GasUsed h)); cbn [negb]; [|done].
  destruct (array_eqb_spec (ReceiptRoot new) (h_ReceiptRoot h)); cbn [negb]; [|done].
  destruct (CreditBlockReward_ok split s1 (Proposer h) (Height h) Hw1 Hsplit) as (Hw2 & Hsup2 & Hs2 & _).
  destruct (array_eqb_spec (Root (CreditBlockReward split s1 (Proposer h) (Height h))) (StateRoot h)); cbn [negb]; [|done].
  split; [|done]. split; fold h; try done; [by rewrite Hs2|by rewrite Hsup2, Hsup1| |by split; lia|lia].
  apply (touches_trans _ _ _ Ht1 (touches_reward split s1 (Proposer h) (Height h))).
Qed.

(** A block that does not follow its parent is rejected before anything runs. *)
Lemma ApplyBlock_bad_parent split parent b ph :
  checkParent (b_Header b) ph <> Ok tt -> exists e, ApplyBlock split parent b (Some ph) = Raises e.
Proof.
  intros Hc. unfold ApplyBlock, applyBlockBody. destruct (negb (VerifyTxRoot b)); [eauto|].
  pose proof (checkParent_no_panic (b_Header b) ph). destruct (checkParent (b_Header b) ph) as [[]| |]; [done|eauto|done].
Qed.

(** ** Every state the chain can reach *)

(** One step of a node's state: a transaction commits, a reward is credited, a block begins. *)
Inductive chain_step : State -> State -> Prop :=
  | CS_tx s tx cb lim used status lgs s' : sound_tx tx -> 0 < lim <= maxGas ->
      ApplyTx s tx cb lim = Returns (used, status, lgs, s') -> chain_step s s'
  | CS_reward split s miner h : TreasuryRewardBasisPoints split <= 10000 ->
      chain_step s (CreditBlockReward split s miner h)
  | CS_begin s num t diff : chain_step s (SetBlockContext (ClearTouched (State_Copy s)) num t diff).

Inductive chain_steps : nat -> State -> State -> Prop :=
  | CS_refl s : chain_steps 0 s s
  | CS_next n s1 s2 s3 : chain_step s1 s2 -> chain_steps n s2 s3 -> chain_steps (S n) s1 s3.

Lemma chain_step_wf s s' : chain_step s s' -> wf_state s -> snapshots s = [] -> wf_state s' /\ snapshots s' = [].
Proof.
  intros [s0 tx cb lim used status lgs s1 Hwf Hlim E|split s0 miner h Hb|s0 num t diff] Hw Hsp.
  - pose proof (ApplyTx_spec None s0 tx cb lim Hw Hsp Hwf Hlim (fun _ _ => protects_none _ _)) as HT. rewrite E in HT.
    by destruct HT as (_ & ? & ? & ? & _ & _ & _ & _ & _ & _ & []).
  - destruct (CreditBlockReward_ok split s0 miner h Hw Hb) as (? & _ & -> & _). done.
  - destruct Hw. by split.
Qed.

(** An account without code that has sent a transaction keeps its code empty, and its nonce
    advances by at most one per step. *)
Lemma chain_step_eoa a s s' : chain_step s s' -> wf_state s -> snapshots s = [] -> eoa a s ->
  State_Nonce s a + 1 < 2 ^ 64 -> eoa a s' /\ State_Nonce s a <= State_Nonce s' a <= State_Nonce s a + 1.
Proof.
  intros [s0 tx cb lim used status lgs s1 Hwf Hlim E|split s0 miner h Hb|s0 num t diff] Hw Hsp [Hn Hc] Hlt.
  - assert (is_u64 (State_Nonce s0 a)) as Hu by (apply wf_Get, Hw). unfold is_u64 in Hu.
    assert (forall sender, protects (Some a) s0 sender) as Hp.
    { intros sender b [= <-]. split; [done|]. unfold bumped. destruct (decide _); [rewrite u64_small; lia|done]. }
    pose proof (ApplyTx_spec (Some a) s0 tx cb lim Hw Hsp Hwf Hlim (fun x _ => Hp x)) as HT. rewrite E in HT.
    destruct HT as (_ & sender & ? & ? & _ & _ & _ & _ & _ & _ & [_ _ _ _ _ _ He]). destruct (He a eq_refl) as [He' ->].
    split; [done|]. unfold bumped. destruct (decide _); [rewrite u64_small by lia|]; lia.
  - destruct (CreditBlockReward_ok split s0 miner h Hw Hb) as (_ & _ & _ & Hk).
    unfold eoa, State_Nonce in *. rewrite GetCode_Get in *. destruct (Hk a) as [-> ->]. split; [done|lia].
  - change (State_Nonce (SetBlockContext _ _ _ _) a) with (State_Nonce s0 a). split; [done|lia].
Qed.

Lemma chain_steps_eoa a n s s' : chain_steps n s s' -> wf_state s -> snapshots s = [] -> eoa a s ->
  State_Nonce s a + Z.of_nat n < 2 ^ 64 ->
  wf_state s' /\ snapshots s' = [] /\ eoa a s' /\ State_Nonce s a <= State_Nonce s' a <= State_Nonce s a + Z.of_nat n.
Proof.
  induction 1 as [s|n s1 s2 s3 H1 _ IH]; intros Hw Hsp He Hlt; [split_and!; try done; lia|].
  destruct (chain_step_wf s1 s2 H1 Hw Hsp) as [Hw2 Hs2].
  destruct (chain_step_eoa a s1 s2 H1 Hw Hsp He ltac:(lia)) as [He2 Hn2].
  destruct (IH Hw2 Hs2 He2 ltac:(lia)) as (? & ? & ? & ?). split_and!; try done; lia.
Qed.

(** ** Gas estimation *)

Section Estimate.
Context (from : Address) (to : option Address) (data : list byte) (value : Z) (s : State).
Context (Hs : vm_ready None s) (Hburned : is_Some (burned s)) (Hvalue : 0 <= value) (Hdata : len data < 2 ^ 59).

#[local] Abbreviation intrinsic := (IntrinsicGasFor data (bool_decide (to = None))).

(** Whether the message completes at a gas limit. *)
Definition succeeds (g : Z) : Prop := probe from to data value intrinsic s g = Returns (true, None, s).

Lemma norm_id : norm s = s.
Proof. destruct Hburned as [b Eb]. unfold norm, burnedOrZero. rewrite Eb. destruct s. cbn in *. by rewrite Eb. Qed.

Lemma intrinsic_pos : 21000 <= intrinsic.
Proof.
  destruct (IntrinsicGasFor_sum data (bool_decide (to = None)) Hdata).
  pose proof (len_nonneg data). lia.
Qed.

Lemma snapshot_ready : vm_ready None (snd (State_Snapshot s)).
Proof. destruct Hs as (Hi & [? ?] & _). split_and!; [by apply Snapshot_inv|by split|done]. Qed.

Lemma undo_probe s' : tx_step None (snd (State_Snapshot s)) s' -> State_RevertToSnapshot s' (fst (State_Snapshot s)) = s.
Proof.
  intros [_ _ Hsv _]. rewrite Snapshot_id. change (saved s' (depth s) = s).
  rewrite Hsv by (rewrite Snapshot_depth; lia). rewrite Snapshot_saved_new. apply norm_id.
Qed.

(** A probe returns, and leaves the state exactly as it was. *)
Lemma probe_ok g : 0 <= g <= maxGas -> exists ok he, probe from to data value intrinsic s g = Returns (ok, he, s).
Proof.
  intros Hg. unfold probe. destruct (Z.ltb_spec g intrinsic); [by eauto|]. pose proof intrinsic_pos.
  assert (maxGas = 2 ^ 60) as HM by done. rewrite u64_small by lia.
  rewrite (surjective_pairing (State_Snapshot s)). generalize dependent intrinsic. intros i Hi1 Hi2.
  pose proof snapshot_ready as Hr.
  set (s2 := snd (State_Snapshot s)) in *. assert (len (@nil byte) < 2 ^ 62) by (rewrite len_nil; lia).
  destruct to as [a|].
  - destruct (Z.eqb_spec (len (State_GetCode s2 a)) 0) as [|Hc].
    { rewrite undo_probe by (by apply tx_step_refl). eauto. }
    assert (State_GetCode (Credit s2 a value) a = State_GetCode s2 a) as ->.
    { rewrite !GetCode_Get, Get_Credit. by rewrite decide_True. }
    destruct (credit_run None s2 a value (State_GetCode s2 a) data (g - i) (probeContext from value a))
      as (r & s' & -> & Hst & _); try done; try lia; [by eapply vm_ready_code_len|by right|].
    destruct (r_Err r); rewrite undo_probe by done; eauto.
  - rewrite CreateAddress_createAddress by (apply wf_Get, Hr). set (addr := createAddress _ _).
    destruct (credit_run None s2 addr value data [] (g - i) (probeContext from value addr))
      as (r & s' & -> & Hst & _); try done; try lia; [by right|].
    destruct (r_Err r); [rewrite undo_probe by done; by eauto|].
    destruct (_ <? _); [rewrite undo_probe by done; by eauto|].
    destruct (_ <? _); rewrite undo_probe by done; eauto.
Qed.

Lemma estimate_loop_ok fuel n lo hi :
  0 <= lo < hi -> hi <= maxGas -> hi - lo <= 2 ^ Z.of_nat n -> (n < fuel)%nat ->
  succeeds hi -> ~ succeeds lo ->
  exists g, estimate_loop fuel from to data value intrinsic s lo hi = Returns (g, s)
    /\ lo < g <= hi /\ succeeds g /\ ~ succeeds (g - 1).
Proof.
  assert (maxGas = 2 ^ 60) as HM by done.
  revert n lo hi. induction fuel as [|fuel IH]; intros n lo hi Hlo Hhi Hn Hf Hok Hko; [lia|]. cbn [estimate_loop].
  rewrite (u64_small (lo + 1)) by lia. destruct (Z.ltb_spec (lo + 1) hi).
  2: { exists hi. replace (hi - 1) with lo by lia. split_and!; try done; lia. }
  pose proof (Z.div_mod (hi - lo) 2 ltac:(lia)). pose proof (Z.mod_pos_bound (hi - lo) 2 ltac:(lia)).
  rewrite (u64_small (hi - lo)) by lia. rewrite u64_small by lia. set (mid := lo + (hi - lo) / 2).
  assert (lo < mid < hi) as Hmid by (unfold mid; lia).
  destruct n as [|n]; [simpl in Hn; lia|]. rewrite Nat2Z.inj_succ, Z.pow_succ_r in Hn by lia.
  assert (~ succeeds mid -> exists g, estimate_loop fuel from to data value intrinsic s mid hi = Returns (g, s)
    /\ lo < g <= hi /\ succeeds g /\ ~ succeeds (g - 1)) as Hup.
  { intros Hm. destruct (IH n mid hi) as (g & -> & ? & ? & ?); try done; try (unfold mid; lia).
    exists g. split_and!; try done; lia. }
  destruct (probe_ok mid ltac:(lia)) as (ok & he & E). rewrite E. unfold succeeds in Hup. rewrite E in Hup.
  destruct he as [e|]; [by destruct ok; apply Hup|]. destruct ok; [|by apply Hup].
  destruct (IH n lo mid) as (g & -> & ? & ? & ?); try done; try (unfold mid; lia).
  exists g. split_and!; try done; lia.
Qed.

Lemma EstimateGas_spec v gasCap :
  0 <= gasCap <= maxGas -> default 0 v = value ->
  match EstimateGas s from to data v gasCap with
  | Returns (g, s') => s' = s /\ intrinsic <= g <= gasCap /\ succeeds g /\ ~ succeeds (g - 1)
  | Raises (_, s') => s' = s /\ ~ succeeds gasCap
  | _ => False
  end.
Proof.
  intros Hcap Hv. unfold EstimateGas. rewrite Hv. pose proof intrinsic_pos.
  assert (maxGas = 2 ^ 60) as HM by done.
  destruct (probe_ok gasCap Hcap) as (ok & he & E). assert (ok = true -> he = None -> succeeds gasCap) as Hok.
  { intros -> ->. done. }
  assert (~ (ok = true /\ he = None) -> ~ succeeds gasCap) as Hko.
  { intros Hn Hsu. unfold succeeds in Hsu. rewrite E in Hsu. apply Hn. by injection Hsu. }
  rewrite E. destruct he as [e|]; [destruct ok; (split; [done|]); apply Hko; by intros [_ ?]|].
  destruct ok; [|split; [done|]; apply Hko; by intros [? _]]. specialize (Hok eq_refl eq_refl).
  assert (~ (gasCap < intrinsic)) as Hge.
  { intros Hlt. unfold probe in E. destruct (Z.ltb_spec gasCap intrinsic); [done|lia]. }
  assert (intrinsic < 2 ^ 64) by lia. rewrite u64_small by lia.
  destruct (estimate_loop_ok 66 64 (intrinsic - 1) gasCap) as (g & -> & Hg & Hsg & Hng); try done; try lia.
  { unfold succeeds, probe. destruct (Z.ltb_spec (intrinsic - 1) intrinsic); [done|lia]. }
  split_and!; try done; lia.
Qed.

End Estimate.
End Blocks.

(** * Issuance (the reward schedule of state/state.go and state/transition.go)

    [CumulativeIssued] adds up whole eras; it equals the sum of the per-block
    rewards, and never passes 50 million LXS. *)
(** The rewards of the blocks 1 to [n], one by one. *)
Fixpoint issued (n : nat) : Z :=
  match n with O => 0 | S m => issued m + BlockRewardAt (Z.of_nat (S m)) end.

(** The reward of an era. *)
Definition eraReward (era : Z) : Z := Z.shiftr BaseBlockReward era.

Lemma BlockRewardAt_era era h :
  era * HalvingInterval <= h < (era + 1) * HalvingInterval -> BlockRewardAt h = eraReward era.
Proof.
  intros Hh. unfold BlockRewardAt, eraReward. f_equal. unfold HalvingInterval in *.
  symmetry. apply (Z.div_unique _ _ _ (h - era * 1000000)); lia.
Qed.

(** A run of blocks of one era. *)
Lemma issued_era era n k :
  (forall i, Z.of_nat n < i <= Z.of_nat (n + k) -> era * HalvingInterval <= i < (era + 1) * HalvingInterval) ->
  issued (n + k) = issued n + eraReward era * Z.of_nat k.
Proof.
  induction k as [|k IH]; intros Hi; [rewrite Nat.add_0_r; lia|].
  rewrite Nat.add_succ_r. cbn [issued]. rewrite IH by (intros; apply Hi; lia).
  rewrite (BlockRewardAt_era era) by (apply Hi; lia). lia.
Qed.

Lemma eraReward_zero era : 65 <= era -> eraReward era = 0.
Proof.
  intros He. unfold eraReward. rewrite Z.shiftr_eq_0; [done|unfold BaseBlockReward; lia|].
  assert (Z.log2 BaseBlockReward = 64) by reflexivity. lia.
Qed.

Lemma eraReward_pos era : 0 <= era < 65 -> 0 < eraReward era.
Proof.
  intros He. unfold eraReward. rewrite Z.shiftr_div_pow2 by lia. apply Z.div_str_pos. split; [lia|].
  transitivity (2 ^ 64); [apply Z.pow_le_mono_r; lia|vm_compute; congruence].
Qed.

Lemma issued_done n k : 65 * HalvingInterval <= Z.of_nat n + 1 -> issued (n + k) = issued n.
Proof.
  intros Hn. induction k as [|k IH]; [by rewrite Nat.add_0_r|]. rewrite Nat.add_succ_r. cbn [issued]. rewrite IH.
  unfold BlockRewardAt. fold (eraReward (Z.of_nat (S (n + k)) / HalvingInterval)). rewrite eraReward_zero; [lia|].
  unfold HalvingInterval in *. apply Z.div_le_lower_bound; lia.
Qed.

(** The loop at era [era], its total counting the blocks before it. *)
Lemma CumulativeIssued_loop_ok fuel era h total n :
  0 <= era <= 65 -> 65 - era < Z.of_nat fuel -> 0 <= h < 2 ^ 64 ->
  Z.of_nat n = Z.min h (Z.max 0 (era * HalvingInterval - 1)) -> total = issued n ->
  CumulativeIssued_loop fuel era h total = Some (issued (Z.to_nat h)).
Proof.
  revert era total n. induction fuel as [|fuel IH]; intros era total n He Hf Hh Hn ->; [lia|].
  cbn [CumulativeIssued_loop]. unfold HalvingInterval in *.
  rewrite (u64_small (era * 1000000)) by lia. set (start := era * 1000000) in *.
  destruct (Z.ltb_spec h start); [f_equal; f_equal; lia|].
  rewrite (BlockRewardAt_era era) by (unfold HalvingInterval; lia).
  destruct (Z.eqb_spec (Z.sgn (eraReward era)) 0) as [Hz|Hz].
  { assert (era = 65) as -> by (destruct (decide (era = 65)); [done|]; pose proof (eraReward_pos era); lia).
    f_equal. replace (Z.to_nat h) with (n + (Z.to_nat h - n))%nat by lia. symmetry. apply issued_done.
    unfold HalvingInterval. lia. }
  assert (era < 65) by (destruct (decide (era = 65)) as [->|]; [by rewrite eraReward_zero in Hz|lia]).
  rewrite (u64_small (start + 1000000 - 1)), (u64_small (era + 1)) by lia.
  set (lo := if start =? 0 then 1 else start). set (hi := if h <? _ then h else _).
  assert (lo = Z.max 1 start) as Hlo by (unfold lo; destruct (Z.eqb_spec start 0); lia).
  assert (hi = Z.min h (start + 1000000 - 1)) as Hhi by (unfold hi; destruct (Z.ltb_spec h (start + 1000000 - 1)); lia).
  destruct (Z.ltb_spec hi lo); [apply (IH (era + 1) _ n); lia|].
  rewrite u64_small by lia. apply (IH (era + 1) _ (n + Z.to_nat (hi - lo + 1))%nat); try lia.
  rewrite (issued_era era); [lia|]. unfold HalvingInterval. intros i Hi. lia.
Qed.

Lemma CumulativeIssued_lemma h : 0 <= h < 2 ^ 64 -> CumulativeIssued h = Some (issued (Z.to_nat h)).
Proof. intros Hh. apply (CumulativeIssued_loop_ok 67 0 h 0 0); (done || lia). Qed.

Lemma issued_mono n m : (n <= m)%nat -> issued n <= issued m.
Proof.
  induction 1 as [|m _ IH]; [lia|]. cbn [issued]. pose proof (BlockRewardAt_nonneg (Z.of_nat (S m))). lia.
Qed.

Lemma issued_top n top : 65 * HalvingInterval <= top -> issued n <= issued (Z.to_nat top).
Proof.
  unfold HalvingInterval. intros Ht. remember (Z.to_nat top) as m eqn:Em.
  destruct (Nat.le_gt_cases n m) as [Hle|Hgt]; [by apply issued_mono|].
  replace n with (m + (n - m))%nat by lia. rewrite issued_done; [lia|]. unfold HalvingInterval. lia.
Qed.

(** The whole schedule, evaluated with the program's own function. *)
Lemma issued_bound n : issued n <= 50000000 * 10 ^ 18.
Proof.
  assert (match CumulativeIssued 65000000 with Some x => x <=? 50000000 * 10 ^ 18 | None => false end = true) as E
    by (vm_compute; reflexivity).
  rewrite CumulativeIssued_lemma in E by lia. apply Z.leb_le in E.
  pose proof (issued_top n 65000000). unfold HalvingInterval in *. lia.
Qed.
