(* ===== verification/StateSim.v ===== *)
(** * States that execute alike

    [touched] only tells the persistence layer which accounts to write: no
    result, root or log depends on it.  [alike] relates states that agree on
    everything else; the whole transition respects it, the interpreter by
    [VmSim.Run_sim].  A copy without open savepoints is [alike] to the original. *)
From stdpp Require Import base numbers list gmap option sorting.
From Stdlib Require Import ZArith Lia Strings.Byte.
From S2P Require Import Prelude Common Rlp Types VmBase Precompiles Vm VmSim State StateProofs Transition TransitionProofs.
#[local] Open Scope Z_scope.
#[local] Open Scope list_scope.

Definition eraseEntry (e : journalEntry) : journalEntry := mkJournalEntry (je_addr e) (je_prev e) false.

Definition erase (s : State) : State :=
  mkState (accounts s) ∅ (snapshots s) (map eraseEntry (journal s)) (logs s) (bctx s) (Some (burnedOrZero s)).

Definition alike (s t : State) : Prop := erase s = erase t.

#[export] Instance alike_equiv : Equivalence alike.
Proof. split; unfold alike; [done|by intros s t|intros s t u; congruence]. Qed.

Lemma eraseEntry_idem l : map eraseEntry (map eraseEntry l) = map eraseEntry l.
Proof. rewrite map_map. by apply map_ext. Qed.

(** An operation that erasing commutes with respects [alike]. *)
Lemma alike_op (f : State -> State) s t :
  (forall s, erase (f (erase s)) = erase (f s)) -> alike s t -> alike (f s) (f t).
Proof. intros Hf Hst. unfold alike. by rewrite <- (Hf s), <- (Hf t), Hst. Qed.

Lemma alike_fields s t : alike s t ->
  accounts s = accounts t /\ snapshots s = snapshots t /\ logs s = logs t /\ bctx s = bctx t
  /\ burnedOrZero s = burnedOrZero t /\ map eraseEntry (journal s) = map eraseEntry (journal t).
Proof. intros [= -> -> -> -> -> ->]. done. Qed.

Lemma alike_Get s t a : alike s t -> State_Get s a = State_Get t a.
Proof. intros (E & _)%alike_fields. unfold State_Get. by rewrite E. Qed.

Lemma alike_set s t a acc : alike s t -> alike (State_set s a acc) (State_set t a acc).
Proof.
  apply (alike_op (fun s => State_set s a acc)). clear. intros s. unfold State_set. cbn [erase snapshots].
  destruct (0 <? len (snapshots s)), (isEmpty acc); unfold with_accounts, erase;
    cbn [accounts touched snapshots journal logs bctx burned burnedOrZero]; f_equal;
    rewrite ?map_app, ?eraseEntry_idem; done.
Qed.

Lemma alike_upd s t a f : alike s t -> alike (State_set s a (f (State_Get s a))) (State_set t a (f (State_Get t a))).
Proof. intros H. rewrite (alike_Get s t a H). by apply alike_set. Qed.

Lemma undo_touched es m t t' : fst (fold_left undo es (m, t)) = fst (fold_left undo (map eraseEntry es) (m, t')).
Proof. revert m t t'. induction es as [|e es IH]; intros m t t'; [done|]. cbn [fold_left map]. apply IH. Qed.

Lemma alike_Revert s t i : alike s t -> alike (State_RevertToSnapshot s i) (State_RevertToSnapshot t i).
Proof.
  apply (alike_op (fun s => State_RevertToSnapshot s i)). clear. intros s. unfold State_RevertToSnapshot.
  cbn [erase snapshots journal accounts touched logs bctx].
  destruct ((i <? 0) || (len (snapshots s) <=? i)); [unfold erase; cbn; by rewrite eraseEntry_idem|].
  destruct (snapshots s !! Z.to_nat i) as [sn|]; [|unfold erase; cbn; by rewrite eraseEntry_idem].
  rewrite skipn_map, <- map_rev.
  pose proof (undo_touched (rev (drop (Z.to_nat (journalLen sn)) (journal s))) (accounts s) (touched s) ∅) as Hu.
  destruct (fold_left undo (rev _) _), (fold_left undo (map _ _) _). cbn in Hu. subst.
  unfold erase. cbn. f_equal. by rewrite firstn_map, eraseEntry_idem.
Qed.

Lemma alike_Snapshot s t : alike s t ->
  fst (State_Snapshot s) = fst (State_Snapshot t) /\ alike (snd (State_Snapshot s)) (snd (State_Snapshot t)).
Proof.
  intros H. destruct (alike_fields s t H) as (E1 & E2 & E3 & E4 & E5 & E6).
  assert (len (journal s) = len (journal t)) as Ej.
  { unfold len. by rewrite <- (length_map eraseEntry (journal s)), E6, length_map. }
  unfold State_Snapshot, alike, erase, burnedOrZero in *. cbn. rewrite E1, E2, E3, E4, E5, E6, Ej. done.
Qed.

#[export] Instance alike_sim : StateDBSim alike.
Proof.
  split; intros s t; cbn.
  - intros a k (E & _)%alike_fields. unfold State_GetStorage. by rewrite E.
  - intros a (E & _)%alike_fields. unfold State_GetCode. by rewrite E.
  - intros a H. unfold State_Nonce. by rewrite (alike_Get s t a H).
  - intros a H. unfold State_Balance. by rewrite (alike_Get s t a H).
  - intros a k v H. unfold State_SetStorage. rewrite (alike_Get s t a H). by apply alike_set.
  - intros a c H. by apply (alike_upd s t a (with_Code c)).
  - intros a n H. by apply (alike_upd s t a (with_Nonce n)).
  - intros a v H. by apply (alike_upd s t a (fun acc => with_Balance (Balance acc + v) acc)).
  - intros a v H. by apply (alike_upd s t a (fun acc => with_Balance (Balance acc - v) acc)).
  - intros l. apply (alike_op (fun s => State_AddLog s l)). clear. intros s. unfold erase. cbn. by rewrite eraseEntry_idem.
  - apply alike_Snapshot.
  - intros i. apply alike_Revert.
Qed.

Lemma alike_Credit s t a v : alike s t -> alike (Credit s a v) (Credit t a v).
Proof. exact (sim_AddBalance (R := alike) s t a v). Qed.

Lemma alike_Burn s t v : alike s t -> alike (Burn s v) (Burn t v).
Proof.
  intros H. unfold Burn. destruct v as [v|]; [|done]. destruct (_ <=? _); [done|].
  destruct (alike_fields s t H) as (E1 & E2 & E3 & E4 & E5 & E6). unfold alike, erase, burnedOrZero in *. cbn.
  by rewrite E1, E2, E3, E4, E5, E6.
Qed.

Lemma alike_Discard s t : alike s t -> alike (DiscardSnapshots s) (DiscardSnapshots t).
Proof.
  intros (E1 & E2 & E3 & E4 & E5 & E6)%alike_fields. unfold alike, erase, burnedOrZero in *. cbn. by rewrite E1, E3, E4, E5.
Qed.

Lemma alike_SetBlockContext s t n h d : alike s t -> alike (SetBlockContext s n h d) (SetBlockContext t n h d).
Proof.
  intros (E1 & E2 & E3 & E4 & E5 & E6)%alike_fields. unfold alike, erase, burnedOrZero in *. cbn. by rewrite E1, E2, E3, E5, E6.
Qed.

Lemma alike_ClearTouched s : alike (ClearTouched s) s.
Proof. done. Qed.

Lemma alike_Copy s : snapshots s = [] -> journal s = [] -> alike (State_Copy s) s.
Proof. intros Hs Hj. unfold alike, erase, burnedOrZero. cbn. by rewrite Hs, Hj. Qed.

Lemma alike_distributeFee s t cb fee : alike s t -> alike (distributeFee s cb fee) (distributeFee t cb fee).
Proof. intros H. by apply alike_Credit, alike_Burn. Qed.

Lemma alike_CreditBlockReward split s t miner h :
  alike s t -> alike (CreditBlockReward split s miner h) (CreditBlockReward split t miner h).
Proof.
  intros H. unfold CreditBlockReward. destruct (_ && _); [|by apply alike_Credit].
  apply alike_Credit. destruct (array_eqb _ _); [by apply alike_Burn|by apply alike_Credit].
Qed.

Lemma alike_logs s t n : alike s t -> LogsSince s n = LogsSince t n /\ LogCount s = LogCount t.
Proof. intros (_ & _ & E & _)%alike_fields. unfold LogsSince, LogCount. by rewrite E. Qed.

Section Alike.
Context `{Crypto} `{Bn256}.

Lemma alike_Root s t : alike s t -> Root s = Root t.
Proof.
  intros H1. destruct (alike_fields s t H1) as (E1 & _ & _ & _ & E5 & _). unfold Root. rewrite E1, E5.
  assert ((fun a => Encoder_Raw (abytes a) ++ Encoder_Bytes (Account_encode (State_Get s a)))
          = fun a => Encoder_Raw (abytes a) ++ Encoder_Bytes (Account_encode (State_Get t a))) as ->.
  { unfold State_Get. by rewrite E1. }
  destruct (Z.eqb_spec (Z.sgn (burnedOrZero t)) 0) as [|Hz]; [done|]. unfold burnedOrZero in *.
  by destruct (burned s), (burned t); cbn in *; subst.
Qed.

(** The same outcome, on related states. *)
Definition alike_res {A B : Type} (x y : callres (A * State) (B * State)) : Prop :=
  match x, y with
  | Returns (a, s), Returns (b, t) => a = b /\ alike s t
  | Raises (e, s), Raises (f, t) => e = f /\ alike s t
  | Panics, Panics => True
  | OutOfFuel, OutOfFuel => True
  | _, _ => False
  end.

Definition alike_exec (x y : callres error (option error * Z * State)) : Prop :=
  match x, y with
  | Returns (a, s), Returns (b, t) => a = b /\ alike s t
  | Raises e, Raises f => e = f
  | Panics, Panics => True
  | OutOfFuel, OutOfFuel => True
  | _, _ => False
  end.

Lemma alike_execMessage s t tx sender cb lim g v :
  alike s t -> alike_exec (execMessage s tx sender cb lim g v) (execMessage t tx sender cb lim g v).
Proof.
  intros H1. unfold execMessage, State_Nonce.
  assert (forall a, State_GetCode s a = State_GetCode t a) as Hc by (intros a; exact (sim_GetCode (R := alike) s t a H1)).
  assert (forall a, txEnv (Credit s a v) tx sender cb lim a = txEnv (Credit t a v) tx sender cb lim a) as Henv.
  { intros a. destruct (alike_fields _ _ (alike_Credit s t a v H1)) as (_ & _ & _ & E & _). unfold txEnv. by rewrite E. }
  destruct (tx_To tx) as [to|].
  - rewrite Hc. destruct (0 <? len _).
    + rewrite Henv. rewrite !GetCode_Get, (alike_Get _ _ to (alike_Credit s t to v H1)).
      pose proof (Run_sim alike (Code (State_Get (Credit t to v) to)) (tx_Data tx) g
        (txEnv (Credit t to v) tx sender cb lim to) _ _ (alike_Credit s t to v H1)) as HR.
      unfold xsim in HR. destruct (Run _ _ _ _ _), (Run _ _ _ _ _); try done. destruct HR as [-> HR]. by destruct HR.
    + destruct (array_eqb _ _); (split; [done|]); [by apply alike_Burn|by apply alike_Credit].
  - destruct (CreateAddress sender (tx_Nonce tx)) as [a| |]; [|done..].
    rewrite Hc, (alike_Get s t a H1). destruct (_ || _); [by split|]. rewrite Henv.
    pose proof (Run_sim alike (tx_Data tx) [] g (txEnv (Credit t a v) tx sender cb lim a) _ _ (alike_Credit s t a v H1)) as HR.
    unfold xsim in HR. destruct (Run _ _ _ _ _), (Run _ _ _ _ _); try done. destruct HR as [-> HR]. destruct HR as [s' t' Hst|]; [|done].
    unfold depositCode. repeat case_match; simplify_eq; (split; [done|]); try done. exact (sim_SetCode (R := alike) s' t' _ _ Hst).
Qed.

Lemma alike_finishTx snap n i g mf gp sender cb e used s t :
  alike s t ->
  fst (finishTx snap n i g mf gp sender cb e used s) = fst (finishTx snap n i g mf gp sender cb e used t)
  /\ alike (snd (finishTx snap n i g mf gp sender cb e used s)) (snd (finishTx snap n i g mf gp sender cb e used t)).
Proof.
  intros Hst. unfold finishTx.
  assert (alike (State_RevertToSnapshot s snap) (State_RevertToSnapshot t snap)) as Hrev by (by apply alike_Revert).
  assert (alike (DiscardSnapshots s) (DiscardSnapshots t)) as Hdis by (by apply alike_Discard).
  destruct e as [e|]; cbn [fst snd];
    match goal with |- context [0 <? Z.sgn ?r] => destruct (0 <? Z.sgn r) end;
    match goal with |- context [alike ?x ?y] => assert (alike x y) as Hend end;
    try (split; [|exact Hend]; by destruct (alike_logs _ _ n Hend) as [-> _]);
    apply alike_distributeFee; try done; by apply alike_Credit.
Qed.

(** The transition respects [alike]: equal outcomes, related states. *)
Lemma alike_ApplyTx s t tx cb lim : alike s t -> alike_res (ApplyTx s tx cb lim) (ApplyTx t tx cb lim).
Proof.
  intros Hst. unfold ApplyTx. destruct (Sender tx) as [sender| |]; [|done..].
  rewrite <- (alike_Get s t sender Hst). do 2 (destruct (_ <? _); [done|]).
  set (i := IntrinsicGasFor _ _). destruct (_ <? _); [done|]. destruct (_ && _); [done|].
  destruct (Cost tx) as [cost| |], (tx_GasPrice tx) as [gp|], (tx_Value tx) as [v|]; try done.
  destruct (_ <? cost); [done|]. cbv zeta.
  set (acc' := with_Nonce _ _). pose proof (alike_set s t sender acc' Hst) as H1.
  destruct (alike_logs _ _ 0 H1) as [_ HL]. destruct (alike_Snapshot _ _ H1) as [Hi H2].
  rewrite (surjective_pairing (State_Snapshot (State_set s sender acc'))),
    (surjective_pairing (State_Snapshot (State_set t sender acc'))).
  rewrite HL, Hi. pose proof (alike_upd _ _ sender (fun a => with_Balance (Balance a - v) a) H2) as H3. cbn beta in H3.
  pose proof (alike_execMessage _ _ tx sender cb lim (u64 (tx_GasLimit tx - i)) v H3) as HX.
  unfold alike_exec in HX. destruct (execMessage _ _ _ _ _ _ _) as [[[e u] s4]| | |], (execMessage _ _ _ _ _ _ _) as [[[f w] t4]| | |]; try done.
  - destruct HX as [[= -> ->] HX].
    destruct (alike_finishTx (fst (State_Snapshot (State_set t sender acc'))) (LogCount (State_set t sender acc')) i
      (u64 (tx_GasLimit tx - i)) (tx_GasLimit tx * gp) gp sender cb f w _ _ HX) as [E HA].
    cbn [alike_res]. destruct (finishTx _ _ _ _ _ _ _ _ _ _ s4), (finishTx _ _ _ _ _ _ _ _ _ _ t4). by split.
Qed.

End Alike.
