(* ===== verification/TxProps.v ===== *)
(** * Theorems about transactions and blocks

    The statements a reader checks against transition.go, each with a concrete
    instance.  The proofs are in StateProofs, StateInv, TransitionProofs and
    BlockProofs. *)
From stdpp Require Import base numbers list gmap sorting.
From Stdlib Require Import ZArith Lia Strings.Byte.
From S2P Require Import Prelude Common Rlp Types VmBase Precompiles Vm VmProofs VmProps State StateProofs StateInv.
From S2P Require Import Transition TransitionProofs BlockProofs.
#[local] Open Scope Z_scope.
#[local] Open Scope list_scope.

(** ** Value transfers in closed form *)

(** What [a] gains or loses by an amount paid to [b]. *)
Definition gain (a b : Address) (v : Z) : Z := if decide (b = a) then v else 0.

Definition feeBurn (fee : Z) : Z := fee * FeeBurnBasisPoints / 10000.

Section Transfers.
Context `{Crypto} `{Bn256}.

(** The message of a transfer to an account without code. *)
Lemma execMessage_transfer s tx sender cb lim g value to :
  tx_To tx = Some to -> State_GetCode s to = [] ->
  execMessage s tx sender cb lim g value
  = Returns (None, 0, if decide (to = BurnAddress) then Burn s (Some value) else Credit s to value).
Proof.
  intros Ht Hc. unfold execMessage. rewrite Ht, Hc. change (0 <? len (@nil byte)) with false. cbn iota.
  destruct (array_eqb_spec to BurnAddress), (decide (to = BurnAddress)); done.
Qed.

(** The guards of [ApplyTx], passed. *)
Lemma ApplyTx_accepts s tx cb lim sender gp value :
  wf_state s -> sound_tx tx -> 0 < lim <= maxGas -> Sender tx = Ok sender ->
  tx_GasPrice tx = Some gp -> tx_Value tx = Some value ->
  let intrinsic := IntrinsicGasFor (tx_Data tx) (bool_decide (tx_To tx = None)) in
  tx_Nonce tx = State_Nonce s sender -> intrinsic <= tx_GasLimit tx <= lim ->
  tx_GasLimit tx * gp + value <= State_Balance s sender ->
  let s1 := chargeTx s sender (tx_GasLimit tx * gp) in
  let s3 := State_SubBalance (snd (State_Snapshot s1)) sender value in
  ApplyTx s tx cb lim =
  match execMessage s3 tx sender cb lim (tx_GasLimit tx - intrinsic) value with
  | Returns (vmErr, vmGasUsed, s4) =>
      Returns (finishTx (fst (State_Snapshot s1)) (LogCount s1) intrinsic (tx_GasLimit tx - intrinsic)
                 (tx_GasLimit tx * gp) gp sender cb vmErr vmGasUsed s4)
  | Raises e => Raises (e, s3)
  | Panics => Panics
  | OutOfFuel => OutOfFuel
  end.
Proof.
  intros Hw Hwf Hlim Hsender Hgp Hv intrinsic Hn Hg Hb s1 s3. unfold ApplyTx. rewrite Hsender.
  unfold State_Nonce, State_Balance in *. rewrite Hn, Z.ltb_irrefl. fold intrinsic.
  destruct (Z.ltb_spec (tx_GasLimit tx) intrinsic); [lia|].
  destruct (Z.ltb_spec lim (tx_GasLimit tx)); [lia|]. rewrite andb_false_r.
  unfold Cost. rewrite Hgp, Hv. cbn [or_panic res_bind].
  destruct (Z.ltb_spec (Balance (State_Get s sender)) (tx_GasLimit tx * gp + value)); [lia|].
  fold (chargeTx s sender (tx_GasLimit tx * gp)). fold s1. rewrite (surjective_pairing (State_Snapshot s1)).
  fold (State_SubBalance (snd (State_Snapshot s1)) sender value). fold s3.
  assert (maxGas = 2 ^ 60) by done. pose proof (sx_Data tx Hwf). pose proof (len_nonneg (tx_Data tx)).
  destruct (IntrinsicGasFor_sum (tx_Data tx) (bool_decide (tx_To tx = None)) ltac:(lia)).
  rewrite u64_small by (unfold intrinsic in *; lia). reflexivity.
Qed.

Lemma Balance_settle s sender cb maxFee spent a :
  spent <= maxFee ->
  State_Balance (settle s sender cb maxFee spent) a
  = State_Balance s a + gain a sender (maxFee - spent) + gain a cb (spent - feeBurn spent).
Proof.
  intros Hs. unfold settle, distributeFee, State_Balance, gain. fold (feeBurn spent). rewrite Get_Credit, !Get_Burn.
  destruct (Z.ltb_spec 0 (Z.sgn (maxFee - spent))); rewrite ?Get_Credit;
    repeat (case_decide; subst; try done); cbn; lia.
Qed.

Lemma Burned_Credit s a v : Burned (Credit s a v) = Burned s.
Proof.
  unfold Burned, burnedOrZero, Credit.
  by destruct (set_fields s a (with_Balance (Balance (State_Get s a) + v) (State_Get s a))) as (_ & _ & _ & -> & _).
Qed.

Lemma Burned_Burn s v : 0 <= v -> Burned (Burn s (Some v)) = Burned s + v.
Proof.
  intros Hv. unfold Burn. destruct (Z.leb_spec (Z.sgn v) 0); [lia|]. done.
Qed.

Lemma Burned_settle s sender cb maxFee spent :
  0 <= spent -> Burned (settle s sender cb maxFee spent) = Burned s + feeBurn spent.
Proof.
  intros Hs. unfold settle, distributeFee. pose proof (fee_split spent Hs).
  rewrite Burned_Credit, Burned_Burn by lia. by destruct (_ <? _); rewrite ?Burned_Credit.
Qed.

Lemma logs_fee s sender cb fee spent : logs (distributeFee (chargeTx s sender fee) cb spent) = logs s.
Proof.
  unfold distributeFee, Credit. set (b := Burn _ _). set (acc := with_Balance _ _).
  destruct (set_fields b cb acc) as (_ & -> & _). unfold b, Burn. destruct (_ <=? _); cbn; apply set_fields.
Qed.

(** Balances after a committed transfer, before the fee is settled. *)
Lemma Balance_transfer s sender fee value to a :
  State_Balance (DiscardSnapshots
    (if decide (to = BurnAddress)
     then Burn (State_SubBalance (snd (State_Snapshot (chargeTx s sender fee))) sender value) (Some value)
     else Credit (State_SubBalance (snd (State_Snapshot (chargeTx s sender fee))) sender value) to value)) a
  = State_Balance s a - gain a sender (fee + value) + (if decide (to = BurnAddress) then 0 else gain a to value).
Proof.
  change (State_Balance (DiscardSnapshots ?x)) with (State_Balance x).
  set (s3 := State_SubBalance _ _ _).
  assert (forall b, State_Balance s3 b = State_Balance s b - gain b sender (fee + value)) as H3.
  { intros b. unfold s3, State_Balance, gain. rewrite Get_SubBalance.
    change (State_Get (snd (State_Snapshot ?x))) with (State_Get x). unfold chargeTx. rewrite !Get_set.
    repeat (case_decide; subst; try done); cbn; lia. }
  unfold State_Balance in *. unfold gain at 2. destruct (decide (to = BurnAddress)).
  - rewrite Get_Burn, H3. lia.
  - rewrite Get_Credit. destruct (decide (to = a)) as [<-|]; cbn; rewrite H3; lia.
Qed.

End Transfers.

(** ** A concrete chain: one funded key, one contract that stores a word *)

#[local] Existing Instance toyCrypto.

#[local] Existing Instance toyBn256.

Definition toySender : Address := PublicKey_Address toyKey.
Definition toyContract : Address := array_of AddressLength [x77].
Definition toyMiner : Address := array_of AddressLength [x99].

(** PUSH1 1; PUSH1 0; SSTORE; STOP. *)
Definition toyCode : list byte := [x60; x01; x60; x00; x55; x00].

Definition toyState : State :=
  RestoreAccount (RestoreAccount State_New toySender 3 (Some 1000000) ∅ [])
    toyContract 0 None ∅ toyCode.

Lemma wf_New : wf_state State_New.
Proof. split; [intros a acc; cbn; by rewrite lookup_empty|done]. Qed.

Lemma toyState_wf : wf_state toyState.
Proof.
  assert (forall k v, (∅ : gmap Hash Hash) !! k = Some v -> Hash_IsZero v = false) by (intros k v; by rewrite lookup_empty).
  unfold toyState, RestoreAccount. apply wf_set; [apply wf_set; [apply wf_New|]|].
  - split; cbn; [unfold is_u64; lia|lia|done|vm_compute; done].
  - split; cbn; [unfold is_u64; lia|lia|done|vm_compute; done].
Qed.

(** A call of the contract, with gas for its run. *)
Definition toyCall : Transaction :=
  mkTx TxTypeTransfer 7 3 (Some toyContract) (Some 5) 60000 (Some 2) [] (x1b :: replicate 64 x01).

(** The same with too little gas for the store: it fails and pays. *)
Definition toyShort : Transaction :=
  mkTx TxTypeTransfer 7 3 (Some toyContract) (Some 5) 21010 (Some 2) [] (x1b :: replicate 64 x01).

Lemma toyCall_wf : sound_tx toyCall.
Proof.
  split; unfold is_u64; cbn [toyCall tx_Nonce tx_GasLimit tx_Value tx_GasPrice]; [lia|lia|exists 5|exists 2|done]; (split; [done|lia]).
Qed.

Lemma toyShort_wf : sound_tx toyShort.
Proof.
  split; unfold is_u64; cbn [toyShort tx_Nonce tx_GasLimit tx_Value tx_GasPrice]; [lia|lia|exists 5|exists 2|done]; (split; [done|lia]).
Qed.

Definition is_return {E A} (r : callres E A) : bool := match r with Returns _ => true | _ => false end.

(** Run [ApplyTx] on the concrete state; only the branch that returns is left. *)
Ltac returns E :=
  match goal with
  | |- context [ApplyTx ?s ?tx ?cb ?lim] =>
      let R := fresh in
      assert (is_return (ApplyTx s tx cb lim) = true) as R by (vm_compute; reflexivity);
      destruct (ApplyTx s tx cb lim) as [[[[used status] lgs] s']|[e s']| |] eqn:E;
      [clear R|discriminate R..]
  end.

(** ** Properties: transactions *)

(** C1: A transaction never mints, destroys or loses a coin: all balances plus the burn total are the
    same before and after, whatever code it runs, and no balance becomes negative. *)
Theorem ApplyTx_conserves `{Crypto} `{Bn256} s tx cb lim used status lgs s' :
  wf_state s -> snapshots s = [] -> sound_tx tx -> 0 < lim <= maxGas ->
  ApplyTx s tx cb lim = Returns (used, status, lgs, s') ->
  SumBalances s' + Burned s' = SumBalances s + Burned s /\ wf_state s' /\ forall a, 0 <= State_Balance s' a.
Proof.
  intros Hw Hsp Hwf Hlim E.
  pose proof (ApplyTx_spec None s tx cb lim Hw Hsp Hwf Hlim (fun _ _ => protects_none _ _)) as HT. rewrite E in HT.
  destruct HT as (_ & ? & ? & ? & _ & _ & _ & _ & _ & _ & [Hw' _ _ Hsup _ _ _]).
  split_and!; [exact Hsup|done|]. intros a. by apply wf_Get.
Qed.

Lemma ApplyTx_conserves_witness :
  match ApplyTx toyState toyCall toyMiner 30000000 with
  | Returns (_, _, _, s') => SumBalances s' + Burned s' = SumBalances toyState + Burned toyState
                             /\ wf_state s' /\ forall a, 0 <= State_Balance s' a
  | _ => False
  end.
Proof.
  returns E. apply (ApplyTx_conserves toyState toyCall toyMiner 30000000 used status lgs s').
  - apply toyState_wf.
  - reflexivity.
  - apply toyCall_wf.
  - unfold maxGas. lia.
  - exact E.
Defined.

(** C27: [ApplyTx] always comes to an end, and never by a panic: it raises an error and leaves the state
    exactly as it was, or it commits with a gas use between the intrinsic gas and the transaction's
    limit, itself at most the block's. *)
Theorem ApplyTx_total `{Crypto} `{Bn256} s tx cb lim :
  wf_state s -> snapshots s = [] -> sound_tx tx -> 0 < lim <= maxGas ->
  (exists e, ApplyTx s tx cb lim = Raises (e, s))
  \/ (exists used status lgs s', ApplyTx s tx cb lim = Returns (used, status, lgs, s')
      /\ IntrinsicGasFor (tx_Data tx) (bool_decide (tx_To tx = None)) <= used <= tx_GasLimit tx
      /\ tx_GasLimit tx <= lim).
Proof.
  intros Hw Hsp Hwf Hlim.
  pose proof (ApplyTx_spec None s tx cb lim Hw Hsp Hwf Hlim (fun _ _ => protects_none _ _)) as HT.
  destruct (ApplyTx s tx cb lim) as [[[[used status] lgs] s']|[e s']| |]; try done.
  - destruct HT as (_ & ? & ? & ? & _ & _ & _ & _ & ? & _ & [_ _ _ _ ? _ _]). right. eauto 10.
  - left. exists e. by rewrite HT.
Qed.

Lemma ApplyTx_total_witness :
  (exists e, ApplyTx toyState toyTx toyMiner 30000000 = Raises (e, toyState))
  \/ (exists used status lgs s', ApplyTx toyState toyTx toyMiner 30000000 = Returns (used, status, lgs, s')
      /\ IntrinsicGasFor (tx_Data toyTx) (bool_decide (tx_To toyTx = None)) <= used <= tx_GasLimit toyTx
      /\ tx_GasLimit toyTx <= 30000000).
Proof.
  apply (ApplyTx_total toyState toyTx toyMiner 30000000);
    [apply toyState_wf|reflexivity|apply wf_sound, toyTx_wf|unfold maxGas; lia].
Defined.

(** C29: A transaction whose execution fails (a revert, a fault, a collision) leaves nothing behind but
    the fee and the nonce: the state's content is the old one with the spent gas charged to the
    sender, the nonce advanced and the fee distributed, and no log is reported. *)
Theorem ApplyTx_failed_only_pays `{Crypto} `{Bn256} s tx cb lim used lgs s' sender gp :
  wf_state s -> snapshots s = [] -> sound_tx tx -> 0 < lim <= maxGas ->
  Sender tx = Ok sender -> tx_GasPrice tx = Some gp ->
  ApplyTx s tx cb lim = Returns (used, ReceiptFailed, lgs, s') ->
  content s' = content (distributeFee (chargeTx s sender (used * gp)) cb (used * gp)) /\ lgs = [].
Proof.
  intros Hw Hsp Hwf Hlim HS HG E.
  pose proof (ApplyTx_spec None s tx cb lim Hw Hsp Hwf Hlim (fun _ _ => protects_none _ _)) as HT. rewrite E in HT.
  destruct HT as (-> & sender' & gp' & ? & HS' & HG' & _ & _ & _ & _ & [_ _ _ _ _ Hst _]).
  rewrite HS in HS'. rewrite HG in HG'. injection HS' as <-. injection HG' as <-.
  destruct Hst as [|[_ Hc]]; [done|]. split; [done|].
  assert (logs s' = logs s) as HL.
  { injection Hc as _ _ -> _. apply logs_fee. }
  unfold LogsSince, LogCount. rewrite HL. by rewrite Z.leb_refl.
Qed.

Lemma ApplyTx_failed_only_pays_witness :
  match ApplyTx toyState toyShort toyMiner 30000000 with
  | Returns (used, _, lgs, s') =>
      content s' = content (distributeFee (chargeTx toyState toySender (used * 2)) toyMiner (used * 2)) /\ lgs = []
  | _ => False
  end.
Proof.
  returns E. assert (status = ReceiptFailed) as Hst.
  { assert (match ApplyTx toyState toyShort toyMiner 30000000 with Returns (_, st, _, _) => st =? 0 | _ => false end = true)
      as HR by (vm_compute; reflexivity). rewrite E in HR. by apply Z.eqb_eq in HR. }
  apply (ApplyTx_failed_only_pays toyState toyShort toyMiner 30000000 used lgs s' toySender 2).
  - apply toyState_wf.
  - reflexivity.
  - apply toyShort_wf.
  - unfold maxGas. lia.
  - vm_compute. reflexivity.
  - reflexivity.
  - rewrite <- Hst. exact E.
Defined.

(** The sender's nonce advances by exactly one, whatever code the transaction runs, and its account
    gets no code; every other account without code that has sent a transaction keeps its nonce.  (The
    sender has no code, and its nonce is below the last 64-bit value.) *)
Theorem ApplyTx_nonce_exact `{Crypto} `{Bn256} s tx cb lim used status lgs s' sender :
  wf_state s -> snapshots s = [] -> sound_tx tx -> 0 < lim <= maxGas ->
  Sender tx = Ok sender -> State_GetCode s sender = [] -> State_Nonce s sender + 1 < 2 ^ 64 ->
  ApplyTx s tx cb lim = Returns (used, status, lgs, s') ->
  tx_Nonce tx = State_Nonce s sender /\ State_Nonce s' sender = State_Nonce s sender + 1
  /\ State_GetCode s' sender = []
  /\ forall a, a <> sender -> eoa a s -> eoa a s' /\ State_Nonce s' a = State_Nonce s a.
Proof.
  intros Hw Hsp Hwf Hlim HS Hc Hlt E. assert (0 <= State_Nonce s sender) as H0' by apply (wf_Get s sender Hw).
  assert (forall a, protects (Some a) s sender -> tx_Nonce tx = State_Nonce s sender
    /\ eoa a s' /\ State_Nonce s' a = bumped s sender a) as Hp.
  { intros a Ha. pose proof (ApplyTx_spec (Some a) s tx cb lim Hw Hsp Hwf Hlim) as HT. rewrite E in HT.
    destruct HT as (_ & sender' & ? & ? & HS' & _ & _ & Hn & _ & _ & [_ _ _ _ _ _ He]).
    - intros x Hx. rewrite HS in Hx. by injection Hx as <-.
    - rewrite HS in HS'. injection HS' as <-. split; [done|]. by apply He. }
  destruct (Hp sender) as (Hn & [_ Hc'] & Hn').
  { intros a [= <-]. split; [done|]. unfold bumped. rewrite decide_True by done. rewrite u64_small; lia. }
  unfold bumped in Hn'. rewrite decide_True, u64_small in Hn' by (done || lia). split_and!; try done.
  intros a Hne [Hna Hca]. destruct (Hp a) as (_ & He & ->).
  { intros b [= <-]. split; [done|]. unfold bumped. by rewrite decide_False. }
  split; [done|]. unfold bumped. by rewrite decide_False.
Qed.

Lemma ApplyTx_nonce_exact_witness :
  match ApplyTx toyState toyCall toyMiner 30000000 with
  | Returns (_, _, _, s') =>
      tx_Nonce toyCall = State_Nonce toyState toySender
      /\ State_Nonce s' toySender = State_Nonce toyState toySender + 1
      /\ State_GetCode s' toySender = []
      /\ forall a, a <> toySender -> eoa a toyState -> eoa a s' /\ State_Nonce s' a = State_Nonce toyState a
  | _ => False
  end.
Proof.
  returns E. apply (ApplyTx_nonce_exact toyState toyCall toyMiner 30000000 used status lgs s' toySender).
  - apply toyState_wf.
  - reflexivity.
  - apply toyCall_wf.
  - unfold maxGas. lia.
  - vm_compute. reflexivity.
  - vm_compute. reflexivity.
  - vm_compute. reflexivity.
  - exact E.
Defined.

(** C28: No transaction executes twice.  Once it has committed, it is refused as a stale nonce in every
    later state, whatever transactions, rewards and blocks came in between (fewer than 2^64 of
    them). *)
Theorem no_replay `{Crypto} `{Bn256} s tx cb lim used status lgs s1 n s2 sender cb' lim' :
  wf_state s -> snapshots s = [] -> sound_tx tx -> 0 < lim <= maxGas ->
  Sender tx = Ok sender -> State_GetCode s sender = [] ->
  State_Nonce s sender + 1 + Z.of_nat n < 2 ^ 64 ->
  ApplyTx s tx cb lim = Returns (used, status, lgs, s1) -> chain_steps n s1 s2 ->
  ApplyTx s2 tx cb' lim' = Raises (ErrNonceTooLow, s2).
Proof.
  intros Hw Hsp Hwf Hlim HS Hc Hlt E Hsteps. assert (0 <= State_Nonce s sender) as H0' by apply (wf_Get s sender Hw).
  pose proof (ApplyTx_spec (Some sender) s tx cb lim Hw Hsp Hwf Hlim) as HT. rewrite E in HT.
  destruct HT as (_ & sender' & ? & ? & HS' & _ & _ & Hn & _ & _ & [Hw1 Hsp1 _ _ _ _ He]).
  { intros x Hx a [= <-]. rewrite HS in Hx. injection Hx as <-. split; [done|]. unfold bumped.
    rewrite decide_True by done. rewrite u64_small; lia. }
  rewrite HS in HS'. injection HS' as <-. destruct (He sender eq_refl) as [He1 Hn1].
  unfold bumped in Hn1. rewrite decide_True, u64_small in Hn1 by (done || lia).
  destruct (chain_steps_eoa sender n s1 s2 Hsteps Hw1 Hsp1 He1 ltac:(lia)) as (_ & _ & _ & Hn2).
  unfold ApplyTx. rewrite HS. unfold State_Nonce in *.
  destruct (Z.ltb_spec (tx_Nonce tx) (Nonce (State_Get s2 sender))); [done|lia].
Qed.

Lemma no_replay_witness :
  match ApplyTx toyState toyCall toyMiner 30000000 with
  | Returns (_, _, _, s1) =>
      ApplyTx (CreditBlockReward (mkSplit 0 ZeroAddress) s1 toyMiner 1) toyCall toyMiner 30000000
      = Raises (ErrNonceTooLow, CreditBlockReward (mkSplit 0 ZeroAddress) s1 toyMiner 1)
  | _ => False
  end.
Proof.
  returns E.
  apply (no_replay toyState toyCall toyMiner 30000000 used status lgs s' 1
           (CreditBlockReward (mkSplit 0 ZeroAddress) s' toyMiner 1) toySender toyMiner 30000000).
  - apply toyState_wf.
  - reflexivity.
  - apply toyCall_wf.
  - unfold maxGas. lia.
  - vm_compute. reflexivity.
  - vm_compute. reflexivity.
  - vm_compute. reflexivity.
  - exact E.
  - eapply CS_next; [|apply CS_refl]. apply CS_reward. vm_compute. congruence.
Defined.

(** A transfer to an account without code, in closed form.  It uses exactly the intrinsic gas; the
    sender pays value and fee, the recipient gets the value (the burn address gets nothing: the value
    joins the burn total), the proposer gets the fee less its burned fifth; the three may coincide.
    No other balance changes. *)
Theorem transfer_exact `{Crypto} `{Bn256} s tx cb lim sender gp value to :
  wf_state s -> snapshots s = [] -> sound_tx tx -> 0 < lim <= maxGas -> Sender tx = Ok sender ->
  tx_GasPrice tx = Some gp -> tx_Value tx = Some value -> tx_To tx = Some to ->
  State_GetCode s to = [] -> tx_Nonce tx = State_Nonce s sender ->
  IntrinsicGasFor (tx_Data tx) false <= tx_GasLimit tx <= lim ->
  tx_GasLimit tx * gp + value <= State_Balance s sender ->
  let fee := IntrinsicGasFor (tx_Data tx) false * gp in
  exists lgs s', ApplyTx s tx cb lim = Returns (IntrinsicGasFor (tx_Data tx) false, ReceiptSuccess, lgs, s')
    /\ (forall a, State_Balance s' a = State_Balance s a - gain a sender (fee + value)
                    + (if decide (to = BurnAddress) then 0 else gain a to value) + gain a cb (fee - feeBurn fee))
    /\ Burned s' = Burned s + feeBurn fee + (if decide (to = BurnAddress) then value else 0).
Proof.
  intros Hw Hsp Hwf Hlim HS Hgp Hv Hto Hc Hn Hg Hb fee.
  assert (bool_decide (tx_To tx = None) = false) as Hto' by (by rewrite bool_decide_eq_false, Hto).
  assert (0 <= gp /\ 0 <= value) as [? ?].
  { destruct (sx_GasPrice tx Hwf) as (? & E1 & ?), (sx_Value tx Hwf) as (? & E2 & ?).
    rewrite E1 in Hgp. rewrite E2 in Hv. injection Hgp as <-. injection Hv as <-. lia. }
  pose proof (ApplyTx_accepts s tx cb lim sender gp value Hw Hwf Hlim HS Hgp Hv) as E. cbv zeta in E. rewrite Hto' in E.
  rewrite (E Hn Hg Hb). clear E. set (intrinsic := IntrinsicGasFor (tx_Data tx) false) in *.
  assert (0 <= intrinsic < 2 ^ 64) as Hi.
  { pose proof (sx_Data tx Hwf). pose proof (len_nonneg (tx_Data tx)). unfold intrinsic.
    destruct (IntrinsicGasFor_sum (tx_Data tx) false ltac:(lia)). lia. }
  rewrite (execMessage_transfer _ tx sender cb lim _ value to Hto).
  2: { rewrite GetCode_Get, Get_SubBalance. change (State_Get (snd (State_Snapshot ?x))) with (State_Get x).
       rewrite <- Hc, GetCode_Get. unfold chargeTx. rewrite !Get_set.
       repeat (case_decide; subst; try done). }
  unfold finishTx. rewrite Z.add_0_r, u64_small by done. fold fee.
  do 2 eexists. split; [reflexivity|].
  change (distributeFee (if 0 <? Z.sgn (?m - fee) then Credit ?x sender (?m - fee) else ?x) cb fee)
    with (settle x sender cb m fee).
  assert (0 <= fee <= tx_GasLimit tx * gp) by (unfold fee; nia). split.
  - intros a. rewrite Balance_settle, Balance_transfer by lia. unfold gain. destruct (decide (sender = a)); lia.
  - rewrite Burned_settle by lia. change (Burned (DiscardSnapshots ?x)) with (Burned x).
    assert (Burned (State_SubBalance (snd (State_Snapshot (chargeTx s sender (tx_GasLimit tx * gp)))) sender value) = Burned s) as HB.
    { unfold Burned, burnedOrZero, State_SubBalance. set (acc := with_Balance _ _).
      destruct (set_fields (snd (State_Snapshot (chargeTx s sender (tx_GasLimit tx * gp)))) sender acc) as (_ & _ & _ & -> & _).
      cbn. f_equal. apply set_fields. }
    destruct (decide (to = BurnAddress)); [rewrite Burned_Burn by lia|rewrite Burned_Credit]; rewrite HB; lia.
Qed.

Lemma transfer_exact_witness :
  let fee := IntrinsicGasFor (tx_Data toyTx) false * 2 in
  exists lgs s', ApplyTx toyState toyTx toyMiner 30000000
                 = Returns (IntrinsicGasFor (tx_Data toyTx) false, ReceiptSuccess, lgs, s')
    /\ (forall a, State_Balance s' a = State_Balance toyState a - gain a toySender (fee + 5)
                    + (if decide (BurnAddress = BurnAddress) then 0 else gain a BurnAddress 5)
                    + gain a toyMiner (fee - feeBurn fee))
    /\ Burned s' = Burned toyState + feeBurn fee + (if decide (BurnAddress = BurnAddress) then 5 else 0).
Proof.
  apply (transfer_exact toyState toyTx toyMiner 30000000 toySender 2 5 BurnAddress).
  - apply toyState_wf.
  - reflexivity.
  - apply wf_sound, toyTx_wf.
  - unfold maxGas. lia.
  - vm_compute. reflexivity.
  - reflexivity.
  - reflexivity.
  - reflexivity.
  - vm_compute. reflexivity.
  - vm_compute. reflexivity.
  - vm_compute. split; congruence.
  - vm_compute. congruence.
Defined.
