(* ===== verification/StateRoot.v ===== *)
(** * The state root commits to the state

    [Account_encode] is injective on well-formed accounts, the sorted leaves
    determine the account map, and the burn total is bound too although it is
    hashed in without a tag: preimages of the three kinds have different
    lengths as long as less than 2^96 lux is burned. *)
From stdpp Require Import base numbers list gmap sorting.
From Stdlib Require Import ZArith Lia Strings.Byte.
From S2P Require Import Prelude Common Types State StateProofs StateInv TxProps.
#[local] Open Scope Z_scope.
#[local] Open Scope list_scope.

(** Sizes that a node can hold: a 256-bit balance, fewer than 2^50 storage slots. *)
Record fits (acc : Account) : Prop := {
  ft_balance : Balance acc < 2 ^ 256;
  ft_storage : len (sortedKeys (Storage acc)) < 2 ^ 50;
}.

Record fits_state (s : State) : Prop := {
  fs_accounts : forall a acc, accounts s !! a = Some acc -> fits acc;
  fs_burned : burnedOrZero s < 2 ^ 96;
}.

(** ** Sorted keys *)

Lemma elem_of_sortedKeys {n V} (m : gmap (array n) V) k : k ∈ sortedKeys m <-> is_Some (m !! k).
Proof.
  unfold sortedKeys. rewrite sort_arrays_Permutation. rewrite list_elem_of_fmap. split.
  - intros ([k' v] & -> & Hin). apply elem_of_map_to_list in Hin. by exists v.
  - intros [v Hv]. exists (k, v). split; [done|]. by apply elem_of_map_to_list.
Qed.

(** Maps with the same keys and the same values there are equal. *)
Lemma map_eq_keys {n V} (m m' : gmap (array n) V) d :
  sortedKeys m = sortedKeys m' ->
  (forall k, k ∈ sortedKeys m -> default d (m !! k) = default d (m' !! k)) -> m = m'.
Proof.
  intros Hk Hv. apply map_eq. intros k. destruct (decide (k ∈ sortedKeys m)) as [Hin|Hout].
  - specialize (Hv k Hin). pose proof Hin as Hin'. rewrite Hk in Hin'.
    apply elem_of_sortedKeys in Hin as [v Ev], Hin' as [v' Ev']. rewrite Ev, Ev' in *. cbn in Hv. congruence.
  - pose proof Hout as Hout'. rewrite Hk in Hout'. rewrite elem_of_sortedKeys in Hout, Hout'.
    apply eq_None_not_Some in Hout, Hout'. congruence.
Qed.

(** ** Accounts *)

Definition slot (h : Hash -> Hash) (k : Hash) : list byte := Encoder_Raw (abytes k) ++ Encoder_Raw (abytes (h k)).

Lemma slots_prefix (h h' : Hash -> Hash) l k r s :
  length l = length k -> concat (map (slot h) l) ++ r = concat (map (slot h') k) ++ s ->
  l = k /\ (forall x, x ∈ l -> h x = h' x) /\ r = s.
Proof.
  revert k. induction l as [|x l IH]; intros [|y k] Hl E; try done.
  { cbn in E. split_and!; try done. intros x Hx. by apply elem_of_nil in Hx. }
  cbn [map concat] in E. unfold slot at 1 3 in E. rewrite <- !app_assoc in E.
  apply Encoder_Raw_prefix in E as [<- E]. apply Encoder_Raw_prefix in E as [Ev E].
  destruct (IH k ltac:(by injection Hl) E) as (<- & Hv & ->). split_and!; [done| |done].
  intros z Hz. apply elem_of_cons in Hz as [->|Hz]; [done|by apply Hv].
Qed.

Lemma Account_encode_inj a b :
  wf_account a -> fits a -> wf_account b -> fits b -> Account_encode a = Account_encode b -> a = b.
Proof.
  intros [Na Ba Sa Ca] [FBa FSa] [Nb Bb Sb Cb] [FBb FSb] E. unfold Account_encode, is_u64 in *.
  apply Encoder_Uint64_prefix in E as [En E]; [|lia..].
  apply Encoder_BigInt_prefix in E as [Eb E]; [|lia..].
  pose proof (len_nonneg (sortedKeys (Storage a))). pose proof (len_nonneg (sortedKeys (Storage b))).
  rewrite !u64_small in E by lia. apply Encoder_Uint64_prefix in E as [El E]; [|lia..].
  apply (slots_prefix (fun k => default ZeroHash (Storage a !! k)) (fun k => default ZeroHash (Storage b !! k))) in E
    as (Ek & Ev & E); [|unfold len in El; by apply Nat2Z.inj].
  apply (map_eq_keys _ _ ZeroHash) in Ek; [|done].
  assert (Code a = Code b) as Ec.
  { pose proof (len_nonneg (Code a)). pose proof (len_nonneg (Code b)).
    assert (forall c : list byte, len c <= 0 -> c = []) as Hnil by (intros [|x c]; [done|rewrite len_cons; pose proof (len_nonneg c); lia]).
    destruct (Z.ltb_spec 0 (len (Code a))), (Z.ltb_spec 0 (len (Code b))).
    - rewrite <- (app_nil_r (Encoder_Bytes (Code a))), <- (app_nil_r (Encoder_Bytes (Code b))) in E.
      by apply Encoder_Bytes_prefix in E as [-> _]; [|lia..].
    - unfold Encoder_Bytes, Encoder_Uint64 in E. by destruct (be_fixed 8 _) eqn:F; [apply (f_equal length) in F; rewrite length_be_fixed in F|].
    - unfold Encoder_Bytes, Encoder_Uint64 in E. by destruct (be_fixed 8 _) eqn:F; [apply (f_equal length) in F; rewrite length_be_fixed in F|].
    - rewrite (Hnil (Code a)), (Hnil (Code b)) by done. done. }
  destruct a, b. cbn in *. congruence.
Qed.

Lemma len_concat_slots h l : len (concat (map (slot h) l)) = 64 * len l.
Proof.
  induction l as [|x l IH]; [done|]. cbn [map concat]. unfold slot at 1, Encoder_Raw.
  rewrite !len_app, !len_abytes, IH, len_cons. change (Z.of_nat HashLength) with 32. lia.
Qed.

Lemma len_Encoder_Bytes b : len (Encoder_Bytes b) = 8 + len b.
Proof. unfold Encoder_Bytes, Encoder_Uint64. rewrite len_app. unfold len at 1. rewrite length_be_fixed. lia. Qed.

(** Between 24 bytes and far fewer than 2^64. *)
Lemma len_Account_encode a : wf_account a -> fits a -> 24 <= len (Account_encode a) < 2 ^ 63.
Proof.
  intros [Na Ba Sa Ca] [FBa FSa]. unfold Account_encode. cbn [Encoder_BigInt].
  change (fun k : array HashLength => Encoder_Raw (abytes k) ++ Encoder_Raw (abytes (default ZeroHash (Storage a !! k))))
    with (slot (fun k => default ZeroHash (Storage a !! k))).
  rewrite !len_app, len_concat_slots, len_Encoder_Bytes, len_be_min.
  assert (forall v, len (Encoder_Uint64 v) = 8) as Hu.
  { intros v. unfold Encoder_Uint64, len. by rewrite length_be_fixed. }
  rewrite !Hu. pose proof (byteLen_nonneg (Balance a)). pose proof (len_nonneg (sortedKeys (Storage a))).
  pose proof (len_nonneg (Code a)). assert (byteLen (Balance a) <= 32).
  { apply byteLen_bound; [lia|]. change (256 ^ 32) with (2 ^ 256). lia. }
  unfold Hash in *. destruct (0 <? len (Code a)); rewrite ?len_Encoder_Bytes; change (len []) with 0; lia.
Qed.

(** ** The root *)

Section Root.
Context `{Crypto}.

Definition leafOf (s : State) (addr : Address) : list byte :=
  Encoder_Raw (abytes addr) ++ Encoder_Bytes (Account_encode (State_Get s addr)).

Definition leaves (s : State) : list (list byte) := map (leafOf s) (sortedKeys (accounts s)).

Lemma key_account s a : wf_state s -> fits_state s -> a ∈ sortedKeys (accounts s) ->
  wf_account (State_Get s a) /\ fits (State_Get s a).
Proof.
  intros [Hw _] [Hf _] [acc Ha]%elem_of_sortedKeys. change (accounts s !! a = Some acc) in Ha.
  unfold State_Get. rewrite Ha. cbn.
  split; [by apply (Hw a)|by apply (Hf a)].
Qed.

Lemma leafOf_inj s s' a b :
  wf_account (State_Get s a) -> fits (State_Get s a) -> wf_account (State_Get s' b) -> fits (State_Get s' b) ->
  leafOf s a = leafOf s' b -> a = b /\ State_Get s a = State_Get s' b.
Proof.
  intros Wa Fa Wb Fb E. unfold leafOf in E. apply Encoder_Raw_prefix in E as [-> E].
  pose proof (len_Account_encode _ Wa Fa). pose proof (len_Account_encode _ Wb Fb).
  rewrite <- (app_nil_r (Encoder_Bytes _)) in E.
  rewrite <- (app_nil_r (Encoder_Bytes (Account_encode (State_Get s' b)))) in E.
  apply Encoder_Bytes_prefix in E as [E _]; [|lia..]. split; [done|]. by apply Account_encode_inj.
Qed.

(** Equal leaves, equal accounts. *)
Lemma leaves_inj s s' :
  wf_state s -> fits_state s -> wf_state s' -> fits_state s' -> leaves s = leaves s' -> accounts s = accounts s'.
Proof.
  intros Hw Hf Hw' Hf' E.
  assert (forall l k, (forall a, a ∈ l -> wf_account (State_Get s a) /\ fits (State_Get s a)) ->
    (forall a, a ∈ k -> wf_account (State_Get s' a) /\ fits (State_Get s' a)) ->
    map (leafOf s) l = map (leafOf s') k -> l = k /\ forall a, a ∈ l -> State_Get s a = State_Get s' a) as Hlist.
  { induction l as [|a l IH]; intros [|b k] Hl Hk El; try done; [split; [done|]; by intros a ?%elem_of_nil|].
    cbn [map] in El. pose proof (f_equal head El) as E1. pose proof (f_equal tail El) as E2. cbn [head tail] in E1, E2.
    destruct (Hl a) as [Wa Fa]; [by left|]. destruct (Hk b) as [Wb Fb]; [by left|].
    assert (leafOf s a = leafOf s' b) as E3 by congruence.
    apply (leafOf_inj s s' a b Wa Fa Wb Fb) in E3 as [-> Eg].
    destruct (IH k) as [-> Hg]; [intros; apply Hl; by right|intros; apply Hk; by right|done|].
    split; [done|]. intros x [->|Hx]%elem_of_cons; [done|by apply Hg]. }
  destruct (Hlist _ _ (fun a => key_account s a Hw Hf) (fun a => key_account s' a Hw' Hf') E) as [Ek Hg].
  apply (map_eq_keys _ _ emptyAccount Ek). intros k Hk. by apply Hg.
Qed.

(** What is hashed last for a Merkle root that is not empty: at least 53 bytes. *)
Lemma MerkleRoot_input s : wf_state s -> fits_state s ->
  MerkleRoot (leaves s) = ZeroHash \/ exists x, MerkleRoot (leaves s) = keccak256 x /\ x ∈ merkleInputs (leaves s) /\ 53 <= len x.
Proof.
  intros Hw Hf. destruct (decide (leaves s = [])) as [->|Hne]; [by left|]. right.
  destruct (MerkleRoot_tree (leaves s) Hne) as (t & -> & Ht & Hi). destruct (mhash_input t) as [-> Hx].
  exists (minput t). split; [done|]. split; [by apply Hi|]. destruct t as [d|l r]; cbn [minput mleaves] in *.
  - unfold leafInput, leafTag. cbn [app]. rewrite len_cons.
    unfold leaves in Ht. destruct (sortedKeys (accounts s)) as [|a [|]] eqn:Ek; [done| |done].
    assert (a ∈ sortedKeys (accounts s)) as Hin by (rewrite Ek; by left).
    destruct (key_account s a Hw Hf Hin) as [Wa Fa]. pose proof (len_Account_encode _ Wa Fa).
    cbn [map] in Ht. assert (d = leafOf s a) as -> by congruence. unfold leafOf, Encoder_Raw.
    rewrite len_app, len_Encoder_Bytes, len_abytes. change (Z.of_nat AddressLength) with 20. lia.
  - unfold nodeInput, nodeTag. cbn [app]. rewrite len_cons, len_app, !len_abytes. change (Z.of_nat HashLength) with 32. lia.
Qed.

(** What the root hashes once something is burned. *)
Definition burnPreimage (root : Hash) (b : Z) : list byte := Encoder_Raw (abytes root) ++ Encoder_BigInt (Some b).

Lemma len_burnPreimage root b : 0 <= b < 2 ^ 96 -> len (burnPreimage root b) <= 52.
Proof.
  intros Hb. unfold burnPreimage, Encoder_Raw. cbn [Encoder_BigInt].
  rewrite len_app, len_abytes, len_Encoder_Bytes, len_be_min. change (Z.of_nat HashLength) with 32.
  assert (byteLen b <= 12); [|lia]. apply byteLen_bound; [lia|]. change (256 ^ 12) with (2 ^ 96). lia.
Qed.

Lemma Root_cases s :
  (burnedOrZero s = 0 /\ Root s = MerkleRoot (leaves s))
  \/ (burnedOrZero s <> 0 /\ Root s = keccak256 (burnPreimage (MerkleRoot (leaves s)) (burnedOrZero s))).
Proof.
  unfold Root, burnPreimage, leaves, leafOf, burnedOrZero. destruct (Z.eqb_spec (Z.sgn (default 0 (burned s))) 0) as [E|E].
  - left. split; [lia|done].
  - right. split; [lia|]. destruct (burned s) as [b|]; [|done]. unfold Keccak256. cbn [concat]. by rewrite app_nil_r.
Qed.

(** Every string hashed in computing the root (the account leaves, the nodes above them, the burn total). *)
Definition rootInputs (s : State) : list (list byte) :=
  merkleInputs (leaves s)
  ++ (if burnedOrZero s =? 0 then [] else [burnPreimage (MerkleRoot (leaves s)) (burnedOrZero s)]).

Lemma burn_input s : burnedOrZero s <> 0 -> burnPreimage (MerkleRoot (leaves s)) (burnedOrZero s) ∈ rootInputs s.
Proof. intros Hb. unfold rootInputs. destruct (Z.eqb_spec (burnedOrZero s) 0); [done|]. apply elem_of_app. right. by left. Qed.

Lemma Root_mixed s s' : wf_state s -> fits_state s -> wf_state s' -> fits_state s' ->
  burnedOrZero s' <> 0 -> collision_free (rootInputs s ++ rootInputs s') -> nonzero_digests (rootInputs s ++ rootInputs s') ->
  MerkleRoot (leaves s) <> keccak256 (burnPreimage (MerkleRoot (leaves s')) (burnedOrZero s')).
Proof.
  intros Hw Hf Hw' Hf' Hb0 Hc Hz E.
  pose proof (len_burnPreimage (MerkleRoot (leaves s')) (burnedOrZero s')) as Hl. pose proof (burn_input s' Hb0) as Hin.
  destruct Hw' as [_ Hb], Hf' as [_ Hb']. specialize (Hl ltac:(lia)).
  destruct (MerkleRoot_input s Hw Hf) as [E0|(x & Ex & Hxi & Hx)].
  - rewrite E0 in E. apply (Hz (burnPreimage (MerkleRoot (leaves s')) (burnedOrZero s'))); [apply elem_of_app; by right|done].
  - rewrite Ex in E. apply Hc in E; [subst x; lia| |apply elem_of_app; by right].
    apply elem_of_app. left. unfold rootInputs. apply elem_of_app. by left.
Qed.

Lemma leaves_bind s s' :
  wf_state s -> fits_state s -> wf_state s' -> fits_state s' ->
  collision_free (rootInputs s ++ rootInputs s') -> nonzero_digests (rootInputs s ++ rootInputs s') ->
  MerkleRoot (leaves s) = MerkleRoot (leaves s') -> accounts s = accounts s'.
Proof.
  intros Hw Hf Hw' Hf' Hc Hz E. assert (merkleInputs (leaves s) ++ merkleInputs (leaves s') ⊆ rootInputs s ++ rootInputs s') as Hs.
  { unfold rootInputs. intros x. rewrite !elem_of_app. tauto. }
  apply leaves_inj; try done. apply MerkleRoot_binding_lemma; [by eapply collision_free_sub|by eapply nonzero_digests_sub|done].
Qed.

Lemma collision_free_swap xs ys : collision_free (xs ++ ys) -> collision_free (ys ++ xs).
Proof. apply collision_free_sub. intros x. rewrite !elem_of_app. tauto. Qed.

Lemma nonzero_digests_swap xs ys : nonzero_digests (xs ++ ys) -> nonzero_digests (ys ++ xs).
Proof. apply nonzero_digests_sub. intros x. rewrite !elem_of_app. tauto. Qed.

Lemma Root_binding_lemma s s' :
  wf_state s -> fits_state s -> wf_state s' -> fits_state s' ->
  collision_free (rootInputs s ++ rootInputs s') -> nonzero_digests (rootInputs s ++ rootInputs s') ->
  Root s = Root s' -> accounts s = accounts s' /\ Burned s = Burned s'.
Proof.
  intros Hw Hf Hw' Hf' Hc Hz E. unfold Burned.
  destruct (Root_cases s) as [[Hb Er]|[Hb Er]], (Root_cases s') as [[Hb' Er']|[Hb' Er']]; rewrite Er, Er' in E.
  - split; [by apply leaves_bind|congruence].
  - by apply Root_mixed in E.
  - symmetry in E. apply Root_mixed in E; try done; [by apply collision_free_swap|by apply nonzero_digests_swap].
  - apply Hc in E; [|apply elem_of_app; left; by apply burn_input|apply elem_of_app; right; by apply burn_input].
    unfold burnPreimage in E. apply Encoder_Raw_prefix in E as [Em Ep]. split; [by apply leaves_bind|].
    rewrite <- (app_nil_r (Encoder_BigInt _)), <- (app_nil_r (Encoder_BigInt (Some (burnedOrZero s')))) in Ep.
    destruct Hw as [? ?], Hf as [? ?], Hw' as [? ?], Hf' as [? ?].
    by apply Encoder_BigInt_prefix in Ep as [Eb _]; [|lia..].
Qed.

End Root.

(** ** Properties *)

(** C30: The state root commits to the whole state: two well-formed states with the same root have the
    same accounts (balances, nonces, storage, code) and the same burn total.  This needs of Keccak only
    that it tells apart the strings hashed in computing these two roots and gives none of them the zero
    digest; and of the states that they have sizes a node can hold: balances below 2^256, fewer than 2^50
    storage slots an account, and less than 2^96 lux burned, far above the supply, as the burn total is
    hashed in without a domain tag and only its length keeps it apart from a leaf or a node. *)
Theorem Root_binding `{Crypto} s s' :
  wf_state s -> fits_state s -> wf_state s' -> fits_state s' ->
  collision_free (rootInputs s ++ rootInputs s') -> nonzero_digests (rootInputs s ++ rootInputs s') ->
  Root s = Root s' -> accounts s = accounts s' /\ Burned s = Burned s'.
Proof. apply Root_binding_lemma. Qed.

#[local] Existing Instance mixCrypto.

Lemma fits_set s a acc : fits_state s -> fits acc -> fits_state (State_set s a acc).
Proof.
  intros [Hs Hb] Ha. destruct (set_fields s a acc) as (_ & _ & _ & E4 & _ & E6 & _).
  split; [|unfold burnedOrZero in *; by rewrite E4]. rewrite E6. intros b acc'. destruct (isEmpty acc).
  - intros [_ Hb']%lookup_delete_Some. by apply (Hs b).
  - intros [[<- <-]|[_ Hb']]%lookup_insert_Some; [done|by apply (Hs b)].
Qed.

Lemma toyState_fits : fits_state toyState.
Proof.
  unfold toyState, RestoreAccount. apply fits_set; [apply fits_set; [split|]|].
  - intros a acc. cbn. by rewrite lookup_empty.
  - vm_compute. reflexivity.
  - split; vm_compute; reflexivity.
  - split; vm_compute; reflexivity.
Qed.

(** The accounts of [toyState] with something burned; and the same reached another way, through an account that was emptied
    again. *)
Definition rootState : State := SetBurned toyState (Some 40).

Definition rootState' : State :=
  RestoreAccount (RestoreAccount (RestoreAccount (RestoreAccount (SetBurned State_New (Some 40))
    toyMiner 0 (Some 9) ∅ []) toyContract 0 None ∅ toyCode) toySender 3 (Some 1000000) ∅ []) toyMiner 0 (Some 0) ∅ [].

Lemma rootState'_ok : wf_state rootState' /\ fits_state rootState'.
Proof.
  assert (forall k v, (∅ : gmap Hash Hash) !! k = Some v -> Hash_IsZero v = false) as Hz by (intros k v; by rewrite lookup_empty).
  unfold rootState', RestoreAccount. split.
  - repeat (apply wf_set; [|split; cbn; [unfold is_u64; lia|lia|exact Hz|vm_compute; done]]).
    split; [intros a acc; cbn; by rewrite lookup_empty|vm_compute; congruence].
  - repeat (apply fits_set; [|split; vm_compute; reflexivity]).
    split; [intros a acc; cbn; by rewrite lookup_empty|vm_compute; reflexivity].
Qed.

Lemma Root_binding_witness : accounts rootState = accounts rootState' /\ Burned rootState = Burned rootState'.
Proof.
  apply (Root_binding rootState rootState').
  - split; [apply toyState_wf|vm_compute; congruence].
  - split; [apply toyState_fits|vm_compute; reflexivity].
  - apply rootState'_ok.
  - apply rootState'_ok.
  - apply collision_free_dec. vm_compute. reflexivity.
  - apply nonzero_digests_dec. vm_compute. reflexivity.
  - vm_compute. reflexivity.
Defined.
