(* ===== verification/BlockProps.v ===== *)
(** * Theorems about blocks, the supply, gas estimation, savepoints and the interpreter *)
From stdpp Require Import base numbers list gmap sorting.
From Stdlib Require Import ZArith Lia Strings.Byte.
From S2P Require Import Prelude Common Rlp Types VmBase Precompiles Vm VmProofs VmProps State StateProofs StateInv.
From S2P Require Import Transition TransitionProofs BlockProofs TxProps.
#[local] Open Scope Z_scope.
#[local] Open Scope list_scope.
#[local] Existing Instance toyCrypto.
#[local] Existing Instance toyBn256.

(** ** A concrete block: one contract call on top of [toyState] *)

Definition toySplit : rewardSplit := mkSplit 2000 toyContract.

Definition toyParent : Header := mkHeader ZeroHash 0 1000 ZeroHash ZeroHash ZeroHash 0 30000000 ZeroAddress 1000 0.

Definition toyDraft : Header :=
  mkHeader (Header_Hash toyParent) 1 2000 (TxRoot [toyCall]) ZeroHash ZeroHash 0 30000000 toyMiner 1000 0.

(** The draft, its gas and roots filled in by executing it. *)
Definition toyBlock : Block :=
  let next := SetBlockContext (ClearTouched (State_Copy toyState)) 1 2 1000 in
  match applyTxs next [toyCall] toyDraft 0 [] with
  | Returns (s, total, rs) =>
      mkBlock (mkHeader (ParentHash toyDraft) 1 2000 (h_TxRoot toyDraft) (ReceiptRoot rs)
                 (Root (CreditBlockReward toySplit s toyMiner 1)) total 30000000 toyMiner 1000 0) [toyCall]
  | _ => mkBlock toyDraft []
  end.

Lemma toyBlock_executes : is_return (ApplyBlock toySplit toyState toyBlock (Some toyParent)) = true.
Proof. vm_compute. reflexivity. Qed.

Lemma toyBlock_txs : b_Txs toyBlock = [toyCall].
Proof. vm_compute. reflexivity. Qed.

Lemma toyBlock_wf : Forall sound_tx (b_Txs toyBlock).
Proof. rewrite toyBlock_txs. constructor; [apply toyCall_wf|constructor]. Qed.

Lemma toyBlock_GasLimit : h_GasLimit (b_Header toyBlock) = 30000000.
Proof. vm_compute. reflexivity. Qed.

Lemma toyBlock_Height : Height (b_Header toyBlock) = 1.
Proof. vm_compute. reflexivity. Qed.

(** ** Properties: blocks *)

(** C2: A block executes or is rejected; the panic firewall is never needed.  When it executes: it names
    its parent, the next height, a later time and a gas limit within 1/1024 of the parent's; the header
    commits to the transactions, receipts and final state computed here; one receipt per transaction
    with the running gas total, which is the header's and within its limit; and the supply grows by
    exactly the block reward, also under a treasury split. *)
Theorem ApplyBlock_sound `{Crypto} `{Bn256} split parent b ph :
  wf_state parent -> TreasuryRewardBasisPoints split <= 10000 -> Forall sound_tx (b_Txs b) ->
  0 < h_GasLimit (b_Header b) <= maxGas -> is_u64 (h_GasLimit ph) ->
  match ApplyBlock split parent b (Some ph) with
  | Returns (next, receipts) =>
      block_post parent b next receipts
      /\ ParentHash (b_Header b) = Header_Hash ph /\ Height (b_Header b) = u64 (Height ph + 1)
      /\ Timestamp ph < Timestamp (b_Header b)
      /\ Z.abs (h_GasLimit (b_Header b) - h_GasLimit ph) < h_GasLimit ph / GasLimitBoundDivisor
  | Raises e => applyBlockBody split parent b (Some ph) = Raises e
  | Panics | OutOfFuel => False
  end.
Proof.
  intros Hw Hs Htx Hlim Hph. pose proof (ApplyBlock_spec split parent b (Some ph) Hw Hs Htx Hlim) as HB.
  destruct (ApplyBlock split parent b (Some ph)) as [[next receipts]| | |]; try done.
  destruct HB as [HB Hc]. apply checkParent_ok in Hc; [|unfold is_u64, maxGas in *; lia|done].
  destruct Hc as (? & ? & ? & ? & ?). by split_and!.
Qed.

Lemma ApplyBlock_sound_witness :
  match ApplyBlock toySplit toyState toyBlock (Some toyParent) with
  | Returns (next, receipts) =>
      block_post toyState toyBlock next receipts
      /\ ParentHash (b_Header toyBlock) = Header_Hash toyParent
      /\ Height (b_Header toyBlock) = u64 (Height toyParent + 1)
      /\ Timestamp toyParent < Timestamp (b_Header toyBlock)
      /\ Z.abs (h_GasLimit (b_Header toyBlock) - h_GasLimit toyParent)
         < h_GasLimit toyParent / GasLimitBoundDivisor
  | Raises e => False
  | Panics | OutOfFuel => False
  end.
Proof.
  pose proof (ApplyBlock_sound toySplit toyState toyBlock toyParent) as HB. pose proof toyBlock_executes as HE.
  destruct (ApplyBlock toySplit toyState toyBlock (Some toyParent)) as [[next receipts]| | |]; [|discriminate HE..].
  apply HB.
  - apply toyState_wf.
  - vm_compute. congruence.
  - apply toyBlock_wf.
  - rewrite toyBlock_GasLimit. unfold maxGas. lia.
  - unfold is_u64. cbn [toyParent h_GasLimit]. lia.
Defined.

(** Blocks executed one after the other from a first state, heights from 1. *)
Inductive executes `{Crypto} `{Bn256} (split : rewardSplit) (s0 : State) : nat -> State -> Prop :=
  | EX_genesis : executes split s0 0 s0
  | EX_block n s b ph s' receipts : executes split s0 n s ->
      Height (b_Header b) = Z.of_nat (S n) -> Forall sound_tx (b_Txs b) -> 0 < h_GasLimit (b_Header b) <= maxGas ->
      ApplyBlock split s b ph = Returns (s', receipts) -> executes split s0 (S n) s'.

Lemma executes_ok `{Crypto} `{Bn256} split s0 n s :
  TreasuryRewardBasisPoints split <= 10000 -> executes split s0 n s -> wf_state s0 ->
  wf_state s /\ supply s = supply s0 + issued n.
Proof.
  intros Hsplit He Hw. induction He as [|n s b ph s' receipts _ [IHw IHs] Hh Htx Hlim E]; [split; [done|cbn; lia]|].
  pose proof (ApplyBlock_spec split s b ph IHw Hsplit Htx Hlim) as HB. rewrite E in HB. destruct HB as [[] _].
  split; [done|]. cbn [issued]. rewrite <- Hh. lia.
Qed.

(** C32: After any number of blocks the coins in existence plus the coins burned are the genesis supply
    plus [CumulativeIssued] of the height, the closed form the node reports; it is the sum of the
    block rewards and never exceeds 50 million LXS. *)
Theorem chain_supply `{Crypto} `{Bn256} split s0 n s :
  TreasuryRewardBasisPoints split <= 10000 -> wf_state s0 -> executes split s0 n s -> Z.of_nat n < 2 ^ 64 ->
  exists total, CumulativeIssued (Z.of_nat n) = Some total /\ total = issued n
    /\ SumBalances s + Burned s = SumBalances s0 + Burned s0 + total /\ total <= 50000000 * 10 ^ 18.
Proof.
  intros Hsplit Hw He Hn. exists (issued n). split_and!.
  - rewrite CumulativeIssued_lemma by lia. by rewrite Nat2Z.id.
  - done.
  - by apply (executes_ok split s0 n s Hsplit He Hw).
  - apply issued_bound.
Qed.

Lemma chain_supply_witness :
  match ApplyBlock toySplit toyState toyBlock (Some toyParent) with
  | Returns (s, _) =>
      exists total, CumulativeIssued (Z.of_nat 1) = Some total /\ total = issued 1
        /\ SumBalances s + Burned s = SumBalances toyState + Burned toyState + total
        /\ total <= 50000000 * 10 ^ 18
  | _ => False
  end.
Proof.
  pose proof toyBlock_executes as HE.
  destruct (ApplyBlock toySplit toyState toyBlock (Some toyParent)) as [[s rs]| | |] eqn:E; [|discriminate HE..].
  apply (chain_supply toySplit toyState 1 s).
  - vm_compute. congruence.
  - apply toyState_wf.
  - apply (EX_block _ _ 0 toyState toyBlock (Some toyParent) s rs); [constructor|apply toyBlock_Height|apply toyBlock_wf| |exact E].
    rewrite toyBlock_GasLimit. unfold maxGas. lia.
  - lia.
Defined.

(** ** Properties: gas estimation *)

(** C37: [EstimateGas] answers with a limit at which the message really completes and below which, by
    one unit, it does not; the answer lies between the intrinsic gas and the cap.  It raises an error
    only when the message fails at the cap.  Either way the probes leave the state untouched, and the
    search always ends. *)
Theorem EstimateGas_minimal `{Crypto} `{Bn256} s from to data value gasCap :
  vm_ready None s -> is_Some (burned s) -> 0 <= default 0 value -> len data < 2 ^ 59 -> 0 <= gasCap <= maxGas ->
  let intrinsic := IntrinsicGasFor data (bool_decide (to = None)) in
  let completes g := probe from to data (default 0 value) intrinsic s g = Returns (true, None, s) in
  match EstimateGas s from to data value gasCap with
  | Returns (g, s') => s' = s /\ intrinsic <= g <= gasCap /\ completes g /\ ~ completes (g - 1)
  | Raises (_, s') => s' = s /\ ~ completes gasCap
  | Panics | OutOfFuel => False
  end.
Proof.
  intros Hs Hb Hv Hd Hcap. exact (EstimateGas_spec from to data (default 0 value) s Hs Hb Hv Hd value gasCap Hcap eq_refl).
Qed.

Lemma toyState_ready : vm_ready None toyState.
Proof. split_and!; [by apply sp_inv_empty|apply toyState_wf|done]. Qed.

Lemma EstimateGas_minimal_witness :
  let intrinsic := IntrinsicGasFor [] (bool_decide (Some toyContract = None)) in
  let completes g := probe toySender (Some toyContract) [] (default 0 (Some 9)) intrinsic toyState g
                     = Returns (true, None, toyState) in
  match EstimateGas toyState toySender (Some toyContract) [] (Some 9) 1000000 with
  | Returns (g, s') => s' = toyState /\ intrinsic <= g <= 1000000 /\ completes g /\ ~ completes (g - 1)
  | Raises (_, s') => False
  | Panics | OutOfFuel => False
  end.
Proof.
  pose proof (EstimateGas_minimal toyState toySender (Some toyContract) [] (Some 9) 1000000) as HE.
  assert (is_return (EstimateGas toyState toySender (Some toyContract) [] (Some 9) 1000000) = true) as HR
    by (vm_compute; reflexivity).
  destruct (EstimateGas toyState toySender (Some toyContract) [] (Some 9) 1000000) as [[g s']| | |]; [|discriminate HR..].
  apply HE; [apply toyState_ready|eexists; vm_compute; reflexivity|cbn; lia|rewrite len_nil; lia|unfold maxGas; lia].
Defined.

(** ** Properties: savepoints *)

(** C3: The journal implements full copies.  Run any sequence of state operations (writes of every
    kind, logs, burns, savepoints, reverts to any id, discards) on the journalled state, and on the
    specification that copies the whole content at every savepoint: accounts, touched set, logs and
    burn total agree at the end. *)
Theorem journal_refines ops s :
  snapshots s = [] ->
  content (fold_left run_op ops s) = cur (fold_left copy_op ops (mkCopy (content s) [])).
Proof.
  intros Hs. destruct (refines_run ops s (mkCopy (content s) [])) as [_ -> _ _]; [|done].
  assert (depth s = 0%nat) as Hd by (unfold depth; by rewrite Hs).
  split; cbn; [by apply sp_inv_empty|done|by rewrite Hd|rewrite Hd; lia].
Qed.

Lemma journal_refines_witness :
  let ops := [OCredit toyMiner 5; OSnapshot; OSubBalance toySender 7; OSetStorage toyContract ZeroHash (array_of 32 [x01]);
              OSnapshot; OBurn (Some 3); OSetNonce toyMiner 0; ORevert 0; OSetCode toyMiner [x00]] in
  content (fold_left run_op ops toyState) = cur (fold_left copy_op ops (mkCopy (content toyState) [])).
Proof. apply (journal_refines _ toyState). reflexivity. Defined.

(** ** Properties: the interpreter on the world state *)

(** C4: Running any code on a well-formed state ends, never panics, uses at most its gas and returns
    fewer than 2^64 bytes; it conserves the supply and well-formedness, keeps every savepoint taken
    before it, and in a static context it changes nothing at all. *)
Theorem Run_sound `{Crypto} `{Bn256} code input g ctx s :
  vm_ready None s -> 0 <= g <= maxGas -> len code < 2 ^ 62 -> len input < 2 ^ 62 ->
  exists r s', Run code input g ctx (Some s) = Ran r (Some s')
    /\ 0 <= GasLeft r <= g /\ len (Ret r) < 2 ^ 64
    /\ SumBalances s' + Burned s' = SumBalances s + Burned s /\ wf_state s'
    /\ (forall i, (i < depth s)%nat -> saved s' i = saved s i)
    /\ (c_Static ctx = true -> content s' = content s).
Proof.
  intros Hr Hg Hc Hi. destruct (Run_State None code input g ctx s) as (r & s' & E & HT & Hgas & Hret); try done.
  { by right. }
  pose proof Hr as (Hsp & Hw & _). exists r, s'. split_and!; try done; try lia.
  - by eapply Trans_supply.
  - by eapply Trans_wf.
  - by apply (Trans_savepoints _ _ _ _ HT).
  - intros Est. rewrite Est in HT. by eapply Trans_static_content.
Qed.

Lemma Run_sound_witness :
  let ctx := probeContext toySender 0 toyContract in
  exists r s', Run toyCode [] 100000 ctx (Some toyState) = Ran r (Some s')
    /\ 0 <= GasLeft r <= 100000 /\ len (Ret r) < 2 ^ 64
    /\ SumBalances s' + Burned s' = SumBalances toyState + Burned toyState /\ wf_state s'
    /\ (forall i, (i < depth toyState)%nat -> saved s' i = saved toyState i)
    /\ (c_Static ctx = true -> content s' = content toyState).
Proof.
  apply (Run_sound toyCode [] 100000 (probeContext toySender 0 toyContract) toyState);
    [apply toyState_ready|unfold maxGas; lia|vm_compute; reflexivity|vm_compute; reflexivity].
Defined.

(** What holds of the machine between two instructions: at most 1024 words of 256 bits on the stack,
    memory within its limit, gas within [g], the program counter at an instruction of the code and
    not in the data of a PUSH, and a well-formed world reached from [s]. *)
Definition machine_ok (fr : Frame) (s : State) (g : Z) (m : interp State) : Prop :=
  minv (runs_code None) fr s g m.

(** C31: One instruction on a well-typed machine gives a well-typed machine with less gas, or ends the
    frame with gas left within what it had; it is never stuck.  This holds of every opcode, calls and
    creations included, whose callees run to their end. *)
Theorem step_typed `{Crypto} `{Bn256} fuel fr s g m c :
  wf_frame fr -> vm_ready None s -> g <= maxGas -> g - 1 < Z.of_nat fuel ->
  machine_ok fr s g m -> f_code fr !! Z.to_nat (pc m) = Some c ->
  match step (execute fuel) fr c m with
  | Done None m' => machine_ok fr s (g - 1) m' /\ (forall s', world m' = Some s' -> wf_state s')
  | Done (Some ret) m' | Fail _ ret m' => 0 <= gas m' <= g /\ len ret <= maxMemBytes
  | Crash | Diverge => False
  end.
Proof.
  intros Hf Hs Hg Hfuel Hm Hc. pose proof (step_State None fuel fr s g m c Hf Hs Hg Hfuel ltac:(done) Hm Hc) as Hstep.
  unfold wp in Hstep. destruct (step _ _ _ _) as [[ret|] m'|e ret m'| |]; [..|done|done].
  - by destruct Hstep as (_ & ? & ?).
  - split; [exact Hstep|]. intros s' E. destruct (mi_world _ _ _ _ _ Hstep) as (s2 & E2 & HT).
    rewrite E2 in E. injection E as <-. by apply (vm_ready_trans _ _ _ _ Hs HT).
  - by destruct Hstep as (_ & ? & ?).
Qed.

Lemma step_typed_witness :
  let fr := mkFrame [x60; x02; x01] [] (analyseJumpdests [x60; x02; x01]) (probeContext toySender 0 toyContract) 0 in
  match step (execute 100) fr x60 (initInterp 50 (Some toyState)) with
  | Done None m' => machine_ok fr toyState 49 m' /\ (forall s', world m' = Some s' -> wf_state s')
  | _ => False
  end.
Proof.
  intros fr. pose proof (step_typed 100 fr toyState 50 (initInterp 50 (Some toyState)) x60) as HT.
  assert (match step (execute 100) fr x60 (initInterp 50 (Some toyState)) with Done None _ => true | _ => false end = true) as Hn
    by (vm_compute; reflexivity).
  destruct (step _ _ _ _) as [[ret|] m'|e ret m'| |]; [discriminate Hn| |discriminate Hn..].
  apply HT; [by split|apply toyState_ready|unfold maxGas; lia|lia|by apply minv_init|reflexivity].
Defined.

(** The interpreter and the state transition derive the same address for a contract that [sender]
    creates at [nonce] (CREATE inside a contract, and a creation transaction). *)
Theorem CreateAddress_agrees `{Crypto} sender nonce :
  is_u64 nonce -> CreateAddress sender nonce = Ok (createAddress sender nonce).
Proof. apply CreateAddress_createAddress. Qed.

Lemma CreateAddress_agrees_witness : CreateAddress toySender 3 = Ok (createAddress toySender 3).
Proof. apply (CreateAddress_agrees toySender 3). unfold is_u64. lia. Defined.
