(* ===== verification/Pow.v ===== *)
(** * Proof of work and fork choice (core/pow.go, core/forkchoice.go)

    Targets, the LWMA difficulty at [int64] and [uint64] width, the nonce
    search over a header with its cached hash, the heaviest-chain rule.  A tip
    is compared by total difficulty, ties by the smaller hash. *)
From stdpp Require Import base numbers list sorting.
From Stdlib Require Import ZArith Lia Strings.Byte.
From S2P Require Import Prelude Common Types.
#[local] Open Scope Z_scope.
#[local] Open Scope list_scope.
#[local] Open Scope go_scope.

(** ** Targets *)

Definition MinDifficulty : Z := 1.
Definition TargetBlockTime : Z := 240000.
Definition maxTarget : Z := 2 ^ 256 - 1.

Definition powTarget (difficulty : Z) : Z :=
  let difficulty := if difficulty =? 0 then 1 else difficulty in
  maxTarget / difficulty.

Definition PowTarget (difficulty : Z) : Z := powTarget difficulty.

Definition satisfiesPoW `{Crypto} (h : Header) : bool :=
  be2z (abytes (Header_Hash h)) <=? powTarget (Difficulty h).

Definition VerifyHeaderPoW `{Crypto} (h : Header) : res unit :=
  if Difficulty h <? MinDifficulty then Err ErrBadDifficulty
  else if negb (satisfiesPoW h) then Err ErrBadPoW
  else Ok tt.

(** ** The LWMA difficulty *)

Definition LwmaWindow : Z := 45.

(** The loop over [window[1..N]]: the weighted sum [L] and the sum of difficulties. *)
Fixpoint lwma_loop (i prev L sumD : Z) (window : list Header) : Z * Z :=
  match window with
  | [] => (L, sumD)
  | h :: rest =>
      let ts := Timestamp h in
      let ts := if ts <=? prev then i64 (prev + 1) else ts in
      let st := i64 (ts - prev) in
      let st := if 6 * TargetBlockTime <? st then 6 * TargetBlockTime else st in
      lwma_loop (i + 1) ts (i64 (L + i64 (i * st))) (sumD + Difficulty h) rest
  end.

(** Go panics on an empty window ([window[0]]) and on a window of one header (division by zero). *)
Definition lwmaDifficulty (window : list Header) : res Z :=
  match window with
  | [] => Panic
  | h0 :: rest =>
      let N := len window - 1 in
      let T := TargetBlockTime in
      let '(L, sumD) := lwma_loop 1 (Timestamp h0) 0 0 rest in
      let minL := Z.quot (i64 (i64 (N * N) * T)) 20 in
      let L := if L <? minL then minL else L in
      if N =? 0 then Panic
      else
        let avgD := sumD / N in
        let next := avgD * i64 (i64 (i64 (N * (N + 1)) * T) * 99) in
        if i64 (200 * L) =? 0 then Panic
        else
          let next := next / i64 (200 * L) in
          let d := if IsUint64 next then Uint64 next else 2 ^ 64 - 1 in
          Ok (if d <? MinDifficulty then MinDifficulty else d)
  end.

(** ** Mining *)

(** A header with its cached hash ([atomic.Value]). *)
Record headerObj : Type := mkHeaderObj { ho_header : Header; ho_hash : option Hash }.

Definition with_nonce (n : Z) (h : Header) : Header :=
  mkHeader (ParentHash h) (Height h) (Timestamp h) (h_TxRoot h) (h_ReceiptRoot h) (StateRoot h) (h_GasUsed h)
    (h_GasLimit h) (Proposer h) (Difficulty h) n.

Section Mining.
Context `{Crypto}.

Definition obj_Hash (o : headerObj) : Hash * headerObj :=
  match ho_hash o with
  | Some v => (v, o)
  | None => let hash := Header_Hash (ho_header o) in (hash, mkHeaderObj (ho_header o) (Some hash))
  end.

Definition InvalidateHash (o : headerObj) : headerObj := mkHeaderObj (ho_header o) None.

Definition set_Nonce (n : Z) (o : headerObj) : headerObj := mkHeaderObj (with_nonce n (ho_header o)) (ho_hash o).

(** [stop k] is whether the stop channel is closed at the [k]-th check.  [None]: still searching
    when the fuel ends. *)
Fixpoint Grind (fuel : nat) (o : headerObj) (target nonce : Z) (stop : nat -> bool)
    : option (Z * bool * headerObj) :=
  match fuel with
  | O => None
  | S f =>
      if stop O then Some (nonce, false, o)
      else
        let o := InvalidateHash (set_Nonce nonce o) in
        let '(hash, o) := obj_Hash o in
        if be2z (abytes hash) <=? target then Some (nonce, true, o)
        else Grind f o target (u64 (nonce + 1)) (fun k => stop (S k))
  end.

Definition mine (fuel : nat) (o : headerObj) (stop : nat -> bool) : option (bool * headerObj) :=
  match Grind fuel o (powTarget (Difficulty (ho_header o))) 0 stop with
  | Some (_, ok, o) => Some (ok, o)
  | None => None
  end.

(** ** Fork choice *)

Record Tip : Type := mkTip { t_Header : Header; TotalDifficulty : Z }.

(** [HeaviestChain.Better] *)
Definition Better (candidate current : Tip) : bool :=
  if negb (TotalDifficulty candidate =? TotalDifficulty current)
  then TotalDifficulty current <? TotalDifficulty candidate
  else bytes_ltb (abytes (Header_Hash (t_Header candidate))) (abytes (Header_Hash (t_Header current))).

End Mining.

(** * Correctness of proof of work and fork choice *)
(** ** Targets *)

Lemma powTarget_spec x d : 0 <= d -> x <= powTarget d <-> x * Z.max 1 d <= maxTarget.
Proof.
  intros Hd. unfold powTarget. set (e := if d =? 0 then 1 else d).
  assert (e = Z.max 1 d) as <- by (unfold e; destruct (Z.eqb_spec d 0); lia).
  assert (0 < e) by (unfold e; destruct (Z.eqb_spec d 0); lia).
  rewrite (Z.mul_comm x). split.
  - intros Hx. transitivity (e * (maxTarget / e)); [nia|apply Z.mul_div_le; lia].
  - apply Z.div_le_lower_bound. lia.
Qed.

(** ** The LWMA loop *)

(** A header whose timestamp, in milliseconds, is far from the machine limits; any difficulty. *)
Record lwma_header (h : Header) : Prop := {
  lh_time : - 2 ^ 61 <= Timestamp h <= 2 ^ 62 + 2 ^ 60;
  lh_difficulty : is_u64 (Difficulty h);
}.

Definition sumDifficulty (window : list Header) : Z := foldr (fun h n => Difficulty h + n) 0 window.

(** [i + (i+1) + ... ] over [m] terms, doubled. *)
Definition weights2 (i m : Z) : Z := m * (2 * i + m - 1).

Lemma lwma_loop_ok window : Forall lwma_header window -> forall i prev L sumD,
  1 <= i -> i + len window <= 100 -> - 2 ^ 61 <= prev <= 2 ^ 62 + 2 ^ 60 + i -> 0 <= L <= 3 * TargetBlockTime * (i * (i - 1)) ->
  exists L', lwma_loop i prev L sumD window = (L', sumD + sumDifficulty window)
    /\ 2 * L + weights2 i (len window) <= 2 * L' <= 2 * L + 6 * TargetBlockTime * weights2 i (len window).
Proof.
  unfold weights2, TargetBlockTime.
  induction 1 as [|h window [Ht Hd] _ IH]; intros i prev L sumD Hi Hl Hp HL.
  { exists L. split; [cbn; f_equal; lia|change (len (@nil Header)) with 0; lia]. }
  rewrite len_cons in *. pose proof (len_nonneg window). cbn [lwma_loop]. unfold TargetBlockTime.
  rewrite (i64_small (prev + 1)) by lia.
  set (ts := if Timestamp h <=? prev then prev + 1 else Timestamp h).
  assert (prev + 1 <= ts /\ (ts = prev + 1 \/ ts = Timestamp h)) as [Hts1 Hts2]
    by (unfold ts; destruct (Z.leb_spec (Timestamp h) prev); lia).
  rewrite (i64_small (ts - prev)) by lia.
  set (st := if 6 * 240000 <? ts - prev then 6 * 240000 else ts - prev).
  assert (1 <= st <= 1440000) as Hst by (unfold st; destruct (Z.ltb_spec (6 * 240000) (ts - prev)); lia).
  assert (0 <= i * st <= i * 1440000) by nia. assert (i * (i - 1) <= 9900) by nia.
  rewrite (i64_small (i * st)), i64_small by lia.
  destruct (IH (i + 1) ts (L + i * st) (sumD + Difficulty h)) as (L' & -> & HL'); [lia..|nia|].
  exists L'. change (sumDifficulty (h :: window)) with (Difficulty h + sumDifficulty window).
  split; [f_equal; lia|nia].
Qed.

Lemma sumDifficulty_range l : Forall lwma_header l -> 0 <= sumDifficulty l <= (2 ^ 64 - 1) * len l.
Proof.
  induction 1 as [|h l [_ Hh] _ IH]; [change (len (@nil Header)) with 0; cbn [sumDifficulty foldr]; lia|].
  rewrite len_cons. unfold is_u64 in Hh.
  change (sumDifficulty (h :: l)) with (Difficulty h + sumDifficulty l). lia.
Qed.

(** The quotient between its bounds, for a clamped weighted sum [L]. *)
Lemma lwma_next avg N L :
  0 <= avg -> 1 <= N -> N * N * 12000 <= L <= 720000 * (N * (N + 1)) ->
  let next := avg * (N * (N + 1) * 240000 * 99) / (200 * L) in
  0 <= next /\ avg * 99 / 600 <= next /\ next <= avg * (N + 1) * 99 / (10 * N).
Proof.
  intros Ha HN HL next. assert (0 < L) by nia.
  assert (0 <= next) as Hn by (apply Z.div_pos; nia). split; [done|]. split.
  - apply Z.div_le_lower_bound; [lia|]. pose proof (Z.mul_div_le (avg * 99) 600 ltac:(lia)) as Hq.
    assert (0 <= avg * 99 / 600) by (apply Z.div_pos; lia).
    assert (200 * L * (avg * 99 / 600) <= 144000000 * (N * (N + 1)) * (avg * 99 / 600)) by nia. nia.
  - apply Z.div_le_lower_bound; [lia|].
    pose proof (Z.mul_div_le (avg * (N * (N + 1) * 240000 * 99)) (200 * L) ltac:(lia)) as Hq. fold next in Hq.
    assert (2400000 * (N * N) * next <= 200 * L * next) by nia.
    assert (240000 * N * (10 * N * next) <= 240000 * N * (avg * (N + 1) * 99)) by lia.
    apply (Z.mul_le_mono_pos_l _ _ (240000 * N)); lia.
Qed.

(** Between the floor and the field's maximum; at most (N+1)/N * 9.9 times the window's average, at
    least 0.165 times. *)
Lemma lwma_bounds_lemma h0 rest :
  let N := len rest in
  Forall lwma_header (h0 :: rest) -> 1 <= N <= LwmaWindow ->
  exists d, lwmaDifficulty (h0 :: rest) = Ok d /\ MinDifficulty <= d < 2 ^ 64
    /\ sumDifficulty rest / N * 99 / 600 <= d
    /\ d <= Z.max 1 (sumDifficulty rest / N * (N + 1) * 99 / (10 * N)).
Proof.
  intros N Hw HN. unfold LwmaWindow in HN. inversion Hw as [|? ? [Ht0 _] Hrest]; subst.
  unfold lwmaDifficulty. rewrite len_cons. replace (1 + len rest - 1) with N by (unfold N; lia).
  destruct (lwma_loop_ok rest Hrest 1 (Timestamp h0) 0 0) as (L & -> & HL); [lia|unfold N in *; lia..|].
  fold N in HL. unfold weights2, TargetBlockTime in *.
  assert (1 <= N * N <= 2025) by nia. assert (2 <= N * (N + 1) <= 2070) by nia.
  rewrite (i64_small (N * N)), (i64_small (N * N * 240000)) by lia.
  assert (Z.quot (N * N * 240000) 20 = N * N * 12000) as ->.
  { replace (N * N * 240000) with (N * N * 12000 * 20) by lia. apply Z.quot_mul. lia. }
  set (L1 := if L <? N * N * 12000 then N * N * 12000 else L).
  assert (N * N * 12000 <= L1 <= 720000 * (N * (N + 1))) as HL1
    by (unfold L1; destruct (Z.ltb_spec L (N * N * 12000)); nia).
  destruct (Z.eqb_spec N 0); [lia|].
  rewrite (i64_small (N * (N + 1))), (i64_small (N * (N + 1) * 240000)), (i64_small (N * (N + 1) * 240000 * 99)),
    (i64_small (200 * L1)) by lia.
  destruct (Z.eqb_spec (200 * L1) 0); [lia|].
  rewrite Z.add_0_l. set (avg := sumDifficulty rest / N).
  assert (0 <= avg) as Havg.
  { apply Z.div_pos; [|lia]. clear -Hrest. apply sumDifficulty_range, Hrest. }
  assert (avg < 2 ^ 64) as Havg'.
  { apply Z.div_lt_upper_bound; [lia|]. pose proof (sumDifficulty_range rest Hrest). unfold N. lia. }
  set (next := avg * (N * (N + 1) * 240000 * 99) / (200 * L1)).
  destruct (lwma_next avg N L1 ltac:(lia) ltac:(lia) HL1) as (Hn0 & Hlow & Hup). fold next in Hn0, Hlow, Hup.
  assert (avg * 99 / 600 <= avg) by (apply Z.div_le_upper_bound; lia).
  set (d := if IsUint64 next then Uint64 next else 2 ^ 64 - 1).
  assert (d = Z.min next (2 ^ 64 - 1)) as Ed.
  { unfold d, IsUint64. destruct (Z.leb_spec 0 next); [|lia]. destruct (Z.ltb_spec next (2 ^ 64)); cbn [andb]; [|lia].
    rewrite Uint64_small by lia. lia. }
  eexists. split; [reflexivity|]. unfold MinDifficulty. destruct (Z.ltb_spec d 1); lia.
Qed.

(** A chain on schedule: every block exactly the target time after the one before. *)
Fixpoint on_schedule (prev D : Z) (window : list Header) : Prop :=
  match window with
  | [] => True
  | h :: rest => Timestamp h = prev + TargetBlockTime /\ Difficulty h = D /\ on_schedule (Timestamp h) D rest
  end.

Lemma lwma_loop_schedule D window : forall i prev L sumD,
  on_schedule prev D window -> Forall lwma_header window ->
  1 <= i -> i + len window <= 100 -> - 2 ^ 61 <= prev <= 2 ^ 62 + 2 ^ 60 -> 0 <= L <= TargetBlockTime * (i * i) ->
  lwma_loop i prev L sumD window = (L + TargetBlockTime * (weights2 i (len window) / 2), sumD + D * len window).
Proof.
  unfold TargetBlockTime. induction window as [|h window IH]; intros i prev L sumD Hs Hw Hi Hl Hp HL.
  { cbn [lwma_loop]. change (len (@nil Header)) with 0. unfold weights2.
    rewrite Z.mul_0_l. change (0 / 2) with 0. f_equal; lia. }
  destruct Hs as (Ht & Hd & Hs). unfold TargetBlockTime in Ht. inversion Hw as [|? ? [Hh _] Hw']; subst.
  rewrite len_cons in *. pose proof (len_nonneg window). cbn [lwma_loop]. unfold TargetBlockTime.
  destruct (Z.leb_spec (Timestamp h) prev); [lia|]. rewrite (i64_small (Timestamp h - prev)) by lia.
  replace (Timestamp h - prev) with 240000 by lia. destruct (Z.ltb_spec (6 * 240000) 240000); [lia|].
  rewrite (i64_small (i * 240000)), i64_small by nia.
  rewrite IH; [|done|done|lia|lia|done|nia]. f_equal; [|lia].
  unfold weights2. replace ((1 + len window) * (2 * i + (1 + len window) - 1))
    with (len window * (2 * (i + 1) + len window - 1) + i * 2) by lia.
  rewrite Z.div_add by lia. lia.
Qed.

(** On schedule the difficulty falls by one per cent, and by no more. *)
Lemma lwma_steady_lemma D h0 rest :
  Forall lwma_header (h0 :: rest) -> 1 <= len rest <= LwmaWindow -> on_schedule (Timestamp h0) D rest ->
  lwmaDifficulty (h0 :: rest) = Ok (Z.max 1 (D * 99 / 100)).
Proof.
  intros Hw HN Hs. unfold LwmaWindow in HN. inversion Hw as [|? ? [Ht0 _] Hrest]; subst.
  assert (is_u64 D) as HD.
  { destruct rest as [|h rest]; [by change (len (@nil Header)) with 0 in HN; lia|]. destruct Hs as (_ & <- & _).
    by inversion Hrest as [|? ? [_ ?] _]. }
  unfold lwmaDifficulty. rewrite len_cons. set (N := len rest) in *. replace (1 + N - 1) with N by lia.
  rewrite (lwma_loop_schedule D) by (done || fold N; lia). fold N. unfold TargetBlockTime, is_u64 in *.
  set (W := weights2 1 N / 2). assert (2 * W = N * (N + 1)) as HW.
  { unfold W, weights2. replace (N * (2 * 1 + N - 1)) with (N * (N + 1)) by lia.
    destruct (Z.Even_or_Odd N) as [[k ->]|[k ->]].
    - replace (2 * k * (2 * k + 1)) with (k * (2 * k + 1) * 2) by lia. rewrite Z.div_mul by lia. lia.
    - replace ((2 * k + 1) * (2 * k + 1 + 1)) with ((2 * k + 1) * (k + 1) * 2) by lia. rewrite Z.div_mul by lia. lia. }
  assert (1 <= N * N <= 2025) by nia. assert (2 <= N * (N + 1) <= 2070) by nia.
  rewrite (i64_small (N * N)), (i64_small (N * N * 240000)) by lia.
  assert (Z.quot (N * N * 240000) 20 = N * N * 12000) as ->.
  { replace (N * N * 240000) with (N * N * 12000 * 20) by lia. apply Z.quot_mul. lia. }
  destruct (Z.ltb_spec (0 + 240000 * W) (N * N * 12000)); [nia|]. destruct (Z.eqb_spec N 0); [lia|].
  rewrite (i64_small (N * (N + 1))), (i64_small (N * (N + 1) * 240000)), (i64_small (N * (N + 1) * 240000 * 99)),
    (i64_small (200 * (0 + 240000 * W))) by lia.
  destruct (Z.eqb_spec (200 * (0 + 240000 * W)) 0); [lia|].
  rewrite Z.add_0_l, Z.div_mul by lia.
  assert (D * (N * (N + 1) * 240000 * 99) / (200 * (0 + 240000 * W)) = D * 99 / 100) as ->.
  { rewrite <- HW. replace (D * (2 * W * 240000 * 99)) with (D * 99 * (480000 * W)) by lia.
    replace (200 * (0 + 240000 * W)) with (100 * (480000 * W)) by lia. apply Z.div_mul_cancel_r; lia. }
  assert (0 <= D * 99 / 100 <= D) by (split; [apply Z.div_pos; lia|apply Z.div_le_upper_bound; lia]).
  unfold IsUint64, MinDifficulty. destruct (Z.leb_spec 0 (D * 99 / 100)); [|lia].
  destruct (Z.ltb_spec (D * 99 / 100) (2 ^ 64)); [|lia]. cbn [andb]. rewrite Uint64_small by lia.
  destruct (Z.ltb_spec (D * 99 / 100) 1); f_equal; lia.
Qed.

(** ** Mining *)

Section Mining.
Context `{Crypto}.

Definition hashAt (h : Header) (n : Z) : Z := be2z (abytes (Header_Hash (with_nonce n h))).

Lemma with_nonce_twice n m h : with_nonce n (with_nonce m h) = with_nonce n h.
Proof. done. Qed.

(** The search tries the nonces in order from [start], returns the first that meets the target with
    the header and its cached hash set for it, or stops. *)
Lemma Grind_spec fuel o target start stop n ok o' :
  0 <= start -> start + Z.of_nat fuel <= 2 ^ 64 -> Grind fuel o target start stop = Some (n, ok, o') ->
  start <= n < start + Z.of_nat fuel
  /\ (forall k, start <= k < n -> target < hashAt (ho_header o) k)
  /\ (if ok then hashAt (ho_header o) n <= target /\ ho_header o' = with_nonce n (ho_header o)
                 /\ ho_hash o' = Some (Header_Hash (ho_header o'))
      else stop (Z.to_nat (n - start)) = true).
Proof.
  revert o start stop. induction fuel as [|fuel IH]; intros o start stop H0 Hl; [done|]. cbn [Grind].
  destruct (stop O) eqn:Es.
  { intros [= <- <- <-]. split; [lia|]. split; [intros; lia|]. by rewrite Z.sub_diag. }
  cbn [obj_Hash InvalidateHash set_Nonce ho_hash ho_header].
  destruct (Z.leb_spec (be2z (abytes (Header_Hash (with_nonce start (ho_header o))))) target) as [Hle|Hgt].
  { intros [= <- <- <-]. split; [lia|]. split; [intros; lia|]. by split_and!. }
  intros E. destruct (decide (fuel = 0%nat)) as [->|Hf]; [done|].
  rewrite u64_small in E by lia. apply IH in E as (Hn & Hk & Hok); [|lia|lia].
  cbn [ho_header] in Hk, Hok. unfold hashAt in *.
  split; [lia|]. split.
  - intros k Hk'. destruct (decide (k = start)) as [->|]; [done|]. specialize (Hk k ltac:(lia)). done.
  - destruct ok; [exact Hok|]. replace (Z.to_nat (n - start)) with (S (Z.to_nat (n - (start + 1)))) by lia. done.
Qed.

(** A search that is still going has tried every nonce so far. *)
(** From any start, round the end of the range if need be. *)
Lemma Grind_found fuel o target start stop n o' :
  is_u64 start -> Grind fuel o target start stop = Some (n, true, o') ->
  is_u64 n /\ hashAt (ho_header o) n <= target /\ ho_header o' = with_nonce n (ho_header o).
Proof.
  revert o start stop. induction fuel as [|fuel IH]; intros o start stop Hs; [done|]. cbn [Grind].
  destruct (stop O); [done|]. cbn [obj_Hash InvalidateHash set_Nonce ho_hash ho_header].
  destruct (Z.leb_spec (be2z (abytes (Header_Hash (with_nonce start (ho_header o))))) target) as [Hle|]; [by intros [= <- <-]|].
  intros E. apply IH in E as (Hn & Hh & Eo); [|unfold is_u64, u64; apply Z.mod_pos_bound; lia]. done.
Qed.

Lemma Grind_none fuel o target start stop :
  0 <= start -> start + Z.of_nat fuel <= 2 ^ 64 -> Grind fuel o target start stop = None ->
  forall k, start <= k < start + Z.of_nat fuel -> target < hashAt (ho_header o) k.
Proof.
  revert o start stop. induction fuel as [|fuel IH]; intros o start stop H0 Hl E k Hk; [lia|]. revert E. cbn [Grind].
  destruct (stop O); [done|]. cbn [obj_Hash InvalidateHash set_Nonce ho_hash ho_header].
  destruct (Z.leb_spec (be2z (abytes (Header_Hash (with_nonce start (ho_header o))))) target) as [|Hgt]; [done|].
  intros E. destruct (decide (k = start)) as [->|]; [done|]. destruct (decide (fuel = 0%nat)) as [->|]; [lia|].
  rewrite u64_small in E by lia. eapply IH in E; [exact E|lia..].
Qed.

(** Left alone, the search reaches the first nonce that meets the target. *)
Lemma Grind_live fuel o target start n :
  0 <= start <= n -> n < 2 ^ 64 -> n - start < Z.of_nat fuel ->
  (forall k, start <= k < n -> target < hashAt (ho_header o) k) -> hashAt (ho_header o) n <= target ->
  Grind fuel o target start (fun _ => false)
  = Some (n, true, mkHeaderObj (with_nonce n (ho_header o)) (Some (Header_Hash (with_nonce n (ho_header o))))).
Proof.
  unfold hashAt. revert o start. induction fuel as [|fuel IH]; intros o start Hs Hn Hf Hk Hh; [lia|].
  cbn [Grind InvalidateHash set_Nonce obj_Hash ho_hash ho_header]. destruct (decide (start = n)) as [->|Hne].
  - destruct (Z.leb_spec (be2z (abytes (Header_Hash (with_nonce n (ho_header o))))) target); [done|lia].
  - destruct (Z.leb_spec (be2z (abytes (Header_Hash (with_nonce start (ho_header o))))) target) as [Hl|_].
    { specialize (Hk start). lia. }
    assert (u64 (start + 1) = start + 1) as -> by (unfold u64; rewrite Z.mod_small; lia).
    rewrite IH; cbn [ho_header]; try done; try lia. intros k Hk'. rewrite with_nonce_twice. apply Hk. lia.
Qed.

(** The outcomes of [mine]. *)
Lemma mine_spec fuel o stop :
  Z.of_nat fuel <= 2 ^ 64 ->
  match mine fuel o stop with
  | Some (true, o') => exists n, ho_header o' = with_nonce n (ho_header o) /\ satisfiesPoW (ho_header o') = true
  | Some (false, _) => True
  | None => forall k, 0 <= k < Z.of_nat fuel -> satisfiesPoW (with_nonce k (ho_header o)) = false
  end.
Proof.
  intros Hf. unfold mine. destruct (Grind fuel o _ 0 stop) as [[[n []] o1]|] eqn:E; [|done|].
  - apply Grind_spec in E as (_ & _ & Hwin & Eo & _); [|lia..]. exists n. split; [done|]. rewrite Eo. by apply Z.leb_le.
  - intros k Hk. apply Z.leb_gt. by apply (Grind_none fuel o _ 0 stop ltac:(lia) ltac:(lia) E).
Qed.

(** A block that [mine] reports passes the check, and only its nonce was set. *)
Lemma mine_ok fuel o stop o' :
  Z.of_nat fuel <= 2 ^ 64 -> 1 <= Difficulty (ho_header o) -> mine fuel o stop = Some (true, o') ->
  exists n, ho_header o' = with_nonce n (ho_header o) /\ VerifyHeaderPoW (ho_header o') = Ok tt.
Proof.
  intros Hf Hd. unfold mine. destruct (Grind fuel o _ 0 stop) as [[[n ok] o1]|] eqn:E; [|done]. intros [= -> ->].
  apply Grind_spec in E as (_ & _ & Hwin & Eo & _); [|lia..]. exists n. split; [done|]. rewrite Eo.
  unfold VerifyHeaderPoW, satisfiesPoW, MinDifficulty. cbn [with_nonce Difficulty].
  destruct (Z.ltb_spec (Difficulty (ho_header o)) 1); [lia|]. apply Z.leb_le in Hwin. unfold hashAt in Hwin. by rewrite Hwin.
Qed.

Lemma first_below target h n :
  0 <= n -> hashAt h n <= target ->
  exists m, 0 <= m <= n /\ hashAt h m <= target /\ forall k, 0 <= k < m -> target < hashAt h k.
Proof.
  intros Hn. revert n Hn. refine (Zlt_0_ind _ _). intros n IH Hn Hh.
  destruct (decide (Forall (fun k => target < hashAt h (Z.of_nat k)) (seq 0 (Z.to_nat n)))) as [Hall|Hex].
  - exists n. rewrite Forall_forall in Hall. split_and!; [lia..|]. intros k Hk.
    replace k with (Z.of_nat (Z.to_nat k)) by lia. apply Hall, elem_of_seq. lia.
  - apply not_Forall_Exists, Exists_exists in Hex as (k & Hk%elem_of_seq & Hlt); [|intros; apply _].
    destruct (IH (Z.of_nat k)) as (m & Hm & Hle & Hmin); [lia|cbn in Hlt; lia|]. exists m. split_and!; [lia..|done].
Qed.

(** ** Fork choice *)

(** A tip's rank: its work and its hash. *)
Definition tipHash (t : Tip) : Z := be2z (abytes (Header_Hash (t_Header t))).

Lemma Better_spec a b :
  Better a b = true <->
  TotalDifficulty b < TotalDifficulty a \/ (TotalDifficulty a = TotalDifficulty b /\ tipHash a < tipHash b).
Proof.
  unfold Better, tipHash. destruct (Z.eqb_spec (TotalDifficulty a) (TotalDifficulty b)); cbn [negb].
  - rewrite bytes_ltb_be2z by (by rewrite !abytes_length). rewrite Z.ltb_lt. lia.
  - rewrite Z.ltb_lt. lia.
Qed.

(** ** The contract of [ForkChoice] and its consequence

    [Better] is pure and deterministic because it is a function of the two tips.  What is left of the
    contract is that it orders them, and that only tips with the same hash tie. *)
Class ForkChoiceLaws (better : Tip -> Tip -> bool) : Prop := {
  fc_asym a b : better a b = true -> better b a = false;
  fc_trans a b c : better a b = false -> better b c = false -> better a c = false;
  fc_total a b : better a b = false -> better b a = false ->
    Header_Hash (t_Header a) = Header_Hash (t_Header b) /\ TotalDifficulty a = TotalDifficulty b;
}.

Section Convergence.
Context (better : Tip -> Tip -> bool) `{!ForkChoiceLaws better}.

(** The node keeps the better of its head and each tip that arrives. *)
Definition arrive (head t : Tip) : Tip := if better t head then t else head.

Lemma better_irrefl a : better a a = false.
Proof. destruct (better a a) eqn:E; [|done]. rewrite <- E. by apply fc_asym. Qed.

Lemma arrive_best head t : (arrive head t = head \/ arrive head t = t) /\ better head (arrive head t) = false
  /\ better t (arrive head t) = false.
Proof.
  unfold arrive. destruct (better t head) eqn:E.
  - split_and!; [by right|by apply fc_asym|apply better_irrefl].
  - split_and!; [by left|apply better_irrefl|done].
Qed.

(** The head after any arrivals is one of the tips seen, and none of them beats it. *)
Lemma arrivals_best tips head :
  In (fold_left arrive tips head) (head :: tips)
  /\ forall t, In t (head :: tips) -> better t (fold_left arrive tips head) = false.
Proof.
  revert head. induction tips as [|t tips IH]; intros head.
  { cbn. split; [by left|]. intros t [<-|[]]. apply better_irrefl. }
  cbn [fold_left]. destruct (IH (arrive head t)) as [Hin Hbest]. destruct (arrive_best head t) as (Hc & Hh & Ht).
  assert (better (arrive head t) (fold_left arrive tips (arrive head t)) = false) as Hb by (apply Hbest; by left).
  split.
  - destruct Hin as [<-|Hin]; [|right; by right]. destruct Hc as [->| ->]; [by left|right; by left].
  - intros x [<-|[<-|Hx]]; [by eapply fc_trans..|]. apply Hbest. by right.
Qed.

Lemma order_independent_lemma h1 h2 l1 l2 :
  h1 :: l1 ≡ₚ h2 :: l2 ->
  Header_Hash (t_Header (fold_left arrive l1 h1)) = Header_Hash (t_Header (fold_left arrive l2 h2))
  /\ TotalDifficulty (fold_left arrive l1 h1) = TotalDifficulty (fold_left arrive l2 h2).
Proof.
  intros Hp. destruct (arrivals_best l1 h1) as [Hin1 Hb1]. destruct (arrivals_best l2 h2) as [Hin2 Hb2].
  assert (forall t, In t (h1 :: l1) <-> In t (h2 :: l2)) as Hiff
    by (intros t; rewrite <- !list_elem_of_In; by rewrite Hp).
  apply fc_total; [by apply Hb2, Hiff|by apply Hb1, Hiff].
Qed.

End Convergence.

(** The heaviest-chain rule keeps the contract. *)
#[export] Instance HeaviestChain_laws : ForkChoiceLaws Better.
Proof.
  split; [intros a b|intros a b c|intros a b]; rewrite <- ?not_true_iff_false, !Better_spec; [lia|lia|].
  intros H1 H2. assert (tipHash a = tipHash b) as E by lia. split; [|lia].
  by apply array_be2z_inj.
Qed.

End Mining.

(** ** Properties *)

#[local] Existing Instance toyCrypto.

(** Three blocks ten minutes and one second apart. *)
Definition toyWindow : list Header :=
  map (fun p => mkHeader ZeroHash (fst p) (snd p) ZeroHash ZeroHash ZeroHash 0 30000000 ZeroAddress 5000 0)
    [(1, 1000000); (2, 1600000); (3, 1601000)].

Lemma toyWindow_ok : Forall lwma_header toyWindow.
Proof. repeat (apply Forall_cons; split; [split; vm_compute; intuition congruence|]). apply Forall_nil_2. Qed.

(** The retarget is total and cannot run away.  For any window of up to [LwmaWindow] + 1 headers, with
    timestamps in any order within 2^61 and difficulties anywhere in [uint64], the code's [int64]
    arithmetic divides by zero nowhere, and the next difficulty is a positive [uint64] between 99/600 and
    9.9 (N + 1) / N times the average of the window, whatever the timestamps. *)
Theorem lwma_bounds h0 rest :
  Forall lwma_header (h0 :: rest) -> 1 <= len rest <= LwmaWindow ->
  exists d, lwmaDifficulty (h0 :: rest) = Ok d /\ MinDifficulty <= d < 2 ^ 64
    /\ sumDifficulty rest / len rest * 99 / 600 <= d
    /\ d <= Z.max 1 (sumDifficulty rest / len rest * (len rest + 1) * 99 / (10 * len rest)).
Proof. apply lwma_bounds_lemma. Qed.

Lemma lwma_bounds_witness : exists d, lwmaDifficulty toyWindow = Ok d /\ 5000 * 99 / 600 <= d.
Proof.
  destruct (lwma_bounds (hd (mkHeader ZeroHash 0 0 ZeroHash ZeroHash ZeroHash 0 0 ZeroAddress 0 0) toyWindow) (tl toyWindow))
    as (d & E & _ & Hl & _).
  - apply toyWindow_ok.
  - vm_compute. intuition congruence.
  - exists d. split; [exact E|exact Hl].
Defined.

(** On a chain whose blocks all have difficulty [D] and come exactly on schedule, the retarget asks for
    99% of [D], rounded down and at least 1, whatever the length of the window, partial ones included. *)
Theorem lwma_steady D h0 rest :
  Forall lwma_header (h0 :: rest) -> 1 <= len rest <= LwmaWindow -> on_schedule (Timestamp h0) D rest ->
  lwmaDifficulty (h0 :: rest) = Ok (Z.max 1 (D * 99 / 100)).
Proof. apply lwma_steady_lemma. Qed.

Definition toySchedule : list Header :=
  map (fun p => mkHeader ZeroHash (fst p) (snd p) ZeroHash ZeroHash ZeroHash 0 30000000 ZeroAddress 5000 0)
    [(1, 1000000); (2, 1240000); (3, 1480000)].

Lemma lwma_steady_witness : lwmaDifficulty toySchedule = Ok 4950.
Proof.
  apply (lwma_steady 5000 (hd toyHeader toySchedule) (tl toySchedule)).
  - repeat (apply Forall_cons; split; [split; vm_compute; intuition congruence|]). apply Forall_nil_2.
  - vm_compute. intuition congruence.
  - vm_compute. intuition congruence.
Defined.

(** Fork choice converges.  Nodes that start from any of a set of tips and see the others in any order
    end on heads with the same total difficulty and the same header (unless keccak collides on the headers
    of the set), and no tip of the set beats that head: arrival order never decides. *)
Theorem fork_choice_converges `{Crypto} h1 h2 l1 l2 :
  Forall (fun t => wf_header (t_Header t)) (h1 :: l1) -> h1 :: l1 ≡ₚ h2 :: l2 ->
  collision_free (map (fun t => headerPreimage (t_Header t)) (h1 :: l1)) ->
  let head := fold_left (arrive Better) l1 h1 in
  let head' := fold_left (arrive Better) l2 h2 in
  In head (h1 :: l1) /\ (forall t, In t (h1 :: l1) -> Better t head = false) /\ head = head'.
Proof.
  intros Hw Hp Hc head head'. destruct (arrivals_best Better l1 h1) as [Hin Hb]. destruct (arrivals_best Better l2 h2) as [Hin' _].
  destruct (order_independent_lemma Better h1 h2 l1 l2 Hp) as [Hh Hd]. split_and!; [done..|].
  rewrite Forall_forall in Hw. rewrite <- list_elem_of_In in Hin, Hin'.
  rewrite <- Hp in Hin'. apply Header_Hash_binding_lemma in Hh; [|by apply Hw|by apply Hw|].
  2: { eapply collision_free_sub; [|exact Hc]. intros x Hx. apply list_elem_of_fmap.
       apply elem_of_cons in Hx as [->|Hx%list_elem_of_singleton]; [by exists head|subst x; by exists head']. }
  subst head head'. destruct (fold_left _ l1 h1), (fold_left _ l2 h2). cbn in Hh, Hd. congruence.
Qed.

Definition toyTips : list Tip := [mkTip toyHeader 7; mkTip (with_nonce 9 toyHeader) 12].

Section Mixed.
#[local] Existing Instance mixCrypto.

Lemma fork_choice_converges_witness :
  let head := fold_left (arrive Better) toyTips (mkTip (with_nonce 1 toyHeader) 5) in
  let head' := fold_left (arrive Better) [mkTip (with_nonce 1 toyHeader) 5; mkTip toyHeader 7] (mkTip (with_nonce 9 toyHeader) 12) in
  TotalDifficulty head = 12 /\ head = head'.
Proof.
  split; [vm_compute; reflexivity|].
  apply (fork_choice_converges (mkTip (with_nonce 1 toyHeader) 5) (mkTip (with_nonce 9 toyHeader) 12) toyTips
           [mkTip (with_nonce 1 toyHeader) 5; mkTip toyHeader 7]).
  - repeat (apply Forall_cons; split; [split; vm_compute; intuition congruence|]). apply Forall_nil_2.
  - symmetry. apply (Permutation_cons_append [mkTip (with_nonce 1 toyHeader) 5; mkTip toyHeader 7]).
  - apply collision_free_dec. vm_compute. reflexivity.
Defined.

End Mixed.

(** Mining finds the block.  If some nonce meets the target of the header's difficulty, then [mine],
    left alone, ends; the header it leaves passes [VerifyHeaderPoW], differs from the one it was given
    only in the nonce, which is the least that wins, and its cached hash is the hash of what it holds.
    If a stop signal may come, a block it reports is still that one. *)
Theorem mine_finds `{Crypto} o n :
  let h := ho_header o in
  0 <= n < 2 ^ 64 -> 1 <= Difficulty h -> hashAt h n <= powTarget (Difficulty h) ->
  exists m, 0 <= m <= n
    /\ (forall fuel, m < Z.of_nat fuel ->
          mine fuel o (fun _ => false) = Some (true, mkHeaderObj (with_nonce m h) (Some (Header_Hash (with_nonce m h)))))
    /\ VerifyHeaderPoW (with_nonce m h) = Ok tt
    /\ (forall k, 0 <= k < m -> satisfiesPoW (with_nonce k h) = false)
    /\ (forall fuel stop o', Z.of_nat fuel <= 2 ^ 64 -> mine fuel o stop = Some (true, o') -> ho_header o' = with_nonce m h).
Proof.
  intros h Hn Hd Hh. destruct (first_below _ _ n ltac:(lia) Hh) as (m & Hm & Hle & Hmin).
  exists m. split_and!; [lia..| | | |].
  - intros fuel Hf. unfold mine. by rewrite (Grind_live fuel o _ 0 m) by (done || lia).
  - unfold VerifyHeaderPoW, satisfiesPoW, MinDifficulty. cbn [with_nonce Difficulty].
    destruct (Z.ltb_spec (Difficulty h) 1); [lia|]. unfold hashAt in Hle.
    by destruct (Z.leb_spec (be2z (abytes (Header_Hash (with_nonce m h)))) (powTarget (Difficulty h))); [|lia].
  - intros k Hk. apply Z.leb_gt. by apply Hmin.
  - intros fuel stop o' Hf. unfold mine. destruct (Grind fuel o _ 0 stop) as [[[k ok] o1]|] eqn:E; [|done].
    intros [= -> ->]. apply Grind_spec in E as (Hk & Hlow & Hwin & -> & _); [|lia..]. fold h in Hlow, Hwin |- *.
    f_equal. destruct (Z.lt_trichotomy k m) as [Hlt|[->|Hgt]]; [|done|].
    + specialize (Hmin k ltac:(lia)). lia.
    + specialize (Hlow m ltac:(lia)). lia.
Qed.

Lemma mine_finds_witness :
  exists m, 0 <= m <= 3 /\ VerifyHeaderPoW (with_nonce m toyHeader) = Ok tt.
Proof.
  destruct (mine_finds (mkHeaderObj toyHeader None) 3) as (m & Hm & _ & Hv & _).
  - lia.
  - vm_compute. congruence.
  - vm_compute. congruence.
  - exists m. split; [exact Hm|exact Hv].
Defined.
