(* ===== verification/Genesis.v ===== *)
(** * Genesis (core/genesis.go)

    The allocation is a Go map, iterated in an order the runtime chooses: the
    definitions take the order as an argument and the theorems show that it
    does not matter.  The JSON file format is left out. *)
From stdpp Require Import base numbers list gmap sorting.
From Stdlib Require Import ZArith Lia Strings.Byte.
From S2P Require Import Prelude Common Types Vm State StateProofs StateInv Transition TransitionProofs TxProps Pow.
#[local] Open Scope Z_scope.
#[local] Open Scope list_scope.
#[local] Open Scope go_scope.

(** A [*BigStr] that is nil, or holds a nil [*big.Int], is [None].  [Name] is a label. *)
Record Genesis : Type := mkGenesis {
  g_TotalSupply : option Z;
  g_ChainID : Z;
  g_Timestamp : Z;
  g_GasLimit : Z;
  g_Alloc : gmap Address (option Z);
  g_Difficulty : Z;
  TreasuryReward : Address;
  TreasuryRewardBps : Z;
}.

(** The order in which one [range g.Alloc] visits the map. *)
Definition alloc_order (g : Genesis) (order : list (Address * option Z)) : Prop := order ≡ₚ map_to_list (g_Alloc g).

(** The loop of [Validate]: the sum, or an error. *)
Fixpoint validateAlloc (order : list (Address * option Z)) (sum : Z) : res Z :=
  match order with
  | [] => Ok sum
  | (_, None) :: _ => Err ErrGenesis
  | (_, Some bal) :: rest => if Z.sgn bal <? 0 then Err ErrGenesis else validateAlloc rest (sum + bal)
  end.

Definition Validate (g : Genesis) (order : list (Address * option Z)) : res unit :=
  if g_ChainID g =? 0 then Err ErrGenesis
  else if g_GasLimit g <? MinBlockGasLimit then Err ErrGenesis
  else if 10000 <? TreasuryRewardBps g then Err ErrGenesis
  else if negb (Bool.eqb (0 <? TreasuryRewardBps g) (negb (array_eqb (TreasuryReward g) ZeroAddress)))
  then Err ErrGenesis
  else
    let? sum := validateAlloc order 0 in
    match g_TotalSupply g with
    | None => Ok tt
    | Some total => if negb (sum =? total) then Err ErrGenesis else Ok tt
    end.

Definition Supply (order : list (Address * option Z)) : Z :=
  fold_left (fun sum p => match snd p with Some bal => sum + bal | None => sum end) order 0.

(** The loop of [Build]; crediting a nil amount panics. *)
Fixpoint buildState (order : list (Address * option Z)) (s : State) : res State :=
  match order with
  | [] => Ok s
  | (addr, Some bal) :: rest => buildState rest (Credit s addr bal)
  | (_, None) :: _ => Panic
  end.

Definition genesisTag : list byte :=
  map z2b [108; 120; 115; 47; 103; 101; 110; 101; 115; 105; 115; 47; 118; 49].

Section Build.
Context `{Crypto}.

Definition chainTag (chainID : Z) : Hash := Keccak256 [Encoder_Raw genesisTag ++ Encoder_Uint64 chainID].

Definition Build (g : Genesis) (order : list (Address * option Z)) : res (State * Block) :=
  let? s := buildState order State_New in
  let diff := if g_Difficulty g =? 0 then MinDifficulty else g_Difficulty g in
  let header := mkHeader (chainTag (g_ChainID g)) 0 (g_Timestamp g) (TxRoot []) (ReceiptRoot []) (Root s) 0
                  (g_GasLimit g) ZeroAddress diff 0 in
  Ok (s, mkBlock header []).

End Build.

(** The reward split that [NewBlockchain] reads from the genesis (core/blockchain.go). *)
Definition genesisSplit (g : Genesis) : rewardSplit := mkSplit (i64 (TreasuryRewardBps g)) (TreasuryReward g).

(** ** The order of iteration does not matter *)

Lemma State_ext s s' :
  accounts s = accounts s' -> touched s = touched s' -> snapshots s = snapshots s' -> journal s = journal s' ->
  logs s = logs s' -> bctx s = bctx s' -> burned s = burned s' -> s = s'.
Proof. destruct s, s'. cbn. congruence. Qed.

Lemma set_commute s a b x y :
  a <> b -> snapshots s = [] -> State_set (State_set s a x) b y = State_set (State_set s b y) a x.
Proof.
  intros Hne Hs. destruct (set_fields s a x) as (A1 & A2 & A3 & A4 & A5 & A6 & A7).
  destruct (set_fields s b y) as (B1 & B2 & B3 & B4 & B5 & B6 & B7).
  destruct (set_fields (State_set s a x) b y) as (C1 & C2 & C3 & C4 & C5 & C6 & C7).
  destruct (set_fields (State_set s b y) a x) as (D1 & D2 & D3 & D4 & D5 & D6 & D7).
  apply State_ext; try congruence.
  - rewrite C6, D6, A6, B6.
    destruct (isEmpty x), (isEmpty y).
    + apply delete_delete.
    + symmetry. by apply delete_insert_ne.
    + by apply delete_insert_ne.
    + by apply insert_insert_ne.
  - rewrite C5, D5, A5, B5. set_unfold. intros c. tauto.
  - rewrite C7, D7, A1, B1, Hs, A7, B7, Hs. done.
Qed.

Lemma Credit_commute s a b v w :
  a <> b -> snapshots s = [] -> Credit (Credit s a v) b w = Credit (Credit s b w) a v.
Proof.
  intros Hne Hs. unfold Credit. rewrite !Get_set, !decide_False by congruence. by apply set_commute.
Qed.

Definition funded (order : list (Address * option Z)) : Prop := Forall (fun p => is_Some (snd p)) order.

Lemma buildState_perm o1 o2 s :
  o1 ≡ₚ o2 -> NoDup o1.*1 -> funded o1 -> snapshots s = [] -> buildState o1 s = buildState o2 s.
Proof.
  intros Hp. revert s.
  induction Hp as [|[a v] l k Hp IH|[a v] [b w] l|l k m Hp1 IH1 Hp2 IH2]; intros s Hnd Hall Hs.
  - done.
  - apply NoDup_cons in Hnd as [_ Hnd]. apply Forall_cons in Hall as [[bal Ev] Hall]. cbn in Ev. subst v.
    apply IH; [done|done|]. by rewrite snapshots_Credit.
  - apply NoDup_cons in Hnd as [Hn _]. apply Forall_cons in Hall as [[vb Ev] Hall].
    apply Forall_cons in Hall as [[vw Ew] _]. cbn in Ev, Ew. subst v w.
    cbn [buildState]. rewrite Credit_commute; [done| |done]. intros ->. apply Hn. by left.
  - rewrite IH1 by done. apply IH2; [by rewrite <- Hp1|unfold funded; by rewrite <- Hp1|done].
Qed.

(** ** A valid genesis *)

Record wf_genesis (g : Genesis) : Prop := {
  wg_ChainID : is_u64 (g_ChainID g);
  wg_Timestamp : - 2 ^ 63 <= g_Timestamp g < 2 ^ 63;
  wg_GasLimit : is_u64 (g_GasLimit g);
  wg_Difficulty : is_u64 (g_Difficulty g);
  wg_Bps : is_u64 (TreasuryRewardBps g);
}.

Lemma Supply_fold order acc :
  fold_left (fun sum p => match snd p with Some bal => sum + bal | None => sum end) order acc = acc + Supply order.
Proof.
  unfold Supply. revert acc. induction order as [|[a [v|]] order IH]; intros acc; cbn [fold_left snd]; [lia| |];
    rewrite IH, (IH (_ + _)) || rewrite IH; lia.
Qed.

Lemma Supply_cons a v order : Supply ((a, v) :: order) = default 0 v + Supply order.
Proof. unfold Supply at 1. cbn [fold_left snd]. rewrite Supply_fold. by destruct v. Qed.

Lemma Supply_perm o1 o2 : o1 ≡ₚ o2 -> Supply o1 = Supply o2.
Proof. induction 1 as [|[]|[] []|]; rewrite ?Supply_cons; lia. Qed.

(** Every allocation is there and is not negative. *)
Definition allocated (order : list (Address * option Z)) : Prop := Forall (fun p => exists v, snd p = Some v /\ 0 <= v) order.

Lemma validateAlloc_ok order sum0 sum : validateAlloc order sum0 = Ok sum -> allocated order /\ sum = sum0 + Supply order.
Proof.
  revert sum0. induction order as [|[a [v|]] order IH]; intros sum0; cbn [validateAlloc].
  - intros [= <-]. split; [constructor|]. unfold Supply. cbn. lia.
  - destruct (Z.ltb_spec (Z.sgn v) 0) as [|Hv]; [done|]. intros [Ha ->]%IH. rewrite Supply_cons. cbn [default from_option id].
    split; [|lia]. constructor; [|done]. exists v. split; [done|lia].
  - done.
Qed.

(** The amount a genesis gives to one account. *)
Definition allocAt (m : gmap Address (option Z)) (a : Address) : Z := default 0 (m !! a ≫= id).

Lemma buildState_ok order s :
  allocated order -> NoDup order.*1 -> wf_state s -> snapshots s = [] ->
  exists s', buildState order s = Ok s' /\ wf_state s' /\ supply s' = supply s + Supply order /\ burned s' = burned s
    /\ forall a, State_Balance s' a = State_Balance s a + allocAt (list_to_map order) a.
Proof.
  revert s. induction order as [|[a v] order IH]; intros s Ha Hnd Hw Hs.
  - exists s. split_and!; try done; [unfold Supply; cbn; lia|]. intros a. unfold allocAt. cbn [list_to_map foldr].
    rewrite lookup_empty. cbn. lia.
  - apply NoDup_cons in Hnd as [Hn Hnd]. apply Forall_cons in Ha as [(bal & Ev & Hb) Ha]. cbn in Ev, Hn. subst v.
    cbn [buildState]. destruct (IH (Credit s a bal)) as (s' & E & Hw' & Hsup & Hbu & Hbal);
      [done|done|by apply wf_Credit|by rewrite snapshots_Credit|].
    exists s'. split_and!; try done.
    + rewrite Hsup, supply_Credit, Supply_cons. cbn [default from_option id]. lia.
    + rewrite Hbu. apply set_fields.
    + intros b. rewrite Hbal. unfold State_Balance, allocAt. rewrite Get_Credit. cbn [list_to_map fst snd foldr].
      destruct (decide (a = b)) as [<-|Hne].
      * rewrite lookup_insert_eq, (not_elem_of_list_to_map_1 order a Hn). cbn. lia.
      * by rewrite lookup_insert_ne.
Qed.

Lemma alloc_order_keys g order : alloc_order g order -> NoDup order.*1 /\ list_to_map order = g_Alloc g.
Proof.
  intros Ho. assert (NoDup order.*1) as Hnd by (rewrite Ho; apply NoDup_fst_map_to_list).
  split; [done|]. rewrite <- (list_to_map_to_list (g_Alloc g)). by apply list_to_map_proper.
Qed.

Lemma Validate_ok g order :
  Validate g order = Ok tt ->
  allocated order /\ (forall total, g_TotalSupply g = Some total -> Supply order = total)
  /\ g_ChainID g <> 0 /\ MinBlockGasLimit <= g_GasLimit g /\ TreasuryRewardBps g <= 10000
  /\ (0 < TreasuryRewardBps g <-> TreasuryReward g <> ZeroAddress).
Proof.
  unfold Validate. destruct (Z.eqb_spec (g_ChainID g) 0); [done|].
  destruct (Z.ltb_spec (g_GasLimit g) MinBlockGasLimit); [done|].
  destruct (Z.ltb_spec 10000 (TreasuryRewardBps g)); [done|].
  destruct (Bool.eqb _ _) eqn:Eb; [|done]. cbn [negb]. apply Bool.eqb_prop in Eb.
  destruct (validateAlloc order 0) as [sum| |] eqn:Es; [|done..]. cbn [res_bind].
  apply validateAlloc_ok in Es as [Ha ->]. intros Ht. split_and!; try done.
  - intros total E. rewrite E in Ht. destruct (Z.eqb_spec (0 + Supply order) total); [lia|done].
  - destruct (array_eqb_spec (TreasuryReward g) ZeroAddress), (Z.ltb_spec 0 (TreasuryRewardBps g)); try done;
      split; intros; try done; lia.
Qed.

Lemma validateAlloc_complete order sum : allocated order -> validateAlloc order sum = Ok (sum + Supply order).
Proof.
  intros Ha. revert sum. induction Ha as [|[a w] order (v & E & Hv) Ha IH]; intros sum.
  - cbn. f_equal. unfold Supply. cbn. lia.
  - cbn in E. subst w. cbn [validateAlloc]. destruct (Z.ltb_spec (Z.sgn v) 0); [lia|].
    rewrite IH, Supply_cons. cbn [default from_option id]. f_equal. lia.
Qed.

Lemma Validate_perm g o1 o2 : o1 ≡ₚ o2 -> Validate g o1 = Ok tt -> Validate g o2 = Ok tt.
Proof.
  intros Hp Hv. destruct (Validate_ok _ _ Hv) as [Ha _]. rewrite <- Hv. unfold Validate.
  rewrite !validateAlloc_complete, (Supply_perm _ _ Hp); [done|done|]. unfold allocated. by rewrite <- Hp.
Qed.

Lemma allocated_funded order : allocated order -> funded order.
Proof. intros H. eapply Forall_impl; [exact H|]. intros p (v & -> & _). by eexists. Qed.

Lemma State_New_wf : wf_state State_New /\ supply State_New = 0.
Proof. split; [apply wf_New|done]. Qed.

Lemma State_New_Balance a : State_Balance State_New a = 0.
Proof. unfold State_Balance, State_Get. cbn [State_New accounts]. by rewrite lookup_empty. Qed.

Lemma Build_perm `{Crypto} g o1 o2 : alloc_order g o1 -> o1 ≡ₚ o2 -> allocated o1 -> Build g o1 = Build g o2.
Proof.
  intros Ho Hp Ha. unfold Build. rewrite (buildState_perm o1 o2 State_New Hp); [done| |by apply allocated_funded|done].
  by apply (alloc_order_keys g).
Qed.

Lemma Build_ok `{Crypto} g o1 o2 :
  alloc_order g o1 -> alloc_order g o2 -> Validate g o1 = Ok tt ->
  exists s b, Build g o2 = Ok (s, b) /\ wf_state s /\ SumBalances s = Supply o2 /\ Burned s = 0
    /\ (forall a, State_Balance s a = allocAt (g_Alloc g) a)
    /\ StateRoot (b_Header b) = Root s /\ h_GasLimit (b_Header b) = g_GasLimit g
    /\ ParentHash (b_Header b) = chainTag (g_ChainID g) /\ Height (b_Header b) = 0 /\ VerifyTxRoot b = true
    /\ (wf_genesis g -> wf_header (b_Header b) /\ 1 <= Difficulty (b_Header b)).
Proof.
  intros Ho1 Ho2 Hv. destruct (Validate_ok _ _ Hv) as (Ha & _). destruct State_New_wf as [Hw0 Hs0].
  destruct (alloc_order_keys _ _ Ho2) as [Hnd Hm].
  assert (allocated o2) as Ha2 by (unfold allocated; by rewrite Ho2, <- Ho1).
  destruct (buildState_ok o2 State_New Ha2 Hnd Hw0 eq_refl) as (s & E & Hw & Hsup & Hbu & Hbal).
  unfold Build. rewrite E. cbn [res_bind]. eexists _, _. split; [reflexivity|].
  assert (Burned s = 0) as Hb0 by (unfold Burned, burnedOrZero; by rewrite Hbu).
  split_and!; try done; cbn [b_Header Height Difficulty].
  - unfold supply in Hsup, Hs0. rewrite Hb0 in Hsup. lia.
  - intros a. by rewrite Hbal, State_New_Balance, Hm, Z.add_0_l.
  - intros []. unfold MinDifficulty. split; [constructor; cbn; try done|];
      destruct (Z.eqb_spec (g_Difficulty g) 0); try done; unfold is_u64 in *; lia.
Qed.

(** ** The chain tag *)

Section Descent.
Context `{Crypto}.

(** [descends g l h]: [h] is above [g], with the headers [l] below it down to [g], each naming its parent as [checkParent]
    requires. *)
Inductive descends (g : Header) : list Header -> Header -> Prop :=
  | DS_self : descends g [] g
  | DS_child l p h :
      descends g l p -> wf_header h -> ParentHash h = Header_Hash p -> Height h = u64 (Height p + 1) ->
      descends g (p :: l) h.

Lemma descends_height g l h : descends g l h -> Height g = 0 -> len l < 2 ^ 64 -> Height h = len l.
Proof.
  intros Hd Hg. induction Hd as [|l p h Hd IH Hw Hp Hh]; intros Hn; [done|].
  rewrite len_cons in *. pose proof (len_nonneg l). rewrite Hh, IH by lia. rewrite u64_small; lia.
Qed.

Lemma descends_wf g l h : descends g l h -> wf_header g -> wf_header h.
Proof. by destruct 1. Qed.

Lemma descends_same xs g g' l l' h :
  collision_free xs -> map headerPreimage (h :: l) ⊆ xs -> map headerPreimage (h :: l') ⊆ xs -> length l = length l' ->
  descends g l h -> descends g' l' h -> wf_header g -> wf_header g' -> g = g'.
Proof.
  intros Hc Hl Hl' Hlen Hd. revert l' Hl' Hlen. induction Hd as [|l p h Hd IH Hw Hp Hh]; intros l' Hl' Hlen Hd' Hg Hg'.
  - by destruct Hd'.
  - destruct Hd' as [|l' p' h Hd2 Hw2 Hp2 Hh2]; [done|]. cbn [map] in Hl, Hl'.
    assert (p = p') as <-.
    { apply Header_Hash_binding_lemma; [by apply (descends_wf _ _ _ Hd)|by apply (descends_wf _ _ _ Hd2)| |congruence].
      eapply collision_free_sub; [|exact Hc]. set_solver. }
    apply (IH ltac:(cbn [map]; set_solver) l'); [cbn [map]; set_solver|by injection Hlen|done..].
Qed.

(** What [chainTag] hashes. *)
Definition tagInput (chainID : Z) : list byte := Encoder_Raw genesisTag ++ Encoder_Uint64 chainID.

Lemma chainTag_bind xs i j :
  is_u64 i -> is_u64 j -> collision_free xs -> tagInput i ∈ xs -> tagInput j ∈ xs -> chainTag i = chainTag j -> i = j.
Proof.
  intros Hi Hj Hc Ii Ij E%(Keccak256_bind _ _ _ Hc); [|done..]. apply app_inv_head in E. by apply (be_fixed_inj 8) in E.
Qed.

End Descent.

(** ** A toy genesis *)

#[local] Existing Instance toyCrypto.

Definition toyTreasury : Address := toyContract.

Definition toyGenesis (chainID : Z) : Genesis :=
  mkGenesis (Some 1000) chainID 1000 30000000
    (<[toySender := Some 700]> {[toyMiner := Some 300]}) 0 toyTreasury 2000.

Definition toyOrder : list (Address * option Z) := [(toyMiner, Some 300); (toySender, Some 700)].

Lemma toyOrder_ok i : alloc_order (toyGenesis i) toyOrder.
Proof. vm_compute. apply Permutation_refl || apply perm_swap. Qed.

Lemma toyGenesis_wf : wf_genesis (toyGenesis 1) /\ wf_genesis (toyGenesis 2).
Proof. split; constructor; vm_compute; intuition congruence. Qed.

(** ** Properties *)

(** C33: A genesis that [Validate] accepts builds, and what it builds is sound: the state is well formed,
    every account holds exactly its allocation, the balances add up to [Supply] and to the declared
    [totalSupply], nothing is burned, and the block commits to that state, clears the gas floor and has
    a positive difficulty; the treasury share is at most 100% and has a destination exactly when it is
    positive.  The order in which the runtime walks the allocation map, on one node or another, in
    [Validate], in [Supply] or in [Build], does not matter. *)
Theorem genesis_sound `{Crypto} g o1 o2 o3 :
  wf_genesis g -> alloc_order g o1 -> alloc_order g o2 -> alloc_order g o3 -> Validate g o1 = Ok tt ->
  exists s b, Build g o2 = Ok (s, b) /\ Build g o3 = Ok (s, b) /\ Validate g o3 = Ok tt
    /\ wf_state s /\ (forall a, State_Balance s a = allocAt (g_Alloc g) a)
    /\ SumBalances s = Supply o1 /\ Burned s = 0
    /\ (forall total, g_TotalSupply g = Some total -> SumBalances s = total)
    /\ StateRoot (b_Header b) = Root s /\ VerifyTxRoot b = true /\ Height (b_Header b) = 0
    /\ MinBlockGasLimit <= h_GasLimit (b_Header b) /\ 1 <= Difficulty (b_Header b)
    /\ 0 <= TreasuryRewardBasisPoints (genesisSplit g) <= 10000
    /\ (0 < TreasuryRewardBasisPoints (genesisSplit g) <-> TreasuryRewardAddress (genesisSplit g) <> ZeroAddress).
Proof.
  intros Hg Ho1 Ho2 Ho3 Hv. destruct (Validate_ok _ _ Hv) as (Ha & Ht & _ & Hgl & Hbps & Hdst).
  destruct (Build_ok g o1 o2 Ho1 Ho2 Hv) as (s & b & E & Hw & Hsum & Hbu & Hbal & Hroot & Hlim & _ & Hh & Htx & Hwf).
  destruct (Hwf Hg) as [_ Hd].
  assert (o1 ≡ₚ o2) as H12 by (by rewrite Ho2). assert (o1 ≡ₚ o3) as H13 by (by rewrite Ho3).
  assert (SumBalances s = Supply o1) as Hs1 by (by rewrite Hsum, (Supply_perm _ _ H12)).
  assert (TreasuryRewardBasisPoints (genesisSplit g) = TreasuryRewardBps g) as ->.
  { cbn. destruct Hg as [_ _ _ _ Hb]. unfold is_u64 in Hb. rewrite i64_small; lia. }
  exists s, b. split_and!; try done.
  - by rewrite <- (Build_perm g o1 o3), (Build_perm g o1 o2).
  - by apply (Validate_perm g o1).
  - intros total Et. rewrite Hs1. by apply Ht.
  - by rewrite Hlim.
  - apply Hg.
Qed.

Lemma genesis_sound_witness :
  exists s b, Build (toyGenesis 1) toyOrder = Ok (s, b) /\ SumBalances s = 1000
    /\ StateRoot (b_Header b) = Root s /\ State_Balance s toySender = 700.
Proof.
  destruct (genesis_sound (toyGenesis 1) toyOrder toyOrder (rev toyOrder)) as (s & b & E & _ & _ & _ & Hb & _ & _ & Ht & Hr & _).
  - apply toyGenesis_wf.
  - apply toyOrder_ok.
  - apply toyOrder_ok.
  - unfold alloc_order. rewrite <- (toyOrder_ok 1). apply perm_swap.
  - vm_compute. reflexivity.
  - exists s, b. split_and!; [exact E|by apply Ht|exact Hr|]. rewrite Hb. vm_compute. reflexivity.
Defined.

(** Two networks with different chain ids share no block: a header that descends from one genesis and
    a header that descends from the other, at whatever heights, have different hashes, unless keccak
    collides on the headers of the two lines and the two chain tags.  So a block without transactions
    cannot be replayed from one network to the other, though the two allocations may be the same. *)
Theorem networks_disjoint `{Crypto} g1 g2 o1 o2 s1 s2 b1 b2 l1 l2 h1 h2 :
  wf_genesis g1 -> wf_genesis g2 -> alloc_order g1 o1 -> alloc_order g2 o2 ->
  Validate g1 o1 = Ok tt -> Validate g2 o2 = Ok tt -> Build g1 o1 = Ok (s1, b1) -> Build g2 o2 = Ok (s2, b2) ->
  descends (b_Header b1) l1 h1 -> descends (b_Header b2) l2 h2 -> len l1 < 2 ^ 64 -> len l2 < 2 ^ 64 ->
  collision_free (map headerPreimage (h1 :: l1 ++ h2 :: l2) ++ [tagInput (g_ChainID g1); tagInput (g_ChainID g2)]) ->
  g_ChainID g1 <> g_ChainID g2 -> Header_Hash h1 <> Header_Hash h2.
Proof.
  intros Hg1 Hg2 Ho1 Ho2 Hv1 Hv2 E1 E2 Hd1 Hd2 Hn Hm Hc Hid Hh.
  destruct (Build_ok g1 o1 o1 Ho1 Ho1 Hv1) as (? & ? & E1' & _ & _ & _ & _ & _ & _ & Ht1 & Hz1 & _ & Hw1).
  destruct (Build_ok g2 o2 o2 Ho2 Ho2 Hv2) as (? & ? & E2' & _ & _ & _ & _ & _ & _ & Ht2 & Hz2 & _ & Hw2).
  rewrite E1 in E1'. rewrite E2 in E2'. injection E1' as <- <-. injection E2' as <- <-.
  destruct (Hw1 Hg1) as [W1 _]. destruct (Hw2 Hg2) as [W2 _].
  pose proof (descends_wf _ _ _ Hd1 W1) as V1. pose proof (descends_wf _ _ _ Hd2 W2) as V2.
  assert (h1 = h2) as ->.
  { apply Header_Hash_binding_lemma; [done..| |done]. eapply collision_free_sub; [|exact Hc]. cbn [map app]. rewrite map_app. set_solver. }
  assert (length l1 = length l2) as Hlen.
  { apply Nat2Z.inj. change (len l1 = len l2). by rewrite <- (descends_height _ _ _ Hd1), <- (descends_height _ _ _ Hd2). }
  pose proof (descends_same _ (b_Header b1) (b_Header b2) l1 l2 h2 Hc
    ltac:(cbn [map app]; rewrite map_app; set_solver) ltac:(cbn [map app]; rewrite map_app; set_solver) Hlen Hd1 Hd2 W1 W2) as Eg.
  rewrite Eg, Ht2 in Ht1. apply Hid. symmetry. eapply chainTag_bind; [apply Hg2|apply Hg1|exact Hc| | |done]; set_solver.
Qed.

#[local] Existing Instance mixCrypto.

Lemma networks_disjoint_witness :
  exists b1 b2 s1 s2, Build (toyGenesis 1) toyOrder = Ok (s1, b1) /\ Build (toyGenesis 2) toyOrder = Ok (s2, b2)
    /\ Header_Hash (b_Header b1) <> Header_Hash (b_Header b2).
Proof.
  assert (exists s1 b1, Build (toyGenesis 1) toyOrder = Ok (s1, b1)) as (s1 & b1 & E1) by (eexists _, _; reflexivity).
  assert (exists s2 b2, Build (toyGenesis 2) toyOrder = Ok (s2, b2)) as (s2 & b2 & E2) by (eexists _, _; reflexivity).
  exists b1, b2, s1, s2. split; [exact E1|]. split; [exact E2|].
  apply (networks_disjoint (toyGenesis 1) (toyGenesis 2) toyOrder toyOrder s1 s2 b1 b2 [] []); try exact E1; try exact E2.
  - apply toyGenesis_wf.
  - apply toyGenesis_wf.
  - apply toyOrder_ok.
  - apply toyOrder_ok.
  - by vm_compute.
  - by vm_compute.
  - constructor.
  - constructor.
  - done.
  - done.
  - assert (b_Header b1 = match Build (toyGenesis 1) toyOrder with Ok (_, b) => b_Header b | _ => toyHeader end) as -> by (by rewrite E1).
    assert (b_Header b2 = match Build (toyGenesis 2) toyOrder with Ok (_, b) => b_Header b | _ => toyHeader end) as -> by (by rewrite E2).
    apply collision_free_dec. vm_compute. reflexivity.
  - done.
Defined.
