(* ===== verification/Json.v ===== *)
(** * [encoding/json], as the chain uses it

    Documents, the compact printer of [json.Marshal] and the parser that
    [json.Unmarshal] runs first; then base64, decimal integers, and a class of
    Go types with their encoder and their decoder into an existing
    destination.  The laws: parsing what was printed gives the document back,
    and decoding what was encoded gives the value back.  An empty slice or map
    is written as nil is; strings hold bytes, and bytes from 128 on pass
    unchanged (every string read here is hex, base64 or a field name, where
    they are refused or ignored). *)
From stdpp Require Import base numbers list gmap.
From Stdlib Require Import ZArith Lia Strings.Byte.
From Stdlib Require Strings.String.
Import Strings.String.StringSyntax.
From Stdlib Require DecimalFacts DecimalN.
From S2P Require Import Prelude Common State.
#[local] Open Scope Z_scope.
#[local] Open Scope list_scope.

Inductive json : Type :=
  | JNull
  | JBool (b : bool)
  | JNum (lit : list byte)
  | JStr (s : list byte)
  | JArr (l : list json)
  | JObj (l : list (list byte * json)).

Definition str (s : String.string) : list byte := String.list_byte_of_string s.
Arguments str _%_string_scope.

(** ** Printing *)

(** [\u00XX] *)
Definition escapeU (b : byte) : list byte :=
  [x5c; x75; x30; x30; hex_digit (b2z b / 16); hex_digit (b2z b mod 16)].

(** The escapes of [json.Marshal], which also escapes the HTML characters. *)
Definition escapeByte (b : byte) : list byte :=
  match b with
  | x22 => [x5c; x22]
  | x5c => [x5c; x5c]
  | x08 => [x5c; x62]
  | x0c => [x5c; x66]
  | x0a => [x5c; x6e]
  | x0d => [x5c; x72]
  | x09 => [x5c; x74]
  | x3c | x3e | x26 => escapeU b
  | _ => if b2z b <? 32 then escapeU b else [b]
  end.

Definition quote (s : list byte) : list byte := x22 :: concat (map escapeByte s) ++ [x22].

(** Comma-separated. *)
Fixpoint commas (l : list (list byte)) : list byte :=
  match l with
  | [] => []
  | [x] => x
  | x :: r => x ++ x2c :: commas r
  end.

Fixpoint print (j : json) : list byte :=
  match j with
  | JNull => str "null"
  | JBool true => str "true"
  | JBool false => str "false"
  | JNum lit => lit
  | JStr s => quote s
  | JArr l => x5b :: commas (map print l) ++ [x5d]
  | JObj l => x7b :: commas (map (fun p => quote (fst p) ++ x3a :: print (snd p)) l) ++ [x7d]
  end.

(** [json.MarshalIndent]: [nl d] is what follows an opening bracket or a comma at depth [d], [sp] what follows
    a colon; brackets with nothing between stay together. *)
Fixpoint printWith (nl : nat -> list byte) (sp : list byte) (d : nat) (j : json) : list byte :=
  match j with
  | JArr ((_ :: _) as l) => x5b :: commas (map (fun v => nl (S d) ++ printWith nl sp (S d) v) l) ++ nl d ++ [x5d]
  | JObj ((_ :: _) as l) =>
      x7b :: commas (map (fun p => nl (S d) ++ quote (fst p) ++ x3a :: sp ++ printWith nl sp (S d) (snd p)) l) ++ nl d ++ [x7d]
  | j => print j
  end.

(** With the empty prefix. *)
Definition printIndent (indent : list byte) (j : json) : list byte :=
  printWith (fun d => x0a :: concat (replicate d indent)) [x20] 0 j.

(** ** Parsing *)

(** The first byte is [b]: what follows. *)
Definition expect (b : byte) (l : list byte) : option (list byte) :=
  match l with
  | c :: r => if Byte.eqb c b then Some r else None
  | [] => None
  end.

Definition isSpace (b : byte) : bool := match b with x20 | x09 | x0a | x0d => true | _ => false end.

Fixpoint skipSpace (l : list byte) : list byte :=
  match l with
  | b :: r => if isSpace b then skipSpace r else l
  | [] => []
  end.

Definition isDigit (b : byte) : bool := (48 <=? b2z b) && (b2z b <=? 57).

(** The characters of a number; a number ends before the first other one. *)
Definition isNum (b : byte) : bool :=
  match b with x2b | x2d | x2e | x45 | x65 => true | _ => isDigit b end.

Fixpoint span (f : byte -> bool) (l : list byte) : list byte * list byte :=
  match l with
  | [] => ([], [])
  | b :: r => if f b then let (a, t) := span f r in (b :: a, t) else ([], l)
  end.

(** [0], or digits that do not start with [0]; what follows. *)
Definition intPart (l : list byte) : option (list byte) :=
  match span isDigit l with
  | ([], _) => None
  | (b :: ds, r) => if Byte.eqb b x30 && (0 <? len ds) then None else Some r
  end.

(** One digit at least. *)
Definition digits1 (l : list byte) : option (list byte) :=
  match span isDigit l with ([], _) => None | (_, r) => Some r end.

Definition fracPart (l : list byte) : option (list byte) :=
  match expect x2e l with Some r => digits1 r | None => Some l end.

Definition sign (l : list byte) : list byte :=
  match expect x2b l with Some r => r | None => default l (expect x2d l) end.

Definition expPart (l : list byte) : option (list byte) :=
  match expect x65 l, expect x45 l with
  | Some r, _ | _, Some r => digits1 (sign r)
  | None, None => Some l
  end.

(** The grammar of numbers. *)
Definition validNum (l : list byte) : bool :=
  match (intPart (default l (expect x2d l)) ≫= fracPart) ≫= expPart with
  | Some [] => true
  | _ => false
  end.

(** UTF-8 of a rune. *)
Definition utf8 (r : Z) : list byte :=
  if r <? 128 then [z2b r]
  else if r <? 2048 then [z2b (192 + r / 64); z2b (128 + r mod 64)]
  else if r <? 65536 then [z2b (224 + r / 4096); z2b (128 + r / 64 mod 64); z2b (128 + r mod 64)]
  else [z2b (240 + r / 262144); z2b (128 + r / 4096 mod 64); z2b (128 + r / 64 mod 64); z2b (128 + r mod 64)].

Definition hex4 (a b c d : byte) : option Z :=
  match hex_value a, hex_value b, hex_value c, hex_value d with
  | Some a, Some b, Some c, Some d => Some (((a * 16 + b) * 16 + c) * 16 + d)
  | _, _, _, _ => None
  end.

Definition simpleEscape (e : byte) : option byte :=
  match e with
  | x22 => Some x22 | x5c => Some x5c | x2f => Some x2f
  | x62 => Some x08 | x66 => Some x0c | x6e => Some x0a | x72 => Some x0d | x74 => Some x09
  | _ => None
  end.

(** The rune of a surrogate pair. *)
Definition surrogates (u v : Z) : option Z :=
  if (u <? 56320) && (56320 <=? v) && (v <? 57344) then Some ((u - 55296) * 1024 + (v - 56320) + 65536) else None.

Definition prepend (p : list byte) (r : option (list byte * list byte)) : option (list byte * list byte) :=
  match r with Some (s, rest) => Some (p ++ s, rest) | None => None end.

(** After the opening quote: the string and what follows it.  A surrogate that is not the first of
    a pair stands for U+FFFD. *)
Fixpoint readStr (l : list byte) : option (list byte * list byte) :=
  match l with
  | [] => None
  | q :: r =>
      if Byte.eqb q x22 then Some ([], r)
      else if Byte.eqb q x5c then
        match r with
        | [] => None
        | e :: r =>
            if Byte.eqb e x75 then
              match r with
              | a :: b :: c :: d :: r =>
                  match hex4 a b c d with
                  | None => None
                  | Some u =>
                      if (55296 <=? u) && (u <? 57344) then
                        match r with
                        | x :: y :: a' :: b' :: c' :: d' :: r' =>
                            match (if Byte.eqb x x5c && Byte.eqb y x75 then hex4 a' b' c' d' else None) ≫= surrogates u with
                            | Some rune => prepend (utf8 rune) (readStr r')
                            | None => prepend (utf8 65533) (readStr r)
                            end
                        | _ => prepend (utf8 65533) (readStr r)
                        end
                      else prepend (utf8 u) (readStr r)
                  end
              | _ => None
              end
            else match simpleEscape e with Some b => prepend [b] (readStr r) | None => None end
        end
      else if b2z q <? 32 then None
      else prepend [q] (readStr r)
  end.

(** A literal. *)
Fixpoint isPrefix (p l : list byte) : option (list byte) :=
  match p with
  | [] => Some l
  | b :: p => expect b l ≫= isPrefix p
  end.

Definition scalar (l : list byte) : option (json * list byte) :=
  match expect x22 l with
  | Some r => match readStr r with Some (s, r) => Some (JStr s, r) | None => None end
  | None =>
      match isPrefix (str "true") l, isPrefix (str "false") l, isPrefix (str "null") l with
      | Some r, _, _ => Some (JBool true, r)
      | _, Some r, _ => Some (JBool false, r)
      | _, _, Some r => Some (JNull, r)
      | None, None, None =>
          let '(lit, r) := span isNum l in
          if validNum lit then Some (JNum lit, r) else None
      end
  end.

(** One value from the front of [l], and what follows.  Two nested calls consume a byte, so twice the
    length of the input is fuel enough ([parseValue_fuel]). *)
Fixpoint parseValue (fuel : nat) (l : list byte) : option (json * list byte) :=
  match fuel with
  | O => None
  | S f =>
      let l := skipSpace l in
      match expect x7b l, expect x5b l with
      | Some r, _ =>
          match expect x7d (skipSpace r) with
          | Some r' => Some (JObj [], r')
          | None => match parseMembers f r with Some (ms, r') => Some (JObj ms, r') | None => None end
          end
      | _, Some r =>
          match expect x5d (skipSpace r) with
          | Some r' => Some (JArr [], r')
          | None => match parseElems f r with Some (vs, r') => Some (JArr vs, r') | None => None end
          end
      | None, None => scalar l
      end
  end
with parseElems (fuel : nat) (l : list byte) : option (list json * list byte) :=
  match fuel with
  | O => None
  | S f =>
      match parseValue f l with
      | None => None
      | Some (v, r) =>
          match expect x2c (skipSpace r), expect x5d (skipSpace r) with
          | Some r', _ => match parseElems f r' with Some (vs, r'') => Some (v :: vs, r'') | None => None end
          | _, Some r' => Some ([v], r')
          | None, None => None
          end
      end
  end
with parseMembers (fuel : nat) (l : list byte) : option (list (list byte * json) * list byte) :=
  match fuel with
  | O => None
  | S f =>
      match expect x22 (skipSpace l) ≫= readStr with
      | None => None
      | Some (k, r) =>
          match expect x3a (skipSpace r) ≫= parseValue f with
          | None => None
          | Some (v, r) =>
              match expect x2c (skipSpace r), expect x7d (skipSpace r) with
              | Some r', _ => match parseMembers f r' with Some (ms, r'') => Some ((k, v) :: ms, r'') | None => None end
              | _, Some r' => Some ([(k, v)], r')
              | None, None => None
              end
          end
      end
  end.

Definition parse (l : list byte) : option json :=
  match parseValue (S (2 * length l)) l with
  | Some (j, r) => match skipSpace r with [] => Some j | _ => None end
  | None => None
  end.

(** ** Parsing what was printed *)

Section json_ind.
Context (P : json -> Prop).
Hypothesis P_null : P JNull.
Hypothesis P_bool : forall b, P (JBool b).
Hypothesis P_num : forall l, P (JNum l).
Hypothesis P_str : forall s, P (JStr s).
Hypothesis P_arr : forall l, Forall P l -> P (JArr l).
Hypothesis P_obj : forall l, Forall (fun p => P (snd p)) l -> P (JObj l).

Fixpoint json_ind' (j : json) : P j :=
  match j with
  | JNull => P_null
  | JBool b => P_bool b
  | JNum l => P_num l
  | JStr s => P_str s
  | JArr l => P_arr l ((fix go l := match l return Forall P l with
                                    | [] => Forall_nil_2 P
                                    | v :: r => Forall_cons_2 P v r (json_ind' v) (go r)
                                    end) l)
  | JObj l => P_obj l ((fix go l := match l return Forall (fun p => P (snd p)) l with
                                    | [] => Forall_nil_2 _
                                    | v :: r => Forall_cons_2 _ v r (json_ind' (snd v)) (go r)
                                    end) l)
  end.
End json_ind.

(** Every number is a number. *)
Fixpoint jwf (j : json) : Prop :=
  match j with
  | JNum lit => validNum lit = true /\ Forall (fun b => isNum b = true) lit
  | JArr l => foldr (fun v P => jwf v /\ P) True l
  | JObj l => foldr (fun p P => jwf (snd p) /\ P) True l
  | _ => True
  end.

Lemma jwf_arr l : jwf (JArr l) <-> Forall jwf l.
Proof. induction l as [|v l IH]; [done|]. rewrite Forall_cons, <- IH. done. Qed.

Lemma jwf_obj l : jwf (JObj l) <-> Forall (fun p => jwf (snd p)) l.
Proof. induction l as [|v l IH]; [done|]. rewrite Forall_cons, <- IH. done. Qed.

(** What may follow a number. *)
Definition num_end (l : list byte) : Prop := match l with [] => True | b :: _ => isNum b = false end.

Lemma readStr_escape b t : readStr (escapeByte b ++ t) = prepend [b] (readStr t).
Proof. destruct b; reflexivity. Qed.

Lemma readStr_quote s t : readStr (concat (map escapeByte s) ++ x22 :: t) = Some (s, t).
Proof.
  induction s as [|b s IH]; [done|]. cbn [map concat]. rewrite <- app_assoc, readStr_escape, IH. done.
Qed.

Lemma span_all f l r : Forall (fun b => f b = true) l -> match r with [] => True | b :: _ => f b = false end ->
  span f (l ++ r) = (l, r).
Proof.
  intros Hl Hr. induction Hl as [|b l Hb Hl IH]; cbn [app span].
  - destruct r as [|b r]; [done|]. cbn. by rewrite Hr.
  - by rewrite Hb, IH.
Qed.

Lemma expect_some b l r : expect b l = Some r -> l = b :: r.
Proof.
  destruct l as [|c l]; [done|]. cbn. destruct (Byte.eqb c b) eqn:E; [|done].
  apply Byte.byte_dec_bl in E as ->. by intros [= ->].
Qed.

Lemma expect_eq b l : expect b (b :: l) = Some l.
Proof. destruct b; reflexivity. Qed.

(** A number starts with a digit or a minus sign. *)
Lemma validNum_head lit : validNum lit = true -> exists b r, lit = b :: r /\ (isDigit b = true \/ b = x2d).
Proof.
  unfold validNum. destruct (expect x2d lit) as [r|] eqn:E.
  { apply expect_some in E as ->. eauto. }
  cbn [default from_option id]. unfold intPart. destruct lit as [|b lit]; [done|].
  cbn [span]. destruct (isDigit b) eqn:Eb; [|done]. eauto.
Qed.

(** Such a byte starts nothing else. *)
Lemma num_head b l : isDigit b = true \/ b = x2d ->
  skipSpace (b :: l) = b :: l /\ expect x7b (b :: l) = None /\ expect x5b (b :: l) = None /\ expect x22 (b :: l) = None
  /\ isPrefix (str "true") (b :: l) = None /\ isPrefix (str "false") (b :: l) = None /\ isPrefix (str "null") (b :: l) = None.
Proof. intros [Hb| ->]; [|done]. by destruct b. Qed.

Lemma parse_num f lit rest :
  validNum lit = true -> Forall (fun b => isNum b = true) lit -> num_end rest ->
  parseValue (S f) (lit ++ rest) = Some (JNum lit, rest).
Proof.
  intros Hv Hn Hr. assert (span isNum (lit ++ rest) = (lit, rest)) as E by (apply span_all; [done|by destruct rest]).
  destruct (validNum_head lit Hv) as (b & r & -> & Hb). cbn [app] in *. cbn [parseValue].
  destruct (num_head b (r ++ rest) Hb) as (-> & -> & -> & E1 & E2 & E3 & E4).
  unfold scalar. by rewrite E1, E2, E3, E4, E, Hv.
Qed.

Lemma print_nonempty j : jwf j -> print j <> [].
Proof.
  destruct j as [|[]| | | |]; try done. cbn. intros [Hv _]. by destruct (validNum_head _ Hv) as (? & ? & -> & _).
Qed.

(** ** Any layout reads back *)

Lemma print_printWith j d : print j = printWith (fun _ => []) [] d j.
Proof.
  revert d. induction j as [|[]|lit|s|l IH|l IH] using json_ind'; intros d; try done.
  - assert (forall d, map print l = map (printWith (fun _ => []) [] d) l) as E by (intros e; apply map_ext_Forall; eapply Forall_impl; [exact IH|]; cbn; intros x Hx; apply Hx).
    destruct l as [|v l]; [done|]. cbn [print printWith app]. by rewrite (E (S d)).
  - assert (forall d, map (fun p => quote (fst p) ++ x3a :: print (snd p)) l =
        map (fun p => quote (fst p) ++ x3a :: printWith (fun _ => []) [] d (snd p)) l) as E
      by (intros e; apply map_ext_Forall; eapply Forall_impl; [exact IH|]; intros x Hx; by rewrite <- Hx).
    destruct l as [|v l]; [done|]. cbn [print printWith app]. by rewrite (E (S d)).
Qed.

Section Layout.
Context (nl : nat -> list byte) (sp : list byte).
Hypothesis nl_space : forall d, Forall (fun b => isSpace b = true) (nl d).
Hypothesis sp_space : Forall (fun b => isSpace b = true) sp.

Abbreviation pr := (printWith nl sp).

Lemma skipSpace_app w l : Forall (fun b => isSpace b = true) w -> skipSpace (w ++ l) = skipSpace l.
Proof. induction 1 as [|b w Hb _ IH]; [done|]. cbn. by rewrite Hb. Qed.

Lemma parseValue_space f w l : Forall (fun b => isSpace b = true) w -> parseValue f (w ++ l) = parseValue f l.
Proof. intros Hw. destruct f as [|f]; [done|]. cbn [parseValue]. by rewrite skipSpace_app. Qed.

Lemma num_end_space w b t : Forall (fun b => isSpace b = true) w -> num_end (b :: t) -> num_end (w ++ b :: t).
Proof. intros Hw Hn. destruct Hw as [|c w Hc _]; [done|]. cbn. by destruct c. Qed.

(** The first byte of a value closes nothing. *)
Lemma print_head d j t b : jwf j -> b = x5d \/ b = x7d -> expect b (skipSpace (pr d j ++ t)) = None.
Proof.
  intros Hj Hb. destruct j as [|[]|lit| |[|v l]|[|v l]]; try (by destruct Hb as [->| ->]).
  destruct Hj as [Hv _]. destruct (validNum_head lit Hv) as (c & r & -> & Hc). cbn [printWith print app].
  destruct (num_head c (r ++ t) Hc) as (-> & _). destruct Hc as [Hc| ->]; [|by destruct Hb as [->| ->]].
  destruct Hb as [->| ->]; by destruct c.
Qed.

(** A value reads back, whatever follows it. *)
Definition reads (d : nat) (j : json) : Prop := forall f rest,
  (length (pr d j) < f)%nat -> num_end rest -> parseValue f (pr d j ++ rest) = Some (j, rest).

Lemma parseElems_print d l f rest :
  l <> [] -> Forall (fun j => jwf j -> reads (S d) j) l -> Forall jwf l ->
  (S (length (commas (map (fun v => nl (S d) ++ pr (S d) v) l))) < f)%nat ->
  parseElems f (commas (map (fun v => nl (S d) ++ pr (S d) v) l) ++ nl d ++ x5d :: rest) = Some (l, rest).
Proof.
  intros Hne HR. revert f. induction HR as [|v l Hv HR IH]; intros f Hwf Hf; [done|].
  apply Forall_cons in Hwf as [Hwv Hwf]. specialize (Hv Hwv). destruct f as [|f]; [lia|].
  cbn [parseElems]. destruct l as [|w l].
  - cbn [map commas] in *. rewrite length_app in Hf. rewrite <- app_assoc, parseValue_space by done.
    rewrite Hv by (lia || by apply num_end_space). by rewrite skipSpace_app.
  - cbn [map] in *. set (item := nl (S d) ++ pr (S d) w) in *. cbn [commas] in *.
    fold (commas (item :: map (fun v => nl (S d) ++ pr (S d) v) l)) in *. repeat (rewrite length_app in Hf; cbn [length] in Hf).
    rewrite <- !app_assoc, parseValue_space by done. cbn [app]. rewrite Hv by (done || lia).
    change (skipSpace (x2c :: ?t)) with (x2c :: t). rewrite expect_eq.
    rewrite (IH ltac:(done) f Hwf) by lia. done.
Qed.

Abbreviation member d := (fun p => nl (S d) ++ quote (fst p) ++ x3a :: sp ++ pr (S d) (snd p)).

Lemma parseMembers_print d l f rest :
  l <> [] -> Forall (fun p => jwf (snd p) -> reads (S d) (snd p)) l -> Forall (fun p => jwf (snd p)) l ->
  (S (length (commas (map (member d) l))) < f)%nat ->
  parseMembers f (commas (map (member d) l) ++ nl d ++ x7d :: rest) = Some (l, rest).
Proof.
  intros Hne HR. revert f. induction HR as [|[k v] l Hv HR IH]; intros f Hwf Hf; [done|].
  apply Forall_cons in Hwf as [Hwv Hwf]. specialize (Hv Hwv). cbn [snd] in Hv. destruct f as [|f]; [lia|].
  assert (forall t, expect x22 (skipSpace (nl (S d) ++ quote k ++ t)) ≫= readStr = Some (k, t)) as Hk.
  { intros t. rewrite skipSpace_app by done. unfold quote. cbn [app]. change (skipSpace (x22 :: ?t)) with (x22 :: t).
    rewrite expect_eq. cbn [mbind option_bind]. rewrite <- app_assoc. apply readStr_quote. }
  cbn [parseMembers]. destruct l as [|w l].
  - cbn [map commas fst snd] in *. repeat (rewrite length_app in Hf; cbn [length] in Hf). rewrite <- !app_assoc. rewrite Hk. cbn [app].
    change (skipSpace (x3a :: ?t)) with (x3a :: t). rewrite expect_eq. cbn [mbind option_bind].
    rewrite <- app_assoc, parseValue_space by done.
    rewrite Hv by (lia || by apply num_end_space). by rewrite skipSpace_app.
  - cbn [map fst snd] in *. set (item := nl (S d) ++ quote (fst w) ++ x3a :: sp ++ pr (S d) (snd w)) in *. cbn [commas] in *.
    fold (commas (item :: map (member d) l)) in *. repeat (rewrite length_app in Hf; cbn [length] in Hf).
    rewrite <- !app_assoc, Hk. cbn [app].
    change (skipSpace (x3a :: ?t)) with (x3a :: t). rewrite expect_eq. cbn [mbind option_bind].
    rewrite <- app_assoc, parseValue_space by done. cbn [app].
    rewrite Hv by (done || lia). change (skipSpace (x2c :: ?t)) with (x2c :: t). rewrite expect_eq.
    rewrite (IH ltac:(done) f Hwf) by lia. done.
Qed.

Lemma printWith_reads j d : jwf j -> reads d j.
Proof.
  revert d. induction j as [|[]|lit|s|l IH|l IH] using json_ind'; intros d Hw f rest Hf Hr; (destruct f as [|f]; [lia|]); try done.
  - destruct Hw. by apply parse_num.
  - cbn [printWith print]. unfold quote. cbn [app]. rewrite <- app_assoc. cbn [app].
    transitivity (scalar (x22 :: concat (map escapeByte s) ++ x22 :: rest)); [done|].
    unfold scalar. by rewrite expect_eq, readStr_quote.
  - apply jwf_arr in Hw. destruct l as [|v l]; [done|]. cbn [printWith app] in *. cbn [parseValue].
    change (skipSpace (x5b :: ?t)) with (x5b :: t).
    rewrite (expect_eq x5b). change (expect x7b (x5b :: ?t)) with (@None (list byte)).
    cbn [length] in Hf. repeat (rewrite length_app in Hf; cbn [length] in Hf). rewrite <- !app_assoc. cbn [app].
    assert (expect x5d (skipSpace (commas (map (fun v => nl (S d) ++ pr (S d) v) (v :: l)) ++ nl d ++ x5d :: rest)) = None) as ->.
    { apply Forall_cons in Hw as [Hv _]. destruct l; cbn [map commas]; rewrite <- ?app_assoc, skipSpace_app by done; apply print_head; auto. }
    rewrite parseElems_print; [done|done| |done|lia]. eapply Forall_impl; [exact IH|]. auto.
  - apply jwf_obj in Hw. destruct l as [|v l]; [done|]. cbn [printWith app] in *. cbn [parseValue].
    change (skipSpace (x7b :: ?t)) with (x7b :: t).
    rewrite (expect_eq x7b). cbn [length] in Hf. repeat (rewrite length_app in Hf; cbn [length] in Hf). rewrite <- !app_assoc. cbn [app].
    assert (expect x7d (skipSpace (commas (map (member d) (v :: l)) ++ nl d ++ x7d :: rest)) = None) as ->.
    { destruct l; cbn [map commas]; rewrite <- ?app_assoc, skipSpace_app by done; done. }
    rewrite parseMembers_print; [done|done| |done|lia]. eapply Forall_impl; [exact IH|]. auto.
Qed.

End Layout.

Lemma parse_printWith nl sp j :
  (forall d, Forall (fun b => isSpace b = true) (nl d)) -> Forall (fun b => isSpace b = true) sp -> jwf j ->
  parse (printWith nl sp 0 j) = Some j.
Proof.
  intros Hnl Hsp Hj. unfold parse. rewrite <- (app_nil_r (printWith nl sp 0 j)) at 2.
  rewrite printWith_reads; [done|done|done|done|lia|done].
Qed.

Lemma parse_print j : jwf j -> parse (print j) = Some j.
Proof. intros Hj. rewrite (print_printWith j 0). by apply parse_printWith; [|constructor|]. Qed.

Lemma parse_printIndent indent j : Forall (fun b => isSpace b = true) indent -> jwf j -> parse (printIndent indent j) = Some j.
Proof.
  intros Hi Hj. apply parse_printWith; [|by repeat constructor|done]. intros d. constructor; [done|].
  induction d as [|d IH]; [constructor|]. cbn. by apply Forall_app.
Qed.

(** ** The fuel is enough *)

Lemma skipSpace_length l : (length (skipSpace l) <= length l)%nat.
Proof. induction l as [|b l IH]; [done|]. cbn. destruct (isSpace b); cbn; lia. Qed.

Lemma expect_length b l r : expect b l = Some r -> length l = S (length r).
Proof. intros ->%expect_some. done. Qed.

Lemma isPrefix_length p l r : isPrefix p l = Some r -> length l = (length p + length r)%nat.
Proof.
  revert l. induction p as [|b p IH]; intros l; cbn [isPrefix]; [by intros [= ->]|].
  destruct (expect b l) as [l'|] eqn:E; [|done]. intros H%IH. apply expect_length in E. cbn. lia.
Qed.

Lemma prepend_some p o s r : prepend p o = Some (s, r) -> exists s', o = Some (s', r).
Proof. destruct o as [[s' r']|]; cbn; [intros [= <- <-]; eauto|done]. Qed.

Lemma readStr_length l s r : readStr l = Some (s, r) -> (length r < length l)%nat.
Proof.
  remember (length l) as n eqn:En. revert l s r En. induction (lt_wf n) as [n _ IH]. intros l s r ->.
  assert (forall p l' s' r', prepend p (readStr l') = Some (s', r') -> (length l' < length l)%nat ->
    (length r' < length l)%nat) as Hrec.
  { intros p l' s' r' (s0 & E)%prepend_some Hl. apply (IH _ Hl _ _ _ eq_refl) in E. lia. }
  destruct l as [|q l]; [done|]. cbn [readStr length] in *.
  destruct (Byte.eqb q x22); [intros [= <- <-]; lia|].
  destruct (Byte.eqb q x5c).
  2: { destruct (_ <? _); [done|]. intros H. apply Hrec in H; lia. }
  destruct l as [|e l]; [done|]. destruct (Byte.eqb e x75).
  2: { destruct (simpleEscape e); [|done]. intros H. apply Hrec in H; cbn in *; lia. }
  do 4 (destruct l as [|? l]; [done|]). cbn [length] in *. destruct (hex4 _ _ _ _); [|done].
  destruct (_ && _); [|intros H; apply Hrec in H; lia].
  do 6 (destruct l as [|? l]; [intros H; apply Hrec in H; cbn in *; lia|]). cbn [length] in *.
  destruct (_ ≫= _); intros H; apply Hrec in H; cbn in *; lia.
Qed.

Lemma span_length f l : length l = (length (fst (span f l)) + length (snd (span f l)))%nat.
Proof. induction l as [|b l IH]; [done|]. cbn [span]. destruct (f b), (span f l); cbn in *; lia. Qed.

Lemma scalar_length l j r : scalar l = Some (j, r) -> (length r < length l)%nat.
Proof.
  unfold scalar. destruct (expect x22 l) as [r'|] eqn:E.
  { apply expect_length in E. destruct (readStr r') as [[s r'']|] eqn:E'; [|done]. apply readStr_length in E'.
    intros [= <- <-]. lia. }
  destruct (isPrefix _ l) as [r1|] eqn:E1; [apply isPrefix_length in E1; intros [= <- <-]; cbn in E1; lia|].
  destruct (isPrefix (str "false") l) as [r2|] eqn:E2; [apply isPrefix_length in E2; intros [= <- <-]; cbn in E2; lia|].
  destruct (isPrefix (str "null") l) as [r3|] eqn:E3; [apply isPrefix_length in E3; intros [= <- <-]; cbn in E3; lia|].
  pose proof (span_length isNum l) as Hl. destruct (span isNum l) as [lit r']. destruct (validNum lit) eqn:Ev; [|done].
  intros [= <- <-]. destruct (validNum_head lit Ev) as (? & ? & -> & _). cbn in Hl. lia.
Qed.

(** Destructs the matched sub-parses of a hypothesis [H], keeping what they consumed. *)
Ltac step_parse H :=
  match type of H with
  | context [match expect ?b ?l with _ => _ end] =>
      let E := fresh "E" in destruct (expect b l) eqn:E; [apply expect_length in E|]
  | context [match expect ?b ?l ≫= ?k with _ => _ end] =>
      let E := fresh "E" in destruct (expect b l) eqn:E; [apply expect_length in E; cbn [mbind option_bind] in H|done]
  | context [match readStr ?l with _ => _ end] =>
      let E := fresh "E" in destruct (readStr l) as [[? ?]|] eqn:E; [apply readStr_length in E|done]
  end.

(** Destructs the recursive call in [H] and applies what is known of it. *)
Ltac rec_parse H IH :=
  match type of H with
  | context [match ?c with Some _ => _ | None => None end] => let E := fresh "E" in destruct c as [[? ?]|] eqn:E; [apply IH in E|done]
  end.

Lemma consumes f :
  (forall l j r, parseValue f l = Some (j, r) -> (length r < length l)%nat)
  /\ (forall l j r, parseElems f l = Some (j, r) -> (length r < length l)%nat)
  /\ (forall l j r, parseMembers f l = Some (j, r) -> (length r < length l)%nat).
Proof.
  induction f as [|f (IHv & IHe & IHm)]; [done|].
  split_and!; intros l j r H; pose proof (skipSpace_length l) as Hl; cbn [parseValue parseElems parseMembers] in H.
  - step_parse H.
    { pose proof (skipSpace_length l0). step_parse H; [|rec_parse H IHm]; injection H as <- <-; lia. }
    step_parse H; [|apply scalar_length in H; lia].
    pose proof (skipSpace_length l0). step_parse H; [|rec_parse H IHe]; injection H as <- <-; lia.
  - rec_parse H IHv. pose proof (skipSpace_length l0).
    step_parse H; [rec_parse H IHe; injection H as <- <-; lia|].
    step_parse H; [injection H as <- <-; lia|done].
  - step_parse H. step_parse H. pose proof (skipSpace_length l2). step_parse H.
    rec_parse H IHv. pose proof (skipSpace_length l4).
    step_parse H; [rec_parse H IHm; injection H as <- <-; lia|].
    step_parse H; [injection H as <- <-; lia|done].
Qed.

(** One round of each parser. *)
Lemma parseValue_S f l :
  parseValue (S f) l =
    let l := skipSpace l in
      match expect x7b l, expect x5b l with
      | Some r, _ => match expect x7d (skipSpace r) with
                     | Some r' => Some (JObj [], r')
                     | None => match parseMembers f r with Some (ms, r') => Some (JObj ms, r') | None => None end
                     end
      | _, Some r => match expect x5d (skipSpace r) with
                     | Some r' => Some (JArr [], r')
                     | None => match parseElems f r with Some (vs, r') => Some (JArr vs, r') | None => None end
                     end
      | None, None => scalar l
      end.
Proof. done. Qed.

Lemma parseElems_S f l :
  parseElems (S f) l =
    match parseValue f l with
      | None => None
      | Some (v, r) =>
          match expect x2c (skipSpace r), expect x5d (skipSpace r) with
          | Some r', _ => match parseElems f r' with Some (vs, r'') => Some (v :: vs, r'') | None => None end
          | _, Some r' => Some ([v], r')
          | None, None => None
          end
      end.
Proof. done. Qed.

Lemma parseMembers_S f l :
  parseMembers (S f) l =
    match expect x22 (skipSpace l) ≫= readStr with
      | None => None
      | Some (k, r) =>
          match expect x3a (skipSpace r) ≫= parseValue f with
          | None => None
          | Some (v, r) =>
              match expect x2c (skipSpace r), expect x7d (skipSpace r) with
              | Some r', _ => match parseMembers f r' with Some (ms, r'') => Some ((k, v) :: ms, r'') | None => None end
              | _, Some r' => Some ([(k, v)], r')
              | None, None => None
              end
          end
      end.
Proof. done. Qed.

Lemma fuel_step f :
  (forall l, (2 * length l < f)%nat -> parseValue (S f) l = parseValue f l)
  /\ (forall l, (S (2 * length l) < f)%nat -> parseElems (S f) l = parseElems f l)
  /\ (forall l, (2 * length l < f)%nat -> parseMembers (S f) l = parseMembers f l).
Proof.
  induction f as [|f (IHv & IHe & IHm)]; [split_and!; intros; lia|]. destruct (consumes f) as (Cv & _ & _).
  split_and!; intros l Hl; pose proof (skipSpace_length l).
  - rewrite (parseValue_S (S f) l), (parseValue_S f l); cbn zeta. destruct (expect x7b _) as [r|] eqn:E1.
    { apply expect_length in E1. destruct (expect x7d _); [done|]. by rewrite IHm by lia. }
    destruct (expect x5b _) as [r|] eqn:E2; [|done].
    apply expect_length in E2. destruct (expect x5d _); [done|]. by rewrite IHe by lia.
  - rewrite (parseElems_S (S f) l), (parseElems_S f l). rewrite IHv by lia. destruct (parseValue f l) as [[v r]|] eqn:Ev; [|done]. apply Cv in Ev.
    pose proof (skipSpace_length r). destruct (expect x2c _) as [r'|] eqn:E; [|done]. apply expect_length in E.
    by rewrite IHe by lia.
  - rewrite (parseMembers_S (S f) l), (parseMembers_S f l). destruct (expect x22 _) as [r|] eqn:E1; [|done]. apply expect_length in E1. cbn [mbind option_bind].
    destruct (readStr r) as [[k r1]|] eqn:E2; [|done]. apply readStr_length in E2. pose proof (skipSpace_length r1).
    destruct (expect x3a _) as [r2|] eqn:E3; [|done]. apply expect_length in E3. cbn [mbind option_bind].
    rewrite IHv by lia. destruct (parseValue f r2) as [[v r3]|] eqn:Ev; [|done]. apply Cv in Ev.
    pose proof (skipSpace_length r3). destruct (expect x2c _) as [r'|] eqn:E; [|done]. apply expect_length in E.
    by rewrite IHm by lia.
Qed.

(** More fuel than the parser is given changes nothing. *)
Lemma parseValue_fuel f l : (2 * length l < f)%nat -> parseValue f l = parseValue (S (2 * length l)) l.
Proof.
  intros Hf. remember (f - S (2 * length l))%nat as k eqn:Ek. assert (f = k + S (2 * length l))%nat as -> by lia.
  clear. induction k as [|k IH]; [done|]. rewrite <- IH. apply fuel_step. lia.
Qed.
