(* ===== verification/Net.v ===== *)
(** * Addresses and strings (net, net/netip, strings)

    The parts of the standard library that decide whose request this is:
    [net.SplitHostPort], [net.ParseIP] with its two grammars, [IsLoopback],
    and the string functions around header fields.  White space is ASCII's:
    the other Unicode spaces are not trimmed here. *)
From stdpp Require Import base numbers list.
From Stdlib Require Import ZArith Lia Strings.Byte.
From S2P Require Import Prelude Common.
#[local] Open Scope Z_scope.
#[local] Open Scope list_scope.

#[local] Notation "'let*' x ':=' o 'in' k" := (mbind (fun x => k) o) (at level 10, x pattern, o at level 200, k at level 200).

(** ** Strings *)

Definition isSpaceByte (b : byte) : bool := existsb (Byte.eqb b) [x09; x0a; x0b; x0c; x0d; x20].

Fixpoint trimLeft (s : list byte) : list byte :=
  match s with
  | b :: r => if isSpaceByte b then trimLeft r else s
  | [] => []
  end.

(** [strings.TrimSpace] *)
Definition TrimSpace (s : list byte) : list byte := rev (trimLeft (rev (trimLeft s))).

(** What follows a first byte [b]. *)
Definition after (b : byte) (s : list byte) : option (list byte) :=
  match s with c :: r => if Byte.eqb c b then Some r else None | [] => None end.

(** The part before the first [b] and the part after it. *)
Fixpoint cut (b : byte) (s : list byte) : option (list byte * list byte) :=
  match s with
  | [] => None
  | c :: r => if Byte.eqb c b then Some ([], r) else let* (x, y) := cut b r in Some (c :: x, y)
  end.

(** Around the last [b]. *)
Definition cutLast (b : byte) (s : list byte) : option (list byte * list byte) :=
  let* (x, y) := cut b (rev s) in Some (rev y, rev x).

Definition contains (b : byte) (s : list byte) : bool := match cut b s with Some _ => true | None => false end.

(** The last element of [strings.Split(s, ",")]. *)
Definition afterLast (b : byte) (s : list byte) : list byte := match cutLast b s with Some (_, y) => y | None => s end.

(** ** [net.SplitHostPort]: the host; [None] is an error *)

Definition SplitHost (hostport : list byte) : option (list byte) :=
  match cutLast x3a hostport with
  | None => None
  | Some (before, port) =>
      match after x5b hostport with
      | Some rest =>
          (* the first ] comes just before the last colon *)
          match cut x5d rest with
          | None => None
          | Some (host, behind) =>
              if negb (len host + 2 =? len before) then None
              else if contains x5b rest || contains x5d behind then None
              else Some host
          end
      | None =>
          if contains x3a before then None
          else if contains x5b hostport || contains x5d hostport then None
          else Some before
      end
  end.

(** ** [net.ParseIP]: the sixteen bytes *)

(** [parseIPv4Fields]: [val] is the value and [digits] the length of the field being read. *)
Fixpoint ipv4Fields (s : list byte) (val digits : Z) (fields : list Z) : option (list Z) :=
  match s with
  | [] => if len fields =? 3 then Some (fields ++ [val]) else None
  | c :: r =>
      if (48 <=? b2z c) && (b2z c <=? 57) then
        if (digits =? 1) && (val =? 0) then None
        else
          let val := val * 10 + (b2z c - 48) in
          if 255 <? val then None else ipv4Fields r val (digits + 1) fields
      else if Byte.eqb c x2e then
        if (digits =? 0) || (len r =? 0) then None
        else if len fields =? 3 then None
        else ipv4Fields r 0 0 (fields ++ [val])
      else None
  end.

Definition parseIPv4 (s : list byte) : option (list Z) :=
  let* fs := ipv4Fields s 0 0 [] in Some (replicate 10 0 ++ [255; 255] ++ fs).

(** The hex number at the start: its value, its digits, and what follows; four digits at most. *)
Fixpoint hexGroup (s : list byte) (acc off : Z) : option (Z * Z * list byte) :=
  match s with
  | [] => Some (acc, off, [])
  | c :: r =>
      match hex_value c with
      | None => Some (acc, off, s)
      | Some d => if 3 <? off then None else hexGroup r (acc * 16 + d) (off + 1)
      end
  end.

(** The groups of an IPv6 address, from the bytes [ip] read so far; [ellipsis] is where :: was. *)
Fixpoint ipv6Groups (fuel : nat) (s : list byte) (ip : list Z) (ellipsis : option nat) : option (list byte * list Z * option nat) :=
  match fuel with
  | O => Some (s, ip, ellipsis)
  | S fuel =>
      let* (acc, off, rest) := hexGroup s 0 0 in
      if off =? 0 then None
      else
        match after x2e rest with
        | Some _ =>
            if match ellipsis with None => negb (len ip =? 12) | Some _ => false end then None
            else if 16 <? len ip + 4 then None
            else let* fs := ipv4Fields s 0 0 [] in Some ([], ip ++ fs, ellipsis)
        | None =>
            let ip := ip ++ [acc / 256; acc mod 256] in
            if len rest =? 0 then Some ([], ip, ellipsis)
            else
              let* r := after x3a rest in
              if len r =? 0 then None
              else
                match after x3a r with
                | Some r =>
                    match ellipsis with
                    | Some _ => None
                    | None => if len r =? 0 then Some ([], ip, Some (length ip)) else ipv6Groups fuel r ip (Some (length ip))
                    end
                | None => ipv6Groups fuel r ip ellipsis
                end
        end
  end.

(** An address without a zone: [net.ParseIP] refuses one with it. Sixteen bytes are eight groups. *)
Definition parseIPv6 (s : list byte) : option (list Z) :=
  if contains x25 s then None
  else
    let '(ellipsis, t) := match after x3a s ≫= after x3a with Some t => (Some O, t) | None => (None, s) end in
    match ellipsis, t with
    | Some _, [] => Some (replicate 16 0)
    | _, _ =>
        let* (rest, ip, ellipsis) := ipv6Groups 8 t [] ellipsis in
        if negb (len rest =? 0) then None
        else if len ip <? 16 then
          let* e := ellipsis in Some (take e ip ++ replicate (16 - length ip) 0 ++ drop e ip)
        else match ellipsis with Some _ => None | None => Some ip end
    end.

(** [netip.ParseAddr]: the first of these characters decides. *)
Fixpoint ipFamily (s : list byte) : option byte :=
  match s with
  | [] => None
  | c :: r => if existsb (Byte.eqb c) [x2e; x3a; x25] then Some c else ipFamily r
  end.

Definition ParseIP (s : list byte) : option (list Z) :=
  let* c := ipFamily s in
  if Byte.eqb c x2e then parseIPv4 s else if Byte.eqb c x3a then parseIPv6 s else None.

(** [IP.IsLoopback] *)
Definition IsLoopback (ip : list Z) : bool :=
  if bool_decide (take 12 ip = replicate 10 0 ++ [255; 255]) then
    match drop 12 ip with a :: _ => a =? 127 | [] => false end
  else bool_decide (ip = replicate 15 0 ++ [1]).

(** ** Headers: the first field of a name, or nothing *)

Definition Header_Get (fields : list (list byte * list byte)) (name : list byte) : list byte :=
  match find (fun p => bool_decide (fst p = name)) fields with Some (_, v) => v | None => [] end.
