(* ===== verification/Contracts.v ===== *)
(** * Package [contracts]: the hand-assembled token and the ABI encoders

    Models src/contracts/erc20.go (the label-resolving assembler, the token it
    assembles, its constructor, its calldata), abi.go, and the constructor
    arguments and calldata that the other files build around embedded bytecode.
    The assembler's methods return the receiver, so a chain of calls is a chain
    of functions, [a |> f |> g].  The compiled files under solidity/ are
    arguments: hex text that [decodeHex] reads.  Erc20.v shows what the
    assembled bytes do on the interpreter of Vm.v. *)
From stdpp Require Import base numbers list gmap strings.
From Stdlib Require Import ZArith Lia Strings.Byte.
From Stdlib Require Strings.String.
Import Strings.String.StringSyntax.
From S2P Require Import Prelude Common Rlp Types VmBase Json Net.
#[local] Open Scope Z_scope.
#[local] Open Scope list_scope.
#[local] Open Scope go_scope.

(** ** The byte of an opcode (opcodes.go) *)

Definition opByte (o : OpCode) : byte :=
  match o with
  | STOP => x00 | ADD => x01 | MUL => x02 | SUB => x03 | DIV => x04 | SDIV => x05
  | MOD => x06 | SMOD => x07 | ADDMOD => x08 | MULMOD => x09 | EXP => x0a | SIGNEXTEND => x0b
  | LT => x10 | GT => x11 | SLT => x12 | SGT => x13 | EQ => x14 | ISZERO => x15
  | AND => x16 | OR => x17 | XOR => x18 | NOT => x19 | BYTE => x1a
  | SHL => x1b | SHR => x1c | SAR => x1d
  | SHA3 => x20
  | ADDRESS => x30 | BALANCE => x31 | ORIGIN => x32 | CALLER => x33 | CALLVALUE => x34
  | CALLDATALOAD => x35 | CALLDATASIZE => x36 | CALLDATACOPY => x37
  | CODESIZE => x38 | CODECOPY => x39 | GASPRICE => x3a
  | EXTCODESIZE => x3b | EXTCODECOPY => x3c | RETURNDATASIZE => x3d | RETURNDATACOPY => x3e
  | EXTCODEHASH => x3f
  | BLOCKHASH => x40 | COINBASE => x41 | TIMESTAMP => x42 | NUMBER => x43 | DIFFICULTY => x44
  | GASLIMIT => x45 | CHAINID => x46 | SELFBALANCE => x47 | BASEFEE => x48
  | POP => x50 | MLOAD => x51 | MSTORE => x52 | MSTORE8 => x53 | SLOAD => x54 | SSTORE => x55
  | JUMP => x56 | JUMPI => x57 | PC => x58 | MSIZE => x59 | GAS => x5a | JUMPDEST => x5b
  | MCOPY => x5e | PUSH0 => x5f
  | PUSH n => z2b (0x60 + n - 1)
  | DUP n => z2b (0x80 + n - 1)
  | SWAP n => z2b (0x90 + n - 1)
  | LOG n => z2b (0xa0 + n)
  | CREATE => xf0 | CALL => xf1 | RETURN => xf3 | DELEGATECALL => xf4 | CREATE2 => xf5
  | STATICCALL => xfa | REVERT => xfd | INVALID => xfe
  | UNKNOWN => x0c
  end.

(** ** The assembler (erc20.go) *)

Record asm : Type := mkAsm {
  a_code : list byte;
  a_labels : gmap string Z;
  a_patches : list (Z * string);
}.

Declare Scope asm_scope.
Delimit Scope asm_scope with asm.
Notation "a |> f" := (f a) (at level 41, left associativity, only parsing) : asm_scope.
#[local] Open Scope asm_scope.

Definition newAsm : asm := mkAsm [] ∅ [].

Definition raw (bs : list byte) (a : asm) : asm := mkAsm (a_code a ++ bs) (a_labels a) (a_patches a).

Definition op (o : OpCode) (a : asm) : asm := raw [opByte o] a.

(** [byte(vm.PUSH1)+byte(len(bs))-1], in bytes. *)
Definition asm_push (bs : list byte) (a : asm) : asm := a |> raw [z2b (0x60 + len bs - 1)] |> raw bs.

Definition push1 (x : byte) : asm -> asm := asm_push [x].

Definition push4 (x : Z) : asm -> asm :=
  asm_push [z2b (Z.shiftr x 24); z2b (Z.shiftr x 16); z2b (Z.shiftr x 8); z2b x].

Definition push2n (x : Z) : asm -> asm := asm_push [z2b (Z.shiftr x 8); z2b x].

Definition push32 (h : list byte) : asm -> asm := asm_push h.

(** A label without a JUMPDEST. *)
Definition mark (name : string) (a : asm) : asm :=
  mkAsm (a_code a) (<[name := len (a_code a)]> (a_labels a)) (a_patches a).

Definition jd (name : string) (a : asm) : asm := a |> mark name |> op JUMPDEST.

Definition pushLabel (name : string) (a : asm) : asm :=
  let a := a |> op (PUSH 2) in
  mkAsm (a_code a) (a_labels a) (a_patches a ++ [(len (a_code a), name)]) |> raw [x00; x00].

(** The loop of [done] over the patches; an undefined label panics, as would a position outside. *)
Fixpoint patchAll (labels : gmap string Z) (patches : list (Z * string)) (code : list byte) : res (list byte) :=
  match patches with
  | [] => Ok code
  | (pos, name) :: patches =>
      match labels !! name with
      | None => Panic
      | Some off =>
          if len code <=? pos + 1 then Panic
          else patchAll labels patches
                 (<[Z.to_nat (pos + 1) := z2b off]> (<[Z.to_nat pos := z2b (Z.shiftr off 8)]> code))
      end
  end.

Definition done_ (a : asm) : res (list byte) := patchAll (a_labels a) (a_patches a) (a_code a).

(** The key on the stack becomes keccak256(key ‖ 0). *)
Definition mapSlot (a : asm) : asm :=
  a |> push1 x00 |> op MSTORE
    |> push1 x00 |> push1 x20 |> op MSTORE
    |> push1 x40 |> push1 x00 |> op SHA3.

(** ** The token (erc20.go) *)

Definition TransferSelector : Z := 0xa9059cbb.
Definition balanceOfSelector : Z := 0x70a08231.

Section Token.
Context `{Crypto}.

Definition TransferEventTopic : Hash := Keccak256 [str "Transfer(address,address,uint256)"].

(** The instructions, with the topic given. *)
Definition runtimeAsm (sig : list byte) : asm :=
  newAsm
  |> push1 x00 |> op CALLDATALOAD |> push1 xe0 |> op SHR
  |> op (DUP 1) |> push4 TransferSelector |> op EQ |> pushLabel "transfer" |> op JUMPI
  |> op (DUP 1) |> push4 balanceOfSelector |> op EQ |> pushLabel "balanceOf" |> op JUMPI
  |> push1 x00 |> push1 x00 |> op REVERT
  (* balanceOf(address) *)
  |> jd "balanceOf" |> op POP
  |> push1 x04 |> op CALLDATALOAD |> mapSlot |> op SLOAD
  |> push1 x00 |> op MSTORE |> push1 x20 |> push1 x00 |> op RETURN
  (* transfer(address to, uint256 amount) *)
  |> jd "transfer" |> op POP
  |> op CALLER |> mapSlot |> op SLOAD
  |> push1 x24 |> op CALLDATALOAD
  |> op GT |> pushLabel "revert" |> op JUMPI
  |> op CALLER |> mapSlot |> op SLOAD
  |> push1 x24 |> op CALLDATALOAD
  |> op (SWAP 1) |> op SUB
  |> op CALLER |> mapSlot |> op SSTORE
  |> push1 x04 |> op CALLDATALOAD |> mapSlot |> op SLOAD
  |> push1 x24 |> op CALLDATALOAD |> op ADD
  |> push1 x04 |> op CALLDATALOAD |> mapSlot |> op SSTORE
  |> push1 x24 |> op CALLDATALOAD |> push1 x00 |> op MSTORE
  |> push1 x04 |> op CALLDATALOAD
  |> op CALLER
  |> push32 sig
  |> push1 x20 |> push1 x00 |> op (LOG 3)
  |> push1 x01 |> push1 x00 |> op MSTORE |> push1 x20 |> push1 x00 |> op RETURN
  |> jd "revert" |> push1 x00 |> push1 x00 |> op REVERT.

Definition ERC20Runtime : res (list byte) := done_ (runtimeAsm (abytes TransferEventTopic)).

(** [x.FillBytes(buf)] on a buffer of [n] bytes: the magnitude, which has to fit. *)
Definition FillBytes (n : nat) (x : Z) : res (list byte) :=
  if 256 ^ Z.of_nat n <=? Z.abs x then Panic else Ok (be_fixed n (Z.abs x)).

Definition initAsm (sb : list byte) (runtimeLen : Z) : asm :=
  newAsm
  |> op CALLER |> mapSlot
  |> push32 sb |> op (SWAP 1) |> op SSTORE
  |> push2n runtimeLen |> pushLabel "runtime_start" |> push1 x00 |> op CODECOPY
  |> push2n runtimeLen |> push1 x00 |> op RETURN
  |> mark "runtime_start".

Definition ERC20Init (supply : Z) : res (list byte) :=
  let? runtime := ERC20Runtime in
  let? sb := FillBytes 32 supply in
  let? code := done_ (initAsm sb (len runtime)) in
  Ok (code ++ runtime).

Definition BalanceSlot (addr : Address) : Hash := Keccak256 [zeros 12 ++ abytes addr ++ zeros 32].

End Token.

(** ** ABI words (abi.go) *)

Definition uint256Word (x : Z) : res (list byte) := FillBytes 32 x.

Definition addrWord (a : Address) : list byte := zeros 12 ++ abytes a.

(** [strings.TrimPrefix(strings.TrimSpace(s), "0x")], then hex; bad text panics. *)
Definition decodeHex (s : list byte) : res (list byte) :=
  match hex_DecodeString (trim0x (TrimSpace s)) with Ok b => Ok b | _ => Panic end.

(** [append] of several parts, each of which may panic. *)
Fixpoint appendAll (d : list byte) (parts : list (res (list byte))) : res (list byte) :=
  match parts with
  | [] => Ok d
  | p :: parts => let? w := p in appendAll (d ++ w) parts
  end.

Definition adr (a : Address) : res (list byte) := Ok (addrWord a).

(** The tail of a dynamic string: length, bytes, padding to a whole number of words. *)
Definition abiString (s : list byte) : res (list byte) :=
  let? l := uint256Word (len s) in
  Ok (l ++ s ++ zeros ((32 - len s mod 32) mod 32)).

(** ** Calldata and constructor arguments *)

Definition TransferCalldata (to : Address) (amount : Z) : res (list byte) :=
  appendAll [xa9; x05; x9c; xbb] [adr to; FillBytes 32 amount].
Definition BalanceOfCalldata (addr : Address) : list byte := [x70; xa0; x82; x31] ++ addrWord addr.
Definition ApproveCalldata (spender : Address) (amount : Z) : res (list byte) :=
  appendAll [x09; x5e; xa7; xb3] [adr spender; FillBytes 32 amount].

(** usertoken_solc.go, graduation_solc.go, peg_solc.go, bondingcurve_solc.go, lxsswap_solc.go,
    univ2.go; [hex] is the embedded file. *)

Definition UserTokenDeploy (hex name symbol : list byte) (supply : Z) : res (list byte) :=
  let? nameEnc := abiString name in
  let? symEnc := abiString symbol in
  let? head := appendAll [] [uint256Word 0x60; uint256Word (0x60 + len nameEnc); uint256Word supply] in
  let? init := decodeHex hex in
  Ok (init ++ head ++ nameEnc ++ symEnc).

Definition WrappedTokenInit (hex : list byte) (operator : Address) (name symbol : list byte) : res (list byte) :=
  let? nameEnc := abiString name in
  let? symEnc := abiString symbol in
  let? head := appendAll (addrWord operator) [uint256Word 0x60; uint256Word (0x60 + len nameEnc)] in
  let? init := decodeHex hex in
  Ok (init ++ head ++ nameEnc ++ symEnc).

Definition GraduationVaultInit (hex : list byte) (operator : Address) (minLiquidity : Z) : res (list byte) :=
  let? args := appendAll (addrWord operator) [uint256Word minLiquidity] in
  let? init := decodeHex hex in
  Ok (init ++ args).

Definition PumpFactoryInit (hex : list byte) (feeRecipient : Address) (feeBps : Z) (swapFactory wlxs : Address) : res (list byte) :=
  let? args := appendAll (addrWord feeRecipient) [uint256Word feeBps; adr swapFactory; adr wlxs] in
  let? init := decodeHex hex in
  Ok (init ++ args).

Definition PegVaultInit (hex : list byte) (operator : Address) : res (list byte) :=
  let? init := decodeHex hex in Ok (init ++ addrWord operator).
Definition LxsSwapRouterInit (hex : list byte) (factory wlxs : Address) : res (list byte) :=
  let? init := decodeHex hex in appendAll init [adr factory; adr wlxs].

Definition GraduateCalldata (coin : Address) (tokenAmount : Z) : res (list byte) :=
  appendAll [xec; x8d; xc7; x54] [adr coin; uint256Word tokenAmount].
Definition GradReleaseLxsCalldata (nonce : Z) (to : Address) (amount : Z) : res (list byte) :=
  appendAll [x45; xdf; xcd; xbb] [uint256Word nonce; adr to; uint256Word amount].
Definition GradReleaseTokenCalldata (nonce : Z) (coin to : Address) (amount : Z) : res (list byte) :=
  appendAll [x05; x5c; x48; x5a] [uint256Word nonce; adr coin; adr to; uint256Word amount].
(** A range of nonces apart from the peg's. *)
Definition GradWlxsMintNonce (gradNonce : Z) : Z := Z.shiftl 1 192 + gradNonce.
Definition WrappedTokenMintCalldata (nonce : Z) (to : Address) (amount : Z) : res (list byte) :=
  appendAll [x83; x6a; x10; x40] [uint256Word nonce; adr to; uint256Word amount].
Definition PegReleaseCalldata (nonce : Z) (to : Address) (amount : Z) : res (list byte) :=
  appendAll [x22; x9c; x9f; x6c] [uint256Word nonce; adr to; uint256Word amount].
Definition WlxsMintCalldata (nonce : Z) (to : Address) (amount : Z) : res (list byte) :=
  appendAll [x83; x6a; x10; x40] [uint256Word nonce; adr to; uint256Word amount].
Definition WlxsSetTokenURICalldata (uri : list byte) : res (list byte) :=
  appendAll [xe0; xdf; x5b; x6f] [uint256Word 0x20; abiString uri].

Definition PumpCreateCalldata (name symbol image : list byte) (minTokensOut : Z) : res (list byte) :=
  let? nameEnc := abiString name in
  let? symEnc := abiString symbol in
  let? imgEnc := abiString image in
  appendAll [xdf; x5c; x2a; x2e]
    [uint256Word 0x80; uint256Word (0x80 + len nameEnc); uint256Word (0x80 + len nameEnc + len symEnc);
     uint256Word minTokensOut; Ok nameEnc; Ok symEnc; Ok imgEnc].
Definition PumpBuyToCalldata (to : Address) (minTokensOut : Z) : res (list byte) :=
  appendAll [x09; xbd; x4c; x31] [adr to; uint256Word minTokensOut].
Definition PumpBuyCalldata (minTokensOut : Z) : res (list byte) := appendAll [xd9; x6a; x09; x4a] [uint256Word minTokensOut].
Definition PumpSellCalldata (amount minNativeOut : Z) : res (list byte) :=
  appendAll [xd7; x98; x75; xeb] [uint256Word amount; uint256Word minNativeOut].

Definition SwapCreatePairCalldata (a b : Address) : res (list byte) := appendAll [xc9; xc6; x53; x96] [adr a; adr b].
Definition SwapGetPairCalldata (a b : Address) : res (list byte) := appendAll [xe6; xa4; x39; x05] [adr a; adr b].
Definition SwapPairSwapCalldata (amount0Out amount1Out : Z) (to : Address) : res (list byte) :=
  appendAll [x02; x2c; x0d; x9f]
    [uint256Word amount0Out; uint256Word amount1Out; adr to; uint256Word 0x80; uint256Word 0].
Definition RouterBuyCalldata (token : Address) (amountOutMin : Z) (to : Address) (deadline : Z) : res (list byte) :=
  appendAll [xe4; x84; x8a; x9d] [adr token; uint256Word amountOutMin; adr to; uint256Word deadline].
Definition RouterSellCalldata (token : Address) (amountIn amountOutMin : Z) (to : Address) (deadline : Z) : res (list byte) :=
  appendAll [xe6; x4e; x82; x2c]
    [adr token; uint256Word amountIn; uint256Word amountOutMin; adr to; uint256Word deadline].

Definition UniV2AddLiquidityCalldata (tokenA tokenB : Address) (amtADesired amtBDesired amtAMin amtBMin : Z)
    (to : Address) (deadline : Z) : res (list byte) :=
  appendAll [xe8; xe3; x37; x00]
    [adr tokenA; adr tokenB; uint256Word amtADesired; uint256Word amtBDesired; uint256Word amtAMin;
     uint256Word amtBMin; adr to; uint256Word deadline].

(** ** The assembler emits what the interpreter decodes *)

Lemma decode_opByte o :
  match o with
  | PUSH n => 1 <= n <= 32
  | DUP n | SWAP n => 1 <= n <= 16
  | LOG n => 0 <= n <= 4
  | _ => True
  end -> decode (opByte o) = o.
Proof.
  destruct o; try reflexivity; intros Hn; unfold decode, opByte; rewrite z2b_small by lia.
  - replace (_ && _) with true; [f_equal; lia|]. symmetry. apply andb_true_iff. lia.
  - replace (_ && (_ <=? 0x7f)) with false by (symmetry; apply andb_false_iff; lia).
    replace (_ && _) with true; [f_equal; lia|]. symmetry. apply andb_true_iff. lia.
  - replace (_ && (_ <=? 0x7f)) with false by (symmetry; apply andb_false_iff; lia).
    replace (_ && (_ <=? 0x8f)) with false by (symmetry; apply andb_false_iff; lia).
    replace (_ && _) with true; [f_equal; lia|]. symmetry. apply andb_true_iff. lia.
  - replace (_ && (_ <=? 0x7f)) with false by (symmetry; apply andb_false_iff; lia).
    replace (_ && (_ <=? 0x8f)) with false by (symmetry; apply andb_false_iff; lia).
    replace (_ && (_ <=? 0x9f)) with false by (symmetry; apply andb_false_iff; lia).
    replace (_ && _) with true; [f_equal; lia|]. symmetry. apply andb_true_iff. lia.
Qed.
