(* ===== verification/Erc20.v ===== *)
(** * The token of erc20.go on the interpreter

    The bytes that contracts/erc20.go assembles, run on the interpreter of
    src/vm: for every input, gas and world, what the token does and what it
    costs.  [slotKey] is where the balance of a key is stored; the three ways
    a call can end are [run_transfer], [run_refused] (both of transfer),
    [run_balanceOf] and [run_unknown]. *)
From stdpp Require Import base numbers list gmap strings.
From Stdlib Require Import ZArith Lia Strings.Byte.
From S2P Require Import Prelude Common Rlp Types VmBase Precompiles Vm Contracts.
#[local] Open Scope Z_scope.
#[local] Open Scope list_scope.

(** * Runs of given bytecode, instruction by instruction

    A calculus for code that is known: [runs fr st mm p w need r] says that
    from program counter [p] with stack [st], memory [mm] and world [w], the
    frame needs exactly [need] units of gas, ends as [r] when it has them, and
    out of gas when it has fewer.  One lemma per instruction turns the claim
    about [p] into the claim about the next one. *)

Section Runs.
Context {S : Type} `{StateDB S} `{Crypto} `{Bn256}.

(** What [execute] makes of the outcome of a frame. *)
Definition seen (o : outcome S (list byte)) : exres S :=
  match o with
  | Done ret m => Ran (mkResult ret (gas m) None) (world m)
  | Fail ErrReverted ret m => Ran (mkResult ret (gas m) (Some ErrReverted)) (world m)
  | Fail e _ m => Ran (mkResult [] 0 (Some e)) (world m)
  | Crash => Crashed
  | Diverge => NoFuel
  end.

(** What instructions other than calls and creations do to the world. *)
Inductive wrote : option S -> option S -> Prop :=
  | W_nothing w : wrote w w
  | W_storage s a k v w : wrote (Some (SetStorage s a k v)) w -> wrote (Some s) w
  | W_log s l w : wrote (Some (AddLog s l)) w -> wrote (Some s) w.

(** Out of gas, with the writes until then. *)
Definition outOfGas (w : option S) (x : exres S) : Prop :=
  exists w', wrote w w' /\ x = Ran (mkResult [] 0 (Some ErrOutOfGas)) w'.

(** Fuel above the gas is enough; with less the run may also stop for want of it. *)
Definition runs (fr : Frame) (st : list Z) (mm : list byte) (p : Z) (w : option S) (need : Z) (r : Z -> exres S) : Prop :=
  0 <= need /\ forall g k,
    let x := seen (run k fr (mkInterp st mm p g false [] w)) in
    (Z.of_nat k <= Z.max 0 g /\ x = NoFuel) \/ (if need <=? g then x = r (g - need) else outOfGas w x).

Lemma runs_execute code input ctx depth w need r :
  runs (mkFrame code input (analyseJumpdests code) ctx depth) [] [] 0 w need r ->
  forall g k,
    (Z.of_nat k <= Z.max 0 g /\ execute k code input g ctx depth w = NoFuel)
    \/ (if need <=? g then execute k code input g ctx depth w = r (g - need)
        else outOfGas w (execute k code input g ctx depth w)).
Proof. intros [_ Hr] g k. exact (Hr g k). Qed.

Lemma runs_Run code input ctx w need r g :
  runs (mkFrame code input (analyseJumpdests code) ctx 0) [] [] 0 w need r -> 0 <= g ->
  if need <=? g then Run code input g ctx w = r (g - need) else outOfGas w (Run code input g ctx w).
Proof.
  intros Hr Hg. unfold Run. destruct (runs_execute _ _ _ _ _ _ _ Hr g (fuelFor g)) as [[Hk _]|Hx]; [|exact Hx].
  unfold fuelFor in Hk. lia.
Qed.

(** One step that costs [c]: it ends out of gas, or goes on with [c] less. *)
Lemma runs_step fr st mm p w b c st' mm' p' w' need r :
  f_code fr !! Z.to_nat p = Some b -> 0 < c ->
  (forall exe g, g < c -> exists ret m, world m = w /\ step exe fr b (mkInterp st mm p g false [] w) = Fail ErrOutOfGas ret m) ->
  (forall exe g, c <= g -> step exe fr b (mkInterp st mm p g false [] w) = Done None (mkInterp st' mm' p' (g - c) false [] w')) ->
  (forall x, wrote w' x -> wrote w x) ->
  runs fr st' mm' p' w' need r -> runs fr st mm p w (c + need) r.
Proof.
  intros Hb Hc Hout Hgo Hw [Hn Hr]. split; [lia|]. intros g k. destruct k as [|k]; [left; split; [lia|done]|].
  cbn [run Vm.pc]. rewrite Hb. unfold M_bind. destruct (decide (c <= g)) as [Hle|Hlt].
  - rewrite Hgo by done. destruct (Hr (g - c) k) as [[Hk Hx]|Hx].
    + left. split; [lia|exact Hx].
    + right. replace (c + need <=? g) with (need <=? g - c) by (destruct (Z.leb_spec need (g - c)), (Z.leb_spec (c + need) g); lia).
      replace (g - (c + need)) with (g - c - need) by lia.
      destruct (need <=? g - c); [exact Hx|]. destruct Hx as (x & Hx & E). exists x. auto.
  - right. destruct (Hout (execute_with (run k)) g) as (ret & m & <- & E); [lia|]. rewrite E.
    destruct (Z.leb_spec (c + need) g); [lia|]. exists (world m). split; [constructor|done].
Qed.

(** A step that ends the frame, after [c] units of gas. *)
Lemma runs_end fr st mm p w b c o :
  f_code fr !! Z.to_nat p = Some b -> 0 <= c ->
  (forall exe g, g < c -> exists ret m, world m = w /\ step exe fr b (mkInterp st mm p g false [] w) = Fail ErrOutOfGas ret m) ->
  (forall exe g, c <= g -> seen (match step exe fr b (mkInterp st mm p g false [] w) with
     | Done (Some ret) m => Done ret m
     | Done None m => Diverge
     | Fail e ret m => Fail e ret m
     | Crash => Crash
     | Diverge => Diverge
     end) = o (g - c) /\ o (g - c) <> NoFuel) ->
  runs fr st mm p w c o.
Proof.
  intros Hb Hc Hout Hgo. split; [done|]. intros g k. destruct k as [|k]; [left; split; [lia|done]|]. right.
  cbn [run Vm.pc]. rewrite Hb. unfold M_bind. destruct (Z.leb_spec c g) as [Hle|Hlt].
  - destruct (Hgo (execute_with (run k)) g Hle) as [E Hn].
    destruct (step _ _ _ _) as [[ret|] m|e ret m| |]; try exact E. cbn in E. by rewrite <- E in Hn.
  - destruct (Hout (execute_with (run k)) g) as (ret & m & <- & E); [lia|]. rewrite E. exists (world m). split; [constructor|done].
Qed.

#[local] Ltac gone := do 2 eexists; split; [|reflexivity]; (reflexivity || assumption).

(** ** Instructions *)

Lemma useGas_lt cost (m : interp S) : gas m < cost -> useGas cost m = Fail ErrOutOfGas [] (with_gas 0 m).
Proof. intros Hg. unfold useGas. by rewrite (proj2 (Z.ltb_lt _ _) Hg). Qed.

Lemma useGas_ge cost (m : interp S) : cost <= gas m -> useGas cost m = Done tt (with_gas (gas m - cost) m).
Proof. intros Hg. unfold useGas. by rewrite (proj2 (Z.ltb_ge _ _) Hg). Qed.

Lemma push_ok v (m : interp S) : len (stack m) < maxStack -> push v m = Done tt (with_stack (wrap v :: stack m) m).
Proof.
  intros Hl. unfold push, M_bind, gets, stack_push. by rewrite (proj2 (Z.leb_gt _ _) Hl).
Qed.

(** The start of an instruction whose static cost is [c], in both cases. *)
#[local] Ltac icbn := cbv beta iota delta [with_stack with_mem with_pc with_gas with_jumped with_world stack mem pc gas jumped returnData world].
#[local] Ltac begin_at c := intros exe g Hg; unfold step; match goal with Hd : decode _ = _ |- _ => rewrite Hd end;
  cbn [gasCost]; unfold M_bind at 1.
#[local] Ltac out_at c := begin_at c; rewrite (useGas_lt c) by (cbn; lia); gone.
#[local] Ltac in_at c := begin_at c; rewrite (useGas_ge c) by (cbn; lia); icbn.

Context (fr : Frame) (mm : list byte) (p : Z) (w : option S) (b : byte) (need : Z) (r : Z -> exres S).
Hypothesis at_p : f_code fr !! Z.to_nat p = Some b.
Hypothesis p_range : 0 <= p < 2 ^ 32.

Lemma be2z_word bs : len bs <= 32 -> is_word (be2z bs).
Proof.
  intros Hl. pose proof (be2z_range bs). assert (256 ^ len bs <= 256 ^ 32) by (apply Z.pow_le_mono_r; lia).
  change (256 ^ 32) with tt256 in *. unfold is_word. lia.
Qed.

Lemma run_PUSH st n bs :
  decode b = PUSH n -> 1 <= n <= 32 -> len st < maxStack ->
  take (Z.to_nat n) (drop (Z.to_nat (p + 1)) (f_code fr)) = bs -> len bs = n ->
  runs fr (be2z bs :: st) mm (p + 1 + n) w need r -> runs fr st mm p w (3 + need) r.
Proof.
  intros Hd Hn Hl Hbs Hlen. apply (runs_step fr st mm p w b 3 _ _ _ _ need r at_p); [lia|out_at 3| |auto].
  in_at 3. unfold doPush, M_bind, gets, modify. icbn. rewrite push_ok by (cbn; lia). icbn.
  rewrite !(u64_small (p + 1)), u64_small by lia. unfold padded. rewrite Hbs, Hlen, Z.sub_diag. unfold zeros. cbn [Z.to_nat replicate].
  by rewrite app_nil_r, wrap_small by (apply be2z_word; lia).
Qed.

Lemma run_PUSH1 st x :
  take 2 (drop (Z.to_nat p) (f_code fr)) = [x60; x] -> len st < maxStack ->
  runs fr (b2z x :: st) mm (p + 2) w need r -> runs fr st mm p w (3 + need) r.
Proof.
  intros Hseg Hl Hr. assert (b = x60) as Hb.
  { assert (take 2 (drop (Z.to_nat p) (f_code fr)) !! O = Some x60) as Hi by (by rewrite Hseg).
    apply lookup_take_Some in Hi as [Hi _]. rewrite lookup_drop, Nat.add_0_r in Hi. congruence. }
  apply (run_PUSH st 1 [x]); [by rewrite Hb|lia|done| |done|].
  - replace (Z.to_nat (p + 1)) with (Z.to_nat p + 1)%nat by lia. rewrite <- drop_drop. change (Z.to_nat 1) with 1%nat.
    destruct (drop (Z.to_nat p) (f_code fr)) as [|? [|? l]]; try done. cbn in *. congruence.
  - replace (p + 1 + 1) with (p + 2) by lia. exact Hr.
Qed.

(** What [step] does after the opcode switch. *)
Definition advance (x : option (list byte)) : M S (option (list byte)) :=
  match x with
  | Some ret => mret (Some ret)
  | None => M_bind (gets jumped) (fun j : bool =>
      if j then M_bind (modify (with_jumped false)) (fun _ => mret None) else M_bind incPc (fun _ => mret None))
  end.

Lemma step_exec o exe m :
  decode b = o -> match o with STOP | PUSH _ | DUP _ | SWAP _ => False | _ => True end ->
  step exe fr b m = M_bind (useGas (gasCost o)) (fun _ => M_bind (exec exe fr o) advance) m.
Proof. intros Hd Ho. unfold step. rewrite Hd. by destruct o. Qed.

(** An opcode of the switch that neither jumps nor ends: [e] is what it costs beyond the table. *)
Lemma run_exec o e st st' mm' w' :
  decode b = o -> match o with STOP | PUSH _ | DUP _ | SWAP _ => False | _ => True end ->
  0 <= gasCost o -> 0 <= e -> 0 < gasCost o + e ->
  (forall exe g, 0 <= g < e -> exists ret m, world m = w /\ exec exe fr o (mkInterp st mm p g false [] w) = Fail ErrOutOfGas ret m) ->
  (forall exe g, e <= g -> exec exe fr o (mkInterp st mm p g false [] w) = Done None (mkInterp st' mm' p (g - e) false [] w')) ->
  (forall x, wrote w' x -> wrote w x) ->
  runs fr st' mm' (p + 1) w' need r -> runs fr st mm p w (gasCost o + e + need) r.
Proof.
  intros Hd Ho Hc He Hpos Hout Hgo Hw. pose proof (u64_small (p + 1) ltac:(lia)) as Hp.
  apply (runs_step fr st mm p w b (gasCost o + e) _ _ _ _ need r at_p); [done| | |exact Hw].
  - intros exe g Hg. rewrite (step_exec o) by done. unfold M_bind at 1. destruct (decide (g < gasCost o)).
    + rewrite useGas_lt by done. gone.
    + rewrite useGas_ge by (cbn; lia). icbn. destruct (Hout exe (g - gasCost o)) as (ret & m & ? & E); [lia|].
      unfold M_bind at 1. icbn. rewrite E. gone.
  - intros exe g Hg. rewrite (step_exec o) by done. unfold M_bind at 1. rewrite useGas_ge by (cbn; lia). icbn.
    unfold M_bind at 1. icbn. rewrite (Hgo exe (g - gasCost o)) by lia. unfold advance, M_bind, gets, incPc, modify, mret. icbn.
    rewrite Hp. do 2 f_equal. lia.
Qed.

(** One that costs what the table says. *)
Lemma run_plain o st st' mm' :
  decode b = o -> match o with STOP | PUSH _ | DUP _ | SWAP _ => False | _ => True end -> 0 < gasCost o ->
  (forall exe g, exec exe fr o (mkInterp st mm p g false [] w) = Done None (mkInterp st' mm' p g false [] w)) ->
  runs fr st' mm' (p + 1) w need r -> runs fr st mm p w (gasCost o + need) r.
Proof.
  intros Hd Ho Hc Hgo. rewrite <- (Z.add_0_r (gasCost o)). apply (run_exec o 0); try done; try lia.
  intros exe g _. by rewrite Hgo, Z.sub_0_r.
Qed.

#[local] Ltac steps := unfold cont, exec_arith, exec_memory, exec_state, exec_env, exec_copy, binop, pop2, pop, M_bind, gets, lift, modify, mret;
  icbn; cbn [stack_pop]; icbn.

Lemma run_binop st o x y :
  decode b = o -> o = ADD \/ o = SUB \/ o = GT \/ o = EQ \/ o = SHR -> len st < maxStack ->
  runs fr (wrap (binop_word o x y) :: st) mm (p + 1) w need r -> runs fr (x :: y :: st) mm p w (3 + need) r.
Proof.
  intros Hd Ho Hl. assert (gasCost o = 3) as <- by (destruct Ho as [->|[->|[->|[->| ->]]]]; done).
  apply (run_plain o); [done|destruct Ho as [->|[->|[->|[->| ->]]]]; done..|]. intros exe g.
  destruct Ho as [->|[->|[->|[->| ->]]]]; cbn [exec]; steps; rewrite push_ok by (cbn; lia); icbn; by rewrite wrap_wrap.
Qed.

Lemma run_ADD st x y : decode b = ADD -> len st < maxStack ->
  runs fr (wrap (binop_word ADD x y) :: st) mm (p + 1) w need r -> runs fr (x :: y :: st) mm p w (3 + need) r.
Proof. intros Hd. apply (run_binop st ADD); tauto. Qed.

Lemma run_SUB st x y : decode b = SUB -> len st < maxStack ->
  runs fr (wrap (binop_word SUB x y) :: st) mm (p + 1) w need r -> runs fr (x :: y :: st) mm p w (3 + need) r.
Proof. intros Hd. apply (run_binop st SUB); tauto. Qed.

Lemma run_GT st x y : decode b = GT -> len st < maxStack ->
  runs fr (wrap (binop_word GT x y) :: st) mm (p + 1) w need r -> runs fr (x :: y :: st) mm p w (3 + need) r.
Proof. intros Hd. apply (run_binop st GT); tauto. Qed.

Lemma run_EQ st x y : decode b = EQ -> len st < maxStack ->
  runs fr (wrap (binop_word EQ x y) :: st) mm (p + 1) w need r -> runs fr (x :: y :: st) mm p w (3 + need) r.
Proof. intros Hd. apply (run_binop st EQ); tauto. Qed.

Lemma run_SHR st x y : decode b = SHR -> len st < maxStack ->
  runs fr (wrap (binop_word SHR x y) :: st) mm (p + 1) w need r -> runs fr (x :: y :: st) mm p w (3 + need) r.
Proof. intros Hd. apply (run_binop st SHR); tauto. Qed.

Lemma run_POP st x : decode b = POP -> runs fr st mm (p + 1) w need r -> runs fr (x :: st) mm p w (2 + need) r.
Proof. intros Hd. by apply (run_plain POP). Qed.

Lemma run_JUMPDEST st : decode b = JUMPDEST -> runs fr st mm (p + 1) w need r -> runs fr st mm p w (1 + need) r.
Proof. intros Hd. by apply (run_plain JUMPDEST). Qed.

Lemma run_CALLER st :
  decode b = CALLER -> len st < maxStack ->
  runs fr (be2z (abytes (c_Caller (f_ctx fr))) :: st) mm (p + 1) w need r -> runs fr st mm p w (2 + need) r.
Proof.
  intros Hd Hl. apply (run_plain CALLER); try done. intros exe g. cbn [exec]. steps. rewrite push_ok by done. icbn.
  rewrite wrap_small; [done|]. apply be2z_word. rewrite len_abytes. unfold AddressLength. lia.
Qed.

(** The 32 bytes of the input from [off] on, zeros past its end. *)
Definition inputWord (input : list byte) (off : Z) : Z := be2z (padded input off 32).

Lemma getData_padded data off : 0 <= off < 2 ^ 63 -> getData data off 32 = Some (padded data off 32).
Proof.
  intros Ho. unfold getData. rewrite (proj2 (IsUint64_true off)), Uint64_small by lia. cbn [Z.eqb orb negb].
  destruct (Z.leb_spec (len data) off).
  - unfold padded. rewrite drop_ge by (unfold len in *; lia). by rewrite take_nil.
  - rewrite u64_small by lia. destruct (Z.ltb_spec (off + 32) off); [lia|done].
Qed.

Lemma run_CALLDATALOAD st off :
  decode b = CALLDATALOAD -> 0 <= off < 2 ^ 63 -> len st < maxStack ->
  runs fr (inputWord (f_input fr) off :: st) mm (p + 1) w need r -> runs fr (off :: st) mm p w (3 + need) r.
Proof.
  intros Hd Ho Hl. apply (run_plain CALLDATALOAD); try done. intros exe g. cbn [exec]. steps.
  rewrite getData_padded by done. cbn [or_panic]. rewrite push_ok by done. icbn.
  rewrite wrap_small; [done|]. apply be2z_word. rewrite len_padded; lia.
Qed.

Lemma run_DUP1 st x :
  decode b = DUP 1 -> 1 + len st < maxStack -> is_word x ->
  runs fr (x :: x :: st) mm (p + 1) w need r -> runs fr (x :: st) mm p w (3 + need) r.
Proof.
  intros Hd Hl Hx. apply (runs_step fr (x :: st) mm p w b 3 _ _ _ _ need r at_p); [lia|out_at 3| |auto].
  in_at 3. unfold liftStack, stack_dup, stack_peek, stack_push, incPc, M_bind, gets, lift, modify, mret. icbn.
  pose proof (len_nonneg st). rewrite len_cons.
  rewrite (proj2 (Z.leb_gt (1 + len st) (1 - 1))) by lia. cbn [Z.sub Z.to_nat lookup list_lookup or_panic res_bind Z.add Z.opp Z.pos_sub].
  change (Z.to_nat (1 - 1)) with O. cbn [lookup list_lookup or_panic res_bind].
  rewrite (proj2 (Z.leb_gt maxStack (1 + len st))) by lia. icbn. by rewrite wrap_small, u64_small by (done || lia).
Qed.

Lemma run_SWAP1 st x y :
  decode b = SWAP 1 -> runs fr (y :: x :: st) mm (p + 1) w need r -> runs fr (x :: y :: st) mm p w (3 + need) r.
Proof.
  intros Hd. apply (runs_step fr (x :: y :: st) mm p w b 3 _ _ _ _ need r at_p); [lia|out_at 3| |auto].
  in_at 3. unfold liftStack, stack_swap, incPc, M_bind, gets, lift, modify, mret. icbn.
  pose proof (len_nonneg st). rewrite !len_cons. rewrite (proj2 (Z.leb_gt (1 + (1 + len st)) 1)) by lia.
  change (Z.to_nat 1) with 1%nat. cbn [lookup list_lookup or_panic res_bind insert list_insert]. icbn.
  by rewrite u64_small by lia.
Qed.

(** ** Instructions that touch memory *)

(** [e] is the price of having [off + size] bytes of memory. *)
Definition grows (mm : list byte) (off size e : Z) : Prop :=
  0 <= off /\ 0 < size /\ off + size <= maxMemBytes /\ expansionGas mm off size = Some e.

Lemma grows_nonneg mm' off size e : grows mm' off size e -> 0 <= e.
Proof.
  intros (_ & Hs & _ & He). revert He. unfold expansionGas. rewrite (proj2 (Z.eqb_neq size 0)) by lia.
  destruct (_ <? _); [done|]. destruct (_ <? _); [done|]. destruct (_ <=? _); intros [= <-]; [done|apply u64_range].
Qed.

Lemma chargeMem_run off size e (m : interp S) :
  grows (mem m) off size e ->
  chargeMem off size m =
    if gas m <? e then Fail ErrOutOfGas [] (with_gas 0 m)
    else Done tt (with_mem (resize (mem m) (off + size)) (with_gas (gas m - e) m)).
Proof.
  intros (Ho & Hs & Hm & He). unfold maxMemBytes in Hm. unfold chargeMem.
  rewrite (proj2 (Z.eqb_neq (Z.sgn size) 0)) by (destruct size; cbn; lia).
  rewrite !(proj2 (IsUint64_true _)), !Uint64_small by lia. cbn [negb orb]. unfold M_bind, gets. rewrite He.
  unfold useGas. destruct (gas m <? e); [done|]. unfold modify. cbn [mem with_gas]. by rewrite u64_small by lia.
Qed.

Lemma run_MSTORE st off val e mm' :
  decode b = MSTORE -> grows mm off 32 e -> mem_set32 (resize mm (off + 32)) off val = Some mm' ->
  runs fr st mm' (p + 1) w need r -> runs fr (off :: val :: st) mm p w (3 + e + need) r.
Proof.
  intros Hd Hg Hs. pose proof (grows_nonneg _ _ _ _ Hg). assert (0 <= off < 2 ^ 64).
  { destruct Hg as (? & ? & Hm & _). unfold maxMemBytes in Hm. lia. }
  apply (run_exec MSTORE); [done|done|done|done|cbn; lia| | |auto]; intros exe g He; cbn [exec]; steps;
    rewrite (chargeMem_run off 32 e) by done; cbn [gas with_stack].
  - rewrite (proj2 (Z.ltb_lt g e)) by lia. gone.
  - rewrite (proj2 (Z.ltb_ge g e)) by lia. unfold memSet32, M_bind, gets, lift, modify. cbn [mem with_stack with_gas with_mem].
    rewrite Uint64_small, Hs by done. done.
Qed.

Lemma run_SHA3 st off size e data :
  decode b = SHA3 -> grows mm off size e -> mem_get (resize mm (off + size)) off size = Some data -> len st < maxStack ->
  runs fr (be2z (abytes (Keccak256 [data])) :: st) (resize mm (off + size)) (p + 1) w need r ->
  runs fr (off :: size :: st) mm p w (30 + (e + u64 (6 * toWordSize size)) + need) r.
Proof.
  intros Hd Hg Hs Hl. pose proof (grows_nonneg _ _ _ _ Hg). pose proof (u64_range (6 * toWordSize size)).
  assert (0 <= off < 2 ^ 64 /\ 0 <= size < 2 ^ 64) as [? ?].
  { destruct Hg as (? & ? & Hm & _). unfold maxMemBytes in Hm. lia. }
  apply (run_exec SHA3); [done|done|done|lia|change (gasCost SHA3) with 30; lia| | |auto]; intros exe g He; cbn [exec]; steps;
    rewrite (chargeMem_run off size e) by done; cbn [gas with_stack]; rewrite Uint64_small by done; change Keccak256WordGas with 6.
  - destruct (Z.ltb_spec g e); [gone|]. rewrite useGas_lt by (icbn; lia). gone.
  - rewrite (proj2 (Z.ltb_ge g e)), useGas_ge by (icbn; lia). unfold memGet, M_bind, gets, lift. cbn [mem with_stack with_gas with_mem].
    rewrite !Uint64_small, Hs by done. cbn [or_panic]. rewrite push_ok by done. cbn. unfold with_stack. cbn. rewrite wrap_small.
    2: { apply be2z_word. rewrite len_abytes. unfold HashLength. lia. }
    do 2 f_equal. lia.
Qed.

(** ** Storage and logs *)

Lemma run_SLOAD st key s :
  decode b = SLOAD -> w = Some s -> len st < maxStack ->
  runs fr (be2z (abytes (GetStorage s (c_Address (f_ctx fr)) (wordToHash key))) :: st) mm (p + 1) w need r ->
  runs fr (key :: st) mm p w (800 + need) r.
Proof.
  intros Hd Hw Hl. apply (run_plain SLOAD); try done. intros exe g. rewrite Hw. cbn [exec]. steps. unfold requireState. icbn.
  rewrite push_ok by done. icbn. rewrite wrap_small; [done|]. apply be2z_word. rewrite len_abytes. unfold HashLength. lia.
Qed.

Lemma sstoreGas_pos cur next : 0 < sstoreGas cur next.
Proof. unfold sstoreGas, SstoreNoopGas, SstoreSetGas, SstoreResetGas. by destruct (array_eqb cur next), (Hash_IsZero cur). Qed.

Lemma run_SSTORE st key val s :
  decode b = SSTORE -> w = Some s -> c_Static (f_ctx fr) = false ->
  runs fr st mm (p + 1) (Some (SetStorage s (c_Address (f_ctx fr)) (wordToHash key) (wordToHash val))) need r ->
  runs fr (key :: val :: st) mm p w (sstoreGas (GetStorage s (c_Address (f_ctx fr)) (wordToHash key)) (wordToHash val) + need) r.
Proof.
  intros Hd Hw Hst. set (e := sstoreGas _ _). pose proof (sstoreGas_pos (GetStorage s (c_Address (f_ctx fr)) (wordToHash key)) (wordToHash val)).
  rewrite <- (Z.add_0_l e). apply (run_exec SSTORE); [done|done|done|subst e; lia|subst e; cbn; lia| | |intros x; rewrite Hw; apply W_storage]; intros exe g He; rewrite Hw; cbn [exec];
    steps; rewrite Hst; steps; unfold requireState; icbn; fold e.
  - rewrite useGas_lt by (icbn; lia). gone.
  - rewrite useGas_ge by (icbn; lia). done.
Qed.

Lemma run_LOG3 st off size t1 t2 t3 e s data :
  decode b = LOG 3 -> w = Some s -> c_Static (f_ctx fr) = false -> grows mm off size e ->
  mem_get (resize mm (off + size)) off size = Some data ->
  runs fr st (resize mm (off + size)) (p + 1)
    (Some (AddLog s (mkLog (c_Address (f_ctx fr)) [wordToHash t1; wordToHash t2; wordToHash t3] data))) need r ->
  runs fr (off :: size :: t1 :: t2 :: t3 :: st) mm p w (e + 1500 + u64 (8 * size) + need) r.
Proof.
  intros Hd Hw Hst Hg Hs. pose proof (grows_nonneg _ _ _ _ Hg). pose proof (u64_range (8 * size)).
  assert (0 <= off < 2 ^ 64 /\ 0 <= size < 2 ^ 64) as [? ?].
  { destruct Hg as (? & ? & Hm & _). unfold maxMemBytes in Hm. lia. }
  rewrite <- (Z.add_0_l (e + 1500 + u64 (8 * size))).
  apply (run_exec (LOG 3)); [done|done|done|lia|cbn; lia| | |intros x; rewrite Hw; apply W_log]; intros exe g He; rewrite Hw; cbn [exec]; unfold cont, opLog;
    rewrite Hst; change (Z.to_nat 3) with 3%nat; cbn [popTopics]; steps;
    rewrite (chargeMem_run off size e) by done; cbn [gas with_stack]; change (LogGas + 3 * LogTopicGas) with 1500; change LogDataGas with 8.
  - destruct (Z.ltb_spec g e); [gone|]. destruct (decide (g - e < 1500)); [rewrite useGas_lt by (icbn; lia); gone|].
    rewrite useGas_ge by (icbn; lia). cbn [with_gas with_mem gas]. rewrite Uint64_small by done. rewrite useGas_lt by (icbn; lia). gone.
  - rewrite (proj2 (Z.ltb_ge g e)), (useGas_ge 1500), !Uint64_small by (done || (icbn; lia)). rewrite useGas_ge by (icbn; lia).
    unfold requireState, memGet, putState, M_bind, gets, lift, modify. cbn [world mem with_stack with_gas with_mem]. rewrite Hs. cbn.
    unfold with_world. cbn. do 2 f_equal. lia.
Qed.

(** An opcode that the table gives for free still ends a frame whose gas is below zero. *)
Lemma free_out o st exe g :
  decode b = o -> match o with SSTORE | RETURN | REVERT => True | _ => False end -> g < 0 ->
  exists ret m, world m = w /\ step exe fr b (mkInterp st mm p g false [] w) = Fail ErrOutOfGas ret m.
Proof.
  intros Hd Ho Hg. rewrite (step_exec o) by (done || by destruct o). unfold M_bind at 1.
  rewrite useGas_lt by (destruct o; done || (icbn; cbn; lia)). gone.
Qed.

Lemma run_SSTORE_static st :
  decode b = SSTORE -> c_Static (f_ctx fr) = true ->
  runs fr st mm p w 0 (fun _ => Ran (mkResult [] 0 (Some ErrStaticStateChange)) w).
Proof.
  intros Hd Hst. apply (runs_end fr st mm p w b 0 _ at_p); [lia|intros; by apply (free_out SSTORE)|]. intros exe g Hg.
  rewrite (step_exec SSTORE) by done. unfold M_bind at 1. rewrite useGas_ge by (icbn; done).
  cbn [exec]. unfold cont, exec_state. rewrite Hst. done.
Qed.

(** CODECOPY of bytes that are there. *)
Lemma run_CODECOPY st memOff off size e mm' :
  decode b = CODECOPY -> grows mm memOff size e -> 0 <= off < 2 ^ 32 -> size <= 2 ^ 32 ->
  mem_set (resize mm (memOff + size)) memOff (padded (f_code fr) off size) = Some mm' -> off < len (f_code fr) ->
  runs fr st mm' (p + 1) w need r ->
  runs fr (memOff :: off :: size :: st) mm p w (3 + (e + u64 (3 * toWordSize size)) + need) r.
Proof.
  intros Hd Hg Ho Hsz Hs Hlen. pose proof (grows_nonneg _ _ _ _ Hg). pose proof (u64_range (3 * toWordSize size)).
  assert (0 <= memOff < 2 ^ 64 /\ 0 < size < 2 ^ 64) as [? ?].
  { destruct Hg as (? & ? & Hm & _). unfold maxMemBytes in Hm. lia. }
  assert (getData (f_code fr) off (Uint64 size) = Some (padded (f_code fr) off size)) as Hdata.
  { unfold getData. rewrite (proj2 (IsUint64_true off)), !Uint64_small, (proj2 (Z.eqb_neq size 0)) by lia. cbn [orb negb].
    rewrite (proj2 (Z.leb_gt _ _)), u64_small by lia. by rewrite (proj2 (Z.ltb_ge _ _)) by lia. }
  apply (run_exec CODECOPY); [done|done|done|lia|cbn [gasCost]; lia| | |auto]; intros exe g He; cbn [exec]; steps;
    rewrite (chargeMem_run memOff size e) by done; cbn [gas with_stack].
  - destruct (Z.ltb_spec g e); [gone|]. rewrite (Uint64_small size) by lia. rewrite useGas_lt by (icbn; lia). gone.
  - rewrite (proj2 (Z.ltb_ge g e)), Hdata, !Uint64_small, useGas_ge by (done || (icbn; lia)).
    unfold memSet, M_bind, gets, lift, modify. cbn [or_panic mem with_stack with_gas with_mem]. rewrite Hs. cbn.
    unfold with_mem. cbn. do 2 f_equal. lia.
Qed.

(** ** Jumps and ends *)

Lemma run_JUMPI_next st dest :
  decode b = JUMPI -> runs fr st mm (p + 1) w need r -> runs fr (dest :: 0 :: st) mm p w (10 + need) r.
Proof. intros Hd. by apply (run_plain JUMPI). Qed.

Lemma run_JUMPI st dest cond :
  decode b = JUMPI -> cond <> 0 -> 0 <= dest < 2 ^ 32 -> f_jumps fr !! Z.to_nat dest = Some true ->
  runs fr st mm dest w need r -> runs fr (dest :: cond :: st) mm p w (10 + need) r.
Proof.
  intros Hd Hc Hdest Hj. apply (runs_step fr (dest :: cond :: st) mm p w b 10 _ _ _ _ need r at_p); [lia| | |auto];
    intros exe g Hg; rewrite (step_exec JUMPI) by done; unfold M_bind at 1.
  - rewrite useGas_lt by (icbn; cbn; lia). gone.
  - rewrite useGas_ge by (icbn; cbn; lia). cbn [exec]. steps.
    rewrite (proj2 (Z.eqb_neq (Z.sgn cond) 0)) by (destruct cond; cbn; lia). cbn [negb]. unfold jump.
    rewrite (proj2 (IsUint64_true dest)), Uint64_small, Hj by lia. cbn [negb default orb].
    pose proof (lookup_lt_Some _ _ _ Hj). rewrite (proj2 (Z.leb_gt (len (f_jumps fr)) dest)) by (unfold len; lia). cbn [orb].
    steps. unfold advance. steps. done.
Qed.

Lemma run_RETURN st off size e data :
  decode b = RETURN -> grows mm off size e -> mem_get (resize mm (off + size)) off size = Some data ->
  runs fr (off :: size :: st) mm p w e (fun g => Ran (mkResult data g None) w).
Proof.
  intros Hd Hg Hs. pose proof (grows_nonneg _ _ _ _ Hg). assert (0 <= off < 2 ^ 64 /\ 0 <= size < 2 ^ 64) as [? ?].
  { destruct Hg as (? & ? & Hm & _). unfold maxMemBytes in Hm. lia. }
  apply (runs_end fr (off :: size :: st) mm p w b e _ at_p); [done| |]; intros exe g He;
    [destruct (decide (g < 0)); [by apply (free_out RETURN)|]|];
    rewrite (step_exec RETURN) by done; unfold M_bind at 1; rewrite useGas_ge by (icbn; cbn; lia); cbn [exec gasCost]; unfold readMem; steps;
    rewrite (chargeMem_run off size e) by done; cbn [gas with_stack with_gas]; rewrite Z.sub_0_r.
  - rewrite (proj2 (Z.ltb_lt g e)) by lia. gone.
  - rewrite (proj2 (Z.ltb_ge g e)) by lia. unfold memGet, M_bind, gets, lift. cbn [mem with_stack with_gas with_mem].
    rewrite !Uint64_small, Hs by done. done.
Qed.

Lemma run_REVERT st :
  decode b = REVERT -> runs fr (0 :: 0 :: st) mm p w 0 (fun g => Ran (mkResult [] g (Some ErrReverted)) w).
Proof.
  intros Hd. apply (runs_end fr (0 :: 0 :: st) mm p w b 0 _ at_p); [lia|intros; by apply (free_out REVERT)|]. intros exe g He.
  rewrite (step_exec REVERT) by done. unfold M_bind at 1. rewrite useGas_ge by (icbn; cbn; lia). done.
Qed.

End Runs.

(** ** The assembled code *)

Definition codeParts : list byte * list byte :=
  Eval vm_compute in
    match done_ (runtimeAsm (replicate 32 xee)) with
    | Ok code => (take 169 code, drop 201 code)
    | _ => ([], [])
    end.

Definition codePre : list byte := Eval vm_compute in codeParts.1.
Definition codePost : list byte := Eval vm_compute in codeParts.2.

(** The event topic is push data between the two. *)
Definition tokenCode (sig : list byte) : list byte := codePre ++ sig ++ codePost.

Lemma thirty_two {A} (l : list A) : length l = 32%nat ->
  exists a0 a1 a2 a3 a4 a5 a6 a7 a8 a9 a10 a11 a12 a13 a14 a15 a16 a17 a18 a19 a20 a21 a22 a23 a24 a25 a26 a27 a28 a29 a30 a31,
    l = [a0; a1; a2; a3; a4; a5; a6; a7; a8; a9; a10; a11; a12; a13; a14; a15; a16; a17; a18; a19; a20; a21; a22; a23; a24;
         a25; a26; a27; a28; a29; a30; a31].
Proof.
  intros Hl. do 32 (destruct l as [|? l]; [done|]). destruct l; [|done]. repeat eexists.
Qed.

Lemma assembled sig : length sig = 32%nat -> done_ (runtimeAsm sig) = Ok (tokenCode sig).
Proof.
  intros Hl. destruct (thirty_two sig Hl) as
    (? & ? & ? & ? & ? & ? & ? & ? & ? & ? & ? & ? & ? & ? & ? & ? & ? & ? & ? & ? & ? & ? & ? & ? & ? & ? & ? & ? & ? & ? & ? & ? & ->).
  vm_compute. reflexivity.
Qed.

Lemma revert_dest sig : length sig = 32%nat -> analyseJumpdests (tokenCode sig) !! 216%nat = Some true.
Proof.
  intros Hl. destruct (thirty_two sig Hl) as
    (? & ? & ? & ? & ? & ? & ? & ? & ? & ? & ? & ? & ? & ? & ? & ? & ? & ? & ? & ? & ? & ? & ? & ? & ? & ? & ? & ? & ? & ? & ? & ? & ->).
  vm_compute. reflexivity.
Qed.

(** ** Words and storage *)

(** Where the balance of [key] is: keccak256(key ‖ 0). *)
Definition slotKey `{Crypto} (key : Z) : Hash := Keccak256 [be_fixed 32 key ++ be_fixed 32 0].

Lemma wordToHash_be2z (h : Hash) : wordToHash (be2z (abytes h)) = h.
Proof.
  unfold wordToHash. pose proof (be_fixed_be2z (abytes h)) as E. rewrite abytes_length in E. unfold HashLength in *.
  rewrite E. apply array_of_abytes.
Qed.

Lemma be2z_wordToHash v : is_word v -> be2z (abytes (wordToHash v)) = v.
Proof.
  intros Hv. unfold wordToHash. rewrite abytes_array_of by apply length_be_fixed. rewrite be2z_be_fixed. by apply Z.mod_small.
Qed.

Lemma BalanceSlot_slotKey `{Crypto} a : BalanceSlot a = slotKey (be2z (abytes a)).
Proof.
  unfold BalanceSlot, slotKey. do 2 f_equal. rewrite app_assoc. f_equal.
  rewrite <- (be_fixed_be2z (zeros 12 ++ abytes a)). f_equal.
  by rewrite length_app, abytes_length.
Qed.

(** ** Memory of two words *)

Lemma mem_set32_first mm v : len mm = 64 -> mem_set32 (resize mm (0 + 32)) 0 v = Some (be_fixed 32 v ++ drop 32 mm).
Proof.
  intros Hl. unfold resize. rewrite (proj2 (Z.ltb_ge _ _)) by lia. unfold mem_set32, mem_copy.
  change (u64 (0 + 32)) with 32. by rewrite Hl.
Qed.

Lemma mem_set32_second a b v :
  len b = 32 -> mem_set32 (resize (be_fixed 32 a ++ b) (32 + 32)) 32 v = Some (be_fixed 32 a ++ be_fixed 32 v).
Proof.
  intros Hb. assert (len (be_fixed 32 a ++ b) = 64) as Hl by (rewrite len_app, len_be_fixed; lia).
  unfold resize. rewrite (proj2 (Z.ltb_ge _ _)) by lia. unfold mem_set32, mem_copy. rewrite Hl.
  change (u64 (32 + 32)) with 64. change (Z.to_nat 32) with 32%nat. change (Z.to_nat 64) with 64%nat. cbn [Z.leb andb Z.compare].
  rewrite take_app_length' by (symmetry; apply length_be_fixed). do 2 f_equal. rewrite drop_ge; [apply app_nil_r|].
  unfold len in Hl. lia.
Qed.

(** ** Blocks *)

Lemma seg_lookup {A} (l seg : list A) p n i (x : A) :
  take n (drop p l) = seg -> seg !! i = Some x -> l !! (p + i)%nat = Some x.
Proof. intros <- Hi. apply lookup_take_Some in Hi as [Hi _]. by rewrite lookup_drop in Hi. Qed.

Section Blocks.
Context {S : Type} `{StateDB S} `{Crypto} `{Bn256}.

Lemma runs_need fr st mm p w n n' (r : Z -> exres S) : runs fr st mm p w n r -> n' = n -> runs fr st mm p w n' r.
Proof. by intros ? ->. Qed.

Definition slotSegment : list byte := [x60; x00; x52; x60; x00; x60; x20; x52; x60; x40; x60; x00; x20].

(** [mapSlot]: the first time memory has to grow to two words. *)
Lemma run_mapSlot fr st mm p w key e need (r : Z -> exres S) :
  take 13 (drop (Z.to_nat p) (f_code fr)) = slotSegment -> 0 <= p < 2 ^ 31 -> len st < 1000 ->
  (mm = [] /\ e = 6) \/ (len mm = 64 /\ e = 0) ->
  runs fr (be2z (abytes (slotKey key)) :: st) (be_fixed 32 key ++ be_fixed 32 0) (p + 13) w need r ->
  runs fr (key :: st) mm p w (63 + e + need) r.
Proof.
  intros Hseg Hp Hst Hmm Hr. pose proof (len_nonneg st).
  assert (forall i b, slotSegment !! i = Some b -> f_code fr !! Z.to_nat (p + Z.of_nat i) = Some b) as Hat.
  { intros i b Hi. replace (Z.to_nat (p + Z.of_nat i)) with (Z.to_nat p + i)%nat by lia. by eapply seg_lookup. }
  assert (forall i n bs, take (Z.to_nat n) (drop i slotSegment) = bs -> (i + Z.to_nat n <= 13)%nat ->
    take (Z.to_nat n) (drop (Z.to_nat (p + Z.of_nat i)) (f_code fr)) = bs) as Hpush.
  { intros i n bs <- Hi. rewrite <- Hseg, skipn_firstn_comm, firstn_firstn, drop_drop. f_equal; [lia|]. f_equal. lia. }
  set (mm1 := be_fixed 32 key ++ (if decide (mm = []) then [] else drop 32 mm)).
  set (mm2 := be_fixed 32 key ++ be_fixed 32 0) in *.
  assert (runs fr (0 :: 64 :: st) mm2 (p + 12) w (42 + need) r) as R12.
  { apply (runs_need _ _ _ _ _ (30 + (0 + u64 (6 * toWordSize 64)) + need)); [|change (u64 (6 * toWordSize 64)) with 12; lia].
    assert (resize mm2 (0 + 64) = mm2) as E by done.
    apply (run_SHA3 fr mm2 (p + 12) w x20 need r) with (data := mm2); rewrite ?E; try done; try lia.
    - by apply (Hat 12%nat).
    - unfold maxStack. lia.
    - by replace (p + 12 + 1) with (p + 13) by lia. }
  assert (runs fr (64 :: st) mm2 (p + 10) w (3 + (42 + need)) r) as R10.
  { eapply run_PUSH1; [exact (Hat 10%nat x60 eq_refl)|lia|exact (Hpush 10%nat 2 _ eq_refl ltac:(lia))|unfold maxStack; rewrite len_cons; lia|].
    by replace (p + 10 + 2) with (p + 12) by lia. }
  assert (runs fr st mm2 (p + 8) w (3 + (3 + (42 + need))) r) as R8.
  { eapply run_PUSH1; [exact (Hat 8%nat x60 eq_refl)|lia|exact (Hpush 8%nat 2 _ eq_refl ltac:(lia))|unfold maxStack; lia|].
    by replace (p + 8 + 2) with (p + 10) by lia. }
  assert (runs fr (32 :: 0 :: st) mm1 (p + 7) w (3 + (e / 2) + (48 + need)) r) as R7.
  { apply (run_MSTORE fr mm1 (p + 7) w x52 (48 + need) r) with (mm' := mm2); [exact (Hat 7%nat x52 eq_refl)|lia|done| | |].
    - unfold mm1. destruct Hmm as [[-> ->]|[Hl ->]]; [done|]. rewrite decide_False by (intros ->; done).
      unfold grows, expansionGas. rewrite len_app, len_be_fixed. unfold len at 1. rewrite length_drop. unfold len in Hl.
      replace (Z.of_nat 32 + Z.of_nat (length mm - 32)) with 64 by lia. done.
    - unfold mm1, mm2. destruct Hmm as [[-> ->]|[Hl ->]]; [done|]. rewrite decide_False by (intros ->; done).
      apply mem_set32_second. unfold len in *. rewrite length_drop. lia.
    - replace (p + 7 + 1) with (p + 8) by lia. eapply runs_need; [exact R8|lia]. }
  assert (runs fr (0 :: st) mm1 (p + 5) w (3 + (3 + (e / 2) + (48 + need))) r) as R5.
  { eapply run_PUSH1; [exact (Hat 5%nat x60 eq_refl)|lia|exact (Hpush 5%nat 2 _ eq_refl ltac:(lia))|unfold maxStack; rewrite len_cons; lia|].
    by replace (p + 5 + 2) with (p + 7) by lia. }
  assert (runs fr st mm1 (p + 3) w (3 + (3 + (3 + (e / 2) + (48 + need)))) r) as R3.
  { eapply run_PUSH1; [exact (Hat 3%nat x60 eq_refl)|lia|exact (Hpush 3%nat 2 _ eq_refl ltac:(lia))|unfold maxStack; lia|].
    by replace (p + 3 + 2) with (p + 5) by lia. }
  assert (runs fr (0 :: key :: st) mm (p + 2) w (3 + (e / 2) + (57 + e / 2 + need)) r) as R2.
  { apply (run_MSTORE fr mm (p + 2) w x52 (57 + e / 2 + need) r) with (mm' := mm1); [exact (Hat 2%nat x52 eq_refl)|lia|done| | |].
    - destruct Hmm as [[-> ->]|[Hl ->]]; [done|]. unfold grows, expansionGas. by rewrite Hl.
    - unfold mm1. destruct Hmm as [[-> ->]|[Hl ->]]; [by rewrite app_nil_r|]. rewrite decide_False by (intros ->; done).
      by apply mem_set32_first.
    - replace (p + 2 + 1) with (p + 3) by lia. eapply runs_need; [exact R3|lia]. }
  apply (runs_need _ _ _ _ _ (3 + (3 + (e / 2) + (57 + e / 2 + need)))).
  - eapply run_PUSH1; [|lia|rewrite <- (Z.add_0_r p); exact (Hpush 0%nat 2 _ eq_refl ltac:(lia))|unfold maxStack; rewrite len_cons; lia|exact R2].
    rewrite <- (Z.add_0_r p). exact (Hat 0%nat x60 eq_refl).
  - destruct Hmm as [[_ ->]|[_ ->]]; [change (6 / 2) with 3|change (0 / 2) with 0]; lia.
Qed.

End Blocks.

(** ** Code with 32 bytes of push data in its middle *)

Section Parts.
Context {A : Type} (code pre mid post : list A).
Hypothesis code_eq : code = pre ++ mid ++ post.

Lemma parts_pre n b : pre !! n = Some b -> code !! n = Some b.
Proof. intros Hn. rewrite code_eq. by apply lookup_app_l_Some. Qed.

Lemma parts_seg_pre n k seg : Nat.leb (n + k) (length pre) = true -> take k (drop n pre) = seg -> take k (drop n code) = seg.
Proof.
  intros Hle%Nat.leb_le <-. rewrite code_eq, drop_app_le by lia. rewrite take_app_le; [done|]. rewrite length_drop. lia.
Qed.

Hypothesis mid_len : length mid = 32%nat.

Lemma parts_mid : take 32 (drop (length pre) code) = mid.
Proof. rewrite code_eq, drop_app_length' by done. by rewrite take_app_length' by lia. Qed.

Lemma parts_post n b :
  Nat.leb (length pre + 32) n = true -> post !! (n - (length pre + 32))%nat = Some b -> code !! n = Some b.
Proof.
  intros Hle%Nat.leb_le Hn. rewrite code_eq, app_assoc. rewrite lookup_app_r; rewrite length_app, mid_len; [done|lia].
Qed.

Lemma parts_seg_post n k seg :
  Nat.leb (length pre + 32) n = true -> take k (drop (n - (length pre + 32)) post) = seg -> take k (drop n code) = seg.
Proof. intros Hle%Nat.leb_le <-. rewrite code_eq, app_assoc, drop_app_ge; rewrite length_app, mid_len; [done|lia]. Qed.

End Parts.

(** Tactics that read the instruction at a numeric program counter. *)

Ltac norm_pc :=
  match goal with |- runs ?fr ?st ?mm ?p ?w ?n ?r =>
    let v := eval vm_compute in p in change (runs fr st mm v w n r) end.

Ltac vm_at p :=
  let n := eval vm_compute in (Z.to_nat p) in
  lazymatch goal with He : f_code _ = _ ++ ?mid ++ _, Hl : length ?mid = _ |- _ =>
    first [exact (parts_pre _ _ _ _ He n _ eq_refl) | exact (parts_post _ _ _ _ He Hl n _ eq_refl eq_refl)] end.

Ltac vm_seg p :=
  let n := eval vm_compute in (Z.to_nat p) in
  lazymatch goal with He : f_code _ = _ ++ ?mid ++ _, Hl : length ?mid = _ |- _ =>
    first [apply (parts_seg_pre _ _ _ _ He n); reflexivity | apply (parts_seg_post _ _ _ _ He Hl n); reflexivity] end.

Ltac vm_push :=
  match goal with |- runs ?fr ?st ?mm ?p ?w _ ?r =>
    eapply (run_PUSH1 fr mm p w); [vm_at p|lia|vm_seg p|reflexivity|] end;
  match goal with |- context [b2z ?x :: _] => let v := eval vm_compute in (b2z x) in change (b2z x) with v end; norm_pc.

(** PUSH of the bytes [imm]. *)
Ltac vm_pushn k imm :=
  match goal with |- runs ?fr ?st ?mm ?p ?w _ ?r =>
    let v := eval vm_compute in (be2z imm) in
    eapply (run_PUSH fr mm p w _ _ r) with (n := k) (bs := imm);
      [vm_at p|lia|reflexivity|lia|reflexivity|vm_seg (p + 1)|reflexivity|]; change (be2z imm) with v end; norm_pc.

(** [lem] is the lemma of the instruction at the counter; its own side conditions remain. *)
Tactic Notation "vm_op" uconstr(lem) :=
  match goal with |- runs ?fr ?st ?mm ?p ?w _ ?r =>
    eapply lem; [vm_at p|..] end;
  lazymatch goal with
  | |- decode _ = _ => reflexivity
  | |- _ <= _ < _ => first [lia | idtac]
  | |- len _ < maxStack => first [reflexivity | idtac]
  | |- runs _ _ _ _ _ _ _ => norm_pc
  | |- _ => idtac
  end.

(** [mapSlot], with two words of memory in place. *)
Ltac vm_slot :=
  match goal with |- runs ?fr ?st ?mm ?p ?w _ ?r =>
    eapply (run_mapSlot fr _ mm p w _ 0); [vm_seg p|lia|reflexivity|right; split; [by rewrite ?len_app, ?len_be_fixed|reflexivity]|] end; norm_pc.

Lemma mem_get_first a b : len b = 32 -> mem_get (resize (be_fixed 32 a ++ b) (0 + 32)) 0 32 = Some (be_fixed 32 a).
Proof.
  intros Hb. assert (len (be_fixed 32 a ++ b) = 64) as Hl by (rewrite len_app, len_be_fixed; lia).
  unfold resize. rewrite (proj2 (Z.ltb_ge _ _)) by lia. unfold mem_get. rewrite Hl. cbn [Z.eqb Z.leb orb Z.compare].
  change (u64 (0 + 32) <? 0) with false. unfold padded. change (Z.to_nat 0) with O. change (Z.to_nat 32) with 32%nat.
  rewrite drop_0, take_app_length' by (symmetry; apply length_be_fixed). by rewrite len_be_fixed, app_nil_r.
Qed.

Lemma grows_word mm : len mm = 64 -> grows mm 0 32 0.
Proof. intros Hl. unfold grows, expansionGas. by rewrite Hl. Qed.

Lemma len_two a b : len (be_fixed 32 a ++ be_fixed 32 b) = 64.
Proof. by rewrite len_app, !len_be_fixed. Qed.

Lemma drop_word a b : drop 32 (be_fixed 32 a ++ b) = b.
Proof. apply drop_app_length'. by rewrite length_be_fixed. Qed.

Lemma resize_two a b : resize (be_fixed 32 a ++ be_fixed 32 b) (0 + 32) = be_fixed 32 a ++ be_fixed 32 b.
Proof. unfold resize. by rewrite len_two. Qed.

(** MSTORE at 0 over two words. *)
Ltac vm_store := vm_op run_MSTORE; [apply grows_word, len_two|apply mem_set32_first, len_two|]; rewrite drop_word.

Section Token.
Context {S : Type} `{StateDB S} `{Crypto} `{Bn256}.
Context (sig : list byte) (fr : Frame).
Hypothesis sig_len : length sig = 32%nat.
Hypothesis code_eq : f_code fr = codePre ++ sig ++ codePost.
Hypothesis jumps_eq : f_jumps fr = analyseJumpdests (tokenCode sig).

#[local] Abbreviation input := (f_input fr).
#[local] Abbreviation self := (c_Address (f_ctx fr)).

Lemma run_revert st mm (w : option S) :
  st = [] \/ (exists x, st = [x]) ->
  runs fr st mm 216 w 7 (fun g => Ran (mkResult [] g (Some ErrReverted)) w).
Proof.
  intros Hst. apply (runs_need _ _ _ _ _ (1 + (3 + (3 + 0)))); [|done].
  vm_op run_JUMPDEST.
  destruct Hst as [->|[x ->]]; (vm_push; vm_push; vm_op run_REVERT).
Qed.

(** ** What a transfer does to the world *)

Definition balanceIn (s : S) (token : Address) (key : Z) : Z := be2z (abytes (GetStorage s token (slotKey key))).

Definition credited (s : S) (token : Address) (key v : Z) : S := SetStorage s token (slotKey key) (wordToHash (wrap v)).

Definition debited (s : S) (token : Address) (caller amount : Z) : S :=
  credited s token caller (balanceIn s token caller - amount).

Definition moved (s : S) (token : Address) (caller to amount : Z) : S :=
  let s1 := debited s token caller amount in
  AddLog (credited s1 token to (amount + balanceIn s1 token to))
    (mkLog token [wordToHash (be2z sig); wordToHash caller; wordToHash to] (be_fixed 32 amount)).

(** The price of writing [v] as the balance of [key]. *)
Definition writeGas (s : S) (token : Address) (key v : Z) : Z :=
  sstoreGas (GetStorage s token (slotKey key)) (wordToHash (wrap v)).

#[local] Abbreviation caller := (be2z (abytes (c_Caller (f_ctx fr)))).
#[local] Abbreviation to := (inputWord input 4).
#[local] Abbreviation amount := (inputWord input 36).

Lemma run_moved mm s :
  len mm = 64 -> c_Static (f_ctx fr) = false ->
  let s1 := debited s self caller amount in
  runs fr [] mm 85 (Some s)
    (3689 + writeGas s self caller (balanceIn s self caller - amount) + writeGas s1 self to (amount + balanceIn s1 self to))
    (fun g => Ran (mkResult (be_fixed 32 1) g None) (Some (moved s self caller to amount))).
Proof.
  intros Hmm Hst s1. eapply runs_need.
  - vm_op run_CALLER.
    match goal with |- runs ?fr ?st ?mm ?p ?w _ ?r =>
      eapply (run_mapSlot fr _ mm p w _ 0); [vm_seg p|lia|reflexivity|right; split; [done|reflexivity]|] end; norm_pc.
    vm_op run_SLOAD; [done|]. rewrite wordToHash_be2z.
    vm_push. vm_op run_CALLDATALOAD. vm_op run_SWAP1. vm_op run_SUB.
    vm_op run_CALLER. vm_slot. vm_op run_SSTORE; [done|done|]. rewrite wordToHash_be2z.
    vm_push. vm_op run_CALLDATALOAD. vm_slot. vm_op run_SLOAD; [done|]. rewrite wordToHash_be2z.
    vm_push. vm_op run_CALLDATALOAD. vm_op run_ADD.
    vm_push. vm_op run_CALLDATALOAD. vm_slot. vm_op run_SSTORE; [done|done|]. rewrite wordToHash_be2z.
    vm_push. vm_op run_CALLDATALOAD. vm_push.
    vm_store. vm_push. vm_op run_CALLDATALOAD. vm_op run_CALLER.
    match goal with |- runs ?fr ?st ?mm ?p ?w _ ?r =>
      eapply (run_PUSH fr mm p w x7f _ r) with (n := 32) (bs := sig);
        [vm_at p|lia|reflexivity|lia|reflexivity|exact (parts_mid _ _ _ _ code_eq sig_len)|unfold len; by rewrite sig_len|] end. norm_pc.
    vm_push. vm_push. vm_op run_LOG3; [done|done|apply grows_word, len_two|apply mem_get_first, len_be_fixed|].
    rewrite resize_two. vm_push. vm_push. vm_store. vm_push. vm_push.
    vm_op run_RETURN; [apply grows_word, len_two|apply mem_get_first, len_be_fixed].
  - rewrite !wordToHash_be2z. change (u64 (8 * 32)) with 256. subst s1. unfold writeGas, debited, credited, balanceIn.
    cbn [binop_word]. lia.
Qed.

(** transfer, from its label: the balance is checked first. *)
Lemma run_check x s need (r : Z -> exres S) :
  runs fr [] (be_fixed 32 caller ++ be_fixed 32 0) (if amount <=? balanceIn s self caller then 85 else 216) (Some s) need r ->
  runs fr [x] [] 60 (Some s) (896 + need) r.
Proof.
  intros Hr. eapply runs_need.
  - vm_op run_JUMPDEST. vm_op run_POP. vm_op run_CALLER.
    match goal with |- runs ?fr ?st ?mm ?p ?w _ ?r =>
      eapply (run_mapSlot fr _ mm p w _ 6); [vm_seg p|lia|reflexivity|by left|] end; norm_pc.
    vm_op run_SLOAD; [done|]. rewrite wordToHash_be2z. vm_push. vm_op run_CALLDATALOAD. vm_op run_GT. vm_pushn 2 [x00; xd8].
    cbn [binop_word]. fold (balanceIn s self caller). revert Hr.
    destruct (Z.leb_spec amount (balanceIn s self caller)) as [Hle|Hlt]; intros Hr.
    + rewrite (proj2 (Z.ltb_ge _ _) Hle). change (wrap (boolToInt false)) with 0. vm_op run_JUMPI_next. exact Hr.
    + rewrite (proj2 (Z.ltb_lt _ _) Hlt). change (wrap (boolToInt true)) with 1.
      vm_op run_JUMPI; [done|rewrite jumps_eq; by apply revert_dest|exact Hr].
  - lia.
Qed.

Lemma run_balanceOf x s :
  runs fr [x] [] 33 (Some s) 890 (fun g => Ran (mkResult (be_fixed 32 (balanceIn s self to)) g None) (Some s)).
Proof.
  eapply runs_need.
  - vm_op run_JUMPDEST. vm_op run_POP. vm_push. vm_op run_CALLDATALOAD.
    match goal with |- runs ?fr ?st ?mm ?p ?w _ ?r =>
      eapply (run_mapSlot fr _ mm p w _ 6); [vm_seg p|lia|reflexivity|by left|] end; norm_pc.
    vm_op run_SLOAD; [done|]. rewrite wordToHash_be2z. vm_push. vm_store. vm_push. vm_push.
    vm_op run_RETURN; [apply grows_word, len_two|apply mem_get_first, len_be_fixed].
  - lia.
Qed.

(** ** The dispatcher *)

Definition selector : Z := wrap (binop_word SHR 224 (inputWord input 0)).

(** Up to the first comparison; then the two branches. *)
Lemma run_first (w : option S) need (r : Z -> exres S) :
  runs fr [selector] [] (if selector =? TransferSelector then 60 else 17) w need r -> runs fr [] [] 0 w (34 + need) r.
Proof.
  intros Hr. eapply runs_need.
  - vm_push. vm_op run_CALLDATALOAD. vm_push. vm_op run_SHR. fold selector.
    vm_op run_DUP1; [done|apply wrap_word|]. vm_pushn 4 [xa9; x05; x9c; xbb]. vm_op run_EQ. vm_pushn 2 [x00; x3c]. cbn [binop_word]. change 2835717307 with TransferSelector.
    rewrite Z.eqb_sym. destruct (selector =? TransferSelector).
    + change (wrap (boolToInt true)) with 1. vm_op run_JUMPI; [done|by rewrite jumps_eq|exact Hr].
    + change (wrap (boolToInt false)) with 0. vm_op run_JUMPI_next. exact Hr.
  - lia.
Qed.

Lemma run_second (w : option S) need (r : Z -> exres S) :
  runs fr [selector] [] (if selector =? balanceOfSelector then 33 else 28) w need r -> runs fr [selector] [] 17 w (22 + need) r.
Proof.
  intros Hr. eapply runs_need.
  - vm_op run_DUP1; [done|apply wrap_word|]. vm_pushn 4 [x70; xa0; x82; x31]. vm_op run_EQ. vm_pushn 2 [x00; x21]. cbn [binop_word]. change 1889567281 with balanceOfSelector.
    rewrite Z.eqb_sym. destruct (selector =? balanceOfSelector).
    + change (wrap (boolToInt true)) with 1. vm_op run_JUMPI; [done|by rewrite jumps_eq|exact Hr].
    + change (wrap (boolToInt false)) with 0. vm_op run_JUMPI_next. exact Hr.
  - lia.
Qed.

Lemma run_unknown x (w : option S) :
  runs fr [x] [] 28 w 6 (fun g => Ran (mkResult [] g (Some ErrReverted)) w).
Proof. apply (runs_need _ _ _ _ _ (3 + (3 + 0))); [|done]. vm_push. vm_push. vm_op run_REVERT. Qed.

(** In a static context the first write ends the call. *)
Lemma run_moved_static mm s :
  len mm = 64 -> c_Static (f_ctx fr) = true ->
  runs fr [] mm 85 (Some s) 942 (fun _ => Ran (mkResult [] 0 (Some ErrStaticStateChange)) (Some s)).
Proof.
  intros Hmm Hst. eapply runs_need.
  - vm_op run_CALLER.
    match goal with |- runs ?fr ?st ?mm ?p ?w _ ?r =>
      eapply (run_mapSlot fr _ mm p w _ 0); [vm_seg p|lia|reflexivity|right; split; [done|reflexivity]|] end; norm_pc.
    vm_op run_SLOAD; [done|]. rewrite wordToHash_be2z.
    vm_push. vm_op run_CALLDATALOAD. vm_op run_SWAP1. vm_op run_SUB.
    vm_op run_CALLER. vm_slot. vm_op run_SSTORE_static. done.
  - lia.
Qed.

End Token.

(** ** The token as a function *)

Section Spec.
Context {S : Type} `{StateDB S} `{Crypto} `{Bn256}.

Inductive answer : Type :=
  | Returned (data : list byte) (s : S)
  | Refused
  | StaticWrite.

(** What a call does: the gas it takes, and how it ends. *)
Definition erc20 (ctx : Context) (input : list byte) (s : S) : Z * answer :=
  let sel := wrap (binop_word SHR 224 (inputWord input 0)) in
  let self := c_Address ctx in
  let caller := be2z (abytes (c_Caller ctx)) in
  let to := inputWord input 4 in
  let amount := inputWord input 36 in
  if sel =? TransferSelector then
    if amount <=? balanceIn s self caller then
      if c_Static ctx then (34 + (896 + 942), StaticWrite)
      else
        let s1 := debited s self caller amount in
        (34 + (896 + (3689 + writeGas s self caller (balanceIn s self caller - amount)
                      + writeGas s1 self to (amount + balanceIn s1 self to))),
         Returned (be_fixed 32 1) (moved (abytes TransferEventTopic) s self caller to amount))
    else (34 + (896 + 7), Refused)
  else if sel =? balanceOfSelector then
    (34 + (22 + 890), Returned (be_fixed 32 (balanceIn s self to)) s)
  else (34 + (22 + 6), Refused).

(** The result of a frame that ends so with [g] units of gas left; a refusal changes nothing. *)
Definition answered (a : answer) (s : S) (g : Z) : exres S :=
  match a with
  | Returned data s' => Ran (mkResult data g None) (Some s')
  | Refused => Ran (mkResult [] g (Some ErrReverted)) (Some s)
  | StaticWrite => Ran (mkResult [] 0 (Some ErrStaticStateChange)) (Some s)
  end.

Lemma ERC20Runtime_code : ERC20Runtime = Ok (tokenCode (abytes TransferEventTopic)).
Proof. apply assembled, abytes_length. Qed.

Lemma erc20_runs code input ctx depth s :
  ERC20Runtime = Ok code ->
  runs (mkFrame code input (analyseJumpdests code) ctx depth) [] [] 0 (Some s) (erc20 ctx input s).1
    (answered (erc20 ctx input s).2 s).
Proof.
  rewrite ERC20Runtime_code. intros [= <-]. unfold erc20. set (sig := abytes TransferEventTopic).
  assert (length sig = 32%nat) as Hl by apply abytes_length. set (fr := mkFrame _ _ _ _ _).
  assert (f_code fr = codePre ++ sig ++ codePost) as Hc by (unfold fr; cbn [f_code]; reflexivity).
  assert (f_jumps fr = analyseJumpdests (tokenCode sig)) as Hj by (unfold fr; cbn [f_jumps]; reflexivity).
  assert (f_input fr = input) as Hi by (unfold fr; cbn [f_input]; reflexivity).
  assert (f_ctx fr = ctx) as Hx by (unfold fr; cbn [f_ctx]; reflexivity).
  clearbody fr sig. subst input ctx. pose proof (run_first sig fr Hl Hc Hj (Some s)) as Hfirst.
  pose proof (run_second sig fr Hl Hc Hj (Some s)) as Hsecond.
  change (wrap (binop_word SHR 224 (inputWord (f_input fr) 0))) with (selector fr).
  destruct (selector fr =? TransferSelector).
  - pose proof (run_check sig fr Hl Hc Hj (selector fr) s) as Hcheck.
    destruct (inputWord (f_input fr) 36 <=? _); [destruct (c_Static (f_ctx fr)) eqn:Est|]; apply Hfirst, Hcheck.
    + apply (run_moved_static sig fr Hl Hc); [apply len_two|done].
    + apply (run_moved sig fr Hl Hc); [apply len_two|done].
    + apply (run_revert sig fr Hl Hc). by left.
  - destruct (selector fr =? balanceOfSelector); apply Hfirst, Hsecond.
    + apply (run_balanceOf sig fr Hl Hc).
    + apply (run_unknown sig fr Hl Hc).
Qed.

End Spec.

(** ** The constructor *)

Definition initHead : list byte := [x33] ++ slotSegment ++ [x7f].
Definition initTail : list byte :=
  [x90; x55; x61; x00; xde; x61; x00; x40; x60; x00; x39; x61; x00; xde; x60; x00; xf3].

Lemma init_assembled sb : length sb = 32%nat -> done_ (initAsm sb 222) = Ok (initHead ++ sb ++ initTail).
Proof.
  intros Hl. destruct (thirty_two sb Hl) as
    (? & ? & ? & ? & ? & ? & ? & ? & ? & ? & ? & ? & ? & ? & ? & ? & ? & ? & ? & ? & ? & ? & ? & ? & ? & ? & ? & ? & ? & ? & ? & ? & ->).
  vm_compute. reflexivity.
Qed.

Lemma len_tokenCode sig : length sig = 32%nat -> len (tokenCode sig) = 222.
Proof. intros Hl. unfold len, tokenCode. by rewrite !length_app, Hl. Qed.

Section Init.
Context {S : Type} `{StateDB S} `{Crypto} `{Bn256}.
Context (sb runtime : list byte) (fr : Frame).
Hypothesis sb_len : length sb = 32%nat.
Hypothesis runtime_len : len runtime = 222.
Hypothesis code_eq : f_code fr = initHead ++ sb ++ (initTail ++ runtime).

Lemma code_runtime : padded (f_code fr) 64 222 = runtime.
Proof.
  unfold padded. change (Z.to_nat 222) with 222%nat. change (Z.to_nat 64) with 64%nat.
  assert (drop 64 (f_code fr) = runtime) as ->.
  { rewrite code_eq. replace (initHead ++ sb ++ initTail ++ runtime) with ((initHead ++ sb ++ initTail) ++ runtime) by (by rewrite <- !app_assoc).
    apply drop_app_length'. by rewrite !length_app, sb_len. }
  assert (take 222 runtime = runtime) as -> by (apply take_ge; unfold len in runtime_len; lia).
  rewrite runtime_len. apply app_nil_r.
Qed.

Lemma copy_runtime mm : len mm = 64 -> mem_set (resize mm (0 + 222)) 0 runtime = Some runtime.
Proof.
  intros Hl. assert (len (resize mm (0 + 222)) = 222) as Hr by (rewrite len_resize, Hl; done).
  unfold mem_set. rewrite runtime_len. change (u64 (0 + u64 222)) with 222. cbn [Z.ltb Z.compare]. unfold mem_copy. rewrite Hr.
  change (Z.to_nat 0) with O. cbn [Z.leb Z.compare andb take]. rewrite app_nil_l, drop_ge, app_nil_r; [done|]. unfold len in Hr. lia.
Qed.

Lemma read_runtime : mem_get (resize runtime (0 + 222)) 0 222 = Some runtime.
Proof.
  unfold resize. rewrite runtime_len. change (222 <? 0 + 222) with false. cbv iota. unfold mem_get. rewrite runtime_len.
  change (u64 (0 + 222) <? 0) with false. cbn [Z.eqb Z.leb Z.compare orb]. unfold padded. change (Z.to_nat 0) with O. rewrite drop_0.
  assert (take (Z.to_nat 222) runtime = runtime) as -> by (apply take_ge; unfold len in runtime_len; lia).
  rewrite runtime_len. by rewrite app_nil_r.
Qed.

(** Mints the supply to the caller and returns the runtime. *)
Lemma run_init s :
  c_Static (f_ctx fr) = false ->
  let caller := be2z (abytes (c_Caller (f_ctx fr))) in
  let self := c_Address (f_ctx fr) in
  runs fr [] [] 0 (Some s) (131 + sstoreGas (GetStorage s self (slotKey caller)) (wordToHash (be2z sb)))
    (fun g => Ran (mkResult runtime g None) (Some (SetStorage s self (slotKey caller) (wordToHash (be2z sb))))).
Proof.
  intros Hst caller self. eapply runs_need.
  - vm_op run_CALLER.
    match goal with |- runs ?fr ?st ?mm ?p ?w _ ?r =>
      eapply (run_mapSlot fr _ mm p w _ 6); [vm_seg p|lia|reflexivity|by left|] end; norm_pc.
    match goal with |- runs ?fr ?st ?mm ?p ?w _ ?r =>
      eapply (run_PUSH fr mm p w x7f _ r) with (n := 32) (bs := sb);
        [vm_at p|lia|reflexivity|lia|reflexivity|exact (parts_mid _ _ _ _ code_eq sb_len)|unfold len; by rewrite sb_len|] end. norm_pc.
    vm_op run_SWAP1. vm_op run_SSTORE; [done|done|]. rewrite wordToHash_be2z.
    vm_pushn 2 [x00; xde]. vm_pushn 2 [x00; x40]. vm_push.
    vm_op run_CODECOPY; [|lia|rewrite code_runtime; apply copy_runtime, len_two| |].
    + split_and!; [lia|lia|done|]. unfold expansionGas. rewrite len_two. reflexivity.
    + rewrite code_eq, !len_app, runtime_len. unfold len. rewrite sb_len. cbn. lia.
    + vm_pushn 2 [x00; xde]. vm_push. vm_op run_RETURN; [|apply read_runtime].
      split_and!; [lia|lia|done|]. unfold expansionGas. rewrite runtime_len. reflexivity.
  - rewrite !wordToHash_be2z. change (u64 (3 * toWordSize 222)) with 21.
    change (u64 (memoryCost (toWordSize (u64 (0 + 222))) - memoryCost (toWordSize 64))) with 15. fold self caller. lia.
Qed.

End Init.
