(* ===== verification/ContractInv.v ===== *)
(** * The storage of one contract, whatever the others do

    A contract at [T] with code [code], and a property [I] of its storage that
    its own code keeps whenever it ends without an error.  Then no transaction
    breaks it: other contracts may call it at any depth, run out of gas inside
    it, revert around it, create contracts; only its own code writes its
    storage, and what fails is undone.  The journal's savepoints carry the
    property along ([Kept]), so that a revert to any of them finds it again.
    The logic is one of partial correctness: [hoare] says nothing of runs that
    crash or diverge, which VmProofs.v excludes. *)
From stdpp Require Import base numbers list gmap.
From Stdlib Require Import ZArith Lia Strings.Byte.
From S2P Require Import Prelude Common Rlp Types VmBase Precompiles Vm VmProofs State StateProofs Transition TransitionProofs.
#[local] Open Scope Z_scope.
#[local] Open Scope list_scope.
#[local] Open Scope vm_scope.

Section Contract.
Context `{Crypto} `{Bn256}.
Context (T : Address) (code : list byte) (I : gmap Hash Hash -> Prop).
Hypothesis has_code : code <> [].

Definition holds (s : State) : Prop := Code (State_Get s T) = code /\ I (Storage (State_Get s T)).

(** The property at every savepoint; at least [d] of them. *)
Record Kept (d : nat) (s : State) : Prop := {
  kp_inv : sp_inv s;
  kp_depth : (d <= depth s)%nat;
  kp_saved : forall i, (i < depth s)%nat -> holds (saved s i);
}.

Definition J (d : nat) (s : State) : Prop := Kept d s /\ holds s.

(** ** The operations of a state *)

Lemma holds_same s s' :
  Code (State_Get s' T) = Code (State_Get s T) -> Storage (State_Get s' T) = Storage (State_Get s T) -> holds s -> holds s'.
Proof. unfold holds. by intros -> ->. Qed.

Lemma Kept_op d s o : is_mutator o -> Kept d s -> Kept d (run_op s o).
Proof.
  intros Hm [Hi Hd Hs]. destruct (mutator_savepoints s o Hm Hi) as (Hi' & Ed & Es).
  split; [done|by rewrite Ed|]. rewrite Ed. intros i Hlt. rewrite Es by done. by apply Hs.
Qed.

Lemma Kept_SetStorage d s a k v : Kept d s -> Kept d (State_SetStorage s a k v).
Proof. apply (Kept_op d s (OSetStorage a k v)). done. Qed.

Lemma Kept_AddLog d s l : Kept d s -> Kept d (State_AddLog s l).
Proof. apply (Kept_op d s (OAddLog l)). done. Qed.

Lemma J_op d s o : is_mutator o ->
  Code (State_Get (run_op s o) T) = Code (State_Get s T) -> Storage (State_Get (run_op s o) T) = Storage (State_Get s T) ->
  J d s -> J d (run_op s o).
Proof. intros Hm Hc Hs [Hk Hh]. split; [by apply Kept_op|by eapply holds_same]. Qed.

(** An account keeps its code and storage unless it is another's. *)
#[local] Ltac same := cbn [run_op]; autorewrite with get; case_decide; subst; done.

Lemma J_SetStorage d s a k v : a <> T -> J d s -> J d (State_SetStorage s a k v).
Proof. intros Hne. apply (J_op d s (OSetStorage a k v)); [done|same..]. Qed.
Lemma J_SetCode d s a c : a <> T -> J d s -> J d (State_SetCode s a c).
Proof. intros Hne. apply (J_op d s (OSetCode a c)); [done|same..]. Qed.
Lemma J_SetNonce d s a n : J d s -> J d (State_SetNonce s a n).
Proof. apply (J_op d s (OSetNonce a n)); [done|same..]. Qed.
Lemma J_Credit d s a v : J d s -> J d (Credit s a v).
Proof. apply (J_op d s (OCredit a v)); [done|same..]. Qed.
Lemma J_SubBalance d s a v : J d s -> J d (State_SubBalance s a v).
Proof. apply (J_op d s (OSubBalance a v)); [done|same..]. Qed.
Lemma J_AddLog d s l : J d s -> J d (State_AddLog s l).
Proof. by apply (J_op d s (OAddLog l)). Qed.
Lemma J_Burn d s v : J d s -> J d (Burn s v).
Proof. apply (J_op d s (OBurn v)); [done|cbn [run_op]; by rewrite Get_Burn..]. Qed.

Lemma J_Snapshot d s : J d s -> J (S (depth s)) (snd (State_Snapshot s)).
Proof.
  intros [[Hi Hd Hs] Hh]. split; [|exact Hh]. split; [by apply Snapshot_inv|by rewrite Snapshot_depth|].
  rewrite Snapshot_depth. intros i Hlt. destruct (decide (i = depth s)) as [->|].
  - rewrite Snapshot_saved_new. exact Hh.
  - rewrite Snapshot_saved_old by lia. apply Hs. lia.
Qed.

Lemma J_Revert d s i : Kept d s -> (i < depth s)%nat -> J i (State_RevertToSnapshot s (Z.of_nat i)).
Proof.
  intros [Hi Hd Hs] Hlt. change (J i (saved s i)). split; [|by apply Hs].
  split; [by apply Revert_inv|by rewrite Revert_depth|]. rewrite Revert_depth by done. intros j Hj.
  rewrite Revert_saved by done. apply Hs. lia.
Qed.

Lemma J_le d d' s : (d' <= d)%nat -> J d s -> J d' s.
Proof. intros Hle [[Hi Hd Hs] Hh]. split; [|done]. split; [done|lia|done]. Qed.

(** ** Partial correctness *)

Definition W (d : nat) (w : option State) : Prop := exists s, w = Some s /\ J d s.

(** A computation that fails leaves the property in place. *)
Definition hoare {A} (d : nat) (P : option State -> Prop) (c : M State A) (Q : A -> option State -> Prop) : Prop :=
  forall m, P (world m) -> match c m with
                           | Done a m' => Q a (world m')
                           | Fail _ _ m' => W d (world m')
                           | Crash | Diverge => True
                           end.

Definition keeps {A} (d : nat) (c : M State A) : Prop := hoare d (W d) c (fun _ => W d).

(** A computation that does not change the world. *)
Definition still {A} (c : M State A) : Prop :=
  forall m, match c m with Done _ m' | Fail _ _ m' => world m' = world m | Crash | Diverge => True end.

Lemma hoare_bind {A B} d P (c : M State A) Q (k : A -> M State B) R :
  hoare d P c Q -> (forall a, hoare d (Q a) (k a) R) -> hoare d P (M_bind c k) R.
Proof.
  intros Hc Hk m Hm. specialize (Hc m Hm). unfold M_bind. destruct (c m) as [a m'| | |]; try done. by apply Hk.
Qed.

Lemma hoare_still {A} d P (c : M State A) : still c -> (forall w, P w -> W d w) -> hoare d P c (fun _ => P).
Proof. intros Hc HP m Hm. specialize (Hc m). destruct (c m); try done; rewrite Hc; auto. Qed.

Lemma keeps_bind {A B} d (c : M State A) (k : A -> M State B) : keeps d c -> (forall a, keeps d (k a)) -> keeps d (M_bind c k).
Proof. intros Hc Hk. eapply hoare_bind; [exact Hc|exact Hk]. Qed.

Lemma keeps_still {A} d (c : M State A) : still c -> keeps d c.
Proof. intros Hc. by apply hoare_still. Qed.

(** The state that is read has the property. *)
Lemma keeps_theState {B} d (k : State -> M State B) : (forall s, J d s -> keeps d (k s)) -> keeps d (M_bind theState k).
Proof. intros Hk m (s & E & Hs). unfold M_bind, theState. rewrite E. apply (Hk s Hs). rewrite E. by exists s. Qed.

Lemma keeps_requireState {B} d (k : State -> M State B) : (forall s, J d s -> keeps d (k s)) -> keeps d (M_bind requireState k).
Proof. intros Hk m (s & E & Hs). unfold M_bind, requireState. rewrite E. apply (Hk s Hs). rewrite E. by exists s. Qed.

Lemma keeps_putState d s : J d s -> keeps d (putState s).
Proof. intros Hs m _. by exists s. Qed.

(** ** What does not touch the world *)

Lemma still_bind {A B} (c : M State A) (k : A -> M State B) : still c -> (forall a, still (k a)) -> still (M_bind c k).
Proof.
  intros Hc Hk m. specialize (Hc m). unfold M_bind. destruct (c m) as [a m'| | |]; try done.
  specialize (Hk a m'). destruct (k a m'); try done; by rewrite Hk.
Qed.
Lemma still_mret {A} (a : A) : still (mret a).
Proof. done. Qed.
Lemma still_fail {A} e : still (fail (A := A) e).
Proof. done. Qed.
Lemma still_gets {A} (f : interp State -> A) : still (gets f).
Proof. done. Qed.
Lemma still_lift {A} (r : res A) : still (lift r).
Proof. intros m. unfold lift. by destruct r. Qed.
Lemma still_useGas c : still (useGas c).
Proof. intros m. unfold useGas. by destruct (_ <? _). Qed.
Lemma still_theState : still theState.
Proof. intros m. unfold theState. by destruct (world m) eqn:E. Qed.
Lemma still_requireState : still requireState.
Proof. intros m. unfold requireState. by destruct (world m) eqn:E. Qed.
Lemma still_modify f : (forall m, world (f m) = world m) -> still (modify f).
Proof. intros Hf m. apply Hf. Qed.
Lemma still_reverted (data : list byte) : still (fun m : interp State => Fail (A := option (list byte)) ErrReverted data m).
Proof. done. Qed.

Create HintDb still.
#[local] Hint Resolve still_mret still_fail still_gets still_lift still_useGas still_theState still_requireState still_reverted : still.

#[local] Ltac still :=
  repeat match goal with
  | |- still (M_bind _ _) => apply still_bind; [|intros ?]
  | |- still (modify _) => apply still_modify; done
  | |- still (let '(_, _) := ?x in _) => destruct x
  | |- still (if ?b then _ else _) => destruct b
  | |- still (match ?x with _ => _ end) => destruct x
  | |- still _ => solve [eauto with still]
  end.

Lemma still_pop : still pop.
Proof. unfold pop. still. Qed.
Lemma still_push v : still (push v).
Proof. unfold push. still. Qed.
#[local] Hint Resolve still_pop still_push : still.
Lemma still_pop2 : still pop2.
Proof. unfold pop2. still. Qed.
Lemma still_chargeMem off size : still (chargeMem off size).
Proof. unfold chargeMem. still. Qed.
Lemma still_memGet off size : still (memGet off size).
Proof. unfold memGet. still. Qed.
Lemma still_memSet off v : still (memSet off v).
Proof. unfold memSet. still. Qed.
Lemma still_memSet32 off v : still (memSet32 off v).
Proof. unfold memSet32. still. Qed.
Lemma still_popTopics n : still (popTopics n).
Proof. induction n; cbn [popTopics]; still. Qed.
#[local] Hint Resolve still_pop2 still_chargeMem still_memGet still_memSet still_memSet32 still_popTopics : still.
Lemma still_binop o a b : still (binop o a b).
Proof. unfold binop. still. Qed.
Lemma still_opReturnDataCopy : still opReturnDataCopy.
Proof. unfold opReturnDataCopy. still. Qed.
#[local] Hint Resolve still_binop still_opReturnDataCopy : still.
Lemma still_exec_arith o : still (exec_arith o).
Proof. unfold exec_arith. still. Qed.
Lemma still_exec_memory o : still (exec_memory o).
Proof. unfold exec_memory. still. Qed.
Lemma still_exec_env fr o : still (exec_env fr o).
Proof. unfold exec_env. still. Qed.
Lemma still_exec_copy fr o : still (exec_copy fr o).
Proof. unfold exec_copy. still. Qed.
Lemma still_jump fr dest : still (jump fr dest).
Proof. unfold jump. still. Qed.
Lemma still_readMem : still readMem.
Proof. unfold readMem. still. Qed.
Lemma still_copyReturn off size ret : still (copyReturn off size ret).
Proof. unfold copyReturn. still. Qed.
Lemma still_doPush fr n : still (doPush fr n).
Proof. unfold doPush. still. Qed.
Lemma still_liftStack f : still (liftStack f).
Proof. unfold liftStack. still. Qed.
Lemma still_incPc : still incPc.
Proof. unfold incPc. still. Qed.
#[local] Hint Resolve still_exec_arith still_exec_memory still_exec_env still_exec_copy still_jump still_readMem still_copyReturn
  still_doPush still_liftStack still_incPc : still.

(** ** A frame that is not the contract's *)

#[local] Ltac keeps :=
  repeat match goal with
  | |- keeps _ (M_bind theState _) => apply keeps_theState; intros ? ?
  | |- keeps _ (M_bind requireState _) => apply keeps_requireState; intros ? ?
  | |- keeps _ (M_bind _ _) => apply keeps_bind; [|intros ?]
  | |- keeps _ (modify _) => apply keeps_still, still_modify; done
  | |- keeps _ (if ?b then _ else _) => destruct b eqn:?
  | |- keeps _ (let '(_, _) := ?x in _) => destruct x
  | |- keeps _ (match ?x with _ => _ end) => destruct x
  | |- keeps _ _ => solve [eauto using keeps_still with still]
  end.

Lemma keeps_opLog d fr n : keeps d (opLog fr n).
Proof. unfold opLog. keeps. by apply keeps_putState, J_AddLog. Qed.

Lemma keeps_exec_state d fr o : c_Address (f_ctx fr) <> T -> keeps d (exec_state fr o).
Proof. intros Hne. unfold exec_state. keeps. by apply keeps_putState, J_SetStorage. Qed.

(** ** Calls *)

(** Only the contract's code runs at its address. *)
Definition frame_ok (ctx : Context) (c : list byte) : Prop := c_Address ctx = T -> c = code.

(** What a caller relies on: the savepoints are kept, and what ends well keeps the property. *)
Definition leaves (d : nat) (x : exres State) : Prop :=
  match x with
  | Ran r w => exists s, w = Some s /\ Kept d s /\ (r_Err r = None -> holds s)
  | Crashed | NoFuel => True
  end.

Definition keepsX (exe : Exec (S := State)) : Prop :=
  forall c input g ctx dep s d, frame_ok ctx c -> J d s -> leaves d (exe c input g ctx dep (Some s)).

Section Calls.
Context (exe : Exec (S := State)).
Hypothesis exe_ok : keepsX exe.

(** A savepoint [i] of which the property is known lets a failure be undone. *)
Definition landed (i : nat) (r : Result) (w : option State) : Prop :=
  exists s, w = Some s /\ Kept (S i) s /\ (r_Err r = None -> holds s).

Lemma hoare_runSub d c input g ctx dep i :
  frame_ok ctx c -> (d <= S i)%nat -> hoare d (W (S i)) (runSub exe c input g ctx dep) (landed i).
Proof.
  intros Hf Hd m (s & E & Hs). unfold runSub. rewrite E. specialize (exe_ok c input g ctx dep s (S i) Hf Hs).
  destruct (exe _ _ _ _ _ _) as [r w| |]; try done.
Qed.

Lemma W_le d d' w : (d' <= d)%nat -> W d w -> W d' w.
Proof. intros Hle (s & -> & Hs). exists s. split; [done|by eapply J_le]. Qed.

Lemma hoare_modify d P f : (forall m, world (f m) = world m) -> hoare d P (modify f) (fun _ => P).
Proof. intros Hf m Hm. cbn. by rewrite Hf. Qed.

Lemma hoare_keeps {A} d d' P (c : M State A) :
  (forall w, P w -> W d w) -> (d' <= d)%nat -> keeps d c -> hoare d' P c (fun _ => W d).
Proof.
  intros HP Hle Hc m Hm. specialize (Hc m (HP _ Hm)). destruct (c m); try done; by eapply W_le.
Qed.

Lemma hoare_gets {A} d P (f : interp State -> A) : hoare d P (gets f) (fun _ => P).
Proof. intros m Hm. exact Hm. Qed.

Lemma hoare_pre {A} d P (c : M State A) : (forall w, P w -> W d w) -> keeps d c -> hoare d P c (fun _ => W d).
Proof. intros HP Hc m Hm. apply (Hc m), HP, Hm. Qed.

Lemma hoare_ret {A} d P (a : A) Q : (forall w, P w -> Q a w) -> hoare d P (mret a) Q.
Proof. intros HP m Hm. by apply HP. Qed.

(** Take a savepoint and go on. *)
Lemma keeps_snapshot {A} d (k : Z -> M State A) :
  (forall i, (d <= i)%nat -> hoare d (W (S i)) (k (Z.of_nat i)) (fun _ => W d)) ->
  keeps d (let! s := theState in let (snap, s1) := Snapshot s in putState s1;; k snap).
Proof.
  intros Hk. apply keeps_theState. intros s Hs. pose proof (J_Snapshot d s Hs) as H1. pose proof (Snapshot_id s) as E.
  cbn [Snapshot State_StateDB]. destruct (State_Snapshot s) as [snap s1]. cbn [fst snd] in E, H1. subst snap. intros m _.
  apply (Hk (depth s)); [apply (kp_depth _ _ (proj1 Hs))|]. by exists s1.
Qed.

(** Back to the savepoint. *)
Lemma hoare_undo d i r : (d <= i)%nat ->
  hoare d (landed i r) (let! s3 := theState in putState (RevertToSnapshot s3 (Z.of_nat i))) (fun _ => W d).
Proof.
  intros Hle m (s & E & Hk & _). unfold M_bind, theState, putState. rewrite E. cbn. eexists. split; [done|].
  apply (J_le i); [done|]. eapply J_Revert; [done|]. pose proof (kp_depth _ _ Hk). lia.
Qed.

Lemma landed_ok d i r w : (d <= S i)%nat -> r_Err r = None -> landed i r w -> W d w.
Proof. intros Hle Hr (s & -> & Hk & Hh). exists s. split; [done|]. apply (J_le (S i)); [done|]. split; auto. Qed.

Lemma keeps_moveValue d moves a b v : keeps d (moveValue moves a b v).
Proof. unfold moveValue. keeps. by apply keeps_putState, J_Credit, J_SubBalance. Qed.

Lemma frame_ok_call s d ctx mode target value :
  c_Address ctx <> T -> J d s -> frame_ok (subContext ctx mode target value) (State_GetCode s target).
Proof. intros Hne [_ [Hc _]]. unfold frame_ok. destruct mode; cbn; intros E; try done; by rewrite E, GetCode_Get. Qed.

Lemma hoare_callee d fr mode target value args give i :
  c_Address (f_ctx fr) <> T -> (d <= S i)%nat ->
  hoare d (W (S i)) (callee exe fr mode target value args give) (landed i).
Proof.
  intros Hne Hle. unfold callee. destruct (precompileFor target).
  - intros m (s & E & Hs). unfold lift. destruct (runPrecompile _ _ _); cbn; [|exists s; split; [done|by eapply J_le]|done].
    destruct Hs as [Hk Hh]. by exists s.
  - intros m (s & E & Hs). unfold M_bind, theState. rewrite E.
    eapply hoare_runSub; [by eapply frame_ok_call|done|]. by exists s.
Qed.

(** The end of a call: success keeps what the callee left, failure undoes it. *)
Lemma hoare_outcome d i r : (d <= i)%nat ->
  hoare d (landed i r)
    (match r_Err r with
     | Some _ => let! s3 := theState in putState (RevertToSnapshot s3 (Z.of_nat i));; mret 0
     | None => mret 1
     end) (fun _ => W d).
Proof.
  intros Hle. destruct (r_Err r) eqn:Er.
  - intros m Hm. pose proof (hoare_undo d i r Hle m Hm) as Hu. revert Hu. unfold M_bind, theState, putState, modify, mret.
    by destruct (world m).
  - apply hoare_ret. intros w. apply landed_ok; [lia|done].
Qed.

Lemma keeps_callTarget d fr mode target value args give retOff retSize :
  c_Address (f_ctx fr) <> T -> keeps d (callTarget exe fr mode target value args give retOff retSize).
Proof.
  intros Hne. unfold callTarget. apply keeps_bind; [by apply keeps_still, still_modify|intros []].
  apply keeps_snapshot. intros i Hi.
  eapply hoare_bind; [apply (hoare_keeps (S i)); [done|lia|apply keeps_moveValue]|intros []].
  eapply hoare_bind; [apply hoare_callee; [done|lia]|intros r].
  eapply hoare_bind; [by apply hoare_modify|intros []]. eapply hoare_bind; [by apply hoare_modify|intros []].
  eapply hoare_bind; [by apply hoare_outcome|intros ok]. apply keeps_bind; [|intros []]; apply keeps_still; auto with still.
Qed.

Lemma keeps_opCall d fr mode : c_Address (f_ctx fr) <> T -> keeps d (opCall exe fr mode).
Proof. intros Hne. unfold opCall. keeps. all: by apply keeps_callTarget. Qed.

(** A creation never lands on the contract: it has code. *)
Lemma keeps_createAt d fr newAddr value initCode give :
  newAddr <> T -> keeps d (createAt exe fr newAddr value initCode give).
Proof.
  intros Hne. unfold createAt. apply keeps_snapshot. intros i Hi.
  eapply hoare_bind; [apply (hoare_keeps (S i)); [done|lia|apply keeps_moveValue]|intros []].
  eapply hoare_bind; [apply hoare_runSub; [intros E; by destruct Hne|lia]|intros r]. eapply hoare_bind; [by apply hoare_modify|intros []].
  assert (forall A (k : M State A), keeps d k ->
    hoare d (landed i r) ((let! s3 := theState in putState (RevertToSnapshot s3 (Z.of_nat i)));; k) (fun _ => W d)) as Hundo.
  { intros A k Hk. eapply hoare_bind; [by apply (hoare_undo d i r)|]. by intros []. }
  destruct (r_Err r) eqn:Er; [apply Hundo; keeps|].
  destruct (_ <? _); [apply Hundo; keeps|]. eapply hoare_bind; [apply hoare_gets|intros g].
  destruct (g <? _); [apply Hundo; keeps|]. apply hoare_pre; [intros w; apply landed_ok; [lia|done]|].
  keeps. by apply keeps_putState, J_SetCode.
Qed.

Lemma coded_not_fresh d s a : J d s -> (0 <? len (State_GetCode s a)) = false -> a <> T.
Proof.
  intros [_ [Hc _]] Ha ->. rewrite GetCode_Get, Hc in Ha. destruct code as [|x l]; [done|]. rewrite len_cons in Ha.
  pose proof (len_nonneg l). lia.
Qed.

Lemma keeps_opCreate d fr create2 : keeps d (opCreate exe fr create2).
Proof.
  unfold opCreate. keeps. all: try (by apply keeps_putState, J_SetNonce). all: apply keeps_createAt.
  all: match goal with Hf : _ || _ = false |- _ => apply orb_false_iff in Hf as [_ Hf] end.
  all: eapply coded_not_fresh; [|eassumption]; by apply J_SetNonce.
Qed.

(** ** The loop *)

Lemma keeps_exec d fr o : c_Address (f_ctx fr) <> T -> keeps d (exec exe fr o).
Proof.
  intros Hne. unfold exec, cont.
  destruct o; keeps; auto using keeps_opCall, keeps_opCreate, keeps_opLog, keeps_exec_state.
Qed.

Lemma keeps_step d fr b : c_Address (f_ctx fr) <> T -> keeps d (step exe fr b).
Proof. intros Hne. unfold step. keeps; auto using keeps_exec. Qed.

End Calls.

(** The contract's own code, run at its address, keeps the property when it ends without an error. *)
Definition keepsOwn : Prop :=
  forall k input g ctx dep s d, c_Address ctx = T -> J d s -> leaves d (execute k code input g ctx dep (Some s)).

Hypothesis own_ok : keepsOwn.

Lemma execute_run k : (forall fr d, c_Address (f_ctx fr) <> T -> keeps d (run k fr)) -> keepsX (execute k).
Proof.
  intros Hr c input g ctx dep s d Hf Hs. destruct (decide (c_Address ctx = T)) as [E|Hne].
  - rewrite (Hf E). by apply own_ok.
  - specialize (Hr (mkFrame c input (analyseJumpdests c) ctx dep) d Hne (initInterp g (Some s))).
    unfold execute, execute_with, leaves. destruct (run k _ _) as [ret m|e ret m| |]; try done.
    + destruct Hr as (s' & -> & Hk & Hh); [by exists s|]. eauto.
    + destruct Hr as (s' & -> & Hk & Hh); [by exists s|]. destruct e; exists s'; done.
Qed.

Lemma keeps_run k fr d : c_Address (f_ctx fr) <> T -> keeps d (run k fr).
Proof.
  revert fr d. induction k as [|k IH]; intros fr d Hne; [done|]. intros m Hm. cbn [run].
  destruct (f_code fr !! Z.to_nat (pc m)) as [b|]; [|done].
  refine (keeps_bind d (step (execute k) fr b) _ _ _ m Hm).
  - apply keeps_step; [by apply execute_run|done].
  - intros [ret|]; [apply keeps_still, still_mret|by apply IH].
Qed.

Lemma Run_leaves c input g ctx s d : frame_ok ctx c -> J d s -> leaves d (Run c input g ctx (Some s)).
Proof. apply execute_run. intros. by apply keeps_run. Qed.

(** ** Transactions and blocks *)

(** Between transactions: no savepoint, and the property. *)
Definition rests (s : State) : Prop := snapshots s = [] /\ holds s.

Lemma rests_J s : rests s -> J 0 s.
Proof.
  intros [Hs Hh]. split; [|done]. split; [by apply sp_inv_empty|lia|]. unfold depth. rewrite Hs. cbn. lia.
Qed.

Lemma rests_Credit s a v : rests s -> rests (Credit s a v).
Proof. intros Hr. split; [rewrite snapshots_Credit; apply Hr|]. by eapply J_Credit, rests_J. Qed.

Lemma rests_Burn s v : rests s -> rests (Burn s v).
Proof. intros Hr. split; [rewrite snapshots_Burn; apply Hr|]. by eapply J_Burn, rests_J. Qed.

Lemma J_set d s a f :
  (forall acc, Code (f acc) = Code acc /\ Storage (f acc) = Storage acc) ->
  J d s -> J d (State_set s a (f (State_Get s a))).
Proof.
  intros Hf. apply (J_op d s (OSet a f)); [done|..]; cbn [run_op]; rewrite Get_set; case_decide; subst; try done; apply Hf.
Qed.

(** What the switch of [ApplyTx] leaves at the transaction's savepoint. *)
Definition left_by (x : option error * Z * State) : Prop :=
  let '(vmErr, _, s) := x in Kept 1 s /\ (vmErr = None -> holds s).

Lemma depositCode_holds addr g r s : addr <> T -> Kept 1 s -> (r_Err r = None -> holds s) -> left_by (depositCode addr g r s).
Proof.
  intros Hne Hk Hh. unfold depositCode, left_by. destruct (r_Err r); [done|]. destruct (_ <? _); [done|]. destruct (_ <? _); [done|].
  assert (J 1 (State_SetCode s addr (Ret r))) as [Hk' Hh'] by (apply J_SetCode; [done|split; auto]). done.
Qed.

Lemma execMessage_holds s tx sender cb lim g value x :
  J 1 s -> execMessage s tx sender cb lim g value = Returns x -> left_by x.
Proof.
  intros Hs. unfold execMessage. destruct (tx_To tx) as [to|].
  - destruct (0 <? len (State_GetCode s to)).
    + set (s1 := Credit s to value). assert (J 1 s1) as H1 by by apply J_Credit.
      pose proof (Run_leaves (State_GetCode s1 to) (tx_Data tx) g (txEnv s1 tx sender cb lim to) s1 1) as Hr.
      destruct (Run _ _ _ _ _) as [r [s2|]| |]; try done. intros [= <-].
      destruct Hr as (s' & [= <-] & Hr); [|done|exact Hr]. intros E. cbn in E. rewrite E, GetCode_Get. apply H1.
    + destruct (array_eqb to BurnAddress); intros [= <-].
      * assert (J 1 (Burn s (Some value))) as [? ?] by by apply J_Burn. done.
      * assert (J 1 (Credit s to value)) as [? ?] by by apply J_Credit. done.
  - destruct (CreateAddress sender (tx_Nonce tx)) as [addr| |]; try done. destruct (_ || _) eqn:Eb.
    + intros [= <-]. split; [apply Hs|done].
    + apply orb_false_iff in Eb as [_ Eb]. pose proof (coded_not_fresh 1 s addr Hs Eb) as Hne.
      set (s1 := Credit s addr value). assert (J 1 s1) as H1 by by apply J_Credit.
      pose proof (Run_leaves (tx_Data tx) [] g (txEnv s1 tx sender cb lim addr) s1 1) as Hr.
      destruct (Run _ _ _ _ _) as [r [s2|]| |]; try done. intros [= <-].
      destruct Hr as (s' & [= <-] & Hk & Hh); [by intros E|done|by apply depositCode_holds].
Qed.

Lemma finishTx_holds logStart intrinsic g maxFee gp sender cb vmErr used s x :
  left_by (vmErr, used, s) -> finishTx 0 logStart intrinsic g maxFee gp sender cb vmErr used s = x -> rests x.2.
Proof.
  intros [Hk Hh] <-. unfold finishTx, distributeFee.
  assert (forall s' v (c : bool), rests s' -> rests (if c then Credit s' sender v else s')) as Hc
    by (intros s' v []; [apply rests_Credit|done]).
  destruct vmErr; cbn [snd]; apply rests_Credit, rests_Burn, Hc.
  - pose proof (kp_depth _ _ Hk). destruct (J_Revert 1 s 0 Hk) as [Hk0 Hh0]; [lia|]. split; [|exact Hh0].
    pose proof (Revert_depth s 0 ltac:(lia)) as E. unfold depth in E. by destruct (snapshots (saved s 0)) eqn:?.
  - split; [done|]. apply (holds_same s); auto.
Qed.

Lemma ApplyTx_rests s tx cb lim used status logs s' :
  rests s -> ApplyTx s tx cb lim = Returns (used, status, logs, s') -> rests s'.
Proof.
  intros Hr. unfold ApplyTx. destruct (Sender tx) as [sender| |]; try done.
  repeat (destruct (_ <? _); [done|]). destruct (_ && _); [done|].
  destruct (Cost tx), (tx_GasPrice tx) as [gp|], (tx_Value tx) as [value|]; try done. destruct (_ <? _); [done|].
  set (s1 := State_set s sender _).
  assert (rests s1) as H1.
  { split; [unfold s1; by rewrite (proj1 (set_fields _ _ _)), (proj1 Hr)|].
    apply (J_set 0 s sender (fun acc => with_Nonce (u64 (Nonce acc + 1)) (with_Balance (Balance acc - tx_GasLimit tx * gp) acc)));
      [done|by apply rests_J]. }
  pose proof (J_Snapshot 0 s1 (rests_J _ H1)) as H2. pose proof (Snapshot_id s1) as Eid. pose proof (proj1 H1) as Esn.
  unfold depth in Eid, H2. rewrite Esn in Eid, H2. destruct (State_Snapshot s1) as [snap s2]. cbn in Eid, H2. subst snap.
  pose proof (J_set 1 s2 sender (fun acc => with_Balance (Balance acc - value) acc) ltac:(done) H2) as H3. cbn in H3.
  destruct (execMessage _ _ _ _ _ _ _) as [[[vmErr used'] s4]| | |] eqn:Ex; try done.
  pose proof (execMessage_holds _ _ _ _ _ _ _ _ H3 Ex) as Hl. intros [= E].
  by apply (finishTx_holds _ _ _ _ _ _ _ _ _ _ _ Hl E).
Qed.

Lemma applyTxs_rests txs : forall s h total rs s' total' rs',
  rests s -> applyTxs s txs h total rs = Returns (s', total', rs') -> rests s'.
Proof.
  induction txs as [|tx txs IH]; intros s h total rs s' total' rs' Hr; cbn [applyTxs]; [by intros [= <- _ _]|].
  destruct (ApplyTx s tx _ _) as [[[[used status] logs] s1]|[e s1]| |] eqn:E; try done. destruct (_ <? _); [done|].
  intros Ht. eapply IH, Ht. by eapply ApplyTx_rests.
Qed.

Lemma rests_reward split s miner height : rests s -> rests (CreditBlockReward split s miner height).
Proof.
  intros Hr. unfold CreditBlockReward. destruct (_ && _); [|by apply rests_Credit].
  apply rests_Credit. destruct (array_eqb _ _); [by apply rests_Burn|by apply rests_Credit].
Qed.

Lemma ApplyBlock_rests split parent b ph s' receipts :
  holds parent -> ApplyBlock split parent b ph = Returns (s', receipts) -> rests s'.
Proof.
  intros Hp. unfold ApplyBlock, applyBlockBody. destruct (negb _); [done|].
  destruct (match ph with None => _ | Some _ => _ end) as [[]| |]; try done.
  set (s0 := SetBlockContext _ _ _ _). assert (rests s0) as Hs0 by (split; [done|exact Hp]).
  destruct (applyTxs s0 _ _ _ _) as [[[s1 total] rs]| | |] eqn:E; try done.
  pose proof (applyTxs_rests _ _ _ _ _ _ _ _ Hs0 E) as H1.
  repeat (destruct (negb _); [done|]). intros [= <- _]. by apply rests_reward.
Qed.

End Contract.
