(* ===== verification/Erc20Props.v ===== *)
(** * The token: what its code promises

    The bytecode that [ERC20Runtime] assembles, run by the interpreter, against
    the ledger it stands for: a transfer moves exactly the amount and logs it,
    or is refused and changes nothing; the sum of all balances is the supply the
    constructor minted, for ever, whatever transactions and blocks follow. *)
From stdpp Require Import base numbers list gmap.
From Stdlib Require Import ZArith Lia Strings.Byte.
From S2P Require Import Prelude Common Rlp Types VmBase Precompiles Vm VmProofs VmProps State StateProofs StateInv Transition TransitionProofs.
From S2P Require Import EthTx TxProps BlockProps Contracts Erc20 ContractInv.
#[local] Open Scope Z_scope.
#[local] Open Scope list_scope.

(** ** The sum of a storage *)

(** Every slot read as a number. *)
Definition slotSum (m : gmap Hash Hash) : Z := map_fold (fun _ v acc => be2z (abytes v) + acc) 0 m.

Definition slotOf (m : gmap Hash Hash) (k : Hash) : Z := be2z (abytes (default ZeroHash (m !! k))).

Lemma be2z_ZeroHash : be2z (abytes ZeroHash) = 0.
Proof. reflexivity. Qed.

Lemma slotSum_fresh m k v : m !! k = None -> slotSum (<[k := v]> m) = be2z (abytes v) + slotSum m.
Proof. intros Hm. unfold slotSum. rewrite map_fold_insert_L; [done| |done]. intros. lia. Qed.

Lemma slotSum_delete m k : slotSum (delete k m) = slotSum m - slotOf m k.
Proof.
  unfold slotOf. destruct (m !! k) as [v|] eqn:Hm; cbn [default]; [|rewrite delete_id by done; rewrite be2z_ZeroHash; lia].
  rewrite <- (insert_delete_id m k v Hm) at 2. rewrite slotSum_fresh by apply lookup_delete_eq. cbn. lia.
Qed.

Lemma slotSum_insert m k v : slotSum (<[k := v]> m) = slotSum m - slotOf m k + be2z (abytes v).
Proof. rewrite <- insert_delete_eq, slotSum_fresh by apply lookup_delete_eq. rewrite slotSum_delete. lia. Qed.

Lemma slotSum_nonneg m : 0 <= slotSum m.
Proof.
  induction m as [|k v m Hm _ IH] using map_first_key_ind; [done|]. rewrite slotSum_fresh by done.
  pose proof (be2z_range (abytes v)). lia.
Qed.

Lemma slotOf_le m k : 0 <= slotOf m k <= slotSum m.
Proof.
  pose proof (slotSum_nonneg (delete k m)). rewrite slotSum_delete in *. pose proof (be2z_range (abytes (default ZeroHash (m !! k)))).
  unfold slotOf in *. lia.
Qed.

Lemma IsZero_be2z (h : Hash) : Hash_IsZero h = true -> be2z (abytes h) = 0.
Proof. unfold Hash_IsZero. intros Hz. by rewrite (proj1 (array_eqb_eq _ _) Hz). Qed.

(** ** The sum of a token *)

Definition tokenSum (s : State) (T : Address) : Z := slotSum (Storage (State_Get s T)).

Lemma GetStorage_slot s T k : be2z (abytes (State_GetStorage s T k)) = slotOf (Storage (State_Get s T)) k.
Proof. unfold State_GetStorage, State_Get, slotOf. by destruct (accounts s !! T). Qed.

Lemma tokenSum_SetStorage s T k v :
  tokenSum (State_SetStorage s T k v) T = tokenSum s T - be2z (abytes (State_GetStorage s T k)) + be2z (abytes v).
Proof.
  unfold tokenSum. rewrite Get_SetStorage, decide_True, GetStorage_slot by done. destruct (Hash_IsZero v) eqn:Hz; cbn [Storage with_Storage].
  - rewrite slotSum_delete, (IsZero_be2z v Hz). lia.
  - apply slotSum_insert.
Qed.

Lemma GetStorage_SetStorage s T k v k' :
  State_GetStorage (State_SetStorage s T k v) T k' = if decide (k = k') then v else State_GetStorage s T k'.
Proof.
  assert (forall s', State_GetStorage s' T k' = default ZeroHash (Storage (State_Get s' T) !! k')) as E.
  { intros s'. unfold State_GetStorage, State_Get. by destruct (accounts s' !! T). }
  rewrite !E, Get_SetStorage, decide_True by done. destruct (Hash_IsZero v) eqn:Hz; cbn [Storage with_Storage].
  - apply array_eqb_eq in Hz as ->. destruct (decide (k = k')) as [->|]; [by rewrite lookup_delete_eq|by rewrite lookup_delete_ne].
  - destruct (decide (k = k')) as [->|]; [by rewrite lookup_insert_eq|by rewrite lookup_insert_ne].
Qed.

(** ** Transfers *)

#[local] Strategy expand [debited moved].

Section Transfers.
Context `{Crypto} `{Bn256}.
Context (s : State) (T : Address) (caller to amount : Z) (sig : list byte).
Hypothesis sum_word : tokenSum s T < tt256.
Hypothesis amount_ok : 0 <= amount <= balanceIn s T caller.

#[local] Abbreviation s1 := (debited s T caller amount).
#[local] Abbreviation s2 := (credited s1 T to (amount + balanceIn s1 T to)).

Lemma balanceIn_le s' key : 0 <= balanceIn s' T key <= tokenSum s' T.
Proof. unfold balanceIn. cbn [GetStorage State_StateDB]. rewrite GetStorage_slot. apply slotOf_le. Qed.

Lemma tokenSum_credited s' key v : is_word v -> tokenSum (credited s' T key v) T = tokenSum s' T - balanceIn s' T key + v.
Proof.
  intros Hv. unfold credited. cbn [SetStorage State_StateDB]. rewrite tokenSum_SetStorage, wrap_small, be2z_wordToHash by done. done.
Qed.

Lemma balanceIn_credited s' key v key' : is_word v ->
  balanceIn (credited s' T key v) T key' = if decide (slotKey key = slotKey key') then v else balanceIn s' T key'.
Proof.
  intros Hv. unfold credited, balanceIn. cbn [SetStorage GetStorage State_StateDB]. rewrite GetStorage_SetStorage.
  case_decide; [|done]. by rewrite wrap_small, be2z_wordToHash.
Qed.

Lemma balanceIn_AddLog s' l key : balanceIn (State_AddLog s' l) T key = balanceIn s' T key.
Proof. done. Qed.

Lemma debit_word : is_word (balanceIn s T caller - amount).
Proof. pose proof (balanceIn_le s caller). unfold is_word. lia. Qed.

Lemma tokenSum_debited : tokenSum s1 T = tokenSum s T - amount.
Proof. unfold debited. rewrite tokenSum_credited by apply debit_word. lia. Qed.

(** The sum bounds the credit: it does not wrap. *)
Lemma credit_word : is_word (amount + balanceIn s1 T to).
Proof. pose proof (balanceIn_le s1 to) as Hb. rewrite tokenSum_debited in Hb. unfold is_word. lia. Qed.

Lemma tokenSum_moved : tokenSum s2 T = tokenSum s T.
Proof. rewrite tokenSum_credited by apply credit_word. rewrite tokenSum_debited. lia. Qed.

End Transfers.

(** ** The supply *)

Section Supply.
Context `{Crypto} `{Bn256}.
Context (T : Address) (code : list byte) (n : Z).
Hypothesis code_ok : ERC20Runtime = Ok code.
Hypothesis n_word : n < tt256.

#[local] Abbreviation I := (fun m => slotSum m = n).

(** Instructions that write storage or log keep the savepoints. *)
Lemma wrote_Kept d (w w' : option State) : wrote w w' -> forall s, w = Some s -> Kept T code I d s ->
  exists s', w' = Some s' /\ Kept T code I d s'.
Proof.
  induction 1 as [w|s0 a k v w _ IH|s0 l w _ IH]; intros s E Hk.
  - eauto.
  - injection E as <-. eapply IH; [done|]. by apply Kept_SetStorage.
  - injection E as <-. eapply IH; [done|]. by apply Kept_AddLog.
Qed.

Lemma Code_SetStorage s a k v b : Code (State_Get (State_SetStorage s a k v) b) = Code (State_Get s b).
Proof. rewrite Get_SetStorage. case_decide; subst; [|done]. by destruct (Hash_IsZero v). Qed.

Lemma credited_Kept d s key v :
  Kept T code I d s -> Code (State_Get s T) = code ->
  Kept T code I d (credited s T key v) /\ Code (State_Get (credited s T key v) T) = code.
Proof. intros Hk Hc. split; [by apply Kept_SetStorage|]. unfold credited. cbn [SetStorage State_StateDB]. by rewrite Code_SetStorage. Qed.

Lemma debited_credited (s : State) caller amount :
  debited s T caller amount = credited s T caller (balanceIn s T caller - amount).
Proof. reflexivity. Qed.

Lemma moved_AddLog (s : State) caller to amount sig :
  moved sig s T caller to amount
  = State_AddLog (credited (debited s T caller amount) T to (amount + balanceIn (debited s T caller amount) T to))
      (mkLog T [wordToHash (be2z sig); wordToHash caller; wordToHash to] (be_fixed 32 amount)).
Proof. reflexivity. Qed.

Lemma moved_J d s caller to amount sig :
  0 <= amount <= balanceIn s T caller -> J T code I d s -> J T code I d (moved sig s T caller to amount).
Proof.
  intros Ha [Hk [Hc Hn]]. assert (tokenSum s T < tt256) as Hsum by (unfold tokenSum; by rewrite Hn).
  pose proof (tokenSum_moved s T caller to amount Hsum Ha) as Hm. rewrite moved_AddLog.
  pose proof (credited_Kept d s caller (balanceIn s T caller - amount) Hk Hc) as [Hk1 Hc1].
  change (credited s T caller (balanceIn s T caller - amount)) with (debited s T caller amount) in Hk1, Hc1.
  remember (debited s T caller amount) as s1 eqn:E1. clear E1.
  pose proof (credited_Kept d s1 to (amount + balanceIn s1 T to) Hk1 Hc1) as [Hk2 Hc2].
  apply J_AddLog. split; [exact Hk2|]. split; [exact Hc2|]. by rewrite <- Hn.
Qed.

Lemma token_keepsOwn : keepsOwn T code I.
Proof.
  intros k input g ctx dep s d HT Hs. pose proof (erc20_runs code input ctx dep s code_ok) as Hr.
  apply runs_execute with (g := g) (k := k) in Hr as [[_ ->]|Hr]; [done|]. destruct (_ <=? g).
  - rewrite Hr. unfold erc20. rewrite HT. destruct (_ =? _); [|destruct (_ =? _)]; cbn [fst snd answered leaves].
    + destruct (Z.leb_spec (inputWord input 36) (balanceIn s T (be2z (abytes (c_Caller ctx))))); [destruct (c_Static ctx)|]; cbn [fst snd answered leaves].
      * exists s. split_and!; [done|apply Hs|done].
      * eexists. split; [done|]. eapply moved_J in Hs as [Hk Hh]; [split; [exact Hk|intros _; exact Hh]|].
        split; [|done]. apply be2z_range.
      * exists s. split_and!; [done|apply Hs|done].
    + exists s. split_and!; [done|apply Hs|intros _; apply Hs].
    + exists s. split_and!; [done|apply Hs|done].
  - destruct Hr as (w & Hw & ->). destruct (wrote_Kept d _ _ Hw s eq_refl (proj1 Hs)) as (s' & -> & Hk).
    cbn. exists s'. split_and!; [done|done|done].
Qed.

End Supply.

(** ** Calldata *)

Lemma inputWord_at a b c : len b = 32 -> inputWord (a ++ b ++ c) (len a) = be2z b.
Proof.
  intros Hb. unfold inputWord, padded. assert (take (Z.to_nat 32) (drop (Z.to_nat (len a)) (a ++ b ++ c)) = b) as ->.
  { unfold len in *. rewrite Nat2Z.id, drop_app_length. apply take_app_length'. lia. }
  rewrite Hb. by rewrite app_nil_r.
Qed.

(** The selector is the first four bytes. *)
Lemma selector_of s4 rest : len s4 = 4 -> 28 <= len rest -> wrap (binop_word SHR 224 (inputWord (s4 ++ rest) 0)) = be2z s4.
Proof.
  intros Hs Hr. assert (inputWord (s4 ++ rest) 0 = be2z s4 * 2 ^ 224 + be2z (take 28 rest)) as E.
  { rewrite <- (take_drop 28 rest) at 1. rewrite app_assoc.
    pose proof (inputWord_at [] (s4 ++ take 28 rest) (drop 28 rest)) as Hi. cbn [app] in Hi. change (len []) with 0 in Hi. rewrite Hi.
    - rewrite be2z_app. f_equal. unfold len. rewrite length_take. replace (28 `min` length rest)%nat with 28%nat by (unfold len in Hr; lia). done.
    - rewrite len_app, Hs. unfold len in *. rewrite length_take. lia. }
  assert (is_word (inputWord (s4 ++ rest) 0)) as Hw by (apply be2z_word; rewrite len_padded; lia).
  destruct (unsigned_spec 224 (inputWord (s4 ++ rest) 0)) as (_ & _ & _ & _ & _ & _ & _ & ->); [done|done|]. cbn [Z.leb Z.compare Pos.compare Pos.compare_cont].
  rewrite E. pose proof (be2z_range (take 28 rest)) as Hb. rewrite Z.div_add_l by lia. rewrite Z.div_small; [lia|].
  split; [lia|]. eapply Z.lt_le_trans; [apply Hb|]. change (2 ^ 224) with (256 ^ 28). apply Z.pow_le_mono_r; [lia|].
  unfold len. rewrite length_take. lia.
Qed.

Lemma len_addrWord a : len (addrWord a) = 32.
Proof. unfold addrWord. rewrite len_app, len_abytes. done. Qed.

Lemma be2z_addrWord a : be2z (addrWord a) = be2z (abytes a).
Proof. unfold addrWord. rewrite be2z_app. unfold zeros. rewrite be2z_zeros. lia. Qed.

Lemma TransferCalldata_ok to amount : is_word amount ->
  TransferCalldata to amount = Ok ([xa9; x05; x9c; xbb] ++ addrWord to ++ be_fixed 32 amount).
Proof.
  intros Ha. unfold TransferCalldata, appendAll, adr, FillBytes. unfold is_word in Ha. rewrite Z.abs_eq by lia.
  change (256 ^ Z.of_nat 32) with tt256. rewrite (proj2 (Z.leb_gt _ _)) by lia. done.
Qed.

Lemma TransferCalldata_fields to amount data : is_word amount -> TransferCalldata to amount = Ok data ->
  wrap (binop_word SHR 224 (inputWord data 0)) = TransferSelector
  /\ inputWord data 4 = be2z (abytes to) /\ inputWord data 36 = amount.
Proof.
  intros Ha. rewrite TransferCalldata_ok by done. intros E.
  assert (data = [xa9; x05; x9c; xbb] ++ addrWord to ++ be_fixed 32 amount) as -> by congruence.
  split_and!.
  - rewrite selector_of; [done|done|]. rewrite len_app, len_addrWord, len_be_fixed. lia.
  - rewrite <- be2z_addrWord. apply (inputWord_at [xa9; x05; x9c; xbb]). apply len_addrWord.
  - rewrite app_assoc, <- (app_nil_r (be_fixed 32 amount)).
    replace 36 with (len ([xa9; x05; x9c; xbb] ++ addrWord to)) by (rewrite len_app, len_addrWord; done).
    rewrite inputWord_at by apply len_be_fixed. rewrite be2z_be_fixed. by apply Z.mod_small.
Qed.

Lemma BalanceOfCalldata_fields a :
  wrap (binop_word SHR 224 (inputWord (BalanceOfCalldata a) 0)) = balanceOfSelector
  /\ inputWord (BalanceOfCalldata a) 4 = be2z (abytes a).
Proof.
  unfold BalanceOfCalldata. split.
  - rewrite selector_of; [done|done|]. rewrite len_addrWord. lia.
  - pose proof (inputWord_at [x70; xa0; x82; x31] (addrWord a) [] (len_addrWord a)) as Hi. rewrite app_nil_r, be2z_addrWord in Hi. exact Hi.
Qed.

(** ** The ledger *)

Section Ledger.
Context `{Crypto} `{Bn256}.

(** The balance of an address, as [BalanceSlot] finds it. *)
Definition ledger (s : State) (T a : Address) : Z := be2z (abytes (State_GetStorage s T (BalanceSlot a))).

(** The specification of a transfer, also to oneself. *)
Definition transferred (l : Address -> Z) (from to : Address) (amount : Z) (a : Address) : Z :=
  l a - (if decide (a = from) then amount else 0) + (if decide (a = to) then amount else 0).

(** No two of the addresses share a storage slot: keccak256 does not collide on them. *)
Definition slots_apart : Prop := forall a b, BalanceSlot a = BalanceSlot b -> a = b.

Lemma ledger_balanceIn (s : State) T a : ledger s T a = balanceIn s T (be2z (abytes a)).
Proof. unfold ledger. by rewrite BalanceSlot_slotKey. Qed.

Lemma writeGas_le (s : State) T key v : 0 < writeGas s T key v <= 20000.
Proof.
  unfold writeGas, sstoreGas, SstoreNoopGas, SstoreSetGas, SstoreResetGas. destruct (array_eqb _ _); [lia|].
  destruct (Hash_IsZero _); lia.
Qed.

Lemma moved_ledger (s : State) T from to amount sig a :
  slots_apart -> tokenSum s T < tt256 -> 0 <= amount <= ledger s T from ->
  ledger (moved sig s T (be2z (abytes from)) (be2z (abytes to)) amount) T a = transferred (ledger s T) from to amount a.
Proof.
  intros Hap Hsum Ha. rewrite ledger_balanceIn in Ha.
  pose proof (debit_word s T _ amount Hsum Ha) as Hw1. pose proof (credit_word s T _ (be2z (abytes to)) amount Hsum Ha) as Hw2.
  rewrite moved_AddLog.
  rewrite ledger_balanceIn.
  rewrite balanceIn_AddLog, balanceIn_credited by done. unfold debited in *. rewrite !balanceIn_credited in * by done.
  rewrite <- !BalanceSlot_slotKey in *. unfold transferred. rewrite !ledger_balanceIn.
  assert (forall x y, (BalanceSlot x = BalanceSlot y) <-> y = x) as Hiff by (intros x y; split; [intros E; symmetry; auto|by intros ->]).
  repeat case_decide; rewrite ?Hiff in *; subst; try done; lia.
Qed.

End Ledger.

Lemma wrote_Some (w w' : option State) : wrote w w' -> forall s, w = Some s -> exists s', w' = Some s'.
Proof. induction 1; intros; eauto. Qed.

(** ** Properties *)

(** Everything of an account but its storage. *)
Definition same_but_storage (s s' : State) (T : Address) : Prop :=
  (forall a, a <> T -> State_Get s' a = State_Get s a)
  /\ Balance (State_Get s' T) = Balance (State_Get s T) /\ Nonce (State_Get s' T) = Nonce (State_Get s T)
  /\ Code (State_Get s' T) = Code (State_Get s T).

Lemma same_but_credited `{Crypto} (s s' : State) T key v :
  same_but_storage s s' T -> same_but_storage s (credited s' T key v) T.
Proof.
  intros (Ho & Hb & Hn & Hc). unfold credited. cbn [SetStorage State_StateDB]. unfold same_but_storage.
  rewrite Get_SetStorage, decide_True by done. split.
  - intros a Ha. rewrite Get_SetStorage, decide_False by congruence. auto.
  - by destruct (Hash_IsZero _).
Qed.

Lemma same_but_AddLog (s s' : State) T l : same_but_storage s s' T -> same_but_storage s (State_AddLog s' l) T.
Proof. done. Qed.

Lemma same_but_moved `{Crypto} (s : State) T caller to amount sig : same_but_storage s (moved sig s T caller to amount) T.
Proof.
  rewrite moved_AddLog. apply same_but_AddLog, same_but_credited. rewrite debited_credited. by apply same_but_credited.
Qed.

Lemma logs_credited `{Crypto} (s : State) T key v : logs (credited s T key v) = logs s.
Proof. unfold credited. cbn [SetStorage State_StateDB]. unfold State_SetStorage. apply set_fields. Qed.

Lemma logs_moved `{Crypto} (s : State) T caller to amount :
  logs (moved (abytes TransferEventTopic) s T caller to amount)
  = logs s ++ [mkLog T [TransferEventTopic; wordToHash caller; wordToHash to] (be_fixed 32 amount)].
Proof.
  rewrite moved_AddLog, wordToHash_be2z. cbn [logs State_AddLog]. rewrite logs_credited. unfold debited. by rewrite logs_credited.
Qed.

(** C17: The token's bytecode implements a ledger.  Run with the calldata that [TransferCalldata] builds, on
    any state in which the balances add up to a word and no two addresses share a slot, it ends in one of
    three ways: it moves exactly the amount from the caller to the recipient (also to the caller itself),
    returns the word 1, logs one Transfer event and changes nothing but its own storage; or the caller has
    less than the amount, and it reverts and changes nothing; or it runs out of gas, which takes less than
    44619 units. *)
Theorem erc20_transfer `{Crypto} `{Bn256} code data s ctx to amount g :
  slots_apart -> ERC20Runtime = Ok code -> TransferCalldata to amount = Ok data -> is_word amount -> 0 <= g ->
  tokenSum s (c_Address ctx) < tt256 -> c_Static ctx = false ->
  let T := c_Address ctx in
  let from := c_Caller ctx in
  exists r s', Run code data g ctx (Some s) = Ran r (Some s') /\
    ((amount <= ledger s T from /\ r_Err r = None /\ Ret r = be_fixed 32 1
      /\ (forall a, ledger s' T a = transferred (ledger s T) from to amount a)
      /\ logs s' = logs s ++ [mkLog T [TransferEventTopic; wordToHash (be2z (abytes from)); wordToHash (be2z (abytes to))]
                                (be_fixed 32 amount)]
      /\ same_but_storage s s' T)
     \/ (ledger s T from < amount /\ r_Err r = Some ErrReverted /\ s' = s)
     \/ (g < 44619 /\ r_Err r = Some ErrOutOfGas)).
Proof.
  intros Hap Hcode Hdata Ha Hg Hsum Hst T from. destruct (TransferCalldata_fields to amount data Ha Hdata) as (Hsel & Hto & Ham).
  pose proof (runs_Run _ _ _ _ _ _ g (erc20_runs code data ctx 0 s Hcode) Hg) as Hr.
  assert (exists need, need <= 44619 /\ erc20 ctx data s = (need, if amount <=? ledger s T from
    then Returned (be_fixed 32 1) (moved (abytes TransferEventTopic) s T (be2z (abytes from)) (be2z (abytes to)) amount) else Refused))
    as (need & Hn & E).
  { unfold erc20. rewrite Hsel, Hto, Ham, Hst, Z.eqb_refl, ledger_balanceIn. fold T from.
    pose proof (writeGas_le s T (be2z (abytes from)) (balanceIn s T (be2z (abytes from)) - amount)).
    pose proof (writeGas_le (debited s T (be2z (abytes from)) amount) T (be2z (abytes to))
      (amount + balanceIn (debited s T (be2z (abytes from)) amount) T (be2z (abytes to)))).
    destruct (amount <=? _); eexists; (split; [|reflexivity]); lia. }
  rewrite E in Hr. cbn [fst snd] in Hr.
  destruct (Z.leb_spec need g).
  - destruct (Z.leb_spec amount (ledger s T from)); cbn [answered] in Hr; rewrite Hr; do 2 eexists; (split; [done|]).
    + left. cbn [r_Err Ret]. split_and!; [done|done|done| |apply logs_moved|apply same_but_moved].
      intros b. apply moved_ledger; [done|done|]. unfold is_word in Ha. lia.
    + right. left. done.
  - destruct Hr as (w & Hw & ->). destruct (wrote_Some _ _ Hw s eq_refl) as [s' ->]. do 2 eexists. split; [done|].
    right. right. split; [lia|done].
Qed.

(** [balanceOf] answers with the ledger's entry, for 946 units of gas, and changes nothing, also in a static call. *)
Lemma erc20_balanceOf `{Crypto} `{Bn256} code s ctx a g : ERC20Runtime = Ok code -> 946 <= g ->
  Run code (BalanceOfCalldata a) g ctx (Some s)
  = Ran (mkResult (be_fixed 32 (ledger s (c_Address ctx) a)) (g - 946) None) (Some s).
Proof.
  intros Hcode Hg. pose proof (runs_Run _ _ _ _ _ _ g (erc20_runs code (BalanceOfCalldata a) ctx 0 s Hcode) ltac:(lia)) as Hr.
  unfold erc20 in Hr. destruct (BalanceOfCalldata_fields a) as [Hsel Ha]. rewrite Hsel, Ha in Hr.
  change (balanceOfSelector =? TransferSelector) with false in Hr. rewrite Z.eqb_refl in Hr. cbn [fst snd answered] in Hr.
  rewrite <- ledger_balanceIn, (proj2 (Z.leb_le _ _)) in Hr by lia. exact Hr.
Qed.

(** The account at [T] is a token whose balances add up to [n]. *)
Definition isToken `{Crypto} (s : State) (T : Address) (n : Z) : Prop :=
  ERC20Runtime = Ok (Code (State_Get s T)) /\ tokenSum s T = n.

Lemma runtime_nonempty `{Crypto} code : ERC20Runtime = Ok code -> code <> [].
Proof. rewrite ERC20Runtime_code. intros [= <-]. done. Qed.

(** C18: A token's supply is constant.  Whatever the transactions of a block do (call the token, call contracts that
    call it, fail inside it, create contracts), after any chain of blocks the token still has its code, and
    the sum over all its balances is what it was. *)
Theorem token_supply `{Crypto} `{Bn256} split s0 k s T n :
  executes split s0 k s -> isToken s0 T n -> n < tt256 -> isToken s T n.
Proof.
  intros Hx Ht Hn. induction Hx as [|k s b ph s' rs _ IH _ _ _ E]; [done|]. destruct IH as [Hc Hs].
  destruct (ApplyBlock_rests T (Code (State_Get s T)) (fun m => slotSum m = n)) with split s b ph s' rs as [_ [Hc' Hs']];
    [by apply runtime_nonempty|by apply token_keepsOwn|done|done|]. split; [by rewrite Hc'|exact Hs'].
Qed.

(** ** Deployment *)

Lemma ERC20Init_code `{Crypto} supply code : 0 <= supply < tt256 -> ERC20Init supply = Ok code ->
  code = initHead ++ be_fixed 32 supply ++ (initTail ++ tokenCode (abytes TransferEventTopic)).
Proof.
  intros Hs. unfold ERC20Init, FillBytes. rewrite ERC20Runtime_code. cbn [res_bind]. rewrite Z.abs_eq by lia.
  change (256 ^ Z.of_nat 32) with tt256. rewrite (proj2 (Z.leb_gt _ _)), len_tokenCode by (lia || apply abytes_length). cbn [res_bind].
  rewrite init_assembled by apply length_be_fixed. cbn [res_bind]. rewrite <- !app_assoc. intros E. congruence.
Qed.

(** The account keeps its code and storage. *)
Definition kept_at (T : Address) (s s' : State) : Prop :=
  Code (State_Get s' T) = Code (State_Get s T) /\ Storage (State_Get s' T) = Storage (State_Get s T).

Lemma kept_Credit T s a v : kept_at T s (Credit s a v).
Proof. unfold kept_at. rewrite Get_Credit. by case_decide; subst. Qed.

Lemma kept_Burn T s v : kept_at T s (Burn s v).
Proof. unfold kept_at. by rewrite Get_Burn. Qed.

Lemma kept_set T s a acc : Code acc = Code (State_Get s a) -> Storage acc = Storage (State_Get s a) -> kept_at T s (State_set s a acc).
Proof. intros Hc Hs. unfold kept_at. rewrite Get_set. by case_decide; subst. Qed.

Lemma kept_trans T s1 s2 s3 : kept_at T s1 s2 -> kept_at T s2 s3 -> kept_at T s1 s3.
Proof. unfold kept_at. intros [-> ->] [-> ->]. done. Qed.

Lemma finishTx_success snap logStart intrinsic g maxFee gp sender cb vmErr used s used' logs' s' T :
  finishTx snap logStart intrinsic g maxFee gp sender cb vmErr used s = (used', ReceiptSuccess, logs', s') ->
  vmErr = None /\ kept_at T s s'.
Proof.
  destruct vmErr; [by intros [=]|]. intros E. split; [done|]. apply (f_equal snd) in E. cbn [snd] in E. rewrite <- E. clear E.
  unfold finishTx, distributeFee. cbn [snd].
  eapply kept_trans; [|apply kept_Credit]. eapply kept_trans; [|apply kept_Burn].
  destruct (0 <? _); [|done]. by apply (kept_Credit T (DiscardSnapshots s)).
Qed.

(** The init code, run on an account with no storage. *)
Lemma run_deploy `{Crypto} `{Bn256} supply code g ctx (s : State) :
  0 <= supply < tt256 -> ERC20Init supply = Ok code -> 0 <= g -> c_Static ctx = false ->
  let x := Run code [] g ctx (Some s) in
  (exists w, x = Ran (mkResult [] 0 (Some ErrOutOfGas)) w)
  \/ exists gasLeft rt, ERC20Runtime = Ok rt /\ x = Ran (mkResult rt gasLeft None)
       (Some (State_SetStorage s (c_Address ctx) (BalanceSlot (c_Caller ctx)) (wordToHash supply))).
Proof.
  intros Hs Hi Hg Hst x. apply ERC20Init_code in Hi; [|done]. pose proof ERC20Runtime_code as Hrt.
  assert (len (tokenCode (abytes TransferEventTopic)) = 222) as Hl by apply len_tokenCode, abytes_length.
  remember (tokenCode (abytes TransferEventTopic)) as rt eqn:Ert. clear Ert.
  pose proof (run_init (be_fixed 32 supply) rt (mkFrame code [] (analyseJumpdests code) ctx 0) (length_be_fixed _ _) Hl Hi s Hst) as Hr.
  apply (runs_Run _ _ _ _ _ _ g) in Hr; [|done]. fold x in Hr. cbn [f_ctx] in Hr.
  rewrite <- BalanceSlot_slotKey, be2z_be_fixed, Z.mod_small in Hr by done. destruct (_ <=? g).
  - right. cbv beta in Hr. cbn [SetStorage State_StateDB] in Hr. rewrite Hr. exists (g - (131 + sstoreGas (GetStorage s (c_Address ctx) (BalanceSlot (c_Caller ctx))) (wordToHash supply))), rt. split; [exact Hrt|reflexivity].
  - left. destruct Hr as (w & _ & ->). eauto.
Qed.

Lemma depositCode_None addr g r s used s' : depositCode addr g r s = (None, used, s') -> r_Err r = None /\ s' = State_SetCode s addr (Ret r).
Proof. unfold depositCode. destruct (r_Err r); [done|]. destruct (_ <? _); [done|]. destruct (_ <? _); [done|]. by intros [= _ <-]. Qed.

Lemma ledger_SetCode `{Crypto} s T rt a : ledger (State_SetCode s T rt) T a = ledger s T a.
Proof. unfold ledger. by rewrite !GetStorage_slot, Get_SetCode, decide_True. Qed.

Lemma isToken_SetCode `{Crypto} s T rt : ERC20Runtime = Ok rt -> isToken (State_SetCode s T rt) T (tokenSum s T).
Proof. intros Hrt. unfold isToken, tokenSum. by rewrite Get_SetCode, decide_True. Qed.

Lemma minted_sum s T k v : Storage (State_Get s T) = ∅ -> is_word v -> tokenSum (State_SetStorage s T k (wordToHash v)) T = v.
Proof.
  intros Hs Hv. rewrite tokenSum_SetStorage, GetStorage_slot, be2z_wordToHash by done. unfold tokenSum, slotOf. rewrite Hs.
  change (slotSum ∅) with 0. rewrite lookup_empty. cbn [default]. rewrite be2z_ZeroHash. lia.
Qed.

Lemma minted_ledger `{Crypto} s T a v : is_word v -> ledger (State_SetStorage s T (BalanceSlot a) (wordToHash v)) T a = v.
Proof. intros Hv. unfold ledger. rewrite GetStorage_SetStorage, decide_True by done. by apply be2z_wordToHash. Qed.

Lemma execMessage_deploy `{Crypto} `{Bn256} s tx sender cb lim g value supply T used s' :
  0 <= supply < tt256 -> ERC20Init supply = Ok (tx_Data tx) -> tx_To tx = None -> 0 <= g ->
  CreateAddress sender (tx_Nonce tx) = Ok T -> Storage (State_Get s T) = ∅ ->
  execMessage s tx sender cb lim g value = Returns (None, used, s') ->
  isToken s' T supply /\ ledger s' T sender = supply.
Proof.
  intros Hs Hi Hto Hg HT Hst. unfold execMessage. rewrite Hto, HT. destruct (_ || _); [done|].
  set (s1 := Credit s T value). assert (Storage (State_Get s1 T) = ∅) as H1.
  { rewrite <- Hst. apply (kept_Credit T s T value). }
  clearbody s1. destruct (run_deploy supply (tx_Data tx) g (txEnv s1 tx sender cb lim T) s1 Hs Hi Hg eq_refl) as [[w ->]|(left & rt & Hrt & ->)].
  - by destruct w.
  - intros E. assert (forall x y : option error * Z * State, @Returns error _ x = Returns y -> x = y) as Hinj by (by intros x y [=]).
    apply Hinj, depositCode_None in E as [_ ->]. cbn [Ret]. split.
    + rewrite <- (minted_sum s1 T (BalanceSlot sender) supply H1 Hs) at 2. by apply isToken_SetCode.
    + rewrite ledger_SetCode. by apply minted_ledger.
Qed.

Lemma isToken_kept `{Crypto} s s' T n : kept_at T s s' -> isToken s T n -> isToken s' T n.
Proof. unfold isToken, tokenSum. by intros [-> ->]. Qed.

Lemma ledger_kept `{Crypto} s s' T a : kept_at T s s' -> ledger s' T a = ledger s T a.
Proof. intros [_ Hs]. unfold ledger. by rewrite !GetStorage_slot, Hs. Qed.

(** C19: Deploying a token.  A creation transaction with the init code that [ERC20Init] builds for a supply, whose
    receipt is a success, leaves at the new address the token's runtime, with the whole supply on the
    sender's balance and nothing else, if the address had no storage before. *)
Theorem token_deployed `{Crypto} `{Bn256} s tx cb lim supply init sender T used logs' s' :
  0 <= supply < tt256 -> ERC20Init supply = Ok init -> tx_Data tx = init -> tx_To tx = None ->
  Sender tx = Ok sender -> CreateAddress sender (tx_Nonce tx) = Ok T -> Storage (State_Get s T) = ∅ ->
  ApplyTx s tx cb lim = Returns (used, ReceiptSuccess, logs', s') ->
  isToken s' T supply /\ ledger s' T sender = supply.
Proof.
  intros Hs Hi Hd Hto Hsend HT Hst. unfold ApplyTx. rewrite Hsend.
  repeat (destruct (_ <? _); [done|]). destruct (_ && _); [done|].
  destruct (Cost tx), (tx_GasPrice tx) as [gp|], (tx_Value tx) as [value|]; try done. destruct (_ <? _); [done|].
  set (s1 := State_set s sender _). assert (kept_at T s s1) as H1 by by apply kept_set.
  destruct (State_Snapshot s1) as [snap s2] eqn:E2. assert (kept_at T s s2) as H2.
  { assert (s2 = snd (State_Snapshot s1)) as -> by (by rewrite E2). exact H1. }
  set (s3 := State_set s2 sender _). assert (kept_at T s s3) as H3 by (eapply kept_trans; [exact H2|by apply kept_set]).
  destruct (execMessage _ _ _ _ _ _ _) as [[[vmErr used'] s4]| | |] eqn:Ex; try done. intros [= E].
  apply (finishTx_success _ _ _ _ _ _ _ _ _ _ _ _ _ _ T) in E as [-> Hk].
  eapply (execMessage_deploy s3 tx sender cb lim) in Ex as [Ht Hl]; [|exact Hs|by rewrite Hd|done|apply u64_range|done|by rewrite (proj2 H3)].
  split; [by eapply isToken_kept|by rewrite (ledger_kept _ _ _ _ Hk)].
Qed.

(** ** A concrete token *)

#[local] Existing Instance toyCrypto.
#[local] Existing Instance toyBn256.

Definition toyRuntime : list byte := match ERC20Runtime with Ok c => c | _ => [] end.

Lemma toyRuntime_ok : ERC20Runtime = Ok toyRuntime.
Proof. vm_compute. reflexivity. Qed.

(** The key of [toySender] holds all thousand units of the token. *)
Definition tokenState : State :=
  RestoreAccount (RestoreAccount State_New toySender 3 (Some 1000000) ∅ [])
    toyContract 0 None {[BalanceSlot toySender := wordToHash 1000]} toyRuntime.

Definition toyTransfer : list byte := match TransferCalldata toyMiner 300 with Ok d => d | _ => [] end.

Definition tokenTx : Transaction :=
  mkTx TxTypeTransfer 7 3 (Some toyContract) (Some 0) 100000 (Some 2) toyTransfer (x1b :: replicate 64 x01).

Definition tokenDraft : Header :=
  mkHeader (Header_Hash toyParent) 1 2000 (TxRoot [tokenTx]) ZeroHash ZeroHash 0 30000000 toyMiner 1000 0.

Definition tokenBlock : Block :=
  let next := SetBlockContext (ClearTouched (State_Copy tokenState)) 1 2 1000 in
  match applyTxs next [tokenTx] tokenDraft 0 [] with
  | Returns (s, total, rs) =>
      mkBlock (mkHeader (ParentHash tokenDraft) 1 2000 (h_TxRoot tokenDraft) (ReceiptRoot rs)
                 (Root (CreditBlockReward toySplit s toyMiner 1)) total 30000000 toyMiner 1000 0) [tokenTx]
  | _ => mkBlock tokenDraft []
  end.

Definition tokenAfter : State :=
  match ApplyBlock toySplit tokenState tokenBlock (Some toyParent) with Returns (s, _) => s | _ => tokenState end.

Lemma toy_slots_apart : slots_apart.
Proof.
  assert (forall x, abytes (BalanceSlot x) = zeros 12 ++ abytes x) as Hb.
  { intros x. unfold BalanceSlot, Keccak256. cbn [keccak256 toyCrypto concat]. rewrite app_nil_r, app_assoc.
    unfold array_of, copy_to. cbn [abytes]. rewrite <- app_assoc. apply take_app_length'. rewrite length_app, abytes_length. done. }
  intros a b E. apply (f_equal abytes) in E. rewrite !Hb in E. apply app_inv_head in E. by apply array_eq.
Qed.

Lemma tokenBlock_executes : executes toySplit tokenState 1 tokenAfter.
Proof.
  assert (is_return (ApplyBlock toySplit tokenState tokenBlock (Some toyParent)) = true) as E by (vm_compute; reflexivity).
  assert (b_Txs tokenBlock = [tokenTx]) as Etx by (vm_compute; reflexivity).
  unfold tokenAfter.
  destruct (ApplyBlock toySplit tokenState tokenBlock (Some toyParent)) as [[s' rs]| | |] eqn:Ea; [|discriminate E..].
  apply (EX_block toySplit tokenState 0 tokenState tokenBlock (Some toyParent) s' rs); [constructor|vm_compute; reflexivity| | |exact Ea].
  - rewrite Etx. constructor; [|constructor].
    split; unfold is_u64; cbn [tokenTx tx_Nonce tx_GasLimit tx_Value tx_GasPrice]; [lia|lia|exists 0|exists 2|vm_compute; done]; (split; [done|lia]).
  - assert (h_GasLimit (b_Header tokenBlock) = 30000000) as -> by (vm_compute; reflexivity). unfold maxGas. lia.
Qed.

Definition toyCtx : Context := probeContext toySender 0 toyContract.

Lemma tokenSum_toy : tokenSum tokenState toyContract = 1000.
Proof. vm_compute. reflexivity. Qed.

Lemma erc20_transfer_witness :
  exists r s', Run toyRuntime toyTransfer 50000 toyCtx (Some tokenState) = Ran r (Some s')
    /\ r_Err r = None /\ ledger s' toyContract toyMiner = 300 /\ ledger s' toyContract toySender = 700.
Proof.
  destruct (erc20_transfer toyRuntime toyTransfer tokenState toyCtx toyMiner 300 50000)
    as (r & s' & E & [(Ha & Hr & _ & Hl & _)|[(Ha & _)|(Hg & _)]]).
  - apply toy_slots_apart.
  - apply toyRuntime_ok.
  - vm_compute. reflexivity.
  - unfold is_word. split; [lia|reflexivity].
  - lia.
  - change (c_Address toyCtx) with toyContract. rewrite tokenSum_toy. reflexivity.
  - reflexivity.
  - exists r, s'. split; [exact E|]. split; [exact Hr|].
    change (c_Address toyCtx) with toyContract in *. change (c_Caller toyCtx) with toySender in *. rewrite !Hl. split; vm_compute; reflexivity.
  - assert (ledger tokenState (c_Address toyCtx) (c_Caller toyCtx) = 1000) as E' by (vm_compute; reflexivity). lia.
  - lia.
Defined.

Lemma token_supply_witness :
  ledger tokenAfter toyContract toyMiner = 300 /\ isToken tokenAfter toyContract 1000.
Proof.
  split; [vm_compute; reflexivity|]. apply (token_supply toySplit tokenState 1); [apply tokenBlock_executes| |reflexivity].
  split; [vm_compute; reflexivity|apply tokenSum_toy].
Defined.

(** A creation transaction of the same sender. *)
Definition toyInit : list byte := match ERC20Init 1000 with Ok d => d | _ => [] end.

Definition deployTx : Transaction :=
  mkTx TxTypeTransfer 7 3 None (Some 0) 300000 (Some 2) toyInit (x1b :: replicate 64 x01).

Definition toyToken : Address := match CreateAddress toySender 3 with Ok a => a | _ => ZeroAddress end.

Lemma deployTx_sender : Sender deployTx = Ok toySender.
Proof. vm_compute. reflexivity. Qed.

Lemma deployTx_succeeds :
  exists used logs' s', ApplyTx toyState deployTx toyMiner 30000000 = Returns (used, ReceiptSuccess, logs', s').
Proof.
  assert (match ApplyTx toyState deployTx toyMiner 30000000 with Returns (_, st, _, _) => st =? ReceiptSuccess | _ => false end = true)
    as Hok by (vm_compute; reflexivity).
  destruct (ApplyTx toyState deployTx toyMiner 30000000) as [[[[used st] logs'] s']| | |]; [|discriminate Hok..].
  apply Z.eqb_eq in Hok as ->. by exists used, logs', s'.
Qed.

Lemma toyInit_ok : ERC20Init 1000 = Ok toyInit.
Proof. vm_compute. reflexivity. Qed.

Lemma toyToken_ok : CreateAddress toySender (tx_Nonce deployTx) = Ok toyToken.
Proof. vm_compute. reflexivity. Qed.

Lemma toyToken_fresh : Storage (State_Get toyState toyToken) = ∅.
Proof. vm_compute. reflexivity. Qed.

Lemma token_deployed_witness :
  exists used logs' s', ApplyTx toyState deployTx toyMiner 30000000 = Returns (used, ReceiptSuccess, logs', s')
    /\ isToken s' toyToken 1000 /\ ledger s' toyToken toySender = 1000.
Proof.
  destruct deployTx_succeeds as (used & logs' & s' & E). exists used, logs', s'. split; [exact E|].
  apply (token_deployed toyState deployTx toyMiner 30000000 1000 toyInit toySender toyToken used logs' s');
    [split; [discriminate|reflexivity]|exact toyInit_ok|reflexivity|reflexivity|exact deployTx_sender|exact toyToken_ok|exact toyToken_fresh|exact E].
Defined.
