(* ===== verification/Peg.v ===== *)
(** * The peg contracts (contracts/solidity/Peg.sol)

    [WrappedLXS] is the ERC-20 on the other chain, [PegVault] the contract on
    LXS that holds the native coin behind it.  One definition per function;
    [WrappedLXS_call] and [PegVault_call] are the contracts as a caller sees
    them.  [release] sends native coin to an address whose code may call the
    vault again before it returns: a call of the vault carries the calls that
    the recipient makes in turn ([inside]), so that every re-entrant execution
    is a finite tree. *)
From stdpp Require Import base numbers list gmap.
From Stdlib Require Import ZArith Lia Strings.Byte.
From Stdlib Require Strings.String.
Import Strings.String.StringSyntax.
From S2P Require Import Prelude Common.
#[local] Open Scope string_scope.
#[local] Open Scope Z_scope.
#[local] Open Scope list_scope.

(** * Solidity, as the contracts of the repository use it

    A call either ends or reverts with a reason, and what reverts changes
    nothing: [sol].  Integers are 256 bits wide and their arithmetic is checked
    (solc 0.8): [uadd], [usub], [umul] and [udiv] revert where the machine
    would wrap or divide by zero.  A mapping is a finite map whose missing keys
    read as zero.  [token] is the state that every ERC-20 of the repository
    has, with the events it emitted; the operations are the code they share.
    The compiled bytecode is not the subject here: the source is. *)

Inductive sol (A : Type) : Type :=
  | Good (a : A)
  | Revert (why : String.string).
Arguments Good {A} a.
Arguments Revert {A} why%_string_scope.

Definition sol_bind {A B} (c : sol A) (k : A -> sol B) : sol B :=
  match c with Good a => k a | Revert why => Revert why end.

Declare Scope sol_scope.
Notation "'let!' x := c 'in' k" := (sol_bind c (fun x => k))
  (at level 10, x pattern, c at level 100, k at level 200) : sol_scope.
Notation "c ;; k" := (sol_bind c (fun _ => k)) (at level 100, k at level 200, right associativity) : sol_scope.
#[local] Open Scope sol_scope.

Definition require (b : bool) (why : String.string) : sol unit := if b then Good tt else Revert why.
Arguments require b why%_string_scope.

(** ** Unsigned integers of 256 bits *)

Definition UintMax : Z := 2 ^ 256 - 1.
Definition is_uint (x : Z) : Prop := 0 <= x <= UintMax.

Definition uadd (a b : Z) : sol Z := if a + b <=? UintMax then Good (a + b) else Revert "panic: overflow".
Definition usub (a b : Z) : sol Z := if b <=? a then Good (a - b) else Revert "panic: underflow".
Definition umul (a b : Z) : sol Z := if a * b <=? UintMax then Good (a * b) else Revert "panic: overflow".
Definition udiv (a b : Z) : sol Z := if b =? 0 then Revert "panic: division by zero" else Good (a / b).

(** Addresses compare as numbers. *)
Definition addr_ltb (a b : Address) : bool := be2z (abytes a) <? be2z (abytes b).

(** ** Mappings *)

Section Mapping.
Context {K : Type} `{Countable K}.

Definition at_ (m : gmap K Z) (k : K) : Z := default 0 (m !! k).
Definition upd (m : gmap K Z) (k : K) (v : Z) : gmap K Z := <[k := v]> m.
Definition total (m : gmap K Z) : Z := map_fold (fun _ v acc => v + acc) 0 m.

Lemma at_upd m k v k' : at_ (upd m k v) k' = if decide (k = k') then v else at_ m k'.
Proof. unfold at_, upd. destruct (decide (k = k')) as [->|]; [by rewrite lookup_insert_eq|by rewrite lookup_insert_ne]. Qed.

Lemma total_fresh m k v : m !! k = None -> total (<[k := v]> m) = v + total m.
Proof. intros Hm. unfold total. rewrite map_fold_insert_L; [done| |done]. intros. lia. Qed.

Lemma total_upd m k v : total (upd m k v) = total m - at_ m k + v.
Proof.
  unfold upd, at_. destruct (m !! k) as [w|] eqn:E; cbn [default].
  - rewrite <- insert_delete_eq, total_fresh by apply lookup_delete_eq.
    rewrite <- (insert_delete_id m k w E) at 2. rewrite total_fresh by apply lookup_delete_eq. cbn. lia.
  - rewrite total_fresh by done. cbn. lia.
Qed.

(** Every entry is a number that is not negative. *)
Definition nonneg (m : gmap K Z) : Prop := forall k, 0 <= at_ m k.

Lemma nonneg_upd m k v : nonneg m -> 0 <= v -> nonneg (upd m k v).
Proof. intros Hm Hv k'. rewrite at_upd. case_decide; [done|apply Hm]. Qed.

Lemma total_nonneg m : nonneg m -> 0 <= total m.
Proof.
  induction m as [|k v m Hm _ IH] using map_first_key_ind; intros Hn; [done|]. rewrite total_fresh by done.
  assert (0 <= v) by (specialize (Hn k); unfold at_ in Hn; by rewrite lookup_insert_eq in Hn).
  assert (nonneg m).
  { intros k'. specialize (Hn k'). unfold at_ in *. destruct (decide (k = k')) as [<-|]; [by rewrite Hm|by rewrite lookup_insert_ne in Hn]. }
  specialize (IH H1). lia.
Qed.

Lemma at_le_total m k : nonneg m -> at_ m k <= total m.
Proof.
  intros Hm. pose proof (total_nonneg (upd m k 0)) as Ht. rewrite total_upd in Ht.
  assert (nonneg (upd m k 0)) as Hn by (by apply nonneg_upd). specialize (Ht Hn). lia.
Qed.

Lemma at_le_total2 m k k' : nonneg m -> k <> k' -> at_ m k + at_ m k' <= total m.
Proof.
  intros Hm Hk. pose proof (at_le_total (upd m k 0) k') as Ht. rewrite total_upd, at_upd, decide_False in Ht by done.
  assert (nonneg (upd m k 0)) as Hn by (by apply nonneg_upd). specialize (Ht Hn). lia.
Qed.

End Mapping.

(** ** Events *)

(** [Event signature indexed data]: the words of the indexed arguments and of the others. *)
Inductive event : Type :=
  | Event (sig : String.string) (indexed data : list Z).
Arguments Event sig%_string_scope indexed data.

Definition addr (a : Address) : Z := be2z (abytes a).

Definition TransferEv (from to : Address) (value : Z) : event :=
  Event "Transfer(address,address,uint256)" [addr from; addr to] [value].
Definition ApprovalEv (owner spender : Address) (value : Z) : event :=
  Event "Approval(address,address,uint256)" [addr owner; addr spender] [value].

(** ** The state of a token *)

Record token : Type := mkToken {
  totalSupply : Z;
  balanceOf : gmap Address Z;
  allowance : gmap (Address * Address) Z;
  t_logs : list event;
}.

Definition emptyToken : token := mkToken 0 ∅ ∅ [].

Definition with_balances (m : gmap Address Z) (t : token) : token := mkToken (totalSupply t) m (allowance t) (t_logs t).
Definition emit (e : event) (t : token) : token := mkToken (totalSupply t) (balanceOf t) (allowance t) (t_logs t ++ [e]).

(** [balanceOf[from] -= v; balanceOf[to] += v; emit Transfer(from, to, v)] *)
Definition token_move (t : token) (from to : Address) (v : Z) : sol token :=
  let! b := usub (at_ (balanceOf t) from) v in
  let t := with_balances (upd (balanceOf t) from b) t in
  let! c := uadd (at_ (balanceOf t) to) v in
  Good (emit (TransferEv from to v) (with_balances (upd (balanceOf t) to c) t)).

(** [totalSupply += v; balanceOf[to] += v; emit Transfer(address(0), to, v)] *)
Definition token_mint (t : token) (to : Address) (v : Z) : sol token :=
  let! s := uadd (totalSupply t) v in
  let! c := uadd (at_ (balanceOf t) to) v in
  Good (emit (TransferEv ZeroAddress to v) (mkToken s (upd (balanceOf t) to c) (allowance t) (t_logs t))).

(** [balanceOf[from] -= v; totalSupply -= v; emit Transfer(from, address(0), v)] *)
Definition token_burn (t : token) (from : Address) (v : Z) : sol token :=
  let! b := usub (at_ (balanceOf t) from) v in
  let! s := usub (totalSupply t) v in
  Good (emit (TransferEv from ZeroAddress v) (mkToken s (upd (balanceOf t) from b) (allowance t) (t_logs t))).

Definition token_approve (t : token) (sender spender : Address) (v : Z) : token :=
  emit (ApprovalEv sender spender v)
    (mkToken (totalSupply t) (balanceOf t) (upd (allowance t) (sender, spender) v) (t_logs t)).

(** What [transferFrom] takes from the allowance; an allowance of [UintMax] stays. *)
Definition token_spend (t : token) (from sender : Address) (v : Z) : sol token :=
  let a := at_ (allowance t) (from, sender) in
  if a =? UintMax then Good t
  else
    let! a' := usub a v in
    Good (mkToken (totalSupply t) (balanceOf t) (upd (allowance t) (from, sender) a') (t_logs t)).

(** ** What the operations keep *)

(** The balances are not negative and add up to the supply, which is a word. *)
Record token_ok (t : token) : Prop := {
  tk_nonneg : nonneg (balanceOf t);
  tk_sum : total (balanceOf t) = totalSupply t;
  tk_word : totalSupply t <= UintMax;
}.

Lemma emptyToken_ok : token_ok emptyToken.
Proof. split; [intros k; unfold at_; cbn; by rewrite lookup_empty|done|unfold UintMax; cbn; lia]. Qed.

Lemma usub_Good a b c : usub a b = Good c -> b <= a /\ c = a - b.
Proof. unfold usub. destruct (Z.leb_spec b a); [|done]. by intros [= <-]. Qed.
Lemma uadd_Good a b c : uadd a b = Good c -> a + b <= UintMax /\ c = a + b.
Proof. unfold uadd. destruct (Z.leb_spec (a + b) UintMax); [|done]. by intros [= <-]. Qed.
Lemma umul_Good a b c : umul a b = Good c -> a * b <= UintMax /\ c = a * b.
Proof. unfold umul. destruct (Z.leb_spec (a * b) UintMax); [|done]. by intros [= <-]. Qed.
Lemma udiv_Good a b c : udiv a b = Good c -> b <> 0 /\ c = a / b.
Proof. unfold udiv. destruct (Z.eqb_spec b 0); [done|]. by intros [= <-]. Qed.
Lemma require_Good b why u : require b why = Good u -> b = true.
Proof. unfold require. by destruct b. Qed.
Lemma bind_Good {A B} (c : sol A) (k : A -> sol B) b : sol_bind c k = Good b -> exists a, c = Good a /\ k a = Good b.
Proof. destruct c; [|done]. eauto. Qed.

(** Take a run that did not revert apart. *)
Ltac sol_inv H :=
  lazymatch type of H with
  | sol_bind _ _ = Good _ =>
      let a := fresh "a" in let E := fresh "E" in
      apply bind_Good in H as (a & E & H); cbn beta in H; sol_inv E; sol_inv H
  | usub _ _ = Good _ => apply usub_Good in H as [? ->]
  | uadd _ _ = Good _ => apply uadd_Good in H as [? ->]
  | umul _ _ = Good _ => apply umul_Good in H as [? ->]
  | udiv _ _ = Good _ => apply udiv_Good in H as [? ->]
  | require _ _ = Good _ => apply require_Good in H
  | Good _ = Good _ => injection H as H
  | Revert _ = Good _ => discriminate H
  | (if ?b then _ else _) = Good _ => let E := fresh "E" in destruct b eqn:E; sol_inv H
  | _ => idtac
  end.

Section Token.
Context (t t' : token).
Hypothesis ok : token_ok t.

Lemma token_move_ok from to v : 0 <= v -> token_move t from to v = Good t' ->
  token_ok t' /\ totalSupply t' = totalSupply t /\ allowance t' = allowance t /\ v <= at_ (balanceOf t) from
  /\ forall a, at_ (balanceOf t') a = at_ (balanceOf t) a - (if decide (a = from) then v else 0) + (if decide (a = to) then v else 0).
Proof.
  destruct ok as [Hn Hs Hw]. intros Hv E. unfold token_move in E. sol_inv E. subst t'. cbn in *.
  set (m1 := upd _ from _) in *. assert (nonneg m1) as H1 by (apply nonneg_upd; [done|lia]).
  assert (forall a, at_ m1 a = at_ (balanceOf t) a - (if decide (a = from) then v else 0)) as Hm1.
  { intros a. unfold m1. rewrite at_upd. repeat case_decide; subst; try done; lia. }
  split_and!; try done.
  - split; cbn; [apply nonneg_upd; [done|pose proof (H1 to); lia]| |done].
    rewrite total_upd. unfold m1 at 1. rewrite total_upd. lia.
  - intros a. rewrite at_upd, Hm1. repeat case_decide; subst; try done; rewrite ?Hm1; repeat case_decide; subst; try done; lia.
Qed.

Lemma token_mint_ok to v : 0 <= v -> token_mint t to v = Good t' ->
  token_ok t' /\ totalSupply t' = totalSupply t + v /\ allowance t' = allowance t
  /\ forall a, at_ (balanceOf t') a = at_ (balanceOf t) a + (if decide (a = to) then v else 0).
Proof.
  destruct ok as [Hn Hs Hw]. intros Hv E. unfold token_mint in E. sol_inv E. subst t'. cbn in *. split_and!; try done.
  - split; cbn; [apply nonneg_upd; [done|specialize (Hn to); lia]|rewrite total_upd; lia|done].
  - intros a. rewrite at_upd. repeat case_decide; subst; try done; lia.
Qed.

Lemma token_burn_ok from v : 0 <= v -> token_burn t from v = Good t' ->
  token_ok t' /\ totalSupply t' = totalSupply t - v /\ allowance t' = allowance t /\ v <= at_ (balanceOf t) from
  /\ forall a, at_ (balanceOf t') a = at_ (balanceOf t) a - (if decide (a = from) then v else 0).
Proof.
  destruct ok as [Hn Hs Hw]. intros Hv E. unfold token_burn in E. sol_inv E. subst t'. cbn in *. split_and!; try done.
  - split; cbn; [apply nonneg_upd; [done|lia]|rewrite total_upd; lia|lia].
  - intros a. rewrite at_upd. repeat case_decide; subst; try done; lia.
Qed.

Lemma token_approve_ok sender spender v : token_ok (token_approve t sender spender v).
Proof. destruct ok. by split. Qed.

Lemma token_spend_ok from sender v : token_spend t from sender v = Good t' ->
  token_ok t' /\ totalSupply t' = totalSupply t /\ balanceOf t' = balanceOf t /\ t_logs t' = t_logs t.
Proof. destruct ok as [Hn Hs Hw]. unfold token_spend. intros E. cbn zeta in E. sol_inv E; subst t'; cbn; split_and!; try done. Qed.

End Token.

#[local] Open Scope sol_scope.
(** ** WrappedLXS *)

Record WrappedLXS : Type := mkWrapped {
  wl_operator : Address;
  wl_token : token;
  mintedNonce : gset Z;
  redeemNonce : Z;
  tokenURI : list byte;
  uriFrozen : bool;
}.

Definition RedeemSig : String.string := "Redeem(uint256,address,uint256)".
Definition RedeemEv (nonce : Z) (from : Address) (amount : Z) : event := Event RedeemSig [nonce; addr from] [amount].

Definition with_token (t : token) (s : WrappedLXS) : WrappedLXS :=
  mkWrapped (wl_operator s) t (mintedNonce s) (redeemNonce s) (tokenURI s) (uriFrozen s).

Definition WrappedLXS_new (_operator : Address) : sol WrappedLXS :=
  require (negb (array_eqb _operator ZeroAddress)) "operator=0";;
  Good (mkWrapped _operator emptyToken ∅ 0 [] false).

Definition WrappedLXS_setTokenURI (s : WrappedLXS) (sender : Address) (uri : list byte) : sol WrappedLXS :=
  require (array_eqb sender (wl_operator s)) "not operator";;
  require (negb (uriFrozen s)) "frozen";;
  Good (mkWrapped (wl_operator s) (wl_token s) (mintedNonce s) (redeemNonce s) uri true).

Definition WrappedLXS_mint (s : WrappedLXS) (sender : Address) (nonce : Z) (to : Address) (amount : Z) : sol WrappedLXS :=
  require (array_eqb sender (wl_operator s)) "not operator";;
  require (negb (array_eqb to ZeroAddress)) "to=0";;
  require (negb (bool_decide (nonce ∈ mintedNonce s))) "nonce used";;
  let! t := token_mint (wl_token s) to amount in
  Good (mkWrapped (wl_operator s) t ({[nonce]} ∪ mintedNonce s) (redeemNonce s) (tokenURI s) (uriFrozen s)).

Definition WrappedLXS_redeem (s : WrappedLXS) (sender : Address) (amount : Z) : sol WrappedLXS :=
  let bal := at_ (balanceOf (wl_token s)) sender in
  require (amount <=? bal) "insufficient";;
  let! t := token_burn (wl_token s) sender amount in
  let! next := uadd (redeemNonce s) 1 in
  Good (mkWrapped (wl_operator s) (emit (RedeemEv (redeemNonce s) sender amount) t) (mintedNonce s) next (tokenURI s) (uriFrozen s)).

Definition WrappedLXS_move (t : token) (from to : Address) (value : Z) : sol token :=
  require (negb (array_eqb to ZeroAddress)) "to=0";;
  require (value <=? at_ (balanceOf t) from) "balance";;
  token_move t from to value.

Definition WrappedLXS_transfer (s : WrappedLXS) (sender to : Address) (value : Z) : sol WrappedLXS :=
  let! t := WrappedLXS_move (wl_token s) sender to value in
  Good (with_token t s).

Definition WrappedLXS_transferFrom (s : WrappedLXS) (sender from to : Address) (value : Z) : sol WrappedLXS :=
  require (value <=? at_ (allowance (wl_token s)) (from, sender)) "allowance";;
  let! t := token_spend (wl_token s) from sender value in
  let! t := WrappedLXS_move t from to value in
  Good (with_token t s).

Definition WrappedLXS_approve (s : WrappedLXS) (sender spender : Address) (value : Z) : sol WrappedLXS :=
  Good (with_token (token_approve (wl_token s) sender spender value) s).

(** The functions that change something, with their arguments. *)
Inductive wcall : Type :=
  | WSetTokenURI (uri : list byte)
  | WMint (nonce : Z) (to : Address) (amount : Z)
  | WRedeem (amount : Z)
  | WTransfer (to : Address) (value : Z)
  | WTransferFrom (from to : Address) (value : Z)
  | WApprove (spender : Address) (value : Z).

Definition WrappedLXS_call (s : WrappedLXS) (sender : Address) (c : wcall) : sol WrappedLXS :=
  match c with
  | WSetTokenURI uri => WrappedLXS_setTokenURI s sender uri
  | WMint nonce to amount => WrappedLXS_mint s sender nonce to amount
  | WRedeem amount => WrappedLXS_redeem s sender amount
  | WTransfer to value => WrappedLXS_transfer s sender to value
  | WTransferFrom from to value => WrappedLXS_transferFrom s sender from to value
  | WApprove spender value => WrappedLXS_approve s sender spender value
  end.

(** ** PegVault *)

Record PegVault : Type := mkVault {
  pv_operator : Address;
  entered : bool;
  lockNonce : Z;
  releasedNonce : gset Z;
  reserve : Z;             (* address(this).balance *)
  v_logs : list event;
}.

Definition LockedSig : String.string := "Locked(uint256,address,uint256)".
Definition ReleasedSig : String.string := "Released(uint256,address,uint256)".
Definition LockedEv (nonce : Z) (from : Address) (amount : Z) : event := Event LockedSig [nonce; addr from] [amount].
Definition ReleasedEv (nonce : Z) (to : Address) (amount : Z) : event := Event ReleasedSig [nonce; addr to] [amount].

Definition PegVault_new (_operator : Address) : sol PegVault :=
  require (negb (array_eqb _operator ZeroAddress)) "operator=0";;
  Good (mkVault _operator false 0 ∅ 0 []).

(** [lock] and [receive]: the value is there when the code runs. *)
Definition PegVault_lock (s : PegVault) (sender : Address) (value : Z) : sol PegVault :=
  require (0 <? value) "zero";;
  let! next := uadd (lockNonce s) 1 in
  Good (mkVault (pv_operator s) (entered s) next (releasedNonce s) (reserve s + value)
          (v_logs s ++ [LockedEv (lockNonce s) sender value])).

(** [call] is what the recipient's code does to the vault before the send returns. *)
Definition PegVault_release (call : PegVault -> sol PegVault) (s : PegVault) (sender : Address) (nonce : Z) (to : Address)
    (amount : Z) : sol PegVault :=
  require (negb (entered s)) "reentrant";;
  require (array_eqb sender (pv_operator s)) "not operator";;
  require (negb (array_eqb to ZeroAddress)) "to=0";;
  require (negb (bool_decide (nonce ∈ releasedNonce s))) "nonce used";;
  require (amount <=? reserve s) "over reserve";;
  match call (mkVault (pv_operator s) true (lockNonce s) ({[nonce]} ∪ releasedNonce s) (reserve s - amount) (v_logs s)) with
  | Revert _ => Revert "send failed"
  | Good s =>
      Good (mkVault (pv_operator s) false (lockNonce s) (releasedNonce s) (reserve s) (v_logs s ++ [ReleasedEv nonce to amount]))
  end.

(** A call of the vault; [VForce] is native coin that arrives without one (a block reward).  The recipient
    of a release rejects it, or makes the calls [inside]. *)
Inductive vcall : Type :=
  | VLock (sender : Address) (value : Z)
  | VForce (value : Z)
  | VRelease (sender : Address) (nonce : Z) (to : Address) (amount : Z) (inside : option (list vcall)).

(** Calls one after the other; one that reverts has no effect. *)
Definition all_of {A} (f : A -> PegVault -> sol PegVault) : list A -> PegVault -> PegVault :=
  fix go (cs : list A) (s : PegVault) : PegVault :=
    match cs with
    | [] => s
    | c :: cs => go cs (match f c s with Good s' => s' | Revert _ => s end)
    end.

Fixpoint PegVault_call (c : vcall) (s : PegVault) : sol PegVault :=
  match c with
  | VLock sender value => PegVault_lock s sender value
  | VForce value => Good (mkVault (pv_operator s) (entered s) (lockNonce s) (releasedNonce s) (reserve s + Z.max 0 value) (v_logs s))
  | VRelease sender nonce to amount inside =>
      PegVault_release
        (fun s => match inside with
                  | None => Revert "rejected"
                  | Some cs => Good (all_of PegVault_call cs s)
                  end) s sender nonce to amount
  end.

(** ** Calldata

    How a contract reads the arguments of a function [f(uint256,address,uint256)]: the selector, then one
    word each; an address with anything in its upper bytes is refused. *)
Definition abiArgs (selector data : list byte) : option (Z * Address * Z) :=
  let w (i : nat) := be2z (take 32 (drop (4 + 32 * i) data)) in
  if bool_decide (take 4 data = selector) && (100 <=? len data) && (w 1%nat <? 2 ^ 160)
  then Some (w 0%nat, array_of AddressLength (be_fixed AddressLength (w 1%nat)), w 2%nat)
  else None.

Definition mintSelector : list byte := [x83; x6a; x10; x40].
Definition releaseSelector : list byte := [x22; x9c; x9f; x6c].

(** * The peg contracts: what every call keeps

    The history of a contract is read off its logs: the locks and releases of
    the vault, the redemptions of the token.  Lock and redemption nonces count
    up from zero; a nonce is released or minted at most once; the vault holds at
    least what was locked and not released; and the supply of the token plus
    what was redeemed is what was minted. *)
(** ** History *)

Definition argsOf (sig : String.string) (e : event) : option (Z * Z * Z) :=
  match e with
  | Event s [n; a] [v] => if String.eqb s sig then Some (n, a, v) else None
  | _ => None
  end.

Definition history (sig : String.string) (l : list event) : list (Z * Z * Z) := omap (argsOf sig) l.

Definition sumOf (l : list (Z * Z * Z)) : Z := fold_right (fun x acc => x.2 + acc) 0 l.
Definition nonces (l : list (Z * Z * Z)) : list Z := (fun x => x.1.1) <$> l.

Lemma history_app sig l k : history sig (l ++ k) = history sig l ++ history sig k.
Proof. apply omap_app. Qed.
Lemma sumOf_app l k : sumOf (l ++ k) = sumOf l + sumOf k.
Proof. unfold sumOf. induction l as [|x l IH]; cbn; [done|]. rewrite IH. lia. Qed.
Lemma nonces_app l k : nonces (l ++ k) = nonces l ++ nonces k.
Proof. apply fmap_app. Qed.

Create Rewrite HintDb peg.
#[local] Hint Rewrite history_app sumOf_app nonces_app app_nil_r : peg.

Lemma sumOf_nonneg l : Forall (fun x => 0 <= x.2) l -> 0 <= sumOf l.
Proof. unfold sumOf. induction 1 as [|x l Hx _ IH]; cbn; [done|]. lia. Qed.

(** Part of a list without repeated nonces adds up to no more. *)
Lemma sumOf_part l k :
  Forall (fun x => 0 <= x.2) k -> NoDup (nonces l) -> (forall x, x ∈ l -> x ∈ k) -> sumOf l <= sumOf k.
Proof.
  revert k. induction l as [|x l IH]; intros k Hk Hd Hin; [by apply sumOf_nonneg|].
  - cbn in Hd. apply NoDup_cons in Hd as [Hx Hd].
    assert (x ∈ k) as (k1 & k2 & ->)%list_elem_of_split by (apply Hin; left).
    assert (sumOf l <= sumOf (k1 ++ k2)) as Hle.
    { apply IH; [|done|].
      - apply Forall_app in Hk as [H1 H2]. inversion H2; subst. by apply Forall_app.
      - intros y Hy. assert (y <> x) as Hne by (intros ->; apply Hx; by apply (list_elem_of_fmap_2 (fun x => x.1.1))).
        specialize (Hin y ltac:(by right)). rewrite elem_of_app, elem_of_cons in Hin. rewrite elem_of_app. naive_solver. }
    rewrite sumOf_app in *. cbn. unfold sumOf in *. lia.
Qed.

(** ** The vault *)

Definition locks (s : PegVault) : list (Z * Z * Z) := history LockedSig (v_logs s).
Definition releases (s : PegVault) : list (Z * Z * Z) := history ReleasedSig (v_logs s).

Record vault_ok (s : PegVault) : Prop := {
  vo_idle : entered s = false;
  vo_lock : 0 <= lockNonce s;
  vo_nonces : nonces (locks s) = seqZ 0 (lockNonce s);
  vo_amounts : Forall (fun x => 0 <= x.2) (locks s);
  vo_paid : Forall (fun x => 0 <= x.2) (releases s);
  vo_once : NoDup (nonces (releases s));
  vo_released : forall n, n ∈ nonces (releases s) -> n ∈ releasedNonce s;
  vo_reserve : sumOf (locks s) - sumOf (releases s) <= reserve s;
}.

(** Calls that release nothing: they add locks, and the native coin for them. *)
Record extends (s s' : PegVault) : Prop := {
  ex_op : pv_operator s' = pv_operator s;
  ex_entered : entered s' = entered s;
  ex_released : releasedNonce s' = releasedNonce s;
  ex_lock : lockNonce s <= lockNonce s';
  ex_logs : exists new, v_logs s' = v_logs s ++ new /\ history ReleasedSig new = []
    /\ nonces (history LockedSig new) = seqZ (lockNonce s) (lockNonce s' - lockNonce s)
    /\ Forall (fun x => 0 <= x.2) (history LockedSig new)
    /\ sumOf (history LockedSig new) <= reserve s' - reserve s;
}.

Lemma extends_refl s : extends s s.
Proof.
  split; try done. exists []. rewrite app_nil_r, !Z.sub_diag. split_and!; done.
Qed.

Lemma extends_trans s1 s2 s3 : extends s1 s2 -> extends s2 s3 -> extends s1 s3.
Proof.
  intros [? ? ? ? (l & El & Rl & Nl & Pl & Sl)] [? ? ? ? (k & Ek & Rk & Nk & Pk & Sk)]. split; try congruence; [lia|].
  exists (l ++ k). rewrite !history_app, nonces_app, sumOf_app, Rl, Rk, Nl, Nk. split_and!; try done.
  - by rewrite Ek, El, app_assoc.
  - replace (lockNonce s3 - lockNonce s1) with ((lockNonce s2 - lockNonce s1) + (lockNonce s3 - lockNonce s2)) by lia.
    rewrite seqZ_app by lia. do 2 f_equal; lia.
  - by apply Forall_app.
  - lia.
Qed.

Lemma lock_extends s sender value s' : PegVault_lock s sender value = Good s' -> extends s s'.
Proof.
  unfold PegVault_lock. intros E. sol_inv E. subst s'. split; cbn; try done; [lia|].
  exists [LockedEv (lockNonce s) sender value]. split_and!; try done; cbn.
  - replace (lockNonce s + 1 - lockNonce s) with 1 by lia. by rewrite (seqZ_cons _ 1) by lia.
  - repeat constructor. cbn. lia.
  - lia.
Qed.

(** While a release is on its way, the vault takes locks and nothing else. *)
Lemma call_entered c s s' : entered s = true -> PegVault_call c s = Good s' -> extends s s'.
Proof.
  intros He. destruct c as [sender value|value|sender nonce to amount inside]; cbn [PegVault_call].
  - apply lock_extends.
  - intros [= <-]. split; cbn; try done. exists []. rewrite app_nil_r, Z.sub_diag. split_and!; try done. cbn. lia.
  - unfold PegVault_release. rewrite He. done.
Qed.

Lemma all_of_entered cs s : entered s = true -> extends s (all_of PegVault_call cs s).
Proof.
  revert s. induction cs as [|c cs IH]; intros s He; [apply extends_refl|]. cbn.
  destruct (PegVault_call c s) as [s1|] eqn:E; [|by apply IH].
  apply call_entered in E; [|done]. eapply extends_trans; [exact E|]. apply IH. by rewrite (ex_entered _ _ E).
Qed.

Lemma extends_ok s s' : vault_ok s -> extends s s' -> vault_ok s' /\ releases s' = releases s /\ (exists l, locks s' = locks s ++ l).
Proof.
  intros [Hi Hl Hn Ha Hp Ho Hr Hv] [Xo Xe Xr Xl (new & E & Rn & Nn & Pn & Sn)].
  assert (releases s' = releases s) as Er by (unfold releases; rewrite E, history_app, Rn; apply app_nil_r).
  assert (locks s' = locks s ++ history LockedSig new) as El by (unfold locks; by rewrite E, history_app).
  split; [|by eauto]. split; rewrite ?Er, ?El, ?nonces_app, ?sumOf_app, ?Xr; try done; try congruence; [lia| |by apply Forall_app|lia].
  rewrite Hn, Nn. replace (lockNonce s') with (lockNonce s + (lockNonce s' - lockNonce s)) at 2 by lia. by rewrite seqZ_app by lia.
Qed.

(** A release that succeeds: the operator's, of a nonce that was not released before, within the reserve. *)
Lemma release_ok s sender nonce to amount inside s' :
  vault_ok s -> 0 <= amount -> PegVault_call (VRelease sender nonce to amount inside) s = Good s' ->
  vault_ok s' /\ sender = pv_operator s /\ pv_operator s' = pv_operator s
  /\ releases s' = releases s ++ [(nonce, addr to, amount)] /\ (exists l, locks s' = locks s ++ l).
Proof.
  intros Hok Ham. cbn [PegVault_call]. unfold PegVault_release. intros Er. sol_inv Er.
  destruct Hok as [Hi Hl Hn Ha Hp Ho Hr Hv]. apply array_eqb_eq in E0. apply negb_true_iff, bool_decide_eq_false in E2. apply Z.leb_le in E3.
  set (s0 := mkVault _ _ _ _ _ _) in Er. destruct inside as [cs|]; [|done]. cbn beta iota in Er. injection Er as <-.
  destruct (all_of_entered cs s0 eq_refl) as [Xo Xe Xr Xl (new & En & Rn & Nn & Pn & Sn)].
  set (s1 := all_of PegVault_call cs s0) in *. set (s' := mkVault (pv_operator s1) _ _ _ _ _).
  assert (v_logs s' = v_logs s ++ new ++ [ReleasedEv nonce to amount]) as Es by (unfold s'; cbn; by rewrite En, <- app_assoc).
  assert (locks s' = locks s ++ history LockedSig new) as Elk.
  { unfold locks. rewrite Es, !history_app. change (history LockedSig [_]) with (@nil (Z * Z * Z)). by rewrite app_nil_r. }
  assert (releases s' = releases s ++ [(nonce, addr to, amount)]) as Erl by (unfold releases; by rewrite Es, !history_app, Rn).
  cbn [lockNonce releasedNonce reserve s0] in *. split_and!; [|done|done|done|by eauto]. change (releasedNonce s') with (releasedNonce s1) in *.
  split; rewrite ?Elk, ?Erl, ?nonces_app, ?sumOf_app; try done.
  - cbn. lia.
  - rewrite Hn, Nn. change (lockNonce s') with (lockNonce s1).
    replace (lockNonce s1) with (lockNonce s + (lockNonce s1 - lockNonce s)) at 2 by lia. by rewrite seqZ_app by lia.
  - by apply Forall_app.
  - apply Forall_app. split; [done|]. by repeat constructor.
  - apply NoDup_app. split_and!; [done|intros n Hin ->%list_elem_of_singleton; by apply E2, Hr|apply NoDup_singleton].
  - intros n Hin. change (releasedNonce s') with (releasedNonce s1). rewrite Xr.
    apply elem_of_app in Hin as [Hin|Hin%list_elem_of_singleton]; [apply Hr in Hin|]; set_solver.
  - change (reserve s') with (reserve s1). cbn in *. lia.
Qed.

(** ** The token *)

Definition redeems (s : WrappedLXS) : list (Z * Z * Z) := history RedeemSig (t_logs (wl_token s)).

Record wrapped_ok (s : WrappedLXS) : Prop := {
  wo_token : token_ok (wl_token s);
  wo_redeem : 0 <= redeemNonce s;
  wo_nonces : nonces (redeems s) = seqZ 0 (redeemNonce s);
  wo_amounts : Forall (fun x => 0 <= x.2) (redeems s);
}.

(** The arguments of a call are unsigned. *)
Definition wcall_ok (c : wcall) : Prop :=
  match c with
  | WSetTokenURI _ => True
  | WMint _ _ v | WRedeem v | WTransfer _ v | WTransferFrom _ _ v | WApprove _ v => 0 <= v
  end.

(** What a call does to the supply, the minted nonces and the redemptions. *)
Definition wcall_effect (s s' : WrappedLXS) (sender : Address) (c : wcall) : Prop :=
  let supply s := totalSupply (wl_token s) in
  match c with
  | WMint n _ v => sender = wl_operator s /\ (n ∉ mintedNonce s) /\ mintedNonce s' = {[n]} ∪ mintedNonce s
      /\ supply s' = supply s + v /\ redeems s' = redeems s
  | WRedeem v => mintedNonce s' = mintedNonce s /\ supply s' = supply s - v
      /\ redeems s' = redeems s ++ [(redeemNonce s, addr sender, v)]
  | _ => mintedNonce s' = mintedNonce s /\ supply s' = supply s /\ redeems s' = redeems s
  end.

Lemma history_transfer l from to v : history RedeemSig (l ++ [TransferEv from to v]) = history RedeemSig l.
Proof. rewrite history_app. apply app_nil_r. Qed.

Lemma move_redeems t from to v t' : token_move t from to v = Good t' -> history RedeemSig (t_logs t') = history RedeemSig (t_logs t).
Proof. unfold token_move. intros E. sol_inv E. subst t'. apply history_transfer. Qed.

Lemma mint_redeems t to v t' : token_mint t to v = Good t' -> history RedeemSig (t_logs t') = history RedeemSig (t_logs t).
Proof. unfold token_mint. intros E. sol_inv E. subst t'. apply history_transfer. Qed.

Lemma burn_redeems t from v t' : token_burn t from v = Good t' -> history RedeemSig (t_logs t') = history RedeemSig (t_logs t).
Proof. unfold token_burn. intros E. sol_inv E. subst t'. apply history_transfer. Qed.

(** A call that only changes the token's balances. *)
Lemma with_token_ok s t :
  wrapped_ok s -> token_ok t -> totalSupply t = totalSupply (wl_token s) ->
  history RedeemSig (t_logs t) = redeems s ->
  let s' := with_token t s in
  wrapped_ok s' /\ wl_operator s' = wl_operator s
  /\ mintedNonce s' = mintedNonce s /\ totalSupply (wl_token s') = totalSupply (wl_token s) /\ redeems s' = redeems s.
Proof.
  intros [Ht Hr Hn Ha] Hok Hs Hl s'. assert (redeems s' = redeems s) as E by exact Hl.
  split_and!; try done. split; rewrite ?E; done.
Qed.

Lemma WrappedLXS_move_ok t from to v t' :
  token_ok t -> 0 <= v -> WrappedLXS_move t from to v = Good t' ->
  token_ok t' /\ totalSupply t' = totalSupply t /\ history RedeemSig (t_logs t') = history RedeemSig (t_logs t).
Proof.
  intros Hok Hv E. unfold WrappedLXS_move in E. sol_inv E.
  destruct (token_move_ok t t' Hok from to v Hv E) as (? & ? & _). split_and!; [done|done|by eapply move_redeems].
Qed.

Lemma WrappedLXS_call_ok s sender c s' :
  wrapped_ok s -> wcall_ok c -> WrappedLXS_call s sender c = Good s' ->
  wrapped_ok s' /\ wl_operator s' = wl_operator s /\ wcall_effect s s' sender c.
Proof.
  intros Hok Hc. pose proof Hok as [Ht Hr Hn Ha]. destruct c as [uri|n to v|v|to v|from to v|spender v]; cbn [WrappedLXS_call wcall_ok wcall_effect] in *.
  - unfold WrappedLXS_setTokenURI. intros E. sol_inv E. subst s'. split_and!; done.
  - unfold WrappedLXS_mint. intros E. sol_inv E. subst s'. apply array_eqb_eq in E0. apply negb_true_iff, bool_decide_eq_false in E2.
    destruct (token_mint_ok _ _ Ht to v Hc E3) as (Ht' & Es & _). pose proof (mint_redeems _ _ _ _ E3) as El.
    split_and!; try done. split; unfold redeems; cbn; rewrite ?El; done.
  - unfold WrappedLXS_redeem. intros E. sol_inv E. subst s'. destruct (token_burn_ok _ _ Ht sender v Hc E1) as (Ht' & Es & _).
    pose proof (burn_redeems _ _ _ _ E1) as El.
    set (s' := mkWrapped _ _ _ _ _ _). assert (redeems s' = redeems s ++ [(redeemNonce s, addr sender, v)]) as Er.
    { unfold redeems, s'. cbn [wl_token t_logs emit]. rewrite history_app, El. done. }
    split_and!; try done. split; rewrite ?Er, ?nonces_app; try done.
    + by split; destruct Ht'.
    + cbn. lia.
    + rewrite Hn. cbn. rewrite seqZ_app by lia. by rewrite (seqZ_cons _ 1) by lia.
    + apply Forall_app. split; [done|]. by repeat constructor.
  - unfold WrappedLXS_transfer. intros E. sol_inv E. subst s'. destruct (WrappedLXS_move_ok _ _ _ _ _ Ht Hc E0) as (? & ? & ?).
    by apply with_token_ok.
  - unfold WrappedLXS_transferFrom. intros E. sol_inv E. subst s'. destruct (token_spend_ok _ _ Ht from sender v E1) as (Ht1 & Es1 & _ & El1).
    destruct (WrappedLXS_move_ok _ _ _ _ _ Ht1 Hc E2) as (? & ? & El2). apply with_token_ok; [done|done|congruence|]. rewrite El2, El1. done.
  - unfold WrappedLXS_approve. intros [= <-]. apply with_token_ok; [done|by apply token_approve_ok|done|].
    unfold token_approve. cbn [t_logs emit]. rewrite history_app. apply app_nil_r.
Qed.
