(* ===== verification/JsonCodec.v ===== *)
(** * Go types in JSON

    A [codec] is what [encoding/json] does with one Go type: the zero value,
    the encoder, and the decoder, which changes an existing destination as
    [json.Unmarshal] does (null leaves a scalar alone and makes a pointer or a
    slice nil; a repeated field is decoded onto the earlier one).  Scalars,
    pointers, slices and maps first, then the structs of the chain with the
    field names of their tags.  [codec_ok] is the law: what was encoded
    decodes to itself. *)
From stdpp Require Import base numbers list gmap sorting.
From Stdlib Require Import ZArith Lia Strings.Byte.
From Stdlib Require Strings.String DecimalFacts DecimalN.
Import Strings.String.StringSyntax.
From S2P Require Import Prelude Common Types Vm State StateInv StateRoot Json.
#[local] Open Scope Z_scope.
#[local] Open Scope list_scope.

(** ** Decimal integers (strconv, math/big) *)

Fixpoint uint_bytes (u : Decimal.uint) : list byte :=
  match u with
  | Decimal.Nil => []
  | Decimal.D0 u => x30 :: uint_bytes u
  | Decimal.D1 u => x31 :: uint_bytes u
  | Decimal.D2 u => x32 :: uint_bytes u
  | Decimal.D3 u => x33 :: uint_bytes u
  | Decimal.D4 u => x34 :: uint_bytes u
  | Decimal.D5 u => x35 :: uint_bytes u
  | Decimal.D6 u => x36 :: uint_bytes u
  | Decimal.D7 u => x37 :: uint_bytes u
  | Decimal.D8 u => x38 :: uint_bytes u
  | Decimal.D9 u => x39 :: uint_bytes u
  end.

Definition consDigit (b : byte) (u : Decimal.uint) : option Decimal.uint :=
  match b with
  | x30 => Some (Decimal.D0 u)
  | x31 => Some (Decimal.D1 u)
  | x32 => Some (Decimal.D2 u)
  | x33 => Some (Decimal.D3 u)
  | x34 => Some (Decimal.D4 u)
  | x35 => Some (Decimal.D5 u)
  | x36 => Some (Decimal.D6 u)
  | x37 => Some (Decimal.D7 u)
  | x38 => Some (Decimal.D8 u)
  | x39 => Some (Decimal.D9 u)
  | _ => None
  end.

Fixpoint bytes_uint (l : list byte) : option Decimal.uint :=
  match l with
  | [] => Some Decimal.Nil
  | b :: r => bytes_uint r ≫= consDigit b
  end.

Definition itoa (z : Z) : list byte :=
  if z <? 0 then x2d :: uint_bytes (N.to_uint (Z.to_N (- z))) else uint_bytes (N.to_uint (Z.to_N z)).

(** Digits, one at least. *)
Definition readDigits (l : list byte) : option Z :=
  match l with
  | [] => None
  | _ => (fun u => Z.of_N (N.of_uint u)) <$> bytes_uint l
  end.

Definition atoi (l : list byte) : option Z :=
  match expect x2d l with
  | Some r => Z.opp <$> readDigits r
  | None => readDigits l
  end.

(** ** Base64 (encoding/base64, the standard alphabet) *)

Definition b64char (v : Z) : byte :=
  if v <? 26 then z2b (65 + v) else if v <? 52 then z2b (71 + v) else if v <? 62 then z2b (v - 4)
  else if v =? 62 then x2b else x2f.

Definition b64value (c : byte) : option Z :=
  let v := b2z c in
  if (65 <=? v) && (v <=? 90) then Some (v - 65)
  else if (97 <=? v) && (v <=? 122) then Some (v - 71)
  else if (48 <=? v) && (v <=? 57) then Some (v + 4)
  else if v =? 43 then Some 62 else if v =? 47 then Some 63 else None.

Fixpoint b64encode (l : list byte) : list byte :=
  match l with
  | [] => []
  | [a] => [b64char (b2z a / 4); b64char (b2z a mod 4 * 16); x3d; x3d]
  | [a; b] => [b64char (b2z a / 4); b64char (b2z a mod 4 * 16 + b2z b / 16); b64char (b2z b mod 16 * 4); x3d]
  | a :: b :: c :: r =>
      b64char (b2z a / 4) :: b64char (b2z a mod 4 * 16 + b2z b / 16)
      :: b64char (b2z b mod 16 * 4 + b2z c / 64) :: b64char (b2z c mod 64) :: b64encode r
  end.

Fixpoint b64groups (l : list byte) : option (list byte) :=
  match l with
  | [] => Some []
  | a :: b :: c :: d :: r =>
      match b64value a, b64value b with
      | Some a, Some b =>
          let x := z2b (a * 4 + b / 16) in
          match b64value c, b64value d with
          | Some c, Some d => (fun l => x :: z2b (b mod 16 * 16 + c / 4) :: z2b (c mod 4 * 64 + d) :: l) <$> b64groups r
          | Some c, None => if Byte.eqb d x3d && (len r =? 0) then Some [x; z2b (b mod 16 * 16 + c / 4)] else None
          | None, _ => if Byte.eqb c x3d && Byte.eqb d x3d && (len r =? 0) then Some [x] else None
          end
      | _, _ => None
      end
  | _ => None
  end.

(** Line breaks are skipped. *)
Definition b64decode (l : list byte) : option (list byte) :=
  b64groups (filter (fun b => b <> x0a /\ b <> x0d) l).

(** ** Codecs *)

Record codec (A : Type) : Type := mkCodec {
  zero : A;
  enc : A -> json;
  dec : json -> A -> option A;
}.
Arguments zero {_} _.
Arguments enc {_} _ _.
Arguments dec {_} _ _ _.

(** [uint8], [uint64] *)
Definition uintC (bits : Z) : codec Z := mkCodec Z 0 (fun v => JNum (itoa v))
  (fun j cur => match j with
                | JNum lit => readDigits lit ≫= (fun v => if v <? 2 ^ bits then Some v else None)
                | JNull => Some cur
                | _ => None
                end).

Definition int64C : codec Z := mkCodec Z 0 (fun v => JNum (itoa v))
  (fun j cur => match j with
                | JNum lit => atoi lit ≫= (fun v => if (- 2 ^ 63 <=? v) && (v <? 2 ^ 63) then Some v else None)
                | JNull => Some cur
                | _ => None
                end).

Definition boolC : codec bool := mkCodec bool false JBool
  (fun j cur => match j with JBool b => Some b | JNull => Some cur | _ => None end).

(** A [*big.Int]. *)
Definition bigC : codec (option Z) := mkCodec (option Z) None
  (fun v => match v with Some z => JNum (itoa z) | None => JNull end)
  (fun j cur => match j with
                | JNum lit => Some <$> atoi lit
                | JNull => Some None
                | _ => None
                end).

(** [TextUnmarshaler]s. *)
Definition textC {A} (z : A) (marshal : A -> list byte) (unmarshal : list byte -> res A) : codec A := mkCodec A z
  (fun a => JStr (marshal a))
  (fun j cur => match j with
                | JStr s => match unmarshal s with Ok a => Some a | _ => None end
                | JNull => Some cur
                | _ => None
                end).

Definition hashC : codec Hash := textC ZeroHash Hash_MarshalText Hash_UnmarshalText.
Definition addressC : codec Address := textC ZeroAddress Address_MarshalText Address_UnmarshalText.

(** A pointer. *)
Definition ptrC {A} (c : codec A) : codec (option A) := mkCodec (option A) None
  (fun o => match o with Some a => enc c a | None => JNull end)
  (fun j cur => match j with JNull => Some None | _ => Some <$> dec c j (default (zero c) cur) end).

(** The elements of a slice, decoded onto those it holds. *)
Fixpoint decElems {A} (c : codec A) (js : list json) (cur : list A) : option (list A) :=
  match js with
  | [] => Some []
  | j :: js =>
      match dec c j (match cur with a :: _ => a | [] => zero c end), decElems c js (tail cur) with
      | Some a, Some l => Some (a :: l)
      | _, _ => None
      end
  end.

(** A nil and an empty slice are one list here, and are written as null; Go writes an empty one that is
    not nil as []. Both read back as the empty list. *)
Definition listC {A} (c : codec A) : codec (list A) := mkCodec (list A) []
  (fun l => match l with [] => JNull | _ => JArr (map (enc c) l) end)
  (fun j cur => match j with JArr js => decElems c js cur | JNull => Some [] | _ => None end).

(** A [[]byte] is a base64 string; an array of numbers is accepted too. *)
Definition bytesC : codec (list byte) := mkCodec (list byte) []
  (fun l => match l with [] => JNull | _ => JStr (b64encode l) end)
  (fun j cur => match j with
                | JStr s => b64decode s
                | JNull => Some []
                | JArr js => map z2b <$> decElems (uintC 8) js (map b2z cur)
                | _ => None
                end).

(** [map[common.Hash]common.Hash], keys in order. *)
Definition storageC : codec (gmap Hash Hash) := mkCodec (gmap Hash Hash) ∅
  (fun m => JObj (map (fun k => (Hash_MarshalText k, enc hashC (default ZeroHash (m !! k)))) (sortedKeys m)))
  (fun j cur => match j with
                | JObj ms => fold_left (fun acc p =>
                    match acc, Hash_UnmarshalText (fst p), dec hashC (snd p) ZeroHash with
                    | Some m, Ok k, Some v => Some (<[k := v]> m)
                    | _, _, _ => None
                    end) ms (Some cur)
                | JNull => Some ∅
                | _ => None
                end).

(** ** Structs *)

Definition lower (b : byte) : byte := if (65 <=? b2z b) && (b2z b <=? 90) then z2b (b2z b + 32) else b.

(** Field names match without regard to case. *)
Definition sameName (a b : list byte) : bool := bool_decide (map lower a = map lower b).

(** The field [name] of a struct. *)
Fixpoint field {A} (c : codec A) (name : list byte) (ms : list (list byte * json)) (cur : A) : option A :=
  match ms with
  | [] => Some cur
  | (k, v) :: ms => if sameName k name then dec c v cur ≫= field c name ms else field c name ms cur
  end.

Definition structC {A} (z : A) (fields : A -> list (list byte * json)) (k : list (list byte * json) -> A -> option A)
    : codec A := mkCodec A z
  (fun a => JObj (fields a))
  (fun j cur => match j with JObj ms => k ms cur | JNull => Some cur | _ => None end).

(** [omitempty] *)
Definition omitempty (empty : bool) (name : list byte) (v : json) : list (list byte * json) :=
  if empty then [] else [(name, v)].

#[local] Notation "'let*' x ':=' o 'in' k" := (mbind (fun x => k) o) (at level 10, x name, o at level 200, k at level 200).

Definition zeroTx : Transaction := mkTx 0 0 0 None None 0 None [] [].

Definition txC : codec Transaction := structC zeroTx
  (fun tx => [(str "type", enc (uintC 8) (tx_Type tx)); (str "chainId", enc (uintC 64) (tx_ChainID tx));
              (str "nonce", enc (uintC 64) (tx_Nonce tx)); (str "to", enc (ptrC addressC) (tx_To tx));
              (str "value", enc bigC (tx_Value tx)); (str "gasLimit", enc (uintC 64) (tx_GasLimit tx));
              (str "gasPrice", enc bigC (tx_GasPrice tx)); (str "data", enc bytesC (tx_Data tx));
              (str "sig", enc bytesC (tx_Sig tx))])
  (fun ms cur =>
     let* ty := field (uintC 8) (str "type") ms (tx_Type cur) in
     let* chain := field (uintC 64) (str "chainId") ms (tx_ChainID cur) in
     let* nonce := field (uintC 64) (str "nonce") ms (tx_Nonce cur) in
     let* to := field (ptrC addressC) (str "to") ms (tx_To cur) in
     let* value := field bigC (str "value") ms (tx_Value cur) in
     let* limit := field (uintC 64) (str "gasLimit") ms (tx_GasLimit cur) in
     let* price := field bigC (str "gasPrice") ms (tx_GasPrice cur) in
     let* data := field bytesC (str "data") ms (tx_Data cur) in
     let* sig := field bytesC (str "sig") ms (tx_Sig cur) in
     Some (mkTx ty chain nonce to value limit price data sig)).

Definition zeroHeader : Header := mkHeader ZeroHash 0 0 ZeroHash ZeroHash ZeroHash 0 0 ZeroAddress 0 0.

Definition headerC : codec Header := structC zeroHeader
  (fun h => [(str "parentHash", enc hashC (ParentHash h)); (str "height", enc (uintC 64) (Height h));
             (str "timestamp", enc int64C (Timestamp h)); (str "txRoot", enc hashC (h_TxRoot h));
             (str "receiptRoot", enc hashC (h_ReceiptRoot h)); (str "stateRoot", enc hashC (StateRoot h));
             (str "gasUsed", enc (uintC 64) (h_GasUsed h)); (str "gasLimit", enc (uintC 64) (h_GasLimit h));
             (str "proposer", enc addressC (Proposer h)); (str "difficulty", enc (uintC 64) (Difficulty h));
             (str "nonce", enc (uintC 64) (h_Nonce h))])
  (fun ms cur =>
     let* parent := field hashC (str "parentHash") ms (ParentHash cur) in
     let* height := field (uintC 64) (str "height") ms (Height cur) in
     let* time := field int64C (str "timestamp") ms (Timestamp cur) in
     let* txRoot := field hashC (str "txRoot") ms (h_TxRoot cur) in
     let* receiptRoot := field hashC (str "receiptRoot") ms (h_ReceiptRoot cur) in
     let* stateRoot := field hashC (str "stateRoot") ms (StateRoot cur) in
     let* used := field (uintC 64) (str "gasUsed") ms (h_GasUsed cur) in
     let* limit := field (uintC 64) (str "gasLimit") ms (h_GasLimit cur) in
     let* proposer := field addressC (str "proposer") ms (Proposer cur) in
     let* diff := field (uintC 64) (str "difficulty") ms (Difficulty cur) in
     let* nonce := field (uintC 64) (str "nonce") ms (h_Nonce cur) in
     Some (mkHeader parent height time txRoot receiptRoot stateRoot used limit proposer diff nonce)).

(** A block as it comes from JSON: its header and its transactions are pointers. *)
Record rawBlock : Type := mkRawBlock { rb_Header : option Header; rb_Txs : list (option Transaction) }.

Definition rawBlockC : codec rawBlock := structC (mkRawBlock None [])
  (fun b => [(str "header", enc (ptrC headerC) (rb_Header b)); (str "txs", enc (listC (ptrC txC)) (rb_Txs b))])
  (fun ms cur =>
     let* header := field (ptrC headerC) (str "header") ms (rb_Header cur) in
     let* txs := field (listC (ptrC txC)) (str "txs") ms (rb_Txs cur) in
     Some (mkRawBlock header txs)).

Definition zeroLog : Log := mkLog ZeroAddress [] [].

Definition logC : codec Log := structC zeroLog
  (fun l => [(str "Address", enc addressC (l_Address l)); (str "Topics", enc (listC hashC) (l_Topics l));
             (str "Data", enc bytesC (l_Data l))])
  (fun ms cur =>
     let* address := field addressC (str "Address") ms (l_Address cur) in
     let* topics := field (listC hashC) (str "Topics") ms (l_Topics cur) in
     let* data := field bytesC (str "Data") ms (l_Data cur) in
     Some (mkLog address topics data)).

(** The pointers to logs and receipts are never nil; a null one, which is never written, would read
    as the zero value. *)
Definition receiptC : codec Receipt := structC (mkReceipt 0 0 0 [])
  (fun r => [(str "status", enc (uintC 64) (Status r)); (str "cumulativeGasUsed", enc (uintC 64) (CumulativeGasUsed r));
             (str "gasUsed", enc (uintC 64) (r_GasUsed r)); (str "logs", enc (listC logC) (Logs r))])
  (fun ms cur =>
     let* status := field (uintC 64) (str "status") ms (Status cur) in
     let* cumulative := field (uintC 64) (str "cumulativeGasUsed") ms (CumulativeGasUsed cur) in
     let* used := field (uintC 64) (str "gasUsed") ms (r_GasUsed cur) in
     let* logs := field (listC logC) (str "logs") ms (Logs cur) in
     Some (mkReceipt status cumulative used logs)).

(** A [state.Account]; its balance is a pointer. *)
Record storedAccount : Type := mkStored {
  sa_Nonce : Z;
  sa_Balance : option Z;
  sa_Storage : gmap Hash Hash;
  sa_Code : list byte;
}.

Definition accountC : codec storedAccount := structC (mkStored 0 None ∅ [])
  (fun a => [(str "nonce", enc (uintC 64) (sa_Nonce a)); (str "balance", enc bigC (sa_Balance a))]
            ++ omitempty (bool_decide (sa_Storage a = ∅)) (str "storage") (enc storageC (sa_Storage a))
            ++ omitempty (len (sa_Code a) =? 0) (str "code") (enc bytesC (sa_Code a)))
  (fun ms cur =>
     let* nonce := field (uintC 64) (str "nonce") ms (sa_Nonce cur) in
     let* balance := field bigC (str "balance") ms (sa_Balance cur) in
     let* storage := field storageC (str "storage") ms (sa_Storage cur) in
     let* code := field bytesC (str "code") ms (sa_Code cur) in
     Some (mkStored nonce balance storage code)).

(** ** The laws *)

Definition codec_ok {A} (c : codec A) (P : A -> Prop) : Prop :=
  forall a, P a -> jwf (enc c a) /\ dec c (enc c a) (zero c) = Some a.

Lemma bytes_uint_bytes u : bytes_uint (uint_bytes u) = Some u.
Proof. induction u as [|u IH|u IH|u IH|u IH|u IH|u IH|u IH|u IH|u IH|u IH]; cbn; rewrite ?IH; done. Qed.

Lemma uint_bytes_digits u : Forall (fun b => isDigit b = true) (uint_bytes u).
Proof. induction u; cbn; auto. Qed.

Lemma isDigit_isNum l : Forall (fun b => isDigit b = true) l -> Forall (fun b => isNum b = true) l.
Proof. intros H. eapply Forall_impl; [exact H|]. intros b. by destruct b. Qed.

(** A printed natural: [0], or digits that do not start with it. *)
Lemma to_uint_head n : exists b r, uint_bytes (N.to_uint n) = b :: r /\ (b = x30 -> r = []).
Proof.
  pose proof (DecimalN.Unsigned.to_of (N.to_uint n)) as E. rewrite DecimalN.Unsigned.of_to in E.
  rewrite E. unfold Decimal.unorm. destruct (Decimal.nzhead (N.to_uint n)) as [|u|u|u|u|u|u|u|u|u|u] eqn:Eh; cbn;
    try (eexists _, _; split; [done|discriminate]).
  - by eexists _, _.
  - by apply DecimalFacts.nzhead_nonzero in Eh.
Qed.

Lemma intPart_uint n r : match r with [] => True | b :: _ => isDigit b = false end ->
  intPart (uint_bytes (N.to_uint n) ++ r) = Some r.
Proof.
  intros Hr. unfold intPart. rewrite span_all; [|apply uint_bytes_digits|done].
  destruct (to_uint_head n) as (b & t & -> & Hb). destruct (Byte.eqb b x30) eqn:Eb; [|done].
  apply Byte.byte_dec_bl in Eb. by rewrite (Hb Eb).
Qed.

Lemma expect_digit n b : isDigit b = false -> expect b (uint_bytes (N.to_uint n)) = None.
Proof.
  intros Hb. destruct (to_uint_head n) as (c & t & E & _). pose proof (uint_bytes_digits (N.to_uint n)) as Hd.
  rewrite E in *. apply Forall_cons in Hd as [Hc _]. cbn. destruct (Byte.eqb c b) eqn:Eb; [|done].
  apply Byte.byte_dec_bl in Eb. congruence.
Qed.

Lemma validNum_itoa z : validNum (itoa z) = true /\ Forall (fun b => isNum b = true) (itoa z).
Proof.
  unfold itoa. pose proof (uint_bytes_digits (N.to_uint (Z.to_N (- z)))) as H1.
  pose proof (uint_bytes_digits (N.to_uint (Z.to_N z))) as H2. unfold validNum. destruct (z <? 0).
  - rewrite expect_eq. cbn [default from_option id]. rewrite <- (app_nil_r (uint_bytes _)), intPart_uint by done.
    split; [done|]. rewrite app_nil_r. constructor; [done|by apply isDigit_isNum].
  - rewrite expect_digit by done. cbn [default from_option id]. rewrite <- (app_nil_r (uint_bytes _)), intPart_uint by done.
    split; [done|]. rewrite app_nil_r. by apply isDigit_isNum.
Qed.

Lemma readDigits_uint n : readDigits (uint_bytes (N.to_uint n)) = Some (Z.of_N n).
Proof.
  unfold readDigits. destruct (to_uint_head n) as (b & r & E & _).
  rewrite bytes_uint_bytes. rewrite E. cbn. by rewrite DecimalN.Unsigned.of_to.
Qed.

Lemma atoi_itoa z : atoi (itoa z) = Some z.
Proof.
  unfold atoi, itoa. destruct (Z.ltb_spec z 0).
  - rewrite expect_eq, readDigits_uint. cbn. f_equal. lia.
  - rewrite expect_digit, readDigits_uint by done. f_equal. lia.
Qed.

Lemma uintC_ok bits : codec_ok (uintC bits) (fun v => 0 <= v < 2 ^ bits).
Proof.
  intros v Hv. split; [apply validNum_itoa|]. cbn. unfold itoa. destruct (Z.ltb_spec v 0); [lia|].
  rewrite readDigits_uint. cbn. rewrite Z2N.id by lia. by destruct (Z.ltb_spec v (2 ^ bits)); [|lia].
Qed.

Lemma int64C_ok : codec_ok int64C (fun v => - 2 ^ 63 <= v < 2 ^ 63).
Proof.
  intros v Hv. split; [apply validNum_itoa|]. cbn -[Z.pow]. rewrite atoi_itoa. cbn -[Z.pow].
  destruct (Z.leb_spec (- 2 ^ 63) v), (Z.ltb_spec v (2 ^ 63)); (done || lia).
Qed.

Lemma boolC_ok : codec_ok boolC (fun _ => True).
Proof. done. Qed.

Lemma bigC_ok : codec_ok bigC (fun _ => True).
Proof. intros [v|] _; [|done]. split; [apply validNum_itoa|]. cbn. by rewrite atoi_itoa. Qed.

Lemma hashC_ok : codec_ok hashC (fun _ => True).
Proof.
  intros h _. split; [done|]. unfold hashC, textC, Hash_UnmarshalText, Hash_MarshalText. cbn [dec enc zero].
  by rewrite HashFromHex_Hex_lemma.
Qed.

Lemma addressC_ok : codec_ok addressC (fun _ => True).
Proof.
  intros h _. split; [done|]. unfold addressC, textC, Address_UnmarshalText, Address_MarshalText. cbn [dec enc zero].
  by rewrite AddressFromHex_Hex_lemma.
Qed.

Lemma ptrC_ok {A} (c : codec A) P :
  codec_ok c P -> (forall a, enc c a <> JNull) -> codec_ok (ptrC c) (fun o => forall a, o = Some a -> P a).
Proof.
  intros Hc Hn [a|] HP; [|done]. destruct (Hc a (HP a eq_refl)) as [Hw Hd]. split; [done|].
  unfold ptrC. cbn [dec enc zero default from_option]. specialize (Hn a). destruct (enc c a); try done; cbn [from_option]; by rewrite Hd.
Qed.

Lemma decElems_ok {A} (c : codec A) P l : codec_ok c P -> Forall P l -> decElems c (map (enc c) l) [] = Some l.
Proof.
  intros Hc. induction 1 as [|a l Ha Hl IH]; [done|]. cbn [map decElems tail]. destruct (Hc a Ha) as [_ ->]. by rewrite IH.
Qed.

Lemma listC_ok {A} (c : codec A) P : codec_ok c P -> codec_ok (listC c) (Forall P).
Proof.
  intros Hc l Hl. destruct l as [|a l]; [done|]. split.
  - apply jwf_arr. rewrite Forall_map. eapply Forall_impl; [exact Hl|]. intros x Hx. by apply Hc.
  - by apply (decElems_ok c P).
Qed.

Lemma b64value_char v : 0 <= v < 64 -> b64value (b64char v) = Some v.
Proof.
  intros Hv. assert (Forall (fun n => b64value (b64char (Z.of_nat n)) = Some (Z.of_nat n)) (seq 0 64)) as HF.
  { repeat (apply Forall_cons; split; [reflexivity|]). by apply Forall_nil. }
  rewrite Forall_forall in HF. specialize (HF (Z.to_nat v)). rewrite Z2Nat.id in HF by lia. apply HF, elem_of_seq. lia.
Qed.

Lemma b64char_plain v : 0 <= v < 64 -> b64char v <> x0a /\ b64char v <> x0d.
Proof.
  intros Hv. pose proof (b64value_char v Hv) as E. split; intros Ec; rewrite Ec in E; discriminate E.
Qed.

(** Arithmetic on the bits of bytes. *)
Ltac bits := repeat match goal with b : byte |- _ => lazymatch goal with H : 0 <= b2z b < 256 |- _ => fail | _ => pose proof (b2z_range b) end end;
  Z.to_euclidean_division_equations; lia.

Lemma byte_bits b z : z mod 256 = b2z b -> z2b z = b.
Proof. intros E. apply b2z_inj. by rewrite b2z_z2b. Qed.

Lemma b64groups_encode n l : (length l <= n)%nat -> b64groups (b64encode l) = Some l.
Proof.
  revert l. induction n as [|n IH]; intros l Hn; [destruct l; [done|cbn in Hn; lia]|].
  destruct l as [|a [|b [|c l]]]; [done|..]; cbn [b64encode b64groups].
  - rewrite !b64value_char by bits. change (b64value x3d) with (@None Z). cbn -[b2z Z.mul Z.div Z.modulo z2b].
    apply f_equal, f_equal2; [apply byte_bits; bits|done].
  - rewrite !b64value_char by bits. change (b64value x3d) with (@None Z). cbn -[b2z Z.mul Z.div Z.modulo z2b].
    apply f_equal, f_equal2; [apply byte_bits; bits|]. apply f_equal2; [apply byte_bits; bits|done].
  - rewrite !b64value_char by bits. rewrite IH by (cbn in Hn; lia). cbn -[b2z Z.mul Z.div Z.modulo z2b].
    apply f_equal, f_equal2; [apply byte_bits; bits|]. do 2 (apply f_equal2; [apply byte_bits; bits|]). done.
Qed.

Lemma b64encode_plain n l : (length l <= n)%nat -> Forall (fun b => b <> x0a /\ b <> x0d) (b64encode l).
Proof.
  revert l. induction n as [|n IH]; intros l Hn; [destruct l; [done|cbn in Hn; lia]|].
  destruct l as [|a [|b [|c l]]]; cbn [b64encode]; repeat (apply Forall_cons; split);
    try (apply b64char_plain; bits); try done; try (by apply Forall_nil).
  apply IH. cbn in Hn. lia.
Qed.

Lemma filter_all {A} (P : A -> Prop) `{forall x, Decision (P x)} l : Forall P l -> filter P l = l.
Proof. induction 1 as [|x l Hx Hl IH]; [done|]. rewrite filter_cons_True by done. by rewrite IH. Qed.

Lemma b64decode_encode l : b64decode (b64encode l) = Some l.
Proof.
  unfold b64decode. rewrite filter_all by (by apply (b64encode_plain (length l))).
  by apply (b64groups_encode (length l)).
Qed.

Lemma bytesC_ok : codec_ok bytesC (fun _ => True).
Proof. intros [|b l] _; [done|]. split; [done|]. unfold bytesC. cbn [dec enc zero]. apply b64decode_encode. Qed.

(** ** Maps *)

Lemma decode_storage (m cur : gmap Hash Hash) ks :
  exists m', fold_left (fun acc p =>
      match acc, Hash_UnmarshalText (fst p), dec hashC (snd p) ZeroHash with
      | Some m, Ok k, Some v => Some (<[k := v]> m)
      | _, _, _ => None
      end) (map (fun k => (Hash_MarshalText k, enc hashC (default ZeroHash (m !! k)))) ks) (Some cur) = Some m'
    /\ forall k, m' !! k = if decide (k ∈ ks) then Some (default ZeroHash (m !! k)) else cur !! k.
Proof.
  revert cur. induction ks as [|k ks IH]; intros cur; cbn [map fold_left fst snd].
  - exists cur. split; [done|]. intros k. by rewrite decide_False by set_solver.
  - destruct (hashC_ok (default ZeroHash (m !! k)) I) as [_ Hd]. cbn [zero hashC textC] in Hd. rewrite Hd.
    unfold Hash_UnmarshalText at 2, Hash_MarshalText at 2. rewrite HashFromHex_Hex_lemma.
    destruct (IH (<[k := default ZeroHash (m !! k)]> cur)) as (m' & -> & Hm'). exists m'. split; [done|]. intros k'.
    rewrite Hm'. destruct (decide (k' ∈ ks)); [by rewrite decide_True by set_solver|].
    destruct (decide (k = k')) as [<-|Hne]; [rewrite lookup_insert_eq, decide_True by set_solver; done|].
    rewrite lookup_insert_ne, decide_False by set_solver. done.
Qed.

Lemma storageC_ok : codec_ok storageC (fun _ => True).
Proof.
  intros m _. split.
  - apply jwf_obj. rewrite Forall_map. apply Forall_forall. done.
  - unfold storageC. cbn [dec enc zero]. destruct (decode_storage m ∅ (sortedKeys m)) as (m' & -> & Hm').
    f_equal. apply map_eq. intros k. rewrite Hm'. pose proof (elem_of_sortedKeys m k) as Hk.
    destruct (m !! k) as [v|] eqn:E; case_decide as Hin; try done.
    + destruct Hin. apply Hk. change (is_Some (m !! k)). by rewrite E.
    + apply Hk in Hin. change (is_Some (m !! k)) in Hin. rewrite E in Hin. by destruct Hin.
Qed.

(** ** Fields *)

(** The values of the members called [name]. *)
Definition pick (name : list byte) (ms : list (list byte * json)) : list json :=
  snd <$> filter (fun p => sameName (fst p) name = true) ms.

Lemma field_pick {A} (c : codec A) name ms cur :
  field c name ms cur = fold_left (fun acc v => acc ≫= dec c v) (pick name ms) (Some cur).
Proof.
  revert cur. induction ms as [|[k v] ms IH]; intros cur; [done|]. unfold pick. cbn [field].
  destruct (sameName k name) eqn:E.
  - rewrite filter_cons_True by done. cbn [fmap list_fmap fold_left snd mbind option_bind].
    destruct (dec c v cur) as [a|]; [apply IH|]. cbn [mbind option_bind]. generalize (snd <$> filter (λ p, sameName p.1 name = true) ms).
    intros l. induction l; [done|]. cbn. done.
  - rewrite filter_cons_False by (cbn; congruence). apply IH.
Qed.

(** A field that was written once reads back. *)
Lemma bind_field {A B} (c : codec A) P name ms cur a (k : A -> option B) r :
  codec_ok c P -> P a -> pick name ms = [enc c a] -> cur = zero c -> k a = r ->
  mbind (M := option) k (field c name ms cur) = r.
Proof. intros Hc Ha Hp -> Hk. rewrite field_pick, Hp. cbn. destruct (Hc a Ha) as [_ ->]. done. Qed.

(** One that was left out keeps its zero value. *)
Lemma bind_absent {A B} (c : codec A) name ms cur (k : A -> option B) r :
  pick name ms = [] -> k cur = r -> mbind (M := option) k (field c name ms cur) = r.
Proof. intros Hp Hk. rewrite field_pick, Hp. done. Qed.

Ltac dec_field ok H := eapply (bind_field _ _ _ _ _ _ _ _ ok H); [reflexivity|reflexivity|].

(** ** The structs *)

Lemma structC_ok {A} (z : A) fields k (P : A -> Prop) :
  (forall a, P a -> Forall (fun p => jwf (snd p)) (fields a) /\ k (fields a) z = Some a) -> codec_ok (structC z fields k) P.
Proof. intros HP a Ha. destruct (HP a Ha) as [Hw Hk]. split; [by apply jwf_obj|done]. Qed.

Lemma structC_notnull {A} (z : A) fields k a : enc (structC z fields k) a <> JNull.
Proof. done. Qed.

(** A transaction at machine width; nil and negative integers included. *)
Record tx_widths (tx : Transaction) : Prop := {
  tw_Type : 0 <= tx_Type tx < 2 ^ 8;
  tw_ChainID : 0 <= tx_ChainID tx < 2 ^ 64;
  tw_Nonce : 0 <= tx_Nonce tx < 2 ^ 64;
  tw_GasLimit : 0 <= tx_GasLimit tx < 2 ^ 64;
}.

Lemma addressPtr_ok : codec_ok (ptrC addressC) (fun _ => True).
Proof.
  intros o _. apply (ptrC_ok addressC (fun _ => True)); [apply addressC_ok|done|done].
Qed.

Lemma enc_wf {A} (c : codec A) P a : codec_ok c P -> P a -> jwf (enc c a).
Proof. intros Hc Ha. by apply Hc. Qed.

Create HintDb json.
#[export] Hint Resolve uintC_ok int64C_ok boolC_ok bigC_ok hashC_ok addressC_ok addressPtr_ok bytesC_ok storageC_ok : json.

(** Every member of a struct is well formed. *)
Ltac members := repeat (apply Forall_cons; split); try (by apply Forall_nil); cbn [snd];
  (eapply enc_wf; [solve [eauto with json]|done]).

Lemma txC_ok : codec_ok txC tx_widths.
Proof.
  apply structC_ok. intros tx [Ht Hc Hn Hg]. split; [members|].
  - dec_field (uintC_ok 8) Ht. dec_field (uintC_ok 64) Hc. dec_field (uintC_ok 64) Hn. dec_field addressPtr_ok I.
    dec_field bigC_ok I. dec_field (uintC_ok 64) Hg. dec_field bigC_ok I. dec_field bytesC_ok I. dec_field bytesC_ok I.
    by destruct tx.
Qed.

Lemma headerC_ok : codec_ok headerC wf_header.
Proof.
  apply structC_ok. intros h [Hh Ht Hu Hl Hd Hn]. unfold is_u64 in *. split; [members|].
  dec_field hashC_ok I. dec_field (uintC_ok 64) Hh. dec_field int64C_ok Ht. do 3 (dec_field hashC_ok I).
  dec_field (uintC_ok 64) Hu. dec_field (uintC_ok 64) Hl. dec_field addressC_ok I. dec_field (uintC_ok 64) Hd.
  dec_field (uintC_ok 64) Hn. by destruct h.
Qed.

Lemma headerPtr_ok : codec_ok (ptrC headerC) (fun o => forall h, o = Some h -> wf_header h).
Proof. apply ptrC_ok; [apply headerC_ok|done]. Qed.

Lemma txsC_ok : codec_ok (listC (ptrC txC)) (Forall (fun o => forall tx, o = Some tx -> tx_widths tx)).
Proof. apply listC_ok, ptrC_ok; [apply txC_ok|done]. Qed.

#[export] Hint Resolve headerC_ok headerPtr_ok txC_ok txsC_ok : json.

(** What a decoded block satisfies: its integers have the width of their Go types. *)
Record raw_widths (b : rawBlock) : Prop := {
  rw_Header : forall h, rb_Header b = Some h -> wf_header h;
  rw_Txs : Forall (fun o => forall tx, o = Some tx -> tx_widths tx) (rb_Txs b);
}.

Lemma rawBlockC_ok : codec_ok rawBlockC raw_widths.
Proof.
  apply structC_ok. intros b [Hh Ht]. split; [members|].
  dec_field headerPtr_ok Hh. dec_field txsC_ok Ht. by destruct b.
Qed.

Lemma topicsC_ok : codec_ok (listC hashC) (fun _ => True).
Proof. intros l _. apply (listC_ok hashC (fun _ => True)); [apply hashC_ok|by apply Forall_true]. Qed.

#[export] Hint Resolve topicsC_ok : json.

Lemma logC_ok : codec_ok logC (fun _ => True).
Proof.
  apply structC_ok. intros l _. split; [members|].
  dec_field addressC_ok I. dec_field topicsC_ok I. dec_field bytesC_ok I. by destruct l.
Qed.

Lemma logsC_ok : codec_ok (listC logC) (fun _ => True).
Proof. intros l _. apply (listC_ok logC (fun _ => True)); [apply logC_ok|by apply Forall_true]. Qed.

#[export] Hint Resolve logsC_ok : json.

Lemma receiptC_ok : codec_ok receiptC receipt_widths.
Proof.
  apply structC_ok. intros r (Hs & Hc & Hg). unfold is_u64 in *. split; [members|].
  dec_field (uintC_ok 64) Hs. dec_field (uintC_ok 64) Hc. dec_field (uintC_ok 64) Hg. dec_field logsC_ok I.
  by destruct r.
Qed.

Lemma accountC_ok : codec_ok accountC (fun a => 0 <= sa_Nonce a < 2 ^ 64).
Proof.
  apply structC_ok. intros [n b st c] Hn. cbn [sa_Nonce sa_Balance sa_Storage sa_Code] in *.
  unfold omitempty. split.
  - destruct (bool_decide (st = ∅)), (len c =? 0); cbn [app]; members.
  - case_bool_decide as Es; [subst st|]; (destruct (Z.eqb_spec (len c) 0) as [Ec|Ec]; [apply len_zero_inv in Ec as ->|]); cbn [app];
      dec_field (uintC_ok 64) Hn; dec_field bigC_ok I.
    + do 2 (apply bind_absent; [done|]). done.
    + apply bind_absent; [done|]. by dec_field bytesC_ok I.
    + dec_field storageC_ok I. by apply bind_absent.
    + dec_field storageC_ok I. by dec_field bytesC_ok I.
Qed.
