(* ===== verification/Store.v ===== *)
(** * The key-value store (store/store.go, store/memory.go)

    [KV] is the interface the chain is written against: reads, a batch of
    writes that commits all at once or not at all, and a scan of a prefix.
    [KVLaws] is what its comments promise, in terms of the [contents] of the
    store; the chain's theorems rely on nothing else.  [Memory] implements it.
    To the chain an iterator is the list it walks: [memIter_walk] shows that
    for [Memory]'s.  Locks and [Close] are left out. *)
From stdpp Require Import base numbers list gmap sorting.
From Stdlib Require Import ZArith Lia Strings.Byte.
From S2P Require Import Prelude.
#[local] Open Scope Z_scope.
#[local] Open Scope list_scope.

(** One queued write; [None] is a delete. *)
Record memOp : Type := mkOp { op_key : list byte; op_value : option (list byte) }.

Definition Batch : Type := list memOp.

Definition Batch_Put (b : Batch) (key value : list byte) : Batch := b ++ [mkOp key (Some value)].

Definition Batch_Delete (b : Batch) (key : list byte) : Batch := b ++ [mkOp key None].

Definition Batch_Len (b : Batch) : Z := len b.

Class KV (D : Type) : Type := {
  KV_Get : D -> list byte -> res (list byte);
  KV_Has : D -> list byte -> bool;
  KV_Commit : D -> Batch -> D * res unit;
  KV_Iterate : D -> list byte -> list (list byte * list byte);
}.

Definition applyOp (m : gmap (list byte) (list byte)) (o : memOp) : gmap (list byte) (list byte) :=
  match op_value o with Some v => <[op_key o := v]> m | None => delete (op_key o) m end.

(** [bytes.HasPrefix] *)
Definition hasPrefix (k p : list byte) : bool := bool_decide (take (length p) k = p).

(** The entries under a prefix, in ascending order of their keys. *)
Definition scan (m : gmap (list byte) (list byte)) (p : list byte) : list (list byte * list byte) :=
  map (fun k => (k, default [] (m !! k)))
    (merge_sort bytes_le (filter (fun k => hasPrefix k p = true) (map_to_list m).*1)).

Class KVLaws (D : Type) `{KV D} : Type := {
  contents : D -> gmap (list byte) (list byte);
  Get_law d k : KV_Get d k = match contents d !! k with Some v => Ok v | None => Err ErrNotFound end;
  Has_law d k : KV_Has d k = bool_decide (is_Some (contents d !! k));
  Commit_law d b :
    (exists d', KV_Commit d b = (d', Ok tt) /\ contents d' = fold_left applyOp b (contents d))
    \/ (exists d' e, KV_Commit d b = (d', Err e) /\ contents d' = contents d);
  Iterate_law d p : KV_Iterate d p = scan (contents d) p;
}.

(** ** The in-memory store *)

Record Memory : Type := mkMemory { data : gmap (list byte) (list byte) }.

Definition NewMemory : Memory := mkMemory ∅.

Definition Memory_Get (m : Memory) (key : list byte) : res (list byte) :=
  match data m !! key with Some v => Ok v | None => Err ErrNotFound end.

Definition Memory_Has (m : Memory) (key : list byte) : bool := bool_decide (is_Some (data m !! key)).

Definition Memory_Put (m : Memory) (key value : list byte) : Memory := mkMemory (<[key := value]> (data m)).

Definition Memory_Delete (m : Memory) (key : list byte) : Memory := mkMemory (delete key (data m)).

Record memIter : Type := mkIter { it_keys : list (list byte); it_values : list (list byte); it_idx : Z }.

(** The map is copied in the order of its keys, whatever order Go ranges over it. *)
Definition Memory_Iterator (m : Memory) (prefix : list byte) : memIter :=
  let keys := filter (fun k => hasPrefix k prefix = true) (map_to_list (data m)).*1 in
  let keys := merge_sort bytes_le keys in
  mkIter keys (map (fun k => default [] (data m !! k)) keys) (-1).

Definition memIter_Next (it : memIter) : bool * memIter :=
  let idx := it_idx it + 1 in
  (idx <? len (it_keys it), mkIter (it_keys it) (it_values it) idx).

(** [nil] is the empty slice. *)
Definition memIter_Key (it : memIter) : list byte :=
  if (it_idx it <? 0) || (len (it_keys it) <=? it_idx it) then [] else default [] (it_keys it !! Z.to_nat (it_idx it)).

Definition memIter_Value (it : memIter) : list byte :=
  if (it_idx it <? 0) || (len (it_values it) <=? it_idx it) then [] else default [] (it_values it !! Z.to_nat (it_idx it)).

(** [for it.Next() { ... it.Key(), it.Value() ... }]; [None]: out of fuel. *)
Fixpoint memIter_walk (fuel : nat) (it : memIter) : option (list (list byte * list byte)) :=
  match fuel with
  | O => None
  | S f =>
      match memIter_Next it with
      | (true, it) => (fun l => (memIter_Key it, memIter_Value it) :: l) <$> memIter_walk f it
      | (false, _) => Some []
      end
  end.

Definition Memory_Iterate (m : Memory) (prefix : list byte) : list (list byte * list byte) :=
  let it := Memory_Iterator m prefix in zip (it_keys it) (it_values it).

Definition Memory_Len (m : Memory) : Z := Z.of_nat (size (data m)).

Definition CountPrefix (m : Memory) (prefix : list byte) : Z :=
  len (filter (fun k => hasPrefix k prefix = true) (map_to_list (data m)).*1).

(** Every queued operation, in order. *)
Definition memBatch_Commit (m : Memory) (b : Batch) : Memory * res unit :=
  (fold_left (fun m op => match op_value op with
                          | None => Memory_Delete m (op_key op)
                          | Some v => Memory_Put m (op_key op) v
                          end) b m, Ok tt).

#[export] Instance Memory_KV : KV Memory := {|
  KV_Get := Memory_Get;
  KV_Has := Memory_Has;
  KV_Commit := memBatch_Commit;
  KV_Iterate := Memory_Iterate;
|}.

Lemma memBatch_Commit_data m b :
  exists m', memBatch_Commit m b = (m', Ok tt) /\ data m' = fold_left applyOp b (data m).
Proof.
  eexists. split; [done|]. revert m. induction b as [|[k v] b IH]; intros m; [done|]. cbn [fold_left]. rewrite IH.
  unfold applyOp at 3. by destruct v.
Qed.

(** A walk visits what the iterator copied, in order, and ends. *)
Lemma memIter_walk_ok keys values i fuel :
  length keys = length values -> (i <= length keys)%nat -> (length keys - i < fuel)%nat ->
  memIter_walk fuel (mkIter keys values (Z.of_nat i - 1)) = Some (drop i (zip keys values)).
Proof.
  intros Hl. revert i. induction fuel as [|fuel IH]; intros i Hi Hf; [lia|]. cbn [memIter_walk]. unfold memIter_Next. cbn [it_idx it_keys it_values].
  replace (Z.of_nat i - 1 + 1) with (Z.of_nat i) by lia. destruct (Z.ltb_spec (Z.of_nat i) (len keys)) as [Hlt|Hge]; unfold len in *.
  - pose proof (IH (S i)) as IH'. replace (Z.of_nat (S i) - 1) with (Z.of_nat i) in IH' by lia. rewrite IH' by lia. cbn [fmap option_fmap option_map].
    destruct (lookup_lt_is_Some_2 keys i) as [k Hk]; [lia|]. destruct (lookup_lt_is_Some_2 values i) as [v Hv]; [lia|].
    f_equal. rewrite (drop_S (zip keys values) (k, v) i).
    + unfold memIter_Key, memIter_Value, len. cbn [it_idx it_keys it_values]. rewrite Nat2Z.id, Hk, Hv.
      destruct (Z.ltb_spec (Z.of_nat i) 0); [lia|]. destruct (Z.leb_spec (Z.of_nat (length keys)) (Z.of_nat i)); [lia|].
      destruct (Z.leb_spec (Z.of_nat (length values)) (Z.of_nat i)); [lia|]. done.
    + apply lookup_zip_Some. done.
  - rewrite drop_ge; [done|]. rewrite length_zip. lia.
Qed.

Lemma Memory_Iterate_walk m p : exists fuel, memIter_walk fuel (Memory_Iterator m p) = Some (Memory_Iterate m p).
Proof.
  eexists (S (length (it_keys (Memory_Iterator m p)))). unfold Memory_Iterate, Memory_Iterator. cbn [it_keys it_values].
  change (-1) with (Z.of_nat 0 - 1). apply memIter_walk_ok; [by rewrite length_map|lia|lia].
Qed.

Lemma Memory_Iterate_scan m p : Memory_Iterate m p = scan (data m) p.
Proof.
  unfold Memory_Iterate, Memory_Iterator, scan. cbn [it_keys it_values].
  generalize (merge_sort bytes_le (filter (fun k => hasPrefix k p = true) (map_to_list (data m)).*1)). intros l.
  induction l as [|k l IH]; [done|]. cbn [map zip]. by rewrite <- IH.
Qed.

#[export] Instance Memory_KVLaws : KVLaws Memory := {|
  contents := data;
  Get_law := fun _ _ => eq_refl;
  Has_law := fun _ _ => eq_refl;
  Commit_law := fun d b => or_introl (memBatch_Commit_data d b);
  Iterate_law := Memory_Iterate_scan;
|}.

(** ** What a batch does *)

Lemma applyOps_app (b b' : Batch) m : fold_left applyOp (b ++ b') m = fold_left applyOp b' (fold_left applyOp b m).
Proof. apply fold_left_app. Qed.

Lemma applyOp_lookup (m : gmap (list byte) (list byte)) o k :
  applyOp m o !! k = if decide (op_key o = k) then op_value o else m !! k.
Proof.
  unfold applyOp. destruct (decide (op_key o = k)) as [<-|Hne], (op_value o);
    [by rewrite lookup_insert_eq|by rewrite lookup_delete_eq|by rewrite lookup_insert_ne|by rewrite lookup_delete_ne].
Qed.

(** A key no operation names keeps its value. *)
Lemma applyOps_other (b : Batch) (m : gmap (list byte) (list byte)) k :
  Forall (fun o => op_key o <> k) b -> fold_left applyOp b m !! k = m !! k.
Proof.
  intros Hb. revert m. induction Hb as [|o b Ho Hb IH]; intros m; [done|]. cbn [fold_left].
  rewrite IH, applyOp_lookup. by rewrite decide_False.
Qed.
