(* ===== verification/Schema.v ===== *)
(** * The on-disk schema (core/schema.go)

    The keys of the tables, what is written for a block, and how it is read
    back.  A batch is threaded through the writers; a reader takes the store.
    [json.Marshal] never fails on these types. *)
From stdpp Require Import base numbers list gmap sorting.
From Stdlib Require Import ZArith Lia Strings.Byte.
From Stdlib Require Strings.String.
Import Strings.String.StringSyntax.
From S2P Require Import Prelude Common Types Vm State StateInv Json JsonCodec Store.
#[local] Open Scope Z_scope.
#[local] Open Scope list_scope.
#[local] Open Scope go_scope.

Definition prefixBlock : byte := x62.
Definition prefixCanonical : byte := x63.
Definition prefixReceipts : byte := x72.
Definition prefixTxIndex : byte := x74.
Definition prefixAccount : byte := x61.
Definition prefixRevDiff : byte := x64.
Definition prefixTD : byte := x77.

Definition keyHead : list byte := str "!head".
Definition keyGenesis : list byte := str "!genesis".
Definition keySchema : list byte := str "!schema".
Definition keyChainID : list byte := str "!chainid".
Definition keyBurned : list byte := str "!burned".
Definition schemaVersion : Z := 1.

Definition canonicalKey (height : Z) : list byte := prefixCanonical :: be_fixed 8 height.

Definition blockKey (h : Hash) : list byte := prefixBlock :: abytes h.
Definition receiptsKey (h : Hash) : list byte := prefixReceipts :: abytes h.
Definition txIndexKey (h : Hash) : list byte := prefixTxIndex :: abytes h.
Definition accountKey (a : Address) : list byte := prefixAccount :: abytes a.
Definition revDiffKey (h : Hash) : list byte := prefixRevDiff :: abytes h.
Definition tdKey (h : Hash) : list byte := prefixTD :: abytes h.

(** ** Stored documents *)

Record TxLocation : Type := mkLocation { BlockHash : Hash; BlockHeight : Z; Index : Z }.

Definition locationC : codec TxLocation := structC (mkLocation ZeroHash 0 0)
  (fun l => [(str "blockHash", enc hashC (BlockHash l)); (str "blockHeight", enc (uintC 64) (BlockHeight l));
             (str "index", enc (uintC 64) (Index l))])
  (fun ms cur =>
     field hashC (str "blockHash") ms (BlockHash cur) ≫= fun h =>
     field (uintC 64) (str "blockHeight") ms (BlockHeight cur) ≫= fun n =>
     field (uintC 64) (str "index") ms (Index cur) ≫= fun i =>
     Some (mkLocation h n i)).

Record storedDiffEntry : Type := mkEntry {
  de_Address : Address;
  de_Existed : bool;
  de_Nonce : Z;
  de_Balance : option Z;
  de_Storage : gmap Hash Hash;
  de_Code : list byte;
}.

Definition entryC : codec storedDiffEntry := structC (mkEntry ZeroAddress false 0 None ∅ [])
  (fun e => [(str "address", enc addressC (de_Address e)); (str "existed", enc boolC (de_Existed e));
             (str "nonce", enc (uintC 64) (de_Nonce e)); (str "balance", enc bigC (de_Balance e))]
            ++ omitempty (bool_decide (de_Storage e = ∅)) (str "storage") (enc storageC (de_Storage e))
            ++ omitempty (len (de_Code e) =? 0) (str "code") (enc bytesC (de_Code e)))
  (fun ms cur =>
     field addressC (str "address") ms (de_Address cur) ≫= fun a =>
     field boolC (str "existed") ms (de_Existed cur) ≫= fun x =>
     field (uintC 64) (str "nonce") ms (de_Nonce cur) ≫= fun n =>
     field bigC (str "balance") ms (de_Balance cur) ≫= fun b =>
     field storageC (str "storage") ms (de_Storage cur) ≫= fun st =>
     field bytesC (str "code") ms (de_Code cur) ≫= fun c =>
     Some (mkEntry a x n b st c)).

Record storedDiff : Type := mkDiff { Entries : list storedDiffEntry; BurnDelta : option Z }.

Definition diffC : codec storedDiff := structC (mkDiff [] None)
  (fun d => [(str "entries", enc (listC entryC) (Entries d))]
            ++ omitempty (bool_decide (BurnDelta d = None)) (str "burnDelta") (enc bigC (BurnDelta d)))
  (fun ms cur =>
     field (listC entryC) (str "entries") ms (Entries cur) ≫= fun es =>
     field bigC (str "burnDelta") ms (BurnDelta cur) ≫= fun b =>
     Some (mkDiff es b)).

Definition encodeJSON {A} (c : codec A) (v : A) : list byte := print (enc c v).

Definition decodeJSON {A} (c : codec A) (data : list byte) : res A :=
  match parse data ≫= (fun j => dec c j (zero c)) with Some v => Ok v | None => Err ErrJSON end.

(** A block with all its pointers, and back. *)
Definition toRaw (b : Block) : rawBlock := mkRawBlock (Some (b_Header b)) (map Some (b_Txs b)).

Fixpoint allTxs (txs : list (option Transaction)) : option (list Transaction) :=
  match txs with
  | [] => Some []
  | Some tx :: r => (fun l => tx :: l) <$> allTxs r
  | None :: _ => None
  end.

Definition toStored (a : Account) : storedAccount := mkStored (Nonce a) (Some (Balance a)) (Storage a) (Code a).

(** ** Writers *)

Definition putHash (b : Batch) (key : list byte) (h : Hash) : Batch := Batch_Put b key (abytes h).

Definition putUint64 (b : Batch) (key : list byte) (v : Z) : Batch := Batch_Put b key (be_fixed 8 v).

Definition putBigInt (b : Batch) (key : list byte) (v : option Z) : Batch := Batch_Put b key (be_min (default 0 v)).

Section Schema.
Context `{Crypto}.

Definition putTD (b : Batch) (h : Hash) (td : Z) : Batch := Batch_Put b (tdKey h) (be_min td).

Definition writeBlock (b : Batch) (blk : Block) (receipts : list Receipt) : Batch :=
  let b := Batch_Put b (blockKey (Block_Hash blk)) (encodeJSON rawBlockC (toRaw blk)) in
  Batch_Put b (receiptsKey (Block_Hash blk)) (encodeJSON (listC receiptC) receipts).

(** The account before the block. *)
Definition diffEntry (prev : State) (addr : Address) : storedDiffEntry :=
  if Exists prev addr then
    let p := State_Get prev addr in
    mkEntry addr true (Nonce p) (Some (Balance p)) (Storage p) (Code p)
  else mkEntry addr false 0 None ∅ [].

(** The account after it. *)
Definition putAccount (next : State) (b : Batch) (addr : Address) : Batch :=
  if negb (Exists next addr) then Batch_Delete b (accountKey addr)
  else Batch_Put b (accountKey addr) (encodeJSON accountC (toStored (State_Get next addr))).

Definition writeAccountChanges (b : Batch) (blk : Block) (next prev : State) (touched : list Address) : Batch :=
  let diff := mkDiff (map (diffEntry prev) touched) (Some (Burned next - Burned prev)) in
  let b := fold_left (putAccount next) touched b in
  Batch_Put b (revDiffKey (Block_Hash blk)) (encodeJSON diffC diff).

Definition locationOf (blk : Block) (i : nat) : TxLocation := mkLocation (Block_Hash blk) (Block_Height blk) (Z.of_nat i).

(** [core/blockchain.go] *)
Definition indexTxs (b : Batch) (blk : Block) : Batch :=
  fold_left (fun b p => Batch_Put b (txIndexKey (tx_Hash (snd p))) (encodeJSON locationC (locationOf blk (fst p))))
    (imap pair (b_Txs blk)) b.

(** ** Readers *)

Context {D : Type} `{KV D}.

Definition getTD (db : D) (h : Hash) : res Z := let? data := KV_Get db (tdKey h) in Ok (be2z data).

Definition getUint64 (db : D) (key : list byte) : res Z :=
  let? data := KV_Get db key in
  if negb (len data =? 8) then Err ErrCorrupt else Ok (be2z data).

(** An absent key is zero. *)
Definition getBigInt (db : D) (key : list byte) : res Z :=
  match KV_Get db key with
  | Err ErrNotFound => Ok 0
  | Err e => Err e
  | Panic => Panic
  | Ok data => Ok (be2z data)
  end.

Definition getHash (db : D) (key : list byte) : res Hash := let? data := KV_Get db key in HashFromBytes data.

(** A nil transaction in a stored body, which is never written, is refused here rather than later. *)
Definition loadBlock (db : D) (h : Hash) : res Block :=
  let? data := KV_Get db (blockKey h) in
  let? raw := decodeJSON rawBlockC data in
  match rb_Header raw with
  | None => Panic
  | Some header =>
      if negb (array_eqb (Header_Hash header) h) then Err ErrCorrupt
      else match allTxs (rb_Txs raw) with
           | Some txs => Ok (mkBlock header txs)
           | None => Err ErrCorrupt
           end
  end.

Definition loadReceipts (db : D) (h : Hash) : res (list Receipt) :=
  let? data := KV_Get db (receiptsKey h) in decodeJSON (listC receiptC) data.

Definition loadAccount (db : D) (addr : Address) : res (option storedAccount) :=
  match KV_Get db (accountKey addr) with
  | Err ErrNotFound => Ok None
  | Err e => Err e
  | Panic => Panic
  | Ok data => let? acc := decodeJSON accountC data in Ok (Some acc)
  end.

Definition loadStoredDiff (db : D) (blockHash : Hash) : res storedDiff :=
  let? data := KV_Get db (revDiffKey blockHash) in decodeJSON diffC data.

Definition undoEntry (b : Batch) (e : storedDiffEntry) : Batch :=
  if negb (de_Existed e) then Batch_Delete b (accountKey (de_Address e))
  else Batch_Put b (accountKey (de_Address e))
         (encodeJSON accountC (mkStored (de_Nonce e) (de_Balance e) (de_Storage e) (de_Code e))).

Definition applyReverseDiff (db : D) (b : Batch) (blockHash : Hash) : res Batch :=
  let? data := KV_Get db (revDiffKey blockHash) in
  let? diff := decodeJSON diffC data in
  Ok (fold_left undoEntry (Entries diff) b).

(** The loop of [loadState]. *)
Fixpoint loadAccounts (entries : list (list byte * list byte)) (s : State) : res State :=
  match entries with
  | [] => Ok s
  | (key, value) :: rest =>
      if negb (len key =? 1 + Z.of_nat AddressLength) then Err ErrCorrupt
      else
        let addr := array_of AddressLength (tail key) in
        let? acc := decodeJSON accountC value in
        loadAccounts rest (RestoreAccount s addr (sa_Nonce acc) (sa_Balance acc) (sa_Storage acc) (sa_Code acc))
  end.

Definition loadState (db : D) : res State :=
  let? s := loadAccounts (KV_Iterate db [prefixAccount]) State_New in
  Ok (ClearTouched s).

End Schema.
