(* ===== verification/JsonWide.v ===== *)
(** * What decoding can produce

    A message is bytes from anyone.  Whatever it decodes to is within the
    widths of the Go types, and no byte slice in it is longer than the message. *)
From stdpp Require Import base numbers list gmap.
From Stdlib Require Import ZArith Lia Strings.Byte.
From Stdlib Require Strings.String.
From Stdlib Require Strings.String DecimalFacts DecimalPos.
Import Strings.String.StringSyntax.
From S2P Require Import Prelude Common Types State Json JsonCodec Store Schema.
#[local] Open Scope Z_scope.
#[local] Open Scope list_scope.

(** No string and no array in the document is longer than [N]. *)
Fixpoint jbound (N : nat) (j : json) : Prop :=
  match j with
  | JStr s => (length s <= N)%nat
  | JArr l => (length l <= N)%nat /\ foldr (fun v P => jbound N v /\ P) True l
  | JObj l => foldr (fun p P => jbound N (snd p) /\ P) True l
  | _ => True
  end.

Lemma jbound_arr N l : jbound N (JArr l) <-> (length l <= N)%nat /\ Forall (jbound N) l.
Proof. cbn. f_equiv. induction l as [|v l IH]; [done|]. rewrite Forall_cons, <- IH. done. Qed.

Lemma jbound_obj N l : jbound N (JObj l) <-> Forall (fun p => jbound N (snd p)) l.
Proof. induction l as [|v l IH]; [done|]. rewrite Forall_cons, <- IH. done. Qed.

(** ** Parsing *)

Lemma utf8_length r : (length (utf8 r) <= 4)%nat.
Proof. unfold utf8. destruct (r <? 128), (r <? 2048), (r <? 65536); cbn; lia. Qed.

Lemma prepend_length p r s t k :
  prepend p r = Some (s, t) -> (forall s t, r = Some (s, t) -> (length s + length t <= k)%nat) -> (length s + length t <= length p + k)%nat.
Proof. unfold prepend. destruct r as [[a b]|]; [|done]. intros [= <- <-] H. specialize (H a b eq_refl). rewrite length_app. lia. Qed.

Lemma readStr_size n l s r : (length l <= n)%nat -> readStr l = Some (s, r) -> (length s + length r <= length l)%nat.
Proof.
  revert l s r. induction n as [|n IH]; intros l s r Hn; destruct l as [|q l]; cbn [length] in *; try (done || lia).
  cbn [readStr]. destruct (Byte.eqb q x22); [intros [= <- <-]; cbn; lia|].
  assert (forall p l', (length p + length l' <= S (length l))%nat -> (length l' <= length l)%nat ->
    prepend p (readStr l') = Some (s, r) -> (length s + length r <= S (length l))%nat) as Hstep.
  { intros p l' Hp Hl' E. enough (forall s t, readStr l' = Some (s, t) -> (length s + length t <= length l')%nat) as Hk
      by (pose proof (prepend_length p _ s r _ E Hk); lia).
    intros s' t' E'. apply (IH l' s' t'); [lia|done]. }
  destruct (Byte.eqb q x5c).
  2:{ destruct (_ <? 32); [done|]. apply Hstep; cbn; lia. }
  destruct l as [|e l]; [done|]. cbn [length] in *. destruct (Byte.eqb e x75).
  2:{ destruct (simpleEscape e); [|done]. apply Hstep; cbn; lia. }
  destruct l as [|a [|b [|c [|d l]]]]; try done. cbn [length] in *. destruct (hex4 a b c d) as [u|]; [|done].
  pose proof (utf8_length u) as Hu. pose proof (utf8_length 65533) as Hf.
  destruct (_ && _); [|apply Hstep; lia].
  destruct l as [|x [|y [|a' [|b' [|c' [|d' l]]]]]]; try (apply Hstep; cbn [length] in *; lia).
  destruct (_ ≫= surrogates u) as [rune|]; [pose proof (utf8_length rune)|]; apply Hstep; cbn [length] in *; lia.
Qed.

Lemma scalar_bound N l j r : (length l <= N)%nat -> scalar l = Some (j, r) -> jbound N j /\ (length r <= length l)%nat.
Proof.
  intros HN. unfold scalar. destruct (expect x22 l) as [t|] eqn:E.
  - apply expect_length in E. destruct (readStr t) as [[s u]|] eqn:Es; [|done]. intros [= <- <-].
    apply (readStr_size (length t)) in Es; [|done]. cbn. lia.
  - destruct (isPrefix (str "true") l) eqn:E1; [intros [= <- <-]; apply isPrefix_length in E1; split; [done|lia]|].
    destruct (isPrefix (str "false") l) eqn:E2; [intros [= <- <-]; apply isPrefix_length in E2; split; [done|lia]|].
    destruct (isPrefix (str "null") l) eqn:E3; [intros [= <- <-]; apply isPrefix_length in E3; split; [done|lia]|].
    pose proof (span_length isNum l). destruct (span isNum l) as [lit u]. cbn in *. destruct (validNum lit); [|done].
    intros [= <- <-]. split; [done|lia].
Qed.

(** A value, the elements of an array, the members of an object; an array is shorter than its text. *)
Lemma parse_bounds N fuel :
  (forall l j r, (length l <= N)%nat -> parseValue fuel l = Some (j, r) -> jbound N j /\ (length r <= length l)%nat)
  /\ (forall l vs r, (length l <= N)%nat -> parseElems fuel l = Some (vs, r) ->
        Forall (jbound N) vs /\ (length vs + length r <= length l)%nat)
  /\ (forall l ms r, (length l <= N)%nat -> parseMembers fuel l = Some (ms, r) ->
        Forall (fun p => jbound N (snd p)) ms /\ (length r <= length l)%nat).
Proof.
  induction fuel as [|f (IHv & IHe & IHm)]; [done|]. split_and!; intros l.
  - intros j r HN. cbn [parseValue]. pose proof (skipSpace_length l) as Hs. set (t := skipSpace l) in *. clearbody t.
    destruct (expect x7b t) as [u|] eqn:E1.
    + apply expect_length in E1. destruct (expect x7d (skipSpace u)) as [w|] eqn:E2.
      * apply expect_length in E2. pose proof (skipSpace_length u). intros [= <- <-]. cbn. lia.
      * destruct (parseMembers f u) as [[ms w]|] eqn:E3; [|done]. intros [= <- <-].
        apply IHm in E3 as [Hm Hl]; [|lia]. rewrite jbound_obj. split; [done|lia].
    + destruct (expect x5b t) as [u|] eqn:E2.
      * apply expect_length in E2. destruct (expect x5d (skipSpace u)) as [w|] eqn:E3.
        -- apply expect_length in E3. pose proof (skipSpace_length u). intros [= <- <-]. cbn. lia.
        -- destruct (parseElems f u) as [[vs w]|] eqn:E4; [|done]. intros [= <- <-].
           apply IHe in E4 as [Hm Hl]; [|lia]. rewrite jbound_arr. split_and!; [lia|done|lia].
      * intros E. apply scalar_bound with (N := N) in E as [? ?]; [|lia]. split; [done|lia].
  - intros vs r HN. cbn [parseElems]. destruct (parseValue f l) as [[v u]|] eqn:Ev; [|done].
    apply IHv in Ev as [Hv Hu]; [|done]. pose proof (skipSpace_length u) as Hs.
    destruct (expect x2c (skipSpace u)) as [w|] eqn:E1.
    + apply expect_length in E1. destruct (parseElems f w) as [[ws z]|] eqn:E2; [|done]. intros [= <- <-].
      apply IHe in E2 as [Hw Hz]; [|lia]. split; [by constructor|cbn; lia].
    + destruct (expect x5d (skipSpace u)) as [w|] eqn:E2; [|done]. apply expect_length in E2. intros [= <- <-].
      split; [by repeat constructor|cbn; lia].
  - intros ms r HN. cbn [parseMembers]. pose proof (skipSpace_length l) as Hl.
    destruct (expect x22 (skipSpace l)) as [a|] eqn:E1; [|done]. apply expect_length in E1. cbn [mbind option_bind].
    destruct (readStr a) as [[k u]|] eqn:E2; [|done]. apply (readStr_size (length a)) in E2; [|done].
    pose proof (skipSpace_length u). destruct (expect x3a (skipSpace u)) as [b|] eqn:E3; [|done]. apply expect_length in E3.
    cbn [mbind option_bind]. destruct (parseValue f b) as [[v w]|] eqn:E4; [|done]. apply IHv in E4 as [Hv Hw]; [|lia].
    pose proof (skipSpace_length w). destruct (expect x2c (skipSpace w)) as [z|] eqn:E5.
    + apply expect_length in E5. destruct (parseMembers f z) as [[ns y]|] eqn:E6; [|done]. intros [= <- <-].
      apply IHm in E6 as [Hn Hy]; [|lia]. split; [by constructor|lia].
    + destruct (expect x7d (skipSpace w)) as [z|] eqn:E6; [|done]. apply expect_length in E6. intros [= <- <-].
      split; [by repeat constructor|lia].
Qed.

Lemma parse_bound l j : parse l = Some j -> jbound (length l) j.
Proof.
  unfold parse. destruct (parseValue _ l) as [[v r]|] eqn:E; [|done]. destruct (skipSpace r); [|done]. intros [= <-].
  by apply (parse_bounds (length l)) in E as [Hb _].
Qed.

(** ** Decoding *)

(** Decoding a document within [N] onto a value in [Q] gives a value in [Q]. *)
Definition wide {A} (N : nat) (c : codec A) (Q : A -> Prop) : Prop :=
  Q (zero c) /\ forall j cur v, jbound N j -> Q cur -> dec c j cur = Some v -> Q v.

Lemma readDigits_nonneg l v : readDigits l = Some v -> 0 <= v.
Proof. unfold readDigits. destruct l; [done|]. destruct (bytes_uint _); [|done]. intros [= <-]. lia. Qed.

Lemma uintC_wide N bits : 0 <= bits -> wide N (uintC bits) (fun v => 0 <= v < 2 ^ bits).
Proof.
  intros Hb. split; [cbn; lia|]. intros j cur v _ Hcur. destruct j; cbn; try done; [by intros [= <-]|].
  destruct (readDigits lit) as [x|] eqn:E; [|done]. apply readDigits_nonneg in E. cbn. destruct (Z.ltb_spec x (2 ^ bits)); [|done].
  intros [= <-]. lia.
Qed.

Lemma int64C_wide N : wide N int64C (fun v => - 2 ^ 63 <= v < 2 ^ 63).
Proof.
  split; [cbn; lia|]. intros j cur v _ Hcur. destruct j; cbn -[Z.pow]; try done; [by intros [= <-]|].
  destruct (atoi lit) as [x|]; [|done]. cbn -[Z.pow]. destruct (_ && _) eqn:E; [|done]. intros [= <-]. lia.
Qed.

Lemma any_wide {A} N (c : codec A) : wide N c (fun _ => True).
Proof. done. Qed.

Lemma ptrC_wide {A} N (c : codec A) Q : wide N c Q -> wide N (ptrC c) (fun o => forall a, o = Some a -> Q a).
Proof.
  intros [Hz Hd]. split; [done|]. intros j cur v Hj Hcur E a ->.
  assert (dec c j (default (zero c) cur) = Some a) as Ea 
    by (destruct j; cbn in E; [done|..]; (destruct (dec c _ _) in E |- *; [by injection E as <-|done])).
  apply (Hd j _ a Hj) in Ea; [done|]. destruct cur as [x|]; [by apply Hcur|done].
Qed.

Lemma decElems_wide {A} N (c : codec A) Q js cur v :
  wide N c Q -> Forall (jbound N) js -> Forall Q cur -> decElems c js cur = Some v -> Forall Q v /\ length v = length js.
Proof.
  intros [Hz Hd] Hjs. revert cur v. induction Hjs as [|j js Hj Hjs IH]; intros cur v Hcur; cbn [decElems]; [by intros [= <-]|].
  destruct (dec c j _) as [a|] eqn:Ea; [|done]. destruct (decElems c js (tail cur)) as [l|] eqn:El; [|done]. intros [= <-].
  apply Hd in Ea; [|done|]; [|destruct cur; [done|by apply Forall_cons in Hcur as [? _]]].
  apply IH in El as [Hl El]; [|destruct cur; [done|by apply Forall_cons in Hcur as [_ ?]]]. split; [by constructor|cbn; by rewrite El].
Qed.

Lemma listC_wide {A} N (c : codec A) Q : wide N c Q -> wide N (listC c) (Forall Q).
Proof.
  intros Hc. split; [apply Forall_nil_2|]. intros j cur v Hj Hcur. destruct j; cbn [dec listC]; try done; [intros [= <-]; apply Forall_nil_2|].
  apply jbound_arr in Hj as [_ Hj]. intros E. by apply (decElems_wide N c Q _ cur) in E as [? _].
Qed.

Lemma listC_length {A} N (c : codec A) j cur v : jbound N j -> dec (listC c) j cur = Some v -> (length v <= N)%nat.
Proof.
  intros Hj. destruct j; cbn [dec listC]; try done; [intros [= <-]; cbn; lia|]. apply jbound_arr in Hj as [Hl Hj]. intros E.
  apply (decElems_wide N c (fun _ => True)) in E as [_ E]; [lia|done|done|by apply Forall_true].
Qed.

Lemma b64groups_length n l v : (length l <= n)%nat -> b64groups l = Some v -> (length v <= length l)%nat.
Proof.
  revert l v. induction n as [|n IH]; intros l v Hn; (destruct l as [|a [|b [|c [|d r]]]]; cbn [length b64groups] in *; try done; try lia; try (by intros [= <-])).
  destruct (b64value a) as [va|]; [|done]. destruct (b64value b) as [vb|]; [|done].
  destruct (b64value c) as [vc|]; [destruct (b64value d) as [vd|]|].
  - destruct (b64groups r) as [w|] eqn:E; [|done]. apply IH in E; [|lia]. intros [= <-]. cbn. lia.
  - destruct (_ && _); [|done]. intros [= <-]. cbn. lia.
  - destruct (_ && _); [|done]. intros [= <-]. cbn. lia.
Qed.

Lemma bytesC_wide N : wide N bytesC (fun l => (length l <= N)%nat).
Proof.
  split; [cbn; lia|]. intros j cur v Hj Hcur. destruct j; cbn [dec bytesC]; try done.
  - intros [= <-]. cbn. lia.
  - cbn in Hj. unfold b64decode. intros E. apply (b64groups_length (length (filter (fun b => b <> x0a /\ b <> x0d) s))) in E; [|done].
    pose proof (length_filter (fun b => b <> x0a /\ b <> x0d) s). lia.
  - apply jbound_arr in Hj as [Hl Hj]. destruct (decElems _ _ _) as [w|] eqn:E; [|done]. intros [= <-].
    apply (decElems_wide N (uintC 8) (fun _ => True)) in E as [_ E]; [|done|done|by apply Forall_true]. rewrite length_map. lia.
Qed.

(** A field of a struct. *)
Lemma field_wide {A} N (c : codec A) Q name ms cur v :
  wide N c Q -> Forall (fun p => jbound N (snd p)) ms -> Q cur -> field c name ms cur = Some v -> Q v.
Proof.
  intros Hc Hms. revert cur. induction Hms as [|[k j] ms Hj Hms IH]; intros cur Hcur; cbn [field]; [by intros [= <-]|].
  destruct (sameName k name); [|by apply IH]. destruct (dec c j cur) as [a|] eqn:E; [|done]. apply IH. by eapply Hc.
Qed.

Lemma structC_wide {A} N (z : A) fields k (Q : A -> Prop) :
  Q z -> (forall ms cur v, Forall (fun p => jbound N (snd p)) ms -> Q cur -> k ms cur = Some v -> Q v) -> wide N (structC z fields k) Q.
Proof.
  intros Hz Hk. split; [done|]. intros j cur v Hj Hcur. destruct j; cbn [dec structC]; try done; [by intros [= <-]|].
  apply Hk; [by apply jbound_obj|done].
Qed.

(** The next field of a struct decodes into [Q]. *)
Ltac next_field Hc Hcur :=
  match goal with
  | |- (field ?c ?name ?ms ?cur ≫= _) = Some _ -> _ =>
      let E := fresh "E" in let x := fresh "x" in
      destruct (field c name ms cur) as [x|] eqn:E; [|done]; cbn [mbind option_bind];
      let F := fresh "F" in pose proof (field_wide _ _ _ _ _ _ _ Hc ltac:(eassumption) Hcur E) as F; cbv beta in F; clear E
  end.

(** A transaction that a message of [N] bytes can carry. *)
Definition tx_carried (N : nat) (tx : Transaction) : Prop := tx_widths tx /\ (length (tx_Data tx) <= N)%nat.

Lemma txC_wide N : wide N txC (tx_carried N).
Proof.
  apply structC_wide; [repeat split; cbn; lia|]. intros ms cur v Hms [[Ht Hc Hn Hg] Hd].
  next_field (uintC_wide N 8 ltac:(lia)) Ht. next_field (uintC_wide N 64 ltac:(lia)) Hc. next_field (uintC_wide N 64 ltac:(lia)) Hn.
  next_field (any_wide N (ptrC addressC)) I. next_field (any_wide N bigC) I. next_field (uintC_wide N 64 ltac:(lia)) Hg.
  next_field (any_wide N bigC) I. next_field (bytesC_wide N) Hd. next_field (any_wide N bytesC) I.
  intros [= <-]. repeat split; cbn; try lia; done.
Qed.

Lemma headerC_wide N : wide N headerC wf_header.
Proof.
  apply structC_wide; [repeat split; cbn; lia|]. intros ms cur v Hms [Hh Ht Hu Hl Hd Hn]. unfold is_u64 in *.
  next_field (any_wide N hashC) I. next_field (uintC_wide N 64 ltac:(lia)) Hh. next_field (int64C_wide N) Ht.
  do 3 next_field (any_wide N hashC) I. next_field (uintC_wide N 64 ltac:(lia)) Hu. next_field (uintC_wide N 64 ltac:(lia)) Hl.
  next_field (any_wide N addressC) I. next_field (uintC_wide N 64 ltac:(lia)) Hd. next_field (uintC_wide N 64 ltac:(lia)) Hn.
  intros [= <-]. split; unfold is_u64; cbn; lia.
Qed.

Record block_carried (N : nat) (b : rawBlock) : Prop := {
  bc_header : forall h, rb_Header b = Some h -> wf_header h;
  bc_txs : Forall (fun o => forall tx, o = Some tx -> tx_carried N tx) (rb_Txs b);
}.

Lemma rawBlockC_wide N : wide N rawBlockC (block_carried N).
Proof.
  apply structC_wide; [split; [done|apply Forall_nil_2]|]. intros ms cur v Hms [Hh Ht].
  next_field (ptrC_wide N headerC wf_header (headerC_wide N)) Hh.
  next_field (listC_wide N (ptrC txC) _ (ptrC_wide N txC _ (txC_wide N))) Ht. intros [= <-]. by split.
Qed.

Lemma decodeJSON_wide {A} (c : codec A) Q data v : wide (length data) c Q -> decodeJSON c data = Ok v -> Q v.
Proof.
  intros [Hz Hd]. unfold decodeJSON. destruct (parse data) as [j|] eqn:E; [|done]. cbn [mbind option_bind].
  destruct (dec c j (zero c)) as [w|] eqn:Ew; [|done].
  intros [= <-]. apply (Hd j (zero c)); [by apply parse_bound|done|done].
Qed.

(** * How long what is encoded can be *)
(** ** Decimal digits *)

Lemma uint_bytes_length u : length (uint_bytes u) = Decimal.nb_digits u.
Proof. induction u; cbn; congruence. Qed.

Lemma nb_double u : (Decimal.nb_digits (Decimal.Little.double u) <= S (Decimal.nb_digits u)
  /\ Decimal.nb_digits (Decimal.Little.succ_double u) <= S (Decimal.nb_digits u))%nat.
Proof. induction u; cbn; lia. Qed.

Lemma little_digits p : (Decimal.nb_digits (Pos.to_little_uint p) <= Pos.size_nat p)%nat.
Proof.
  induction p as [p IH|p IH|]; cbn; [|..|lia]; pose proof (nb_double (Pos.to_little_uint p)); lia.
Qed.

Lemma to_uint_length n : (n < 2 ^ 64)%N -> (length (uint_bytes (N.to_uint n)) <= 65)%nat.
Proof.
  intros Hn. rewrite uint_bytes_length. destruct n as [|p]; [cbn; lia|]. cbn. unfold Pos.to_uint. rewrite DecimalFacts.nb_digits_rev.
  etransitivity; [apply little_digits|]. change 65%nat with (Pos.size_nat (2 ^ 64)). apply Pos.size_nat_monotone. lia.
Qed.

Lemma itoa_length z : - 2 ^ 63 <= z < 2 ^ 64 -> (length (itoa z) <= 66)%nat.
Proof.
  intros Hz. unfold itoa. destruct (z <? 0); cbn [length].
  - pose proof (to_uint_length (Z.to_N (- z)) ltac:(lia)). lia.
  - pose proof (to_uint_length (Z.to_N z) ltac:(lia)). lia.
Qed.

(** ** Documents *)

Lemma quote_length s : (length (quote s) <= 6 * length s + 2)%nat.
Proof.
  unfold quote. cbn [length]. rewrite length_app. cbn [length].
  enough (length (concat (map escapeByte s)) <= 6 * length s)%nat by lia.
  induction s as [|b s IH]; cbn [map concat length]; [lia|]. rewrite length_app.
  enough (length (escapeByte b) <= 6)%nat by lia. clear. destruct b; cbn; lia.
Qed.

Lemma commas_length l k : Forall (fun x => (length x <= k)%nat) l -> (length (commas l) <= length l * S k)%nat.
Proof.
  intros Hl. induction Hl as [|x l Hx Hl IH]; [cbn; lia|]. cbn [commas]. destruct l as [|y l]; [cbn; lia|].
  rewrite length_app. cbn [length] in *. lia.
Qed.

Lemma print_arr_length l k : Forall (fun j => (length (print j) <= k)%nat) l -> (length (print (JArr l)) <= length l * S k + 2)%nat.
Proof.
  intros Hl. cbn [print length]. rewrite length_app. cbn [length].
  pose proof (commas_length (map print l) k ltac:(by apply Forall_map)) as Hc. rewrite length_map in Hc. lia.
Qed.

(** Names of at most 16 bytes, values of at most [k]. *)
Lemma print_obj_length l k :
  Forall (fun p => (length (fst p) <= 16)%nat /\ (length (print (snd p)) <= k)%nat) l -> (length (print (JObj l)) <= length l * (k + 100) + 2)%nat.
Proof.
  intros Hl. replace (k + 100)%nat with (S (k + 99)) by lia. cbn [print length]. rewrite length_app. cbn [length].
  pose proof (commas_length (map (fun p => quote (fst p) ++ x3a :: print (snd p)) l) (k + 99)) as Hc. rewrite length_map in Hc.
  enough (Forall (fun x => (length x <= k + 99)%nat) (map (fun p => quote (fst p) ++ x3a :: print (snd p)) l)) as Hf by (specialize (Hc Hf); lia).
  apply Forall_map. eapply Forall_impl; [exact Hl|]. intros p [Hk Hv]. rewrite length_app. cbn [length].
  pose proof (quote_length (fst p)). lia.
Qed.

Lemma str_length s k : (String.length s <= k)%nat -> (length (str s) <= k)%nat.
Proof.
  intros Hs. enough (length (str s) = String.length s) as -> by done. clear. unfold str, String.list_byte_of_string. rewrite length_map. induction s; cbn; congruence.
Qed.

Lemma hex_length l : length (hex_EncodeToString l) = (2 * length l)%nat.
Proof. unfold hex_EncodeToString. induction l as [|b l IH]; cbn in *; lia. Qed.

Lemma text_length s : (length s <= 66)%nat -> (length (print (JStr s)) <= 400)%nat.
Proof. intros Hs. cbn [print]. pose proof (quote_length s). lia. Qed.

Lemma hash_length h : (length (print (enc hashC h)) <= 400)%nat.
Proof. apply text_length. unfold Hash_MarshalText, Hash_Hex. rewrite length_app, hex_length, abytes_length. cbn. lia. Qed.

Lemma address_length a : (length (print (enc addressC a)) <= 400)%nat.
Proof. apply text_length. unfold Address_MarshalText, Address_Hex. rewrite length_app, hex_length, abytes_length. cbn. lia. Qed.

Lemma header_length h : wf_header h -> len (print (enc headerC h)) <= 6000.
Proof.
  intros [Hh Ht Hu Hl Hd Hn]. unfold is_u64 in *. change (enc headerC h) with (JObj (match enc headerC h with JObj l => l | _ => [] end)).
  unfold len. set (l := match enc headerC h with JObj l => l | _ => [] end).
  assert (Forall (fun p => (length (fst p) <= 16)%nat /\ (length (print (snd p)) <= 400)%nat) l) as Hf.
  { unfold l. cbn [enc headerC structC]. repeat (apply Forall_cons; split); [..|by apply Forall_nil]; cbn [fst snd];
      (split; [apply str_length; cbn; lia|]);
      lazymatch goal with
      | |- context [hashC] => apply hash_length
      | |- context [addressC] => apply address_length
      | _ => etransitivity; [apply itoa_length; lia|lia]
      end. }
  pose proof (print_obj_length l 400 Hf) as Hp. change (length l) with 11%nat in Hp. lia.
Qed.

(** An answer with [hs] and no blocks. *)
Lemma headers_length (hs : list Header) :
  Forall wf_header hs -> len (print (enc (listC (ptrC headerC)) (map Some hs))) <= 6001 * len hs + 4.
Proof.
  intros Hw. destruct hs as [|h hs]; [by vm_compute|]. set (l := h :: hs) in *.
  change (enc (listC (ptrC headerC)) (map Some l)) with (JArr (map (enc (ptrC headerC)) (map Some l))).
  assert (Forall (fun j => (length (print j) <= Z.to_nat 6000)%nat) (map (enc (ptrC headerC)) (map Some l))) as Hf.
  { apply Forall_map, Forall_map. eapply Forall_impl; [exact Hw|]. intros x Hx. pose proof (header_length x Hx) as Hl. unfold len in Hl.
    cbn [enc ptrC]. lia. }
  pose proof (print_arr_length _ _ Hf) as Hp. rewrite !length_map in Hp. unfold len. lia.
Qed.
