(* ===== verification/SchemaProofs.v ===== *)
(** * What the schema writes reads back

    The tables do not overlap; each writer is the list of operations it
    queues; the account table after a block's changes, or after its reverse
    diff, holds the state after the block, or before it; and [loadState]
    rebuilds the state from the table. *)
From stdpp Require Import base numbers list gmap sorting.
From Stdlib Require Import ZArith Lia Strings.Byte.
From S2P Require Import Prelude Common Types Vm State StateProofs StateInv StateRoot Json JsonCodec Store Schema.
#[local] Open Scope Z_scope.
#[local] Open Scope list_scope.
#[local] Open Scope go_scope.

(** ** Documents *)

Lemma decode_encode {A} (c : codec A) P v : codec_ok c P -> P v -> decodeJSON c (encodeJSON c v) = Ok v.
Proof.
  intros Hc Hv. destruct (Hc v Hv) as [Hw Hd]. unfold decodeJSON, encodeJSON. rewrite parse_print by done. cbn. by rewrite Hd.
Qed.

Lemma locationC_ok : codec_ok locationC (fun l => 0 <= BlockHeight l < 2 ^ 64 /\ 0 <= Index l < 2 ^ 64).
Proof.
  apply structC_ok. intros l [Hh Hi]. split; [members|].
  dec_field hashC_ok I. dec_field (uintC_ok 64) Hh. dec_field (uintC_ok 64) Hi. by destruct l.
Qed.

Lemma entryC_ok : codec_ok entryC (fun e => 0 <= de_Nonce e < 2 ^ 64).
Proof.
  apply structC_ok. intros [a x n b st c] Hn. cbn [de_Address de_Existed de_Nonce de_Balance de_Storage de_Code] in *.
  unfold omitempty. split.
  - destruct (bool_decide (st = ∅)), (len c =? 0); cbn [app]; members.
  - case_bool_decide as Es; [subst st|]; (destruct (Z.eqb_spec (len c) 0) as [Ec|Ec]; [apply len_zero_inv in Ec as ->|]); cbn [app];
      dec_field addressC_ok I; dec_field boolC_ok I; dec_field (uintC_ok 64) Hn; dec_field bigC_ok I.
    + do 2 (apply bind_absent; [done|]). done.
    + apply bind_absent; [done|]. by dec_field bytesC_ok I.
    + dec_field storageC_ok I. by apply bind_absent.
    + dec_field storageC_ok I. by dec_field bytesC_ok I.
Qed.

Lemma entriesC_ok : codec_ok (listC entryC) (Forall (fun e => 0 <= de_Nonce e < 2 ^ 64)).
Proof. apply listC_ok, entryC_ok. Qed.

Lemma diffC_ok : codec_ok diffC (fun d => Forall (fun e => 0 <= de_Nonce e < 2 ^ 64) (Entries d)).
Proof.
  apply structC_ok. intros [es b] Hes. cbn [Entries BurnDelta] in *. unfold omitempty. split.
  - case_bool_decide; cbn [app]; repeat (apply Forall_cons; split); try (by apply Forall_nil);
      first [by apply entriesC_ok|by apply bigC_ok].
  - case_bool_decide as Eb; [subst b|]; cbn [app]; dec_field entriesC_ok Hes.
    + by apply bind_absent.
    + by dec_field bigC_ok I.
Qed.

(** ** Keys *)

Ltac unfold_keys := unfold canonicalKey, blockKey, receiptsKey, txIndexKey, accountKey, revDiffKey, tdKey, keyHead, keyGenesis,
  keySchema, keyChainID, keyBurned, prefixBlock, prefixCanonical, prefixReceipts, prefixTxIndex, prefixAccount, prefixRevDiff, prefixTD in *.

(** Keys of different tables differ. *)
Ltac key_ne := let E := fresh in intros E; unfold_keys; discriminate E.

Lemma blockKey_inj h h' : blockKey h = blockKey h' -> h = h'.
Proof. intros E. injection E as E. by apply array_eq. Qed.
Lemma tdKey_inj h h' : tdKey h = tdKey h' -> h = h'.
Proof. intros E. injection E as E. by apply array_eq. Qed.
Lemma revDiffKey_inj h h' : revDiffKey h = revDiffKey h' -> h = h'.
Proof. intros E. injection E as E. by apply array_eq. Qed.
Lemma receiptsKey_inj h h' : receiptsKey h = receiptsKey h' -> h = h'.
Proof. intros E. injection E as E. by apply array_eq. Qed.
Lemma txIndexKey_inj h h' : txIndexKey h = txIndexKey h' -> h = h'.
Proof. intros E. injection E as E. by apply array_eq. Qed.
Lemma accountKey_inj a b : accountKey a = accountKey b -> a = b.
Proof. intros E. injection E as E. by apply array_eq. Qed.
Lemma canonicalKey_inj n m : is_u64 n -> is_u64 m -> canonicalKey n = canonicalKey m -> n = m.
Proof. intros Hn Hm E%(f_equal tail). eapply (be_fixed_inj 8); [..|exact E]; done. Qed.

(** A key of the account or the block table has its shape. *)
Definition goodKey (k : list byte) : Prop :=
  (forall r, k = prefixAccount :: r -> exists a, k = accountKey a) /\ (forall r, k = prefixBlock :: r -> exists h, k = blockKey h).

Create HintDb keys.

Lemma good_other b r : b <> prefixAccount -> b <> prefixBlock -> goodKey (b :: r).
Proof. intros Ha Hb. split; intros r' E; injection E as E _; congruence. Qed.

Lemma good_account a : goodKey (accountKey a).
Proof. split; [eauto|]. intros r E. unfold_keys. discriminate E. Qed.

Lemma good_block h : goodKey (blockKey h).
Proof. split; [|eauto]. intros r E. unfold_keys. discriminate E. Qed.

Lemma good_receipts h : goodKey (receiptsKey h). Proof. by apply good_other. Qed.
Lemma good_tx h : goodKey (txIndexKey h). Proof. by apply good_other. Qed.
Lemma good_diff h : goodKey (revDiffKey h). Proof. by apply good_other. Qed.
Lemma good_td h : goodKey (tdKey h). Proof. by apply good_other. Qed.
Lemma good_canonical n : goodKey (canonicalKey n). Proof. by apply good_other. Qed.
Lemma good_single k : k = keyHead \/ k = keyGenesis \/ k = keySchema \/ k = keyChainID \/ k = keyBurned -> goodKey k.
Proof. intros [->|[->|[->|[->| ->]]]]; by apply good_other. Qed.

#[export] Hint Resolve good_account good_block good_receipts good_tx good_diff good_td good_canonical good_single : keys.

(** ** Batches *)

Definition applyBatch (b : Batch) (m : gmap (list byte) (list byte)) : gmap (list byte) (list byte) := fold_left applyOp b m.

Lemma applyBatch_app b b' m : applyBatch (b ++ b') m = applyBatch b' (applyBatch b m).
Proof. apply fold_left_app. Qed.

Lemma applyBatch_other b m k : Forall (fun o => op_key o <> k) b -> applyBatch b m !! k = m !! k.
Proof. apply applyOps_other. Qed.

(** The keys of a table written once each, or with one value each. *)
Lemma applyBatch_table {A} `{EqDecision A} (key : A -> list byte) (f : A -> memOp) (l : list A) m a :
  (forall a b, key a = key b -> a = b) -> (forall a, op_key (f a) = key a) ->
  applyBatch (map f l) m !! key a = if decide (a ∈ l) then op_value (f a) else m !! key a.
Proof.
  intros Hinj Hf. revert m. induction l as [|x l IH]; intros m; cbn [map applyBatch fold_left]; [done|].
  change (applyBatch (map f l) (applyOp m (f x)) !! key a = if decide (a ∈ x :: l) then op_value (f a) else m !! key a).
  rewrite IH, applyOp_lookup, Hf. destruct (decide (a ∈ l)); [by rewrite decide_True by set_solver|].
  destruct (decide (key x = key a)) as [E|E].
  - apply Hinj in E as ->. by rewrite decide_True by set_solver.
  - rewrite decide_False; [done|]. set_unfold. intros [->|]; done.
Qed.

Section Writers.
Context `{Crypto}.

Definition blockOps (blk : Block) (rs : list Receipt) : Batch :=
  [mkOp (blockKey (Block_Hash blk)) (Some (encodeJSON rawBlockC (toRaw blk)));
   mkOp (receiptsKey (Block_Hash blk)) (Some (encodeJSON (listC receiptC) rs))].

Lemma writeBlock_ops b blk rs : writeBlock b blk rs = b ++ blockOps blk rs.
Proof. unfold writeBlock, Batch_Put, blockOps. by rewrite <- app_assoc. Qed.

Definition accountOp (next : State) (a : Address) : memOp :=
  mkOp (accountKey a) (if Exists next a then Some (encodeJSON accountC (toStored (State_Get next a))) else None).

Definition diffOf (next prev : State) (l : list Address) : storedDiff :=
  mkDiff (map (diffEntry prev) l) (Some (Burned next - Burned prev)).

Definition changeOps (blk : Block) (next prev : State) (l : list Address) : Batch :=
  map (accountOp next) l ++ [mkOp (revDiffKey (Block_Hash blk)) (Some (encodeJSON diffC (diffOf next prev l)))].

Lemma writeAccountChanges_ops b blk next prev l : writeAccountChanges b blk next prev l = b ++ changeOps blk next prev l.
Proof.
  unfold writeAccountChanges, changeOps. unfold Batch_Put at 1. rewrite app_assoc. f_equal.
  revert b. induction l as [|a l IH]; intros b; cbn [fold_left map]; [by rewrite app_nil_r|]. rewrite IH.
  change (accountOp next a :: map (accountOp next) l) with ([accountOp next a] ++ map (accountOp next) l). rewrite app_assoc.
  f_equal. unfold putAccount, accountOp. by destruct (Exists next a).
Qed.

Definition indexOps (blk : Block) : Batch :=
  map (fun p => mkOp (txIndexKey (tx_Hash (snd p))) (Some (encodeJSON locationC (locationOf blk (fst p))))) (imap pair (b_Txs blk)).

Lemma fold_puts {A} (f : A -> memOp) l (b : Batch) : fold_left (fun b x => b ++ [f x]) l b = b ++ map f l.
Proof.
  revert b. induction l as [|x l IH]; intros b; cbn; [by rewrite app_nil_r|]. by rewrite IH, <- app_assoc.
Qed.

Lemma indexTxs_ops b blk : indexTxs b blk = b ++ indexOps blk.
Proof. apply fold_puts. Qed.

Definition undoOp (e : storedDiffEntry) : memOp :=
  mkOp (accountKey (de_Address e))
    (if de_Existed e then Some (encodeJSON accountC (mkStored (de_Nonce e) (de_Balance e) (de_Storage e) (de_Code e))) else None).

Lemma undoEntries_ops b es : fold_left undoEntry es b = b ++ map undoOp es.
Proof.
  revert b. induction es as [|e es IH]; intros b; cbn [fold_left map]; [by rewrite app_nil_r|]. rewrite IH.
  change (undoOp e :: map undoOp es) with ([undoOp e] ++ map undoOp es). rewrite app_assoc.
  f_equal. unfold undoEntry, undoOp. by destruct (de_Existed e).
Qed.

(** ** The account table *)

(** The table holds the accounts [m]; a genesis account of balance zero leaves an empty record. *)
Definition table (C : gmap (list byte) (list byte)) (m : gmap Address Account) : Prop :=
  forall a, match m !! a with
            | Some acc => C !! accountKey a = Some (encodeJSON accountC (toStored acc))
            | None => C !! accountKey a = None \/ C !! accountKey a = Some (encodeJSON accountC (toStored emptyAccount))
            end.

Lemma Exists_get s a : Exists s a = true -> accounts s !! a = Some (State_Get s a).
Proof. unfold Exists, State_Get. intros [acc E]%bool_decide_eq_true. by rewrite E. Qed.

Lemma not_Exists s a : Exists s a = false -> accounts s !! a = None.
Proof. unfold Exists. intros E%bool_decide_eq_false. by apply eq_None_not_Some. Qed.

(** A block's changes take the table from the state before it to the state after it. *)
Lemma table_forward C prev next l :
  table C (accounts prev) -> (forall a, a ∉ l -> accounts next !! a = accounts prev !! a) ->
  table (applyBatch (map (accountOp next) l) C) (accounts next).
Proof.
  intros Ht Hl a. rewrite (applyBatch_table accountKey (accountOp next)) by (apply accountKey_inj || done).
  destruct (decide (a ∈ l)) as [Ha|Ha]; [|rewrite Hl by done; apply Ht].
  cbn [op_value accountOp]. destruct (Exists next a) eqn:E; [by rewrite (Exists_get _ _ E)|].
  rewrite (not_Exists _ _ E). by left.
Qed.

(** Its reverse diff takes it back. *)
Lemma table_backward C prev next l :
  table C (accounts next) -> (forall a, a ∉ l -> accounts next !! a = accounts prev !! a) ->
  table (applyBatch (map undoOp (map (diffEntry prev) l)) C) (accounts prev).
Proof.
  intros Ht Hl a. rewrite map_map.
  rewrite (applyBatch_table accountKey (fun a => undoOp (diffEntry prev a))).
  2: apply accountKey_inj.
  2: { intros b. unfold diffEntry. by destruct (Exists prev b). }
  destruct (decide (a ∈ l)) as [Ha|Ha]; [|rewrite <- Hl by done; apply Ht].
  unfold diffEntry. destruct (Exists prev a) eqn:E; cbn [op_value undoOp de_Existed].
  - by rewrite (Exists_get _ _ E).
  - rewrite (not_Exists _ _ E). by left.
Qed.

Lemma table_other C C' m : (forall a, C' !! accountKey a = C !! accountKey a) -> table C m -> table C' m.
Proof. intros HC Ht a. rewrite HC. apply Ht. Qed.

(** ** Reading the state back *)

Lemma toStored_ok acc : wf_account acc -> 0 <= sa_Nonce (toStored acc) < 2 ^ 64.
Proof. intros Hw. apply (wa_nonce acc Hw). Qed.

(** The account an entry of the table restores. *)
Lemma load_entry acc s a : wf_account acc \/ acc = emptyAccount ->
  decodeJSON accountC (encodeJSON accountC (toStored acc)) = Ok (toStored acc)
  /\ RestoreAccount s a (sa_Nonce (toStored acc)) (sa_Balance (toStored acc)) (sa_Storage (toStored acc)) (sa_Code (toStored acc))
     = State_set s a acc.
Proof.
  intros Hw. assert (wf_account acc) as Hw' by (destruct Hw as [| ->]; [done|apply wf_emptyAccount]).
  split; [by apply (decode_encode accountC _ _ accountC_ok), toStored_ok|]. by destruct acc.
Qed.

(** What the records of the keys [ks] restore over [s]. *)
Lemma loadAccounts_ok C m (ks : list Address) s :
  table C m -> (forall a acc, m !! a = Some acc -> wf_account acc /\ isEmpty acc = false) ->
  NoDup ks -> (forall a, a ∈ ks -> is_Some (C !! accountKey a)) ->
  exists s', loadAccounts (map (fun a => (accountKey a, default [] (C !! accountKey a))) ks) s = Ok s'
    /\ burned s' = burned s /\ snapshots s' = snapshots s
    /\ forall a, accounts s' !! a = if decide (a ∈ ks) then m !! a else accounts s !! a.
Proof.
  intros Ht Hm Hnd. revert s. induction Hnd as [|x ks Hx Hnd IH]; intros s HC; cbn [map loadAccounts].
  { exists s. split_and!; try done. }
  assert (exists acc, (wf_account acc \/ acc = emptyAccount)
    /\ C !! accountKey x = Some (encodeJSON accountC (toStored acc))
    /\ m !! x = (if isEmpty acc then None else Some acc)) as (acc & Hacc & EC & Em).
  { specialize (Ht x). destruct (m !! x) as [acc|] eqn:E.
    - destruct (Hm x acc E) as [Hw He]. exists acc. rewrite He. auto.
    - destruct (HC x ltac:(set_solver)) as [v Ev]. destruct Ht as [Ht|Ht]; [congruence|]. exists emptyAccount. auto. }
  rewrite EC. cbn [default from_option id].
  assert (len (accountKey x) = 1 + Z.of_nat AddressLength) as -> by (unfold accountKey; rewrite len_cons, len_abytes; done).
  rewrite Z.eqb_refl. cbn [negb]. destruct (load_entry acc s x Hacc) as [-> Hr]. cbn [res_bind].
  change (tail (accountKey x)) with (abytes x). rewrite array_of_abytes, Hr.
  destruct (IH (State_set s x acc)) as (s' & -> & Hb & Hs & Ha); [intros; apply HC; set_solver|].
  destruct (set_fields s x acc) as (F1 & _ & _ & F4 & _ & F6 & _).
  exists s'. split_and!; [done|congruence|congruence|]. intros a. rewrite Ha, F6.
  destruct (decide (a ∈ ks)); [by rewrite decide_True by set_solver|].
  destruct (decide (a = x)) as [->|Hne].
  - rewrite (decide_True (P := x ∈ x :: ks)) by set_solver. rewrite Em.
    destruct (isEmpty acc); [apply lookup_delete_eq|apply lookup_insert_eq].
  - rewrite (decide_False (P := a ∈ x :: ks)) by set_solver.
    destruct (isEmpty acc); [by rewrite lookup_delete_ne|by rewrite lookup_insert_ne].
Qed.

(** The keys of a scan. *)
Lemma scan_keys C p : exists ks, scan C p = map (fun k => (k, default [] (C !! k))) ks /\ NoDup ks
  /\ forall k, k ∈ ks <-> is_Some (C !! k) /\ hasPrefix k p = true.
Proof.
  eexists. split; [done|]. split.
  - rewrite merge_sort_Permutation. apply NoDup_filter, NoDup_fst_map_to_list.
  - intros k. rewrite merge_sort_Permutation, list_elem_of_filter, list_elem_of_fmap. split.
    + intros [Hp ((k' & v) & -> & Hk%elem_of_map_to_list)]. split; [by exists v|done].
    + intros [[v Hv] Hp]. split; [done|]. exists (k, v). split; [done|]. by apply elem_of_map_to_list.
Qed.

(** A table of arrays behind one prefix byte. *)
Lemma keys_arrays {n} (b : byte) (ks : list (list byte)) :
  NoDup ks -> (forall k, k ∈ ks -> exists a : array n, k = b :: abytes a) ->
  exists l : list (array n), ks = map (fun a => b :: abytes a) l /\ NoDup l.
Proof.
  induction 1 as [|k ks Hk Hnd IH]; intros Hs; [by exists []; split; [|apply NoDup_nil]|].
  destruct IH as (l & -> & Hl); [intros; apply Hs; set_solver|]. destruct (Hs k) as [a ->]; [set_solver|].
  exists (a :: l). split; [done|]. apply NoDup_cons. split; [|done]. intros Ha. apply Hk.
  apply list_elem_of_fmap. eauto.
Qed.

Context {D : Type} `{KVLaws D}.

Lemma loadState_ok d m :
  table (contents d) m -> (forall k, is_Some (contents d !! k) -> goodKey k) ->
  (forall a acc, m !! a = Some acc -> wf_account acc /\ isEmpty acc = false) ->
  exists s, loadState d = Ok s /\ accounts s = m /\ touched s = ∅ /\ burned s = Some 0 /\ snapshots s = [].
Proof.
  intros Ht Hk Hm. unfold loadState. rewrite Iterate_law.
  destruct (scan_keys (contents d) [prefixAccount]) as (ks & -> & Hnd & Hks).
  destruct (keys_arrays (n := AddressLength) prefixAccount ks Hnd) as (l & -> & Hl).
  { intros k [Hs Hp]%Hks. unfold hasPrefix in Hp. apply bool_decide_eq_true in Hp. destruct k as [|b k]; [done|].
    cbn in Hp. injection Hp as ->. destruct (proj1 (Hk _ Hs) k eq_refl) as [a Ea]. by exists a. }
  rewrite map_map. change (fun x : Address => (prefixAccount :: abytes x, default [] (contents d !! (prefixAccount :: abytes x))))
    with (fun a : Address => (accountKey a, default [] (contents d !! accountKey a))).
  assert (forall a : Address, a ∈ l <-> is_Some (contents d !! accountKey a)) as Hin.
  { intros a. rewrite <- (and_True (is_Some _)). transitivity (accountKey a ∈ map (fun a : Address => prefixAccount :: abytes a) l).
    - rewrite list_elem_of_fmap. split; [intros Ha; by exists a|]. intros (b & E & Hb).
      change (accountKey a = accountKey b) in E. by apply accountKey_inj in E as ->.
    - rewrite Hks. split; intros [Ha _]; done. }
  destruct (loadAccounts_ok (contents d) m l State_New Ht Hm Hl) as (s & Es & Eb & Esn & Ha); [intros; by apply Hin|].
  setoid_rewrite Es. cbn [res_bind]. exists (ClearTouched s). split_and!; try done.
  apply map_eq. intros a. cbn [accounts ClearTouched]. rewrite Ha. case_decide as Hn; [done|].
  cbn. rewrite lookup_empty. specialize (Ht a). destruct (m !! a) as [acc|]; [|done].
  destruct Hn. apply Hin. rewrite Ht. eauto.
Qed.

End Writers.
