(* ===== verification/Wire.v ===== *)
(** * What the services write and read (math/big, encoding/json, net/http)

    Numbers in base ten and sixteen, strings, raw values and string maps in
    JSON, and the answers of an HTTP handler: the parts of the standard
    library that the mining pool and the RPC servers are written with. *)
From stdpp Require Import base numbers list gmap sorting.
From Stdlib Require Import ZArith Lia Strings.Byte.
From Stdlib Require HexadecimalFacts HexadecimalN.
From S2P Require Import Prelude Common Types Json JsonCodec Store Schema SchemaProofs.
#[local] Open Scope Z_scope.
#[local] Open Scope list_scope.

(** ** Numbers as text *)

Fixpoint hex_bytes (u : Hexadecimal.uint) : list byte :=
  match u with
  | Hexadecimal.Nil => []
  | Hexadecimal.D0 u => x30 :: hex_bytes u
  | Hexadecimal.D1 u => x31 :: hex_bytes u
  | Hexadecimal.D2 u => x32 :: hex_bytes u
  | Hexadecimal.D3 u => x33 :: hex_bytes u
  | Hexadecimal.D4 u => x34 :: hex_bytes u
  | Hexadecimal.D5 u => x35 :: hex_bytes u
  | Hexadecimal.D6 u => x36 :: hex_bytes u
  | Hexadecimal.D7 u => x37 :: hex_bytes u
  | Hexadecimal.D8 u => x38 :: hex_bytes u
  | Hexadecimal.D9 u => x39 :: hex_bytes u
  | Hexadecimal.Da u => x61 :: hex_bytes u
  | Hexadecimal.Db u => x62 :: hex_bytes u
  | Hexadecimal.Dc u => x63 :: hex_bytes u
  | Hexadecimal.Dd u => x64 :: hex_bytes u
  | Hexadecimal.De u => x65 :: hex_bytes u
  | Hexadecimal.Df u => x66 :: hex_bytes u
  end.

Definition consHex (b : byte) (u : Hexadecimal.uint) : option Hexadecimal.uint :=
  match b with
  | x30 => Some (Hexadecimal.D0 u)
  | x31 => Some (Hexadecimal.D1 u)
  | x32 => Some (Hexadecimal.D2 u)
  | x33 => Some (Hexadecimal.D3 u)
  | x34 => Some (Hexadecimal.D4 u)
  | x35 => Some (Hexadecimal.D5 u)
  | x36 => Some (Hexadecimal.D6 u)
  | x37 => Some (Hexadecimal.D7 u)
  | x38 => Some (Hexadecimal.D8 u)
  | x39 => Some (Hexadecimal.D9 u)
  | x61 | x41 => Some (Hexadecimal.Da u)
  | x62 | x42 => Some (Hexadecimal.Db u)
  | x63 | x43 => Some (Hexadecimal.Dc u)
  | x64 | x44 => Some (Hexadecimal.Dd u)
  | x65 | x45 => Some (Hexadecimal.De u)
  | x66 | x46 => Some (Hexadecimal.Df u)
  | _ => None
  end.

Fixpoint bytes_hex (l : list byte) : option Hexadecimal.uint :=
  match l with
  | [] => Some Hexadecimal.Nil
  | b :: r => bytes_hex r ≫= consHex b
  end.

(** [big.Int.Text(16)] of a natural number, and [strconv.FormatUint(v, 16)]. *)
Definition text16 (z : Z) : list byte := hex_bytes (N.to_hex_uint (Z.to_N z)).

Definition readHex (l : list byte) : option Z :=
  match l with
  | [] => None
  | _ => (fun u => Z.of_N (N.of_hex_uint u)) <$> bytes_hex l
  end.

(** The sign that [big.Int.SetString] takes off. *)
Definition signed (read : list byte -> option Z) (l : list byte) : option Z :=
  match expect x2d l with
  | Some r => Z.opp <$> read r
  | None => read (default l (expect x2b l))
  end.

(** [new(big.Int).SetString(s, 10)] and [SetString(s, 16)] *)
Definition setString10 (l : list byte) : option Z := signed readDigits l.

Definition setString16 (l : list byte) : option Z := signed readHex l.

(** ** JSON *)

Definition stringC : codec (list byte) := mkCodec (list byte) [] JStr
  (fun j cur => match j with JStr s => Some s | JNull => Some cur | _ => None end).

(** A [json.RawMessage] holds the value that was read; nil, it is written as null. *)
Definition rawC : codec (option json) := mkCodec (option json) None
  (fun o => default JNull o) (fun j _ => Some (Some j)).

(** [json.Unmarshal] of a raw message into a fresh value; nothing is not JSON. *)
Definition unmarshalRaw {A} (c : codec A) (o : option json) : option A := o ≫= fun j => dec c j (zero c).

(** The keys of a string map in order. *)
Definition keysInOrder {V} (m : gmap (list byte) V) : list (list byte) := merge_sort bytes_le (map_to_list m).*1.

(** [map[string]string] *)
Definition stringMapC : codec (gmap (list byte) (list byte)) := mkCodec _ ∅
  (fun m => JObj (map (fun k => (k, JStr (default [] (m !! k)))) (keysInOrder m)))
  (fun j cur => match j with
                | JObj ms => fold_left (fun acc p =>
                    match acc, dec stringC (snd p) [] with
                    | Some m, Some v => Some (<[fst p := v]> m)
                    | _, _ => None
                    end) ms (Some cur)
                | JNull => Some ∅
                | _ => None
                end).

(** [json.NewDecoder(r).Decode]: the first value of the stream. *)
Definition decodeStream {A} (c : codec A) (data : list byte) : option A :=
  match parseValue (S (2 * length data)) data with
  | Some (j, _) => dec c j (zero c)
  | None => None
  end.

(** [json.MarshalIndent(v, "", " ")] *)
Definition encodeIndent {A} (c : codec A) (v : A) : list byte := printIndent [x20] (enc c v).

(** ** HTTP *)

Inductive method : Type := GET | POST | OPTIONS | OtherMethod.

#[global] Instance method_eq_dec : EqDecision method.
Proof. solve_decision. Defined.

Record response : Type := mkResponse { status : Z; body : list byte }.

(** [http.Error] *)
Definition httpError (msg : list byte) (code : Z) : response := mkResponse code (msg ++ [x0a]).

(** [json.NewEncoder(w).Encode]: a newline after the value. *)
Definition httpJSON (j : json) : response := mkResponse 200 (print j ++ [x0a]).

(** ** Round trips *)

Lemma bytes_hex_bytes u : bytes_hex (hex_bytes u) = Some u.
Proof. induction u as [|u IH|u IH|u IH|u IH|u IH|u IH|u IH|u IH|u IH|u IH|u IH|u IH|u IH|u IH|u IH|u IH]; cbn; rewrite ?IH; done. Qed.

Lemma to_hex_uint_cons n : exists b r, hex_bytes (N.to_hex_uint n) = b :: r /\ b <> x2b /\ b <> x2d.
Proof.
  destruct (hex_bytes (N.to_hex_uint n)) as [|b r] eqn:E.
  - assert (N.to_hex_uint n = Hexadecimal.Nil) as E' by (by destruct (N.to_hex_uint n)).
    pose proof (HexadecimalN.Unsigned.to_of (N.to_hex_uint n)) as Eu. rewrite HexadecimalN.Unsigned.of_to, E' in Eu. done.
  - exists b, r. split; [done|]. destruct (N.to_hex_uint n); cbn in E; by simplify_eq.
Qed.

Lemma setString16_text16 z : 0 <= z -> setString16 (text16 z) = Some z.
Proof.
  intros Hz. unfold setString16, signed, text16. destruct (to_hex_uint_cons (Z.to_N z)) as (b & r & E & Hp & Hm).
  rewrite E. cbn [expect]. destruct (Byte.eqb b x2d) eqn:E1; [by apply Byte.byte_dec_bl in E1|].
  destruct (Byte.eqb b x2b) eqn:E2; [by apply Byte.byte_dec_bl in E2|]. cbn [default from_option id readHex].
  rewrite <- E, bytes_hex_bytes. cbn [fmap option_fmap option_map]. rewrite HexadecimalN.Unsigned.of_to. f_equal. lia.
Qed.

Lemma hex_bytes_length u : length (hex_bytes u) = Hexadecimal.nb_digits u.
Proof. induction u; cbn; congruence. Qed.

Lemma hex_double u : (Hexadecimal.nb_digits (Hexadecimal.Little.double u) <= S (Hexadecimal.nb_digits u)
  /\ Hexadecimal.nb_digits (Hexadecimal.Little.succ_double u) <= S (Hexadecimal.nb_digits u))%nat.
Proof. induction u; cbn; lia. Qed.

(** No more digits than bits. *)
Lemma text16_length z : 0 <= z < 2 ^ 256 -> (length (text16 z) <= 257)%nat.
Proof.
  intros Hz. unfold text16. rewrite hex_bytes_length. destruct (Z.to_N z) as [|p] eqn:E; [cbn; lia|]. cbn. unfold Pos.to_hex_uint.
  rewrite HexadecimalFacts.nb_digits_rev. transitivity (Pos.size_nat p).
  - clear. induction p as [p IH|p IH|]; cbn; [|..|lia]; pose proof (hex_double (Pos.to_little_hex_uint p)); lia.
  - change 257%nat with (Pos.size_nat (2 ^ 256)). apply Pos.size_nat_monotone. lia.
Qed.

Lemma setString10_itoa z : setString10 (itoa z) = Some z.
Proof.
  pose proof (atoi_itoa z) as E. unfold atoi in E. unfold setString10, signed.
  destruct (expect x2d (itoa z)) eqn:Em; [done|]. unfold itoa in *. destruct (z <? 0).
  - by rewrite expect_eq in Em.
  - by rewrite expect_digit.
Qed.

Lemma elem_of_keysInOrder {V} (m : gmap (list byte) V) k : k ∈ keysInOrder m <-> is_Some (m !! k).
Proof.
  unfold keysInOrder. rewrite (merge_sort_Permutation bytes_le). rewrite list_elem_of_fmap. split.
  - intros ([k' v] & -> & Hin). apply elem_of_map_to_list in Hin. by exists v.
  - intros [v E]. exists (k, v). split; [done|]. by apply elem_of_map_to_list.
Qed.

Lemma decode_strings (m : gmap (list byte) (list byte)) ks : forall acc : gmap (list byte) (list byte), exists m',
  fold_left (fun acc p => match acc, dec stringC (snd p) [] with Some m, Some v => Some (<[fst p := v]> m) | _, _ => None end)
    (map (fun k => (k, JStr (default [] (m !! k)))) ks) (Some acc) = Some m'
  /\ forall k, m' !! k = if decide (k ∈ ks) then Some (default [] (m !! k)) else acc !! k.
Proof.
  induction ks as [|k ks IH]; intros acc.
  - exists acc. split; [done|]. intros k. by rewrite decide_False by apply not_elem_of_nil.
  - cbn [map fold_left fst snd]. change (dec stringC (JStr ?x) []) with (Some x). cbv iota. destruct (IH (<[k := default [] (m !! k)]> acc)) as (m' & -> & Hm'). exists m'. split; [done|].
    intros k'. rewrite Hm'. destruct (decide (k' ∈ ks)) as [Hin|Hin]; [by rewrite decide_True by (by right)|].
    destruct (decide (k' = k)) as [->|Hne].
    + by rewrite lookup_insert_eq, decide_True by (by left).
    + rewrite lookup_insert_ne, decide_False by set_solver. done.
Qed.

Lemma rawC_ok : codec_ok rawC (fun o => exists j, o = Some j /\ jwf j).
Proof. by intros o (j & -> & Hj). Qed.

Lemma stringC_ok : codec_ok stringC (fun _ => True).
Proof. done. Qed.

Lemma stringMapC_ok : codec_ok stringMapC (fun _ => True).
Proof.
  intros m _. split.
  - apply jwf_obj. rewrite Forall_map. by apply Forall_forall.
  - unfold stringMapC. cbn [dec enc zero]. destruct (decode_strings m (keysInOrder m) ∅) as (m' & -> & Hm').
    f_equal. apply map_eq. intros k. rewrite Hm'. pose proof (elem_of_keysInOrder m k) as Hk.
    destruct (m !! k) as [v|]; case_decide as Hin; try done.
    + destruct Hin. by apply Hk.
    + apply Hk in Hin. by destruct Hin.
Qed.

#[export] Hint Resolve stringC_ok stringMapC_ok rawC_ok : json.

Lemma decodeStream_encode {A} (c : codec A) P v rest : codec_ok c P -> P v -> decodeStream c (encodeJSON c v ++ x0a :: rest) = Some v.
Proof.
  intros Hc Hv. destruct (Hc v Hv) as [Hw Hd]. unfold decodeStream, encodeJSON. rewrite (print_printWith _ 0).
  rewrite printWith_reads; [by rewrite Hd|constructor|constructor|done| |done]. rewrite length_app. lia.
Qed.

Lemma decodeStream_all {A} (c : codec A) P v : codec_ok c P -> P v -> decodeStream c (encodeJSON c v) = Some v.
Proof.
  intros Hc Hv. destruct (Hc v Hv) as [Hw Hd]. unfold decodeStream, encodeJSON. rewrite (print_printWith _ 0).
  rewrite <- (app_nil_r (printWith _ _ _ _)) at 2. rewrite printWith_reads; [by rewrite Hd|constructor|constructor|done|lia|done].
Qed.

Lemma decode_encodeIndent {A} (c : codec A) P v : codec_ok c P -> P v -> decodeJSON c (encodeIndent c v) = Ok v.
Proof.
  intros Hc Hv. destruct (Hc v Hv) as [Hw Hd]. unfold decodeJSON, encodeIndent.
  rewrite parse_printIndent; [cbn; by rewrite Hd|by repeat constructor|done].
Qed.
