(* ===== verification/Producer.v ===== *)
(** * The block producer (core/producer.go)

    [BuildUnsealed] picks transactions by trying each on a copy of the state;
    [Build] seals the block by mining.  What the chain and the pool answer
    (the required difficulty, the pending transactions) and the clock are
    arguments.  The theorem: a validator accepts what the producer builds. *)
From stdpp Require Import base numbers list gmap sorting.
From Stdlib Require Import ZArith Lia Strings.Byte.
From S2P Require Import Prelude Common Types VmBase Precompiles Vm VmProofs State StateProofs StateInv.
From S2P Require Import Transition TransitionProofs BlockProofs StateSim VmProps TxProps BlockProps Pow.
#[local] Open Scope Z_scope.
#[local] Open Scope list_scope.

Section Producer.
Context `{Crypto} `{Bn256}.

(** A panic becomes an error. *)
Definition applyTxSafe (s : State) (tx : Transaction) (coinbase : Address) (gasLimit : Z)
    : callres (error * State) (Z * Z * list Log * State) :=
  match ApplyTx s tx coinbase gasLimit with
  | Panics => Raises (ErrBlockPanic, s)
  | r => r
  end.

(** The loop of [BuildUnsealed]: the state, the gas used, the fees, the transactions and their receipts. *)
Fixpoint buildTxs (working : State) (txs : list Transaction) (coinbase : Address) (gasLimit gasUsed minerFees : Z)
    (included : list Transaction) (receipts : list Receipt)
    : callres error (State * Z * Z * list Transaction * list Receipt) :=
  match txs with
  | [] => Returns (working, gasUsed, minerFees, included, receipts)
  | tx :: rest =>
      let trial := State_Copy working in
      match applyTxSafe trial tx coinbase gasLimit with
      | Raises _ => buildTxs working rest coinbase gasLimit gasUsed minerFees included receipts
      | Returns (used, status, logs, trial) =>
          if gasLimit <? u64 (gasUsed + used) then Returns (working, gasUsed, minerFees, included, receipts)
          else
            let gasUsed := u64 (gasUsed + used) in
            match tx_GasPrice tx with
            | None => Panics
            | Some gasPrice =>
                let fee := used * gasPrice in
                let burn := fee * FeeBurnBasisPoints / 10000 in
                buildTxs trial rest coinbase gasLimit gasUsed (minerFees + (fee - burn)) (included ++ [tx])
                  (receipts ++ [mkReceipt status gasUsed used logs])
            end
      | Panics => Panics
      | OutOfFuel => OutOfFuel
      end
  end.

(** [head] and [headState] are what the chain holds, [now] the clock in milliseconds. *)
Definition BuildUnsealed (split : rewardSplit) (head : Header) (headState : State) (requiredDifficulty : Header -> Z)
    (pending : State -> Z -> list Transaction) (coinbase : Address) (now : Z) : callres error (Block * Z) :=
  let snapshot := State_Copy headState in
  let gasLimit := h_GasLimit head in
  let txs := pending snapshot gasLimit in
  let ts := if now <=? Timestamp head then i64 (Timestamp head + 1) else now in
  let height := u64 (Height head + 1) in
  let diff := requiredDifficulty head in
  let working := SetBlockContext (State_Copy snapshot) height (u64 ts / 1000) diff in
  match buildTxs working txs coinbase gasLimit 0 0 [] [] with
  | Returns (working, gasUsed, minerFees, included, receipts) =>
      let working := CreditBlockReward split working coinbase height in
      let header := mkHeader (Header_Hash head) height ts (TxRoot included) (ReceiptRoot receipts) (Root working)
                      gasUsed gasLimit coinbase diff 0 in
      Returns (mkBlock header included, minerFees)
  | Raises e => Raises e
  | Panics => Panics
  | OutOfFuel => OutOfFuel
  end.

(** Solo mining; [None] in place of a block when the search is aborted. *)
Definition Producer_Build (fuel : nat) (split : rewardSplit) (head : Header) (headState : State)
    (requiredDifficulty : Header -> Z) (pending : State -> Z -> list Transaction) (coinbase : Address) (now : Z)
    (stop : nat -> bool) : callres error (option Block) :=
  match BuildUnsealed split head headState requiredDifficulty pending coinbase now with
  | Returns (blk, _) =>
      match mine fuel (mkHeaderObj (b_Header blk) None) stop with
      | Some (true, o) => Returns (Some (mkBlock (ho_header o) (b_Txs blk)))
      | Some (false, _) => Returns None
      | None => OutOfFuel
      end
  | Raises e => Raises e
  | Panics => Panics
  | OutOfFuel => OutOfFuel
  end.

(** ** The loop of the producer is the loop of the validator *)

(** What the proposer earns from the fees of a block. *)
Fixpoint proposerFees (txs : list Transaction) (rs : list Receipt) : Z :=
  match txs, rs with
  | tx :: txs, r :: rs =>
      let fee := r_GasUsed r * default 0 (tx_GasPrice tx) in
      fee - fee * FeeBurnBasisPoints / 10000 + proposerFees txs rs
  | _, _ => 0
  end.

(** A state between two transactions. *)
Record idle (s : State) : Prop := {
  id_wf : wf_state s;
  id_snapshots : snapshots s = [];
  id_journal : journal s = [];
}.

Lemma applyTxs_receipts txs s h total rs rs0 :
  applyTxs s txs h total (rs0 ++ rs)
  = match applyTxs s txs h total rs with
    | Returns (s', total', rs') => Returns (s', total', rs0 ++ rs')
    | Raises e => Raises e | Panics => Panics | OutOfFuel => OutOfFuel
    end.
Proof.
  revert s total rs. induction txs as [|tx txs IH]; intros s total rs; cbn [applyTxs]; [done|].
  destruct (ApplyTx s tx _ _) as [[[[u st] l] s1]|[e s1]| |]; try done.
  destruct (_ <? _); [done|]. by rewrite <- app_assoc, IH.
Qed.

Lemma idle_Copy s : idle s -> idle (State_Copy s).
Proof. intros [Hw _ _]. split; [by apply (wf_content s)|done..]. Qed.

Lemma ApplyTx_idle s tx cb lim :
  idle s -> sound_tx tx -> 0 < lim <= maxGas ->
  match ApplyTx s tx cb lim with
  | Raises (e, s') => s' = s
  | Returns (used, status, lgs, s') =>
      idle s' /\ 0 <= used <= lim /\ exists gp, tx_GasPrice tx = Some gp
  | _ => False
  end.
Proof.
  intros [Hw Hs Hj] Htx Hlim.
  pose proof (ApplyTx_spec None s tx cb lim Hw Hs Htx Hlim (fun _ _ => protects_none _ _)) as HT.
  destruct (ApplyTx s tx cb lim) as [[[[u st] l] s1]|[e s1]| |]; try done.
  destruct HT as (_ & sender & gp & v & _ & HG & _ & _ & Hgl & _ & [Hw1 Hs1 Hj1 _ Hg _ _]).
  split_and!; [by split; auto| |lia|eauto].
  pose proof (sx_Data tx Htx). pose proof (len_nonneg (tx_Data tx)).
  destruct (IntrinsicGasFor_sum (tx_Data tx) (bool_decide (tx_To tx = None)) ltac:(lia)). lia.
Qed.

(** What the producer's loop adds is exactly what the validator's loop does on it. *)
Lemma buildTxs_spec txs working w cb lim gas fees inc rs h :
  Forall sound_tx txs -> idle working -> alike working w -> 0 < lim <= maxGas -> 0 <= gas <= lim ->
  Proposer h = cb -> h_GasLimit h = lim ->
  exists working' gas' new newRs w',
    buildTxs working txs cb lim gas fees inc rs
      = Returns (working', gas', fees + proposerFees new newRs, inc ++ new, rs ++ newRs)
    /\ applyTxs w new h gas [] = Returns (w', gas', newRs)
    /\ idle working' /\ alike working' w' /\ 0 <= gas' <= lim /\ new `sublist_of` txs.
Proof.
  intros Htx Hid Hal Hlim Hgas <- Hh. revert working w gas fees inc rs Hid Hal Hgas.
  assert (maxGas = 2 ^ 60) as HM by done.
  assert (forall working w gas fees inc rs l, idle working -> alike working w -> 0 <= gas <= lim -> exists working' gas' new newRs w',
    Returns (working, gas, fees, inc, rs) = Returns (E := error) (working', gas', fees + proposerFees new newRs, inc ++ new, rs ++ newRs)
    /\ applyTxs w new h gas [] = Returns (w', gas', newRs)
    /\ idle working' /\ alike working' w' /\ 0 <= gas' <= lim /\ new `sublist_of` l) as Hstop.
  { intros. exists working, gas, [], [], w. cbn [proposerFees applyTxs]. rewrite !app_nil_r, Z.add_0_r.
    split_and!; try done; try lia. apply sublist_nil_l. }
  induction Htx as [|tx txs Hwf _ IH]; intros working w gas fees inc rs Hid Hal Hgas; cbn [buildTxs]; [by apply Hstop|].
  assert (alike (State_Copy working) w) as Hal' by (rewrite (alike_Copy working); [done|apply Hid..]).
  pose proof (alike_ApplyTx _ _ tx (Proposer h) lim Hal') as HA.
  pose proof (ApplyTx_idle (State_Copy working) tx (Proposer h) lim (idle_Copy _ Hid) Hwf Hlim) as HI.
  unfold applyTxSafe. unfold alike_res in HA.
  destruct (ApplyTx (State_Copy working) tx (Proposer h) lim) as [[[[u st] l] s1]|[e s1]| |]; try done.
  - destruct HI as (Hid1 & Hu & gp & Hgp). rewrite u64_small by lia.
    destruct (Z.ltb_spec lim (gas + u)); [by apply Hstop|]. rewrite Hgp.
    destruct (ApplyTx w tx (Proposer h) lim) as [[[[u' st'] l'] w1]|[]| |] eqn:Ew; try done.
    destruct HA as [[= <- <- <-] Hal1].
    destruct (IH s1 w1 (gas + u) (fees + (u * gp - u * gp * FeeBurnBasisPoints / 10000)) (inc ++ [tx])
      (rs ++ [mkReceipt st (gas + u) u l]) Hid1 Hal1 ltac:(lia)) as (wk' & gas' & new & newRs & w' & -> & E2 & Hid' & Hal2 & Hg' & Hsub).
    exists wk', gas', (tx :: new), (mkReceipt st (gas + u) u l :: newRs), w'. split_and!; try done; try lia.
    + cbn [proposerFees r_GasUsed]. rewrite Hgp, <- !app_assoc. cbn [default from_option id app]. do 4 f_equal. lia.
    + cbn [applyTxs]. rewrite Hh, Ew, u64_small by lia. destruct (Z.ltb_spec lim (gas + u)); [lia|].
      by rewrite app_nil_l, <- (app_nil_r [mkReceipt _ _ _ _]), applyTxs_receipts, E2.
    + by apply sublist_skip.
  - subst s1. destruct (IH working w gas fees inc rs Hid Hal Hgas) as (wk' & gas' & new & newRs & w' & -> & E2 & Hid' & Hal2 & Hg' & Hsub).
    exists wk', gas', new, newRs, w'. split_and!; try done; try lia. by apply sublist_cons.
Qed.

(** The clock, moved past the parent's timestamp. *)
Definition blockTime (head : Header) (now : Z) : Z := if now <=? Timestamp head then i64 (Timestamp head + 1) else now.

Lemma blockTime_later head now :
  - 2 ^ 63 <= Timestamp head < 2 ^ 63 - 1 -> Timestamp head < blockTime head now.
Proof. intros Ht. unfold blockTime. destruct (Z.leb_spec now (Timestamp head)); [rewrite i64_small; lia|lia]. Qed.

(** The bounds of a parent on which a block can be built. *)
Record buildable (head : Header) : Prop := {
  bd_time : - 2 ^ 63 <= Timestamp head < 2 ^ 63 - 1;
  bd_gas : MinBlockGasLimit <= h_GasLimit head <= maxGas;
}.

Lemma checkParent_child head h :
  buildable head -> ParentHash h = Header_Hash head -> Height h = u64 (Height head + 1) ->
  Timestamp head < Timestamp h -> h_GasLimit h = h_GasLimit head -> checkParent h head = Ok tt.
Proof.
  intros [_ Hg] Hp Hh Ht Hl. unfold checkParent. rewrite Hp, Hh, Hl.
  destruct (array_eqb_spec (Header_Hash head) (Header_Hash head)); [|done]. rewrite Z.eqb_refl. cbn [negb].
  destruct (Z.leb_spec (Timestamp h) (Timestamp head)); [lia|].
  destruct (Z.ltb_spec (h_GasLimit head) (h_GasLimit head)); [lia|]. rewrite Z.sub_diag. change (u64 0) with 0.
  unfold MinBlockGasLimit, GasLimitBoundDivisor in *. destruct (Z.ltb_spec (h_GasLimit head) 1000000); [lia|]. cbn [orb].
  destruct (Z.leb_spec (h_GasLimit head / 1024) 0) as [Hd|]; [|done].
  pose proof (Z.div_le_mono 1000000 (h_GasLimit head) 1024 ltac:(lia) ltac:(lia)) as Hm.
  change (1000000 / 1024) with 976 in Hm. lia.
Qed.

(** A block that carries what the validator's loop computes is accepted. *)
Lemma ApplyBlock_accepts split st head h txs w rs working :
  let start := SetBlockContext (ClearTouched (State_Copy st)) (Height h) (u64 (Timestamp h) / 1000) (Difficulty h) in
  checkParent h head = Ok tt -> h_TxRoot h = TxRoot txs ->
  applyTxs start txs h 0 [] = Returns (w, h_GasUsed h, rs) -> h_ReceiptRoot h = ReceiptRoot rs ->
  alike working w -> StateRoot h = Root (CreditBlockReward split working (Proposer h) (Height h)) ->
  exists s', ApplyBlock split st (mkBlock h txs) (Some head) = Returns (s', rs)
    /\ alike s' (CreditBlockReward split working (Proposer h) (Height h)).
Proof.
  intros start Hc Htx Ha Hr Hal Hroot. pose proof (alike_CreditBlockReward split _ _ (Proposer h) (Height h) Hal) as Hal'.
  exists (CreditBlockReward split w (Proposer h) (Height h)). split; [|by symmetry].
  unfold ApplyBlock, applyBlockBody, VerifyTxRoot. cbn [b_Header b_Txs].
  destruct (array_eqb_spec (TxRoot txs) (h_TxRoot h)); [|congruence]. cbn [negb]. rewrite Hc. fold start. rewrite Ha.
  rewrite Z.eqb_refl. cbn [negb]. destruct (array_eqb_spec (ReceiptRoot rs) (h_ReceiptRoot h)); [|congruence]. cbn [negb].
  destruct (array_eqb_spec (Root (CreditBlockReward split w (Proposer h) (Height h))) (StateRoot h)) as [|Hn]; [done|].
  destruct Hn. rewrite Hroot. symmetry. by apply alike_Root.
Qed.

(** The loop reads the proposer and the gas limit of the header, nothing else. *)
Lemma applyTxs_header h h' s txs total rs :
  Proposer h = Proposer h' -> h_GasLimit h = h_GasLimit h' -> applyTxs s txs h total rs = applyTxs s txs h' total rs.
Proof.
  intros Hp Hl. revert s total rs. induction txs as [|tx txs IH]; intros s total rs; [done|]. cbn [applyTxs].
  rewrite Hp, Hl. destruct (ApplyTx _ _ _ _) as [[[[? ?] ?] ?]|[]| |]; try done. destruct (_ <? _); [done|]. apply IH.
Qed.

(** What is built: a child of the head from the transactions offered, with the proposer's share of the fees,
    that a validator accepts whatever its nonce. *)
Record built (split : rewardSplit) (head : Header) (st : State) (diff : Z) (offer : list Transaction) (cb : Address) (now : Z)
    (b : Block) (fees : Z) (rs : list Receipt) : Prop := {
  bt_txs : b_Txs b `sublist_of` offer;
  bt_fees : fees = proposerFees (b_Txs b) rs;
  bt_difficulty : Difficulty (b_Header b) = diff;
  bt_proposer : Proposer (b_Header b) = cb;
  bt_parent : ParentHash (b_Header b) = Header_Hash head;
  bt_height : Height (b_Header b) = u64 (Height head + 1);
  bt_time : Timestamp (b_Header b) = blockTime head now;
  bt_limit : h_GasLimit (b_Header b) = h_GasLimit head;
  bt_used : 0 <= h_GasUsed (b_Header b) <= h_GasLimit head;
  bt_nonce : h_Nonce (b_Header b) = 0;
  bt_valid : forall n, exists s', ApplyBlock split st (mkBlock (with_nonce n (b_Header b)) (b_Txs b)) (Some head) = Returns (s', rs);
}.

Lemma BuildUnsealed_spec split head st diff pending cb now :
  wf_state st -> buildable head -> Forall sound_tx (pending (State_Copy st) (h_GasLimit head)) ->
  exists b fees rs, BuildUnsealed split head st diff pending cb now = Returns (b, fees)
    /\ built split head st (diff head) (pending (State_Copy st) (h_GasLimit head)) cb now b fees rs.
Proof.
  intros Hw Hb Htx. unfold BuildUnsealed. fold (blockTime head now). set (ts := blockTime head now).
  set (h := mkHeader (Header_Hash head) (u64 (Height head + 1)) ts ZeroHash ZeroHash ZeroHash 0 (h_GasLimit head) cb (diff head) 0).
  set (start := SetBlockContext (State_Copy (State_Copy st)) _ _ _).
  set (start' := SetBlockContext (ClearTouched (State_Copy st)) (Height h) (u64 (Timestamp h) / 1000) (Difficulty h)).
  assert (idle start) as Hid by (split; [|done..]; by apply (wf_content st)).
  assert (alike start start') as Hal by done.
  destruct (buildTxs_spec (pending (State_Copy st) (h_GasLimit head)) start start' cb (h_GasLimit head) 0 0 [] [] h Htx Hid Hal)
    as (wk & gas & new & rs & w & -> & Ha & _ & Hal' & Hg & Hsub);
    [destruct Hb as [_ Hb]; unfold MinBlockGasLimit in Hb; lia..|done|done|].
  eexists _, _, rs. split; [reflexivity|]. split; try done.
  intros n. destruct (ApplyBlock_accepts split st head
    (with_nonce n (mkHeader (Header_Hash head) (u64 (Height head + 1)) ts (TxRoot new) (ReceiptRoot rs)
      (Root (CreditBlockReward split wk cb (u64 (Height head + 1)))) gas (h_GasLimit head) cb (diff head) 0)) new w rs wk)
    as (s' & E & _); try done; [|by rewrite (applyTxs_header _ h)|by exists s'].
  apply checkParent_child; try done. apply blockTime_later, Hb.
Qed.

End Producer.

(** ** Properties *)

#[local] Existing Instance toyCrypto.
#[local] Existing Instance toyBn256.

(** The producer builds only blocks that a validator accepts.  On any well-formed head state, whatever
    transactions the pool offers, [BuildUnsealed] ends with a block whose transactions are some of those
    offered, in that order, and [ApplyBlock] executes it on the head state under any nonce, with the
    roots, gas and receipts that the producer computed on its copies; the fees it reports are the
    proposer's shares.  What [Build] seals also meets its proof of work. *)
Theorem produced_block_valid `{Crypto} `{Bn256} split head st diff pending cb now :
  wf_state st -> buildable head -> 1 <= diff head -> Forall sound_tx (pending (State_Copy st) (h_GasLimit head)) ->
  exists b fees rs, BuildUnsealed split head st diff pending cb now = Returns (b, fees)
    /\ b_Txs b `sublist_of` pending (State_Copy st) (h_GasLimit head) /\ fees = proposerFees (b_Txs b) rs
    /\ (forall n, exists s', ApplyBlock split st (mkBlock (with_nonce n (b_Header b)) (b_Txs b)) (Some head) = Returns (s', rs))
    /\ forall fuel stop b', Z.of_nat fuel <= 2 ^ 64 ->
         Producer_Build fuel split head st diff pending cb now stop = Returns (Some b') ->
         VerifyHeaderPoW (b_Header b') = Ok tt /\ exists s', ApplyBlock split st b' (Some head) = Returns (s', rs).
Proof.
  intros Hw Hb Hd Htx.
  destruct (BuildUnsealed_spec split head st diff pending cb now Hw Hb Htx) as (b & fees & rs & E & HB).
  pose proof (bt_valid _ _ _ _ _ _ _ _ _ _ HB) as Hap. pose proof (bt_difficulty _ _ _ _ _ _ _ _ _ _ HB) as Hdiff. exists b, fees, rs. split_and!; try apply HB; [done|]. intros fuel stop b' Hfuel. unfold Producer_Build. rewrite E.
  destruct (mine fuel _ stop) as [[[] o]|] eqn:Em; try done. intros [= <-].
  apply mine_ok in Em as (n & En & Hv); [|done|cbn; lia]. split; [done|]. cbn [ho_header] in En. rewrite En. apply Hap.
Qed.

Lemma produced_block_valid_witness :
  exists b fees rs, BuildUnsealed toySplit toyParent toyState (fun _ => 1000) (fun _ _ => [toyShort; toyCall]) toyMiner 5 = Returns (b, fees)
    /\ exists s', ApplyBlock toySplit toyState (mkBlock (with_nonce 7 (b_Header b)) (b_Txs b)) (Some toyParent) = Returns (s', rs).
Proof.
  destruct (produced_block_valid toySplit toyParent toyState (fun _ => 1000) (fun _ _ => [toyShort; toyCall]) toyMiner 5)
    as (b & fees & rs & E & _ & _ & Ha & _).
  - apply toyState_wf.
  - split; vm_compute; intuition congruence.
  - lia.
  - constructor; [apply toyShort_wf|]. constructor; [apply toyCall_wf|constructor].
  - exists b, fees, rs. split; [exact E|apply Ha].
Defined.
