(* ===== verification/Mempool.v ===== *)
(** * The mempool (mempool/mempool.go, mempool/journal.go)

    Two indexes over the pending transactions, by hash and by sender and nonce.
    Go iterates a map in an order of its choosing: [mapOrder] is one such
    choice, an argument of each operation that iterates.  [sort.Slice] is not
    stable; a stable sort over every iteration order gives every result it can
    give.  The journal file is left out: what is read from it, and whether it
    can be written, are arguments.  Locks are left out: each operation holds
    the pool's lock from its first access to its last. *)
From stdpp Require Import base numbers list gmap sorting.
From Stdlib Require Import ZArith Lia Strings.Byte.
From S2P Require Import Prelude Common Types VmBase Precompiles Vm State.
#[local] Open Scope Z_scope.
#[local] Open Scope list_scope.
#[local] Open Scope go_scope.

Definition maxPerAccount : Z := 64.

Record Mempool : Type := mkPool {
  maxSize : Z;
  minGasPrice : option Z;
  m_all : gmap Hash Transaction;
  byAcct : gmap Address (gmap Z Transaction);
  local : gset Hash;
}.

Definition Mempool_New (size : Z) : Mempool := mkPool size None ∅ ∅ ∅.

Definition SetMinGasPrice (m : Mempool) (p : option Z) : Mempool := mkPool (maxSize m) p (m_all m) (byAcct m) (local m).

Definition Mempool_Len (m : Mempool) : Z := Z.of_nat (size (m_all m)).

Definition Mempool_Get (m : Mempool) (h : Hash) : option Transaction := m_all m !! h.

Definition with_index (all : gmap Hash Transaction) (acct : gmap Address (gmap Z Transaction)) (m : Mempool) : Mempool :=
  mkPool (maxSize m) (minGasPrice m) all acct (local m).

Definition with_local (l : gset Hash) (m : Mempool) : Mempool :=
  mkPool (maxSize m) (minGasPrice m) (m_all m) (byAcct m) l.

(** The orders in which one call walks the maps it iterates. *)
Record mapOrder : Type := {
  ord_all : gmap Hash Transaction -> list (Hash * Transaction);
  ord_nonces : gmap Z Transaction -> list (Z * Transaction);
  ord_accts : gmap Address (gmap Z Transaction) -> list (Address * gmap Z Transaction);
  ord_all_perm m : ord_all m ≡ₚ map_to_list m;
  ord_nonces_perm m : ord_nonces m ≡ₚ map_to_list m;
  ord_accts_perm m : ord_accts m ≡ₚ map_to_list m;
}.

Section Mempool.
Context `{Crypto}.

(** ** Admission *)

Definition CheckState (s : State) (tx : Transaction) : res unit :=
  let? sender := Sender tx in
  if tx_Nonce tx <? State_Nonce s sender then Err ErrNonceStale
  else
    let? cost := Cost tx in
    if State_Balance s sender <? cost then Err ErrCannotPay else Ok tt.

(** [lowestPricedLocked]; a nil price panics when it is compared. *)
Fixpoint lowestPriced (txs : list (Hash * Transaction)) (min : option Transaction) : res (option Transaction) :=
  match txs with
  | [] => Ok min
  | (_, tx) :: rest =>
      match min with
      | None => lowestPriced rest (Some tx)
      | Some cur =>
          let? p := or_panic (tx_GasPrice tx) in
          let? q := or_panic (tx_GasPrice cur) in
          lowestPriced rest (if p <? q then Some tx else min)
      end
  end.

(** The transaction of the highest nonce of an account. *)
Definition tailOf (txs : list (Z * Transaction)) : option Transaction :=
  fold_left (fun tail p => match tail with
                           | None => Some (snd p)
                           | Some t => if tx_Nonce t <? tx_Nonce (snd p) then Some (snd p) else tail
                           end) txs None.

(** Remove (sender, nonce) from the account index; an account left empty is deleted. *)
Definition dropNonce (acct : gmap Address (gmap Z Transaction)) (sender : Address) (nonce : Z)
    : gmap Address (gmap Z Transaction) :=
  match acct !! sender with
  | None => acct
  | Some byNonce =>
      let byNonce := delete nonce byNonce in
      if Z.of_nat (size byNonce) =? 0 then delete sender acct else <[sender := byNonce]> acct
  end.

Definition dropLocked (m : Mempool) (tx : Transaction) : Mempool :=
  let all := delete (tx_Hash tx) (m_all m) in
  match Sender tx with
  | Ok sender => with_index all (dropNonce (byAcct m) sender (tx_Nonce tx)) m
  | _ => with_index all (byAcct m) m
  end.

(** The two writes that end [add]; the second panics on the nil map of an absent account. *)
Definition insertTx (m : Mempool) (sender : Address) (tx : Transaction) : Mempool * res unit :=
  let all := <[tx_Hash tx := tx]> (m_all m) in
  match byAcct m !! sender with
  | None => (with_index all (byAcct m) m, Panic)
  | Some byNonce => (with_index all (<[sender := <[tx_Nonce tx := tx]> byNonce]> (byAcct m)) m, Ok tt)
  end.

(** Lines 147-167: make room in a full pool for a transaction that outbids its cheapest. *)
Definition makeRoom (m : Mempool) (tx : Transaction) (it : mapOrder) : Mempool * res unit :=
  if maxSize m <=? Mempool_Len m then
    match lowestPriced (ord_all it (m_all m)) None with
    | Ok (Some cheapest) =>
        match tx_GasPrice tx, tx_GasPrice cheapest with
        | Some p, Some q =>
            if p <=? q then (m, Err ErrPoolFull)
            else match Sender cheapest with
                 | Ok victim =>
                     match tailOf (ord_nonces it (default ∅ (byAcct m !! victim))) with
                     | Some tail => (dropLocked m tail, Ok tt)
                     | None => (m, Panic)
                     end
                 | Err _ => (m, Err ErrPoolFull)
                 | Panic => (m, Panic)
                 end
        | _, _ => (m, Panic)
        end
    | Ok None => (m, Err ErrPoolFull)
    | Err e => (m, Err e)
    | Panic => (m, Panic)
    end
  else (m, Ok tt).

(** The admission floor, when it is set and enforced. *)
Definition belowFloor (m : Mempool) (tx : Transaction) (enforceFloor : bool) : res bool :=
  match minGasPrice m with
  | Some floor =>
      if enforceFloor && (0 <? Z.sgn floor) then let? p := or_panic (tx_GasPrice tx) in Ok (p <? floor) else Ok false
  | None => Ok false
  end.

Definition Mempool_add (m : Mempool) (tx : Transaction) (chainID : Z) (enforceFloor : bool) (it : mapOrder)
    : Mempool * res unit :=
  match (let? _ := SanityCheck tx chainID in
         let? sender := Sender tx in
         let? low := belowFloor m tx enforceFloor in
         Ok (sender, low)) with
  | Err e => (m, Err e)
  | Panic => (m, Panic)
  | Ok (sender, true) => (m, Err ErrUnderpriced)
  | Ok (sender, false) =>
      match m_all m !! tx_Hash tx with
      | Some _ => (m, Err ErrAlreadyKnown)
      | None =>
          let byNonce := default ∅ (byAcct m !! sender) in
          let m := with_index (m_all m) (<[sender := byNonce]> (byAcct m)) m in
          match byNonce !! tx_Nonce tx with
          | Some _ => (m, Err ErrNonceUsed)
          | None =>
              if maxPerAccount <=? Z.of_nat (size byNonce) then (m, Err ErrAccountLimit)
              else match makeRoom m tx it with
                   | (m, Ok _) => insertTx m sender tx
                   | r => r
                   end
          end
      end
  end.

Definition Mempool_Add (m : Mempool) (tx : Transaction) (chainID : Z) (it : mapOrder) : Mempool * res unit :=
  Mempool_add m tx chainID true it.

(** ** Selection *)

(** The run of consecutive nonces from [next] ([None]: out of fuel). *)
Fixpoint runFrom (fuel : nat) (byNonce : gmap Z Transaction) (next : Z) : option (list Transaction) :=
  match fuel with
  | O => None
  | S f =>
      match byNonce !! next with
      | None => Some []
      | Some tx => match runFrom f byNonce (u64 (next + 1)) with
                   | Some run => Some (tx :: run)
                   | None => None
                   end
      end
  end.

(** One group of executable transactions per account that has any. *)
Fixpoint pendingGroups (s : State) (accts : list (Address * gmap Z Transaction)) : option (list (list Transaction)) :=
  match accts with
  | [] => Some []
  | (sender, byNonce) :: rest =>
      match runFrom (S (size byNonce)) byNonce (State_Nonce s sender), pendingGroups s rest with
      | Some run, Some groups => Some (if 0 <? len run then run :: groups else groups)
      | _, _ => None
      end
  end.

(** [groups[i].txs[0].GasPrice] *)
Definition headPrice (group : list Transaction) : res Z :=
  match group with
  | [] => Panic
  | tx :: _ => or_panic (tx_GasPrice tx)
  end.

Fixpoint insertGroup (g : list Transaction) (groups : list (list Transaction)) : res (list (list Transaction)) :=
  match groups with
  | [] => Ok [g]
  | h :: rest =>
      let? p := headPrice g in
      let? q := headPrice h in
      if p <? q then let? r := insertGroup g rest in Ok (h :: r) else Ok (g :: groups)
  end.

Fixpoint sortGroups (groups : list (list Transaction)) : res (list (list Transaction)) :=
  match groups with
  | [] => Ok []
  | g :: rest => let? r := sortGroups rest in insertGroup g r
  end.

(** The packing loops: the gas limits, summed at [uint64] width, against the block's. *)
Fixpoint packTxs (gas gasLimit : Z) (txs : list Transaction) : list Transaction :=
  match txs with
  | [] => []
  | tx :: rest =>
      if gasLimit <? u64 (gas + tx_GasLimit tx) then []
      else tx :: packTxs (u64 (gas + tx_GasLimit tx)) gasLimit rest
  end.

(** [None]: out of fuel. *)
Definition Pending (m : Mempool) (s : State) (gasLimit : Z) (it : mapOrder) : option (res (list Transaction)) :=
  match pendingGroups s (ord_accts it (byAcct m)) with
  | None => None
  | Some groups => Some (let? sorted := sortGroups groups in Ok (packTxs 0 gasLimit (concat sorted)))
  end.

Fixpoint PendingNonce_loop (fuel : nat) (byNonce : gmap Z Transaction) (next : Z) : option Z :=
  match fuel with
  | O => None
  | S f => match byNonce !! next with None => Some next | Some _ => PendingNonce_loop f byNonce (u64 (next + 1)) end
  end.

(** [None]: out of fuel. *)
Definition PendingNonce (m : Mempool) (addr : Address) (base : Z) : option Z :=
  match byAcct m !! addr with
  | None => Some base
  | Some byNonce => PendingNonce_loop (S (size byNonce)) byNonce base
  end.

(** ** Removal *)

(** The nonces of one account that are not yet spent. *)
Definition unspent (committed : Z) (byNonce : gmap Z Transaction) : gmap Z Transaction :=
  filter (fun p => committed <= fst p) byNonce.

Definition spentTxs (committed : Z) (byNonce : gmap Z Transaction) : list Transaction :=
  snd <$> map_to_list (filter (fun p => fst p < committed) byNonce).

(** The deletions commute, so no order is needed. *)
Definition Demote (m : Mempool) (s : State) : Z * Mempool :=
  let dropped := map_to_list (byAcct m) ≫= (fun p => spentTxs (State_Nonce s (fst p)) (snd p)) in
  let all := foldr (fun tx all => delete (tx_Hash tx) all) (m_all m) dropped in
  let acct := map_imap (fun sender byNonce =>
    let byNonce := unspent (State_Nonce s sender) byNonce in
    if Z.of_nat (size byNonce) =? 0 then None else Some byNonce) (byAcct m) in
  (len dropped, with_index all acct m).

(** [rewriteJournalLocked]: when the journal can be written, hashes no longer pending are forgotten. *)
Definition rewriteJournal (journal : bool) (m : Mempool) : Mempool :=
  if journal then with_local (filter (fun h => is_Some (m_all m !! h)) (local m)) m else m.

(** The loop of [Remove]; the flag is [removedLocal]. *)
Definition removeTx (p : Mempool * bool) (tx : Transaction) : Mempool * bool :=
  let '(m, removedLocal) := p in
  let h := tx_Hash tx in
  let isLocal := bool_decide (h ∈ local m) in
  let m := if isLocal then with_local (local m ∖ {[h]}) m else m in
  (dropLocked m tx, removedLocal || isLocal).

Definition Mempool_Remove (m : Mempool) (txs : list Transaction) (journal : bool) : Mempool :=
  let '(m, removedLocal) := fold_left removeTx txs (m, false) in
  if removedLocal then rewriteJournal journal m else m.

(** The transactions of orphaned blocks come back; errors are swallowed, a panic is not. *)
Fixpoint Reinject (m : Mempool) (txs : list Transaction) (chainID : Z) (accepted : Z) (its : nat -> mapOrder)
    : Mempool * res Z :=
  match txs with
  | [] => (m, Ok accepted)
  | tx :: rest =>
      match Mempool_add m tx chainID false (its O) with
      | (m, Ok _) => Reinject m rest chainID (accepted + 1) (fun k => its (S k))
      | (m, Err _) => Reinject m rest chainID accepted (fun k => its (S k))
      | (m, Panic) => (m, Panic)
      end
  end.

(** ** The local journal (journal.go) *)

Definition AddLocal (m : Mempool) (tx : Transaction) (chainID : Z) (it : mapOrder) : Mempool * res unit :=
  match Mempool_Add m tx chainID it with
  | (m, Ok _) => (with_local ({[tx_Hash tx]} ∪ local m) m, Ok tt)
  | r => r
  end.

(** [txs] is what the journal file held. *)
Fixpoint replayJournal (m : Mempool) (txs : list Transaction) (chainID : Z) (loaded : Z) (its : nat -> mapOrder)
    : Mempool * res Z :=
  match txs with
  | [] => (m, Ok loaded)
  | tx :: rest =>
      match AddLocal m tx chainID (its O) with
      | (m, Ok _) => replayJournal m rest chainID (loaded + 1) (fun k => its (S k))
      | (m, Err _) => replayJournal m rest chainID loaded (fun k => its (S k))
      | (m, Panic) => (m, Panic)
      end
  end.

Definition EnableJournal (m : Mempool) (txs : list Transaction) (chainID : Z) (its : nat -> mapOrder) (journal : bool)
    : Mempool * res Z :=
  match replayJournal m txs chainID 0 its with
  | (m, Ok n) => (rewriteJournal journal m, Ok n)
  | r => r
  end.

End Mempool.
