(* ===== verification/MempoolProofs.v ===== *)
(** * The mempool: its invariant, what it offers to a producer, and where it fails *)
From stdpp Require Import base numbers list gmap sorting.
From Stdlib Require Import ZArith Lia Strings.Byte.
From S2P Require Import Prelude Common Types VmBase Precompiles Vm VmProps State StateProofs StateInv TxProps Mempool.
#[local] Open Scope Z_scope.
#[local] Open Scope list_scope.

Section Proofs.
Context `{Crypto}.

(** The transactions a node handles; no two of them share a hash. *)
Context (T : Transaction -> Prop) (T_inj : forall a b, T a -> T b -> tx_Hash a = tx_Hash b -> a = b).

(** Every pooled transaction is filed under its hash; every transaction of the account index is filed
    under its sender and nonce and is pooled; no account and no pool holds more than its share. *)
Record pool_inv (m : Mempool) : Prop := {
  pi_all : forall h tx, m_all m !! h = Some tx ->
    tx_Hash tx = h /\ T tx /\ is_Some (tx_GasPrice tx) /\ exists a, Sender tx = Ok a;
  pi_acct : forall a bn n tx, byAcct m !! a = Some bn -> bn !! n = Some tx ->
    Sender tx = Ok a /\ tx_Nonce tx = n /\ m_all m !! tx_Hash tx = Some tx;
  pi_count : forall a bn, byAcct m !! a = Some bn -> Z.of_nat (size bn) <= maxPerAccount;
  pi_size : Mempool_Len m <= Z.max 0 (maxSize m);
}.

Lemma dropNonce_lookup acct a n b bn k tx :
  dropNonce acct a n !! b = Some bn -> bn !! k = Some tx ->
  exists bn0, acct !! b = Some bn0 /\ bn0 !! k = Some tx /\ (b = a -> k <> n) /\ (size bn <= size bn0)%nat.
Proof.
  unfold dropNonce. destruct (acct !! a) as [bna|] eqn:Ea.
  - destruct (Z.eqb_spec (Z.of_nat (size (delete n bna))) 0).
    + intros [Hne Hb]%lookup_delete_Some Hk. exists bn. split_and!; done.
    + destruct (decide (a = b)) as [<-|Hne].
      * rewrite lookup_insert_eq. intros [= <-] [Hkn Hk]%lookup_delete_Some. exists bna. split_and!; try done.
        apply map_subseteq_size, delete_subseteq.
      * rewrite lookup_insert_ne by done. intros Hb Hk. exists bn. by split_and!.
  - intros Hb Hk. exists bn. split_and!; try done. congruence.
Qed.

Lemma dropNonce_count acct a n b bn :
  dropNonce acct a n !! b = Some bn -> exists bn0, acct !! b = Some bn0 /\ (size bn <= size bn0)%nat.
Proof.
  unfold dropNonce. destruct (acct !! a) as [bna|] eqn:Ea; [|by eauto].
  destruct (_ =? 0); [intros [_ Hb]%lookup_delete_Some; eauto|].
  intros [[<- <-]|[_ Hb]]%lookup_insert_Some; [|by eauto]. exists bna. split; [done|].
  apply map_subseteq_size, delete_subseteq.
Qed.

Lemma dropLocked_fields m tx :
  m_all (dropLocked m tx) = delete (tx_Hash tx) (m_all m) /\ maxSize (dropLocked m tx) = maxSize m
  /\ minGasPrice (dropLocked m tx) = minGasPrice m /\ local (dropLocked m tx) = local m.
Proof. unfold dropLocked. by destruct (Sender tx). Qed.

Lemma delete_size_le {V} (m : gmap Hash V) h : (size (delete h m) <= size m)%nat.
Proof. apply map_subseteq_size, delete_subseteq. Qed.

Lemma dropLocked_inv m tx : pool_inv m -> T tx -> pool_inv (dropLocked m tx).
Proof.
  intros [Ha Hc Hn Hs] HT. destruct (dropLocked_fields m tx) as (Eall & Emax & _ & _).
  assert (forall a bn n t, byAcct (dropLocked m tx) !! a = Some bn -> bn !! n = Some t ->
    exists bn0, byAcct m !! a = Some bn0 /\ bn0 !! n = Some t /\ (Sender tx = Ok a -> n <> tx_Nonce tx)) as Hold.
  { intros a bn n t. unfold dropLocked. destruct (Sender tx) as [s| |]; cbn [with_index byAcct].
    - intros Hb Hk. destruct (dropNonce_lookup _ _ _ _ _ _ _ Hb Hk) as (bn0 & ? & ? & Hne & _).
      exists bn0. split_and!; try done. intros [= ->]. by apply Hne.
    - intros. exists bn. split_and!; done.
    - intros. exists bn. split_and!; done. }
  split.
  - intros h t. rewrite Eall. intros [_ Hl]%lookup_delete_Some. by apply Ha.
  - intros a bn n t Hb Hk. destruct (Hold a bn n t Hb Hk) as (bn0 & Hb0 & Hk0 & Hne).
    destruct (Hc a bn0 n t Hb0 Hk0) as (Hsnd & <- & Hl). split_and!; try done. rewrite Eall.
    rewrite lookup_delete_ne; [done|]. intros Eh. destruct (Ha _ _ Hl) as (_ & HTt & _).
    assert (tx = t) as -> by (by apply T_inj). by apply Hne.
  - intros a bn. unfold dropLocked. destruct (Sender tx); cbn [with_index byAcct]; [|by apply Hn..].
    intros (bn0 & Hb0 & Hle)%dropNonce_count. specialize (Hn a bn0 Hb0). lia.
  - unfold Mempool_Len in *. rewrite Eall, Emax. pose proof (delete_size_le (m_all m) (tx_Hash tx)). lia.
Qed.

(** Dropping a pooled transaction frees a slot. *)
Lemma dropLocked_frees m tx : m_all m !! tx_Hash tx = Some tx -> Mempool_Len (dropLocked m tx) = Mempool_Len m - 1.
Proof.
  intros Hl. destruct (dropLocked_fields m tx) as (Eall & _). unfold Mempool_Len. rewrite Eall.
  rewrite map_size_delete_Some by (by eexists).
  assert (size (m_all m) <> 0%nat); [|lia]. intros E%map_size_empty_iff. by rewrite E, lookup_empty in Hl.
Qed.

Lemma tailOf_In_acc l acc t :
  fold_left (fun tail (p : Z * Transaction) => match tail with
                           | None => Some (snd p)
                           | Some t => if tx_Nonce t <? tx_Nonce (snd p) then Some (snd p) else tail
                           end) l acc = Some t -> acc = Some t \/ exists n, (n, t) ∈ l.
Proof.
  revert acc. induction l as [|[n u] l IH]; intros acc; cbn [fold_left snd]; [by left|].
  intros [E|[k Hk]]%IH; [|right; exists k; by right].
  destruct acc as [v|]; [destruct (_ <? _)|]; injection E as <-; [right; exists n; by left|by left|right; exists n; by left].
Qed.

Lemma tail_resident m it a t :
  pool_inv m -> tailOf (ord_nonces it (default ∅ (byAcct m !! a))) = Some t -> m_all m !! tx_Hash t = Some t.
Proof.
  intros Hi [E|[n Hn]]%tailOf_In_acc; [done|]. rewrite ord_nonces_perm, elem_of_map_to_list in Hn.
  destruct (byAcct m !! a) as [bn|] eqn:Eb; [|cbn in Hn; by rewrite lookup_empty in Hn].
  by apply (pi_acct m Hi a bn n t).
Qed.

(** After [makeRoom] there is room, or nothing happened. *)
Lemma makeRoom_ok m tx it :
  pool_inv m ->
  match makeRoom m tx it with
  | (m', Ok _) => pool_inv m' /\ Mempool_Len m' < Z.max 0 (maxSize m') /\ maxSize m' = maxSize m
                  /\ m_all m' ⊆ m_all m
                  /\ (forall a bn, byAcct m' !! a = Some bn -> exists bn0, byAcct m !! a = Some bn0 /\ (size bn <= size bn0)%nat)
  | (m', _) => m' = m
  end.
Proof.
  intros Hi. unfold makeRoom. destruct (Z.leb_spec (maxSize m) (Mempool_Len m)) as [Hfull|]; [|split_and!; try done; [lia|eauto]].
  destruct (lowestPriced _ None) as [[c|]| |] eqn:El; try done.
  destruct (tx_GasPrice tx) as [p|], (tx_GasPrice c) as [q|]; try done. destruct (p <=? q); [done|].
  destruct (Sender c) as [victim| |]; try done.
  destruct (tailOf _) as [t|] eqn:Et; [|done]. pose proof (tail_resident m it victim t Hi Et) as Ht.
  destruct (dropLocked_fields m t) as (Eall & Emax & _ & _). split_and!; try done.
  - apply dropLocked_inv; [done|]. by apply (pi_all m Hi _ _ Ht).
  - rewrite dropLocked_frees by done. rewrite Emax. pose proof (pi_size m Hi). lia.
  - rewrite Eall. apply delete_subseteq.
  - intros a bn. unfold dropLocked. destruct (Sender t); cbn [with_index byAcct]; [apply dropNonce_count|eauto..].
Qed.

(** The account map of [sender], made if it was missing. *)
Definition ensureAcct (m : Mempool) (sender : Address) : Mempool :=
  with_index (m_all m) (<[sender := default ∅ (byAcct m !! sender)]> (byAcct m)) m.

Lemma ensureAcct_inv m sender : pool_inv m -> pool_inv (ensureAcct m sender).
Proof.
  intros [Ha Hc Hn Hs]. split; [done| | |done].
  - intros a bn n tx. cbn [ensureAcct with_index byAcct m_all].
    intros [[<- <-]|[_ Hb]]%lookup_insert_Some Hk; [|by apply (Hc a bn n tx)].
    destruct (byAcct m !! sender) as [bn0|] eqn:E; [by apply (Hc sender bn0)|cbn in Hk; by rewrite lookup_empty in Hk].
  - intros a bn. cbn [ensureAcct with_index byAcct].
    intros [[<- <-]|[_ Hb]]%lookup_insert_Some; [|by apply (Hn a)].
    destruct (byAcct m !! sender) as [bn0|] eqn:E; [by apply (Hn sender)|]. cbn. by rewrite map_size_empty.
Qed.

Lemma insertTx_inv m sender tx :
  pool_inv m -> T tx -> Sender tx = Ok sender -> is_Some (tx_GasPrice tx) -> m_all m !! tx_Hash tx = None ->
  Mempool_Len m < Z.max 0 (maxSize m) ->
  (forall bn, byAcct m !! sender = Some bn -> Z.of_nat (size bn) < maxPerAccount) ->
  pool_inv (fst (insertTx m sender tx)).
Proof.
  intros [Ha Hc Hn Hs] HT Hsnd Hp Hnew Hroom Hcnt.
  assert (forall acct, Mempool_Len (with_index (<[tx_Hash tx := tx]> (m_all m)) acct m) <= Z.max 0 (maxSize m)) as Hlen.
  { intros acct. unfold Mempool_Len in *. cbn [with_index m_all]. rewrite map_size_insert_None by done. lia. }
  assert (forall h t, <[tx_Hash tx := tx]> (m_all m) !! h = Some t ->
    tx_Hash t = h /\ T t /\ is_Some (tx_GasPrice t) /\ exists a, Sender t = Ok a) as Hall.
  { intros h t [[<- <-]|[_ Hl]]%lookup_insert_Some; [by eauto|by apply Ha]. }
  assert (forall t, m_all m !! tx_Hash t = Some t -> <[tx_Hash tx := tx]> (m_all m) !! tx_Hash t = Some t) as Hkeep.
  { intros t Ht. rewrite lookup_insert_ne; [done|]. intros E. by rewrite <- E, Hnew in Ht. }
  unfold insertTx. destruct (byAcct m !! sender) as [bn|] eqn:Eb; cbn [fst]; split; cbn [with_index m_all byAcct maxSize]; auto.
  - intros a bn' n t [[<- <-]|[_ Hb]]%lookup_insert_Some Hk.
    + apply lookup_insert_Some in Hk as [[<- <-]|[_ Hk]]; [by rewrite lookup_insert_eq|].
      destruct (Hc sender bn n t Eb Hk) as (? & ? & ?). auto.
    + destruct (Hc a bn' n t Hb Hk) as (? & ? & ?). auto.
  - intros a bn' [[<- <-]|[_ Hb]]%lookup_insert_Some; [|by apply (Hn a)].
    specialize (Hcnt bn eq_refl). destruct (bn !! tx_Nonce tx) eqn:E.
    + rewrite map_size_insert_Some by eauto. lia.
    + rewrite map_size_insert_None by done. lia.
  - intros a bn n t Hb Hk. destruct (Hc a bn n t Hb Hk) as (? & ? & ?). auto.
Qed.

Lemma SanityCheck_facts tx c : SanityCheck tx c = Ok tt -> is_Some (tx_GasPrice tx).
Proof. unfold SanityCheck. repeat (case_match; try done). Qed.

Lemma Mempool_add_inv m tx c fl it : pool_inv m -> T tx ->
  pool_inv (fst (Mempool_add m tx c fl it)) /\ maxSize (fst (Mempool_add m tx c fl it)) = maxSize m.
Proof.
  intros Hi HT. unfold Mempool_add. destruct (SanityCheck tx c) as [[]| |] eqn:Esc; try done.
  apply SanityCheck_facts in Esc. destruct (Sender tx) as [sender| |] eqn:Es; try done. cbn [res_bind].
  destruct (belowFloor m tx fl) as [[]| |]; try done. cbn [res_bind].
  destruct (m_all m !! tx_Hash tx) eqn:Ea; [done|]. pose proof (ensureAcct_inv m sender Hi) as Hi1.
  fold (ensureAcct m sender). set (bn := default ∅ (byAcct m !! sender)).
  destruct (bn !! tx_Nonce tx); [done|]. destruct (Z.leb_spec maxPerAccount (Z.of_nat (size bn))) as [|Hcnt]; [done|].
  pose proof (makeRoom_ok (ensureAcct m sender) tx it Hi1) as Hroom.
  destruct (makeRoom (ensureAcct m sender) tx it) as [m' r] eqn:Er. destruct r as [u|e|]; [|by subst m'..].
  destruct Hroom as (Hi' & Hlen & Hmax & Hsub & Hacct). split; [|unfold insertTx; by destruct (byAcct m' !! sender)].
  apply insertTx_inv; try done.
  - by apply (lookup_weaken_None _ (m_all m)).
  - intros bn' Hb. destruct (Hacct _ _ Hb) as (bn0 & Hb0 & Hle). cbn [ensureAcct with_index byAcct] in Hb0.
    rewrite lookup_insert_eq in Hb0. injection Hb0 as <-. fold bn in Hle. lia.
Qed.

Lemma with_local_inv m l : pool_inv m -> pool_inv (with_local l m).
Proof. intros []. by split. Qed.

Lemma rewriteJournal_inv j m : pool_inv m -> pool_inv (rewriteJournal j m).
Proof. intros Hi. destruct j; [by apply with_local_inv|done]. Qed.

Lemma removeTx_inv p tx : pool_inv (fst p) -> T tx -> pool_inv (fst (removeTx p tx)) /\ maxSize (fst (removeTx p tx)) = maxSize (fst p).
Proof.
  destruct p as [m b]. intros Hi HT. cbn [fst removeTx].
  assert (forall m, maxSize (dropLocked m tx) = maxSize m) as Hm by (intros; apply dropLocked_fields).
  destruct (bool_decide _); (split; [apply dropLocked_inv; [|done]|by rewrite Hm]); [by apply with_local_inv|done].
Qed.

Lemma Remove_inv m txs j : pool_inv m -> Forall T txs ->
  pool_inv (Mempool_Remove m txs j) /\ maxSize (Mempool_Remove m txs j) = maxSize m.
Proof.
  intros Hi HT. unfold Mempool_Remove.
  assert (forall p, pool_inv (fst p) -> pool_inv (fst (fold_left removeTx txs p))
    /\ maxSize (fst (fold_left removeTx txs p)) = maxSize (fst p)) as Hf.
  { induction HT as [|tx txs HTx _ IH]; intros p Hp; [done|]. cbn [fold_left].
    destruct (removeTx_inv p tx Hp HTx) as [Hp' <-]. by apply IH. }
  destruct (Hf (m, false) Hi) as [Hi' Hm]. destruct (fold_left removeTx txs (m, false)) as [m' []]; [|done].
  split; [by apply rewriteJournal_inv|by destruct j].
Qed.

(** What [Demote] drops: the nonces below the committed one. *)
Lemma elem_of_dropped m s tx :
  tx ∈ map_to_list (byAcct m) ≫= (fun p => spentTxs (State_Nonce s (fst p)) (snd p))
  <-> exists a bn n, byAcct m !! a = Some bn /\ bn !! n = Some tx /\ n < State_Nonce s a.
Proof.
  rewrite list_elem_of_bind. unfold spentTxs. split.
  - intros ([a bn] & ([n t] & -> & Hn)%list_elem_of_fmap & Ha%elem_of_map_to_list).
    apply elem_of_map_to_list, map_lookup_filter_Some in Hn as [Hn Hlt]. exists a, bn, n. by split_and!.
  - intros (a & bn & n & Ha & Hn & Hlt). exists (a, bn). split; [|by apply elem_of_map_to_list].
    apply list_elem_of_fmap. exists (n, tx). split; [done|]. by apply elem_of_map_to_list, map_lookup_filter_Some.
Qed.

Lemma lookup_foldr_delete (all : gmap Hash Transaction) l h tx :
  foldr (fun tx all => delete (tx_Hash tx) all) all l !! h = Some tx <-> all !! h = Some tx /\ Forall (fun t => tx_Hash t <> h) l.
Proof.
  induction l as [|t l IH]; cbn [foldr]; [by rewrite Forall_nil; intuition|].
  rewrite lookup_delete_Some, IH, Forall_cons. tauto.
Qed.

Lemma foldr_delete_size (all : gmap Hash Transaction) l :
  (size (foldr (fun tx all => delete (tx_Hash tx) all) all l) <= size all)%nat.
Proof. induction l as [|t l IH]; cbn [foldr]; [done|]. etransitivity; [apply delete_size_le|done]. Qed.

Lemma Demote_acct m s a bn' : byAcct (snd (Demote m s)) !! a = Some bn' ->
  exists bn, byAcct m !! a = Some bn /\ bn' = unspent (State_Nonce s a) bn.
Proof.
  cbn [Demote snd with_index byAcct]. rewrite map_lookup_imap. destruct (byAcct m !! a) as [bn|]; cbn; [|done].
  destruct (_ =? 0); [done|]. intros [= <-]. eauto.
Qed.

Lemma Demote_inv m s : pool_inv m -> pool_inv (snd (Demote m s)) /\ maxSize (snd (Demote m s)) = maxSize m.
Proof.
  intros [Ha Hc Hn Hs]. split; [|done]. split.
  - intros h tx [Hl _]%lookup_foldr_delete. by apply Ha.
  - intros a bn' n tx (bn & Hb & ->)%Demote_acct [Hk Hge]%map_lookup_filter_Some. cbn in Hge.
    destruct (Hc a bn n tx Hb Hk) as (Hsnd & Hnon & Hl). split_and!; try done.
    apply lookup_foldr_delete. split; [done|]. apply Forall_forall. intros t (a' & bn0 & n' & Hb' & Hk' & Hlt)%elem_of_dropped Eh.
    destruct (Hc a' bn0 n' t Hb' Hk') as (Hsnd' & Hnon' & Hl'). destruct (Ha _ _ Hl) as (_ & HT & _), (Ha _ _ Hl') as (_ & HT' & _).
    assert (t = tx) as -> by (by apply T_inj). assert (a' = a) as -> by congruence. lia.
  - intros a bn' (bn & Hb & ->)%Demote_acct. specialize (Hn a bn Hb).
    pose proof (map_subseteq_size (unspent (State_Nonce s a) bn) bn (map_filter_subseteq _ bn)). lia.
  - unfold Mempool_Len in *. cbn [Demote snd with_index m_all maxSize].
    pose proof (foldr_delete_size (m_all m) (map_to_list (byAcct m) ≫= (fun p => spentTxs (State_Nonce s (fst p)) (snd p)))). lia.
Qed.

Lemma Reinject_inv m txs c n its : pool_inv m -> Forall T txs ->
  pool_inv (fst (Reinject m txs c n its)) /\ maxSize (fst (Reinject m txs c n its)) = maxSize m.
Proof.
  intros Hi HT. revert m n its Hi. induction HT as [|tx txs HTx _ IH]; intros m n its Hi; [done|]. cbn [Reinject].
  destruct (Mempool_add_inv m tx c false (its O) Hi HTx) as [Hi' Hm].
  destruct (Mempool_add m tx c false (its O)) as [m' [u|e|]]; cbn [fst] in *; [rewrite <- Hm; by apply IH..|done].
Qed.

Lemma AddLocal_inv m tx c it : pool_inv m -> T tx ->
  pool_inv (fst (AddLocal m tx c it)) /\ maxSize (fst (AddLocal m tx c it)) = maxSize m.
Proof.
  intros Hi HT. unfold AddLocal, Mempool_Add. destruct (Mempool_add_inv m tx c true it Hi HT) as [Hi' Hm].
  destruct (Mempool_add m tx c true it) as [m' [u|e|]]; cbn [fst] in *; [|done..]. split; [by apply with_local_inv|done].
Qed.

Lemma replayJournal_inv m txs c n its : pool_inv m -> Forall T txs ->
  pool_inv (fst (replayJournal m txs c n its)) /\ maxSize (fst (replayJournal m txs c n its)) = maxSize m.
Proof.
  intros Hi HT. revert m n its Hi. induction HT as [|tx txs HTx _ IH]; intros m n its Hi; [done|]. cbn [replayJournal].
  destruct (AddLocal_inv m tx c (its O) Hi HTx) as [Hi' Hm].
  destruct (AddLocal m tx c (its O)) as [m' [u|e|]]; cbn [fst] in *; [rewrite <- Hm; by apply IH..|done].
Qed.

(** ** Every pool a node can reach *)

Inductive pool_step (m : Mempool) : Mempool -> Prop :=
  | PS_add tx c fl it : T tx -> pool_step m (fst (Mempool_add m tx c fl it))
  | PS_local tx c it : T tx -> pool_step m (fst (AddLocal m tx c it))
  | PS_remove txs j : Forall T txs -> pool_step m (Mempool_Remove m txs j)
  | PS_demote s : pool_step m (snd (Demote m s))
  | PS_reinject txs c its : Forall T txs -> pool_step m (fst (Reinject m txs c 0 its))
  | PS_journal txs c its j : Forall T txs -> pool_step m (fst (EnableJournal m txs c its j))
  | PS_floor p : pool_step m (SetMinGasPrice m p).

Inductive pool_reachable (size : Z) : Mempool -> Prop :=
  | PR_new : pool_reachable size (Mempool_New size)
  | PR_step m m' : pool_reachable size m -> pool_step m m' -> pool_reachable size m'.

Lemma pool_step_inv m m' : pool_step m m' -> pool_inv m -> pool_inv m' /\ maxSize m' = maxSize m.
Proof.
  intros [tx c fl it HT|tx c it HT|txs j HT|s|txs c its HT|txs c its j HT|p] Hi.
  - by apply Mempool_add_inv.
  - by apply AddLocal_inv.
  - by apply Remove_inv.
  - by apply Demote_inv.
  - by apply Reinject_inv.
  - unfold EnableJournal. destruct (replayJournal_inv m txs c 0 its Hi HT) as [Hi' Hm].
    destruct (replayJournal m txs c 0 its) as [m1 [u|e|]]; cbn [fst] in *; [|done..].
    split; [by apply rewriteJournal_inv|by destruct j].
  - destruct Hi. by split.
Qed.

Lemma New_inv n : pool_inv (Mempool_New n).
Proof.
  split; cbn; [intros h tx; by rewrite lookup_empty|intros a bn k tx; by rewrite lookup_empty|intros a bn; by rewrite lookup_empty|].
  unfold Mempool_Len. cbn. rewrite map_size_empty. lia.
Qed.

Lemma reachable_inv n m : pool_reachable n m -> pool_inv m /\ maxSize m = n.
Proof.
  induction 1 as [|m m' _ [IH Hn] Hs]; [split; [apply New_inv|done]|].
  destruct (pool_step_inv m m' Hs IH) as [Hi ->]. done.
Qed.

(** ** Selection *)

(** Nonce [i] after [next], with wrap-around. *)
Definition nonceAt (next : Z) (i : nat) : Z := u64 (next + Z.of_nat i).

Lemma nonceAt_0 next : is_u64 next -> nonceAt next 0 = next.
Proof. intros Hn. unfold nonceAt, u64. rewrite Z.add_0_r. by apply Z.mod_small. Qed.

Lemma nonceAt_S next i : nonceAt (u64 (next + 1)) i = nonceAt next (S i).
Proof. unfold nonceAt, u64. rewrite Zplus_mod_idemp_l. f_equal. lia. Qed.

Lemma nonceAt_inj next i j : Z.of_nat i < 2 ^ 64 -> Z.of_nat j < 2 ^ 64 -> nonceAt next i = nonceAt next j -> i = j.
Proof.
  unfold nonceAt, u64. intros Hi Hj E.
  assert ((Z.of_nat i - Z.of_nat j) mod 2 ^ 64 = 0) as Hz.
  { replace (Z.of_nat i - Z.of_nat j) with ((next + Z.of_nat i) - (next + Z.of_nat j)) by lia.
    rewrite Zminus_mod, E, Z.sub_diag. done. }
  apply Z.mod_divide in Hz as [q Hq]; [|lia]. assert (q = 0) by nia. lia.
Qed.

Lemma is_u64_u64' z : is_u64 (u64 z).
Proof. unfold is_u64, u64. apply Z.mod_pos_bound. lia. Qed.

(** Out of fuel: that many consecutive nonces are queued. *)
Lemma runFrom_none fuel bn next : is_u64 next -> runFrom fuel bn next = None ->
  forall i, (i < fuel)%nat -> is_Some (bn !! nonceAt next i).
Proof.
  revert next. induction fuel as [|f IH]; intros next Hn E i Hi; [lia|]. cbn [runFrom] in E.
  destruct (bn !! next) as [tx|] eqn:En; [|done]. destruct (runFrom f bn (u64 (next + 1))) eqn:Er; [done|].
  destruct i as [|i]; [rewrite nonceAt_0 by done; eauto|]. rewrite <- nonceAt_S. apply IH; [apply is_u64_u64'|done|lia].
Qed.

(** The loop ends: an account holds finitely many nonces. *)
Lemma runFrom_total bn next : is_u64 next -> Z.of_nat (size bn) < 2 ^ 64 -> is_Some (runFrom (S (size bn)) bn next).
Proof.
  intros Hn Hs. destruct (runFrom _ bn next) as [r|] eqn:E; [eauto|]. pose proof (runFrom_none _ _ _ Hn E) as Hall.
  set (keys := nonceAt next <$> seq 0 (S (size bn))).
  assert (NoDup keys) as Hnd.
  { apply NoDup_fmap_2_strong; [|apply NoDup_seq]. intros i j Hi Hj. rewrite elem_of_seq in Hi, Hj. apply nonceAt_inj; lia. }
  assert (list_to_set keys ⊆ dom bn) as Hsub.
  { intros k. unfold keys. rewrite elem_of_list_to_set, list_elem_of_fmap. intros (i & -> & Hi%elem_of_seq).
    apply elem_of_dom, Hall. lia. }
  apply subseteq_size in Hsub. rewrite size_list_to_set, size_dom in Hsub by done.
  unfold keys in Hsub. rewrite length_fmap, length_seq in Hsub. lia.
Qed.

(** The run is the queued transactions of consecutive nonces, up to the first gap. *)
Lemma runFrom_run fuel bn next run : is_u64 next -> runFrom fuel bn next = Some run ->
  (forall i tx, run !! i = Some tx -> bn !! nonceAt next i = Some tx) /\ bn !! nonceAt next (length run) = None.
Proof.
  revert next run. induction fuel as [|f IH]; intros next run Hn E; [done|]. cbn [runFrom] in E.
  destruct (bn !! next) as [tx|] eqn:En; [|injection E as <-; split; [done|by rewrite nonceAt_0]].
  destruct (runFrom f bn (u64 (next + 1))) as [r|] eqn:Er; [|done]. injection E as <-.
  destruct (IH _ r (is_u64_u64' _) Er) as [H1 H2]. split; [|cbn [length]; by rewrite <- nonceAt_S].
  intros [|i] t; cbn; [intros [= <-]; by rewrite nonceAt_0|]. rewrite <- nonceAt_S. apply H1.
Qed.

(** A sender's executable run: its own transactions, in nonce order from the account's nonce. *)
Definition sender_run (m : Mempool) (s : State) (p : Address * list Transaction) : Prop :=
  snd p <> [] /\ Forall (fun tx => Sender tx = Ok (fst p) /\ m_all m !! tx_Hash tx = Some tx) (snd p)
  /\ tx_Nonce <$> snd p = nonceAt (State_Nonce s (fst p)) <$> seq 0 (length (snd p)).

(** The transaction queued for an account at a nonce. *)
Definition queued (m : Mempool) (a : Address) (n : Z) : option Transaction := byAcct m !! a ≫= fun bn => bn !! n.

(** All that is queued for an account from its nonce up to the first gap. *)
Definition whole_run (m : Mempool) (s : State) (p : Address * list Transaction) : Prop :=
  snd p <> [] /\ (forall i tx, snd p !! i = Some tx -> queued m (fst p) (nonceAt (State_Nonce s (fst p)) i) = Some tx)
  /\ queued m (fst p) (nonceAt (State_Nonce s (fst p)) (length (snd p))) = None.

Lemma run_nonces (bn : gmap Z Transaction) next run :
  (forall n tx, bn !! n = Some tx -> tx_Nonce tx = n) ->
  (forall i tx, run !! i = Some tx -> bn !! nonceAt next i = Some tx) ->
  tx_Nonce <$> run = nonceAt next <$> seq 0 (length run).
Proof.
  intros Hbn Hrun. apply list_eq. intros i. rewrite !list_lookup_fmap. destruct (run !! i) as [tx|] eqn:E.
  - pose proof (lookup_lt_Some _ _ _ E). rewrite lookup_seq_lt by done. cbn. f_equal. by apply Hbn, Hrun.
  - apply lookup_ge_None in E. by rewrite lookup_seq_ge.
Qed.

Lemma pendingGroups_ok m s accts :
  pool_inv m -> (forall a, is_u64 (State_Nonce s a)) -> NoDup accts.*1 ->
  (forall a bn, (a, bn) ∈ accts -> byAcct m !! a = Some bn) ->
  exists ps, pendingGroups s accts = Some ps.*2 /\ NoDup ps.*1 /\ Forall (sender_run m s) ps /\ ps.*1 ⊆ accts.*1
    /\ Forall (whole_run m s) ps /\ (forall a, a ∈ accts.*1 -> is_Some (queued m a (State_Nonce s a)) -> a ∈ ps.*1).
Proof.
  intros Hi Hs. induction accts as [|[a bn] accts IH]; intros Hnd Hin; cbn [pendingGroups].
  - exists []. split_and!; try done; try constructor.
  - apply NoDup_cons in Hnd as [Ha Hnd]. destruct IH as (ps & -> & Hps & Hall & Hsub & Hwh & Hcov); [done|intros; apply Hin; by right|].
    assert (byAcct m !! a = Some bn) as Hb by (apply Hin; by left).
    pose proof (pi_count m Hi a bn Hb) as Hc. unfold maxPerAccount in Hc.
    destruct (runFrom_total bn (State_Nonce s a) (Hs a) ltac:(lia)) as [run Er]. rewrite Er.
    destruct (runFrom_run _ _ _ _ (Hs a) Er) as [Hrun Hgap].
    assert (forall n, queued m a n = bn !! n) as Hq by (intros n; unfold queued; by rewrite Hb).
    destruct run as [|tx run].
    { exists ps. split_and!; try done; [set_solver|]. cbn [fmap list_fmap fst]. intros b [->|Hin']%elem_of_cons Hsome; [|by apply Hcov].
      rewrite Hq in Hsome. cbn [length] in Hgap. rewrite nonceAt_0 in Hgap by apply Hs. rewrite Hgap in Hsome. by destruct Hsome. }
    exists ((a, tx :: run) :: ps). cbn [fst snd fmap list_fmap]. rewrite len_cons.
    destruct (Z.ltb_spec 0 (1 + len run)); [|pose proof (len_nonneg run); lia]. split_and!; [done| | |set_solver| |set_solver].
    + apply NoDup_cons. split; [set_solver|done].
    + constructor; [|done]. split_and!; cbn [fst snd]; [done| |].
      * apply Forall_forall. intros t [i Ht]%list_elem_of_lookup_1. specialize (Hrun i t Ht).
        destruct (pi_acct m Hi a bn _ t Hb Hrun) as (? & _ & ?). done.
      * apply (run_nonces bn); [|done]. intros n t Hn. by apply (pi_acct m Hi a bn n t Hb Hn).
    + constructor; [|done]. split_and!; cbn [fst snd]; [done|intros k t; rewrite Hq; apply Hrun|by rewrite Hq].
Qed.

(** The price at which a group is ranked. *)
Definition rank (g : list Transaction) : Z := match headPrice g with Ok p => p | _ => 0 end.

Definition priced (g : list Transaction) : Prop := exists p, headPrice g = Ok p.

Definition by_price (gs : list (list Transaction)) : Prop := StronglySorted (fun g h => rank h <= rank g) gs.

Lemma insertGroup_ok g gs : priced g -> Forall priced gs -> by_price gs ->
  exists gs', insertGroup g gs = Ok gs' /\ gs' ≡ₚ g :: gs /\ by_price gs'.
Proof.
  intros [p Hp] Hall Hs. induction Hs as [|h gs Hs IH Hle]; cbn [insertGroup].
  - exists [g]. split_and!; try done. repeat constructor.
  - apply Forall_cons in Hall as [[q Hq] Hall]. rewrite Hp, Hq. cbn [res_bind].
    destruct (Z.ltb_spec p q) as [Hlt|Hge].
    + destruct (IH Hall) as (gs' & -> & Hperm & Hs'). cbn [res_bind]. exists (h :: gs'). split_and!; [done| |].
      * rewrite Hperm. apply perm_swap.
      * constructor; [done|]. rewrite Hperm. constructor; [|done]. unfold rank. rewrite Hp, Hq. lia.
    + exists (g :: h :: gs). split_and!; [done|done|]. constructor; [by constructor|].
      assert (rank h <= rank g) as Hgh by (unfold rank; rewrite Hp, Hq; lia). constructor; [done|].
      eapply Forall_impl; [exact Hle|]. intros k Hk. cbn in Hk. lia.
Qed.

Lemma sortGroups_ok gs : Forall priced gs -> exists gs', sortGroups gs = Ok gs' /\ gs' ≡ₚ gs /\ by_price gs'.
Proof.
  induction 1 as [|g gs Hg Hall IH]; cbn [sortGroups]; [exists []; split_and!; done || constructor|].
  destruct IH as (gs1 & -> & Hp1 & Hs1). cbn [res_bind].
  destruct (insertGroup_ok g gs1 Hg) as (gs2 & -> & Hp2 & Hs2); [by rewrite Hp1|done|].
  exists gs2. split_and!; [done| |done]. by rewrite Hp2, Hp1.
Qed.

(** A list in order stays as it is: over every iteration order the stable sort gives every ordered
    arrangement, ties included. *)
Lemma sortGroups_sorted gs : Forall priced gs -> by_price gs -> sortGroups gs = Ok gs.
Proof.
  intros Hall Hs. induction Hs as [|g gs Hs IH Hle]; [done|]. apply Forall_cons in Hall as [[p Hp] Hall].
  cbn [sortGroups]. rewrite IH by done. cbn [res_bind]. destruct gs as [|h gs]; [done|]. cbn [insertGroup].
  apply Forall_cons in Hall as [[q Hq] _]. apply Forall_cons in Hle as [Hgh _]. unfold rank in Hgh. rewrite Hp, Hq in *.
  cbn [res_bind]. destruct (Z.ltb_spec p q); [lia|done].
Qed.

Definition gasLimits (txs : list Transaction) : Z := foldr (fun tx n => tx_GasLimit tx + n) 0 txs.

(** Packing takes a prefix whose 64-bit sum fits the block, and stops only at a transaction whose limit would take that sum
    beyond it. *)
Lemma packTxs_u64 gas lim txs :
  gas = u64 gas -> gas <= lim ->
  exists rest, txs = packTxs gas lim txs ++ rest /\ u64 (gas + gasLimits (packTxs gas lim txs)) <= lim
    /\ match rest with [] => True | tx :: _ => lim < u64 (gas + gasLimits (packTxs gas lim txs) + tx_GasLimit tx) end.
Proof.
  revert gas. induction txs as [|tx txs IH]; intros gas Hu Hg; cbn [packTxs].
  - exists []. cbn. rewrite Z.add_0_r, <- Hu. done.
  - destruct (Z.ltb_spec lim (u64 (gas + tx_GasLimit tx))).
    + exists (tx :: txs). cbn. rewrite Z.add_0_r, <- Hu. done.
    + destruct (IH (u64 (gas + tx_GasLimit tx))) as (rest & Heq & Hle & Hnext); [unfold u64; by rewrite Z.mod_mod|done|].
      exists rest. set (out := packTxs (u64 (gas + tx_GasLimit tx)) lim txs) in *. cbn [app gasLimits foldr]. fold (gasLimits out).
      assert (forall k, u64 (u64 (gas + tx_GasLimit tx) + k) = u64 (gas + tx_GasLimit tx + k)) as Hadd
        by (intros k; unfold u64; apply Zplus_mod_idemp_l).
      rewrite Z.add_assoc. rewrite Hadd in Hle. split_and!; [by f_equal|done|]. destruct rest; [done|].
      rewrite <- Z.add_assoc, Hadd, Z.add_assoc in Hnext. exact Hnext.
Qed.

(** As long as no limit can wrap the sum, the sum itself fits. *)
Lemma packTxs_ok gas lim txs :
  0 <= gas <= lim -> Forall (fun tx => 0 <= tx_GasLimit tx < 2 ^ 64 - lim) txs ->
  exists rest, txs = packTxs gas lim txs ++ rest /\ gas + gasLimits (packTxs gas lim txs) <= lim
    /\ match rest with [] => True | tx :: _ => lim < gas + gasLimits (packTxs gas lim txs) + tx_GasLimit tx end.
Proof.
  intros Hg Hall. revert gas Hg. induction Hall as [|tx txs Htx _ IH]; intros gas Hg; cbn [packTxs].
  - exists []. cbn. split_and!; done || lia.
  - assert (u64 (gas + tx_GasLimit tx) = gas + tx_GasLimit tx) as -> by (unfold u64; apply Z.mod_small; lia).
    destruct (Z.ltb_spec lim (gas + tx_GasLimit tx)).
    + exists (tx :: txs). cbn. split_and!; done || lia.
    + destruct (IH (gas + tx_GasLimit tx) ltac:(lia)) as (rest & Heq & Hle & Hnext). exists rest.
      cbn [app gasLimits foldr]. fold (gasLimits (packTxs (gas + tx_GasLimit tx) lim txs)).
      split_and!; [by f_equal|lia|]. destruct rest; [done|lia].
Qed.

(** The transactions of one sender among the groups are its whole run. *)
Lemma filter_groups (P : Address -> Transaction -> Prop) `{!forall a tx, Decision (P a tx)} (ps : list (Address * list Transaction)) a :
  NoDup ps.*1 -> Forall (fun p => Forall (fun tx => forall b, P b tx <-> b = fst p) (snd p)) ps ->
  filter (P a) (concat ps.*2) = [] \/ exists g, (a, g) ∈ ps /\ filter (P a) (concat ps.*2) = g.
Proof.
  intros Hnd Hall. induction Hall as [|[b g] ps Hg _ IH]; [by left|]. apply NoDup_cons in Hnd as [Hb Hnd].
  cbn [fmap list_fmap snd concat fst] in *. rewrite filter_app. destruct (decide (a = b)) as [->|Hne].
  - right. exists g. split; [by left|]. assert (filter (P b) g = g) as ->.
    { clear -Hg. induction Hg as [|tx g Htx _ IH]; [done|]. rewrite filter_cons_True by (by apply Htx). by f_equal. }
    destruct (IH Hnd) as [->|(g' & Hin & _)]; [by rewrite app_nil_r|].
    destruct Hb. apply list_elem_of_fmap. by exists (b, g').
  - assert (filter (P a) g = []) as ->.
    { clear -Hg Hne. induction Hg as [|tx g Htx _ IH]; [done|]. rewrite filter_cons_False; [done|]. by rewrite Htx. }
    destruct (IH Hnd) as [->|(g' & Hin & ->)]; [by left|]. right. exists g'. split; [by right|done].
Qed.

Definition sentBy (a : Address) (tx : Transaction) : Prop := Sender tx = Ok a.

#[export] Instance sentBy_dec a tx : Decision (sentBy a tx).
Proof.
  unfold sentBy. destruct (Sender tx) as [b| |]; [|by right..].
  destruct (decide (b = a)) as [->|Hne]; [by left|right; congruence].
Defined.

Lemma sender_run_priced m s p : pool_inv m -> sender_run m s p -> priced (snd p).
Proof.
  intros Hi (Hne & Hall & _). destruct (snd p) as [|tx g]; [done|]. apply Forall_cons in Hall as [[_ Hl] _].
  destruct (pi_all m Hi _ _ Hl) as (_ & _ & [q Hq] & _). exists q. cbn. by rewrite Hq.
Qed.

Lemma prefix_nonces (l k : list Transaction) f n :
  l `prefix_of` k -> tx_Nonce <$> k = f <$> seq 0 n -> exists j, tx_Nonce <$> l = f <$> seq 0 j.
Proof.
  intros [r ->] E. exists (length l). rewrite fmap_app in E.
  assert (take (length l) (f <$> seq 0 n) = tx_Nonce <$> l) as <-.
  { rewrite <- E, take_app_le by (by rewrite length_fmap). apply take_ge. by rewrite length_fmap. }
  rewrite <- fmap_take, take_seq. f_equal. f_equal. apply (f_equal length) in E.
  rewrite length_app, !length_fmap, length_seq in E. lia.
Qed.

Lemma prefix_filter (P : Transaction -> Prop) `{!forall x, Decision (P x)} l k : l `prefix_of` k -> filter P l `prefix_of` filter P k.
Proof. intros [r ->]. rewrite filter_app. by apply prefix_app_r. Qed.

(** Selection ends without a panic: it packs the senders' runs, ordered by the price of their first
    transactions. *)
Lemma Pending_total m s lim it :
  pool_inv m -> (forall a, is_u64 (State_Nonce s a)) ->
  exists qs, Pending m s lim it = Some (Ok (packTxs 0 lim (concat qs.*2)))
    /\ Forall (sender_run m s) qs /\ NoDup qs.*1 /\ by_price qs.*2
    /\ Forall (whole_run m s) qs /\ (forall a, is_Some (queued m a (State_Nonce s a)) -> a ∈ qs.*1).
Proof.
  intros Hi Hs. unfold Pending.
  destruct (pendingGroups_ok m s (ord_accts it (byAcct m)) Hi Hs) as (ps & -> & Hnd & Hall & _ & Hwh & Hcov).
  { rewrite ord_accts_perm. apply NoDup_fst_map_to_list. }
  { intros a bn. rewrite ord_accts_perm. apply elem_of_map_to_list. }
  destruct (sortGroups_ok ps.*2) as (gs & -> & Hperm & Hsort).
  { apply Forall_fmap. eapply Forall_impl; [exact Hall|]. intros p. by apply (sender_run_priced m s). }
  apply Permutation_map_inv in Hperm as (qs & -> & Hpq). change (map snd qs) with (qs.*2) in *.
  exists qs. split_and!; [done|by rewrite <- Hpq|by rewrite <- Hpq|done|by rewrite <- Hpq|].
  intros a Ha. rewrite <- Hpq. apply Hcov; [|done]. rewrite ord_accts_perm. unfold queued in Ha. destruct (byAcct m !! a) as [bn|] eqn:Hb.
  - apply list_elem_of_fmap. exists (a, bn). split; [done|]. by apply elem_of_map_to_list.
  - by destruct Ha.
Qed.

Lemma runs_pooled m s qs : Forall (sender_run m s) qs -> Forall (fun tx => m_all m !! tx_Hash tx = Some tx) (concat qs.*2).
Proof.
  intros Hqs. apply Forall_concat, Forall_fmap. eapply Forall_impl; [exact Hqs|]. intros p (_ & Hp & _). cbn.
  eapply Forall_impl; [exact Hp|]. by intros tx [].
Qed.

Lemma packTxs_sub gas lim txs tx : tx ∈ packTxs gas lim txs -> tx ∈ txs.
Proof.
  revert gas. induction txs as [|t txs IH]; intros gas; cbn [packTxs]; [done|]. destruct (_ <? _); [by intros ?%elem_of_nil|].
  rewrite !elem_of_cons. intros [->|Hin]; [by left|]. right. by eapply IH.
Qed.

Lemma Pending_pooled m s lim it :
  pool_inv m -> (forall a, is_u64 (State_Nonce s a)) ->
  exists out, Pending m s lim it = Some (Ok out) /\ Forall (fun tx => m_all m !! tx_Hash tx = Some tx) out.
Proof.
  intros Hi Hs. destruct (Pending_total m s lim it Hi Hs) as (qs & -> & Hqs & _). eexists. split; [done|].
  apply runs_pooled in Hqs. rewrite Forall_forall in *. intros tx Htx%packTxs_sub. auto.
Qed.

(** The transactions of one sender in a prefix of the runs are consecutive. *)
Lemma runs_nonces m s qs out rest a :
  Forall (sender_run m s) qs -> NoDup qs.*1 -> concat qs.*2 = out ++ rest ->
  exists k, tx_Nonce <$> filter (sentBy a) out = nonceAt (State_Nonce s a) <$> seq 0 k.
Proof.
  intros Hqs Hndq Heq. assert (filter (sentBy a) out `prefix_of` filter (sentBy a) (concat qs.*2)) as Hpre.
  { apply prefix_filter. by exists rest. }
  destruct (filter_groups sentBy qs a Hndq) as [Hnil|(g & Hin & Hg)].
  - eapply Forall_impl; [exact Hqs|]. intros p (_ & Hp & _). eapply Forall_impl; [exact Hp|].
    intros tx [Hsnd _] b. unfold sentBy. rewrite Hsnd. split; [by intros [= ->]|by intros ->].
  - rewrite Hnil in Hpre. apply prefix_nil_inv in Hpre. rewrite Hpre. by exists 0%nat.
  - rewrite Hg in Hpre. rewrite Forall_forall in Hqs. destruct (Hqs _ Hin) as (_ & _ & Hn). cbn [fst snd] in Hn.
    by apply (prefix_nonces _ g _ _ Hpre Hn).
Qed.

(** What a producer can rely on, [qs] being the runs and [rest] what was left of them. *)
Record selection (m : Mempool) (s : State) (lim : Z) (out : list Transaction) (qs : list (Address * list Transaction)) (rest : list Transaction) : Prop := {
  sl_pooled : Forall (fun tx => m_all m !! tx_Hash tx = Some tx) out;
  sl_nonces : forall a, exists k, tx_Nonce <$> filter (sentBy a) out = nonceAt (State_Nonce s a) <$> seq 0 k;
  sl_nodup : NoDup qs.*1;
  sl_runs : Forall (whole_run m s) qs;
  sl_senders : forall a, is_Some (queued m a (State_Nonce s a)) -> a ∈ qs.*1;
  sl_order : by_price qs.*2;
  sl_prefix : concat qs.*2 = out ++ rest;
  sl_fits : u64 (gasLimits out) <= lim;
  sl_stops : match rest with [] => True | tx :: _ => lim < u64 (gasLimits out + tx_GasLimit tx) end;
}.

(** An executable batch: a prefix of the runs, cut at the first transaction that does not fit. *)
Lemma Pending_ok m s lim it :
  pool_inv m -> (forall a, is_u64 (State_Nonce s a)) -> 0 <= lim ->
  exists out qs rest, Pending m s lim it = Some (Ok out) /\ selection m s lim out qs rest
    /\ ((forall h tx, m_all m !! h = Some tx -> 0 <= tx_GasLimit tx < 2 ^ 64 - lim) -> gasLimits out <= lim).
Proof.
  intros Hi Hs Hlim. destruct (Pending_total m s lim it Hi Hs) as (qs & -> & Hqs & Hndq & Hsort & Hwh & Hcov).
  pose proof (runs_pooled m s qs Hqs) as Hpool.
  destruct (packTxs_u64 0 lim (concat qs.*2)) as (rest & Heq & Hle & Hnext); [done..|].
  eexists _, qs, rest. split; [done|]. split.
  - split; try done; [|by intros a; apply (runs_nonces m s qs _ rest)]. rewrite Heq in Hpool. by apply Forall_app in Hpool as [? _].
  - intros Hgas. destruct (packTxs_ok 0 lim (concat qs.*2)) as (_ & _ & Hfit & _); [lia| |lia].
    eapply Forall_impl; [exact Hpool|]. intros tx Htx. by apply (Hgas _ _ Htx).
Qed.

(** ** Stranded transactions *)

(** Pooled, and in no account's queue. *)
Definition stranded (m : Mempool) (tx : Transaction) : Prop :=
  m_all m !! tx_Hash tx = Some tx /\ forall a bn n, byAcct m !! a = Some bn -> bn !! n <> Some tx.

Lemma Remove_sub m txs j h tx : Mempool_Get (Mempool_Remove m txs j) h = Some tx -> Mempool_Get m h = Some tx.
Proof.
  unfold Mempool_Get, Mempool_Remove.
  assert (forall p, m_all (fst (fold_left removeTx txs p)) !! h = Some tx -> m_all (fst p) !! h = Some tx) as Hsub.
  { induction txs as [|t txs IH]; intros p Hp; [done|]. cbn [fold_left] in Hp. apply IH in Hp. destruct p as [m0 fl].
    unfold removeTx, dropLocked in Hp. cbn [fst] in *. destruct (bool_decide _), (Sender t); cbn in Hp; by apply lookup_delete_Some in Hp as [_ Hp]. }
  specialize (Hsub (m, false)). destruct (fold_left removeTx txs (m, false)) as [m' [|]]; [|done]. by destruct j.
Qed.

Lemma Remove_gone m txs j tx : tx ∈ txs -> m_all (Mempool_Remove m txs j) !! tx_Hash tx = None.
Proof.
  intros Hin. unfold Mempool_Remove.
  assert (forall l p h, m_all (fst p) !! h = None -> m_all (fst (fold_left removeTx l p)) !! h = None) as Hkeep.
  { induction l as [|t l IH]; intros [m0 fl] h Hp; [done|]. cbn [fold_left]. apply IH. unfold removeTx, dropLocked. cbn [fst] in *.
    destruct (bool_decide _), (Sender t); cbn; by rewrite lookup_delete_None; right. }
  assert (m_all (fst (fold_left removeTx txs (m, false))) !! tx_Hash tx = None) as Hn.
  { generalize (m, false). induction txs as [|t txs IH]; intros p; [by apply not_elem_of_nil in Hin|]. cbn [fold_left].
    apply elem_of_cons in Hin as [<-|Hin]; [|by apply IH]. apply Hkeep. destruct p as [m0 fl]. unfold removeTx, dropLocked. cbn [fst].
    destruct (bool_decide _), (Sender tx); cbn; by rewrite lookup_delete_None; left. }
  by destruct (fold_left removeTx txs (m, false)) as [m' [|]], j.
Qed.

Lemma Remove_one m tx j :
  m_all (Mempool_Remove m [tx] j) = delete (tx_Hash tx) (m_all m)
  /\ byAcct (Mempool_Remove m [tx] j) = byAcct (dropLocked m tx).
Proof.
  unfold Mempool_Remove. cbn [fold_left removeTx]. unfold dropLocked.
  destruct (bool_decide _); cbn [orb]; destruct (Sender tx), j; done.
Qed.

(** A mined transaction takes the queue entry of a pooled rival with its sender and nonce. *)
Lemma Remove_strands_lemma m tx rival a j :
  pool_inv m -> Sender tx = Ok a -> Sender rival = Ok a -> tx_Nonce rival = tx_Nonce tx ->
  tx_Hash rival <> tx_Hash tx -> m_all m !! tx_Hash rival = Some rival -> stranded (Mempool_Remove m [tx] j) rival.
Proof.
  intros Hi Hs Hr Hn Hh Hl. destruct (Remove_one m tx j) as [E1 E2]. split.
  - by rewrite E1, lookup_delete_ne.
  - intros b bn n. rewrite E2. unfold dropLocked. rewrite Hs. cbn [with_index byAcct]. intros Hb Hk.
    destruct (dropNonce_lookup _ _ _ _ _ _ _ Hb Hk) as (bn0 & Hb0 & Hk0 & Hne & _).
    destruct (pi_acct m Hi b bn0 n rival Hb0 Hk0) as (Hsb & <- & _). apply Hne; congruence.
Qed.

Lemma Demote_stranded m s tx : pool_inv m -> stranded m tx -> stranded (snd (Demote m s)) tx.
Proof.
  intros Hi [Hl Hq]. split.
  - cbn [Demote snd with_index m_all]. apply lookup_foldr_delete. split; [done|]. apply Forall_forall.
    intros t (a & bn & n & Hb & Hk & _)%elem_of_dropped Eh.
    destruct (pi_acct m Hi a bn n t Hb Hk) as (_ & _ & Hlt). rewrite Eh, Hl in Hlt. injection Hlt as <-. by apply (Hq a bn n Hb).
  - intros a bn' n (bn & Hb & ->)%Demote_acct [Hk _]%map_lookup_filter_Some. by apply (Hq a bn n Hb).
Qed.

(** [Pending] offers only queued transactions. *)
Lemma pendingGroups_queued s accts gs g tx :
  (forall a, is_u64 (State_Nonce s a)) -> pendingGroups s accts = Some gs -> g ∈ gs -> tx ∈ g ->
  exists a bn n, (a, bn) ∈ accts /\ bn !! n = Some tx.
Proof.
  intros Hs. revert gs. induction accts as [|[a bn] accts IH]; intros gs; cbn [pendingGroups]; [by intros [= <-] ?%elem_of_nil|].
  destruct (runFrom _ bn _) as [run|] eqn:Er; [|done]. destruct (pendingGroups s accts) as [gs'|]; [|done]. intros E Hg Htx.
  assert (g = run \/ g ∈ gs') as [->|Hin].
  { injection E as <-. destruct (0 <? len run); [|by right]. by apply elem_of_cons in Hg. }
  - apply list_elem_of_lookup_1 in Htx as [i Hi]. destruct (runFrom_run _ _ _ _ (Hs a) Er) as [Hrun _].
    exists a, bn, (nonceAt (State_Nonce s a) i). split; [by left|by apply Hrun].
  - destruct (IH gs' eq_refl Hin Htx) as (b & bn' & n & Hb & Hn). exists b, bn', n. split; [by right|done].
Qed.

Lemma insertGroup_perm g gs gs' : insertGroup g gs = Ok gs' -> gs' ≡ₚ g :: gs.
Proof.
  revert gs'. induction gs as [|h gs IH]; intros gs'; cbn [insertGroup]; [by intros [= <-]|].
  destruct (headPrice g) as [p| |], (headPrice h) as [q| |]; try done. cbn [res_bind]. destruct (p <? q); [|by intros [= <-]].
  destruct (insertGroup g gs) as [r| |]; try done. intros [= <-]. rewrite (IH r) by done. apply perm_swap.
Qed.

Lemma sortGroups_perm gs gs' : sortGroups gs = Ok gs' -> gs' ≡ₚ gs.
Proof.
  revert gs'. induction gs as [|g gs IH]; intros gs'; cbn [sortGroups]; [by intros [= <-]|].
  destruct (sortGroups gs) as [r| |]; try done. cbn [res_bind]. intros ->%insertGroup_perm. by rewrite (IH r).
Qed.

Lemma Pending_queued m s lim it out tx :
  (forall a, is_u64 (State_Nonce s a)) -> Pending m s lim it = Some (Ok out) -> tx ∈ out ->
  exists a bn n, byAcct m !! a = Some bn /\ bn !! n = Some tx.
Proof.
  intros Hs. unfold Pending. destruct (pendingGroups s _) as [gs|] eqn:Eg; [|done].
  destruct (sortGroups gs) as [gs'| |] eqn:Es; try done. cbn [res_bind]. intros [= <-] Hin%packTxs_sub.
  apply list_elem_of_In, in_concat in Hin as (g & Hg%list_elem_of_In & Htx%list_elem_of_In).
  rewrite (sortGroups_perm _ _ Es) in Hg. destruct (pendingGroups_queued s _ gs g tx Hs Eg Hg Htx) as (a & bn & n & Hb & Hn).
  exists a, bn, n. split; [|done]. by rewrite ord_accts_perm, elem_of_map_to_list in Hb.
Qed.

(** ** A transaction that no block can hold *)

Lemma pendingGroups_complete s accts gs a bn tx :
  pendingGroups s accts = Some gs -> (a, bn) ∈ accts -> bn !! State_Nonce s a = Some tx ->
  exists g, g ∈ gs /\ head g = Some tx.
Proof.
  revert gs. induction accts as [|[b bn'] accts IH]; intros gs; cbn [pendingGroups]; [by intros _ ?%elem_of_nil|].
  destruct (runFrom _ bn' _) as [run|] eqn:Er; [|done]. destruct (pendingGroups s accts) as [gs'|]; [|done].
  intros E [[= -> ->]|Hin]%elem_of_cons Htx.
  - cbn [runFrom] in Er. rewrite Htx in Er. destruct (runFrom _ bn' _) as [r|]; [|done]. injection Er as <-.
    rewrite len_cons in E. pose proof (len_nonneg r). destruct (Z.ltb_spec 0 (1 + len r)); [|lia]. injection E as <-.
    exists (tx :: r). split; [by left|done].
  - destruct (IH gs' eq_refl Hin Htx) as (g & Hg & Hh). exists g. split; [|done]. injection E as <-.
    destruct (0 <? len run); [by right|done].
Qed.

(** The best-paid executable transaction asks for more gas than a block has: nothing is offered. *)
Lemma oversized_lemma m s lim it a bn tx p :
  pool_inv m -> (forall a, is_u64 (State_Nonce s a)) ->
  byAcct m !! a = Some bn -> bn !! State_Nonce s a = Some tx -> tx_GasPrice tx = Some p ->
  (forall h t q, m_all m !! h = Some t -> Sender t <> Ok a -> tx_GasPrice t = Some q -> q < p) ->
  lim < tx_GasLimit tx -> is_u64 (tx_GasLimit tx) -> Pending m s lim it = Some (Ok []).
Proof.
  intros Hi Hs Hb Htx Hp Hmax Hlim Hu. unfold Pending.
  destruct (pendingGroups_ok m s (ord_accts it (byAcct m)) Hi Hs) as (ps & Eg & Hnd & Hall & _).
  { rewrite ord_accts_perm. apply NoDup_fst_map_to_list. }
  { intros b bn'. rewrite ord_accts_perm. apply elem_of_map_to_list. }
  rewrite Eg. destruct (sortGroups_ok ps.*2) as (gs & -> & Hperm & Hsort).
  { apply Forall_fmap. eapply Forall_impl; [exact Hall|]. intros q. by apply (sender_run_priced m s). }
  cbn [res_bind]. do 2 f_equal.
  destruct (pendingGroups_complete s _ _ a bn tx Eg) as (g & Hg & Hh);
    [by rewrite ord_accts_perm, elem_of_map_to_list|done|]. rewrite <- Hperm in Hg.
  destruct gs as [|g1 gs]; [by apply elem_of_nil in Hg|].
  assert (g1 ∈ ps.*2) as Hg1 by (rewrite <- Hperm; by left).
  pose proof Hg1 as ([a1 g1'] & Eg1 & Hin1)%list_elem_of_fmap. cbn in Eg1. subst g1'.
  rewrite Forall_forall in Hall. destruct (Hall _ Hin1) as (Hne & Hmem & Hnon). cbn [fst snd] in Hne, Hmem, Hnon.
  destruct g1 as [|t1 g1]; [done|]. apply Forall_cons in Hmem as [[Hs1 Hl1] _].
  destruct (pi_acct m Hi a bn _ tx Hb Htx) as (Hsx & _ & _).
  destruct (pi_all m Hi _ _ Hl1) as (_ & _ & [q Hq] & _).
  assert (t1 = tx) as ->.
  { destruct (decide (a1 = a)) as [->|Hna].
    - destruct (pendingGroups_queued s _ _ (t1 :: g1) t1 Hs Eg Hg1 ltac:(by left)) as (b & bn' & n & Hb' & Hn').
      rewrite ord_accts_perm, elem_of_map_to_list in Hb'. destruct (pi_acct m Hi b bn' n t1 Hb' Hn') as (Hsb & <- & _).
      assert (b = a) as -> by congruence. assert (bn' = bn) as -> by congruence.
      apply (f_equal head) in Hnon. cbn in Hnon. rewrite nonceAt_0 in Hnon by apply Hs. congruence.
    - specialize (Hmax _ t1 q Hl1 ltac:(congruence) Hq). apply StronglySorted_inv in Hsort as [_ Hle].
      apply elem_of_cons in Hg as [->|Hg]; [by injection Hh as ->|]. rewrite Forall_forall in Hle. specialize (Hle g Hg).
      destruct g as [|tg g]; [done|]. injection Hh as ->. unfold rank in Hle. cbn in Hle. rewrite Hp, Hq in Hle. cbn in Hle. lia. }
  cbn [concat app packTxs]. rewrite Z.add_0_l. unfold u64. rewrite Z.mod_small by apply Hu.
  destruct (Z.ltb_spec lim (tx_GasLimit tx)); [done|lia].
Qed.

End Proofs.

(** * Properties of the mempool, with a concrete pool *)
#[local] Existing Instance toyCrypto.

(** ** A concrete pool *)

Definition listOrder : mapOrder :=
  {| ord_all := map_to_list; ord_nonces := map_to_list; ord_accts := map_to_list;
     ord_all_perm := fun _ => Permutation_refl _; ord_nonces_perm := fun _ => Permutation_refl _;
     ord_accts_perm := fun _ => Permutation_refl _ |}.

Definition poolTx (nonce : Z) (to : Address) (price : Z) : Transaction :=
  mkTx TxTypeTransfer 7 nonce (Some to) (Some 5) 60000 (Some price) [] (x1b :: replicate 64 x01).

(** Three transactions of [toySender]: two rivals for nonce 3, and nonce 4. *)
Definition poolA : Transaction := poolTx 3 toyContract 2.
Definition poolB : Transaction := poolTx 3 toyMiner 2.
Definition poolC : Transaction := poolTx 4 toyContract 9.

Definition isToy (tx : Transaction) : Prop := tx = poolA \/ tx = poolB \/ tx = poolC.

Lemma isToy_inj a b : isToy a -> isToy b -> tx_Hash a = tx_Hash b -> a = b.
Proof. intros [->|[->| ->]] [->|[->| ->]] E; try done; apply (f_equal abytes) in E; vm_compute in E; discriminate E. Qed.

Definition poolOne : Mempool := fst (Mempool_add (Mempool_New 1) poolA 7 true listOrder).

Lemma poolOne_reachable : pool_reachable isToy 1 poolOne.
Proof. eapply PR_step; [apply PR_new|]. apply PS_add. by left. Qed.

Lemma toyState_nonces a : is_u64 (State_Nonce toyState a).
Proof. apply wa_nonce. apply wf_Get, toyState_wf. Qed.

(** ** Properties *)

(** C35: Whatever sequence of additions, journal replays, removals, demotions, re-injections and floor changes
    a pool goes through, in whatever order its maps are walked, and even when an addition panics: it
    never holds more transactions than its size, no account queues more than 64, every transaction is filed
    under its hash and has a sender, and every entry of the account index is a pooled transaction, filed
    under its own sender and nonce.  The converse does not hold: a pooled transaction may be in no
    account's queue ([Remove_strands]). *)
Theorem mempool_bounded `{Crypto} T size m :
  (forall a b, T a -> T b -> tx_Hash a = tx_Hash b -> a = b) -> pool_reachable T size m ->
  Mempool_Len m <= Z.max 0 size
  /\ (forall a bn, byAcct m !! a = Some bn -> Z.of_nat (base.size bn) <= maxPerAccount)
  /\ (forall h tx, Mempool_Get m h = Some tx -> tx_Hash tx = h /\ exists a, Sender tx = Ok a)
  /\ (forall a bn n tx, byAcct m !! a = Some bn -> bn !! n = Some tx ->
        Sender tx = Ok a /\ tx_Nonce tx = n /\ Mempool_Get m (tx_Hash tx) = Some tx).
Proof.
  intros HT Hr. destruct (reachable_inv T HT size m Hr) as [[Ha Hc Hn Hs] <-]. split_and!; try done.
  intros h tx Hl. destruct (Ha h tx Hl) as (? & _ & _ & ?). done.
Qed.

Lemma mempool_bounded_witness : Mempool_Len poolOne <= 1 /\ Mempool_Get poolOne (tx_Hash poolA) = Some poolA.
Proof.
  destruct (mempool_bounded isToy 1 poolOne isToy_inj poolOne_reachable) as (Hlen & _).
  split; [exact Hlen|vm_compute; reflexivity].
Defined.

(** C34: Selection gives a producer only what can execute, and all of it that fits.  On any reachable pool and any state,
    [Pending] ends without a panic.  Its batch is a prefix of the senders' runs laid end to end: each sender with a
    transaction queued at its account's nonce has one run, which is everything queued for it from that nonce up to the
    first gap, and the senders come by the price of their first transaction.  So every transaction of the batch is pooled
    and those of one sender carry exactly the consecutive nonces from the account's, in order.  The batch ends at the
    first transaction that would take the sum of the gas limits, kept in 64 bits, beyond the block's; that sum fits, and
    it is the true sum as long as every pooled limit is below 2^64 less the block's. *)
Theorem Pending_executable `{Crypto} T size m s lim it :
  (forall a b, T a -> T b -> tx_Hash a = tx_Hash b -> a = b) -> pool_reachable T size m ->
  (forall a, is_u64 (State_Nonce s a)) -> 0 <= lim ->
  exists out qs rest, Pending m s lim it = Some (Ok out)
    /\ Forall (fun tx => Mempool_Get m (tx_Hash tx) = Some tx) out
    /\ (forall a, exists k, tx_Nonce <$> filter (sentBy a) out = nonceAt (State_Nonce s a) <$> seq 0 k)
    /\ NoDup qs.*1 /\ Forall (whole_run m s) qs /\ (forall a, is_Some (queued m a (State_Nonce s a)) -> a ∈ qs.*1)
    /\ by_price qs.*2 /\ concat qs.*2 = out ++ rest
    /\ u64 (gasLimits out) <= lim
    /\ match rest with [] => True | tx :: _ => lim < u64 (gasLimits out + tx_GasLimit tx) end
    /\ ((forall h tx, Mempool_Get m h = Some tx -> 0 <= tx_GasLimit tx < 2 ^ 64 - lim) -> gasLimits out <= lim).
Proof.
  intros HT Hr Hs Hlim. destruct (reachable_inv T HT size m Hr) as [Hi _].
  destruct (Pending_ok T HT m s lim it Hi Hs Hlim) as (out & qs & rest & E & [] & Hg). by exists out, qs, rest.
Qed.

(** Nonces 3 and 4 of one sender, of which a block of gas limit 100000 holds the first. *)
Definition poolTwo : Mempool := fst (Mempool_add (fst (Mempool_add (Mempool_New 5) poolA 7 true listOrder)) poolC 7 true listOrder).

Lemma poolTwo_reachable : pool_reachable isToy 5 poolTwo.
Proof.
  eapply PR_step; [eapply PR_step; [apply PR_new|]|].
  - apply PS_add. by left.
  - apply PS_add. by right; right.
Qed.

Lemma Pending_executable_witness :
  exists out, Pending poolTwo toyState 100000 listOrder = Some (Ok out) /\ out = [poolA] /\ gasLimits out <= 100000.
Proof.
  destruct (Pending_executable isToy 5 poolTwo toyState 100000 listOrder isToy_inj poolTwo_reachable toyState_nonces)
    as (out & qs & rest & E & _ & _ & _ & _ & _ & _ & _ & _ & _ & Hg).
  - lia.
  - exists out. split; [exact E|]. split.
    + assert (Pending poolTwo toyState 100000 listOrder = Some (Ok [poolA])) as E' by (vm_compute; reflexivity). congruence.
    + apply Hg. intros h tx Hl. destruct (reachable_inv isToy isToy_inj 5 poolTwo poolTwo_reachable) as [Hi _].
      destruct (pi_all isToy poolTwo Hi h tx Hl) as (_ & [->|[->| ->]] & _); vm_compute; intuition congruence.
Defined.

(** [Remove] strands the rivals of a mined transaction.  When a block mines one of two transactions with
    the same sender and nonce and the pool holds the other, [Remove] takes the queue entry and leaves
    the pooled transaction: it then holds a slot, is never offered, and no [Demote], against any state,
    drops it, although [Demote] is there for exactly these. *)
Theorem Remove_strands `{Crypto} T size m tx rival a j :
  (forall a b, T a -> T b -> tx_Hash a = tx_Hash b -> a = b) -> pool_reachable T size m -> T tx ->
  Sender tx = Ok a -> Sender rival = Ok a -> tx_Nonce rival = tx_Nonce tx -> tx_Hash rival <> tx_Hash tx ->
  Mempool_Get m (tx_Hash rival) = Some rival ->
  let m' := Mempool_Remove m [tx] j in
  forall s, Mempool_Get (snd (Demote m' s)) (tx_Hash rival) = Some rival
    /\ (forall b bn n, byAcct (snd (Demote m' s)) !! b = Some bn -> bn !! n <> Some rival)
    /\ forall lim it out, (forall a, is_u64 (State_Nonce s a)) -> Pending m' s lim it = Some (Ok out) -> rival ∉ out.
Proof.
  intros HT Hr Htx Hs Hrs Hn Hh Hl m' s. destruct (reachable_inv T HT size m Hr) as [Hi _].
  pose proof (Remove_strands_lemma T m tx rival a j Hi Hs Hrs Hn Hh Hl) as Hst.
  destruct (Remove_inv T HT m [tx] j Hi) as [Hi' _]; [by repeat constructor|].
  destruct (Demote_stranded T m' s rival Hi' Hst) as [H1 H2]. split_and!; [done|done|].
  intros lim it out Hu E Hin. destruct (Pending_queued m' s lim it out rival Hu E Hin) as (b & bn & n & Hb & Hbn).
  destruct Hst as [_ Hq]. by apply (Hq b bn n Hb).
Qed.

Lemma Remove_strands_witness :
  Mempool_Get (snd (Demote (Mempool_Remove poolOne [poolB] false) toyState)) (tx_Hash poolA) = Some poolA.
Proof.
  apply (Remove_strands isToy 1 poolOne poolB poolA toySender false isToy_inj poolOne_reachable).
  - right. by left.
  - vm_compute. reflexivity.
  - vm_compute. reflexivity.
  - reflexivity.
  - intros E. apply (f_equal abytes) in E. vm_compute in E. discriminate E.
  - vm_compute. reflexivity.
Defined.

(** An addition to a full pool can crash.  In a reachable pool of size one holding the only queued
    transaction of an account, a second, better paid one of the same account evicts the first, and with
    it the account's map, which is then written; and a pool whose cheapest transaction was stranded by
    [Remove] crashes on any better paid addition, having no queue to evict from. *)
Theorem full_pool_add_panics :
  pool_reachable isToy 1 poolOne /\ snd (Mempool_Add poolOne poolC 7 listOrder) = Panic
  /\ (let m := Mempool_Remove poolOne [poolB] false in
      pool_reachable isToy 1 m /\ snd (Mempool_Add m poolC 7 listOrder) = Panic).
Proof.
  split; [apply poolOne_reachable|]. split; [vm_compute; reflexivity|]. cbv zeta. split; [|vm_compute; reflexivity].
  eapply PR_step; [apply poolOne_reachable|]. apply PS_remove. constructor; [|constructor]. right. by left.
Qed.

(** One transaction that no block can hold stops selection for everyone.  If the best-paid executable
    transaction asks for more gas than the block has, [Pending] offers nothing, whatever else is pooled
    and however much room the block has for the rest. *)
Theorem oversized_blocks_selection `{Crypto} T size m s lim it a bn tx p :
  (forall a b, T a -> T b -> tx_Hash a = tx_Hash b -> a = b) -> pool_reachable T size m ->
  (forall a, is_u64 (State_Nonce s a)) ->
  byAcct m !! a = Some bn -> bn !! State_Nonce s a = Some tx -> tx_GasPrice tx = Some p ->
  (forall h t q, Mempool_Get m h = Some t -> Sender t <> Ok a -> tx_GasPrice t = Some q -> q < p) ->
  lim < tx_GasLimit tx -> is_u64 (tx_GasLimit tx) -> Pending m s lim it = Some (Ok []).
Proof. intros HT Hr. apply oversized_lemma with T; [done|]. by apply (reachable_inv T HT size m). Qed.

Lemma oversized_blocks_selection_witness : Pending poolOne toyState 50000 listOrder = Some (Ok []).
Proof.
  apply (oversized_blocks_selection isToy 1 poolOne toyState 50000 listOrder toySender {[3 := poolA]} poolA 2 isToy_inj
           poolOne_reachable toyState_nonces).
  - vm_compute. reflexivity.
  - vm_compute. reflexivity.
  - reflexivity.
  - intros h t q Hl Hn. destruct Hn. destruct (reachable_inv isToy isToy_inj 1 poolOne poolOne_reachable) as [Hi _].
    destruct (pi_all isToy poolOne Hi h t Hl) as (_ & [->|[->| ->]] & _); vm_compute; reflexivity.
  - vm_compute. reflexivity.
  - vm_compute. intuition congruence.
Defined.
