(* ===== verification/Blockchain.v ===== *)
(** * The block tree (core/blockchain.go, core/wiring.go)

    The chain over a store [D].  An operation takes the chain and returns it
    changed, with its outcome: a read that misses the cache fills it, so
    reading is such an operation too.  The fork choice is the heaviest chain,
    the clock and the orders in which Go walks the genesis allocation are
    arguments, and the reorg hook is the caller's: [InsertBlock] returns what
    it is called with.  Nil and empty slices are not told apart.  Locks are left out: each operation holds the chain's
    lock from its first access to its last. *)
From stdpp Require Import base numbers list gmap sorting.
From Stdlib Require Import ZArith Lia Strings.Byte.
From S2P Require Import Prelude Common Types VmBase Precompiles Vm State Transition Pow Genesis.
From S2P Require Import Json JsonCodec Store Schema Mempool.
#[local] Open Scope Z_scope.
#[local] Open Scope list_scope.
#[local] Open Scope go_scope.

Definition MaxFutureDriftMs : Z := 15000.
Definition DefaultRetention : Z := 128.
Definition GCInterval : Z := 4096.

Record Reorg : Type := mkReorg { CommonAncestor : Hash; Dropped : list Block; Added : list Block }.

Definition Reorg_Depth (r : Reorg) : Z := len (Dropped r).

Record Blockchain (D : Type) : Type := mkChain {
  db : D;
  chainID : Z;
  genesis : Hash;
  genesisDifficulty : Z;
  retention : Z;
  genesisSupply : Z;
  split : rewardSplit;               (* package variables of state, set from the genesis *)
  blockCache : gmap Hash Block;
  states : gmap Hash State;
  head : Block;
}.
Arguments mkChain {_} _ _ _ _ _ _ _ _ _ _.
Arguments db {_} _.
Arguments chainID {_} _.
Arguments genesis {_} _.
Arguments genesisDifficulty {_} _.
Arguments retention {_} _.
Arguments genesisSupply {_} _.
Arguments split {_} _.
Arguments blockCache {_} _.
Arguments states {_} _.
Arguments head {_} _.

Definition with_db {D} (d : D) (bc : Blockchain D) : Blockchain D :=
  mkChain d (chainID bc) (genesis bc) (genesisDifficulty bc) (retention bc) (genesisSupply bc) (split bc)
    (blockCache bc) (states bc) (head bc).

Definition with_caches {D} (bs : gmap Hash Block) (ss : gmap Hash State) (bc : Blockchain D) : Blockchain D :=
  mkChain (db bc) (chainID bc) (genesis bc) (genesisDifficulty bc) (retention bc) (genesisSupply bc) (split bc)
    bs ss (head bc).

Definition with_head {D} (b : Block) (bc : Blockchain D) : Blockchain D :=
  mkChain (db bc) (chainID bc) (genesis bc) (genesisDifficulty bc) (retention bc) (genesisSupply bc) (split bc)
    (blockCache bc) (states bc) b.

(** ** Operations on the chain *)

Definition op (D A : Type) : Type := Blockchain D -> Blockchain D * callres error A.

Definition op_ret {D A} (a : A) : op D A := fun bc => (bc, Returns a).
Definition op_fail {D A} (e : error) : op D A := fun bc => (bc, Raises e).
Definition op_panic {D A} : op D A := fun bc => (bc, Panics).
Definition op_fuel {D A} : op D A := fun bc => (bc, OutOfFuel).

Definition op_bind {D A B} (c : op D A) (k : A -> op D B) : op D B := fun bc =>
  match c bc with
  | (bc, Returns a) => k a bc
  | (bc, Raises e) => (bc, Raises e)
  | (bc, Panics) => (bc, Panics)
  | (bc, OutOfFuel) => (bc, OutOfFuel)
  end.

Definition op_res {D A} (r : res A) : op D A := fun bc =>
  (bc, match r with Ok a => Returns a | Err e => Raises e | Panic => Panics end).

Definition op_call {D A} (r : callres error A) : op D A := fun bc => (bc, r).

Definition op_get {D A} (f : Blockchain D -> A) : op D A := fun bc => (bc, Returns (f bc)).

Definition op_modify {D} (f : Blockchain D -> Blockchain D) : op D unit := fun bc => (f bc, Returns tt).

(** An error, whatever it is, becomes [e]. *)
Definition op_else {D A} (c : op D A) (e : error) : op D A := fun bc =>
  match c bc with (bc, Raises _) => (bc, Raises e) | r => r end.

Declare Scope chain_scope.
Delimit Scope chain_scope with chain.
Notation "'let#' x := c 'in' k" := (op_bind c (fun x => k))
  (at level 10, x pattern, c at level 200, k at level 200) : chain_scope.
#[local] Open Scope chain_scope.

Section Blockchain.
Context `{Crypto} `{Bn256} {D : Type} `{KV D}.

(** The batch commits, or nothing is written and the error is returned. *)
Definition commit (b : Batch) : op D unit := fun bc =>
  match KV_Commit (db bc) b with
  | (d, Ok _) => (with_db d bc, Returns tt)
  | (d, Err e) => (with_db d bc, Raises e)
  | (d, Panic) => (with_db d bc, Panics)
  end.

(** ** Reading *)

Definition blockLocked (h : Hash) : op D Block := fun bc =>
  match blockCache bc !! h with
  | Some b => (bc, Returns b)
  | None =>
      match loadBlock (db bc) h with
      | Err ErrNotFound => (bc, Raises ErrUnknownBlock)
      | Err e => (bc, Raises e)
      | Panic => (bc, Panics)
      | Ok b => (with_caches (<[h := b]> (blockCache bc)) (states bc) bc, Returns b)
      end
  end.

Definition BlockByHash (h : Hash) : op D Block := blockLocked h.

Definition HasBlock (bc : Blockchain D) (h : Hash) : bool :=
  match blockCache bc !! h with Some _ => true | None => KV_Has (db bc) (blockKey h) end.

Definition unknown_if_absent {A} (r : res A) : res A :=
  match r with Err ErrNotFound => Err ErrUnknownBlock | r => r end.

Definition BlockByHeight (n : Z) : op D Block :=
  let# d := op_get db in
  let# h := op_res (unknown_if_absent (getHash d (canonicalKey n))) in
  blockLocked h.

Definition IsCanonical (h : Hash) : op D bool := fun bc =>
  match blockLocked h bc with
  | (bc, Returns b) =>
      (bc, match getHash (db bc) (canonicalKey (Block_Height b)) with
           | Ok got => Returns (array_eqb got h)
           | Err _ => Returns false
           | Panic => Panics
           end)
  | (bc, Raises _) => (bc, Returns false)
  | (bc, Panics) => (bc, Panics)
  | (bc, OutOfFuel) => (bc, OutOfFuel)
  end.

(** Where a transaction is, as the index has it. *)
Definition locate (h : Hash) : op D TxLocation :=
  let# d := op_get db in
  let# data := op_res (match KV_Get d (txIndexKey h) with Err ErrNotFound => Err ErrUnknownTx | r => r end) in
  op_res (decodeJSON locationC data).

(** [int(loc.Index) >= len(l)], or the element; a negative index panics. *)
Definition atIndex {A} (l : list A) (i : Z) : op D A :=
  if len l <=? i64 i then op_fail ErrUnknownTx
  else match (if i64 i <? 0 then None else l !! Z.to_nat (i64 i)) with
       | Some a => op_ret a
       | None => op_panic
       end.

Definition TxByHash (h : Hash) : op D (Transaction * TxLocation) :=
  let# loc := locate h in
  let# blk := blockLocked (BlockHash loc) in
  let# tx := atIndex (b_Txs blk) (Index loc) in
  op_ret (tx, loc).

Definition ReceiptsByHeight (n : Z) : op D (list Receipt * Block) :=
  let# blk := BlockByHeight n in
  let# d := op_get db in
  let# rs := op_res (loadReceipts d (Block_Hash blk)) in
  op_ret (rs, blk).

Definition ReceiptByTxHash (h : Hash) : op D (Receipt * TxLocation) :=
  let# loc := locate h in
  let# d := op_get db in
  let# rs := op_else (op_res (loadReceipts d (BlockHash loc))) ErrUnknownTx in
  let# r := atIndex rs (Index loc) in
  op_ret (r, loc).

(** The state at the head; a missing one is a nil pointer. *)
Definition headState (bc : Blockchain D) : res State := or_panic (states bc !! Block_Hash (head bc)).

Definition StateSnapshot (bc : Blockchain D) : res State := let? s := headState bc in Ok (State_Copy s).

Definition BalanceAt (bc : Blockchain D) (addr : Address) : res Z := let? s := headState bc in Ok (State_Balance s addr).
Definition NonceAt (bc : Blockchain D) (addr : Address) : res Z := let? s := headState bc in Ok (State_Nonce s addr).
Definition CodeAt (bc : Blockchain D) (addr : Address) : res (list byte) := let? s := headState bc in Ok (State_GetCode s addr).
Definition StorageAt (bc : Blockchain D) (addr : Address) (key : Hash) : res Hash :=
  let? s := headState bc in Ok (State_GetStorage s addr key).

Definition StateAt (h : Hash) : op D State := fun bc =>
  match states bc !! h with
  | Some s => (bc, Returns (State_Copy s))
  | None =>
      match blockLocked h bc with
      | (bc, Returns _) => (bc, Raises ErrPrunedState)
      | (bc, Raises _) => (bc, Raises ErrUnknownBlock)
      | (bc, Panics) => (bc, Panics)
      | (bc, OutOfFuel) => (bc, OutOfFuel)
      end
  end.

(** Σ balances + burned against the genesis supply and what has been issued. *)
Definition CheckConservation (bc : Blockchain D) : callres error unit :=
  match headState bc, CumulativeIssued (Block_Height (head bc)) with
  | Ok st, Some issued =>
      if SumBalances st + Burned st =? genesisSupply bc + issued then Returns tt else Raises ErrConservation
  | Ok _, None => OutOfFuel
  | _, _ => Panics
  end.

(** [None]: the nil state of a head without one panics. *)
Definition chain_Call (bc : Blockchain D) (from to : Address) (data : list byte) (gas : Z) :=
  match StateSnapshot bc with Ok s => Some (Call s from to data gas) | _ => None end.

Definition chain_EstimateGas (bc : Blockchain D) (from : Address) (to : option Address) (data : list byte) (value : option Z) :=
  match StateSnapshot bc with Ok s => Some (EstimateGas s from to data value 30000000) | _ => None end.

(** ** Difficulty *)

(** The [n] headers before [cur], oldest first, in front of [acc]; [None]: an ancestor is missing. *)
Fixpoint ancestors (n : nat) (cur : Header) (acc : list Header) : op D (option (list Header)) :=
  match n with
  | O => op_ret (Some acc)
  | S n => fun bc =>
      match blockLocked (ParentHash cur) bc with
      | (bc, Returns b) => ancestors n (b_Header b) (b_Header b :: acc) bc
      | (bc, Raises _) => (bc, Returns None)
      | (bc, Panics) => (bc, Panics)
      | (bc, OutOfFuel) => (bc, OutOfFuel)
      end
  end.

Definition requiredDifficultyLocked (parent : Header) : op D Z :=
  let w := i64 (Height parent) in
  let w := if LwmaWindow <? w then LwmaWindow else w in
  if w <? 2 then op_get genesisDifficulty
  else
    let# window := ancestors (Z.to_nat w) parent [parent] in
    match window with
    | None => op_get genesisDifficulty
    | Some window => op_res (lwmaDifficulty window)
    end.

Definition RequiredDifficulty (parent : Header) : op D Z := requiredDifficultyLocked parent.

(** ** Pruning *)

(** The blocks below [cutoff] that the table holds, other than the genesis; a stored nil header panics. *)
Fixpoint belowCutoff (entries : list (list byte * list byte)) (genesis : Hash) (cutoff : Z) : res (list (Hash * Z)) :=
  match entries with
  | [] => Ok []
  | (key, value) :: rest =>
      if negb (len key =? 1 + Z.of_nat HashLength) then belowCutoff rest genesis cutoff
      else
        let h := array_of HashLength (tail key) in
        if array_eqb h genesis then belowCutoff rest genesis cutoff
        else match decodeJSON rawBlockC value with
        | Ok raw =>
            match rb_Header raw with
            | None => Panic
            | Some header =>
                let? below := belowCutoff rest genesis cutoff in
                Ok (if Height header <? cutoff then (h, Height header) :: below else below)
            end
        | _ => belowCutoff rest genesis cutoff
        end
  end.

Definition gcDelete (d : D) (b : Batch) (x : Hash * Z) : Batch :=
  match getHash d (canonicalKey (snd x)) with
  | Ok canon =>
      if array_eqb canon (fst x) then b
      else Batch_Delete (Batch_Delete (Batch_Delete (Batch_Delete b (blockKey (fst x))) (receiptsKey (fst x)))
             (revDiffKey (fst x))) (tdKey (fst x))
  | _ => Batch_Delete (Batch_Delete (Batch_Delete (Batch_Delete b (blockKey (fst x))) (receiptsKey (fst x)))
           (revDiffKey (fst x))) (tdKey (fst x))
  end.

(** The commit's error is ignored. *)
Definition gcOrphans (cutoff : Z) : op D unit := fun bc =>
  match belowCutoff (KV_Iterate (db bc) [prefixBlock]) (genesis bc) cutoff with
  | Ok below =>
      let batch := fold_left (gcDelete (db bc)) below [] in
      if 0 <? len batch then
        match commit batch bc with
        | (bc, Panics) => (bc, Panics)
        | (bc, _) => (bc, Returns tt)
        end
      else (bc, Returns tt)
  | Err e => (bc, Returns tt)
  | Panic => (bc, Panics)
  end.

(** The states and cached blocks that survive a cutoff. *)
Definition liveStates (bs : gmap Hash Block) (ss : gmap Hash State) (cutoff : Z) : gmap Hash State :=
  filter (fun p => match bs !! fst p with Some b => cutoff <=? Block_Height b | None => false end = true) ss.

Definition liveBlocks (bs : gmap Hash Block) (genesis : Hash) (cutoff : Z) : gmap Hash Block :=
  filter (fun p => cutoff <= Block_Height (snd p) \/ fst p = genesis) bs.

Definition prune : op D unit := fun bc =>
  if Block_Height (head bc) <=? retention bc then (bc, Returns tt)
  else
    let cutoff := u64 (Block_Height (head bc) - retention bc) in
    let bc := with_caches (liveBlocks (blockCache bc) (genesis bc) cutoff)
                (liveStates (blockCache bc) (states bc) cutoff) bc in
    if Block_Height (head bc) mod GCInterval =? 0 then gcOrphans cutoff bc else (bc, Returns tt).

(** ** Moving the head *)

(** Memory follows the disk once the batch is committed. *)
Definition publish (b : Block) (s : State) (bc : Blockchain D) : Blockchain D :=
  with_head b (with_caches (<[Block_Hash b := b]> (blockCache bc)) (<[Block_Hash b := s]> (states bc)) bc).

Definition extend (b : Block) (receipts : list Receipt) (newState : State) (touched : list Address) (td : Z) : op D unit :=
  let batch := putTD (writeBlock [] b receipts) (Block_Hash b) td in
  let# ss := op_get states in
  match ss !! ParentHash (b_Header b) with
  | None => op_fail ErrPrunedState
  | Some prev =>
      let batch := writeAccountChanges batch b newState prev touched in
      let batch := putHash batch (canonicalKey (Block_Height b)) (Block_Hash b) in
      let batch := indexTxs batch b in
      let batch := putHash batch keyHead (Block_Hash b) in
      let batch := putBigInt batch keyBurned (Some (Burned newState)) in
      let# _ := commit batch in
      let# _ := op_modify (publish b newState) in
      prune
  end.

Definition parentOf (b : Block) : op D Block := op_else (blockLocked (ParentHash (b_Header b))) ErrUnknownParent.

(** The first two loops of [findFork]: walk [a] down to height [n], collecting what is passed. *)
Fixpoint walkDown (fuel : nat) (a : Block) (n : Z) (acc : list Block) : op D (Block * list Block) :=
  match fuel with
  | O => op_fuel
  | S f =>
      if n <? Block_Height a then let# p := parentOf a in walkDown f p n (acc ++ [a])
      else op_ret (a, acc)
  end.

(** The third: both sides together, down to a common block. *)
Fixpoint walkBoth (fuel : nat) (a b : Block) (dropped added : list Block) : op D (list Block * list Block * Hash) :=
  match fuel with
  | O => op_fuel
  | S f =>
      if negb (array_eqb (Block_Hash a) (Block_Hash b)) then
        if Block_Height a =? 0 then op_fail ErrNoCommonAncestor
        else
          let# a' := parentOf a in
          let# b' := parentOf b in
          walkBoth f a' b' (dropped ++ [a]) (added ++ [b])
      else op_ret (dropped, added, Block_Hash a)
  end.

(** Each round goes down one block, so the heights bound the rounds. *)
Definition findFork (oldHead newHead : Block) : op D (list Block * list Block * Hash) :=
  let fuel := S (Z.to_nat (Block_Height oldHead + Block_Height newHead)) in
  let# (a, dropped) := walkDown fuel oldHead (Block_Height newHead) [] in
  let# (b, added) := walkDown fuel newHead (Block_Height a) [] in
  let# (dropped, added, ancestor) := walkBoth fuel a b dropped added in
  op_ret (rev dropped, rev added, ancestor).

(** Undo a block of the abandoned branch. *)
Definition unwindBlock (d : D) (batch : Batch) (blk : Block) : res Batch :=
  let? batch := applyReverseDiff d batch (Block_Hash blk) in
  let batch := fold_left (fun b tx => Batch_Delete b (txIndexKey (tx_Hash tx))) (b_Txs blk) batch in
  Ok (Batch_Delete batch (canonicalKey (Block_Height blk))).

(** [blocks] newest first. *)
Fixpoint unwind (d : D) (batch : Batch) (blocks : list Block) : res Batch :=
  match blocks with
  | [] => Ok batch
  | blk :: rest => let? batch := unwindBlock d batch blk in unwind d batch rest
  end.

(** Apply the new branch, oldest first; the state of the new head is not in the map yet. *)
Fixpoint rewind (ss : gmap Hash State) (newHead : Block) (newState : State) (batch : Batch) (blocks : list Block) : res Batch :=
  match blocks with
  | [] => Ok batch
  | blk :: rest =>
      match (if array_eqb (Block_Hash blk) (Block_Hash newHead) then Some newState else ss !! Block_Hash blk) with
      | None => Err ErrPrunedState
      | Some st =>
          match ss !! ParentHash (b_Header blk) with
          | None => Err ErrPrunedState
          | Some prev =>
              let batch := writeAccountChanges batch blk st prev (Touched st) in
              let batch := putHash batch (canonicalKey (Block_Height blk)) (Block_Hash blk) in
              rewind ss newHead newState (indexTxs batch blk) rest
          end
      end
  end.

Definition reorg (newHead : Block) (receipts : list Receipt) (newState : State) (td : Z) : op D Reorg :=
  let# oldHead := op_get head in
  let# (dropped, added, ancestor) := findFork oldHead newHead in
  let# limit := op_get retention in
  if limit <? len dropped then op_fail ErrReorgTooDeep
  else
    let batch := putTD (writeBlock [] newHead receipts) (Block_Hash newHead) td in
    let# d := op_get db in
    let# batch := op_res (unwind d batch (rev dropped)) in
    let# ss := op_get states in
    let# batch := op_res (rewind ss newHead newState batch added) in
    let batch := putHash batch keyHead (Block_Hash newHead) in
    let batch := putBigInt batch keyBurned (Some (Burned newState)) in
    let# _ := commit batch in
    let# _ := op_modify (publish newHead newState) in
    let# _ := prune in
    op_ret (mkReorg ancestor dropped added).

(** ** Inserting a block *)

(** The checks that need no state; the block with its nil pointers ruled out, and its parent. *)
Definition checkBlock (raw : rawBlock) (header : Header) (now : Z) : op D (Block * Block) :=
  match allTxs (rb_Txs raw) with
  | None => op_fail ErrNilTx
  | Some txs =>
      let b := mkBlock header txs in
      let# parent := op_else (blockLocked (ParentHash header)) ErrUnknownParent in
      if i64 (now + MaxFutureDriftMs) <? Timestamp header then op_fail ErrFutureBlock
      else
        let# want := requiredDifficultyLocked (b_Header parent) in
        if negb (Difficulty header =? want) then op_fail ErrBadDifficulty
        else if negb (satisfiesPoW header) then op_fail ErrBadPoW
        else if negb (VerifyTxRoot b) then op_fail ErrBadTxRoot
        else
          let# id := op_get chainID in
          match fold_left (fun r tx => let? _ := r in SanityCheck tx id) txs (Ok tt) with
          | Ok _ => op_ret (b, parent)
          | Err e => op_fail e
          | Panic => op_panic
          end
  end.

(** A valid block that does not win is kept with its state and its work. *)
Definition keepSide (b : Block) (receipts : list Receipt) (newState : State) (td : Z) : op D unit :=
  let# _ := commit (putTD (writeBlock [] b receipts) (Block_Hash b) td) in
  op_modify (fun bc => with_caches (<[Block_Hash b := b]> (blockCache bc)) (<[Block_Hash b := newState]> (states bc)) bc).

(** A nil header panics when the block is hashed. *)
Definition insert (raw : rawBlock) (now : Z) : op D (option Reorg) :=
  match rb_Header raw with
  | None => op_panic
  | Some header =>
      let h := Header_Hash header in
      let# known := op_get (fun bc => KV_Has (db bc) (blockKey h)) in
      if known then op_fail ErrKnownBlock
      else
        let# cached := op_get (fun bc => bool_decide (is_Some (blockCache bc !! h))) in
        if cached then op_fail ErrKnownBlock
        else
          let# (b, parent) := checkBlock raw header now in
          let# ss := op_get states in
          match ss !! Block_Hash parent with
          | None => op_fail ErrReorgTooDeep
          | Some parentState =>
              let# rs := op_get split in
              let# (newState, receipts) := op_call (ApplyBlock rs parentState b (Some (b_Header parent))) in
              let# d := op_get db in
              let# parentTD := op_res (getTD d (Block_Hash parent)) in
              let td := parentTD + Difficulty header in
              let# cur := op_get head in
              let# headTD := op_res (getTD d (Block_Hash cur)) in
              if negb (Better (mkTip header td) (mkTip (b_Header cur) headTD)) then
                let# _ := keepSide b receipts newState td in op_ret None
              else if array_eqb (ParentHash header) (Block_Hash cur) then
                let# _ := extend b receipts newState (Touched newState) td in op_ret None
              else
                let# r := reorg b receipts newState td in op_ret (Some r)
          end
  end.

(** What is returned is what the reorg hook is called with. *)
Definition InsertBlock (raw : rawBlock) (now : Z) : op D (option Reorg) := insert raw now.

(** ** Opening a chain *)

Definition initialise (g : Genesis) (order order' : list (Address * option Z)) : op D unit :=
  let# (genesisState, genesisBlock) := op_res (Build g order) in
  let hash := Block_Hash genesisBlock in
  let b := putUint64 [] keySchema schemaVersion in
  let b := putUint64 b keyChainID (g_ChainID g) in
  let b := putHash b keyGenesis hash in
  let b := writeBlock b genesisBlock [] in
  let b := putHash b (canonicalKey 0) hash in
  let b := putTD b hash (Difficulty (b_Header genesisBlock)) in
  let genesisState := ClearTouched genesisState in
  let b := fold_left (fun b p => Batch_Put b (accountKey (fst p))
                                   (encodeJSON accountC (toStored (State_Get genesisState (fst p))))) order' b in
  let b := Batch_Put b (revDiffKey hash) (encodeJSON diffC (mkDiff [] None)) in
  let b := putHash b keyHead hash in
  let# _ := commit b in
  op_modify (publish genesisBlock genesisState).

(** One account as the reverse diff has it. *)
Definition restoreEntry (s : State) (e : storedDiffEntry) : State :=
  if negb (de_Existed e) then RestoreAccount s (de_Address e) 0 None ∅ []
  else RestoreAccount s (de_Address e) (de_Nonce e) (de_Balance e) (de_Storage e) (de_Code e).

Definition parentState (cur : State) (diff : storedDiff) : State :=
  let parent := fold_left restoreEntry (Entries diff) (State_Copy cur) in
  let parent := match BurnDelta diff with Some d => SetBurned parent (Some (Burned cur - d)) | None => parent end in
  ClearTouched parent.

(** [i] of the [retention] rounds are left; anything missing or inconsistent ends the walk. *)
Fixpoint rebuildWindow (i : nat) (curBlock : Block) (cur : State) : op D unit :=
  match i with
  | O => op_ret tt
  | S i =>
      if Block_Height curBlock <=? 0 then op_ret tt
      else fun bc =>
        match loadStoredDiff (db bc) (Block_Hash curBlock), loadBlock (db bc) (ParentHash (b_Header curBlock)) with
        | Ok diff, Ok parentBlock =>
            let parent := parentState cur diff in
            if negb (array_eqb (Root parent) (StateRoot (b_Header parentBlock))) then (bc, Returns tt)
            else
              let h := Block_Hash parentBlock in
              rebuildWindow i parentBlock parent
                (with_caches (<[h := parentBlock]> (blockCache bc)) (<[h := parent]> (states bc)) bc)
        | Ok _, Panic | Panic, _ => (bc, Panics)
        | _, _ => (bc, Returns tt)
        end
  end.

Definition resume : op D unit :=
  let# d := op_get db in
  let# version := op_res (getUint64 d keySchema) in
  if negb (version =? schemaVersion) then op_fail ErrSchema
  else
    let# storedGenesis := op_res (getHash d keyGenesis) in
    let# g := op_get genesis in
    if negb (array_eqb storedGenesis g) then op_fail ErrWrongChain
    else
      let# storedChainID := op_res (getUint64 d keyChainID) in
      let# id := op_get chainID in
      if negb (storedChainID =? id) then op_fail ErrWrongChain
      else
        let# headHash := op_res (getHash d keyHead) in
        let# head := op_res (loadBlock d headHash) in
        let# st := op_res (loadState d) in
        let# burned := op_res (getBigInt d keyBurned) in
        let st := SetBurned st (Some burned) in
        if negb (array_eqb (Root st) (StateRoot (b_Header head))) then op_fail ErrCorrupt
        else
          let# _ := op_modify (publish head st) in
          let# limit := op_get retention in
          rebuildWindow (Z.to_nat limit) head st.

(** [order k] is the order of the [k]-th walk over the allocation.  The chain starts with a nil
    head, which neither branch reads before it is set: the genesis block stands for it here. *)
Definition NewBlockchain (d : D) (g : Genesis) (limit : Z) (order : nat -> list (Address * option Z))
    : callres error (Blockchain D) * D :=
  let limit := if limit =? 0 then DefaultRetention else limit in
  match Validate g (order 0%nat) with
  | Err e => (Raises e, d)
  | Panic => (Panics, d)
  | Ok _ =>
      match Build g (order 1%nat) with
      | Err e => (Raises e, d)
      | Panic => (Panics, d)
      | Ok (genesisState, genesisBlock) =>
          let bc := mkChain d (g_ChainID g) (Block_Hash genesisBlock) (Difficulty (b_Header genesisBlock)) limit
                      (SumBalances genesisState) (genesisSplit g) ∅ ∅ genesisBlock in
          match (if KV_Has d keyHead then resume else initialise g (order 2%nat) (order 3%nat)) bc with
          | (bc, Returns _) => (Returns bc, db bc)
          | (bc, Raises e) => (Raises e, db bc)
          | (bc, Panics) => (Panics, db bc)
          | (bc, OutOfFuel) => (OutOfFuel, db bc)
          end
      end
  end.

Definition Retention (bc : Blockchain D) : Z := retention bc.

Definition Head (bc : Blockchain D) : Block := head bc.

Definition StateCount (bc : Blockchain D) : Z := Z.of_nat (size (states bc)).

(** ** Wiring (wiring.go) *)

(** The reorg hook: the abandoned branch comes back to the pool first, then the new branch leaves it.
    [its k] gives the map orders of the [k]-th block put back. *)
Fixpoint reinjectAll (pool : Mempool) (blocks : list Block) (chainID : Z) (its : nat -> nat -> mapOrder) : Mempool * res unit :=
  match blocks with
  | [] => (pool, Ok tt)
  | blk :: rest =>
      match Reinject pool (b_Txs blk) chainID 0 (its O) with
      | (pool, Ok _) => reinjectAll pool rest chainID (fun k => its (S k))
      | (pool, Err e) => (pool, Err e)
      | (pool, Panic) => (pool, Panic)
      end
  end.

Definition BindMempool (pool : Mempool) (r : Reorg) (chainID : Z) (journal : bool) (its : nat -> nat -> mapOrder)
    : Mempool * res unit :=
  match reinjectAll pool (Dropped r) chainID its with
  | (pool, Ok _) => (fold_left (fun pool blk => Mempool_Remove pool (b_Txs blk) journal) (Added r) pool, Ok tt)
  | r => r
  end.

End Blockchain.

(** An error panics. *)
Definition NewMemBlockchain `{Crypto} `{Bn256} (g : Genesis) (order : nat -> list (Address * option Z))
    : callres error (Blockchain Memory) :=
  match fst (NewBlockchain NewMemory g 0 order) with Raises _ => Panics | r => r end.
