(* ===== verification/ChainInv.v ===== *)
(** * The invariant of the block tree

    What holds of the store, of the caches and of the canonical chain of a
    node that has run since its store was empty, and that reading keeps it.
    [P] is a set of headers the node meets, no two of which share a hash; [F]
    is a height below which states are no longer held. *)
From stdpp Require Import base numbers list gmap sorting.
From Stdlib Require Import ZArith Lia Strings.Byte.
From S2P Require Import Prelude Common Types VmBase Precompiles Vm VmProofs State StateProofs StateInv Transition BlockProofs.
From S2P Require Import BlockProofs Pow Genesis Json JsonCodec Store Schema SchemaProofs Blockchain.
#[local] Open Scope Z_scope.
#[local] Open Scope list_scope.
#[local] Open Scope go_scope.
#[local] Open Scope chain_scope.

(** What an accepted header satisfies: machine widths, sane times, a height and a gas limit far below the
    width of their field. *)
Record sane_header (h : Header) : Prop := {
  sh_wf : wf_header h;
  sh_lwma : lwma_header h;
  sh_gas : 0 < h_GasLimit h <= maxGas;
  sh_height : Height h < 2 ^ 63;
}.

Section ChainInv.
Context `{Crypto} `{Bn256} {D : Type} `{KVLaws D}.
Context (P : Header -> Prop) (gb : Block).

(** The difficulty that the rules derive for a child of the first header of [line], a parent followed by its ancestors: LWMA
    over the window, or that of the genesis block, for a young chain or one whose ancestors are not held. *)
Definition required (line : list Header) (d : Z) : Prop :=
  d = Difficulty (b_Header gb)
  \/ exists p l, line = p :: l /\ lwmaDifficulty (rev (take (S (Z.to_nat (Z.min LwmaWindow (Height p)))) line)) = Ok d.

(** The latest date of a block: what the drift check lets through at a clock in range. *)
Definition maxTime : Z := 2 ^ 62 + 2 ^ 60.

Definition clockRange (now : Z) : Prop := - 2 ^ 63 <= now <= 2 ^ 62.

(** A chain with its work done, newest first and down to the genesis block: every header follows the one before it by the
    rules, is dated no later than the drift check allows, and meets the target of the difficulty that is required there. *)
Inductive mined : list Header -> Prop :=
  | mined_genesis : mined [b_Header gb]
  | mined_child h p l :
      mined (p :: l) -> P h -> checkParent h p = Ok tt -> Timestamp h <= maxTime ->
      required (p :: l) (Difficulty h) -> satisfiesPoW h = true -> mined (h :: p :: l).

(** The assumptions on [P], the headers a node meets, from whoever: fields of machine width, no two headers with the same
    hash, and that nobody mines a chain so long that its height nears the width of its field, or one whose gas limit,
    which moves by less than a thousandth a block, is voted above 2^60.  A header that is not mined is not restricted. *)
Class headers : Prop := {
  P_wf : forall h, P h -> wf_header h;
  P_inj : forall h h', P h -> P h' -> Header_Hash h = Header_Hash h' -> h = h';
  P_grow : forall h p l, mined (h :: p :: l) -> h_GasLimit h <= maxGas /\ Height h < 2 ^ 63;
}.
Context `{!headers}.

(** A transaction as a block may carry it. *)
Definition good_tx (tx : Transaction) : Prop := tx_widths tx /\ sound_tx tx.

Record goodBlock (b : Block) : Prop := {
  gk_header : P (b_Header b);
  gk_sane : sane_header (b_Header b);
  gk_txs : Forall good_tx (b_Txs b);
}.

(** A block that is on disk. *)
Definition stored (C : gmap (list byte) (list byte)) (b : Block) : Prop :=
  C !! blockKey (Block_Hash b) = Some (encodeJSON rawBlockC (toRaw b)) /\ goodBlock b.

(** Its accumulated work, as recorded. *)
Definition work (C : gmap (list byte) (list byte)) (b : Block) (td : Z) : Prop :=
  C !! tdKey (Block_Hash b) = Some (be_min td) /\ 0 <= td.

(** A block that was accepted on top of a header. *)
Definition accepted (b : Block) : Prop :=
  exists ph, P ph /\ ParentHash (b_Header b) = Header_Hash ph /\ Height (b_Header b) = Height ph + 1
    /\ Timestamp ph < Timestamp (b_Header b) /\ satisfiesPoW (b_Header b) = true /\ VerifyTxRoot b = true
    /\ MinBlockGasLimit <= h_GasLimit (b_Header b) /\ exists l, mined (b_Header b :: ph :: l).

(** The receipts of a block's transactions, one each, as its header commits to them; gas bounds their number,
    and every transaction has a sender. *)
Definition receiptsOf (b : Block) (rs : list Receipt) : Prop :=
  Forall receipt_widths rs /\ ReceiptRoot rs = h_ReceiptRoot (b_Header b) /\ length rs = length (b_Txs b)
  /\ len rs <= h_GasLimit (b_Header b) /\ Forall (fun tx => exists a, Sender tx = Ok a) (b_Txs b).

Definition receipts_kept (C : gmap (list byte) (list byte)) (b : Block) : Prop :=
  exists rs, C !! receiptsKey (Block_Hash b) = Some (encodeJSON (listC receiptC) rs) /\ receiptsOf b rs.

(** An entry of the transaction index is the place of that transaction in a block of [l]. *)
Definition indexed (l : list Block) (h : Hash) (v : list byte) : Prop :=
  exists b i tx, b ∈ l /\ b_Txs b !! i = Some tx /\ tx_Hash tx = h /\ v = encodeJSON locationC (locationOf b i).

Record store_inv (F : Z) (C : gmap (list byte) (list byte)) : Prop := {
  si_keys : forall k, is_Some (C !! k) -> goodKey k;
  si_blocks : forall h, is_Some (C !! blockKey h) -> exists b, stored C b /\ Block_Hash b = h;
  si_genesis : stored C gb;
  si_base : work C gb (Difficulty (b_Header gb));
  si_td : forall b, stored C b -> exists td, work C b td;
  si_accepted : forall b, stored C b -> b <> gb -> accepted b;
  si_link : forall b, stored C b -> b <> gb ->
    (exists p, stored C p /\ ParentHash (b_Header b) = Block_Hash p) \/ Block_Height b <= F;
  si_work : forall b p td ptd, stored C b -> b <> gb -> stored C p -> ParentHash (b_Header b) = Block_Hash p ->
    work C b td -> work C p ptd -> td = ptd + Difficulty (b_Header b);
  si_receipts : forall b, stored C b -> receipts_kept C b;
}.

(** A state held for a block. *)
Record state_ok (supply0 : Z) (b : Block) (s : State) : Prop := {
  so_wf : wf_state s;
  so_snapshots : snapshots s = [];
  so_root : Root s = StateRoot (b_Header b);
  so_supply : supply s = supply0 + issued (Z.to_nat (Block_Height b));
}.

(** The accounts [s] and [p] differ in are touched. *)
Definition covers (l : list Address) (s p : State) : Prop := forall a, a ∉ l -> accounts s !! a = accounts p !! a.

Record mem_inv (F : Z) (bc : Blockchain D) : Prop := {
  mi_cache : forall h b, blockCache bc !! h = Some b -> Block_Hash b = h /\ stored (contents (db bc)) b;
  mi_states : forall h s, states bc !! h = Some s ->
    exists b, blockCache bc !! h = Some b /\ F <= Block_Height b /\ state_ok (genesisSupply bc) b s;
  mi_all : forall b, stored (contents (db bc)) b -> F <= Block_Height b -> is_Some (states bc !! Block_Hash b);
  mi_step : forall b s p, stored (contents (db bc)) b -> b <> gb -> states bc !! Block_Hash b = Some s ->
    states bc !! ParentHash (b_Header b) = Some p -> covers (Touched s) s p;
}.

(** Blocks that follow each other, from [p] up. *)
Fixpoint linked (p : Block) (l : list Block) : Prop :=
  match l with
  | [] => True
  | b :: l => ParentHash (b_Header b) = Block_Hash p /\ Block_Height b = Block_Height p + 1 /\ linked b l
  end.

(** The burn total on disk. *)
Definition burn_stored (C : gmap (list byte) (list byte)) (z : Z) : Prop :=
  C !! keyBurned = Some (be_min z) \/ C !! keyBurned = None /\ z = 0.

(** The canonical chain is the genesis and then [canon]. *)
Record canon_inv (canon : list Block) (bc : Blockchain D) : Prop := {
  ci_linked : linked gb canon;
  ci_stored : Forall (stored (contents (db bc))) (gb :: canon);
  ci_last : last (gb :: canon) = Some (head bc);
  ci_index : forall b, b ∈ gb :: canon -> contents (db bc) !! canonicalKey (Block_Height b) = Some (abytes (Block_Hash b));
  ci_above : forall n, Block_Height (head bc) < n < 2 ^ 64 -> contents (db bc) !! canonicalKey n = None;
  ci_head : contents (db bc) !! keyHead = Some (abytes (Block_Hash (head bc)));
  ci_table : forall s, states bc !! Block_Hash (head bc) = Some s ->
    table (contents (db bc)) (accounts s) /\ burn_stored (contents (db bc)) (Burned s);
  ci_diff : forall b s ps, b ∈ canon -> states bc !! Block_Hash b = Some s -> states bc !! ParentHash (b_Header b) = Some ps ->
    exists l, contents (db bc) !! revDiffKey (Block_Hash b) = Some (encodeJSON diffC (diffOf s ps l)) /\ covers l s ps;
  ci_best : forall b td htd, stored (contents (db bc)) b -> work (contents (db bc)) b td ->
    work (contents (db bc)) (head bc) htd -> Better (mkTip (b_Header b) td) (mkTip (b_Header (head bc)) htd) = false;
  ci_txs : forall h v, contents (db bc) !! txIndexKey h = Some v -> indexed canon h v;
}.

(** The configuration, and what names it on disk. *)
Record config_inv (bc : Blockchain D) : Prop := {
  cf_genesis : genesis bc = Block_Hash gb;
  cf_height : Block_Height gb = 0;
  cf_retention : 0 < retention bc < 2 ^ 64;
  cf_split : TreasuryRewardBasisPoints (split bc) <= 10000;
  cf_chainID : is_u64 (chainID bc);
  cf_difficulty : genesisDifficulty bc = Difficulty (b_Header gb);
  cf_schema : contents (db bc) !! keySchema = Some (be_fixed 8 schemaVersion);
  cf_genesisKey : contents (db bc) !! keyGenesis = Some (abytes (genesis bc));
  cf_chainKey : contents (db bc) !! keyChainID = Some (be_fixed 8 (chainID bc));
}.

Record inv (F : Z) (canon : list Block) (bc : Blockchain D) : Prop := {
  inv_store : store_inv F (contents (db bc));
  inv_mem : mem_inv F bc;
  inv_canon : canon_inv canon bc;
  inv_config : config_inv bc;
  inv_headState : is_Some (states bc !! Block_Hash (head bc));
}.

Lemma head_stored F canon bc : inv F canon bc -> stored (contents (db bc)) (head bc).
Proof.
  intros Hi. destruct (inv_canon _ _ _ Hi) as [_ Cs Ca _ _ _ _ _ _ _]. rewrite Forall_forall in Cs. apply Cs.
  apply last_Some in Ca as [l' ->]. set_solver.
Qed.

(** ** Mined chains *)

Lemma mined_P l h : P (b_Header gb) -> mined l -> h ∈ l -> P h.
Proof. intros Hg. induction 1 as [|h' p l _ IH HP]; [by intros ->%list_elem_of_singleton|]. intros [->|Hin]%elem_of_cons; auto. Qed.

(** The height is the number of blocks below. *)
Lemma mined_height h l : Height (b_Header gb) = 0 -> mined (h :: l) -> Height h = len l.
Proof.
  intros Hg. revert h. induction l as [|p l IH]; intros h Hm; inversion Hm as [|? ? ? Hp HP Hck _ _ _]; subst; [done|].
  specialize (IH p Hp). destruct (P_grow h p l Hm) as [_ Hh]. unfold checkParent in Hck.
  destruct (array_eqb _ _); [|done]. cbn [negb] in Hck. destruct (Z.eqb_spec (Height h) (u64 (Height p + 1))) as [E|]; [|done].
  rewrite len_cons. pose proof (len_nonneg l). assert (Height p < 2 ^ 63).
  { inversion Hp as [|? p2 l2 Hp2 _ _ _ _ _]; subst; [lia|]. by apply (P_grow p p2 l2). }
  rewrite E, u64_small; lia.
Qed.

Lemma mined_link h p l : mined (h :: p :: l) -> mined (p :: l) /\ ParentHash h = Header_Hash p.
Proof.
  intros Hm. inversion Hm as [|? ? ? Hp _ Hck _ _ _]; subst. split; [done|]. unfold checkParent in Hck.
  destruct (array_eqb_spec (ParentHash h) (Header_Hash p)); done.
Qed.

(** ** Stored blocks *)

Lemma toRaw_widths b : goodBlock b -> raw_widths (toRaw b).
Proof.
  intros [_ Hs Ht]. split; cbn.
  - intros h [= <-]. apply Hs.
  - rewrite Forall_map. eapply Forall_impl; [exact Ht|]. intros tx [Htx _] tx' [= <-]. done.
Qed.

Lemma allTxs_some l : allTxs (map Some l) = Some l.
Proof. induction l as [|tx l IH]; [done|]. cbn. by rewrite IH. Qed.

Lemma decode_stored b : goodBlock b -> decodeJSON rawBlockC (encodeJSON rawBlockC (toRaw b)) = Ok (toRaw b).
Proof. intros Hb. apply (decode_encode rawBlockC _ _ rawBlockC_ok), toRaw_widths, Hb. Qed.

Lemma load_stored d b : stored (contents d) b -> loadBlock d (Block_Hash b) = Ok b.
Proof.
  intros [Hb Hg]. unfold loadBlock. rewrite Get_law, Hb. cbn [res_bind]. rewrite decode_stored by done. cbn [res_bind].
  cbn [toRaw rb_Header rb_Txs]. change (Header_Hash (b_Header b)) with (Block_Hash b).
  destruct (array_eqb_spec (Block_Hash b) (Block_Hash b)); [|done]. cbn [negb]. rewrite allTxs_some. by destruct b.
Qed.

(** One hash, one block. *)
Lemma stored_inj C b b' : stored C b -> stored C b' -> Block_Hash b = Block_Hash b' -> b = b'.
Proof.
  intros [Hb Hg] [Hb' Hg'] E. rewrite E in Hb. rewrite Hb in Hb'.
  assert (encodeJSON rawBlockC (toRaw b) = encodeJSON rawBlockC (toRaw b')) as Ej by (by apply (inj Some) in Hb').
  pose proof (decode_stored b Hg) as Hd. rewrite Ej, decode_stored in Hd by done. unfold toRaw in Hd. injection Hd as Eh Et.
  destruct b, b'. cbn in *. f_equal; [congruence|]. by apply (inj (fmap (M := list) Some)) in Et.
Qed.

(** A block sits one above its parent. *)
Lemma accepted_height b p : accepted b -> goodBlock p -> ParentHash (b_Header b) = Block_Hash p ->
  Block_Height b = Block_Height p + 1.
Proof.
  intros (ph & Hp & Eh & Ht & _) [Hg _] E. rewrite E in Eh. apply P_inj in Eh; [|done..]. unfold Block_Height. by rewrite Eh, Ht.
Qed.

Lemma accepted_pos b : accepted b -> 0 < Block_Height b.
Proof.
  intros (ph & Hp & _ & Ht & _). destruct (P_wf _ Hp) as [Hh _ _ _ _ _]. unfold Block_Height, is_u64 in *. lia.
Qed.

Lemma stored_height C b : stored C b -> 0 <= Block_Height b < 2 ^ 63.
Proof. intros [_ [_ [[Hh _ _ _ _ _] _ _ Hm] _]]. unfold Block_Height, is_u64 in *. lia. Qed.

Lemma work_inj C b td td' : work C b td -> work C b td' -> td = td'.
Proof. intros [E1 Ht1] [E2 Ht2]. rewrite E1 in E2. apply (inj Some) in E2. by apply be_min_inj. Qed.

Lemma getTD_ok d b td : work (contents d) b td -> getTD d (Block_Hash b) = Ok td.
Proof. intros [E Ht]. unfold getTD. rewrite Get_law, E. cbn. rewrite be2z_be_min. f_equal. lia. Qed.

Lemma getHash_ok d k h : contents d !! k = Some (abytes h) -> getHash d k = Ok h.
Proof.
  intros E. unfold getHash, HashFromBytes. rewrite Get_law, E. cbn [res_bind]. rewrite len_abytes, Z.eqb_refl. cbn [negb].
  by rewrite array_of_abytes.
Qed.

(** ** Reading *)

(** Nothing but the cache of blocks differs. *)
Definition same (bc bc' : Blockchain D) : Prop := bc' = with_caches (blockCache bc') (states bc) bc.

Lemma same_refl bc : same bc bc.
Proof. by destruct bc. Qed.

Lemma same_trans bc bc' bc'' : same bc bc' -> same bc' bc'' -> same bc bc''.
Proof. unfold same. intros E1 E2. rewrite E2, E1. done. Qed.

Lemma same_fields bc bc' : same bc bc' ->
  db bc' = db bc /\ chainID bc' = chainID bc /\ genesis bc' = genesis bc /\ genesisDifficulty bc' = genesisDifficulty bc
  /\ retention bc' = retention bc /\ genesisSupply bc' = genesisSupply bc /\ split bc' = split bc
  /\ states bc' = states bc /\ head bc' = head bc.
Proof. unfold same. intros ->. done. Qed.

Lemma inv_cache F canon bc b :
  inv F canon bc -> stored (contents (db bc)) b -> blockCache bc !! Block_Hash b = None ->
  inv F canon (with_caches (<[Block_Hash b := b]> (blockCache bc)) (states bc) bc).
Proof.
  intros [Hs [Mc Ms Ma Mt] Hc [] Hh] Hb Hn. split; [done| |by destruct Hc|done|done].
  split; cbn [with_caches blockCache states db genesisSupply]; try done.
  - intros h b' [[<- <-]|[_ Hl]]%lookup_insert_Some; [done|by apply Mc].
  - intros h s Hl. destruct (Ms h s Hl) as (b' & Hb' & HF). exists b'. split; [|done].
    rewrite lookup_insert_ne; [done|]. intros <-. by rewrite Hn in Hb'.
Qed.

Section Reading.
Context (F : Z) (canon : list Block) (bc0 : Blockchain D).

(** From a chain that is [bc0] but for its cache, an operation that only reads: it keeps the
    invariant, ends, and does not panic; [Q] of what it returns. *)
Definition reads {A} (c : op D A) (Q : A -> Prop) : Prop := forall bc,
  same bc0 bc -> inv F canon bc ->
  let '(bc', r) := c bc in
  inv F canon bc' /\ same bc0 bc' /\ match r with Returns a => Q a | Raises _ => True | _ => False end.

Lemma reads_ret {A} (a : A) (Q : A -> Prop) : Q a -> reads (op_ret a) Q.
Proof. intros HQ bc Hs Hi. done. Qed.

Lemma reads_fail {A} e (Q : A -> Prop) : reads (op_fail e) Q.
Proof. intros bc Hs Hi. done. Qed.

Lemma reads_res {A} (r : res A) (Q : A -> Prop) :
  match r with Ok a => Q a | Err _ => True | Panic => False end -> reads (op_res r) Q.
Proof. intros HQ bc Hs Hi. unfold op_res. by destruct r. Qed.

Lemma reads_get {A} (f : Blockchain D -> A) :
  (forall bc, same bc0 bc -> f bc = f bc0) -> reads (op_get f) (fun a => a = f bc0).
Proof. intros Hf bc Hs Hi. unfold op_get. split_and!; [done..|by apply Hf]. Qed.

Lemma reads_bind {A B} (c : op D A) (k : A -> op D B) Q R :
  reads c Q -> (forall a, Q a -> reads (k a) R) -> reads (op_bind c k) R.
Proof.
  intros Hc Hk bc Hs Hi. specialize (Hc bc Hs Hi). unfold op_bind. destruct (c bc) as [bc' [a|e| |]].
  - destruct Hc as (Hi' & Hs' & HQ). exact (Hk a HQ bc' Hs' Hi').
  - done.
  - by destruct Hc as (_ & _ & []).
  - by destruct Hc as (_ & _ & []).
Qed.

Lemma reads_else {A} (c : op D A) e Q : reads c Q -> reads (op_else c e) Q.
Proof.
  intros Hc bc Hs Hi. specialize (Hc bc Hs Hi). unfold op_else. by destruct (c bc) as [bc' [a|e'| |]].
Qed.

Lemma blockLocked_reads h : reads (blockLocked h) (fun b => stored (contents (db bc0)) b /\ Block_Hash b = h).
Proof.
  intros bc Hsm Hi. destruct (same_fields _ _ Hsm) as (Ed & _). unfold blockLocked.
  destruct (blockCache bc !! h) as [b|] eqn:E.
  { destruct (mi_cache _ _ (inv_mem _ _ _ Hi) h b E) as [Eh Hb]. rewrite Ed in Hb. by split_and!. }
  pose proof (inv_store _ _ _ Hi) as Hs. destruct (contents (db bc) !! blockKey h) as [v|] eqn:Ek.
  - destruct (si_blocks _ _ Hs h) as (b & Hb & Eh); [by exists v|]. rewrite <- Eh, load_stored by done.
    rewrite <- Eh in E. split_and!; [by apply inv_cache| |by rewrite <- Ed|done].
    eapply same_trans; [exact Hsm|]. done.
  - assert (loadBlock (db bc) h = Err ErrNotFound) as -> by (unfold loadBlock; rewrite Get_law, Ek; done). by split_and!.
Qed.

(** ** Difficulty *)

Lemma ancestors_reads n cur acc :
  Forall sane_header acc ->
  reads (ancestors n cur acc) (fun r => forall w, r = Some w -> length w = (n + length acc)%nat /\ Forall sane_header w
    /\ forall l, mined (cur :: l) -> (n <= length l)%nat -> w = rev (take n l) ++ acc).
Proof.
  revert cur acc. induction n as [|n IH]; intros cur acc Ha; cbn [ancestors].
  - apply reads_ret. by intros w [= <-].
  - intros bc Hs Hi. pose proof (blockLocked_reads (ParentHash cur) bc Hs Hi) as Hb.
    destruct (blockLocked _ bc) as [bc' [b|e| |]].
    + destruct Hb as (Hi' & Hs' & [Hst [HPb Hp _]] & Eb).
      pose proof (IH (b_Header b) (b_Header b :: acc) ltac:(by constructor) bc' Hs' Hi') as Hr.
      destruct (ancestors n _ _ bc') as [bc'' [r|e| |]]; try done. destruct Hr as (? & ? & Hr). split_and!; [done..|].
      intros w Hw. destruct (Hr w Hw) as (-> & Hf & Hl). split_and!; [cbn; lia|done|].
      intros l Hm Hn. destruct l as [|p l]; [cbn in Hn; lia|]. destruct (mined_link _ _ _ Hm) as [Hm' Ep].
      assert (b_Header b = p) as E.
      { apply P_inj; [done|eapply mined_P; [|exact Hm'|by left]; apply (si_genesis _ _ (inv_store _ _ _ Hi))|]. by rewrite <- Ep. }
      rewrite E in Hl. rewrite (Hl l Hm') by (cbn in Hn; lia). cbn [take rev]. by rewrite <- app_assoc.
    + by destruct Hb as (? & ? & _).
    + by destruct Hb as (_ & _ & []).
    + by destruct Hb as (_ & _ & []).
Qed.

Lemma requiredDifficulty_reads parent :
  sane_header parent -> reads (requiredDifficultyLocked parent) (fun d => forall l, mined (parent :: l) -> required (parent :: l) d).
Proof.
  intros Hp. unfold requiredDifficultyLocked.
  set (w := if LwmaWindow <? i64 (Height parent) then LwmaWindow else i64 (Height parent)).
  assert (i64 (Height parent) = Height parent) as Ei by (destruct Hp as [[Hh _ _ _ _ _] _ _ Hm]; unfold is_u64 in Hh; apply i64_small; lia).
  assert (LwmaWindow = 45) as EL by done. assert (w = Z.min LwmaWindow (Height parent)) as Ew
    by (unfold w; rewrite Ei; destruct (Z.ltb_spec LwmaWindow (Height parent)); lia).
  assert (reads (op_get genesisDifficulty) (fun d => forall l, mined (parent :: l) -> required (parent :: l) d)) as Hget.
  { intros bc Hs Hi. unfold op_get. split_and!; [done..|]. intros l _. left. apply (cf_difficulty _ (inv_config _ _ _ Hi)). }
  destruct (Z.ltb_spec w 2) as [|Hw2]; [exact Hget|].
  intros bc Hs Hi. assert (Height (b_Header gb) = 0) as Hg0 by apply (cf_height _ (inv_config _ _ _ Hi)). revert bc Hs Hi.
  eapply reads_bind; [apply ancestors_reads, Forall_singleton, Hp|].
  intros [window|] Hwin; [|exact Hget]. destruct (Hwin window eq_refl) as (Hl & Hf & Hline).
  destruct window as [|h0 rest]; [cbn in Hl; lia|].
  destruct (lwma_bounds_lemma h0 rest) as (d & Ed & _); [|unfold len; cbn in Hl; lia|].
  { eapply Forall_impl; [exact Hf|]. by intros h []. }
  apply reads_res. rewrite Ed. intros l Hm. right. exists parent, l. split; [done|]. rewrite <- Ed. f_equal.
  pose proof (mined_height parent l Hg0 Hm) as Hh. rewrite <- Ew. cbn [take rev]. symmetry. apply Hline; [done|]. unfold len in Hh. lia.
Qed.

(** ** The checks on a block that is offered *)

(** What is asked of an offered block: a header of [P], transactions at machine width with data that a
    message can carry. *)
Definition offered (raw : rawBlock) : Prop :=
  (exists h, rb_Header raw = Some h /\ P h)
  /\ Forall (fun o => forall tx, o = Some tx -> tx_widths tx /\ len (tx_Data tx) < 2 ^ 32) (rb_Txs raw).

Lemma allTxs_Forall (Q : Transaction -> Prop) l txs :
  Forall (fun o => forall tx, o = Some tx -> Q tx) l -> allTxs l = Some txs -> Forall Q txs.
Proof.
  intros Hl. revert txs. induction Hl as [|o l Ho Hl IH]; intros txs; cbn [allTxs]; [by intros [= <-]|].
  destruct o as [tx|]; [|done]. destruct (allTxs l) as [r|]; [|done]. intros [= <-]. constructor; [by apply Ho|by apply IH].
Qed.

(** What passes [SanityCheck] can be executed. *)
Lemma SanityCheck_sound tx id :
  tx_widths tx -> len (tx_Data tx) < 2 ^ 32 -> SanityCheck tx id = Ok tt -> good_tx tx.
Proof.
  intros Hw Hd Hs. split; [done|]. unfold SanityCheck in Hs. destruct (negb (isKnownTxType _)); [done|]. destruct (negb (_ =? id)); [done|].
  destruct (tx_Value tx) as [v|] eqn:Ev; [|done]. destruct (Z.ltb_spec (Z.sgn v) 0); [done|].
  destruct (tx_GasPrice tx) as [p|] eqn:Ep; [|done]. destruct (Z.ltb_spec (Z.sgn p) 0); [done|].
  destruct Hw. split; [done|done|exists v|exists p|done]; (split; [done|lia]).
Qed.

Lemma sanity_all txs id r :
  fold_left (fun r tx => let? _ := r in SanityCheck tx id) txs r = Ok tt -> r = Ok tt /\ Forall (fun tx => SanityCheck tx id = Ok tt) txs.
Proof.
  revert r. induction txs as [|tx txs IH]; intros r; cbn [fold_left]; [auto|]. intros [Hr Ht]%IH.
  destruct r as [[]| |]; try done. cbn [res_bind] in Hr. auto.
Qed.

Lemma SanityCheck_no_panic tx id : SanityCheck tx id <> Panic.
Proof.
  unfold SanityCheck. pose proof (Sender_no_panic tx).
  repeat (case_match; try done). destruct (Sender tx); done.
Qed.

Lemma sanity_no_panic txs id r :
  r <> Panic -> fold_left (fun r tx => let? _ := r in SanityCheck tx id) txs r <> Panic.
Proof.
  revert r. induction txs as [|tx txs IH]; intros r Hr; [done|]. cbn [fold_left]. apply IH.
  pose proof (SanityCheck_no_panic tx id). by destruct r.
Qed.

(** A block that passes, and its parent. *)
Record checked (C : gmap (list byte) (list byte)) (header : Header) (b p : Block) : Prop := {
  ck_header : b_Header b = header;
  ck_P : P (b_Header b);
  ck_good : Forall good_tx (b_Txs b);
  ck_parent : stored C p;
  ck_link : ParentHash (b_Header b) = Block_Hash p;
  ck_pow : satisfiesPoW (b_Header b) = true;
  ck_txs : VerifyTxRoot b = true;
  ck_time : Timestamp (b_Header b) <= maxTime;
  ck_work : forall l, mined (b_Header p :: l) -> required (b_Header p :: l) (Difficulty (b_Header b));
}.

Lemma checkBlock_reads raw header now :
  offered raw -> clockRange now -> rb_Header raw = Some header ->
  reads (checkBlock raw header now) (fun '(b, p) => checked (contents (db bc0)) header b p).
Proof.
  intros [(h & Eh & HP) Ht] Hnow Ehd. rewrite Ehd in Eh. injection Eh as <-. unfold checkBlock.
  destruct (allTxs (rb_Txs raw)) as [txs|] eqn:Etx; [|apply reads_fail]. apply (allTxs_Forall _ _ _ Ht) in Etx.
  eapply reads_bind; [apply reads_else, blockLocked_reads|]. intros p [Hp Ep].
  destruct (Z.ltb_spec (i64 (now + MaxFutureDriftMs)) (Timestamp header)) as [|Htime]; [apply reads_fail|].
  assert (Timestamp header <= maxTime) as Hmax.
  { unfold clockRange, MaxFutureDriftMs, maxTime in *. rewrite i64_small in Htime; lia. }
  eapply reads_bind; [apply requiredDifficulty_reads, Hp|]. intros want Hwant.
  destruct (Z.eqb_spec (Difficulty header) want) as [<-|]; [cbn [negb]|apply reads_fail]. destruct (satisfiesPoW header) eqn:Epow; [|apply reads_fail]. cbn [negb].
  destruct (VerifyTxRoot _) eqn:Ev; [|apply reads_fail]. cbn [negb].
  eapply reads_bind; [apply reads_get; intros bc Hs; apply (same_fields _ _ Hs)|]. intros id _.
  pose proof (sanity_no_panic txs id (Ok tt) ltac:(done)). destruct (fold_left _ txs _) as [[]| |] eqn:Es; [|apply reads_fail|done].
  apply sanity_all in Es as [_ Es]. apply reads_ret. split; try done. cbn [b_Txs]. rewrite Forall_forall in *.
  intros tx Hin. destruct (Etx tx Hin). by apply (SanityCheck_sound tx id); [..|apply Es].
Qed.

(** ** Finding the fork *)

Lemma linked_app p l l' : linked p (l ++ l') <-> linked p l /\ linked (default p (last l)) l'.
Proof.
  revert p. induction l as [|b l IH]; intros p; [cbn; tauto|]. cbn [app linked]. rewrite IH.
  rewrite last_cons. destruct (last l); cbn; tauto.
Qed.

Context (HI : inv F canon bc0) (newHead : Block).
Hypothesis new_fresh : contents (db bc0) !! blockKey (Block_Hash newHead) = None.
Hypothesis new_good : goodBlock newHead.
Hypothesis new_accepted : accepted newHead.

Abbreviation C := (contents (db bc0)).

(** A block of the canonical chain, with those above it. *)
Definition on_canon (a : Block) (above : list Block) : Prop := exists below, gb :: canon = below ++ a :: above.

(** An ancestor of the new head, with the blocks from it up. *)
Definition on_side (b : Block) (above : list Block) : Prop :=
  linked b above /\ last (b :: above) = Some newHead /\ Forall (fun x => x = newHead \/ stored C x) (b :: above).

Lemma on_canon_stored a above : on_canon a above -> stored C a.
Proof.
  intros [below E]. pose proof (ci_stored _ _ (inv_canon _ _ _ HI)) as Hs. rewrite E in Hs.
  apply Forall_app in Hs as [_ Hs]. by inversion Hs.
Qed.

Lemma parentOf_reads b :
  goodBlock b -> accepted b ->
  reads (parentOf b) (fun p => stored C p /\ ParentHash (b_Header b) = Block_Hash p /\ Block_Height b = Block_Height p + 1).
Proof.
  intros Hg Ha. apply reads_else. intros bc Hs Hi. pose proof (blockLocked_reads (ParentHash (b_Header b)) bc Hs Hi) as Hb.
  destruct (blockLocked _ bc) as [bc' [p|e| |]]; [|done..]. destruct Hb as (? & ? & Hp & Ep). split_and!; try done.
  eapply accepted_height; [done|apply Hp|done].
Qed.

(** One step down the canonical chain. *)
Lemma on_canon_step a above p :
  on_canon a above -> 0 < Block_Height a -> stored C p -> ParentHash (b_Header a) = Block_Hash p -> on_canon p (a :: above).
Proof.
  intros [below E] Ha Hp Ep. destruct (inv_canon _ _ _ HI) as [Hl Hst _ _ _ _ _ _ _ _].
  destruct (inv_config _ _ _ HI) as [_ Hg _ _ _ _ _ _ _].
  destruct below as [|g below]; [injection E as <- _; lia|]. injection E as <- E.
  assert (ParentHash (b_Header a) = Block_Hash (default gb (last below))) as Ea.
  { rewrite E in Hl. apply linked_app in Hl as [_ Hl]. apply Hl. }
  assert (exists below', gb :: below = below' ++ [default gb (last below)]) as [below' Eb].
  { destruct (last below) as [q|] eqn:El.
    - apply last_Some in El as [l' ->]. exists (gb :: l'). done.
    - apply last_None in El as ->. by exists []. }
  assert (stored C (default gb (last below))) as Hq.
  { change (gb :: below ++ a :: above) with ((gb :: below) ++ a :: above) in *.
    assert (gb :: canon = below' ++ default gb (last below) :: a :: above) as E'.
    { rewrite E. change (gb :: below ++ a :: above) with ((gb :: below) ++ a :: above). rewrite Eb, <- app_assoc. done. }
    rewrite E' in Hst. apply Forall_app in Hst as [_ Hst]. by inversion Hst. }
  rewrite Ep in Ea. apply (stored_inj C p _ Hp Hq) in Ea. exists below'. rewrite E.
  change (gb :: below ++ a :: above) with ((gb :: below) ++ a :: above). rewrite Eb, <- app_assoc, Ea. done.
Qed.

Lemma stored_accepted a : stored C a -> 0 < Block_Height a -> accepted a.
Proof.
  intros Hs Hh. apply (si_accepted _ _ (inv_store _ _ _ HI) a Hs). intros ->.
  destruct (inv_config _ _ _ HI) as [_ Hg _ _ _ _ _ _ _]. lia.
Qed.

Lemma stored_nonneg a : stored C a -> 0 <= Block_Height a.
Proof. intros Hs. apply (stored_height C a Hs). Qed.

Lemma walkDown_canon fuel a n acc :
  on_canon a (rev acc) -> 0 <= n -> Block_Height a - n < Z.of_nat fuel -> 0 < Z.of_nat fuel ->
  reads (walkDown fuel a n acc) (fun '(a', acc') => on_canon a' (rev acc') /\ Block_Height a' = Z.min n (Block_Height a)).
Proof.
  revert a acc. induction fuel as [|fuel IH]; intros a acc Hc Hn Hf Hf0; [lia|]. cbn [walkDown].
  destruct (Z.ltb_spec n (Block_Height a)) as [Hlt|Hge]; [|apply reads_ret; split; [done|lia]].
  pose proof (on_canon_stored _ _ Hc) as Hs.
  eapply reads_bind; [apply parentOf_reads; [apply Hs|apply stored_accepted; [done|lia]]|]. intros p (Hp & Ep & Eh).
  intros bc Hsm Hi. pose proof (IH p (acc ++ [a])) as IHp. rewrite rev_app_distr in IHp. cbn [rev app] in IHp.
  specialize (IHp ltac:(eapply on_canon_step; [done|lia|done|done]) Hn ltac:(lia) ltac:(lia) bc Hsm Hi).
  destruct (walkDown fuel p n _ bc) as [bc' [[a' acc']|e| |]]; try done. destruct IHp as (? & ? & ? & ->).
  split_and!; [done..|lia].
Qed.

Lemma on_side_good b above : on_side b above -> goodBlock b /\ (0 < Block_Height b -> accepted b).
Proof.
  intros (_ & _ & [[->|Hs] _]%Forall_cons); [done|]. split; [apply Hs|by apply stored_accepted].
Qed.

Lemma on_side_step b above p :
  on_side b above -> stored C p -> ParentHash (b_Header b) = Block_Hash p -> Block_Height b = Block_Height p + 1 ->
  on_side p (b :: above).
Proof. intros (Hl & Hlast & Hf) Hp Ep Eh. split_and!; [cbn; done|done|]. constructor; [by right|done]. Qed.

Lemma walkDown_side fuel b n acc :
  on_side b (rev acc) -> 0 <= n -> Block_Height b - n < Z.of_nat fuel -> 0 < Z.of_nat fuel ->
  reads (walkDown fuel b n acc) (fun '(b', acc') => on_side b' (rev acc') /\ Block_Height b' = Z.min n (Block_Height b)).
Proof.
  revert b acc. induction fuel as [|fuel IH]; intros b acc Hc Hn Hf Hf0; [lia|]. cbn [walkDown].
  destruct (Z.ltb_spec n (Block_Height b)) as [Hlt|Hge]; [|apply reads_ret; split; [done|lia]].
  destruct (on_side_good _ _ Hc) as [Hg Ha].
  eapply reads_bind; [apply parentOf_reads; [done|apply Ha; lia]|]. intros p (Hp & Ep & Eh).
  intros bc Hsm Hi. pose proof (IH p (acc ++ [b])) as IHp. rewrite rev_app_distr in IHp. cbn [rev app] in IHp.
  specialize (IHp ltac:(by apply on_side_step) Hn ltac:(lia) ltac:(lia) bc Hsm Hi).
  destruct (walkDown fuel p n _ bc) as [bc' [[a' acc']|e| |]]; try done. destruct IHp as (? & ? & ? & ->).
  split_and!; [done..|lia].
Qed.

(** A fork at [c]: what leaves the canonical chain and what joins it. *)
Definition fork_at (c : Block) (dropped added : list Block) (ancestor : Hash) : Prop :=
  on_canon c dropped /\ on_side c added /\ ancestor = Block_Hash c /\ stored C c.

Lemma genesis_height b : stored C b -> Block_Height b = 0 -> b = gb.
Proof.
  intros Hs Hh. destruct (decide (Block_Hash b = Block_Hash gb)) as [E|E].
  - by apply (stored_inj C); [|apply (si_genesis _ _ (inv_store _ _ _ HI))|].
  - assert (0 < Block_Height b); [|lia].
    apply accepted_pos, (si_accepted _ _ (inv_store _ _ _ HI) b Hs). intros ->. done.
Qed.

Lemma walkBoth_reads fuel a b dropped added :
  on_canon a (rev dropped) -> on_side b (rev added) -> Block_Height a = Block_Height b -> Block_Height a < Z.of_nat fuel ->
  reads (walkBoth fuel a b dropped added) (fun '(d, ad, anc) => exists c, fork_at c (rev d) (rev ad) anc).
Proof.
  revert a b dropped added. induction fuel as [|fuel IH]; intros a b dropped added Hc Hsd Eh Hf; cbn [walkBoth].
  { pose proof (stored_nonneg a (on_canon_stored _ _ Hc)). lia. }
  pose proof (on_canon_stored _ _ Hc) as Hs. destruct (on_side_good _ _ Hsd) as [Hg Ha].
  destruct (array_eqb_spec (Block_Hash a) (Block_Hash b)) as [E|E]; cbn [negb].
  - apply reads_ret. exists a. assert (b = newHead \/ stored C b) as [->|Hsb] by (by destruct Hsd as (_ & _ & [? _]%Forall_cons)).
    + destruct Hs as [Hs _]. rewrite E, new_fresh in Hs. done.
    + by apply (stored_inj C a b Hs Hsb) in E as <-.
  - destruct (Z.eqb_spec (Block_Height a) 0) as [Hz|Hz]; [apply reads_fail|]. pose proof (stored_nonneg a Hs).
    eapply reads_bind; [apply parentOf_reads; [apply Hs|apply stored_accepted; [done|lia]]|]. intros p (Hp & Ep & Ehp).
    eapply reads_bind; [apply parentOf_reads; [done|apply Ha; lia]|]. intros q (Hq & Eq & Ehq).
    apply IH; rewrite ?rev_app_distr; cbn [rev app]; [eapply on_canon_step; [done|lia|done|done]|by apply on_side_step|lia|lia].
Qed.

Lemma findFork_reads :
  reads (findFork (head bc0) newHead) (fun '(d, ad, anc) => exists c, fork_at c d ad anc).
Proof.
  unfold findFork. set (fuel := S _).
  assert (on_canon (head bc0) []) as Hh.
  { pose proof (ci_last _ _ (inv_canon _ _ _ HI)) as Hl. apply last_Some in Hl as [l' E]. exists l'. done. }
  pose proof (on_canon_stored _ _ Hh) as Hs. pose proof (stored_nonneg _ Hs). pose proof (accepted_pos _ new_accepted).
  assert (Block_Height (head bc0) + Block_Height newHead < Z.of_nat fuel) as Hf by (unfold fuel; lia).
  eapply reads_bind; [apply (walkDown_canon fuel (head bc0) (Block_Height newHead) []); [done|lia..]|].
  intros [a dropped] [Hca Eha]. pose proof (stored_nonneg a (on_canon_stored _ _ Hca)).
  eapply reads_bind; [apply (walkDown_side fuel newHead (Block_Height a) [])|].
  { split_and!; [done|done|]. apply Forall_singleton. by left. }
  { lia. } { lia. } { lia. }
  intros [b added] [Hsb Ehb].
  eapply reads_bind; [apply (walkBoth_reads fuel a b dropped added); [done|done|lia|lia]|].
  intros [[d ad] anc] Hfork. by apply reads_ret.
Qed.

End Reading.
End ChainInv.
