(* ===== verification/ChainMove.v ===== *)
(** * The batches that move the head

    What [unwind] and [rewind] queue, key by key: the account table goes from
    the state of the old head to the state of the new one, the canonical index
    loses the abandoned branch and gains the new one, and every block that
    joins has its reverse diff. *)
From stdpp Require Import base numbers list gmap sorting.
From Stdlib Require Import ZArith Lia Strings.Byte.
From S2P Require Import Prelude Common Types VmBase Precompiles Vm VmProofs State StateProofs StateInv Transition BlockProofs.
From S2P Require Import BlockProofs Pow Genesis Json JsonCodec Store Schema SchemaProofs Blockchain ChainInv.
#[local] Open Scope Z_scope.
#[local] Open Scope list_scope.
#[local] Open Scope go_scope.
#[local] Open Scope chain_scope.

Lemma elem_of_rev {A} (x : A) l : x ∈ rev l <-> x ∈ l.
Proof. rewrite rev_alt. apply elem_of_reverse. Qed.

(** ** Batches *)

Lemma applyBatch_last b o m : applyBatch (b ++ [o]) m = applyOp (applyBatch b m) o.
Proof. apply fold_left_app. Qed.

(** A key that the batch only deletes. *)
Lemma applyBatch_deletes b m k :
  Forall (fun o => op_key o = k -> op_value o = None) b ->
  applyBatch b m !! k = m !! k \/ applyBatch b m !! k = None.
Proof.
  intros Hb. revert m. induction Hb as [|o b Ho Hb IH]; intros m; [by left|].
  change (applyBatch (o :: b) m) with (applyBatch b (applyOp m o)).
  destruct (IH (applyOp m o)) as [-> | ->]; [|by right]. rewrite applyOp_lookup. destruct (decide _); [right; auto|by left].
Qed.

Lemma applyBatch_deleted b m k :
  Forall (fun o => op_key o = k -> op_value o = None) b -> k ∈ map op_key b -> applyBatch b m !! k = None.
Proof.
  revert m. induction b as [|o b IH]; intros m Hb He; [set_solver|]. inversion Hb as [|? ? Ho' Hb']; subst.
  apply elem_of_cons in He as [->|He].
  - change (applyBatch (o :: b) m) with (applyBatch b (applyOp m o)).
    destruct (applyBatch_deletes b (applyOp m o) (op_key o) Hb') as [->|]; [|done]. rewrite applyOp_lookup, decide_True by done. auto.
  - change (applyBatch (o :: b) m) with (applyBatch b (applyOp m o)). by apply IH.
Qed.

(** A value comes from the batch or was there before. *)
Lemma applyBatch_written b m k v :
  applyBatch b m !! k = Some v -> (exists o, o ∈ b /\ op_key o = k /\ op_value o = Some v) \/ m !! k = Some v.
Proof.
  revert m. induction b as [|o b IH]; intros m; [by right|]. change (applyBatch (o :: b) m) with (applyBatch b (applyOp m o)).
  intros [(o' & Ho & Hk & Hv)|Hm]%IH; [left; exists o'; split; [by right|done]|]. rewrite applyOp_lookup in Hm.
  destruct (decide (op_key o = k)) as [<-|]; [left; exists o; split; [by left|done]|by right].
Qed.

(** The keys a batch may add are good. *)
Lemma applyBatch_good b m :
  Forall (fun o => goodKey (op_key o)) b -> (forall k, is_Some (m !! k) -> goodKey k) ->
  forall k, is_Some (applyBatch b m !! k) -> goodKey k.
Proof.
  intros Hb. revert m. induction Hb as [|o b Ho Hb IH]; intros m Hm; [done|].
  change (applyBatch (o :: b) m) with (applyBatch b (applyOp m o)). apply IH. intros k. rewrite applyOp_lookup.
  destruct (decide (op_key o = k)) as [<-|]; [done|apply Hm].
Qed.

Ltac each_op := repeat first [apply Forall_nil_2 | apply Forall_cons_2; cbn [op_key]].

Section ChainMove.
Context `{Crypto} `{Bn256} {D : Type} `{KVLaws D}.

(** ** A new block *)

(** What storing a block with its work queues. *)
Definition frontOps (b : Block) (receipts : list Receipt) (td : Z) : Batch :=
  blockOps b receipts ++ [mkOp (tdKey (Block_Hash b)) (Some (be_min td))].

Lemma frontOps_blocks b rs td m h :
  applyBatch (frontOps b rs td) m !! blockKey h
  = if decide (h = Block_Hash b) then Some (encodeJSON rawBlockC (toRaw b)) else m !! blockKey h.
Proof.
  unfold frontOps, blockOps. cbn [app applyBatch fold_left]. rewrite !applyOp_lookup. cbn [op_key op_value].
  rewrite decide_False by key_ne. rewrite decide_False by key_ne. destruct (decide (h = Block_Hash b)) as [->|E].
  - by rewrite decide_True.
  - rewrite decide_False; [done|]. by intros ?%blockKey_inj.
Qed.

Lemma frontOps_work b rs td m h :
  applyBatch (frontOps b rs td) m !! tdKey h = if decide (h = Block_Hash b) then Some (be_min td) else m !! tdKey h.
Proof.
  unfold frontOps. rewrite applyBatch_last, applyOp_lookup. cbn [op_key op_value]. destruct (decide (h = Block_Hash b)) as [->|E].
  - by rewrite decide_True.
  - rewrite decide_False by (by intros ?%tdKey_inj). apply applyBatch_other. unfold blockOps. each_op; key_ne.
Qed.

Lemma frontOps_receipts b rs td m h :
  applyBatch (frontOps b rs td) m !! receiptsKey h
  = if decide (h = Block_Hash b) then Some (encodeJSON (listC receiptC) rs) else m !! receiptsKey h.
Proof.
  unfold frontOps, blockOps. cbn [app applyBatch fold_left]. rewrite !applyOp_lookup. cbn [op_key op_value].
  rewrite decide_False by key_ne. destruct (decide (h = Block_Hash b)) as [->|E].
  - by rewrite decide_True.
  - rewrite decide_False by (by intros ?%receiptsKey_inj). by rewrite decide_False by key_ne.
Qed.

Lemma frontOps_other b rs td m k :
  k <> blockKey (Block_Hash b) -> k <> receiptsKey (Block_Hash b) -> k <> tdKey (Block_Hash b) ->
  applyBatch (frontOps b rs td) m !! k = m !! k.
Proof. intros Hb Hr Ht. apply applyBatch_other. unfold frontOps, blockOps. cbn [app]. each_op; congruence. Qed.

Lemma frontOps_good b rs td : Forall (fun o => goodKey (op_key o)) (frontOps b rs td).
Proof. unfold frontOps, blockOps. cbn [app]. each_op; auto with keys. Qed.

(** ** Going back *)

(** What undoing the blocks [l] queues. *)
Definition undo_op (l : list Block) (o : memOp) : Prop :=
  (exists a, op_key o = accountKey a) \/ (exists h, o = mkOp (txIndexKey h) None)
  \/ exists b, b ∈ l /\ o = mkOp (canonicalKey (Block_Height b)) None.

Definition unindexOps (b : Block) : Batch := map (fun tx => mkOp (txIndexKey (tx_Hash tx)) None) (b_Txs b).

Lemma unwindBlock_ops d b batch batch' :
  unwindBlock d batch b = Ok batch' ->
  exists diff, loadStoredDiff d (Block_Hash b) = Ok diff
    /\ batch' = batch ++ (map undoOp (Entries diff) ++ unindexOps b ++ [mkOp (canonicalKey (Block_Height b)) None]).
Proof.
  unfold unwindBlock, applyReverseDiff, loadStoredDiff. destruct (KV_Get d _) as [data| |]; cbn [res_bind]; try done.
  destruct (decodeJSON diffC data) as [diff| |]; cbn [res_bind]; try done. intros [= <-]. exists diff. split; [done|].
  unfold Batch_Delete at 1. rewrite undoEntries_ops.
  pose proof (fold_puts (fun tx => mkOp (txIndexKey (tx_Hash tx)) None) (b_Txs b)) as Hf.
  unfold Batch_Delete. rewrite Hf. unfold unindexOps. by rewrite <- !app_assoc.
Qed.

Lemma unwind_no_panic d l batch : unwind d batch l <> Panic.
Proof.
  revert batch. induction l as [|b l IH]; intros batch; [done|]. cbn [unwind]. unfold unwindBlock, applyReverseDiff.
  rewrite Get_law. destruct (contents d !! _) as [data|]; [|done]. cbn [res_bind]. unfold decodeJSON. case_match; [|done].
  apply IH.
Qed.

(** States from the block above [c] up to the head, newest first. *)
Fixpoint descends (C : gmap (list byte) (list byte)) (ss : gmap Hash State) (s : State) (l : list Block) (sc : State) : Prop :=
  match l with
  | [] => s = sc
  | b :: l => exists ps t, ss !! Block_Hash b = Some s /\ ss !! ParentHash (b_Header b) = Some ps /\ wf_state ps
      /\ C !! revDiffKey (Block_Hash b) = Some (encodeJSON diffC (diffOf s ps t)) /\ covers t s ps /\ descends C ss ps l sc
  end.

Lemma diffOf_ok s ps l : wf_state ps -> decodeJSON diffC (encodeJSON diffC (diffOf s ps l)) = Ok (diffOf s ps l).
Proof.
  intros Hw. apply (decode_encode diffC _ _ diffC_ok). unfold diffOf. cbn [Entries]. apply Forall_map, Forall_true.
  intros a. unfold diffEntry. destruct (Exists ps a) eqn:E; cbn [de_Nonce]; [|lia].
  apply Exists_get in E. destruct (ws_accounts _ Hw a _ E) as [Hwa _]. apply (wa_nonce _ Hwa).
Qed.

Lemma unwind_ops d l batch batch' :
  unwind d batch l = Ok batch' ->
  exists ops, batch' = batch ++ ops /\ Forall (undo_op l) ops
    /\ (forall b, b ∈ l -> canonicalKey (Block_Height b) ∈ map op_key ops)
    /\ (forall b tx, b ∈ l -> tx ∈ b_Txs b -> txIndexKey (tx_Hash tx) ∈ map op_key ops)
    /\ (forall ss s sc m, descends (contents d) ss s l sc -> table m (accounts s) -> table (applyBatch ops m) (accounts sc)).
Proof.
  revert batch. induction l as [|b l IH]; intros batch; cbn [unwind].
  { intros [= <-]. exists []. rewrite app_nil_r. split_and!; [done|done|set_solver|set_solver|]. intros ss s sc m Hd Ht. cbn in Hd. by subst. }
  destruct (unwindBlock d batch b) as [batch1| |] eqn:E; cbn [res_bind]; try done. intros Hu.
  destruct (unwindBlock_ops d b batch batch1 E) as (diff & Ed & ->). destruct (IH _ Hu) as (ops & -> & Hf & Hc & Hx & Ht).
  eexists. split; [by rewrite <- app_assoc|]. split_and!.
  - rewrite !Forall_app. split_and!.
    + apply Forall_map, Forall_true. intros e. left. eexists. done.
    + apply Forall_map, Forall_true. intros tx. right. left. by eexists.
    + apply Forall_singleton. right. right. exists b. split; [set_solver|done].
    + eapply Forall_impl; [exact Hf|]. intros o [Ho|[Ho|(b' & Hb & ->)]]; [by left|by right; left|].
      right. right. exists b'. split; [set_solver|done].
  - intros b'. rewrite !map_app, !elem_of_app. intros [->|Hb]%elem_of_cons; [|auto]. left. right. right. by left.
  - intros b' tx. rewrite !map_app, !elem_of_app. intros [->|Hb]%elem_of_cons Htx; [|eauto]. left. right. left.
    unfold unindexOps. rewrite map_map. by apply (list_elem_of_fmap_2 (fun tx => txIndexKey (tx_Hash tx))).
  - intros ss s sc m (ps & t & Hs & Hps & Hw & Hrd & Hcov & Hd) Hm. rewrite applyBatch_app. apply (Ht ss ps); [done|].
    unfold loadStoredDiff in Ed. rewrite Get_law, Hrd in Ed. cbn [res_bind] in Ed. rewrite diffOf_ok in Ed by done.
    injection Ed as <-. rewrite applyBatch_app. eapply table_other; [|apply (table_backward _ ps s t Hm Hcov)].
    intros a. apply applyBatch_other. apply Forall_app. split; [|apply Forall_singleton; key_ne].
    apply Forall_map, Forall_true. intros tx. key_ne.
Qed.

(** ** Going forward *)

Definition redo_op (l : list Block) (o : memOp) : Prop :=
  (exists a, op_key o = accountKey a) \/ (exists h v, indexed l h v /\ o = mkOp (txIndexKey h) (Some v))
  \/ exists b, b ∈ l /\ (op_key o = revDiffKey (Block_Hash b) \/ op_key o = canonicalKey (Block_Height b)).

(** What a block that joins the chain queues. *)
Definition joinOps (b : Block) (s ps : State) : Batch :=
  changeOps b s ps (Touched s) ++ [mkOp (canonicalKey (Block_Height b)) (Some (abytes (Block_Hash b)))] ++ indexOps b.

Lemma joinOps_redo b s ps : Forall (redo_op [b]) (joinOps b s ps).
Proof.
  unfold joinOps, changeOps. rewrite !Forall_app, !Forall_singleton. split_and!.
  - apply Forall_map, Forall_true. intros a. left. by eexists.
  - right. right. exists b. split; [set_solver|by left].
  - right. right. exists b. split; [set_solver|by right].
  - apply Forall_map, Forall_forall. intros [i tx] (j & tx' & [= <- <-] & Hj)%elem_of_lookup_imap. right. left.
    exists (tx_Hash tx), (encodeJSON locationC (locationOf b i)). split; [|done]. exists b, i, tx. split_and!; [set_solver|done..].
Qed.

Lemma joinOps_table b s ps m :
  covers (Touched s) s ps -> table m (accounts ps) -> table (applyBatch (joinOps b s ps) m) (accounts s).
Proof.
  intros Hc Hm. unfold joinOps, changeOps. rewrite <- app_assoc, applyBatch_app.
  eapply table_other; [|apply (table_forward _ ps s (Touched s) Hm Hc)]. intros a. apply applyBatch_other.
  rewrite !Forall_app, !Forall_singleton. split_and!; [key_ne|key_ne|]. apply Forall_map, Forall_true. intros tx. key_ne.
Qed.

Lemma joinOps_canonical b s ps m :
  applyBatch (joinOps b s ps) m !! canonicalKey (Block_Height b) = Some (abytes (Block_Hash b)).
Proof.
  unfold joinOps. rewrite app_assoc, applyBatch_app, applyBatch_other.
  - rewrite applyBatch_last, applyOp_lookup. by rewrite decide_True.
  - apply Forall_map, Forall_true. intros tx. key_ne.
Qed.

Lemma joinOps_diff b s ps m :
  applyBatch (joinOps b s ps) m !! revDiffKey (Block_Hash b) = Some (encodeJSON diffC (diffOf s ps (Touched s))).
Proof.
  unfold joinOps, changeOps. rewrite applyBatch_app, applyBatch_other.
  - rewrite applyBatch_last, applyOp_lookup. by rewrite decide_True.
  - apply Forall_app. split; [apply Forall_singleton; key_ne|]. apply Forall_map, Forall_true. intros tx. key_ne.
Qed.

(** The state of a block that joins. *)
Definition stateFor (ss : gmap Hash State) (new : Block) (newState : State) (b : Block) : option State :=
  if array_eqb (Block_Hash b) (Block_Hash new) then Some newState else ss !! Block_Hash b.

(** A block that has joined: its index entry and its reverse diff. *)
Definition joined (ss : gmap Hash State) (new : Block) (newState : State) (m : gmap (list byte) (list byte)) (b : Block) : Prop :=
  m !! canonicalKey (Block_Height b) = Some (abytes (Block_Hash b))
  /\ exists s q, stateFor ss new newState b = Some s /\ ss !! ParentHash (b_Header b) = Some q
     /\ m !! revDiffKey (Block_Hash b) = Some (encodeJSON diffC (diffOf s q (Touched s))).

Lemma linked_lt p l b : linked p l -> b ∈ l -> Block_Height p < Block_Height b.
Proof.
  revert p. induction l as [|x l IH]; intros p; [set_solver|]. cbn [linked]. intros (_ & Hh & Hl) [->|Hb]%elem_of_cons; [lia|].
  specialize (IH x Hl Hb). lia.
Qed.

Section Rewind.
Context (ss : gmap Hash State) (new : Block) (newState : State).

(** Blocks told apart by their hash, with heights at their width. *)
Definition distinct (l : list Block) : Prop :=
  forall b b', b ∈ l -> b' ∈ l -> is_u64 (Block_Height b) /\ (Block_Hash b = Block_Hash b' -> Block_Height b = Block_Height b').

Definition covered (l : list Block) : Prop := forall b s q,
  b ∈ l -> stateFor ss new newState b = Some s -> ss !! ParentHash (b_Header b) = Some q -> covers (Touched s) s q.

Lemma joined_kept x l ops m :
  distinct (x :: l) -> linked x l -> Forall (redo_op l) ops -> joined ss new newState m x ->
  joined ss new newState (applyBatch ops m) x.
Proof.
  intros Hd Hl Hf (Hc & s & q & Hs & Hq & Hr).
  assert (forall b, b ∈ l -> Block_Hash b <> Block_Hash x /\ canonicalKey (Block_Height b) <> canonicalKey (Block_Height x)) as Hne.
  { intros b Hb. pose proof (linked_lt _ _ _ Hl Hb). destruct (Hd b x) as [Hu He]; [set_solver..|].
    destruct (Hd x b) as [Hu' _]; [set_solver..|]. split; [intros E; apply He in E; lia|].
    intros E. apply canonicalKey_inj in E; [lia|done..]. }
  assert (forall o, redo_op l o -> op_key o <> canonicalKey (Block_Height x) /\ op_key o <> revDiffKey (Block_Hash x)) as Ho.
  { intros o [[a ->]|[(h & v & _ & ->)|(b & Hb & [-> | ->])]]; (split; [try key_ne|try key_ne]).
    - intros E%revDiffKey_inj. exact (proj1 (Hne b Hb) E).
    - exact (proj2 (Hne b Hb)). }
  split; [|exists s, q; split_and!; [done..|]]; (rewrite applyBatch_other; [done|]);
    (eapply Forall_impl; [exact Hf|]; intros o Hop; apply (Ho o Hop)).
Qed.

Lemma joinOps_joined b s q m :
  stateFor ss new newState b = Some s -> ss !! ParentHash (b_Header b) = Some q ->
  joined ss new newState (applyBatch (joinOps b s q) m) b.
Proof. intros Hs Hq. split; [apply joinOps_canonical|]. exists s, q. split_and!; [done..|apply joinOps_diff]. Qed.

Lemma rewind_step b l batch batch' :
  rewind ss new newState batch (b :: l) = Ok batch' ->
  exists s q, stateFor ss new newState b = Some s /\ ss !! ParentHash (b_Header b) = Some q
    /\ rewind ss new newState (batch ++ joinOps b s q) l = Ok batch'.
Proof.
  cbn [rewind]. fold (stateFor ss new newState b). destruct (stateFor ss new newState b) as [s|]; [|done].
  destruct (ss !! _) as [q|]; [|done]. intros Hr. exists s, q. split_and!; [done..|].
  rewrite writeAccountChanges_ops, indexTxs_ops in Hr. unfold putHash, Batch_Put in Hr. unfold joinOps.
  by rewrite <- !app_assoc in Hr.
Qed.

Lemma rewind_no_panic l batch : rewind ss new newState batch l <> Panic.
Proof.
  revert batch. induction l as [|b l IH]; intros batch; [done|]. cbn [rewind].
  destruct (if array_eqb _ _ then _ else _); [|done]. destruct (ss !! _); [|done]. apply IH.
Qed.

Lemma rewind_ops l p ps batch batch' :
  linked p (l ++ [new]) -> ss !! Block_Hash p = Some ps -> (forall b, b ∈ l -> Block_Hash b <> Block_Hash new) ->
  distinct (l ++ [new]) -> covered (l ++ [new]) ->
  rewind ss new newState batch (l ++ [new]) = Ok batch' ->
  exists ops, batch' = batch ++ ops /\ Forall (redo_op (l ++ [new])) ops
    /\ (forall m, table m (accounts ps) -> table (applyBatch ops m) (accounts newState))
    /\ (forall m b, b ∈ l ++ [new] -> joined ss new newState (applyBatch ops m) b).
Proof.
  revert p ps batch. induction l as [|b l IH]; intros p ps batch Hl Hps Hne Hd Hc Hr; cbn [app] in *;
    destruct (rewind_step _ _ _ _ Hr) as (s & q & Hs & Hq & Hr'); destruct Hl as (Ep & Eh & Hl);
    (assert (q = ps) as -> by (rewrite Ep, Hps in Hq; by injection Hq as ->)).
  - injection Hr' as <-. exists (joinOps new s ps). assert (s = newState) as ->.
    { unfold stateFor in Hs. destruct (array_eqb_spec (Block_Hash new) (Block_Hash new)); [by injection Hs as ->|done]. }
    split_and!; [done|apply joinOps_redo| |].
    + intros m Hm. apply joinOps_table; [|done]. apply (Hc new); [set_solver|done..].
    + intros m b' ->%list_elem_of_singleton. by apply joinOps_joined.
  - assert (ss !! Block_Hash b = Some s) as Hb.
    { unfold stateFor in Hs. destruct (array_eqb_spec (Block_Hash b) (Block_Hash new)) as [E|]; [|done].
      by apply Hne in E; [|set_solver]. }
    destruct (IH b s (batch ++ joinOps b s ps) Hl Hb) as (ops & -> & Hf & Ht & Hj); [set_solver|..|exact Hr'|].
    { intros x y Hx Hy. apply Hd; set_solver. }
    { intros x y z Hx. apply Hc; set_solver. }
    exists (joinOps b s ps ++ ops). split_and!.
    + by rewrite app_assoc.
    + apply Forall_app. split; [eapply Forall_impl; [apply joinOps_redo|]|eapply Forall_impl; [exact Hf|]];
        intros o [Ho|[(h & v & (x & i & tx & Hx & Hi) & Ho)|(x & Hx & Ho)]]; try (by left);
        first [right; right; exists x; split; [set_solver|done]
              |right; left; exists h, v; split; [exists x, i, tx; split; [set_solver|done]|done]].
    + intros m Hm. rewrite applyBatch_app. apply Ht, joinOps_table; [|done]. apply (Hc b); [set_solver|done..].
    + intros m x [->|Hx]%elem_of_cons; rewrite applyBatch_app; [|by apply Hj].
      eapply joined_kept; [exact Hd|exact Hl|exact Hf|]. by apply joinOps_joined.
Qed.

End Rewind.

End ChainMove.
