(* ===== verification/ChainStep.v ===== *)
(** * The invariant is kept by what an insertion commits

    A side block that is stored, a head that moves (forward, or across a
    fork), and pruning. *)
From stdpp Require Import base numbers list gmap sorting.
From Stdlib Require Import ZArith Lia Strings.Byte.
From S2P Require Import Prelude Common Types VmBase Precompiles Vm VmProofs State StateProofs StateInv Transition BlockProofs.
From S2P Require Import BlockProofs Pow Genesis Json JsonCodec Store Schema SchemaProofs Blockchain ChainInv ChainMove.
#[local] Open Scope Z_scope.
#[local] Open Scope list_scope.
#[local] Open Scope go_scope.
#[local] Open Scope chain_scope.

Section ChainStep.
Context `{Crypto} `{Bn256} {D : Type} `{KVLaws D}.
Context (P : Header -> Prop) (gb : Block) `{!headers P gb}.

Abbreviation stored := (stored P).
Abbreviation accepted := (accepted P gb).
Abbreviation goodBlock := (goodBlock P).
Abbreviation store_inv := (store_inv P gb).
Abbreviation mem_inv := (mem_inv P gb).
Abbreviation canon_inv := (canon_inv P gb).
Abbreviation config_inv := (config_inv gb).
Abbreviation inv := (inv P gb).

(** A valid block that is not stored, on a parent whose state is held. *)
Record arrival (F : Z) (canon : list Block) (bc : Blockchain D) (b p : Block) (ps s : State) (ptd : Z) : Prop := {
  ar_inv : inv F canon bc;
  ar_fresh : contents (db bc) !! blockKey (Block_Hash b) = None;
  ar_good : goodBlock b;
  ar_accepted : accepted b;
  ar_parent : stored (contents (db bc)) p;
  ar_link : ParentHash (b_Header b) = Block_Hash p;
  ar_pstate : states bc !! Block_Hash p = Some ps;
  ar_state : state_ok (genesisSupply bc) b s;
  ar_covers : covers (Touched s) s ps;
  ar_ptd : work (contents (db bc)) p ptd;
}.

(** The block table and the table of work gain one block. *)
Record gains (C C' : gmap (list byte) (list byte)) (b : Block) (td : Z) : Prop := {
  gn_blocks : forall h, C' !! blockKey h = if decide (h = Block_Hash b) then Some (encodeJSON rawBlockC (toRaw b)) else C !! blockKey h;
  gn_work : forall h, C' !! tdKey h = if decide (h = Block_Hash b) then Some (be_min td) else C !! tdKey h;
  gn_keys : forall k, is_Some (C' !! k) -> goodKey k;
  gn_receipts : receipts_kept C' b /\ forall h, h <> Block_Hash b -> C' !! receiptsKey h = C !! receiptsKey h;
}.

Section Gains.
Context (F : Z) (canon : list Block) (bc : Blockchain D) (b p : Block) (ps s : State) (ptd : Z).
Context (Har : arrival F canon bc b p ps s ptd).
Context (C' : gmap (list byte) (list byte)) (Hgn : gains (contents (db bc)) C' b (ptd + Difficulty (b_Header b))).

Abbreviation C := (contents (db bc)).
Abbreviation td := (ptd + Difficulty (b_Header b)).

Lemma fresh_ne x : stored C x -> Block_Hash x <> Block_Hash b.
Proof. intros [Hx _] E. pose proof (ar_fresh _ _ _ _ _ _ _ _ Har) as Hf. rewrite E, Hf in Hx. done. Qed.

Lemma gains_stored x : stored C' x <-> stored C x \/ x = b.
Proof.
  destruct Har as [Hi Hf Hg _ _ _ _ _ _ _]. split.
  - intros [Hx Hgx]. rewrite (gn_blocks _ _ _ _ Hgn) in Hx. destruct (decide _) as [E|E]; [|by left]. right.
    apply (stored_inj P C' x b); [|split; [|done]|done].
    + split; [|done]. by rewrite (gn_blocks _ _ _ _ Hgn), decide_True.
    + by rewrite (gn_blocks _ _ _ _ Hgn), decide_True.
  - intros [Hx| ->].
    + pose proof (fresh_ne x Hx). destruct Hx as [Hx Hgx]. split; [|done]. by rewrite (gn_blocks _ _ _ _ Hgn), decide_False.
    + split; [|done]. by rewrite (gn_blocks _ _ _ _ Hgn), decide_True.
Qed.

Lemma difficulty_nonneg x : goodBlock x -> 0 <= Difficulty (b_Header x).
Proof. intros [_ [[] _ _ _] _]. unfold is_u64 in *. lia. Qed.

Lemma gains_work x w : stored C x -> work C' x w <-> work C x w.
Proof.
  intros Hx. unfold work. rewrite (gn_work _ _ _ _ Hgn), decide_False; [done|by apply fresh_ne].
Qed.

Lemma gains_new_work : work C' b td.
Proof.
  split; [by rewrite (gn_work _ _ _ _ Hgn), decide_True|]. destruct Har as [_ _ Hg _ _ _ _ _ _ [_ Hp]].
  pose proof (difficulty_nonneg b Hg). lia.
Qed.

(** Its parent's state is held, so it lies above the floor. *)
Lemma arrival_above : F < Block_Height b.
Proof.
  destruct Har as [Hi _ Hg Ha Hp El Hps _ _ _]. destruct (mi_states _ _ _ _ (inv_mem _ _ _ _ _ Hi) _ _ Hps) as (p' & Hc & HF & _).
  destruct (mi_cache _ _ _ _ (inv_mem _ _ _ _ _ Hi) _ _ Hc) as [Eh Hs]. apply (stored_inj P C p' p Hs Hp) in Eh as ->.
  rewrite (accepted_height P gb b p Ha (proj2 Hp) El). lia.
Qed.

(** No stored block has it for parent. *)
Lemma arrival_no_child x : stored C x -> x <> gb -> ParentHash (b_Header x) <> Block_Hash b.
Proof.
  intros Hx Hgb E. destruct Har as [Hi Hf Hg _ _ _ _ _ _ _]. pose proof (inv_store _ _ _ _ _ Hi) as Hs.
  destruct (si_link _ _ _ _ Hs x Hx Hgb) as [(q & Hq & Eq)|Hle].
  - rewrite E in Eq. by apply (fresh_ne q Hq).
  - pose proof arrival_above. rewrite (accepted_height P gb x b (si_accepted _ _ _ _ Hs x Hx Hgb) Hg E) in Hle. lia.
Qed.

Lemma arrival_not_genesis : b <> gb.
Proof.
  intros E. apply (fresh_ne gb); [apply (si_genesis _ _ _ _ (inv_store _ _ _ _ _ (ar_inv _ _ _ _ _ _ _ _ Har)))|congruence].
Qed.

Lemma gains_store : store_inv F C'.
Proof.
  pose proof (inv_store _ _ _ _ _ (ar_inv _ _ _ _ _ _ _ _ Har)) as [Sk Sb Sg S0 St Sa Sl Sw Sr]. pose proof gains_stored as Hst.
  destruct Har as [_ Hf Hg Ha Hp El _ _ _ Hptd]. split.
  - apply (gn_keys _ _ _ _ Hgn).
  - intros h. rewrite (gn_blocks _ _ _ _ Hgn). destruct (decide (h = Block_Hash b)) as [->|E].
    + intros _. exists b. split; [apply Hst; by right|done].
    + intros Hh. destruct (Sb h Hh) as (x & Hx & Ex). exists x. split; [apply Hst; by left|done].
  - apply Hst. by left.
  - by apply gains_work.
  - intros x [Hx| ->]%Hst; [|eauto using gains_new_work]. destruct (St x Hx) as [w Hw]. exists w. by apply gains_work.
  - intros x [Hx| ->]%Hst Hne; auto.
  - intros x [Hx| ->]%Hst Hne.
    + destruct (Sl x Hx Hne) as [(q & Hq & Eq)|]; [|by right]. left. exists q. split; [apply Hst; by left|done].
    + left. exists p. split; [apply Hst; by left|done].
  - intros x q w qw [Hx| ->]%Hst Hne [Hq| ->]%Hst Eq Hw Hqw.
    + apply gains_work in Hw; [|done]. apply gains_work in Hqw; [|done]. by eapply Sw.
    + by apply arrival_no_child in Eq.
    + rewrite El in Eq. apply (stored_inj P C p q Hp Hq) in Eq as <-. apply gains_work in Hqw; [|done].
      rewrite (work_inj _ _ _ _ Hw gains_new_work), (work_inj _ _ _ _ Hqw Hptd). done.
    + rewrite El in Eq. by apply fresh_ne in Eq.
  - destruct (gn_receipts _ _ _ _ Hgn) as [Hnew Hold]. intros x [Hx| ->]%Hst; [|done]. destruct (Sr x Hx) as (rs & E & Hrs).
    exists rs. split; [|done]. rewrite Hold; [done|by apply fresh_ne].
Qed.

Lemma arrival_no_state : states bc !! Block_Hash b = None.
Proof.
  destruct Har as [Hi Hf _ _ _ _ _ _ _ _]. destruct (states bc !! Block_Hash b) as [s'|] eqn:E; [|done].
  destruct (mi_states _ _ _ _ (inv_mem _ _ _ _ _ Hi) _ _ E) as (x & Hx & _).
  destruct (mi_cache _ _ _ _ (inv_mem _ _ _ _ _ Hi) _ _ Hx) as [Ex Hs]. by apply fresh_ne in Ex.
Qed.

Lemma gains_mem bc' :
  contents (db bc') = C' -> genesisSupply bc' = genesisSupply bc ->
  blockCache bc' = <[Block_Hash b := b]> (blockCache bc) -> states bc' = <[Block_Hash b := s]> (states bc) ->
  mem_inv F bc'.
Proof.
  intros Ed Eg Ec Es. pose proof (inv_mem _ _ _ _ _ (ar_inv _ _ _ _ _ _ _ _ Har)) as [Mc Ms Ma Mt].
  pose proof gains_stored as Hst. pose proof arrival_above as Hab. split; rewrite ?Ed, ?Eg, ?Ec, ?Es.
  - intros h x [[<- <-]|[_ Hx]]%lookup_insert_Some; [split; [done|apply Hst; by right]|].
    destruct (Mc h x Hx). split; [done|apply Hst; by left].
  - intros h s' [[<- <-]|[Hne Hs]]%lookup_insert_Some.
    + exists b. rewrite lookup_insert_eq. split_and!; [done|lia|apply Har].
    + destruct (Ms h s' Hs) as (x & Hx & Hr). exists x. by rewrite lookup_insert_ne.
  - intros x [Hx| ->]%Hst HF; [|by rewrite lookup_insert_eq]. rewrite lookup_insert_ne; [by apply Ma|].
    intros E. by apply (fresh_ne x Hx).
  - intros x s' q [Hx| ->]%Hst Hne.
    + rewrite !lookup_insert_ne; [by apply Mt| |].
      * intros E. by apply (arrival_no_child x Hx Hne).
      * intros E. by apply (fresh_ne x Hx).
    + rewrite lookup_insert_eq. intros [= <-]. destruct Har as [_ _ _ _ Hp El Hps _ Hcov _].
      rewrite El, lookup_insert_ne; [|intros E; by apply (fresh_ne p Hp)]. rewrite Hps. by intros [= <-].
Qed.

End Gains.

(** ** Lists of blocks that follow each other *)

Lemma linked_between c l n :
  linked c l -> Block_Height c < n <= Block_Height (default c (last l)) -> exists x, x ∈ l /\ Block_Height x = n.
Proof.
  revert c. induction l as [|x l IH]; intros c; cbn [linked]; [cbn; lia|]. intros (_ & Eh & Hl) Hn. rewrite last_cons in Hn.
  destruct (decide (n = Block_Height x)) as [->|Hne]; [exists x; set_solver|].
  destruct (IH x Hl) as (y & Hy & Ey); [|exists y; set_solver]. destruct (last l); cbn in *; lia.
Qed.

(** The part of the canonical chain above [c]. *)
Lemma linked_suffix canon below c l :
  linked gb canon -> gb :: canon = below ++ c :: l -> linked c l /\ (forall x, x ∈ l -> x ∈ canon) /\ c ∈ gb :: canon.
Proof.
  intros Hl E. destruct below as [|g below]; cbn [app] in E.
  - injection E as -> ->. split_and!; [done|done|set_solver].
  - injection E as <- ->. apply linked_app in Hl as (_ & _ & _ & Hl). split_and!; [done|set_solver|set_solver].
Qed.

Lemma linked_snoc_lt c l b x : linked c (l ++ [b]) -> x ∈ l -> Block_Height x < Block_Height b.
Proof.
  revert c. induction l as [|y l IH]; intros c; cbn [app linked]; [set_solver|]. intros (_ & _ & Hl) [->|Hx]%elem_of_cons.
  - apply (linked_lt y (l ++ [b])); [done|set_solver].
  - by apply (IH y).
Qed.

Lemma linked_le c l b x : linked c (l ++ [b]) -> x ∈ l ++ [b] -> Block_Height x <= Block_Height b.
Proof.
  intros Hl [Hx| ->%list_elem_of_singleton]%elem_of_app; [|lia]. pose proof (linked_snoc_lt c l b x Hl Hx). lia.
Qed.

(** Below [c], the heights are at most that of [c]. *)
Lemma linked_below canon below c l x :
  linked gb canon -> gb :: canon = below ++ c :: l -> x ∈ below ++ [c] -> Block_Height x <= Block_Height c.
Proof.
  intros Hl E Hx. destruct below as [|g below]; cbn [app] in E, Hx.
  - apply list_elem_of_singleton in Hx as ->. lia.
  - injection E as <- ->. apply elem_of_cons in Hx as [->|Hx].
    + pose proof (linked_lt gb _ c Hl ltac:(set_solver)). lia.
    + change (c :: l) with ([c] ++ l) in Hl. rewrite app_assoc in Hl. apply linked_app in Hl as [Hl _]. by eapply linked_le.
Qed.

(** ** Moving the head *)

(** The states of the abandoned branch, from the head down to [c]. *)
Lemma canon_descends F canon bc c l hs cs :
  inv F canon bc -> linked c l -> (forall x, x ∈ l -> x ∈ canon) -> F <= Block_Height c ->
  states bc !! Block_Hash (default c (last l)) = Some hs -> states bc !! Block_Hash c = Some cs ->
  descends (contents (db bc)) (states bc) hs (rev l) cs.
Proof.
  intros Hi Hl Hin HF. revert hs. induction l as [|x l IH] using rev_ind; intros hs Hhs Hcs.
  { cbn in *. congruence. }
  rewrite rev_app_distr. cbn [rev app]. rewrite last_snoc in Hhs. cbn [default from_option id] in Hhs.
  pose proof Hl as Hl'. apply linked_app in Hl' as (Hl' & Ep & Eh & _). set (q := default c (last l)) in *.
  destruct (inv_canon _ _ _ _ _ Hi) as [_ Hst _ _ _ _ _ Hd _ _].
  assert (F <= Block_Height q) as HFq.
  { unfold q. destruct (last l) as [y|] eqn:Ey; cbn; [|done]. apply last_Some in Ey as [l' ->].
    pose proof (linked_lt c _ y Hl' ltac:(set_solver)). lia. }
  assert (x ∈ canon) as Hx by (apply Hin; set_solver).
  assert (stored (contents (db bc)) x) as Hsx by (rewrite Forall_forall in Hst; apply Hst; set_solver).
  assert (stored (contents (db bc)) q -> exists qs, states bc !! Block_Hash q = Some qs /\ wf_state qs) as Hq.
  { intros Hsq. destruct (mi_all _ _ _ _ (inv_mem _ _ _ _ _ Hi) q Hsq HFq) as [qs Eqs]. exists qs. split; [done|].
    destruct (mi_states _ _ _ _ (inv_mem _ _ _ _ _ Hi) _ _ Eqs) as (? & _ & _ & Hok). apply Hok. }
  assert (exists qs, states bc !! Block_Hash q = Some qs /\ wf_state qs) as (qs & Eqs & Hwq).
  { unfold q in *. destruct (last l) as [y|] eqn:Ey; cbn [default from_option id] in *.
    - apply Hq. rewrite Forall_forall in Hst. apply Hst. apply last_Some in Ey as [l' ->]. right. apply Hin. set_solver.
    - exists cs. split; [done|]. destruct (mi_states _ _ _ _ (inv_mem _ _ _ _ _ Hi) _ _ Hcs) as (? & _ & _ & Hok). apply Hok. }
  destruct (Hd x hs qs Hx Hhs) as (t & Ht & Hcov); [by rewrite Ep|].
  exists qs, t. rewrite Ep. split_and!; [done..|]. apply IH; [done|set_solver|done|done].
Qed.

Lemma rewind_fork ss b s c l batch batch2 :
  linked c (l ++ [b]) -> rewind ss b s batch (l ++ [b]) = Ok batch2 -> exists cs, ss !! Block_Hash c = Some cs.
Proof.
  intros Hl Hr. destruct l as [|x l]; cbn [app] in *; destruct Hl as (E & _);
    destruct (rewind_step _ _ _ _ _ _ _ Hr) as (? & q & _ & Hq & _); rewrite E in Hq; eauto.
Qed.

Section Move.
Context (F : Z) (canon : list Block) (bc : Blockchain D) (b p : Block) (ps s : State) (ptd : Z).
Context (Har : arrival F canon bc b p ps s ptd).
Context (below : list Block) (c : Block) (dropped l : list Block) (receipts : list Receipt) (Hrs : receiptsOf b receipts).
Context (Hfork : gb :: canon = below ++ c :: dropped) (Hlink : linked c (l ++ [b])).
Context (Hside : Forall (stored (contents (db bc))) l).
Context (batch1 batch2 : Batch).
Abbreviation td' := (ptd + Difficulty (b_Header b)).
Context (Hun : unwind (db bc) (putTD (writeBlock [] b receipts) (Block_Hash b) td') (rev dropped) = Ok batch1).
Context (Hre : rewind (states bc) b s batch1 (l ++ [b]) = Ok batch2).

Abbreviation C0 := (contents (db bc)).
Abbreviation batch' := (putBigInt (putHash batch2 keyHead (Block_Hash b)) keyBurned (Some (Burned s))).
Abbreviation added := (l ++ [b]).

Let Hinv : inv F canon bc := ar_inv _ _ _ _ _ _ _ _ Har.

Lemma added_cases x : x ∈ added -> x = b \/ stored C0 x.
Proof. rewrite Forall_forall in Hside. intros [Hx| ->%list_elem_of_singleton]%elem_of_app; auto. Qed.

Lemma added_good x : x ∈ added -> goodBlock x.
Proof. intros [->|Hx]%added_cases; [apply Har|apply Hx]. Qed.

Lemma side_ne x : x ∈ l -> Block_Hash x <> Block_Hash b.
Proof. intros Hx. rewrite Forall_forall in Hside. by eapply fresh_ne, Hside. Qed.

Lemma good_u64 x : goodBlock x -> is_u64 (Block_Height x).
Proof. by intros [_ [[] _ _ _] _]. Qed.

Lemma good_hash x y : goodBlock x -> goodBlock y -> Block_Hash x = Block_Hash y -> b_Header x = b_Header y.
Proof. intros [Hx _] [Hy _]. by apply (P_inj P gb). Qed.

Lemma added_distinct : distinct added.
Proof.
  intros x y Hx%added_good Hy%added_good. split; [by apply good_u64|]. intros E. unfold Block_Height. by rewrite (good_hash x y).
Qed.

Lemma added_not_genesis x : x ∈ added -> x <> gb.
Proof.
  intros Hx ->. pose proof (linked_lt _ _ _ Hlink Hx) as Hlt.
  destruct (inv_config _ _ _ _ _ Hinv) as [_ Hz _ _ _ _ _ _ _].
  assert (stored C0 c) as Hc.
  { pose proof (ci_stored _ _ _ _ (inv_canon _ _ _ _ _ Hinv)) as Hst. rewrite Hfork in Hst.
    apply Forall_app in Hst as [_ Hst]. by inversion Hst. }
  pose proof (stored_height P _ c Hc). lia.
Qed.

Lemma added_parent x : x ∈ added -> ParentHash (b_Header x) <> Block_Hash b.
Proof.
  intros Hx. pose proof (added_not_genesis x Hx) as Hg. apply added_cases in Hx as [->|Hx].
  - pose proof Har as [_ _ _ _ Hp El _ _ _ _]. rewrite El. by eapply fresh_ne.
  - by eapply arrival_no_child.
Qed.

Lemma added_covered : covered (states bc) b s added.
Proof.
  intros x t q Hx. unfold stateFor. destruct (array_eqb_spec (Block_Hash x) (Block_Hash b)) as [E|E].
  - intros [= <-]. pose proof Har as [_ _ Hg _ _ El Hps _ Hcov _].
    rewrite (good_hash x b (added_good x Hx) Hg E), El, Hps. by intros [= <-].
  - pose proof (added_not_genesis x Hx). apply added_cases in Hx as [->|Hx]; [done|].
    apply (mi_step _ _ _ _ (inv_mem _ _ _ _ _ Hinv) x t q); done.
Qed.

(** The state at the fork is held: [rewind] would have failed. *)
Lemma fork_state : exists cs, states bc !! Block_Hash c = Some cs /\ F <= Block_Height c.
Proof.
  destruct (rewind_fork _ _ _ _ _ _ _ Hlink Hre) as [cs Hcs]. exists cs. split; [done|]. destruct (mi_states _ _ _ _ (inv_mem _ _ _ _ _ Hinv) _ _ Hcs) as (c' & Hc & HF & _).
  destruct (mi_cache _ _ _ _ (inv_mem _ _ _ _ _ Hinv) _ _ Hc) as [Ec Hs].
  pose proof (ci_stored _ _ _ _ (inv_canon _ _ _ _ _ Hinv)) as Hst. rewrite Hfork in Hst.
  apply Forall_app in Hst as [_ Hst]. inversion Hst as [|? ? Hsc _]; subst.
  by apply (stored_inj P C0 c' c Hs Hsc) in Ec as ->.
Qed.

(** The batch, in its parts. *)
Record parts (undo redo : Batch) : Prop := {
  pt_batch : batch' = frontOps b receipts td' ++ undo ++ redo
    ++ [mkOp keyHead (Some (abytes (Block_Hash b))); mkOp keyBurned (Some (be_min (Burned s)))];
  pt_undo : Forall (undo_op (rev dropped)) undo;
  pt_undone : forall x, x ∈ dropped -> canonicalKey (Block_Height x) ∈ map op_key undo;
  pt_unindexed : forall x tx, x ∈ dropped -> tx ∈ b_Txs x -> txIndexKey (tx_Hash tx) ∈ map op_key undo;
  pt_redo : Forall (redo_op added) redo;
  pt_table : forall m hs, states bc !! Block_Hash (head bc) = Some hs -> table m (accounts hs) ->
    table (applyBatch redo (applyBatch undo m)) (accounts s);
  pt_joined : forall m x, x ∈ added -> joined (states bc) b s (applyBatch redo m) x;
}.

Lemma head_last : default c (last dropped) = head bc.
Proof.
  pose proof (ci_last _ _ _ _ (inv_canon _ _ _ _ _ Hinv)) as El. rewrite Hfork, last_app_cons, last_cons in El.
  destruct (last dropped); by injection El.
Qed.

Lemma batch_parts : exists undo redo, parts undo redo.
Proof.
  destruct (unwind_ops _ _ _ _ Hun) as (undo & Eu & Hu & Hud & Hux & Hut). destruct fork_state as (cs & Hcs & HF).
  destruct (rewind_ops (states bc) b s l c cs _ _ Hlink Hcs side_ne added_distinct added_covered Hre)
    as (redo & Er & Hr & Hrt & Hj).
  exists undo, redo. split; try done.
  - rewrite Er, Eu. unfold putBigInt, putHash, putTD, Batch_Put. rewrite writeBlock_ops. unfold frontOps.
    cbn [app default from_option id]. by rewrite <- !app_assoc.
  - intros x Hx. apply Hud. by apply elem_of_rev.
  - intros x tx Hx. apply Hux. by apply elem_of_rev.
  - intros m hs Hhs Ht. apply Hrt. apply (Hut (states bc) hs cs); [|done].
    destruct (linked_suffix canon below c dropped) as (Hl & Hin & _); [apply (inv_canon _ _ _ _ _ Hinv)|done|].
    eapply canon_descends; [done..| |done]. by rewrite head_last.
Qed.

(** *** The contents after the batch *)

Context (undo redo : Batch) (Hpt : parts undo redo).
Abbreviation C1 := (applyBatch batch' C0).
Abbreviation front := (frontOps b receipts td').

Lemma redo_skip ops x m k :
  Forall (redo_op x) ops -> (forall a, accountKey a <> k) -> (forall h, txIndexKey h <> k) ->
  (forall y, y ∈ x -> revDiffKey (Block_Hash y) <> k /\ canonicalKey (Block_Height y) <> k) -> applyBatch ops m !! k = m !! k.
Proof.
  intros Hf Ha Ht Hx. apply applyBatch_other. eapply Forall_impl; [exact Hf|].
  intros o [[a ->]|[(h & v & _ & ->)|(y & Hy & [-> | ->])]]; [done|by apply Ht|by apply Hx..].
Qed.

Lemma undo_skip ops x m k :
  Forall (undo_op x) ops -> (forall a, accountKey a <> k) -> (forall h, txIndexKey h <> k) ->
  (forall y, y ∈ x -> canonicalKey (Block_Height y) <> k) -> applyBatch ops m !! k = m !! k.
Proof.
  intros Hf Ha Ht Hx. apply applyBatch_other. eapply Forall_impl; [exact Hf|].
  intros o [[a ->]|[[h ->]|(y & Hy & ->)]]; [done|by apply Ht|by apply Hx].
Qed.

Lemma moved_mid k : k <> keyHead -> k <> keyBurned -> C1 !! k = applyBatch redo (applyBatch undo (applyBatch front C0)) !! k.
Proof.
  intros Hh Hb. rewrite (pt_batch _ _ Hpt), !applyBatch_app. apply applyBatch_other. each_op; congruence.
Qed.

(** A key outside the four tables that moving the head rewrites. *)
Lemma moved_front k :
  k <> keyHead -> k <> keyBurned -> (forall a, accountKey a <> k) -> (forall h, txIndexKey h <> k) ->
  (forall h, revDiffKey h <> k) -> (forall n, canonicalKey n <> k) -> C1 !! k = applyBatch front C0 !! k.
Proof.
  intros Hh Hb Ha Ht Hr Hc. rewrite moved_mid by done.
  rewrite (redo_skip redo added) by (apply Hpt || done || (intros; split; done)). by eapply undo_skip; [apply Hpt|..].
Qed.

Lemma moved_gains : gains C0 C1 b td'.
Proof.
  split.
  - intros h. by rewrite moved_front, frontOps_blocks by (intros; key_ne).
  - intros h. by rewrite moved_front, frontOps_work by (intros; key_ne).
  - apply applyBatch_good; [|apply (inv_store _ _ _ _ _ Hinv)]. rewrite (pt_batch _ _ Hpt), !Forall_app. split_and!.
    + apply frontOps_good.
    + eapply Forall_impl; [apply (pt_undo _ _ Hpt)|]. intros o [[a ->]|[[h ->]|(y & Hy & ->)]]; cbn [op_key]; auto with keys.
    + eapply Forall_impl; [apply (pt_redo _ _ Hpt)|]. intros o [[a ->]|[(h & v & _ & ->)|(y & Hy & [-> | ->])]]; cbn [op_key]; auto with keys.
    + each_op; apply good_single; auto.
  - split.
    + exists receipts. split; [|done]. rewrite moved_front by (intros; key_ne). by rewrite frontOps_receipts, decide_True.
    + intros h Hh. rewrite moved_front by (intros; key_ne). by rewrite frontOps_receipts, decide_False.
Qed.

Lemma kept_low x : x ∈ below ++ [c] -> Block_Height x <= Block_Height c.
Proof. eapply linked_below; [apply (inv_canon _ _ _ _ _ Hinv)|exact Hfork]. Qed.

Lemma kept_canon x : x ∈ below ++ [c] -> x ∈ gb :: canon.
Proof. rewrite Hfork. set_solver. Qed.

Lemma kept_stored x : x ∈ below ++ [c] -> stored C0 x.
Proof.
  intros Hx%kept_canon. pose proof (ci_stored _ _ _ _ (inv_canon _ _ _ _ _ Hinv)) as Hst. rewrite Forall_forall in Hst. by apply Hst.
Qed.

Lemma dropped_facts : linked c dropped /\ (forall x, x ∈ dropped -> x ∈ canon).
Proof. destruct (linked_suffix canon below c dropped) as (? & ? & _); [apply (inv_canon _ _ _ _ _ Hinv)|done|done]. Qed.

Lemma dropped_high x : x ∈ rev dropped -> Block_Height c < Block_Height x /\ is_u64 (Block_Height x).
Proof.
  rewrite elem_of_rev. intros Hx. destruct dropped_facts as [Hl Hin]. split; [by eapply linked_lt|].
  apply good_u64. pose proof (ci_stored _ _ _ _ (inv_canon _ _ _ _ _ Hinv)) as Hst. rewrite Forall_forall in Hst. apply Hst.
  right. auto.
Qed.

(** The index up to the fork. *)
Lemma moved_canonical_low n :
  is_u64 n -> n <= Block_Height c -> C1 !! canonicalKey n = C0 !! canonicalKey n.
Proof.
  intros Hu Hn. rewrite moved_mid by key_ne. rewrite (redo_skip redo added); [|apply Hpt|intros; key_ne..|].
  2: { intros y Hy. split; [key_ne|]. pose proof (linked_lt _ _ _ Hlink Hy).
       intros ?%canonicalKey_inj; [lia|by apply good_u64, added_good|done]. }
  rewrite (undo_skip undo (rev dropped)); [|apply Hpt|intros; key_ne..|].
  2: { intros y [Hlt Hy]%dropped_high. intros ?%canonicalKey_inj; [lia|done..]. }
  apply frontOps_other; key_ne.
Qed.

(** Above the new head it is empty. *)
Lemma moved_canonical_high n : Block_Height b < n < 2 ^ 64 -> C1 !! canonicalKey n = None.
Proof.
  intros Hn. pose proof (good_u64 b (ar_good _ _ _ _ _ _ _ _ Har)) as Hu. assert (is_u64 n) as Hun' by (unfold is_u64 in *; lia).
  rewrite moved_mid by key_ne. rewrite (redo_skip redo added); [|apply Hpt|intros; key_ne..|].
  2: { intros y Hy. split; [key_ne|]. pose proof (linked_le _ _ _ _ Hlink Hy).
       intros ?%canonicalKey_inj; [lia|by apply good_u64, added_good|done]. }
  pose proof (linked_lt _ _ b Hlink ltac:(set_solver)) as Hbc.
  assert (Forall (fun o => op_key o = canonicalKey n -> op_value o = None) undo) as Hdel.
  { eapply Forall_impl; [apply (pt_undo _ _ Hpt)|]. intros o [[a ->]|[[h ->]|(y & Hy & ->)]]; [key_ne|key_ne|done]. }
  destruct (decide (n <= Block_Height (head bc))) as [Hle|Hgt].
  - destruct dropped_facts as [Hl _]. destruct (linked_between c dropped n Hl) as (x & Hx & <-); [rewrite head_last; lia|].
    apply applyBatch_deleted; [done|by apply (pt_undone _ _ Hpt)].
  - destruct (applyBatch_deletes undo (applyBatch front C0) (canonicalKey n) Hdel) as [->|]; [|done].
    rewrite frontOps_other by key_ne. apply (ci_above _ _ _ _ (inv_canon _ _ _ _ _ Hinv)). lia.
Qed.

Lemma moved_joined x : x ∈ added -> joined (states bc) b s C1 x.
Proof.
  intros Hx. destruct (pt_joined _ _ Hpt (applyBatch undo (applyBatch front C0)) x Hx) as (Hc & t & q & Ht & Hq & Hd).
  split; [by rewrite moved_mid by key_ne|]. exists t, q. split_and!; [done..|]. by rewrite moved_mid by key_ne.
Qed.

Lemma kept_not_added x y : x ∈ below ++ [c] -> y ∈ added -> Block_Hash x <> Block_Hash y.
Proof.
  intros Hx Hy E. pose proof (kept_low x Hx). pose proof (linked_lt _ _ _ Hlink Hy).
  pose proof (good_hash x y (proj2 (kept_stored x Hx)) (added_good y Hy) E) as Eh. unfold Block_Height in *. rewrite Eh in *. lia.
Qed.

Lemma moved_diff x : x ∈ below ++ [c] -> C1 !! revDiffKey (Block_Hash x) = C0 !! revDiffKey (Block_Hash x).
Proof.
  intros Hx. rewrite moved_mid by key_ne. rewrite (redo_skip redo added); [|apply Hpt|intros; key_ne..|].
  2: { intros y Hy. split; [|key_ne]. intros ?%revDiffKey_inj. by eapply kept_not_added. }
  rewrite (undo_skip undo (rev dropped)); [|apply Hpt|intros; key_ne..]. apply frontOps_other; key_ne.
Qed.

Lemma moved_table hs :
  states bc !! Block_Hash (head bc) = Some hs -> table C0 (accounts hs) -> table C1 (accounts s).
Proof.
  intros Hhs Ht. eapply table_other; [intros a; apply moved_mid; key_ne|]. eapply (pt_table _ _ Hpt); [exact Hhs|].
  eapply table_other; [|exact Ht]. intros a. apply frontOps_other; key_ne.
Qed.

Lemma moved_head : C1 !! keyHead = Some (abytes (Block_Hash b)) /\ C1 !! keyBurned = Some (be_min (Burned s)).
Proof.
  unfold putBigInt, putHash, Batch_Put. cbn [default from_option id].
  rewrite !applyBatch_last, !applyOp_lookup. split; [|by rewrite decide_True].
  rewrite decide_False by key_ne. by rewrite decide_True.
Qed.

Lemma moved_names k : k = keySchema \/ k = keyGenesis \/ k = keyChainID -> C1 !! k = C0 !! k.
Proof.
  intros Hk. rewrite moved_front; destruct Hk as [->|[->| ->]]; try (intros; key_ne); apply frontOps_other; key_ne.
Qed.

(** *** The invariant *)

Abbreviation canon' := (tail (below ++ c :: added)).

Lemma canon'_eq : gb :: canon' = below ++ c :: added.
Proof. destruct below; cbn in *; injection Hfork as <- _; done. Qed.

Lemma canon'_cases x : x ∈ gb :: canon' -> x ∈ below ++ [c] \/ x ∈ added.
Proof. rewrite canon'_eq. set_solver. Qed.

Lemma canon'_in x : x ∈ below ++ [c] \/ x ∈ added -> x <> gb -> x ∈ canon'.
Proof. intros Hx Hne. assert (x ∈ gb :: canon') as Hin by (rewrite canon'_eq; set_solver). by apply elem_of_cons in Hin as [->|]. Qed.

Lemma canon'_linked : linked gb canon'.
Proof.
  pose proof (ci_linked _ _ _ _ (inv_canon _ _ _ _ _ Hinv)) as Hl. destruct below as [|g r]; cbn [app tail] in *.
  - injection Hfork as E _. rewrite E. exact Hlink.
  - injection Hfork as <- E. rewrite E in Hl. apply linked_app in Hl as (Hl & E1 & E2 & _). apply linked_app. cbn [linked]. done.
Qed.

Context (d' : D) (Hd' : contents d' = C1).
Abbreviation bc' := (publish b s (with_db d' bc)).
Context (Hbetter : forall htd, work C0 (head bc) htd -> Better (mkTip (b_Header b) td') (mkTip (b_Header (head bc)) htd) = true).

Lemma moved_best x td htd :
  stored C1 x -> work C1 x td -> work C1 b htd -> Better (mkTip (b_Header x) td) (mkTip (b_Header b) htd) = false.
Proof.
  intros Hx Hw Hb. pose proof moved_gains as Hg. rewrite (work_inj _ _ _ _ Hb (gains_new_work _ _ _ _ _ _ _ _ Har _ Hg)).
  pose proof (head_stored _ _ _ _ _ Hinv) as Hh.
  destruct (si_td _ _ _ _ (inv_store _ _ _ _ _ Hinv) _ Hh) as [otd Hotd]. specialize (Hbetter otd Hotd).
  apply (gains_stored _ _ _ _ _ _ _ _ Har _ Hg) in Hx as [Hx| ->].
  - apply (gains_work _ _ _ _ _ _ _ _ Har _ Hg) in Hw; [|done].
    eapply fc_trans; [|apply fc_asym; exact Hbetter]. by apply (ci_best _ _ _ _ (inv_canon _ _ _ _ _ Hinv)).
  - rewrite (work_inj _ _ _ _ Hw (gains_new_work _ _ _ _ _ _ _ _ Har _ Hg)). apply better_irrefl. apply _.
Qed.

Lemma state_after x : x ∈ gb :: canon' -> states bc' !! Block_Hash x = stateFor (states bc) b s x.
Proof.
  intros _. cbn [publish with_head with_caches with_db states]. unfold stateFor.
  destruct (array_eqb_spec (Block_Hash x) (Block_Hash b)) as [->|E]; [apply lookup_insert_eq|by rewrite lookup_insert_ne].
Qed.

Lemma moved_ci_diff x t q :
  x ∈ canon' -> states bc' !! Block_Hash x = Some t -> states bc' !! ParentHash (b_Header x) = Some q ->
  exists r, C1 !! revDiffKey (Block_Hash x) = Some (encodeJSON diffC (diffOf t q r)) /\ covers r t q.
Proof.
  intros Hx Ht Hq. rewrite state_after in Ht by (by right). cbn [publish with_head with_caches with_db states] in Hq.
  assert (x ∈ below ++ [c] \/ x ∈ added) as [Hk|Ha] by (apply canon'_cases; by right).
  - pose proof (kept_stored x Hk) as Hs. pose proof (linked_lt _ _ _ canon'_linked Hx).
    assert (x <> gb) as Hg by (intros ->; lia).
    assert (x ∈ canon) as Hxc by (apply kept_canon, elem_of_cons in Hk as [->|]; done).
    rewrite lookup_insert_ne in Hq by (intros E; by apply (arrival_no_child _ _ _ _ _ _ _ _ Har x Hs Hg)).
    unfold stateFor in Ht. destruct (array_eqb_spec (Block_Hash x) (Block_Hash b)) as [E|_]; [by apply (fresh_ne _ _ _ _ _ _ _ _ Har) in E|].
    rewrite moved_diff by done. by apply (ci_diff _ _ _ _ (inv_canon _ _ _ _ _ Hinv)).
  - destruct (moved_joined x Ha) as (_ & t' & q' & Ht' & Hq' & Hd). rewrite Ht in Ht'. injection Ht' as <-.
    rewrite lookup_insert_ne in Hq by (intros E; by apply (added_parent x Ha)). rewrite Hq in Hq'. injection Hq' as <-.
    exists (Touched t). split; [done|]. by apply (added_covered x).
Qed.

(** The index names blocks of the new chain only. *)
Lemma moved_txs h v : C1 !! txIndexKey h = Some v -> indexed canon' h v.
Proof.
  rewrite moved_mid by key_ne. intros E. destruct (applyBatch_written _ _ _ _ E) as [(o & Ho & Ek & Ev)|E'].
  - pose proof (pt_redo _ _ Hpt) as Hr. rewrite Forall_forall in Hr. destruct (Hr o Ho) as [[a Ea]|[(h' & v' & Hx & ->)|(y & _ & [Ea|Ea])]];
      try (rewrite Ek in Ea; revert Ea; key_ne).
    cbn [op_key op_value] in Ek, Ev. apply txIndexKey_inj in Ek as ->. injection Ev as <-. destruct Hx as (x & i & tx & Hx & Hi).
    exists x, i, tx. split; [|done]. by apply canon'_in; [right|apply added_not_genesis].
  - assert (Forall (fun o => op_key o = txIndexKey h -> op_value o = None) undo) as Hdel.
    { eapply Forall_impl; [apply (pt_undo _ _ Hpt)|]. intros o [[a ->]|[[h' ->]|(y & Hy & ->)]]; done. }
    destruct (decide (txIndexKey h ∈ map op_key undo)) as [Hin|Hout].
    { rewrite applyBatch_deleted in E'; done. }
    destruct (applyBatch_deletes undo (applyBatch front C0) (txIndexKey h) Hdel) as [En|En]; rewrite En in E'; [|done].
    rewrite frontOps_other in E' by key_ne. destruct (ci_txs _ _ _ _ (inv_canon _ _ _ _ _ Hinv) h v E') as (x & i & tx & Hx & Hi & <- & ->).
    exists x, i, tx. split_and!; try done. assert (x ∈ below ++ c :: dropped) as Hb by (rewrite <- Hfork; set_solver).
    assert (x ∉ dropped) as Hnd. { intros Hd. apply Hout, (pt_unindexed _ _ Hpt x); [done|]. by eapply list_elem_of_lookup_2. }
    pose proof (linked_lt _ _ _ (ci_linked _ _ _ _ (inv_canon _ _ _ _ _ Hinv)) Hx). apply canon'_in; [left; set_solver|intros ->; lia].
Qed.

Lemma moved_canon : canon_inv canon' bc'.
Proof.
  pose proof moved_gains as Hg. pose proof (gains_stored _ _ _ _ _ _ _ _ Har _ Hg) as Hst. destruct moved_head as [Hh Hb].
  destruct (inv_canon _ _ _ _ _ Hinv) as [_ _ _ Ci _ _ Ct _ _ Cx].
  split; cbn [publish with_head with_caches with_db states db head]; rewrite ?Hd'.
  - apply canon'_linked.
  - apply Forall_forall. intros x [Hx|Hx]%canon'_cases; apply Hst; [left; by apply kept_stored|].
    apply added_cases in Hx as [->|Hx]; auto.
  - by rewrite canon'_eq, last_app_cons, last_cons, last_snoc.
  - intros x [Hx|Hx]%canon'_cases; [|by apply moved_joined].
    rewrite moved_canonical_low; [apply Ci, kept_canon, Hx|apply good_u64, kept_stored, Hx|by apply kept_low].
  - apply moved_canonical_high.
  - done.
  - intros t. rewrite lookup_insert_eq. intros [= <-]. destruct (inv_headState _ _ _ _ _ Hinv) as [hs Hhs].
    split; [|by left]. eapply moved_table; [exact Hhs|]. by apply Ct.
  - intros x t q. pose proof (moved_ci_diff x t q) as Hm. cbn [publish with_head with_caches with_db states] in Hm. exact Hm.
  - apply moved_best.
  - apply moved_txs.
Qed.

Lemma inv_moved : inv F canon' bc'.
Proof.
  pose proof moved_gains as Hg. split.
  - cbn [publish with_head with_caches with_db db]. rewrite Hd'. by eapply gains_store.
  - eapply gains_mem; [exact Har|exact Hg|done..].
  - apply moved_canon.
  - destruct (inv_config _ _ _ _ _ Hinv). split; try done; cbn [publish with_head with_caches with_db db genesis chainID];
      rewrite Hd', moved_names by auto; done.
  - cbn [publish with_head with_caches with_db states head]. by rewrite lookup_insert_eq.
Qed.

End Move.

End ChainStep.
