(* ===== verification/ChainProofs.v ===== *)
(** * Inserting a block keeps the invariant *)
From stdpp Require Import base numbers list gmap sorting.
From Stdlib Require Import ZArith Lia Strings.Byte.
From S2P Require Import Prelude Common Types VmBase Precompiles Vm VmProofs State StateProofs StateInv Transition BlockProofs.
From S2P Require Import BlockProofs Pow Genesis Json JsonCodec Store Schema SchemaProofs Blockchain ChainInv ChainMove ChainStep.
#[local] Open Scope Z_scope.
#[local] Open Scope list_scope.
#[local] Open Scope go_scope.
#[local] Open Scope chain_scope.

Section ChainProofs.
Context `{Crypto} `{Bn256} {D : Type} `{KVLaws D}.
Context (P : Header -> Prop) (gb : Block) `{!headers P gb}.

Abbreviation stored := (stored P).
Abbreviation goodBlock := (goodBlock P).
Abbreviation inv := (inv P gb).
Abbreviation arrival := (arrival P gb).

(** Only the contents of the store matter. *)
Lemma inv_db F canon (bc : Blockchain D) d' : contents d' = contents (db bc) -> inv F canon bc -> inv F canon (with_db d' bc).
Proof.
  intros Ed [Hs [Mc Ms Ma Mt] [C1 C2 C3 C4 C5 C6 C7 C8 C9] [G1 G2 G3 G4 G5 G6 G7 G8 G9] Hh].
  split; [by cbn; rewrite Ed| | | |done]; split; cbn [with_db db]; rewrite ?Ed; done.
Qed.

(** ** A block that does not win *)

Section Side.
Context (F : Z) (canon : list Block) (bc : Blockchain D) (b p : Block) (ps s : State) (ptd : Z).
Context (Har : arrival F canon bc b p ps s ptd) (receipts : list Receipt) (Hrs : receiptsOf b receipts).
Abbreviation td := (ptd + Difficulty (b_Header b)).
Abbreviation batch := (putTD (writeBlock [] b receipts) (Block_Hash b) td).
Abbreviation C := (contents (db bc)).
Context (Hworse : forall htd, work C (head bc) htd -> Better (mkTip (b_Header b) td) (mkTip (b_Header (head bc)) htd) = false).

Lemma side_ops : batch = frontOps b receipts td.
Proof. reflexivity. Qed.

Lemma side_other k :
  (forall h, blockKey h <> k) -> (forall h, receiptsKey h <> k) -> (forall h, tdKey h <> k) -> applyBatch batch C !! k = C !! k.
Proof. intros Hb Hr Ht. rewrite side_ops. by apply frontOps_other. Qed.

Lemma side_gains : gains C (applyBatch batch C) b td.
Proof.
  rewrite side_ops. split; [apply frontOps_blocks|apply frontOps_work| |split].
  3: { intros h Hh. by rewrite frontOps_receipts, decide_False. }
  2: { exists receipts. split; [|done]. by rewrite frontOps_receipts, decide_True. }
  apply applyBatch_good; [apply frontOps_good|apply (inv_store _ _ _ _ _ (ar_inv _ _ _ _ _ _ _ _ _ _ Har))].
Qed.

Context (d' : D) (Hd' : contents d' = applyBatch batch C).
Abbreviation bc' := (with_caches (<[Block_Hash b := b]> (blockCache bc)) (<[Block_Hash b := s]> (states bc)) (with_db d' bc)).

Lemma side_canon : canon_inv P gb canon bc'.
Proof.
  pose proof side_gains as Hg. pose proof (gains_stored _ _ _ _ _ _ _ _ _ _ Har _ Hg) as Hst.
  pose proof (ar_inv _ _ _ _ _ _ _ _ _ _ Har) as Hi. pose proof (inv_store _ _ _ _ _ Hi) as Hstore.
  destruct (inv_canon _ _ _ _ _ Hi) as [Cl Cs Ca Ci Cb Ch Ct Cd Cw Cx].
  pose proof (head_stored _ _ _ _ _ Hi) as Hhead.
  split; cbn [with_caches with_db states db head]; rewrite ?Hd'.
  - done.
  - eapply Forall_impl; [exact Cs|]. intros x Hx. apply Hst. by left.
  - done.
  - intros x Hx. rewrite side_other by (intros; key_ne). auto.
  - intros n Hn. rewrite side_other by (intros; key_ne). auto.
  - by rewrite side_other by (intros; key_ne).
  - intros t. rewrite lookup_insert_ne by (intros E; by apply (fresh_ne _ _ _ _ _ _ _ _ _ _ Har _ Hhead)). intros Ht.
    destruct (Ct t Ht) as [Htab Hb]. split.
    + eapply table_other; [|exact Htab]. intros a. apply side_other; intros; key_ne.
    + unfold burn_stored. by rewrite side_other by (intros; key_ne).
  - intros x t q Hx. assert (stored C x) as Hsx by (rewrite Forall_forall in Cs; apply Cs; by right).
    assert (x <> gb) as Hxg by (intros ->; pose proof (linked_lt _ _ _ Cl Hx); lia).
    rewrite !lookup_insert_ne.
    + rewrite side_other by (intros; key_ne). by apply Cd.
    + intros E. by apply (arrival_no_child _ _ _ _ _ _ _ _ _ _ Har x Hsx Hxg).
    + intros E. by apply (fresh_ne _ _ _ _ _ _ _ _ _ _ Har x Hsx).
  - intros x w htd [Hx| ->]%Hst Hw Hh; (apply (gains_work _ _ _ _ _ _ _ _ _ _ Har _ Hg) in Hh; [|done]).
    + apply (gains_work _ _ _ _ _ _ _ _ _ _ Har _ Hg) in Hw; [|done]. by apply Cw.
    + rewrite (work_inj _ _ _ _ Hw (gains_new_work _ _ _ _ _ _ _ _ _ _ Har _ Hg)). by apply Hworse.
  - intros h v. rewrite side_other by (intros; key_ne). auto.
Qed.

Lemma inv_side : inv F canon bc'.
Proof.
  pose proof side_gains as Hg. pose proof (ar_inv _ _ _ _ _ _ _ _ _ _ Har) as Hi. split.
  - cbn [with_caches with_db db]. rewrite Hd'. by eapply gains_store.
  - by eapply gains_mem.
  - apply side_canon.
  - destruct (inv_config _ _ _ _ _ Hi). split; try done; cbn [with_caches with_db db genesis chainID];
      rewrite Hd', side_other by (intros; key_ne); done.
  - cbn [with_caches with_db states head]. destruct (inv_headState _ _ _ _ _ Hi) as [t Ht].
    destruct (decide (Block_Hash b = Block_Hash (head bc))) as [->|E]; [by rewrite lookup_insert_eq|].
    rewrite lookup_insert_ne by done. by exists t.
Qed.

End Side.

(** ** Pruning *)

(** A block the collector may remove. *)
Definition orphan (C : gmap (list byte) (list byte)) (cutoff : Z) (x : Hash * Z) : Prop :=
  exists b, stored C b /\ Block_Hash b = fst x /\ Block_Height b = snd x /\ Block_Height b < cutoff /\ b <> gb.

Lemma belowCutoff_ok F C cutoff ks :
  store_inv P gb F C -> (forall k, k ∈ ks -> is_Some (C !! k) /\ hasPrefix k [prefixBlock] = true) ->
  exists below, belowCutoff (map (fun k => (k, default [] (C !! k))) ks) (Block_Hash gb) cutoff = Ok below
    /\ Forall (orphan C cutoff) below.
Proof.
  intros Hs. induction ks as [|k ks IH]; intros Hk; cbn [map belowCutoff]; [by exists []|].
  destruct IH as (below & Eb & Hb); [intros; apply Hk; set_solver|]. rewrite Eb. destruct (Hk k) as [Hsome Hp]; [set_solver|].
  assert (exists h, k = blockKey h) as [h ->].
  { destruct k as [|x k]; [done|]. unfold hasPrefix in Hp. apply bool_decide_eq_true in Hp. injection Hp as ->.
    by apply (proj2 (si_keys _ _ _ _ Hs _ Hsome) k). }
  destruct (si_blocks _ _ _ _ Hs h Hsome) as (b & [Hst Hg] & <-).
  assert (len (blockKey (Block_Hash b)) = 1 + Z.of_nat HashLength) as -> by (unfold blockKey; rewrite len_cons, len_abytes; done).
  rewrite Z.eqb_refl. cbn [negb]. change (tail (blockKey (Block_Hash b))) with (abytes (Block_Hash b)).
  rewrite array_of_abytes. destruct (array_eqb_spec (Block_Hash b) (Block_Hash gb)) as [E|E]; [by exists below|].
  rewrite Hst. cbn [default from_option id]. rewrite (decode_stored P) by done. cbn [res_bind toRaw rb_Header].
  eexists. split; [done|]. destruct (Z.ltb_spec (Height (b_Header b)) cutoff); [|done]. constructor; [|done].
  exists b. split_and!; [by split|done..|congruence].
Qed.

(** What the collector deletes. *)
Definition gc_ops (x : Hash * Z) : Batch :=
  [mkOp (blockKey (fst x)) None; mkOp (receiptsKey (fst x)) None; mkOp (revDiffKey (fst x)) None; mkOp (tdKey (fst x)) None].

Definition canonical (d : D) (x : Hash * Z) : Prop := contents d !! canonicalKey (snd x) = Some (abytes (fst x)).

Lemma gcDelete_ops d batch x :
  gcDelete d batch x = batch \/ gcDelete d batch x = batch ++ gc_ops x /\ ~ canonical d x.
Proof.
  unfold gcDelete, Batch_Delete, gc_ops. rewrite <- !app_assoc. cbn [app].
  destruct (getHash d (canonicalKey (snd x))) as [h|e|] eqn:E.
  - destruct (array_eqb_spec h (fst x)) as [|Hne]; [by left|]. right. split; [done|]. intros Hc%getHash_ok. congruence.
  - right. split; [done|]. intros Hc%getHash_ok. congruence.
  - right. split; [done|]. intros Hc%getHash_ok. congruence.
Qed.

Lemma gcDelete_fold d below batch :
  exists xs, fold_left (gcDelete d) below batch = batch ++ concat (map gc_ops xs)
    /\ (forall x, x ∈ xs -> x ∈ below /\ ~ canonical d x).
Proof.
  revert batch. induction below as [|x below IH]; intros batch; cbn [fold_left].
  { exists []. cbn. rewrite app_nil_r. split; [done|set_solver]. }
  destruct (IH (gcDelete d batch x)) as (xs & -> & Hxs). destruct (gcDelete_ops d batch x) as [->|[-> Hc]].
  - exists xs. split; [done|]. intros y Hy. destruct (Hxs y Hy). split; [set_solver|done].
  - exists (x :: xs). split; [cbn [map concat]; by rewrite app_assoc|]. intros y [->|Hy]%elem_of_cons; [split; [set_solver|done]|].
    destruct (Hxs y Hy). split; [set_solver|done].
Qed.

Lemma elem_of_concat {A} (x : A) ls : x ∈ concat ls <-> exists l, l ∈ ls /\ x ∈ l.
Proof. rewrite list_elem_of_In, in_concat. by setoid_rewrite list_elem_of_In. Qed.

Section Collect.
Context (F cutoff : Z) (canon : list Block) (bc : Blockchain D) (xs : list (Hash * Z)) (d' : D).
Abbreviation C0 := (contents (db bc)).
Abbreviation C1 := (applyBatch (concat (map gc_ops xs)) C0).
Context (Hi : inv F canon bc) (Hcut : cutoff <= F) (Hd' : contents d' = C1).
Context (Hxs : forall x, x ∈ xs -> orphan C0 cutoff x /\ ~ canonical (db bc) x).
Context (Hcached : forall h b, blockCache bc !! h = Some b -> cutoff <= Block_Height b \/ b = gb).

Lemma collect_deletes o : o ∈ concat (map gc_ops xs) -> exists x, x ∈ xs /\ o ∈ gc_ops x.
Proof. intros (l & (x & -> & Hx)%list_elem_of_fmap & Ho)%elem_of_concat. eauto. Qed.

Lemma collect_sub k v : C1 !! k = Some v -> C0 !! k = Some v.
Proof.
  destruct (applyBatch_deletes (concat (map gc_ops xs)) C0 k) as [->| ->]; [|done..].
  apply Forall_forall. intros o (x & _ & Ho)%collect_deletes _. unfold gc_ops in Ho. set_unfold. naive_solver.
Qed.

(** A key of no collected block. *)
Lemma collect_other k :
  (forall x, x ∈ xs -> blockKey (fst x) <> k /\ receiptsKey (fst x) <> k /\ revDiffKey (fst x) <> k /\ tdKey (fst x) <> k) ->
  C1 !! k = C0 !! k.
Proof.
  intros Hk. apply applyBatch_other, Forall_forall. intros o (x & Hx & Ho)%collect_deletes. destruct (Hk x Hx) as (? & ? & ? & ?).
  unfold gc_ops in Ho. set_unfold. naive_solver.
Qed.

Lemma collect_gone x : x ∈ xs -> C1 !! blockKey (fst x) = None.
Proof.
  intros Hx. apply applyBatch_deleted.
  - apply Forall_forall. intros o (y & _ & Ho)%collect_deletes _. unfold gc_ops in Ho. set_unfold. naive_solver.
  - apply list_elem_of_fmap. exists (mkOp (blockKey (fst x)) None). split; [done|]. apply elem_of_concat.
    exists (gc_ops x). split; [apply list_elem_of_fmap; eauto|]. unfold gc_ops. set_solver.
Qed.

Lemma collect_kept b : stored C0 b -> b ∈ gb :: canon \/ cutoff <= Block_Height b -> forall x, x ∈ xs -> fst x <> Block_Hash b.
Proof.
  intros Hb Hkeep x Hx E. destruct (Hxs x Hx) as [(b' & Hb' & Eh & En & Hlt & Hg) Hc]. rewrite E in Eh.
  apply (stored_inj P C0 b' b Hb' Hb) in Eh as ->. destruct Hkeep as [Hin|]; [|lia]. apply Hc. unfold canonical.
  rewrite E, <- En. by apply (ci_index _ _ _ _ (inv_canon _ _ _ _ _ Hi)).
Qed.

(** The rows of a block that stays. *)
Lemma collect_rows h : (forall x, x ∈ xs -> fst x <> h) ->
  C1 !! blockKey h = C0 !! blockKey h /\ C1 !! tdKey h = C0 !! tdKey h /\ C1 !! revDiffKey h = C0 !! revDiffKey h
  /\ C1 !! receiptsKey h = C0 !! receiptsKey h.
Proof.
  intros Hh. split_and!; apply collect_other; intros x Hx; specialize (Hh x Hx); split_and!; try key_ne.
  - by intros ?%blockKey_inj.
  - by intros ?%tdKey_inj.
  - by intros ?%revDiffKey_inj.
  - by intros ?%receiptsKey_inj.
Qed.

Lemma collect_stored b : stored C1 b -> stored C0 b /\ forall x, x ∈ xs -> fst x <> Block_Hash b.
Proof.
  intros [Hb Hg]. split; [split; [by apply collect_sub|done]|]. intros x Hx E. pose proof (collect_gone x Hx) as Hn.
  rewrite E, Hb in Hn. done.
Qed.

Lemma collect_stays b : stored C0 b -> b ∈ gb :: canon \/ cutoff <= Block_Height b -> stored C1 b.
Proof.
  intros Hb Hk. pose proof (collect_rows _ (collect_kept b Hb Hk)) as (E & _). destruct Hb as [Hb Hg]. split; [by rewrite E|done].
Qed.

Lemma collect_work b td : stored C1 b -> work C1 b td <-> work C0 b td.
Proof.
  intros [_ Hk]%collect_stored. destruct (collect_rows _ Hk) as (_ & E & _). unfold work. by rewrite E.
Qed.

Lemma collect_store : store_inv P gb F C1.
Proof.
  destruct (inv_store _ _ _ _ _ Hi) as [Sk Sb Sg S0 St Sa Sl Sw Sr]. split.
  - intros k [v Hv%collect_sub]. by apply Sk.
  - intros h [v Hv]. destruct (Sb h) as (b & Hb & <-); [exists v; by apply collect_sub|]. exists b. split; [|done].
    destruct Hb as [Hb Hg]. split; [|done]. rewrite Hv. apply collect_sub in Hv. congruence.
  - apply collect_stays; [done|left; set_solver].
  - apply collect_work; [|done]. apply collect_stays; [done|left; set_solver].
  - intros b Hb. destruct (St b) as [td Htd]; [by apply collect_stored|]. exists td. by apply collect_work.
  - intros b [Hb _]%collect_stored. auto.
  - intros b [Hb _]%collect_stored Hne. destruct (Sl b Hb Hne) as [(q & Hq & Eq)|]; [|by right].
    destruct (decide (cutoff <= Block_Height q)) as [Hge|Hlt].
    + left. exists q. split; [apply collect_stays; auto|done].
    + right. rewrite (accepted_height P gb b q (Sa b Hb Hne) (proj2 Hq) Eq). lia.
  - intros b q td qtd Hb Hne Hq Eq Hw Hqw. apply collect_work in Hw; [|done]. apply collect_work in Hqw; [|done].
    apply collect_stored in Hb as [Hb _]. apply collect_stored in Hq as [Hq _]. by eapply Sw.
  - intros b [Hb Hk]%collect_stored. destruct (Sr b Hb) as (rs & E & Hrs). exists rs. split; [|done].
    by destruct (collect_rows _ Hk) as (_ & _ & _ & ->).
Qed.

Lemma collect_outside k :
  (forall h, blockKey h <> k) -> (forall h, receiptsKey h <> k) -> (forall h, revDiffKey h <> k) -> (forall h, tdKey h <> k) ->
  C1 !! k = C0 !! k.
Proof. intros. apply collect_other. intros. done. Qed.

Lemma collect_mem : mem_inv P gb F (with_db d' bc).
Proof.
  destruct (inv_mem _ _ _ _ _ Hi) as [Mc Ms Ma Mt]. split; cbn [with_db db states blockCache genesisSupply]; rewrite ?Hd'; try done.
  - intros h b Hb. destruct (Mc h b Hb) as [E Hs]. split; [done|]. apply collect_stays; [done|].
    destruct (Hcached h b Hb) as [| ->]; [by right|left; set_solver].
  - intros b [Hb _]%collect_stored. auto.
  - intros b t q [Hb _]%collect_stored. eauto.
Qed.

Lemma collect_canon : canon_inv P gb canon (with_db d' bc).
Proof.
  destruct (inv_canon _ _ _ _ _ Hi) as [Cl Cs Ca Ci Cb Ch Ct Cd Cw Cx]. rewrite Forall_forall in Cs.
  split; cbn [with_db db states head]; rewrite ?Hd'; try done.
  - rewrite Forall_forall. intros b Hb. apply collect_stays; auto.
  - intros b Hb. rewrite collect_outside by (intros; key_ne). auto.
  - intros n Hn. rewrite collect_outside by (intros; key_ne). auto.
  - by rewrite collect_outside by (intros; key_ne).
  - intros t Ht. destruct (Ct t Ht) as [Htab Hbn]. split.
    + eapply table_other; [|exact Htab]. intros a. apply collect_outside; intros; key_ne.
    + unfold burn_stored. by rewrite collect_outside by (intros; key_ne).
  - intros b t q Hb. destruct (collect_rows _ (collect_kept b ltac:(apply Cs; by right) ltac:(left; by right))) as (_ & _ & -> & _). auto.
  - intros b td htd Hb Hw Hh. apply collect_work in Hw; [|done].
    assert (head bc ∈ gb :: canon) as Hin by (apply last_Some in Ca as [l' ->]; set_solver).
    apply collect_work in Hh; [|apply collect_stays; auto]. apply collect_stored in Hb as [Hb _]. auto.
  - intros h v. rewrite collect_outside by (intros; key_ne). auto.
Qed.

Lemma inv_collect : inv F canon (with_db d' bc).
Proof.
  split.
  - cbn [with_db db]. rewrite Hd'. apply collect_store.
  - apply collect_mem.
  - apply collect_canon.
  - destruct (inv_config _ _ _ _ _ Hi). split; try done; cbn [with_db db genesis chainID]; rewrite Hd', collect_outside by (intros; key_ne); done.
  - exact (inv_headState _ _ _ _ _ Hi).
Qed.

End Collect.

(** What leaves memory below a cutoff. *)
Lemma inv_cut F canon (bc : Blockchain D) cutoff :
  inv F canon bc -> cutoff <= Block_Height (head bc) ->
  inv (Z.max F cutoff) canon
    (with_caches (liveBlocks (blockCache bc) (genesis bc) cutoff) (liveStates (blockCache bc) (states bc) cutoff) bc).
Proof.
  intros [Hs [Mc Ms Ma Mt] [Cl Cst Ca Ci Cb Ch Ct Cd Cw Cx] Hcf [hs Hhs]] Hcut.
  assert (forall h s, liveStates (blockCache bc) (states bc) cutoff !! h = Some s -> states bc !! h = Some s) as Hsub.
  { intros h s [Hl _]%map_lookup_filter_Some. done. }
  assert (forall b s, stored (contents (db bc)) b -> cutoff <= Block_Height b -> states bc !! Block_Hash b = Some s ->
    liveStates (blockCache bc) (states bc) cutoff !! Block_Hash b = Some s) as Hkeep.
  { intros b s Hb Hge Hl. apply map_lookup_filter_Some. split; [done|]. destruct (Ms _ _ Hl) as (b' & Hb' & _ & _).
    destruct (Mc _ _ Hb') as [E Hsb]. apply (stored_inj P _ b' b Hsb Hb) in E as ->. cbn [fst]. rewrite Hb'. by apply Z.leb_le. }
  split; cbn [with_caches db].
  - destruct Hs as [Sk Sb Sg S0 St Sa Sl Sw Sr]. split; try done. intros b Hb Hne. destruct (Sl b Hb Hne); [by left|right; lia].
  - split; cbn [with_caches db blockCache states genesisSupply].
    + intros h b [Hl _]%map_lookup_filter_Some. auto.
    + intros h s Hl. pose proof Hl as [Hs' Hc]%map_lookup_filter_Some. destruct (Ms _ _ Hs') as (b & Hb & HF & Hok). cbn [fst] in Hc.
      rewrite Hb in Hc. apply Z.leb_le in Hc. exists b. split_and!; [|lia|done].
      apply map_lookup_filter_Some. split; [done|]. by left.
    + intros b Hb HF. destruct (Ma b Hb) as [s Hl]; [lia|]. exists s. apply Hkeep; [done|lia|done].
    + intros b s q Hb Hne Hl%Hsub Hq%Hsub. eauto.
  - split; cbn [with_caches db states head]; try done.
    + intros s Hl%Hsub. auto.
    + intros b s q Hb Hl%Hsub Hq%Hsub. auto.
  - by destruct Hcf.
  - cbn [with_caches states head]. exists hs. apply Hkeep; [|done..]. rewrite Forall_forall in Cst. apply Cst.
    apply last_Some in Ca as [l' ->]. set_solver.
Qed.

(** What never changes. *)
Definition same_config (bc bc' : Blockchain D) : Prop :=
  chainID bc' = chainID bc /\ genesis bc' = genesis bc /\ genesisDifficulty bc' = genesisDifficulty bc
  /\ retention bc' = retention bc /\ genesisSupply bc' = genesisSupply bc /\ split bc' = split bc.

(** The collector removes orphans or nothing. *)
Lemma gcOrphans_ok F canon (bc : Blockchain D) cutoff :
  inv F canon bc -> cutoff <= F -> (forall h b, blockCache bc !! h = Some b -> cutoff <= Block_Height b \/ b = gb) ->
  exists d', gcOrphans cutoff bc = (with_db d' bc, Returns tt) /\ inv F canon (with_db d' bc).
Proof.
  intros Hi Hcut Hc. unfold gcOrphans. rewrite Iterate_law, (cf_genesis _ _ (inv_config _ _ _ _ _ Hi)).
  destruct (scan_keys (contents (db bc)) [prefixBlock]) as (ks & -> & _ & Hks).
  destruct (belowCutoff_ok F (contents (db bc)) cutoff ks (inv_store _ _ _ _ _ Hi)) as (below & -> & Hb); [intros; by apply Hks|].
  destruct (gcDelete_fold (db bc) below []) as (xs & -> & Hxs). cbn [app].
  destruct (0 <? _); [|exists (db bc); by destruct bc]. unfold commit.
  destruct (Commit_law (db bc) (concat (map gc_ops xs))) as [(d' & -> & Ed)|(d' & e & -> & Ed)]; exists d'; (split; [done|]).
  - eapply inv_collect; [done..| |done]. rewrite Forall_forall in Hb. intros x Hx. destruct (Hxs x Hx). auto.
  - by apply inv_db.
Qed.

(** Pruning always succeeds: it raises the floor and keeps the chain. *)
Lemma prune_ok F canon (bc : Blockchain D) :
  inv F canon bc ->
  exists bc' F', prune bc = (bc', Returns tt) /\ F <= F' /\ inv F' canon bc' /\ head bc' = head bc /\ same_config bc bc'.
Proof.
  intros Hi. unfold prune. destruct (Z.leb_spec (Block_Height (head bc)) (retention bc)) as [|Hgt].
  { exists bc, F. split_and!; [done|lia|done..]. }
  pose proof (head_stored _ _ _ _ _ Hi) as Hh.
  pose proof (stored_height P _ _ Hh). pose proof (cf_retention _ _ (inv_config _ _ _ _ _ Hi)).
  unfold u64. rewrite (Z.mod_small (Block_Height (head bc) - retention bc)) by lia. set (cutoff := Block_Height (head bc) - retention bc).
  pose proof (inv_cut F canon bc cutoff Hi ltac:(lia)) as Hi'. cbn [with_caches head].
  destruct (_ =? 0); [|eexists _, _; split; [done|]; split_and!; [|exact Hi'|done..]; lia].
  edestruct (gcOrphans_ok _ _ _ cutoff Hi') as (d' & -> & Hi''); [lia| |].
  { intros h b [Hl Hb]%map_lookup_filter_Some. cbn [fst snd] in Hb. destruct Hb as [|Eh]; [by left|right].
    destruct (mi_cache _ _ _ _ (inv_mem _ _ _ _ _ Hi) _ _ Hl) as [E Hs].
    apply (stored_inj P _ b gb Hs); [apply (si_genesis _ _ _ _ (inv_store _ _ _ _ _ Hi))|].
    by rewrite E, Eh, (cf_genesis _ _ (inv_config _ _ _ _ _ Hi)). }
  eexists _, _. split; [done|]. split_and!; [|exact Hi''|done..]. lia.
Qed.

End ChainProofs.
