(* ===== verification/ChainInsert.v ===== *)
(** * [InsertBlock]

    Whatever block a node is offered, it neither panics nor loops; a refusal
    changes nothing; an acceptance stores the block and leaves the invariant
    true of a canonical chain that is the old one, the old one extended, or
    the old one with a branch exchanged for the block's. *)
From stdpp Require Import base numbers list gmap sorting.
From Stdlib Require Import ZArith Lia Strings.Byte.
From S2P Require Import Prelude Common Types VmBase Precompiles Vm VmProofs State StateProofs StateInv Transition BlockProofs.
From S2P Require Import BlockProofs Pow Genesis Json JsonCodec Store Schema SchemaProofs.
From S2P Require Import Blockchain ChainInv ChainMove ChainStep ChainProofs.
#[local] Open Scope Z_scope.
#[local] Open Scope list_scope.
#[local] Open Scope go_scope.
#[local] Open Scope chain_scope.

Section ChainInsert.
Context `{Crypto} `{Bn256} {D : Type} `{KVLaws D}.
Context (P : Header -> Prop) (gb : Block) `{!headers P gb}.

Abbreviation stored := (stored P).
Abbreviation goodBlock := (goodBlock P).
Abbreviation inv := (inv P gb).
Abbreviation arrival := (arrival P gb).

(** Nothing a later call could see has changed. *)
Definition unchanged (bc bc' : Blockchain D) : Prop :=
  contents (db bc') = contents (db bc) /\ states bc' = states bc /\ head bc' = head bc /\ same_config bc bc'.

(** How accepting [b] changes the canonical chain, and what the reorg hook hears. *)
Inductive inserted (canon : list Block) (b : Block) : list Block -> option Reorg -> Prop :=
  | ins_side : inserted canon b canon None
  | ins_extend : inserted canon b (canon ++ [b]) None
  | ins_reorg below c dropped l :
      gb :: canon = below ++ c :: dropped ->
      inserted canon b (tail (below ++ c :: l ++ [b])) (Some (mkReorg (Block_Hash c) dropped (l ++ [b]))).

Lemma same_unchanged bc bc' : same bc bc' -> unchanged bc bc'.
Proof.
  intros Hs. destruct (same_fields _ _ Hs) as (E1 & E2 & E3 & E4 & E5 & E6 & E7 & E8 & E9). by split_and!; [rewrite E1|..].
Qed.

(** ** The last steps of a move *)

Definition finish (batch : Batch) (b : Block) (s : State) : op D unit :=
  let# _ := commit batch in
  let# _ := op_modify (publish b s) in
  prune.

Lemma finish_bind {A} batch b s (k : unit -> op D A) bc :
  op_bind (commit batch) (fun _ => op_bind (op_modify (publish b s)) (fun _ => op_bind prune k)) bc = op_bind (finish batch b s) k bc.
Proof. unfold finish, op_bind. by destruct (commit batch bc) as [bc' [[]|e| |]]. Qed.

Section Move.
Context (F : Z) (canon : list Block) (bc : Blockchain D) (b p : Block) (ps s : State) (ptd : Z).
Context (Har : arrival F canon bc b p ps s ptd) (receipts : list Receipt) (Hrs : receiptsOf b receipts).
Abbreviation td := (ptd + Difficulty (b_Header b)).
Abbreviation C := (contents (db bc)).
Context (Hbetter : forall htd, work C (head bc) htd -> Better (mkTip (b_Header b) td) (mkTip (b_Header (head bc)) htd) = true).

Lemma finish_ok below c dropped l batch1 batch2 :
  gb :: canon = below ++ c :: dropped -> linked c (l ++ [b]) -> Forall (stored C) l ->
  unwind (db bc) (putTD (writeBlock [] b receipts) (Block_Hash b) td) (rev dropped) = Ok batch1 ->
  rewind (states bc) b s batch1 (l ++ [b]) = Ok batch2 ->
  let batch := putBigInt (putHash batch2 keyHead (Block_Hash b)) keyBurned (Some (Burned s)) in
  match finish batch b s bc with
  | (bc', Returns _) => exists F', F <= F' /\ inv F' (tail (below ++ c :: l ++ [b])) bc' /\ head bc' = b /\ same_config bc bc'
  | (bc', Raises _) => inv F canon bc' /\ unchanged bc bc'
  | _ => False
  end.
Proof.
  intros Hfork Hlink Hside Hun Hre batch.
  destruct (batch_parts _ _ _ _ _ _ _ _ _ _ Har below c dropped l receipts Hfork Hlink Hside batch1 batch2 Hun Hre)
    as (undo & redo & Hpt).
  unfold finish, op_bind, commit. destruct (Commit_law (db bc) batch) as [(d' & -> & Ed)|(d' & e & -> & Ed)].
  - cbn [op_modify]. unfold op_modify.
    pose proof (inv_moved _ _ _ _ _ _ _ _ _ _ Har _ _ _ _ _ Hrs Hfork Hlink Hside _ _ Hun Hre _ _ Hpt d' Ed Hbetter) as Hi.
    destruct (prune_ok P gb F _ _ Hi) as (bc' & F' & -> & HF & Hi' & Eh & Hc). exists F'. split_and!; [done..|].
    exact Hc.
  - split; [|done]. apply inv_db; [done|apply Har].
Qed.

Lemma extend_ok :
  Block_Hash p = Block_Hash (head bc) ->
  match extend b receipts s (Touched s) td bc with
  | (bc', Returns _) => exists F', F <= F' /\ inv F' (canon ++ [b]) bc' /\ head bc' = b /\ same_config bc bc'
  | (bc', Raises _) => inv F canon bc' /\ unchanged bc bc'
  | _ => False
  end.
Proof.
  intros Ep. pose proof Har as [Hi Hf Hg Ha Hp El Hps Hok Hcov Hptd]. unfold extend. unfold op_bind at 1, op_get.
  rewrite El, Hps. pose proof (ci_last _ _ _ _ (inv_canon _ _ _ _ _ Hi)) as Hl.
  apply (stored_inj P C p (head bc) Hp (head_stored _ _ _ _ _ Hi)) in Ep. apply last_Some in Hl as [below E]. rewrite <- Ep in E.
  assert (tail (below ++ p :: [] ++ [b]) = canon ++ [b]) as Et.
  { change (p :: [] ++ [b]) with ([p] ++ [b]). by rewrite app_assoc, <- E. }
  pose proof (finish_ok below p [] [] (putTD (writeBlock [] b receipts) (Block_Hash b) td)) as Hfin. rewrite Et in Hfin.
  eapply Hfin; [done| |done|done|].
  - cbn [app linked]. split_and!; [done| |done]. apply (accepted_height P gb b p Ha (proj2 Hp) El).
  - cbn [app rewind]. destruct (array_eqb_spec (Block_Hash b) (Block_Hash b)); [|done]. by rewrite El, Hps.
Qed.

(** What [reorg] does once the fork is known. *)
Definition exchange (dropped added : list Block) (anc : Hash) : op D Reorg :=
  let# limit := op_get retention in
  if limit <? len dropped then op_fail ErrReorgTooDeep
  else
    let batch := putTD (writeBlock [] b receipts) (Block_Hash b) td in
    let# d := op_get db in
    let# batch := op_res (unwind d batch (rev dropped)) in
    let# ss := op_get states in
    let# batch := op_res (rewind ss b s batch added) in
    let batch := putHash batch keyHead (Block_Hash b) in
    let batch := putBigInt batch keyBurned (Some (Burned s)) in
    let# _ := commit batch in
    let# _ := op_modify (publish b s) in
    let# _ := prune in
    op_ret (mkReorg anc dropped added).

Lemma exchange_ok below c dropped l :
  gb :: canon = below ++ c :: dropped -> linked c (l ++ [b]) -> Forall (stored C) l ->
  match exchange dropped (l ++ [b]) (Block_Hash c) bc with
  | (bc', Returns r) => exists F' canon', F <= F' /\ inv F' canon' bc' /\ inserted canon b canon' (Some r)
      /\ head bc' = b /\ same_config bc bc'
  | (bc', Raises _) => inv F canon bc' /\ unchanged bc bc'
  | _ => False
  end.
Proof.
  intros Hfork Hlink Hside. pose proof (ar_inv _ _ _ _ _ _ _ _ _ _ Har) as Hi.
  assert (inv F canon bc /\ unchanged bc bc) as Hsame by (split; [done|by apply same_unchanged, same_refl]).
  unfold exchange. unfold op_bind at 1, op_get. destruct (retention bc <? len dropped); [done|].
  unfold op_bind at 1. unfold op_bind at 1, op_res at 1. pose proof (unwind_no_panic (db bc) (rev dropped)) as Hp1.
  destruct (unwind (db bc) _ (rev dropped)) as [batch1|e|] eqn:Hun; [|done|by apply Hp1 in Hun].
  unfold op_bind at 1. unfold op_bind at 1, op_res at 1. pose proof (rewind_no_panic (states bc) b s (l ++ [b]) batch1) as Hp2.
  destruct (rewind (states bc) b s batch1 (l ++ [b])) as [batch2|e|] eqn:Hre; [|done|done].
  pose proof (finish_ok below c dropped l batch1 batch2 Hfork Hlink Hside Hun Hre) as Hfin. cbv zeta in Hfin.
  cbv zeta. rewrite finish_bind. unfold op_bind at 1. destruct (finish _ b s bc) as [bc' [u|e| |]]; try done. destruct Hfin as (F' & HF & Hi' & Eh & Hc).
  exists F', (tail (below ++ c :: l ++ [b])). split_and!; [done..| |done|done]. by constructor.
Qed.

End Move.

Lemma arrival_same F canon bc bc' b p ps s ptd :
  same bc bc' -> inv F canon bc' -> arrival F canon bc b p ps s ptd -> arrival F canon bc' b p ps s ptd.
Proof.
  intros Hs Hi' [Hi Hf Hg Ha Hp El Hps Hok Hcov Hptd]. destruct (same_fields _ _ Hs) as (Ed & _ & _ & _ & _ & Eg & _ & Es & _).
  by split; rewrite ?Ed, ?Eg, ?Es.
Qed.

Lemma same_config_trans (bc bc' bc'' : Blockchain D) : same_config bc bc' -> same_config bc' bc'' -> same_config bc bc''.
Proof. unfold same_config. intros (? & ? & ? & ? & ? & ?) (? & ? & ? & ? & ? & ?). split_and!; congruence. Qed.

Lemma unchanged_trans bc bc' bc'' : unchanged bc bc' -> unchanged bc' bc'' -> unchanged bc bc''.
Proof.
  intros (E1 & E2 & E3 & E4) (E1' & E2' & E3' & E4'). split_and!; [congruence..|by eapply same_config_trans].
Qed.

Lemma reorg_ok F canon bc b p ps s ptd receipts :
  arrival F canon bc b p ps s ptd -> receiptsOf b receipts ->
  (forall htd, work (contents (db bc)) (head bc) htd ->
     Better (mkTip (b_Header b) (ptd + Difficulty (b_Header b))) (mkTip (b_Header (head bc)) htd) = true) ->
  match reorg b receipts s (ptd + Difficulty (b_Header b)) bc with
  | (bc', Returns r) => exists F' canon', F <= F' /\ inv F' canon' bc' /\ inserted canon b canon' (Some r)
      /\ head bc' = b /\ same_config bc bc'
  | (bc', Raises _) => inv F canon bc' /\ unchanged bc bc'
  | _ => False
  end.
Proof.
  intros Har Hrs Hbetter. pose proof Har as [Hi Hf Hg Ha Hp El Hps Hok Hcov Hptd].
  unfold reorg. unfold op_bind at 1, op_get at 1. unfold op_bind at 1.
  pose proof (findFork_reads P gb F canon bc Hi b Hf Hg Ha bc (same_refl bc) Hi) as Hfork.
  destruct (findFork (head bc) b bc) as [bc1 [[[dropped added] anc]|e| |]]; destruct Hfork as (Hi1 & Hs1 & Hfork); try done.
  2: { split; [done|by apply same_unchanged]. }
  destruct Hfork as (c & [below Eb] & (Hlink & Hlast & Hside) & -> & Hsc). pose proof (same_unchanged _ _ Hs1) as Hu1.
  destruct (same_fields _ _ Hs1) as (Ed & _ & _ & _ & _ & _ & _ & _ & Eh).
  apply last_Some in Hlast as [l' El']. destruct l' as [|x l]; cbn [app] in El'.
  { injection El' as -> _. by apply (fresh_ne _ _ _ _ _ _ _ _ _ _ Har) in Hsc. }
  injection El' as <- ->.
  assert (Forall (stored (contents (db bc1))) l) as Hl.
  { rewrite Ed. apply Forall_cons in Hside as [_ Hside]. apply Forall_app in Hside as [Hside _]. rewrite Forall_forall in *.
    intros y Hy. destruct (Hside y Hy) as [->|]; [|done]. assert (Block_Height b < Block_Height b) by (by eapply linked_snoc_lt). lia. }
  pose proof (exchange_ok F canon bc1 b p ps s ptd (arrival_same _ _ _ _ _ _ _ _ _ Hs1 Hi1 Har) receipts Hrs) as Hex.
  rewrite Ed, Eh in Hex. specialize (Hex Hbetter below c dropped l Eb Hlink). rewrite Ed in Hl. specialize (Hex Hl).
  change (match exchange b s ptd receipts dropped (l ++ [b]) (Block_Hash c) bc1 with
  | (bc', Returns r) => exists F' canon', F <= F' /\ inv F' canon' bc' /\ inserted canon b canon' (Some r)
      /\ head bc' = b /\ same_config bc bc'
  | (bc', Raises _) => inv F canon bc' /\ unchanged bc bc'
  | _ => False
  end).
  destruct (exchange b s ptd receipts dropped (l ++ [b]) (Block_Hash c) bc1) as [bc' [r|e| |]]; try done.
  - destruct Hex as (F' & canon' & HF & Hi' & Hins & Eh' & Hc'). exists F', canon'. split_and!; [done..|].
    eapply same_config_trans; [apply Hu1|done].
  - destruct Hex as [Hi' Hu']. split; [done|]. by eapply unchanged_trans.
Qed.

(** ** The whole insertion *)

Lemma Touched_covers s ps : (forall a, a ∉ touched s -> accounts s !! a = accounts ps !! a) -> covers (Touched s) s ps.
Proof. intros Ht a Ha. apply Ht. intros Hin. apply Ha. unfold Touched. rewrite sort_arrays_Permutation. by apply elem_of_elements. Qed.

(** The line of a stored block. *)
Lemma stored_mined F canon bc p : inv F canon bc -> stored (contents (db bc)) p -> exists l, mined P gb (b_Header p :: l).
Proof.
  intros Hi Hp. destruct (decide (Block_Hash p = Block_Hash gb)) as [E|E].
  - apply (stored_inj P _ p gb Hp (si_genesis _ _ _ _ (inv_store _ _ _ _ _ Hi))) in E as ->. exists []. constructor.
  - destruct (si_accepted _ _ _ _ (inv_store _ _ _ _ _ Hi) p Hp) as (ph & _ & _ & _ & _ & _ & _ & _ & l & Hl); [by intros ->|]. by exists (ph :: l).
Qed.

(** A block that passes the checks and follows its parent by the rules is mined, and sane as the chain has not overgrown. *)
Lemma checked_mined F canon bc header b p :
  inv F canon bc -> checked P gb (contents (db bc)) header b p -> checkParent (b_Header b) (b_Header p) = Ok tt ->
  (exists l, mined P gb (b_Header b :: b_Header p :: l)) /\ sane_header (b_Header b).
Proof.
  intros Hi [<- HP Htxs Hp El Hpow Htx Htime Hwork] Hck. destruct (stored_mined F canon bc p Hi Hp) as [l Hl].
  assert (mined P gb (b_Header b :: b_Header p :: l)) as Hm by (constructor; auto). split; [by exists l|].
  destruct (P_grow P gb _ _ _ Hm) as [Hgas Hh]. pose proof (P_wf P gb _ HP) as Hw.
  pose proof (proj2 Hp) as [_ [Hwp [Htp _] _ _] _].
  apply checkParent_ok in Hck as (_ & _ & Et & Elim & _); [|apply Hw|apply Hwp].
  assert (MinBlockGasLimit = 1000000) as Emin by done. unfold maxTime in Htime. destruct Hw as [? ? ? ? ? ?].
  split; [done|split; [lia|done]|lia|done].
Qed.

(** Executing a block that passes the checks. *)
Lemma execute_arrival F canon bc header b p ps :
  inv F canon bc -> checked P gb (contents (db bc)) header b p -> contents (db bc) !! blockKey (Block_Hash b) = None ->
  states bc !! Block_Hash p = Some ps ->
  match ApplyBlock (split bc) ps b (Some (b_Header p)) with
  | Returns (s, rs) => receiptsOf b rs /\ exists ptd, work (contents (db bc)) p ptd /\ arrival F canon bc b p ps s ptd
  | Raises _ => True
  | _ => False
  end.
Proof.
  intros Hi Hchk Hf Hps. pose proof Hchk as [Ehd HP Htxs Hp El Hpow Htx _ _]. destruct (mi_states _ _ _ _ (inv_mem _ _ _ _ _ Hi) _ _ Hps) as (p' & Hc & _ & Hok).
  destruct (mi_cache _ _ _ _ (inv_mem _ _ _ _ _ Hi) _ _ Hc) as [Ep Hp']. apply (stored_inj P _ p' p Hp' Hp) in Ep as ->.
  pose proof (proj2 Hp) as [HPp [Hwp _ Hgasp Hmp] _].
  assert (checkParent (b_Header b) (b_Header p) = Ok tt \/ checkParent (b_Header b) (b_Header p) <> Ok tt) as [Hck|Hck].
  { destruct (checkParent _ _) as [[]| |]; auto. }
  2: { destruct (ApplyBlock_bad_parent (split bc) ps b (b_Header p) Hck) as [e ->]. done. }
  destruct (checked_mined F canon bc header b p Hi Hchk Hck) as [Hmined Hsane]. pose proof Hsane as [Hw _ Hgas Hm].
  assert (goodBlock b) as Hg by done.
  assert (Forall sound_tx (b_Txs b)) as Hsound by (eapply Forall_impl; [exact Htxs|]; by intros tx []).
  pose proof (ApplyBlock_spec (split bc) ps b (Some (b_Header p)) (so_wf _ _ _ Hok)
    (cf_split _ _ (inv_config _ _ _ _ _ Hi)) Hsound Hgas) as Ha.
  destruct (ApplyBlock _ ps b _) as [[s rs]|e| |]; try done. destruct Ha as [[Bw Bs Bsup Bsr _ Brr [Blen _] Bwd Bt _ Bn Bsn] Hcp].
  apply checkParent_ok in Hcp as (_ & Eh & Et & El' & _); [|apply Hw|apply Hwp].
  destruct Hwp as [Hhp _ _ _ _ _]. unfold is_u64 in Hhp. unfold u64 in Eh. rewrite Z.mod_small in Eh by lia.
  destruct (si_td _ _ _ _ (inv_store _ _ _ _ _ Hi) p Hp) as [ptd Hptd]. split; [done|]. exists ptd. split; [done|]. split; try done.
  - exists (b_Header p). split_and!; [apply Hp|done..].
  - split; try done. rewrite Bsup, (so_supply _ _ _ Hok). unfold Block_Height. rewrite Eh.
    replace (Z.to_nat (Height (b_Header p) + 1)) with (S (Z.to_nat (Height (b_Header p)))) by lia. cbn [issued].
    replace (Z.of_nat (S (Z.to_nat (Height (b_Header p))))) with (Height (b_Header p) + 1) by lia. lia.
  - by apply Touched_covers.
Qed.

(** What an insertion ends with. *)
Definition insertion (F : Z) (canon : list Block) (bc : Blockchain D) (raw : rawBlock) (res : Blockchain D * callres error (option Reorg)) : Prop :=
  match res with
  | (bc', Returns ro) => exists F' canon' b, F <= F' /\ inv F' canon' bc' /\ same_config bc bc'
      /\ rb_Header raw = Some (b_Header b) /\ allTxs (rb_Txs raw) = Some (b_Txs b)
      /\ contents (db bc) !! blockKey (Block_Hash b) = None /\ stored (contents (db bc')) b /\ inserted canon b canon' ro
  | (bc', Raises _) => inv F canon bc' /\ unchanged bc bc'
  | _ => False
  end.

Lemma insertion_same F canon bc bc' raw r : unchanged bc bc' -> insertion F canon bc' raw r -> insertion F canon bc raw r.
Proof.
  intros Hu. destruct r as [bc'' [ro|e| |]]; try done; cbn.
  - intros (F' & canon' & b & HF & Hi & Hc & Hr & Ht & Hn & Hs & Hins). exists F', canon', b.
    destruct Hu as (Ed & _ & _ & Hc'). rewrite Ed in Hn. split_and!; try done. by eapply same_config_trans.
  - intros [Hi Hu']. split; [done|]. by eapply unchanged_trans.
Qed.

(** The decision, once the block is executed. *)
Lemma decide_ok F canon bc raw b p ps s ptd rs htd :
  arrival F canon bc b p ps s ptd -> receiptsOf b rs -> rb_Header raw = Some (b_Header b) -> allTxs (rb_Txs raw) = Some (b_Txs b) ->
  work (contents (db bc)) (head bc) htd ->
  let td := ptd + Difficulty (b_Header b) in
  insertion F canon bc raw (
    (if negb (Better (mkTip (b_Header b) td) (mkTip (b_Header (head bc)) htd)) then
       let# _ := keepSide b rs s td in op_ret None
     else if array_eqb (ParentHash (b_Header b)) (Block_Hash (head bc)) then
       let# _ := extend b rs s (Touched s) td in op_ret None
     else
       let# r := reorg b rs s td in op_ret (Some r)) bc).
Proof.
  intros Har Hrs Hr Ht Hh td. pose proof Har as [Hi Hf Hg Ha Hp El Hps Hok Hcov Hptd].
  assert (forall F' canon' bc', inv F' canon' bc' -> head bc' = b -> stored (contents (db bc')) b) as Hst.
  { intros F' canon' bc' Hi' <-. by eapply head_stored. }
  destruct (Better _ _) eqn:Eb; cbn [negb].
  - assert (forall w, work (contents (db bc)) (head bc) w ->
      Better (mkTip (b_Header b) td) (mkTip (b_Header (head bc)) w) = true) as Hbetter
      by (intros w Hw; by rewrite (work_inj _ _ _ _ Hw Hh)).
    destruct (array_eqb_spec (ParentHash (b_Header b)) (Block_Hash (head bc))) as [E|E]; unfold op_bind at 1.
    + rewrite El in E. pose proof (extend_ok F canon bc b p ps s ptd Har rs Hrs Hbetter E) as Hex.
      fold td in Hex. destruct (extend b rs s (Touched s) td bc) as [bc' [u|e| |]]; try done.
      destruct Hex as (F' & HF & Hi' & Eh & Hc). exists F', (canon ++ [b]), b. split_and!; try done; [by eapply Hst|constructor].
    + pose proof (reorg_ok F canon bc b p ps s ptd rs Har Hrs Hbetter) as Hex.
      fold td in Hex. destruct (reorg b rs s td bc) as [bc' [r|e| |]]; try done.
      destruct Hex as (F' & canon' & HF & Hi' & Hins & Eh & Hc). exists F', canon', b. split_and!; try done. by eapply Hst.
  - unfold keepSide, op_bind, commit. pose proof (inv_side P gb F canon bc b p ps s ptd Har rs Hrs) as Hside.
    destruct (Commit_law (db bc) (putTD (writeBlock [] b rs) (Block_Hash b) td)) as [(d' & -> & Ed)|(d' & e & -> & Ed)].
    + cbn [op_modify]. unfold op_modify, op_ret. exists F, canon, b. split_and!; try done; [|..|constructor].
      * apply Hside; [|done]. intros w Hw. by rewrite (work_inj _ _ _ _ Hw Hh).
      * cbn [with_caches with_db db]. rewrite Ed. by apply (gains_stored _ _ _ _ _ _ _ _ _ _ Har _ (side_gains _ _ _ _ _ _ _ _ _ _ Har rs Hrs)); right.
    + split; [by apply inv_db|done].
Qed.

Lemma checkBlock_txs raw header now (bc : Blockchain D) :
  match checkBlock raw header now bc with (_, Returns (b, _)) => allTxs (rb_Txs raw) = Some (b_Txs b) | _ => True end.
Proof.
  unfold checkBlock. destruct (allTxs (rb_Txs raw)) as [txs|]; [|done]. unfold op_bind, op_get.
  destruct (op_else _ _ bc) as [bc1 [p|e| |]]; try done. destruct (_ <? _); [done|].
  destruct (requiredDifficultyLocked _ bc1) as [bc2 [w|e| |]]; try done. destruct (negb (_ =? w)); [done|].
  destruct (satisfiesPoW header); [|done]. destruct (VerifyTxRoot _); [|done]. cbn [negb].
  by destruct (fold_left _ txs _).
Qed.

Lemma insert_ok F canon bc raw now :
  inv F canon bc -> offered P raw -> clockRange now -> insertion F canon bc raw (insert raw now bc).
Proof.
  intros Hi Ho Hnow. pose proof Ho as [(header & Er & HP) _]. unfold insert. rewrite Er.
  assert (forall e, insertion F canon bc raw (bc, Raises e)) as Hrefuse.
  { intros e. split; [done|by apply same_unchanged, same_refl]. }
  unfold op_bind at 1, op_get at 1. rewrite Has_law. case_bool_decide as Hf; [apply Hrefuse|].
  unfold op_bind at 1, op_get at 1. case_bool_decide as Hc; [apply Hrefuse|]. unfold op_bind at 1.
  pose proof (checkBlock_reads P gb F canon bc raw header now Ho Hnow Er bc (same_refl bc) Hi) as Hck.
  pose proof (checkBlock_txs raw header now bc) as Htx.
  destruct (checkBlock raw header now bc) as [bc1 [[b p]|e| |]]; destruct Hck as (Hi1 & Hs1 & Hck); try done.
  2: { split; [done|by apply same_unchanged]. }
  pose proof (same_unchanged _ _ Hs1) as Hu. apply (insertion_same F canon bc bc1 raw _ Hu).
  assert (insertion F canon bc1 raw (bc1, Raises ErrReorgTooDeep)) as Hrefuse1.
  { split; [done|by apply same_unchanged, same_refl]. }
  destruct (same_fields _ _ Hs1) as (Ed & _). rewrite <- Ed in Hck, Hf. clear Hc Hrefuse Hi Hs1 Hu Ed bc. rename bc1 into bc, Hi1 into Hi.
  unfold op_bind at 1, op_get at 1. destruct (states bc !! Block_Hash p) as [ps|] eqn:Hps; [|done].
  unfold op_bind at 1, op_get at 1. unfold op_bind at 1, op_call. pose proof Hck as [Eh _ _ Hp El _ _ _ _]. subst header.
  pose proof (execute_arrival F canon bc _ b p ps Hi Hck ltac:(by apply eq_None_not_Some) Hps) as Hx.
  destruct (ApplyBlock (split bc) ps b _) as [[s rs]|e| |]; try done.
  destruct Hx as (Hrs & ptd & Hptd & Har). destruct (si_td _ _ _ _ (inv_store _ _ _ _ _ Hi) _ (head_stored _ _ _ _ _ Hi)) as [htd Hhtd].
  unfold op_bind at 1, op_get at 1. unfold op_bind at 1, op_res at 1. rewrite (getTD_ok _ _ _ Hptd).
  unfold op_bind at 1, op_get at 1. unfold op_bind at 1, op_res at 1. rewrite (getTD_ok _ _ _ Hhtd).
  by apply (decide_ok F canon bc raw b p ps s ptd rs htd Har Hrs).
Qed.

End ChainInsert.
