(* ===== verification/ChainOpen.v ===== *)
(** * Opening a chain

    [NewBlockchain] on an empty store establishes the invariant.  On the store
    of a chain that ran, it comes back with the same head, and with every state
    of the window it walks that the chain still held. *)
From stdpp Require Import base numbers list gmap sorting.
From Stdlib Require Import ZArith Lia Strings.Byte.
From S2P Require Import Prelude Common Types VmBase Precompiles Vm VmProofs State StateProofs StateInv Transition TransitionProofs BlockProofs TxProps.
From S2P Require Import BlockProofs Pow Genesis Json JsonCodec Store Schema SchemaProofs.
From S2P Require Import Blockchain ChainInv ChainMove ChainStep ChainProofs.
#[local] Open Scope Z_scope.
#[local] Open Scope list_scope.
#[local] Open Scope go_scope.
#[local] Open Scope chain_scope.

(** ** States that agree *)

(** The same accounts and the same burn total. *)
Definition agree (s t : State) : Prop := accounts s = accounts t /\ Burned s = Burned t.

Lemma burned_some s : Burned s <> 0 -> burned s = Some (Burned s).
Proof. unfold Burned, burnedOrZero. by destruct (burned s). Qed.

Lemma Root_agree `{Crypto} s t : agree s t -> Root s = Root t.
Proof.
  intros [Ea Eb]. unfold Root, State_Get. rewrite Ea. change (burnedOrZero s) with (Burned s).
  change (burnedOrZero t) with (Burned t). rewrite Eb. destruct (Z.eqb_spec (Z.sgn (Burned t)) 0) as [|Hne]; [done|].
  rewrite (burned_some s), (burned_some t), Eb; [done|lia|lia].
Qed.

(** Restoring the entries of a reverse diff. *)
Lemma restore_accounts ps l s a :
  wf_state ps ->
  accounts (fold_left restoreEntry (map (diffEntry ps) l) s) !! a = if decide (a ∈ l) then accounts ps !! a else accounts s !! a.
Proof.
  intros Hw. revert s. induction l as [|x l IH]; intros s; cbn [map fold_left]; [done|]. rewrite IH.
  assert (accounts (restoreEntry s (diffEntry ps x)) !! a = if decide (a = x) then accounts ps !! x else accounts s !! a) as ->.
  { unfold restoreEntry, diffEntry. destruct (Exists ps x) eqn:E; cbn [negb de_Existed de_Address de_Nonce de_Balance de_Storage de_Code].
    - apply Exists_get in E. destruct (ws_accounts _ Hw _ _ E) as [_ He]. rewrite E.
      unfold RestoreAccount, State_set. cbn [default from_option id]. destruct (State_Get ps x) as [n b st c].
      cbn [Nonce Balance Storage Code] in *. rewrite He. cbn [with_accounts accounts].
      destruct (decide (a = x)) as [->|Hne]; [by rewrite lookup_insert_eq|by rewrite lookup_insert_ne].
    - apply not_Exists in E. rewrite E. unfold RestoreAccount, State_set. change (isEmpty _) with true.
      cbn [with_accounts accounts]. destruct (decide (a = x)) as [->|Hne]; [by rewrite lookup_delete_eq|by rewrite lookup_delete_ne]. }
  destruct (decide (a ∈ l)); [by rewrite decide_True by set_solver|].
  destruct (decide (a = x)) as [->|Hne]; [by rewrite decide_True by set_solver|by rewrite decide_False by set_solver].
Qed.

Lemma restore_burned es s : burned (fold_left restoreEntry es s) = burned s.
Proof.
  revert s. induction es as [|e es IH]; intros s; cbn [fold_left]; [done|]. rewrite IH. unfold restoreEntry, RestoreAccount.
  destruct (negb (de_Existed e)); apply set_fields.
Qed.

(** A reverse diff takes a state back to the one before the block. *)
Lemma parentState_agree t s ps l :
  wf_state ps -> covers l s ps -> agree t s -> agree (parentState t (diffOf s ps l)) ps.
Proof.
  intros Hw Hc [Ea Eb]. unfold parentState, diffOf. cbn [Entries BurnDelta]. split.
  - apply map_eq. intros a. cbn [ClearTouched SetBurned accounts]. rewrite restore_accounts by done. cbn [State_Copy accounts].
    destruct (decide (a ∈ l)); [done|]. rewrite Ea. by apply Hc.
  - unfold Burned at 1, burnedOrZero. cbn [ClearTouched SetBurned burned default from_option id]. rewrite Eb. lia.
Qed.

Section ChainOpen.
Context `{Crypto} `{Bn256} {D : Type} `{KVLaws D}.
Context (P : Header -> Prop) (gb : Block) `{!headers P gb}.

Abbreviation stored := (stored P).
Abbreviation inv := (inv P gb).

Section Resume.
Context (F : Z) (canon : list Block) (bc : Blockchain D) (Hi : inv F canon bc).
Abbreviation C := (contents (db bc)).

(** A store with the contents of the chain's. *)
Definition reads_alike (bc1 : Blockchain D) : Prop := contents (db bc1) = C.

Lemma loadBlock_total d h :
  contents d = C -> (exists b, loadBlock d h = Ok b /\ stored C b /\ Block_Hash b = h) \/ loadBlock d h = Err ErrNotFound.
Proof.
  intros Ed. destruct (C !! blockKey h) as [v|] eqn:E.
  - left. destruct (si_blocks _ _ _ _ (inv_store _ _ _ _ _ Hi) h) as (b & Hb & Eh); [by exists v|]. exists b.
    rewrite <- Eh, (load_stored P); [done|]. by rewrite Ed.
  - right. unfold loadBlock. by rewrite Get_law, Ed, E.
Qed.

Lemma loadStoredDiff_total d h : (exists x, loadStoredDiff d h = Ok x) \/ exists e, loadStoredDiff d h = Err e.
Proof.
  unfold loadStoredDiff. rewrite Get_law. destruct (contents d !! _) as [v|]; cbn [res_bind]; [|eauto].
  unfold decodeJSON. case_match; eauto.
Qed.

(** The walk ends, and leaves alone what lies at or above where it starts. *)
Lemma rebuild_total i cur t bc1 :
  stored C cur -> reads_alike bc1 ->
  exists bs ss, rebuildWindow i cur t bc1 = (with_caches bs ss bc1, Returns tt)
    /\ forall x, stored C x -> Block_Height cur <= Block_Height x -> ss !! Block_Hash x = states bc1 !! Block_Hash x.
Proof.
  revert cur t bc1. induction i as [|i IH]; intros cur t bc1 Hcur Ed; cbn [rebuildWindow].
  { exists (blockCache bc1), (states bc1). split; [by destruct bc1|done]. }
  assert (exists bs ss, (bc1, @Returns error unit tt) = (with_caches bs ss bc1, Returns tt)
    /\ forall x, stored C x -> Block_Height cur <= Block_Height x -> ss !! Block_Hash x = states bc1 !! Block_Hash x) as Hstop.
  { exists (blockCache bc1), (states bc1). split; [by destruct bc1|done]. }
  destruct (Z.leb_spec (Block_Height cur) 0) as [|Hpos]; [done|].
  destruct (loadStoredDiff_total (db bc1) (Block_Hash cur)) as [[diff ->]|[e ->]]; [|done].
  destruct (loadBlock_total (db bc1) (ParentHash (b_Header cur)) Ed) as [(p & -> & Hp & Ep)| ->]; [|done].
  destruct (array_eqb _ _); cbn [negb]; [|done].
  set (bc2 := with_caches _ _ bc1). destruct (IH p (parentState t diff) bc2 Hp Ed) as (bs & ss & E & Hframe).
  exists bs, ss. split; [exact E|]. intros x Hx Hge.
  assert (accepted P gb cur) as Hacc.
  { apply (si_accepted _ _ _ _ (inv_store _ _ _ _ _ Hi) cur Hcur). intros ->. rewrite (cf_height _ _ (inv_config _ _ _ _ _ Hi)) in Hpos. lia. }
  pose proof (accepted_height P gb cur p Hacc (proj2 Hp) (eq_sym Ep)) as Eh. rewrite Hframe; [|done|lia].
  unfold bc2. cbn [with_caches states]. rewrite lookup_insert_ne; [done|]. intros E'.
  apply (stored_inj P C p x Hp Hx) in E' as ->. lia.
Qed.

Lemma held b s : stored C b -> states bc !! Block_Hash b = Some s -> state_ok (genesisSupply bc) b s /\ F <= Block_Height b.
Proof.
  intros Hb Hs. destruct (mi_states _ _ _ _ (inv_mem _ _ _ _ _ Hi) _ _ Hs) as (b' & Hc & HF & Hok).
  destruct (mi_cache _ _ _ _ (inv_mem _ _ _ _ _ Hi) _ _ Hc) as [E Hst]. by apply (stored_inj P C b' b Hst Hb) in E as ->.
Qed.

(** The canonical blocks from [cur] down, and the one before it. *)
Lemma canon_parent below cur above :
  gb :: canon = below ++ cur :: above -> 0 < Block_Height cur ->
  exists below' p, below = below' ++ [p] /\ ParentHash (b_Header cur) = Block_Hash p /\ Block_Height cur = Block_Height p + 1.
Proof.
  intros E Hpos. pose proof (ci_linked _ _ _ _ (inv_canon _ _ _ _ _ Hi)) as Hl.
  destruct below as [|g below]; cbn [app] in E.
  { injection E as E _. rewrite <- E, (cf_height _ _ (inv_config _ _ _ _ _ Hi)) in Hpos. lia. }
  injection E as <- E. rewrite E in Hl. apply linked_app in Hl as (_ & Ep & Eh & _).
  destruct (last below) as [q|] eqn:El; cbn [default from_option id] in *.
  - apply last_Some in El as [l ->]. by exists (gb :: l), q.
  - apply last_None in El as ->. by exists [], gb.
Qed.

Lemma canon_stored below cur above x :
  gb :: canon = below ++ cur :: above -> x ∈ below ++ [cur] -> stored C x /\ x ∈ gb :: canon.
Proof.
  intros E Hx. assert (x ∈ gb :: canon) as Hin by (rewrite E; set_solver). split; [|done].
  pose proof (ci_stored _ _ _ _ (inv_canon _ _ _ _ _ Hi)) as Hs. rewrite Forall_forall in Hs. auto.
Qed.

Lemma rebuild_step below' p cur above s t ps bc1 i :
  gb :: canon = (below' ++ [p]) ++ cur :: above -> ParentHash (b_Header cur) = Block_Hash p -> 0 < Block_Height cur ->
  stored C cur -> stored C p -> cur <> gb ->
  states bc !! Block_Hash cur = Some s -> states bc !! Block_Hash p = Some ps -> agree t s -> reads_alike bc1 ->
  exists u, agree u ps
    /\ rebuildWindow (S i) cur t bc1
       = rebuildWindow i p u (with_caches (<[Block_Hash p := p]> (blockCache bc1)) (<[Block_Hash p := u]> (states bc1)) bc1).
Proof.
  intros E Ep Hpos Hcur Hp Hne Hs Hps Ht Ed. destruct (held p ps Hp Hps) as [[Hwp _ Hroot _] _].
  assert (cur ∈ canon) as Hin.
  { destruct (canon_stored (below' ++ [p]) cur above cur E) as [_ Hin]; [set_solver|]. by apply elem_of_cons in Hin as [|]. }
  destruct (ci_diff _ _ _ _ (inv_canon _ _ _ _ _ Hi) cur s ps Hin Hs) as (l & Hl & Hcov); [by rewrite Ep|].
  pose proof (parentState_agree t s ps l Hwp Hcov Ht) as Hag. exists (parentState t (diffOf s ps l)). split; [done|].
  cbn [rebuildWindow]. destruct (Z.leb_spec (Block_Height cur) 0); [lia|].
  unfold loadStoredDiff. rewrite Get_law, Ed, Hl. cbn [res_bind]. rewrite diffOf_ok by done. rewrite Ep, (load_stored P) by (by rewrite Ed).
  rewrite (Root_agree _ _ Hag), Hroot. destruct (array_eqb_spec (StateRoot (b_Header p)) (StateRoot (b_Header p))); [|done]. done.
Qed.

Lemma below_lt below cur above : gb :: canon = below ++ cur :: above -> forall x, x ∈ below -> Block_Height x < Block_Height cur.
Proof.
  intros E x Hx. pose proof (ci_linked _ _ _ _ (inv_canon _ _ _ _ _ Hi)) as Hl. destruct below as [|g r]; [set_solver|].
  injection E as <- E. rewrite E in Hl. apply elem_of_cons in Hx as [->|Hx]; [apply (linked_lt gb _ cur Hl); set_solver|].
  change (cur :: above) with ([cur] ++ above) in Hl. rewrite app_assoc in Hl. apply linked_app in Hl as [Hl _].
  by eapply linked_snoc_lt.
Qed.

Lemma rebuild_ok i below cur above s t bc1 :
  gb :: canon = below ++ cur :: above -> states bc !! Block_Hash cur = Some s -> agree t s -> reads_alike bc1 ->
  states bc1 !! Block_Hash cur = Some t ->
  exists bs ss, rebuildWindow i cur t bc1 = (with_caches bs ss bc1, Returns tt)
    /\ forall x sx, x ∈ below ++ [cur] -> Block_Height cur - Z.of_nat i <= Block_Height x -> states bc !! Block_Hash x = Some sx ->
       exists tx, ss !! Block_Hash x = Some tx /\ agree tx sx.
Proof.
  revert below cur above s t bc1. induction i as [|i IH]; intros below cur above s t bc1 E Hs Ht Ed Ht1;
    (destruct (canon_stored below cur above cur E) as [Hcur Hin]; [set_solver|]);
    pose proof (below_lt below cur above E) as Hlt.
  - exists (blockCache bc1), (states bc1). split; [by destruct bc1|].
    intros x sx [Hx| ->%list_elem_of_singleton]%elem_of_app Hh Hsx; [specialize (Hlt x Hx); lia|]. exists t. split; [done|congruence].
  - destruct (rebuild_total (S i) cur t bc1 Hcur Ed) as (bs & ss & Er & Hframe). exists bs, ss. split; [done|].
    intros x sx [Hx| ->%list_elem_of_singleton]%elem_of_app Hh Hsx.
    2: { exists t. rewrite Hframe by (done || lia). split; [done|congruence]. }
    assert (0 < Block_Height cur) as Hpos.
    { pose proof (Hlt x Hx). destruct (canon_stored below cur above x E) as [Hst _]; [set_solver|]. pose proof (stored_height P C x Hst). lia. }
    destruct (canon_parent below cur above E Hpos) as (below' & p & -> & Ep & Eh).
    destruct (canon_stored (below' ++ [p]) cur above p E) as [Hp _]; [set_solver|].
    destruct (canon_stored (below' ++ [p]) cur above x E) as [Hsx' _]; [set_solver|].
    assert (Block_Height x <= Block_Height p) as Hxp.
    { apply elem_of_app in Hx as [Hx|Hx%list_elem_of_singleton]; [|subst; lia]. pose proof (Hlt x ltac:(set_solver)). lia. }
    destruct (held x sx Hsx' Hsx) as [_ HF]. destruct (mi_all _ _ _ _ (inv_mem _ _ _ _ _ Hi) p Hp ltac:(lia)) as [ps Hps].
    assert (cur <> gb) as Hne by (intros ->; rewrite (cf_height _ _ (inv_config _ _ _ _ _ Hi)) in Hpos; lia).
    destruct (rebuild_step below' p cur above s t ps bc1 i E Ep Hpos Hcur Hp Hne Hs Hps Ht Ed) as (u & Hu & Estep).
    rewrite Estep in Er. rewrite <- app_assoc in E. cbn [app] in E.
    set (bc2 := with_caches _ _ bc1) in Er.
    destruct (IH below' p (cur :: above) ps u bc2 E Hps Hu Ed (lookup_insert_eq _ _ _)) as (bs' & ss' & Er' & Hall).
    rewrite Er' in Er. injection Er as _ <-. apply (Hall x sx Hx); [lia|done].
Qed.

Lemma getUint64_ok d k v : is_u64 v -> contents d !! k = Some (be_fixed 8 v) -> getUint64 d k = Ok v.
Proof.
  intros Hv E. unfold getUint64. rewrite Get_law, E. cbn [res_bind]. rewrite len_be_fixed.
  change (Z.of_nat 8 =? 8) with true. cbn [negb]. rewrite be2z_be_fixed. by rewrite Z.mod_small.
Qed.

Lemma getBigInt_ok d z : 0 <= z -> burn_stored (contents d) z -> getBigInt d keyBurned = Ok z.
Proof.
  intros Hz [E|[E ->]]; unfold getBigInt; rewrite Get_law, E; [|done]. rewrite be2z_be_min. f_equal. lia.
Qed.

(** Opening the store again: the same head, and the states of the window. *)
Lemma resume_ok bc0 :
  reads_alike bc0 -> genesis bc0 = genesis bc -> chainID bc0 = chainID bc -> 0 < retention bc0 ->
  exists bc', resume bc0 = (bc', Returns tt) /\ db bc' = db bc0 /\ head bc' = head bc /\ same_config bc0 bc'
    /\ forall x sx, x ∈ gb :: canon -> Block_Height (head bc) - retention bc0 <= Block_Height x ->
       states bc !! Block_Hash x = Some sx -> exists tx, states bc' !! Block_Hash x = Some tx /\ agree tx sx.
Proof.
  intros Ed Eg Ei Hr. destruct (inv_config _ _ _ _ _ Hi) as [_ _ _ _ Hid _ K1 K2 K3].
  destruct (inv_headState _ _ _ _ _ Hi) as [s Hs]. destruct (held _ _ (head_stored _ _ _ _ _ Hi) Hs) as [[Hw _ Hroot _] _].
  destruct (inv_canon _ _ _ _ _ Hi) as [_ _ Ca _ _ Ch Ct _ _ _]. destruct (Ct s Hs) as [Htab Hburn].
  unfold resume. unfold op_bind at 1, op_get at 1.
  unfold op_bind at 1, op_res at 1. rewrite (getUint64_ok _ _ schemaVersion) by (done || by rewrite Ed). rewrite Z.eqb_refl. cbn [negb].
  unfold op_bind at 1, op_res at 1. rewrite (getHash_ok _ _ (genesis bc)) by (by rewrite Ed).
  unfold op_bind at 1, op_get at 1. rewrite Eg. destruct (array_eqb_spec (genesis bc) (genesis bc)); [|done]. cbn [negb].
  unfold op_bind at 1, op_res at 1. rewrite (getUint64_ok _ _ (chainID bc)) by (done || by rewrite Ed).
  unfold op_bind at 1, op_get at 1. rewrite Ei, Z.eqb_refl. cbn [negb].
  unfold op_bind at 1, op_res at 1. rewrite (getHash_ok _ _ (Block_Hash (head bc))) by (by rewrite Ed).
  unfold op_bind at 1, op_res at 1. rewrite (load_stored P) by (rewrite Ed; by eapply head_stored).
  destruct (loadState_ok (db bc0) (accounts s)) as (t & Et & Ea & _ & _ & _); [by rewrite Ed| |apply Hw|].
  { rewrite Ed. apply (inv_store _ _ _ _ _ Hi). }
  unfold op_bind at 1, op_res at 1. rewrite Et.
  unfold op_bind at 1, op_res at 1. rewrite (getBigInt_ok _ (Burned s)); [|apply Hw|by rewrite Ed].
  assert (agree (SetBurned t (Some (Burned s))) s) as Hag by done. rewrite (Root_agree _ _ Hag), Hroot.
  destruct (array_eqb_spec (StateRoot (b_Header (head bc))) (StateRoot (b_Header (head bc)))); [|done]. cbn [negb].
  unfold op_bind at 1, op_modify. unfold op_bind at 1, op_get.
  set (t' := SetBurned _ _) in *. set (bc1 := publish _ _ _). apply last_Some in Ca as [below E].
  destruct (rebuild_ok (Z.to_nat (retention bc1)) below (head bc) [] s t' bc1 E Hs Hag Ed) as (bs & ss & -> & Hall).
  { unfold bc1. cbn [publish with_head with_caches states]. apply lookup_insert_eq. }
  eexists. split; [done|]. split_and!; try done. intros x sx Hx Hh Hsx. apply (Hall x sx); [by rewrite <- E| |done].
  change (retention bc1) with (retention bc0). lia.
Qed.

End Resume.

(** ** An empty store *)

Lemma buildState_other order s s' :
  buildState order s = Ok s' -> snapshots s' = snapshots s /\ forall a, a ∉ order.*1 -> accounts s' !! a = accounts s !! a.
Proof.
  revert s. induction order as [|[x [v|]] order IH]; intros s; cbn [buildState]; [by intros [= <-]| |done].
  intros E. destruct (IH _ E) as [-> Ha]. split; [apply snapshots_Credit|]. intros a Hn. cbn in Hn. rewrite Ha by set_solver.
  unfold Credit, State_set. destruct (isEmpty _); cbn [with_accounts accounts]; [rewrite lookup_delete_ne|rewrite lookup_insert_ne]; set_solver.
Qed.

Section Empty.
Context (gs : State) (id : Z) (order : list (Address * option Z)).
Hypothesis gs_wf : wf_state gs.
Hypothesis gs_only : forall a, a ∉ order.*1 -> accounts gs !! a = None.

Definition preOps : Batch :=
  [mkOp keySchema (Some (be_fixed 8 schemaVersion)); mkOp keyChainID (Some (be_fixed 8 id));
   mkOp keyGenesis (Some (abytes (Block_Hash gb)))] ++ blockOps gb []
  ++ [mkOp (canonicalKey 0) (Some (abytes (Block_Hash gb))); mkOp (tdKey (Block_Hash gb)) (Some (be_min (Difficulty (b_Header gb))))].

Definition allocOp (a : Address) : memOp := mkOp (accountKey a) (Some (encodeJSON accountC (toStored (State_Get gs a)))).

Definition postOps : Batch :=
  [mkOp (revDiffKey (Block_Hash gb)) (Some (encodeJSON diffC (mkDiff [] None))); mkOp keyHead (Some (abytes (Block_Hash gb)))].

Definition initContents : gmap (list byte) (list byte) := applyBatch (preOps ++ map allocOp order.*1 ++ postOps) ∅.

Lemma init_other k : (forall a, accountKey a <> k) -> initContents !! k = applyBatch (preOps ++ postOps) ∅ !! k.
Proof.
  intros Hk. unfold initContents. rewrite !applyBatch_app.
  assert (applyBatch (map allocOp order.*1) (applyBatch preOps ∅) !! k = applyBatch preOps ∅ !! k) as Hmid
    by (apply applyBatch_other, Forall_map, Forall_true; intros a; apply Hk).
  revert Hmid. generalize (applyBatch (map allocOp order.*1) (applyBatch preOps ∅)) (applyBatch preOps ∅). intros m m' Hm.
  unfold postOps. cbn [applyBatch fold_left]. rewrite !applyOp_lookup. by rewrite Hm.
Qed.

Ltac init_key := rewrite init_other by (intros; key_ne); unfold preOps, postOps, blockOps; cbn [app applyBatch fold_left];
  rewrite ?applyOp_lookup; cbn [op_key op_value]; repeat (rewrite decide_False by key_ne).

Lemma init_table : table initContents (accounts gs).
Proof.
  intros a. unfold initContents. rewrite app_assoc, applyBatch_app, (applyBatch_other postOps) by (unfold postOps; each_op; key_ne).
  rewrite applyBatch_app, (applyBatch_table accountKey allocOp) by (apply accountKey_inj || done).
  destruct (decide (a ∈ order.*1)) as [Ha|Ha].
  - cbn [allocOp op_value]. unfold State_Get. destruct (accounts gs !! a); [done|by right].
  - rewrite gs_only by done. left. unfold preOps, blockOps. cbn [app]. rewrite applyBatch_other by (each_op; key_ne). apply lookup_empty.
Qed.

Lemma init_block h : initContents !! blockKey h = if decide (h = Block_Hash gb) then Some (encodeJSON rawBlockC (toRaw gb)) else None.
Proof.
  init_key. rewrite lookup_empty. destruct (decide (h = Block_Hash gb)) as [->|Hne]; [by rewrite decide_True|].
  rewrite decide_False; [done|]. by intros ?%blockKey_inj.
Qed.

Lemma init_good k : is_Some (initContents !! k) -> goodKey k.
Proof.
  apply applyBatch_good; [|intros k' [v Hv]; by rewrite lookup_empty in Hv]. rewrite !Forall_app. split_and!.
  - unfold preOps, blockOps. cbn [app]. each_op; auto with keys; apply good_single; auto.
  - apply Forall_map, Forall_true. intros a. apply good_account.
  - unfold postOps. each_op; auto with keys; apply good_single; auto.
Qed.

Hypothesis gb_good : goodBlock P gb.
Hypothesis gb_empty : b_Txs gb = [] /\ h_ReceiptRoot (b_Header gb) = ReceiptRoot [].

Lemma init_stored b : stored initContents b <-> b = gb.
Proof.
  split.
  - intros [Hb Hg]. rewrite init_block in Hb. destruct (decide (Block_Hash b = Block_Hash gb)) as [E|]; [|done].
    apply (stored_inj P initContents b gb); [|split; [|done]|done].
    + split; [|done]. by rewrite init_block, decide_True.
    + by rewrite init_block, decide_True.
  - intros ->. split; [|done]. by rewrite init_block, decide_True.
Qed.

Lemma init_work : work initContents gb (Difficulty (b_Header gb)).
Proof.
  split; [|by eapply difficulty_nonneg]. init_key. by rewrite decide_True.
Qed.

(** The chain that [NewBlockchain] starts from. *)
Context (bc0 : Blockchain D) (d' : D) (Hd' : contents d' = initContents).
Hypothesis gs_ok : state_ok (genesisSupply bc0) gb gs /\ Burned gs = 0.
Hypothesis config0 : genesis bc0 = Block_Hash gb /\ Block_Height gb = 0 /\ 0 < retention bc0 < 2 ^ 64
  /\ TreasuryRewardBasisPoints (split bc0) <= 10000 /\ chainID bc0 = id /\ is_u64 id
  /\ genesisDifficulty bc0 = Difficulty (b_Header gb) /\ blockCache bc0 = ∅ /\ states bc0 = ∅.
Abbreviation bc1 := (publish gb gs (with_db d' bc0)).

Lemma init_store : store_inv P gb 0 initContents.
Proof.
  split.
  - apply init_good.
  - intros h. rewrite init_block. destruct (decide (h = Block_Hash gb)) as [->|]; [|by intros [? ?]].
    intros _. exists gb. split; [by apply init_stored|done].
  - by apply init_stored.
  - apply init_work.
  - intros b ->%init_stored. eexists. apply init_work.
  - by intros b ->%init_stored.
  - by intros b ->%init_stored.
  - by intros b p td ptd ->%init_stored.
  - intros b ->%init_stored. exists []. split; [init_key; by rewrite decide_True|]. destruct gb_empty as [Et Er]. unfold receiptsOf. rewrite Et, Er. split_and!; [done..| |by constructor].
    destruct (gk_sane _ _ gb_good) as [[] _ _ _]. unfold is_u64, len in *. cbn. lia.
Qed.

Lemma init_mem : mem_inv P gb 0 bc1.
Proof.
  destruct config0 as (_ & Hh & _ & _ & _ & _ & _ & Ec & Es). split; cbn [publish with_head with_caches with_db db blockCache states genesisSupply];
    rewrite ?Hd', ?Ec, ?Es.
  - intros h b [[<- <-]|[_ Hb]]%lookup_insert_Some; [split; [done|by apply init_stored]|by rewrite lookup_empty in Hb].
  - intros h s [[<- <-]|[_ Hb]]%lookup_insert_Some; [|by rewrite lookup_empty in Hb].
    exists gb. rewrite lookup_insert_eq. split_and!; [done|lia|apply gs_ok].
  - intros b ->%init_stored _. by rewrite lookup_insert_eq.
  - by intros b s p ->%init_stored.
Qed.

Lemma init_canonical n : is_u64 n -> initContents !! canonicalKey n = if decide (n = 0) then Some (abytes (Block_Hash gb)) else None.
Proof.
  intros Hn. init_key. rewrite lookup_empty. destruct (decide (n = 0)) as [->|Hne]; [by rewrite decide_True|].
  rewrite decide_False; [done|]. intros E. apply canonicalKey_inj in E; [lia|done..].
Qed.

Lemma init_canon : canon_inv P gb [] bc1.
Proof.
  destruct config0 as (_ & Hh & _). split; cbn [publish with_head with_caches with_db db states head]; rewrite ?Hd'; try done.
  - apply Forall_singleton. by apply init_stored.
  - intros b ->%list_elem_of_singleton. rewrite Hh, init_canonical by done. done.
  - intros n Hn. rewrite Hh in Hn. rewrite init_canonical by (unfold is_u64; lia). rewrite decide_False; [done|lia].
  - init_key. by rewrite decide_True.
  - intros s. rewrite lookup_insert_eq. intros [= <-]. split; [apply init_table|]. right. split; [|apply gs_ok]. init_key. apply lookup_empty.
  - intros b s ps Hb. by apply not_elem_of_nil in Hb.
  - intros b td htd ->%init_stored Hw Hw'. rewrite (work_inj _ _ _ _ Hw Hw'). apply better_irrefl. apply _.
  - intros h v. init_key. by rewrite lookup_empty.
Qed.

Lemma init_inv : inv 0 [] bc1.
Proof.
  destruct config0 as (Eg & Hh & Hr & Hsp & Ei & Hid & Ed & _ & _). split.
  - cbn [publish with_head with_caches with_db db]. rewrite Hd'. apply init_store.
  - apply init_mem.
  - apply init_canon.
  - split; cbn [publish with_head with_caches with_db db genesis retention split chainID genesisDifficulty]; rewrite ?Hd', ?Ei, ?Eg; try done.
    + init_key. by rewrite decide_True.
    + init_key. by rewrite decide_True.
    + init_key. by rewrite decide_True.
  - cbn [publish with_head with_caches with_db states head]. by rewrite lookup_insert_eq.
Qed.

End Empty.

(** ** NewBlockchain *)

(** The retention a caller's argument means. *)
Definition retentionOf (limit : Z) : Z := if limit =? 0 then DefaultRetention else limit.

Record configured (g : Genesis) (gs : State) (limit : Z) (bc : Blockchain D) : Prop := {
  cg_chainID : chainID bc = g_ChainID g;
  cg_genesis : genesis bc = Block_Hash gb;
  cg_retention : retention bc = retentionOf limit;
  cg_supply : genesisSupply bc = SumBalances gs;
  cg_split : split bc = genesisSplit g;
}.

Context (g : Genesis) (order : nat -> list (Address * option Z)) (gs : State) (limit : Z).
Context (Hg : wf_genesis g) (Hord : forall k, alloc_order g (order k)) (Hlim : is_u64 limit).
Context (Hbuild : Build g (order 1%nat) = Ok (gs, gb)) (HP : P (b_Header gb)) (Hsane : sane_header (b_Header gb)).

Abbreviation start d := (mkChain d (g_ChainID g) (Block_Hash gb) (Difficulty (b_Header gb)) (retentionOf limit) (SumBalances gs)
  (genesisSplit g) ∅ ∅ gb).

Lemma retentionOf_pos : 0 < retentionOf limit < 2 ^ 64.
Proof. unfold retentionOf, DefaultRetention, is_u64 in *. destruct (Z.eqb_spec limit 0); lia. Qed.

Lemma initialise_ops batch0 s (l : list (Address * option Z)) :
  fold_left (fun b p => Batch_Put b (accountKey (fst p)) (encodeJSON accountC (toStored (State_Get s (fst p))))) l batch0
  = batch0 ++ map (allocOp s) l.*1.
Proof.
  unfold Batch_Put. rewrite (fold_puts (fun p : Address * option Z => allocOp s (fst p))). f_equal.
  rewrite <- (map_map fst (allocOp s)). done.
Qed.

Lemma genesis_facts : Validate g (order 0%nat) = Ok tt ->
  wf_state gs /\ Burned gs = 0 /\ Root gs = StateRoot (b_Header gb) /\ Block_Height gb = 0 /\ snapshots gs = []
  /\ (forall a, a ∉ (order 3%nat).*1 -> accounts gs !! a = None) /\ (b_Txs gb = [] /\ h_ReceiptRoot (b_Header gb) = ReceiptRoot [])
  /\ Build g (order 2%nat) = Ok (gs, gb) /\ TreasuryRewardBasisPoints (genesisSplit g) <= 10000.
Proof.
  intros Hv. destruct (Validate_ok _ _ Hv) as (Ha & _ & _ & _ & Hbps & _).
  destruct (Build_ok g (order 0%nat) (order 1%nat) (Hord _) (Hord _) Hv) as (s & b & E & Hw & _ & Hbu & _ & Hroot & _ & _ & Hh & _).
  rewrite Hbuild in E. injection E as <- <-.
  assert (allocated (order 1%nat)) as Ha1 by (unfold allocated; by rewrite (Hord 1%nat), <- (Hord 0%nat)).
  pose proof Hbuild as Hb. unfold Build in Hb. destruct (buildState (order 1%nat) State_New) as [s1| |] eqn:Es; try done.
  cbn [res_bind] in Hb. injection Hb as -> Egb. destruct (buildState_other _ _ _ Es) as [Esn Eo].
  split_and!; try done.
  - intros a Hn. rewrite Eo; [apply lookup_empty|]. intros Hin. apply Hn. rewrite (Hord 3%nat). by rewrite (Hord 1%nat) in Hin.
  - by rewrite <- Egb.
  - by rewrite <- Egb.
  - rewrite <- (Build_perm g (order 1%nat) (order 2%nat)); [done|apply Hord|by rewrite (Hord 2%nat), (Hord 1%nat)|done].
  - cbn. destruct Hg as [_ _ _ _ Hb]. unfold is_u64 in Hb. rewrite i64_small; lia.
Qed.

Lemma validateAlloc_no_panic o sum : validateAlloc o sum <> Panic.
Proof.
  revert sum. induction o as [|[a [v|]] o IH]; intros sum; cbn [validateAlloc]; try done. destruct (_ <? 0); [done|apply IH].
Qed.

Lemma Validate_no_panic gen o : Validate gen o <> Panic.
Proof.
  unfold Validate. pose proof (validateAlloc_no_panic o 0). destruct (_ =? _); [done|]. destruct (_ <? MinBlockGasLimit); [done|].
  destruct (10000 <? _); [done|]. destruct (negb _); [done|]. destruct (validateAlloc o 0) as [sum| |]; [|done..]. cbn [res_bind].
  destruct (g_TotalSupply gen); [|done]. by destruct (negb _).
Qed.

Lemma NewBlockchain_empty d :
  contents d = ∅ ->
  match NewBlockchain d g limit order with
  | (Returns bc, d') => db bc = d' /\ inv 0 [] bc /\ head bc = gb /\ configured g gs limit bc
  | (Raises _, d') => contents d' = ∅
  | _ => False
  end.
Proof.
  intros Hd. unfold NewBlockchain. fold (retentionOf limit). pose proof (Validate_no_panic g (order 0%nat)).
  destruct (Validate g (order 0%nat)) as [[]|e|] eqn:Hv; [|done|done].
  destruct (genesis_facts Hv) as (Hw & Hbu & Hroot & Hh & Hsn & Honly & Htx & Hb2 & Hsplit). rewrite Hbuild.
  rewrite Has_law, Hd, bool_decide_eq_false_2 by (rewrite lookup_empty; by intros [? ?]).
  unfold initialise. unfold op_bind at 1, op_res. rewrite Hb2. cbv zeta. rewrite initialise_ops. unfold op_bind at 1, commit at 1.
  set (batch := putHash _ keyHead _). cbn [db].
  assert (batch = preOps (g_ChainID g) ++ map (allocOp (ClearTouched gs)) (order 3%nat).*1 ++ postOps) as ->.
  { unfold batch, preOps, postOps, putHash, putUint64, putTD, Batch_Put. rewrite writeBlock_ops. cbn [app]. by rewrite <- !app_assoc. }
  destruct (Commit_law d (preOps (g_ChainID g) ++ map (allocOp (ClearTouched gs)) (order 3%nat).*1 ++ postOps))
    as [(d' & -> & Ed)|(d' & e & -> & Ed)]; [|cbn [db with_db]; congruence].
  unfold op_modify. split_and!; [done| |done|by split].
  change (with_db d' (start d)) with (with_db d' (start d)).
  apply (init_inv (ClearTouched gs) (g_ChainID g) (order 3%nat)); try done.
  - split; [done|done|]. rewrite (proj1 Htx). by apply Forall_nil.
  - rewrite Ed, Hd. done.
  - split; [|done]. split; [by destruct Hw|done|exact Hroot|]. cbn [genesisSupply]. rewrite Hh.
    change (supply (ClearTouched gs)) with (SumBalances gs + Burned gs). rewrite Hbu. change (issued (Z.to_nat 0)) with 0. lia.
  - split_and!; try done; try apply retentionOf_pos. apply Hg.
Qed.

(** Opening again, perhaps with another retention. *)
Lemma NewBlockchain_again F canon bc d :
  inv F canon bc -> genesis bc = Block_Hash gb -> chainID bc = g_ChainID g -> contents d = contents (db bc) ->
  Validate g (order 0%nat) = Ok tt ->
  exists bc', NewBlockchain d g limit order = (Returns bc', d) /\ head bc' = head bc /\ configured g gs limit bc'
    /\ forall x sx, x ∈ gb :: canon -> Block_Height (head bc) - retentionOf limit <= Block_Height x ->
       states bc !! Block_Hash x = Some sx -> exists tx, states bc' !! Block_Hash x = Some tx /\ agree tx sx.
Proof.
  intros Hi Eg Ei Ed Hv. unfold NewBlockchain. fold (retentionOf limit). rewrite Hv, Hbuild, Has_law, Ed.
  rewrite bool_decide_eq_true_2 by (rewrite (ci_head _ _ _ _ (inv_canon _ _ _ _ _ Hi)); eauto).
  destruct (resume_ok F canon bc Hi (start d)) as (bc' & -> & Edb & Eh & (C1 & C2 & C3 & C4 & C5 & C6) & Hall);
    [done|by rewrite Eg|by rewrite Ei|apply retentionOf_pos|].
  exists bc'. rewrite Edb. split_and!; try done.
Qed.

End ChainOpen.
