(* ===== verification/ChainProps.v ===== *)
(** * Properties of the block tree

    What holds of every chain a node can reach from an empty store by opening
    it, inserting blocks and reading.  The blocks may be any that a message can
    carry: what is assumed is that no two headers share a hash, and that nobody
    mines a chain from the genesis whose gas limits or heights leave their
    ranges ([mined], [P_grow]). *)
From stdpp Require Import base numbers list gmap sorting.
From Stdlib Require Import ZArith Lia Strings.Byte.
From S2P Require Import Prelude Common Types VmBase Precompiles Vm VmProofs VmProps State StateProofs StateInv Transition BlockProofs.
From S2P Require Import BlockProofs Pow Genesis Json JsonCodec Store Schema SchemaProofs Producer.
From S2P Require Import Blockchain ChainInv ChainMove ChainStep ChainProofs ChainInsert ChainOpen.
#[local] Open Scope Z_scope.
#[local] Open Scope list_scope.
#[local] Open Scope go_scope.
#[local] Open Scope chain_scope.

(** ** Reachable chains *)

(** A network: its genesis with the state and the block it builds, the retention the node runs with,
    and the headers that occur. *)
Record network : Type := mkNetwork {
  n_genesis : Genesis;
  n_state : State;
  n_block : Block;
  n_limit : Z;
  n_headers : Header -> Prop;
}.

Record wf_network `{Crypto} (n : network) : Prop := {
  wn_headers : headers (n_headers n) (n_block n);
  wn_genesis : wf_genesis (n_genesis n);
  wn_limit : is_u64 (n_limit n);
  wn_build : forall o, alloc_order (n_genesis n) o -> Build (n_genesis n) o = Ok (n_state n, n_block n);
  wn_block : n_headers n (b_Header (n_block n));
  wn_sane : sane_header (b_Header (n_block n));
}.

Section Reachable.
Context `{Crypto} `{Bn256} {D : Type} `{KVLaws D}.

Inductive reachable (n : network) : Blockchain D -> Prop :=
  | R_open d order bc d' :
      contents d = ∅ -> (forall k, alloc_order (n_genesis n) (order k)) ->
      NewBlockchain d (n_genesis n) (n_limit n) order = (Returns bc, d') -> reachable n bc
  | R_insert bc raw now bc' r :
      reachable n bc -> offered (n_headers n) raw -> clockRange now -> InsertBlock raw now bc = (bc', r) -> reachable n bc'
  | R_read bc h bc' r : reachable n bc -> BlockByHash h bc = (bc', r) -> reachable n bc'.

Context (n : network) (Hn : wf_network n).

Abbreviation gb := (n_block n).
Abbreviation P := (n_headers n).

#[local] Instance n_headers_ok : headers P gb := wn_headers n Hn.

Lemma configured_same g gs limit (bc bc' : Blockchain D) : same_config bc bc' -> configured gb g gs limit bc -> configured gb g gs limit bc'.
Proof. intros (E1 & E2 & E3 & E4 & E5 & E6) [C1 C2 C3 C4 C5]. split; congruence. Qed.

Lemma chain_reachable_inv bc :
  reachable n bc -> exists F canon, inv P gb F canon bc /\ configured gb (n_genesis n) (n_state n) (n_limit n) bc
    /\ exists o, alloc_order (n_genesis n) o /\ Validate (n_genesis n) o = Ok tt.
Proof.
  induction 1 as [d order bc d' Hd Ho E|bc raw now bc' r Hr (F & canon & Hi & Hc & Hv) Hoff Hnow E|bc h bc' r Hr (F & canon & Hi & Hc & Hv) E].
  - pose proof (NewBlockchain_empty P gb (n_genesis n) order (n_state n) (n_limit n) (wn_genesis n Hn) Ho (wn_limit n Hn)
      (wn_build n Hn _ (Ho 1%nat)) (wn_block n Hn) (wn_sane n Hn) d Hd) as Hopen. rewrite E in Hopen. destruct Hopen as (_ & Hi & _ & Hc).
    exists 0, []. split_and!; [done..|]. exists (order 0%nat). split; [done|]. unfold NewBlockchain in E.
    destruct (Validate (n_genesis n) (order 0%nat)) as [[]|e|]; done.
  - pose proof (insert_ok P gb F canon bc raw now Hi Hoff Hnow) as Hins. unfold InsertBlock in E. rewrite E in Hins.
    destruct r as [ro|e| |]; cbn in Hins; try done.
    + destruct Hins as (F' & canon' & b & _ & Hi' & Hsame & _). eauto 7 using configured_same.
    + destruct Hins as [Hi' (_ & _ & _ & Hsame)]. eauto 7 using configured_same.
  - pose proof (blockLocked_reads P gb F canon bc h bc (same_refl bc) Hi) as Hrd. unfold BlockByHash in E. rewrite E in Hrd.
    destruct Hrd as (Hi' & Hs & _). exists F, canon.
    destruct (same_unchanged _ _ Hs) as (_ & _ & _ & Hsame). split_and!; [done|by eapply configured_same|done].
Qed.

(** ** The canonical chain *)

(** The chain the index describes: a block per height, from the genesis to the head, each the parent of the next. *)
Record canonicalChain (bc : Blockchain D) (chain : list Block) : Prop := {
  cc_genesis : chain !! O = Some gb;
  cc_head : last chain = Some (head bc);
  cc_read : forall i b, chain !! i = Some b -> Block_Height b = Z.of_nat i /\ exists bc', BlockByHeight (Z.of_nat i) bc = (bc', Returns b);
  cc_link : forall i p b, chain !! i = Some p -> chain !! S i = Some b -> ParentHash (b_Header b) = Block_Hash p;
  cc_end : forall i, (length chain <= i)%nat -> Z.of_nat i < 2 ^ 64 -> exists bc', BlockByHeight (Z.of_nat i) bc = (bc', Raises ErrUnknownBlock);
}.

Lemma linked_heights p l i b : linked p l -> (p :: l) !! i = Some b -> Block_Height b = Block_Height p + Z.of_nat i.
Proof.
  revert p i. induction l as [|x l IH]; intros p [|i]; cbn [lookup list_lookup].
  - intros _ [= <-]. lia.
  - done.
  - intros _ [= <-]. lia.
  - intros (_ & Eh & Hl) Hb. rewrite (IH x i Hl Hb). lia.
Qed.

Lemma linked_parents p l i q b : linked p l -> (p :: l) !! i = Some q -> (p :: l) !! S i = Some b -> ParentHash (b_Header b) = Block_Hash q.
Proof.
  revert p i. induction l as [|x l IH]; intros p [|i]; cbn [lookup list_lookup]; [done..| |].
  - intros (E & _) [= <-] [= <-]. done.
  - intros (_ & _ & Hl) Hq Hb. by apply (IH x i).
Qed.

Lemma blockLocked_stored F canon bc b :
  inv P gb F canon bc -> stored P (contents (db bc)) b -> exists bc', blockLocked (Block_Hash b) bc = (bc', Returns b).
Proof.
  intros Hi Hb. unfold blockLocked. destruct (blockCache bc !! Block_Hash b) as [x|] eqn:E.
  - destruct (mi_cache _ _ _ _ (inv_mem _ _ _ _ _ Hi) _ _ E) as [Ex Hx]. apply (stored_inj P _ x b Hx Hb) in Ex as ->. eauto.
  - rewrite (load_stored P) by done. eauto.
Qed.

Lemma BlockByHeight_ok F canon bc i b :
  inv P gb F canon bc -> (gb :: canon) !! i = Some b -> exists bc', BlockByHeight (Z.of_nat i) bc = (bc', Returns b).
Proof.
  intros Hi Hb. pose proof (inv_canon _ _ _ _ _ Hi) as Hc. pose proof (linked_heights gb canon i b (ci_linked _ _ _ _ Hc) Hb) as Eh.
  rewrite (cf_height _ _ (inv_config _ _ _ _ _ Hi)), Z.add_0_l in Eh. apply list_elem_of_lookup_2 in Hb as Hin.
  unfold BlockByHeight, op_bind, op_get, op_res. rewrite <- Eh, (getHash_ok _ _ (Block_Hash b)).
  - cbn. eapply blockLocked_stored; [done|]. pose proof (ci_stored _ _ _ _ Hc) as Hs. rewrite Forall_forall in Hs. auto.
  - by apply (ci_index _ _ _ _ Hc).
Qed.

Lemma inv_canonicalChain F canon bc : inv P gb F canon bc -> canonicalChain bc (gb :: canon).
Proof.
  intros Hi. pose proof (inv_canon _ _ _ _ _ Hi) as Hc. pose proof (cf_height _ _ (inv_config _ _ _ _ _ Hi)) as Hz.
  split; [done|apply Hc|..].
  - intros i b Hb. split; [|by eapply BlockByHeight_ok]. rewrite (linked_heights gb canon i b (ci_linked _ _ _ _ Hc) Hb). lia.
  - intros i p b. apply linked_parents, Hc.
  - intros i Hlen Hu. pose proof (ci_last _ _ _ _ Hc) as Hl. rewrite last_lookup in Hl.
    pose proof (linked_heights gb canon _ _ (ci_linked _ _ _ _ Hc) Hl) as Eh. cbn [length pred] in Hlen, Eh.
    unfold BlockByHeight, op_bind, op_get, op_res, getHash. rewrite Get_law, (ci_above _ _ _ _ Hc) by lia. cbn. eauto.
Qed.

(** ** Work *)

Lemma canon_work F canon bc l x :
  inv P gb F canon bc -> linked gb l -> Forall (stored P (contents (db bc))) (gb :: l) -> last (gb :: l) = Some x ->
  work (contents (db bc)) x (sumDifficulty (map b_Header (gb :: l))).
Proof.
  intros Hi. pose proof (inv_store _ _ _ _ _ Hi) as Hs.
  revert x. induction l as [|y l IH] using rev_ind; intros x Hl Hst Hx.
  { injection Hx as <-. cbn [map sumDifficulty foldr]. rewrite Z.add_0_r. apply Hs. }
  change (gb :: l ++ [y]) with ((gb :: l) ++ [y]) in Hx, Hst. rewrite last_snoc in Hx. injection Hx as <-.
  apply Forall_app in Hst as [Hst Hy]. rewrite Forall_singleton in Hy. apply linked_app in Hl as (Hl & Ep & Eh & _).
  destruct (last (gb :: l)) as [p|] eqn:El; [|by apply last_None in El].
  specialize (IH p Hl Hst eq_refl). rewrite last_cons in El.
  assert (default gb (last l) = p) as Edef by (destruct (last l); by injection El).
  assert (stored P (contents (db bc)) p) as Hsp.
  { rewrite Forall_forall in Hst. apply Hst. destruct (last l) as [q|] eqn:Eq; cbn in Edef; subst; [|set_solver].
    apply last_Some in Eq as [r ->]. set_solver. }
  rewrite Edef in *. destruct (si_td _ _ _ _ Hs y Hy) as [ytd Hytd].
  assert (y <> gb) as Hne.
  { intros ->. pose proof (stored_height P _ _ Hsp). rewrite (cf_height _ _ (inv_config _ _ _ _ _ Hi)) in Eh. lia. }
  rewrite (si_work _ _ _ _ Hs y p ytd _ Hy Hne Hsp Ep Hytd IH) in Hytd.
  enough (sumDifficulty (map b_Header (gb :: l ++ [y])) = sumDifficulty (map b_Header (gb :: l)) + Difficulty (b_Header y)) as -> by done.
  change (gb :: l ++ [y]) with ((gb :: l) ++ [y]). rewrite map_app. unfold sumDifficulty. rewrite foldr_app. cbn [map foldr].
  clear. induction l as [|h hs IH]; cbn [map foldr] in *; lia.
Qed.

(** ** What the properties state *)

(** How accepting [b] changes the chain, and what the reorg hook hears. *)
Inductive moves (chain : list Block) (b : Block) : list Block -> option Reorg -> Prop :=
  | mv_side : moves chain b chain None
  | mv_extend : moves chain b (chain ++ [b]) None
  | mv_reorg below c dropped l :
      chain = below ++ c :: dropped -> moves chain b (below ++ c :: l ++ [b]) (Some (mkReorg (Block_Hash c) dropped (l ++ [b]))).

Lemma inserted_moves canon b canon' ro : inserted gb canon b canon' ro -> moves (gb :: canon) b (gb :: canon') ro.
Proof.
  intros [| |below c dropped l E]; [constructor| |].
  - change (gb :: canon ++ [b]) with ((gb :: canon) ++ [b]). constructor.
  - assert (gb :: tail (below ++ c :: l ++ [b]) = below ++ c :: l ++ [b]) as ->.
    { destruct below; cbn in *; injection E as <- _; done. }
    by constructor.
Qed.

Lemma HasBlock_ok F canon bc h :
  inv P gb F canon bc -> HasBlock bc h = bool_decide (is_Some (contents (db bc) !! blockKey h)).
Proof.
  intros Hi. unfold HasBlock. destruct (blockCache bc !! h) as [b|] eqn:E; [|apply Has_law].
  destruct (mi_cache _ _ _ _ (inv_mem _ _ _ _ _ Hi) _ _ E) as [<- [Hb _]]. rewrite Hb. by rewrite bool_decide_eq_true_2.
Qed.

(** The drift check. *)
Lemma insert_time raw now (bc bc' : Blockchain D) ro h :
  insert raw now bc = (bc', Returns ro) -> rb_Header raw = Some h -> Timestamp h <= i64 (now + MaxFutureDriftMs).
Proof.
  intros E Eh. unfold insert in E. rewrite Eh in E. unfold op_bind at 1, op_get at 1 in E. destruct (KV_Has _ _); [done|].
  unfold op_bind at 1, op_get at 1 in E. case_bool_decide; [done|]. unfold op_bind at 1 in E.
  unfold checkBlock in E. destruct (allTxs (rb_Txs raw)) as [txs|]; [|done]. unfold op_bind at 1 in E.
  destruct (op_else _ _ bc) as [bc1 [p|e| |]]; try done. destruct (Z.ltb_spec (i64 (now + MaxFutureDriftMs)) (Timestamp h)); done.
Qed.

Lemma InsertBlock_lemma bc raw now :
  reachable n bc -> offered P raw -> clockRange now ->
  exists chain, canonicalChain bc chain /\
  match InsertBlock raw now bc with
  | (bc', Returns ro) => exists b chain', rb_Header raw = Some (b_Header b) /\ allTxs (rb_Txs raw) = Some (b_Txs b)
      /\ Timestamp (b_Header b) <= now + MaxFutureDriftMs
      /\ HasBlock bc (Block_Hash b) = false /\ HasBlock bc' (Block_Hash b) = true
      /\ canonicalChain bc' chain' /\ moves chain b chain' ro
  | (bc', Raises _) => unchanged bc bc'
  | _ => False
  end.
Proof.
  intros Hr Ho Hnow. destruct (chain_reachable_inv bc Hr) as (F & canon & Hi & _). exists (gb :: canon).
  split; [by eapply inv_canonicalChain|]. pose proof (insert_ok P gb F canon bc raw now Hi Ho Hnow) as Hins. unfold InsertBlock.
  destruct (insert raw now bc) as [bc' [ro|e| |]] eqn:E; try done; [|by destruct Hins].
  destruct Hins as (F' & canon' & b & _ & Hi' & _ & Eh & Et & Hf & [Hb _] & Hins). exists b, (gb :: canon').
  rewrite (HasBlock_ok F canon), (HasBlock_ok F' canon'), Hf, Hb by done. split_and!; try done.
  - apply (insert_time _ _ _ _ _ _ E) in Eh. unfold clockRange, MaxFutureDriftMs in *. rewrite i64_small in Eh; lia.
  - by eapply inv_canonicalChain.
  - by apply inserted_moves.
Qed.

Lemma canonical_lemma bc :
  reachable n bc -> exists chain, canonicalChain bc chain /\
  forall i p b, chain !! i = Some p -> chain !! S i = Some b ->
    satisfiesPoW (b_Header b) = true /\ VerifyTxRoot b = true /\ Timestamp (b_Header p) < Timestamp (b_Header b).
Proof.
  intros Hr. destruct (chain_reachable_inv bc Hr) as (F & canon & Hi & _). exists (gb :: canon). pose proof (inv_canonicalChain F canon bc Hi) as Hc.
  split; [done|]. intros i p b Hp Hb. pose proof (cc_link _ _ Hc i p b Hp Hb) as El. destruct (cc_read _ _ Hc _ _ Hb) as [Eh _].
  pose proof (ci_stored _ _ _ _ (inv_canon _ _ _ _ _ Hi)) as Hs. rewrite Forall_forall in Hs.
  pose proof (Hs b (list_elem_of_lookup_2 _ _ _ Hb)) as Hsb. pose proof (Hs p (list_elem_of_lookup_2 _ _ _ Hp)) as [_ [HP _]].
  destruct (si_accepted _ _ _ _ (inv_store _ _ _ _ _ Hi) b Hsb) as (ph & Hph & Ep & _ & Et & Hw & Htx & _).
  { intros ->. rewrite (cf_height _ _ (inv_config _ _ _ _ _ Hi)) in Eh. lia. }
  rewrite El in Ep. apply (P_inj P gb) in Ep; [|done..]. by rewrite Ep.
Qed.

Lemma heaviest_lemma bc :
  reachable n bc -> exists chain, canonicalChain bc chain
    /\ getTD (db bc) (Block_Hash (head bc)) = Ok (sumDifficulty (map b_Header chain))
    /\ forall h b bc', BlockByHash h bc = (bc', Returns b) ->
       exists td, getTD (db bc) h = Ok td
         /\ Better (mkTip (b_Header b) td) (mkTip (b_Header (head bc)) (sumDifficulty (map b_Header chain))) = false.
Proof.
  intros Hr. destruct (chain_reachable_inv bc Hr) as (F & canon & Hi & _). exists (gb :: canon). split; [by eapply inv_canonicalChain|].
  pose proof (inv_canon _ _ _ _ _ Hi) as Hc.
  pose proof (canon_work F canon bc canon (head bc) Hi (ci_linked _ _ _ _ Hc) (ci_stored _ _ _ _ Hc) (ci_last _ _ _ _ Hc)) as Hw.
  split; [by apply getTD_ok|]. intros h b bc' Hb. unfold BlockByHash in Hb.
  pose proof (blockLocked_reads P gb F canon bc h bc (same_refl bc) Hi) as Hrd. rewrite Hb in Hrd.
  destruct Hrd as (_ & _ & Hst & <-). destruct (si_td _ _ _ _ (inv_store _ _ _ _ _ Hi) b Hst) as [td Htd]. exists td.
  split; [by apply getTD_ok|]. by apply (ci_best _ _ _ _ Hc).
Qed.

Lemma conservation_lemma bc : reachable n bc -> CheckConservation bc = Returns tt.
Proof.
  intros Hr. destruct (chain_reachable_inv bc Hr) as (F & canon & Hi & _). unfold CheckConservation, headState.
  destruct (inv_headState _ _ _ _ _ Hi) as [s Hs]. pose proof (head_stored _ _ _ _ _ Hi) as Hst.
  destruct (held P gb F canon bc Hi _ _ Hst Hs) as [[_ _ _ Hsup] _]. rewrite Hs. cbn [or_panic].
  pose proof (stored_height P _ _ Hst). rewrite CumulativeIssued_lemma by lia. unfold supply in Hsup.
  change (burnedOrZero s) with (Burned s) in Hsup. rewrite Hsup. by rewrite Z.eqb_refl.
Qed.

Lemma agree_reads s t a k :
  agree s t -> State_Balance s a = State_Balance t a /\ State_Nonce s a = State_Nonce t a
    /\ State_GetCode s a = State_GetCode t a /\ State_GetStorage s a k = State_GetStorage t a k.
Proof.
  intros [E _]. unfold State_Balance, State_Nonce, State_GetCode, State_GetStorage, State_Get. rewrite E. done.
Qed.

Lemma reopen_lemma bc order limit :
  reachable n bc -> (forall k, alloc_order (n_genesis n) (order k)) -> is_u64 limit ->
  exists bc' chain, NewBlockchain (db bc) (n_genesis n) limit order = (Returns bc', db bc) /\ canonicalChain bc chain
    /\ head bc' = head bc
    /\ (forall a k, BalanceAt bc' a = BalanceAt bc a /\ NonceAt bc' a = NonceAt bc a /\ CodeAt bc' a = CodeAt bc a
         /\ StorageAt bc' a k = StorageAt bc a k)
    /\ forall b s, b ∈ chain -> Block_Height (head bc) - retentionOf limit <= Block_Height b -> states bc !! Block_Hash b = Some s ->
       exists t, states bc' !! Block_Hash b = Some t /\ agree t s.
Proof.
  intros Hr Ho Hlim. destruct (chain_reachable_inv bc Hr) as (F & canon & Hi & [Ci Cg _ _ _] & o & Hoo & Hv).
  destruct (NewBlockchain_again P gb (n_genesis n) order (n_state n) limit Hlim (wn_build n Hn _ (Ho 1%nat)) F canon bc (db bc) Hi Cg Ci eq_refl)
    as (bc' & E & Eh & _ & Hall).
  { apply (Validate_perm _ o); [|done]. by rewrite Hoo, (Ho 0%nat). }
  exists bc', (gb :: canon). split_and!; [done|by eapply inv_canonicalChain|done| |done].
  destruct (inv_headState _ _ _ _ _ Hi) as [s Hs]. intros a k.
  pose proof (ci_last _ _ _ _ (inv_canon _ _ _ _ _ Hi)) as Hl.
  destruct (Hall (head bc) s) as (t & Ht & Hag); [|pose proof (retentionOf_pos limit Hlim); lia|done|].
  { apply last_Some in Hl as [l ->]. set_solver. }
  destruct (agree_reads t s a k Hag) as (E1 & E2 & E3 & E4).
  unfold BalanceAt, NonceAt, CodeAt, StorageAt, headState. rewrite Eh, Ht, Hs. cbn [or_panic res_bind]. by rewrite E1, E2, E3, E4.
Qed.

End Reachable.

(** ** Two nodes *)

Section Converge.
Context `{Crypto} `{Bn256} {D D' : Type} `{KVLaws D} `{KVLaws D'} (n : network) (Hn : wf_network n).

Abbreviation gb := (n_block n).
Abbreviation P := (n_headers n).

#[local] Instance n_headers_ok' : headers P gb := wn_headers n Hn.

(** The canonical chain of one node, as another one that holds its blocks stores it. *)
Lemma same_headers_stored F canon (bc : Blockchain D') l :
  inv P gb F canon bc -> Forall (fun b => P (b_Header b) /\ HasBlock bc (Block_Hash b) = true) l ->
  exists l', map b_Header l' = map b_Header l /\ Forall (stored P (contents (db bc))) l'.
Proof.
  intros Hi Hl. induction Hl as [|b l [HP Hb] Hl (l' & El & Hl')]; [by exists []|].
  rewrite (HasBlock_ok n F canon bc _ Hi), bool_decide_eq_true in Hb.
  destruct (si_blocks _ _ _ _ (inv_store _ _ _ _ _ Hi) _ Hb) as (b' & Hb' & Eh). exists (b' :: l'). split; [|by constructor].
  cbn. rewrite El. f_equal. destruct Hb' as [_ [HP' _ _]]. by apply (P_inj P gb).
Qed.

Lemma linked_headers p p' l l' : b_Header p = b_Header p' -> map b_Header l = map b_Header l' -> linked p l -> linked p' l'.
Proof.
  revert p p' l'. induction l as [|b l IH]; intros p p' [|b' l'] Ep El; try done. injection El as Eb El. cbn. intros (E1 & E2 & Hl).
  unfold Block_Hash, Block_Height in *. rewrite <- Eb, <- Ep. split_and!; [done|done|]. by apply (IH b b').
Qed.

(** The head of one node is no better than that of another one that holds its canonical chain. *)
Lemma no_better_head F canon F' canon' (bc : Blockchain D) (bc' : Blockchain D') :
  inv P gb F canon bc -> inv P gb F' canon' bc' -> Forall (fun b => HasBlock bc' (Block_Hash b) = true) canon ->
  Better (mkTip (b_Header (head bc)) (sumDifficulty (map b_Header (gb :: canon))))
         (mkTip (b_Header (head bc')) (sumDifficulty (map b_Header (gb :: canon')))) = false.
Proof.
  intros Hi Hi' Hall. pose proof (inv_canon _ _ _ _ _ Hi) as Hc. pose proof (inv_canon _ _ _ _ _ Hi') as Hc'.
  destruct (same_headers_stored F' canon' bc' canon Hi') as (l' & El & Hl').
  { pose proof (ci_stored _ _ _ _ Hc) as Hst. apply Forall_cons in Hst as [_ Hst]. rewrite Forall_forall in *. intros b Hb.
    destruct (Hst b Hb) as [_ [HP _ _]]. auto. }
  destruct (last (gb :: l')) as [x|] eqn:Ex; [|by apply last_None in Ex].
  assert (b_Header x = b_Header (head bc)) as Exh.
  { pose proof (ci_last _ _ _ _ Hc) as Hlast. assert (b_Header <$> last (gb :: l') = b_Header <$> last (gb :: canon)) as E.
    { rewrite <- !fmap_last. f_equal. change (b_Header gb :: map b_Header l' = b_Header gb :: map b_Header canon). by rewrite El. }
    rewrite Ex, Hlast in E. by injection E. }
  assert (Forall (stored P (contents (db bc'))) (gb :: l')) as Hst' by (constructor; [apply (inv_store _ _ _ _ _ Hi')|done]).
  pose proof (canon_work n Hn F' canon' bc' l' x Hi' (linked_headers gb gb canon l' eq_refl (eq_sym El) (ci_linked _ _ _ _ Hc)) Hst' Ex) as Hw.
  pose proof (canon_work n Hn F' canon' bc' canon' (head bc') Hi' (ci_linked _ _ _ _ Hc') (ci_stored _ _ _ _ Hc') (ci_last _ _ _ _ Hc')) as Hwh.
  assert (stored P (contents (db bc')) x) as Hsx.
  { rewrite Forall_forall in Hst'. apply Hst'. apply last_Some in Ex as [k ->]. set_solver. }
  pose proof (ci_best _ _ _ _ Hc' x _ _ Hsx Hw Hwh) as Hb. cbn [map] in Hb |- *. by rewrite El, Exh in Hb.
Qed.

Lemma canon_held F canon (bc : Blockchain D) b : inv P gb F canon bc -> b ∈ canon -> HasBlock bc (Block_Hash b) = true.
Proof.
  intros Hi Hb. rewrite (HasBlock_ok n F canon bc _ Hi), bool_decide_eq_true. pose proof (ci_stored _ _ _ _ (inv_canon _ _ _ _ _ Hi)) as Hst.
  rewrite Forall_forall in Hst. destruct (Hst b) as [E _]; [set_solver|]. by rewrite E.
Qed.
End Converge.

Lemma same_head_lemma `{Crypto} `{Bn256} {D D'} `{KVLaws D} `{KVLaws D'} (n : network) (Hn : wf_network n) (bc : Blockchain D) (bc' : Blockchain D') :
  reachable n bc -> reachable n bc' -> (forall h, HasBlock bc h = HasBlock bc' h) -> b_Header (head bc) = b_Header (head bc').
Proof.
  intros Hr Hr' Hsame. destruct (chain_reachable_inv n Hn bc Hr) as (F & canon & Hi & _). destruct (chain_reachable_inv n Hn bc' Hr') as (F' & canon' & Hi' & _).
  pose proof (wn_headers n Hn) as Hh.
  pose proof (no_better_head n Hn F canon F' canon' bc bc' Hi Hi') as Hb1. pose proof (no_better_head n Hn F' canon' F canon bc' bc Hi' Hi) as Hb2.
  apply (P_inj (n_headers n) (n_block n)); [apply (head_stored _ _ _ _ _ Hi)|apply (head_stored _ _ _ _ _ Hi')|].
  apply (fc_total _ _ (Hb1 ltac:(rewrite Forall_forall; intros b Hb; rewrite <- Hsame; by eapply canon_held))
    (Hb2 ltac:(rewrite Forall_forall; intros b Hb; rewrite Hsame; by eapply canon_held))).
Qed.

(** ** What a restart forgets *)

Section Restart.
Context `{Crypto} `{Bn256} {D : Type} `{KV D}.

(** The states the walk back over the reverse diffs restores have no touched accounts. *)
Lemma rebuildWindow_touched i b st (bc : Blockchain D) :
  (forall h s, states bc !! h = Some s -> touched s = ∅) ->
  forall h s, states (fst (rebuildWindow i b st bc)) !! h = Some s -> touched s = ∅.
Proof.
  revert b st bc. induction i as [|i IH]; intros b st bc Ht; cbn [rebuildWindow]; [done|]. destruct (_ <=? 0); [done|].
  destruct (loadStoredDiff (db bc) _) as [diff|e|]; [|done..]. destruct (loadBlock (db bc) _) as [pb|e|]; [|done..]. destruct (negb _); [done|].
  apply IH. cbn [with_caches states]. intros h s [[_ <-]|[_ Hs]]%lookup_insert_Some; [done|by apply (Ht h)].
Qed.

Lemma loadState_touched (d : D) st : loadState d = Ok st -> touched st = ∅.
Proof. unfold loadState. destruct (loadAccounts _ _); cbn [res_bind]; try done. by intros [= <-]. Qed.

Lemma resume_touched (bc bc' : Blockchain D) u :
  states bc = ∅ -> resume bc = (bc', Returns u) -> forall h s, states bc' !! h = Some s -> touched s = ∅.
Proof.
  intros E0. unfold resume, op_get, op_res, op_modify, op_bind.
  destruct (getUint64 (db bc) keySchema); try done. destruct (negb _); [done|]. destruct (getHash (db bc) keyGenesis); try done.
  destruct (negb _); [done|]. destruct (getUint64 (db bc) keyChainID); try done. destruct (negb _); [done|].
  destruct (getHash (db bc) keyHead) as [hh|e|]; try done. destruct (loadBlock (db bc) hh) as [hd|e|]; try done.
  destruct (loadState (db bc)) as [st|e|] eqn:Es; try done. apply loadState_touched in Es.
  destruct (getBigInt (db bc) keyBurned) as [bu|e|]; try done. destruct (negb _); [done|].
  intros E. rewrite <- (f_equal fst E : _ = bc'). apply rebuildWindow_touched.
  unfold publish. cbn [with_head with_caches states]. rewrite E0. intros h s [[_ <-]|[_ Hs]]%lookup_insert_Some; [done|by rewrite lookup_empty in Hs].
Qed.

Lemma restored_touched (d d' : D) g limit order bc :
  KV_Has d keyHead = true -> NewBlockchain d g limit order = (Returns bc, d') ->
  forall h s, states bc !! h = Some s -> Touched s = [].
Proof.
  intros Hh. unfold NewBlockchain. destruct (Validate g _) as [[]| |]; try done. destruct (Build g _) as [[gs gb]| |]; try done. rewrite Hh.
  destruct (resume _) as [bc1 [[]|e| |]] eqn:Er; try done. intros [= <- _] h s Hs.
  assert (touched s = ∅) as Et by (by apply (resume_touched _ _ _ (eq_refl : states (mkChain _ _ _ _ _ _ _ _ ∅ _) = ∅) Er h)). unfold Touched. by rewrite Et.
Qed.

(** What puts a block back writes the accounts that its state touched, and no other. *)
Lemma joinOps_accounts b st prev m a : a ∉ Touched st -> applyBatch (joinOps b st prev) m !! accountKey a = m !! accountKey a.
Proof.
  intros Ha. apply applyBatch_other. unfold joinOps, changeOps, indexOps. rewrite !Forall_app. split_and!.
  - apply Forall_forall. intros o (x & -> & Hx)%list_elem_of_fmap. cbn [accountOp op_key]. by intros ->%accountKey_inj.
  - apply Forall_singleton. key_ne.
  - apply Forall_singleton. key_ne.
  - apply Forall_forall. intros o (p & -> & _)%list_elem_of_fmap. key_ne.
Qed.

(** Blocks whose states have no touched accounts come back without their accounts. *)
Lemma rewind_untouched ss newHead newState blks : forall batch batch' C a,
  (forall b, b ∈ blks -> Block_Hash b <> Block_Hash newHead /\ forall s, ss !! Block_Hash b = Some s -> Touched s = []) ->
  rewind ss newHead newState batch (blks ++ [newHead]) = Ok batch' -> a ∉ Touched newState ->
  applyBatch batch' C !! accountKey a = applyBatch batch C !! accountKey a.
Proof.
  induction blks as [|b blks IH]; intros batch batch' C a Hb (s & q & Hs & _ & E)%rewind_step Ha; unfold stateFor in Hs.
  - destruct (array_eqb_spec (Block_Hash newHead) (Block_Hash newHead)); [|done]. injection Hs as <-. injection E as <-.
    rewrite applyBatch_app. by apply joinOps_accounts.
  - destruct (Hb b ltac:(by left)) as [Hne Ht]. destruct (array_eqb_spec (Block_Hash b) (Block_Hash newHead)); [done|].
    rewrite (IH _ _ C a (fun x Hx => Hb x ltac:(by right)) E Ha), applyBatch_app. apply joinOps_accounts. rewrite (Ht s Hs). apply not_elem_of_nil.
Qed.

End Restart.

(** ** A small network *)

#[local] Existing Instance mixCrypto.
#[local] Existing Instance toyBn256.

Definition smallGenesis : Genesis := mkGenesis None 7 1000 30000000 {[ZeroAddress := Some 5]} 1 ZeroAddress 0.

Definition smallOrder (_ : nat) : list (Address * option Z) := [(ZeroAddress, Some 5)].

Definition smallOpen (d : Memory) : callres error (Blockchain Memory) * Memory := NewBlockchain d smallGenesis 4 smallOrder.

Definition opened (r : callres error (Blockchain Memory) * Memory) (default : Blockchain Memory) : Blockchain Memory :=
  match r with (Returns bc, _) => bc | _ => default end.

Definition smallBuilt : State * Block :=
  match Build smallGenesis (smallOrder 1) with Ok r => r | _ => (State_New, mkBlock toyHeader []) end.

Definition chain0 : Blockchain Memory :=
  opened (smallOpen NewMemory)
    (mkChain NewMemory 0 ZeroHash 0 0 0 (mkSplit 0 ZeroAddress) ∅ ∅ (mkBlock toyHeader [])).

(** The header a miner paying [n] builds on the block [h], with no transactions. *)
Definition childOf (bc : Blockchain Memory) (h : Hash) (n : Z) : Header :=
  match blockCache bc !! h, states bc !! h with
  | Some p, Some s =>
      match BuildUnsealed (split bc) (b_Header p) s
              (fun hd => match RequiredDifficulty hd bc with (_, Returns d) => d | _ => 0 end)
              (fun _ _ => []) (array_of 20 [z2b n]) (Timestamp (b_Header p) + 240000) with
      | Returns (b, _) => b_Header b
      | _ => toyHeader
      end
  | _, _ => toyHeader
  end.

(** Offer a header as a block without transactions. *)
Definition offer (h : Header) (bc : Blockchain Memory) : Blockchain Memory * callres error (option Reorg) :=
  InsertBlock (mkRawBlock (Some h) []) 100000000 bc.

(** Two branches: [a1], [a2] and [b1], [b2], [b3]. *)
Definition a1 : Header := childOf chain0 (genesis chain0) 9.
Definition chain1 : Blockchain Memory := fst (offer a1 chain0).
Definition a2 : Header := childOf chain1 (Header_Hash a1) 1.
Definition chain2 : Blockchain Memory := fst (offer a2 chain1).
Definition b1 : Header := childOf chain2 (genesis chain0) 2.
Definition chain3 : Blockchain Memory := fst (offer b1 chain2).
Definition b2 : Header := childOf chain3 (Header_Hash b1) 2.
Definition chain4 : Blockchain Memory := fst (offer b2 chain3).
Definition b3 : Header := childOf chain4 (Header_Hash b2) 2.
Definition chain5 : Blockchain Memory := fst (offer b3 chain4).

(** A child of the genesis block that anybody can make up: it is dated at the end of time. *)
Definition future : Header :=
  mkHeader (ParentHash a1) (Height a1) (2 ^ 63 - 1) (h_TxRoot a1) (h_ReceiptRoot a1) (StateRoot a1) (h_GasUsed a1) (h_GasLimit a1)
    (Proposer a1) (Difficulty a1) 0.

Definition smallHeaders : list Header := [b_Header (snd smallBuilt); a1; a2; b1; b2; b3; future].

Definition small : network := mkNetwork smallGenesis (fst smallBuilt) (snd smallBuilt) 4 (fun h => h ∈ smallHeaders).

Definition u64b (z : Z) : bool := (0 <=? z) && (z <? 2 ^ 64).

Definition wfb (h : Header) : bool :=
  u64b (Height h) && u64b (h_GasUsed h) && u64b (h_GasLimit h) && u64b (Difficulty h) && u64b (h_Nonce h)
  && (- 2 ^ 63 <=? Timestamp h) && (Timestamp h <? 2 ^ 63).

Definition saneb (h : Header) : bool :=
  wfb h && (- 2 ^ 61 <=? Timestamp h) && (Timestamp h <=? 2 ^ 62 + 2 ^ 60) && (0 <? h_GasLimit h) && (h_GasLimit h <=? maxGas) && (Height h <? 2 ^ 63).

Lemma wfb_ok h : wfb h = true -> wf_header h.
Proof. unfold wfb, u64b. rewrite !andb_true_iff, !Z.leb_le, !Z.ltb_lt. intros H. split; unfold is_u64; lia. Qed.

Lemma saneb_ok h : saneb h = true -> sane_header h.
Proof.
  unfold saneb. rewrite !andb_true_iff, !Z.leb_le, !Z.ltb_lt. intros [[[[[Hw%wfb_ok H1] H2] H3] H4] H5].
  split; [done| |lia|lia]. destruct Hw. by split.
Qed.

(** Headers that are well formed, sane unless they are dated too late, and have different hashes. *)
Definition goodHeaders (hs : list Header) : bool :=
  forallb (fun h => wfb h && (if Timestamp h <=? maxTime then saneb h else true)) hs && bool_decide (NoDup (map Header_Hash hs)).

Lemma NoDup_map_inj {A B} (f : A -> B) l x y : NoDup (map f l) -> x ∈ l -> y ∈ l -> f x = f y -> x = y.
Proof.
  intros Hnd [i Hi]%list_elem_of_lookup_1 [j Hj]%list_elem_of_lookup_1 E.
  assert (i = j) as ->; [|congruence]. eapply NoDup_lookup; [exact Hnd|apply list_lookup_fmap_Some_2; eauto|].
  rewrite E. apply list_lookup_fmap_Some_2. eauto.
Qed.

Lemma goodHeaders_sane hs h : goodHeaders hs = true -> h ∈ hs -> wf_header h /\ (Timestamp h <= maxTime -> sane_header h).
Proof.
  intros [Hs _]%andb_true_iff Hh. rewrite forallb_forall in Hs. specialize (Hs h ltac:(by apply list_elem_of_In)).
  apply andb_true_iff in Hs as [Hw Hs]. split; [by apply wfb_ok|]. intros Ht. apply saneb_ok.
  by rewrite (proj2 (Z.leb_le _ _) Ht) in Hs.
Qed.

Lemma goodHeaders_ok hs gb : goodHeaders hs = true -> headers (fun h => h ∈ hs) gb.
Proof.
  intros Hg. split.
  - intros h Hh. exact (proj1 (goodHeaders_sane hs h Hg Hh)).
  - intros h h' Hh Hh'. apply andb_true_iff in Hg as [_ Hnd%bool_decide_eq_true]. by apply (NoDup_map_inj Header_Hash hs).
  - intros h p l Hm. inversion Hm as [|? ? ? _ Hh _ Ht _ _]; subst. destruct (goodHeaders_sane hs h Hg Hh) as [_ Hs].
    destruct (Hs Ht) as [_ _ [_ Hgas] Hht]. done.
Qed.

Lemma smallHeaders_ok : goodHeaders smallHeaders = true.
Proof. vm_compute. reflexivity. Qed.

Lemma small_sane h : h ∈ smallHeaders -> wf_header h /\ (Timestamp h <= maxTime -> sane_header h).
Proof. apply (goodHeaders_sane smallHeaders h smallHeaders_ok). Qed.

Lemma smallBuilt_eq : Build smallGenesis (smallOrder 1) = Ok smallBuilt.
Proof.
  assert (match Build smallGenesis (smallOrder 1) with Ok _ => true | _ => false end = true) as Hb by (by vm_compute).
  unfold smallBuilt. by destruct (Build smallGenesis (smallOrder 1)).
Qed.

Lemma smallOrder_ok k : alloc_order (n_genesis small) (smallOrder k).
Proof. unfold alloc_order. cbn [n_genesis small smallGenesis g_Alloc]. by rewrite map_to_list_singleton. Qed.

Lemma smallOrder_only o : alloc_order smallGenesis o -> o = smallOrder 1.
Proof.
  unfold alloc_order, smallGenesis. cbn [g_Alloc]. rewrite map_to_list_singleton. apply Permutation_singleton_r.
Qed.

Lemma small_wf : wf_network small.
Proof.
  split.
  - exact (goodHeaders_ok _ _ smallHeaders_ok).
  - split; vm_compute; intuition congruence.
  - cbn [small n_limit]. unfold is_u64. lia.
  - intros o ->%smallOrder_only. cbn [n_genesis n_state n_block small]. rewrite smallBuilt_eq. by destruct smallBuilt.
  - apply list_elem_of_here.
  - apply small_sane; [apply list_elem_of_here|]. vm_compute. discriminate.
Qed.

Lemma chain0_reachable : reachable small chain0.
Proof.
  assert (match fst (smallOpen NewMemory) with Returns _ => true | _ => false end = true) as Hb by (by vm_compute).
  unfold chain0. destruct (smallOpen NewMemory) as [r d'] eqn:E. cbn [fst] in Hb. destruct r as [bc|e| |]; try done.
  apply (R_open small NewMemory smallOrder bc d'); [done|apply smallOrder_ok|done].
Qed.

Lemma offer_reachable h bc : reachable small bc -> h ∈ smallHeaders -> reachable small (fst (offer h bc)).
Proof.
  intros Hr Hh. eapply R_insert; [exact Hr| | |unfold offer; apply surjective_pairing].
  - split; [by exists h|]. by apply Forall_nil.
  - unfold clockRange. lia.
Qed.

Lemma chain2_reachable : reachable small chain2.
Proof.
  unfold chain2. apply offer_reachable; [|exact (list_elem_of_lookup_2 smallHeaders 2 a2 eq_refl)].
  unfold chain1. apply offer_reachable; [|exact (list_elem_of_lookup_2 smallHeaders 1 a1 eq_refl)].
  exact chain0_reachable.
Qed.

Lemma chain4_reachable : reachable small chain4.
Proof.
  unfold chain4. apply offer_reachable; [|exact (list_elem_of_lookup_2 smallHeaders 4 b2 eq_refl)].
  unfold chain3. apply offer_reachable; [|exact (list_elem_of_lookup_2 smallHeaders 3 b1 eq_refl)].
  exact chain2_reachable.
Qed.

Lemma chain5_reachable : reachable small chain5.
Proof.
  unfold chain5. apply offer_reachable; [exact chain4_reachable|exact (list_elem_of_lookup_2 smallHeaders 5 b3 eq_refl)].
Qed.

(** ** A restart in the middle *)

(** The block [h] is accepted: extending, on the side, or with a reorg. *)
Definition accepts (r : Blockchain Memory * callres error (option Reorg)) : bool :=
  match snd r with Returns _ => true | _ => false end.

Definition refusedWith (r : Blockchain Memory * callres error (option Reorg)) : option error :=
  match snd r with Raises e => Some e | _ => None end.

(** The process is restarted on the store it leaves. *)
Definition restart (bc : Blockchain Memory) : Blockchain Memory := opened (smallOpen (db bc)) bc.

Definition reopens (bc : Blockchain Memory) : option error :=
  match fst (smallOpen (db bc)) with Raises e => Some e | _ => None end.

(** From [bc], where the branch [a] is canonical: the branch [b] wins, then [a] with two more blocks. *)
Definition thereAndBack (bc : Blockchain Memory) : Blockchain Memory * list bool :=
  let r1 := offer b1 bc in
  let r2 := offer b2 (fst r1) in
  let r3 := offer b3 (fst r2) in
  let a3 := childOf (fst r3) (Header_Hash a2) 1 in
  let r4 := offer a3 (fst r3) in
  let a4 := childOf (fst r4) (Header_Hash a3) 1 in
  let r5 := offer a4 (fst r4) in
  (fst r5, map accepts [r1; r2; r3; r4; r5]).

(** ** Properties *)

(** C5: [InsertBlock], on any chain a node can reach and any block it is offered, neither panics nor
    loops.  If it refuses the block, the store, the head and the states are what they were.  If it
    accepts it, the block is dated no later than the clock and the drift allowed, it was unknown and now is
    known, and the canonical chain, as [BlockByHeight] reads
    it, is the old one, the old one with the block at its end, or the old one cut at a common ancestor and
    continued by a branch that ends in the block; in that last case the reorg hook is told that ancestor,
    exactly the blocks that left and exactly those that joined. *)
Theorem InsertBlock_spec `{Crypto} `{Bn256} {D : Type} `{KVLaws D} n (bc : Blockchain D) raw now :
  wf_network n -> reachable n bc -> offered (n_headers n) raw -> clockRange now ->
  exists chain, canonicalChain n bc chain /\
  match InsertBlock raw now bc with
  | (bc', Returns ro) => exists b chain', rb_Header raw = Some (b_Header b) /\ allTxs (rb_Txs raw) = Some (b_Txs b)
      /\ Timestamp (b_Header b) <= now + MaxFutureDriftMs
      /\ HasBlock bc (Block_Hash b) = false /\ HasBlock bc' (Block_Hash b) = true
      /\ canonicalChain n bc' chain' /\ moves chain b chain' ro
  | (bc', Raises _) => unchanged bc bc'
  | _ => False
  end.
Proof. intros Hn. apply InsertBlock_lemma, Hn. Qed.

Lemma InsertBlock_spec_witness :
  accepts (offer b3 chain4) = true /\
  exists chain, canonicalChain small chain4 chain /\
  match InsertBlock (mkRawBlock (Some b3) []) 100000000 chain4 with
  | (bc', Returns ro) => exists b chain', Some b3 = Some (b_Header b) /\ allTxs [] = Some (b_Txs b)
      /\ Timestamp (b_Header b) <= 100000000 + MaxFutureDriftMs
      /\ HasBlock chain4 (Block_Hash b) = false /\ HasBlock bc' (Block_Hash b) = true
      /\ canonicalChain small bc' chain' /\ moves chain b chain' ro
  | (bc', Raises _) => unchanged chain4 bc'
  | _ => False
  end.
Proof.
  split; [by vm_compute|].
  refine (InsertBlock_spec small chain4 (mkRawBlock (Some b3) []) 100000000 small_wf chain4_reachable _ _).
  - split; [|by apply Forall_nil]. exists b3. split; [reflexivity|]. exact (list_elem_of_lookup_2 smallHeaders 5 b3 eq_refl).
  - unfold clockRange. lia.
Defined.

(** C7: On every chain a node can reach, the canonical index is a chain: [BlockByHeight] returns one
    block per height from the genesis to the head and an error above it, each block names the one below
    as its parent, carries its proof of work and a matching transaction root, and is later than its
    parent. *)
Theorem canonical_chain `{Crypto} `{Bn256} {D : Type} `{KVLaws D} n (bc : Blockchain D) :
  wf_network n -> reachable n bc ->
  exists chain, canonicalChain n bc chain /\
  forall i p b, chain !! i = Some p -> chain !! S i = Some b ->
    satisfiesPoW (b_Header b) = true /\ VerifyTxRoot b = true /\ Timestamp (b_Header p) < Timestamp (b_Header b).
Proof. intros Hn. apply canonical_lemma, Hn. Qed.

Lemma canonical_chain_witness :
  exists chain, canonicalChain small chain5 chain /\
  forall i p b, chain !! i = Some p -> chain !! S i = Some b ->
    satisfiesPoW (b_Header b) = true /\ VerifyTxRoot b = true /\ Timestamp (b_Header p) < Timestamp (b_Header b).
Proof. exact (canonical_chain small chain5 small_wf chain5_reachable). Defined.

(** C8: The head is the heaviest tip.  The total difficulty recorded for it is the sum of the
    difficulties of the canonical chain, and no block the node can return, on any branch, is better by
    the fork choice. *)
Theorem head_heaviest `{Crypto} `{Bn256} {D : Type} `{KVLaws D} n (bc : Blockchain D) :
  wf_network n -> reachable n bc ->
  exists chain, canonicalChain n bc chain
    /\ getTD (db bc) (Block_Hash (head bc)) = Ok (sumDifficulty (map b_Header chain))
    /\ forall h b bc', BlockByHash h bc = (bc', Returns b) ->
       exists td, getTD (db bc) h = Ok td
         /\ Better (mkTip (b_Header b) td) (mkTip (b_Header (head bc)) (sumDifficulty (map b_Header chain))) = false.
Proof. intros Hn. apply heaviest_lemma, Hn. Qed.

Lemma head_heaviest_witness :
  exists chain, canonicalChain small chain5 chain
    /\ getTD (db chain5) (Block_Hash (head chain5)) = Ok (sumDifficulty (map b_Header chain))
    /\ forall h b bc', BlockByHash h chain5 = (bc', Returns b) ->
       exists td, getTD (db chain5) h = Ok td
         /\ Better (mkTip (b_Header b) td) (mkTip (b_Header (head chain5)) (sumDifficulty (map b_Header chain))) = false.
Proof. exact (head_heaviest small chain5 small_wf chain5_reachable). Defined.

(** C9: Nodes converge.  Two nodes of one network that hold the same blocks have the same head, whatever
    the order in which the blocks came and whatever was refused, reorganised or pruned on the way. *)
Theorem same_blocks_same_head `{Crypto} `{Bn256} {D D' : Type} `{KVLaws D} `{KVLaws D'} n (bc : Blockchain D) (bc' : Blockchain D') :
  wf_network n -> reachable n bc -> reachable n bc' -> (forall h, HasBlock bc h = HasBlock bc' h) -> b_Header (head bc) = b_Header (head bc').
Proof. intros Hn. by apply same_head_lemma. Qed.

(** The blocks of [chain5] in another order: the branch [b] first, [a] after it, on the side. *)
Definition chain5' : Blockchain Memory := fold_left (fun bc h => fst (offer h bc)) [b1; b2; b3; a1; a2] chain0.

Lemma chain5'_reachable : reachable small chain5'.
Proof.
  unfold chain5'. cbn [fold_left]. repeat apply offer_reachable.
  - exact chain0_reachable.
  - exact (list_elem_of_lookup_2 smallHeaders 3 b1 eq_refl).
  - exact (list_elem_of_lookup_2 smallHeaders 4 b2 eq_refl).
  - exact (list_elem_of_lookup_2 smallHeaders 5 b3 eq_refl).
  - exact (list_elem_of_lookup_2 smallHeaders 1 a1 eq_refl).
  - exact (list_elem_of_lookup_2 smallHeaders 2 a2 eq_refl).
Qed.

(** The block keys of one store are in another. *)
Definition blocksIn (bc bc' : Blockchain Memory) : bool :=
  forallb (fun p => match fst p with
                    | x :: _ => negb (Byte.eqb x prefixBlock) || bool_decide (is_Some (contents (db bc') !! fst p))
                    | [] => true
                    end) (map_to_list (contents (db bc))).

Lemma blocksIn_ok bc bc' h : blocksIn bc bc' = true -> is_Some (contents (db bc) !! blockKey h) -> is_Some (contents (db bc') !! blockKey h).
Proof.
  intros Hb [v Hv]. unfold blocksIn in Hb. rewrite forallb_forall in Hb.
  specialize (Hb (blockKey h, v) ltac:(apply list_elem_of_In; by apply elem_of_map_to_list)). cbn [fst blockKey] in Hb.
  change (negb (Byte.eqb prefixBlock prefixBlock)) with false in Hb. cbn [orb] in Hb. by apply bool_decide_eq_true in Hb.
Qed.

Lemma same_held bc bc' : reachable small bc -> reachable small bc' -> blocksIn bc bc' = true -> blocksIn bc' bc = true ->
  forall h, HasBlock bc h = HasBlock bc' h.
Proof.
  intros Hr Hr' H1 H2 h. destruct (chain_reachable_inv small small_wf bc Hr) as (F & canon & Hi & _).
  destruct (chain_reachable_inv small small_wf bc' Hr') as (F' & canon' & Hi' & _).
  rewrite (HasBlock_ok small F canon bc h Hi), (HasBlock_ok small F' canon' bc' h Hi'). apply bool_decide_ext.
  split; by apply blocksIn_ok.
Qed.

Lemma same_blocks_same_head_witness : b_Header (head chain5) = b_Header (head chain5').
Proof.
  apply (same_blocks_same_head small chain5 chain5' small_wf chain5_reachable chain5'_reachable).
  apply (same_held chain5 chain5' chain5_reachable chain5'_reachable); vm_compute; reflexivity.
Defined.

(** C10: [CheckConservation] never fails: after any blocks and reorgs, the balances and the burn total of
    the head state add up to the genesis supply and everything issued up to its height. *)
Theorem conservation_always `{Crypto} `{Bn256} {D : Type} `{KVLaws D} n (bc : Blockchain D) :
  wf_network n -> reachable n bc -> CheckConservation bc = Returns tt.
Proof. intros Hn. apply conservation_lemma, Hn. Qed.

Lemma conservation_always_witness : CheckConservation chain5 = Returns tt.
Proof. exact (conservation_always small chain5 small_wf chain5_reachable). Defined.

(** C6: Closing and opening again loses nothing of the chain.  [NewBlockchain] on the store of any chain
    a node can reach succeeds, writes nothing, and comes back with the same head and the same balances,
    nonces, code and storage at it; it also rebuilds, from the reverse diffs alone, the accounts and the
    burn total of every canonical block of the retention window whose state was held. *)
Theorem reopen_roundtrip `{Crypto} `{Bn256} {D : Type} `{KVLaws D} n (bc : Blockchain D) order limit :
  wf_network n -> reachable n bc -> (forall k, alloc_order (n_genesis n) (order k)) -> is_u64 limit ->
  exists bc' chain, NewBlockchain (db bc) (n_genesis n) limit order = (Returns bc', db bc) /\ canonicalChain n bc chain
    /\ head bc' = head bc
    /\ (forall a k, BalanceAt bc' a = BalanceAt bc a /\ NonceAt bc' a = NonceAt bc a /\ CodeAt bc' a = CodeAt bc a
         /\ StorageAt bc' a k = StorageAt bc a k)
    /\ forall b s, b ∈ chain -> Block_Height (head bc) - retentionOf limit <= Block_Height b -> states bc !! Block_Hash b = Some s ->
       exists t, states bc' !! Block_Hash b = Some t /\ agree t s.
Proof. intros Hn. apply reopen_lemma, Hn. Qed.

Lemma reopen_roundtrip_witness :
  exists bc' chain, NewBlockchain (db chain5) smallGenesis 0 smallOrder = (Returns bc', db chain5) /\ canonicalChain small chain5 chain
    /\ head bc' = head chain5
    /\ (forall a k, BalanceAt bc' a = BalanceAt chain5 a /\ NonceAt bc' a = NonceAt chain5 a /\ CodeAt bc' a = CodeAt chain5 a
         /\ StorageAt bc' a k = StorageAt chain5 a k)
    /\ forall b s, b ∈ chain -> Block_Height (head chain5) - retentionOf 0 <= Block_Height b -> states chain5 !! Block_Hash b = Some s ->
       exists t, states bc' !! Block_Hash b = Some t /\ agree t s.
Proof.
  refine (reopen_roundtrip small chain5 smallOrder 0 small_wf chain5_reachable smallOrder_ok _). unfold is_u64. lia.
Defined.

(** C39: A restart forgets which accounts the blocks of the window changed.  A node is started on a store that holds a chain.
    Whenever afterwards the loop of [reorg] over the joining blocks puts back, below a new head, blocks whose states are
    those the start restored, it writes nothing of their account changes: after its batch, whatever was on disk and in the
    batch before, every account that the new head's own state did not touch is as it was without these blocks. *)
Theorem restart_forgets_changes `{Crypto} `{Bn256} {D : Type} `{KV D} (d d' : D) g limit order bc ss newHead newState batch blks batch' :
  KV_Has d keyHead = true -> NewBlockchain d g limit order = (Returns bc, d') ->
  (forall b, b ∈ blks -> Block_Hash b <> Block_Hash newHead /\ ss !! Block_Hash b = states bc !! Block_Hash b) ->
  rewind ss newHead newState batch (blks ++ [newHead]) = Ok batch' ->
  forall C a, a ∉ Touched newState -> applyBatch batch' C !! accountKey a = applyBatch batch C !! accountKey a.
Proof.
  intros Hh Hn Hb Hr C a Ha. eapply rewind_untouched; [|exact Hr|exact Ha]. intros b Hin. destruct (Hb b Hin) as [Hne E].
  split; [exact Hne|]. rewrite E. by apply (restored_touched d d' g limit order).
Qed.

(** The branch [a] was canonical, and the heavier [b] has won. *)
Definition toB (bc : Blockchain Memory) : Blockchain Memory := fst (offer b3 (fst (offer b2 (fst (offer b1 bc))))).

(** The block that makes [a] the heavier again, its state, and the batch that puts [a] back. *)
Definition headA (bc : Blockchain Memory) : Block := mkBlock (childOf bc (Header_Hash a2) 1) [].

Definition stateA (bc : Blockchain Memory) (hd : Block) : State :=
  match states bc !! Header_Hash a2 with
  | Some s => match ApplyBlock (split bc) s hd (Some a2) with Returns (s', _) => s' | _ => s end
  | None => State_New
  end.

Definition branchA : list Block := [mkBlock a1 []; mkBlock a2 []].

Definition batchA (bc : Blockchain Memory) (hd : Block) (st : State) : res Batch := rewind (states bc) hd st [] (branchA ++ [hd]).

(** With a restart in between, and without. *)
Definition onB : Blockchain Memory := toB (restart chain2).
Definition backHead : Block := headA onB.
Definition backState : State := stateA onB backHead.
Definition okBatch (r : res Batch) : Batch := match r with Ok b => b | _ => [] end.

Lemma okBatch_some (r : res Batch) : match r with Ok _ => true | _ => false end = true -> exists b, r = Ok b.
Proof. destruct r; [by eexists|done..]. Qed.

Lemma okBatch_eq (r : res Batch) b : r = Ok b -> r = Ok (okBatch r).
Proof. by intros ->. Qed.

Lemma batchA_eq bc hd st : batchA bc hd st = rewind (states bc) hd st [] (branchA ++ [hd]).
Proof. done. Qed.

Definition backBatch : Batch := okBatch (batchA onB backHead backState).

Definition keptBatch : Batch :=
  okBatch (batchA (toB chain2) (headA (toB chain2)) (stateA (toB chain2) (headA (toB chain2)))).

(** Restarted, the node does not write back the account that [a1] paid, though the new head's state has its balance; not
    restarted, it does. *)
Lemma restart_forgets_changes_witness :
  applyBatch backBatch ∅ !! accountKey (Proposer a1) = None
  /\ State_Balance backState (Proposer a1) = 25000000000000000000
  /\ bool_decide (is_Some (applyBatch keptBatch ∅ !! accountKey (Proposer a1))) = true.
Proof.
  split; [|split; vm_compute; reflexivity].
  assert (match fst (smallOpen (db chain2)) with Returns _ => true | _ => false end = true) as Ho by (vm_compute; reflexivity).
  assert (exists b, batchA onB backHead backState = Ok b) as [batch Eb] by (apply okBatch_some; vm_compute; reflexivity).
  apply (restart_forgets_changes (db chain2) (snd (smallOpen (db chain2))) smallGenesis 4 smallOrder (restart chain2)
    (states onB) backHead backState [] branchA backBatch).
  - vm_compute. reflexivity.
  - unfold restart. change (NewBlockchain (db chain2) smallGenesis 4 smallOrder) with (smallOpen (db chain2)).
    destruct (smallOpen (db chain2)) as [[bc|e| |] d']; [reflexivity|discriminate Ho..].
  - assert (forallb (fun b => bool_decide (Block_Hash b <> Block_Hash backHead)) branchA = true) as Hne by (vm_compute; reflexivity).
    intros b Hin. split.
    + rewrite forallb_forall in Hne. specialize (Hne b ltac:(by apply list_elem_of_In)). by apply bool_decide_eq_true in Hne.
    + apply elem_of_cons in Hin as [->|Hin%list_elem_of_singleton]; [|subst b]; vm_compute; reflexivity.
  - rewrite <- batchA_eq. exact (okBatch_eq _ batch Eb).
  - assert (bool_decide (Proposer a1 ∉ Touched backState) = true) as Ht by (vm_compute; reflexivity). by apply bool_decide_eq_true in Ht.
Defined.

(** A chain whose branch [a] loses to [b] and wins again reopens; when the process is restarted before the first of the two
    reorgs, every block is still accepted, but the second reorg puts the blocks of [a] back without their account changes,
    and the next start fails: the accounts on disk no longer hash to the state root of the head. *)
Theorem restart_then_reorg_corrupts :
  (let (bc, oks) := thereAndBack chain2 in forallb id oks && bool_decide (reopens bc = None))
  && (let (bc, oks) := thereAndBack (restart chain2) in forallb id oks && bool_decide (reopens bc = Some ErrCorrupt)) = true.
Proof. vm_compute. reflexivity. Qed.

(** After a restart a side branch can never be followed.  With [b1] stored beside the head [a2], a
    node that keeps running takes the blocks [b2] and [b3] and reorganises to them; a node that restarts
    refuses [b1] as known and [b2], [b3] because their ancestor has no state, and stays on the lighter
    branch. *)
Theorem restart_strands_side_branch :
  bool_decide (map refusedWith [offer b2 chain3; offer b3 (fst (offer b2 chain3))] = [None; None]
    /\ Block_Hash (head (fst (offer b3 (fst (offer b2 chain3))))) = Header_Hash b3)
  && (let bc := restart chain3 in
      let r1 := offer b1 bc in
      let r2 := offer b2 (fst r1) in
      let r3 := offer b3 (fst r2) in
      bool_decide (map refusedWith [r1; r2; r3] = [Some ErrKnownBlock; Some ErrReorgTooDeep; Some ErrUnknownParent]
        /\ Block_Hash (head (fst r3)) = Header_Hash a2)) = true.
Proof. vm_compute. reflexivity. Qed.
