(* ===== verification/ChainExtend.v ===== *)
(** * Extending the head

    A block on top of the head that passes every check is accepted, and
    becomes the head, unless the store fails.  The difficulty asked of it does
    not depend on what the node has cached. *)
From stdpp Require Import base numbers list gmap sorting.
From Stdlib Require Import ZArith Lia Strings.Byte.
From S2P Require Import Prelude Common Types VmBase Precompiles Vm VmProofs State StateProofs StateInv Transition BlockProofs Pow Genesis.
From S2P Require Import Json JsonCodec Store Schema SchemaProofs Blockchain ChainInv ChainMove ChainStep ChainProofs ChainInsert ChainOpen.
From S2P Require Import ChainProps.
#[local] Open Scope Z_scope.
#[local] Open Scope list_scope.
#[local] Open Scope go_scope.
#[local] Open Scope chain_scope.

(** A store whose commits succeed. *)
Definition reliable (D : Type) `{KV D} : Prop := forall (d : D) b, exists d', KV_Commit d b = (d', Ok tt).

Section ChainExtend.
Context `{Crypto} `{Bn256} {D : Type} `{KVLaws D}.
Context (P : Header -> Prop) (gb : Block) `{!headers P gb}.

Abbreviation stored := (stored P).
Abbreviation inv := (inv P gb).

(** ** What a lookup gives depends on the store alone *)

Lemma blockLocked_value F canon (bc : Blockchain D) h :
  inv F canon bc ->
  (exists b, stored (contents (db bc)) b /\ Block_Hash b = h /\ snd (blockLocked h bc) = Returns b)
  \/ (contents (db bc) !! blockKey h = None /\ snd (blockLocked h bc) = Raises ErrUnknownBlock).
Proof.
  intros Hi. unfold blockLocked. destruct (blockCache bc !! h) as [b|] eqn:E.
  { destruct (mi_cache _ _ _ _ (inv_mem _ _ _ _ _ Hi) h b E) as [Eh Hb]. left. by exists b. }
  destruct (contents (db bc) !! blockKey h) as [v|] eqn:Ek.
  - destruct (si_blocks _ _ _ _ (inv_store _ _ _ _ _ Hi) h) as (b & Hb & Eh); [by exists v|]. left. exists b.
    split_and!; [done|done|]. by rewrite <- Eh, (load_stored P).
  - right. split; [done|]. unfold loadBlock. by rewrite Get_law, Ek.
Qed.

Lemma blockLocked_det F canon F' canon' (bc bc' : Blockchain D) h :
  inv F canon bc -> inv F' canon' bc' -> contents (db bc') = contents (db bc) ->
  snd (blockLocked h bc') = snd (blockLocked h bc).
Proof.
  intros Hi Hi' E. destruct (blockLocked_value F canon bc h Hi) as [(b & Hb & Eb & ->)|[Hn ->]];
    destruct (blockLocked_value F' canon' bc' h Hi') as [(b' & Hb' & Eb' & ->)|[Hn' ->]]; rewrite E in *; try done.
  - f_equal. apply (stored_inj P (contents (db bc))); [done..|congruence].
  - destruct Hb as [Hb _]. congruence.
  - destruct Hb' as [Hb' _]. congruence.
Qed.

Lemma blockLocked_step F canon (bc : Blockchain D) h :
  inv F canon bc -> inv F canon (fst (blockLocked h bc)) /\ same bc (fst (blockLocked h bc)).
Proof.
  intros Hi. pose proof (blockLocked_reads P gb F canon bc h bc (same_refl bc) Hi) as Hr.
  destruct (blockLocked h bc) as [bc' r]. by destruct Hr as (? & ? & _).
Qed.

Lemma ancestors_det F canon F' canon' n cur acc (bc bc' : Blockchain D) :
  inv F canon bc -> inv F' canon' bc' -> contents (db bc') = contents (db bc) ->
  snd (ancestors n cur acc bc') = snd (ancestors n cur acc bc).
Proof.
  revert cur acc bc bc'. induction n as [|n IH]; intros cur acc bc bc' Hi Hi' E; [done|]. cbn [ancestors].
  pose proof (blockLocked_det F canon F' canon' bc bc' (ParentHash cur) Hi Hi' E) as Ev.
  destruct (blockLocked_step F canon bc (ParentHash cur) Hi) as [Hi1 Hs1].
  destruct (blockLocked_step F' canon' bc' (ParentHash cur) Hi') as [Hi1' Hs1'].
  apply same_fields in Hs1 as [Ed1 _]. apply same_fields in Hs1' as [Ed1' _].
  destruct (blockLocked (ParentHash cur) bc) as [bc1 r], (blockLocked (ParentHash cur) bc') as [bc1' r'].
  cbn [fst snd] in *. subst r'. destruct r as [b|e| |]; try done. apply IH; [done..|congruence].
Qed.

Lemma ancestors_no_error n cur acc (bc : Blockchain D) : match snd (ancestors n cur acc bc) with Raises _ => False | _ => True end.
Proof.
  revert cur acc bc. induction n as [|n IH]; intros cur acc bc; [done|]. cbn [ancestors].
  destruct (blockLocked (ParentHash cur) bc) as [bc1 [b|e| |]]; try done. apply IH.
Qed.

(** The difficulty is computed, whatever is cached, and is positive. *)
Lemma requiredDifficulty_total F canon (bc : Blockchain D) parent :
  inv F canon bc -> sane_header parent -> 1 <= genesisDifficulty bc < 2 ^ 64 ->
  exists bc' d, requiredDifficultyLocked parent bc = (bc', Returns d) /\ inv F canon bc' /\ same bc bc' /\ 1 <= d < 2 ^ 64.
Proof.
  intros Hi Hp Hg. unfold requiredDifficultyLocked, LwmaWindow.
  set (w := if 45 <? i64 (Height parent) then 45 else i64 (Height parent)).
  assert (w <= 45) as Hw by (unfold w; destruct (Z.ltb_spec 45 (i64 (Height parent))); lia).
  destruct (Z.ltb_spec w 2) as [|Hw2].
  { exists bc, (genesisDifficulty bc). split_and!; try done; [by apply same_refl|lia..]. }
  unfold op_bind. pose proof (ancestors_reads P gb F canon bc (Z.to_nat w) parent [parent] ltac:(by apply Forall_singleton)
    bc (same_refl bc) Hi) as Ha.
  pose proof (ancestors_no_error (Z.to_nat w) parent [parent] bc) as Hne.
  destruct (ancestors _ parent [parent] bc) as [bc1 [r|e| |]]; destruct Ha as (Hi1 & Hs1 & Ha); try done.
  destruct r as [window|]; cycle 1.
  { exists bc1, (genesisDifficulty bc1). apply same_fields in Hs1 as Hs1'; destruct Hs1' as (_ & _ & _ & Eg & _). split_and!; try done; rewrite Eg; lia. }
  destruct (Ha window eq_refl) as (Hl & Hf & _). destruct window as [|h0 rest]; [cbn in Hl; lia|].
  destruct (lwma_bounds_lemma h0 rest) as (d & Ed & Hd & _); [|unfold LwmaWindow, len; cbn in Hl; lia|].
  { eapply Forall_impl; [exact Hf|]. by intros h []. }
  exists bc1, d. unfold op_res. rewrite Ed. unfold MinDifficulty in Hd. split_and!; try done; lia.
Qed.

Lemma requiredDifficulty_det F canon F' canon' parent (bc bc' : Blockchain D) :
  inv F canon bc -> inv F' canon' bc' -> contents (db bc') = contents (db bc) -> genesisDifficulty bc' = genesisDifficulty bc ->
  snd (requiredDifficultyLocked parent bc') = snd (requiredDifficultyLocked parent bc).
Proof.
  intros Hi Hi' E Eg. unfold requiredDifficultyLocked. set (w := if LwmaWindow <? _ then _ else _).
  destruct (w <? 2); [unfold op_get; cbn [snd]; by rewrite Eg|]. unfold op_bind.
  pose proof (ancestors_det F canon F' canon' (Z.to_nat w) parent [parent] bc bc' Hi Hi' E) as Ea.
  assert (forall (x : Blockchain D), genesisDifficulty (fst (ancestors (Z.to_nat w) parent [parent] x)) = genesisDifficulty x) as Hg.
  { clear. generalize (Z.to_nat w) parent [parent]. intros n. induction n as [|n IH]; intros cur acc x; [done|]. cbn [ancestors].
    unfold blockLocked. destruct (blockCache x !! _); [apply IH|]. destruct (loadBlock _ _) as [b|[]|]; try done. by rewrite IH. }
  pose proof (Hg bc) as G. pose proof (Hg bc') as G'.
  destruct (ancestors _ parent [parent] bc) as [bc1 r], (ancestors _ parent [parent] bc') as [bc1' r']. cbn [fst snd] in *. subst r'.
  destruct r as [[window|]|e| |]; try done. unfold op_get. cbn [snd]. congruence.
Qed.

(** ** A block on the head *)

(** What a block on top of the head has to satisfy. *)
Record extends (bc : Blockchain D) (b : Block) (now : Z) : Prop := {
  xt_parent : ParentHash (b_Header b) = Block_Hash (head bc);
  xt_time : Timestamp (b_Header b) <= i64 (now + MaxFutureDriftMs);
  xt_difficulty : snd (requiredDifficultyLocked (b_Header (head bc)) bc) = Returns (Difficulty (b_Header b));
  xt_positive : 1 <= Difficulty (b_Header b);
  xt_pow : satisfiesPoW (b_Header b) = true;
  xt_txs : VerifyTxRoot b = true;
  xt_sane : Forall (fun tx => SanityCheck tx (chainID bc) = Ok tt) (b_Txs b);
  xt_apply : exists st s rs, states bc !! Block_Hash (head bc) = Some st
    /\ ApplyBlock (split bc) st b (Some (b_Header (head bc))) = Returns (s, rs);
}.

(** No block on top of the head is stored: it would be the head. *)
Lemma extends_fresh F canon (bc : Blockchain D) b :
  inv F canon bc -> P (b_Header b) -> ParentHash (b_Header b) = Block_Hash (head bc) -> 1 <= Difficulty (b_Header b) ->
  Block_Height b = Block_Height (head bc) + 1 -> contents (db bc) !! blockKey (Block_Hash b) = None.
Proof.
  intros Hi HP Ep Hd Hht. apply eq_None_not_Some. intros Hsome. pose proof (inv_store _ _ _ _ _ Hi) as Hs.
  destruct (si_blocks _ _ _ _ Hs _ Hsome) as (b' & Hb' & Eh). pose proof (head_stored _ _ _ _ _ Hi) as Hh.
  assert (b_Header b' = b_Header b) as E by (apply (P_inj P gb); [apply Hb'|done|done]). rewrite <- E in Ep, Hd.
  destruct (si_td _ _ _ _ Hs _ Hb') as [td Htd]. destruct (si_td _ _ _ _ Hs _ Hh) as [htd Hhtd].
  assert (b' <> gb) as Hne.
  { intros ->. pose proof (stored_height P _ _ Hh). pose proof (cf_height _ _ (inv_config _ _ _ _ _ Hi)). unfold Block_Height in *.
    rewrite E in *. lia. }
  pose proof (si_work _ _ _ _ Hs b' (head bc) td htd Hb' Hne Hh Ep Htd Hhtd) as Etd.
  pose proof (ci_best _ _ _ _ (inv_canon _ _ _ _ _ Hi) b' td htd Hb' Htd Hhtd) as Hbest. unfold Better in Hbest. cbn in Hbest.
  destruct (Z.eqb_spec td htd); [lia|]. cbn [negb] in Hbest. apply Z.ltb_ge in Hbest. lia.
Qed.

Lemma sanity_pass txs id : Forall (fun tx => SanityCheck tx id = Ok tt) txs ->
  fold_left (fun r tx => let? _ := r in SanityCheck tx id) txs (Ok tt) = Ok tt.
Proof. induction 1 as [|tx txs Htx _ IH]; [done|]. cbn [fold_left res_bind]. by rewrite Htx. Qed.

Lemma checkBlock_pass F canon (bc : Blockchain D) b now :
  inv F canon bc -> extends bc b now ->
  exists bc', checkBlock (toRaw b) (b_Header b) now bc = (bc', Returns (b, head bc)) /\ inv F canon bc' /\ same bc bc'.
Proof.
  intros Hi [Ep Et Ed Hd Hpow Htx Hsane _]. pose proof (head_stored _ _ _ _ _ Hi) as Hh. unfold checkBlock. cbn [toRaw rb_Txs].
  rewrite allTxs_some. unfold op_bind at 1, op_else. rewrite Ep. destruct (blockLocked_step F canon bc (Block_Hash (head bc)) Hi) as [Hi1 Hs1].
  destruct (blockLocked_value F canon bc (Block_Hash (head bc)) Hi) as [(p & Hp & Ehp & Ev)|[Hn _]]; [|destruct Hh as [Hh _]; congruence].
  apply (stored_inj P _ _ _ Hp Hh) in Ehp as ->. pose proof (same_fields _ _ Hs1) as (Edb & Eid & _ & Egd & _).
  destruct (blockLocked (Block_Hash (head bc)) bc) as [bc1 r]. cbn [fst snd] in *. subst r.
  destruct (Z.ltb_spec (i64 (now + MaxFutureDriftMs)) (Timestamp (b_Header b))); [lia|].
  pose proof (requiredDifficulty_det F canon F canon (b_Header (head bc)) bc bc1 Hi Hi1 ltac:(by rewrite Edb) Egd) as Er. rewrite Ed in Er.
  pose proof (requiredDifficulty_reads P gb F canon bc1 (b_Header (head bc)) ltac:(apply Hh) bc1 (same_refl bc1) Hi1) as Hr.
  unfold op_bind at 1. destruct (requiredDifficultyLocked (b_Header (head bc)) bc1) as [bc2 r]. cbn [snd] in Er. subst r.
  destruct Hr as (Hi2 & Hs2 & _). rewrite Z.eqb_refl, Hpow. cbn [negb].
  assert (VerifyTxRoot (mkBlock (b_Header b) (b_Txs b)) = true) as Htx' by (by destruct b). rewrite Htx'. cbn [negb].
  unfold op_bind, op_get. pose proof (same_fields _ _ Hs2) as (_ & Eid2 & _). rewrite Eid2, Eid, sanity_pass by done.
  exists bc2. split_and!; [by destruct b|done|]. by eapply same_trans.
Qed.

Lemma prune_no_error (bc : Blockchain D) e : snd (prune bc) <> Raises e.
Proof.
  unfold prune, gcOrphans. destruct (_ <=? _); [done|]. destruct (_ =? 0); [|done]. destruct (belowCutoff _ _ _); try done.
  destruct (_ <? _); [|done]. by destruct (commit _ _) as [? []].
Qed.

Lemma ApplyBlock_height sp ps b p s rs :
  ApplyBlock sp ps b (Some p) = Returns (s, rs) -> 0 <= Height p < 2 ^ 63 -> Block_Height b = Height p + 1.
Proof.
  intros Ha Hp. assert (checkParent (b_Header b) p = Ok tt \/ checkParent (b_Header b) p <> Ok tt) as [E|E] by (destruct (checkParent _ _) as [[]| |]; auto).
  - unfold checkParent in E. destruct (array_eqb _ _); [|done]. cbn [negb] in E.
    unfold Block_Height. destruct (Z.eqb_spec (Height (b_Header b)) (u64 (Height p + 1))) as [->|]; [|done]. apply u64_small. lia.
  - destruct (ApplyBlock_bad_parent sp ps b p E) as [e Ee]. congruence.
Qed.

Lemma ApplyBlock_txRoot sp ps b p s rs : ApplyBlock sp ps b (Some p) = Returns (s, rs) -> VerifyTxRoot b = true.
Proof. unfold ApplyBlock, applyBlockBody. by destruct (VerifyTxRoot b). Qed.

Lemma better_child (b p : Header) ptd : 1 <= Difficulty b -> Better (mkTip b (ptd + Difficulty b)) (mkTip p ptd) = true.
Proof. intros Hd. unfold Better. cbn. destruct (Z.eqb_spec (ptd + Difficulty b) ptd); [lia|]. cbn. apply Z.ltb_lt. lia. Qed.

(** A store that does not fail takes the block. *)
Lemma extend_reliable F canon (bc : Blockchain D) b p ps s ptd rs :
  reliable D -> arrival P gb F canon bc b p ps s ptd -> receiptsOf b rs -> Block_Hash p = Block_Hash (head bc) -> 1 <= Difficulty (b_Header b) ->
  work (contents (db bc)) p ptd ->
  exists bc' F', extend b rs s (Touched s) (ptd + Difficulty (b_Header b)) bc = (bc', Returns tt)
    /\ inv F' (canon ++ [b]) bc' /\ head bc' = b /\ same_config bc bc'.
Proof.
  intros Hrel Har Hrs Ep Hd Hptd.
  assert (p = head bc) as -> by (apply (stored_inj P (contents (db bc))); [apply Har|apply (head_stored P gb F canon bc), Har|done]).
  pose proof (extend_ok P gb F canon bc b (head bc) ps s ptd Har rs Hrs) as Hex.
  assert (forall htd, work (contents (db bc)) (head bc) htd ->
    Better (mkTip (b_Header b) (ptd + Difficulty (b_Header b))) (mkTip (b_Header (head bc)) htd) = true) as Hb.
  { intros htd Hh. rewrite (work_inj _ _ _ _ Hh Hptd). by apply better_child. }
  specialize (Hex Hb Ep). destruct (extend b rs s _ _ bc) as [bc' [[]|e| |]] eqn:E; try done.
  - destruct Hex as (F' & _ & Hi' & Eh & Hc). by exists bc', F'.
  - exfalso. revert E. unfold extend, op_bind, op_get. rewrite (ar_link _ _ _ _ _ _ _ _ _ _ Har), (ar_pstate _ _ _ _ _ _ _ _ _ _ Har).
    unfold commit. match goal with |- context [KV_Commit ?d ?x] => destruct (Hrel d x) as [d' ->] end. cbn [op_modify]. unfold op_modify.
    intros E. apply (f_equal snd) in E. revert E. apply prune_no_error.
Qed.

Lemma extends_accepted F canon (bc : Blockchain D) b now :
  reliable D -> inv F canon bc -> offered P (toRaw b) -> clockRange now -> extends bc b now ->
  exists bc' F', InsertBlock (toRaw b) now bc = (bc', Returns None) /\ inv F' (canon ++ [b]) bc' /\ head bc' = b /\ same_config bc bc'.
Proof.
  intros Hrel Hi Hoff Hnow Hx. pose proof Hoff as [(h & Eh & HP) _]. cbn in Eh. injection Eh as <-.
  destruct (checkBlock_pass F canon bc b now Hi Hx) as (bc1 & Eck & Hi1 & Hs1).
  pose proof (checkBlock_reads P gb F canon bc (toRaw b) (b_Header b) now Hoff Hnow eq_refl bc (same_refl bc) Hi) as Hck. rewrite Eck in Hck.
  destruct Hck as (_ & _ & Hck). destruct Hx as [Ep _ _ Hd _ _ _ (st & s & rs & Hst & Ha)].
  pose proof (head_stored _ _ _ _ _ Hi) as Hh. pose proof (same_fields _ _ Hs1) as (Ed1 & _ & _ & _ & _ & _ & Esp & Ess & Ehd).
  assert (Block_Height b = Block_Height (head bc) + 1) as Hht.
  { eapply ApplyBlock_height; [exact Ha|]. apply (stored_height P _ _ Hh). }
  pose proof (extends_fresh F canon bc b Hi HP Ep Hd Hht) as Hf. unfold InsertBlock, insert. cbn [toRaw rb_Header].
  change (Header_Hash (b_Header b)) with (Block_Hash b).
  unfold op_bind at 1, op_get at 1. rewrite Has_law, Hf. cbn [is_Some]. rewrite bool_decide_eq_false_2 by (by intros []).
  unfold op_bind at 1, op_get at 1. rewrite bool_decide_eq_false_2; cycle 1.
  { intros [x Hc]. destruct (mi_cache _ _ _ _ (inv_mem _ _ _ _ _ Hi) _ _ Hc) as [Ex [Hxs _]]. congruence. }
  unfold op_bind at 1. rewrite Eck. unfold op_bind at 1, op_get at 1. rewrite Ess, Hst.
  unfold op_bind at 1, op_get at 1. unfold op_bind at 1, op_call. rewrite Esp, Ha.
  rewrite <- Ed1 in Hck, Hf. rewrite <- Ess in Hst. rewrite <- Esp in Ha.
  pose proof (execute_arrival P gb F canon bc1 _ b (head bc) st Hi1 Hck Hf Hst) as Harr. rewrite Ha in Harr.
  destruct Harr as (Hrs & ptd & Hptd & Harr). unfold op_bind at 1, op_get at 1. unfold op_bind at 1, op_res at 1. rewrite (getTD_ok _ _ _ Hptd).
  unfold op_bind at 1, op_get at 1. unfold op_bind at 1, op_res at 1. rewrite Ehd, (getTD_ok _ _ _ Hptd).
  rewrite better_child by done. cbn [negb]. rewrite Ep. destruct (array_eqb_spec (Block_Hash (head bc)) (Block_Hash (head bc))); [|done].
  destruct (extend_reliable F canon bc1 b (head bc) st s ptd rs Hrel Harr Hrs ltac:(by rewrite Ehd) Hd Hptd) as (bc' & F' & E & Hi' & Eh' & Hc').
  unfold op_bind. rewrite E. exists bc', F'. split_and!; [done..|]. eapply same_config_trans; [|exact Hc'].
  apply (same_unchanged _ _ Hs1).
Qed.

End ChainExtend.

Section Read.
Context `{Crypto} `{Bn256} {D : Type} `{KVLaws D} (net : network).

(** What [BlockByHeight] reads does not depend on what is cached. *)
Lemma BlockByHeight_inv F canon h (bc : Blockchain D) :
  inv (n_headers net) (n_block net) F canon bc -> 0 <= h < 2 ^ 64 ->
  exists bc' r, BlockByHeight h bc = (bc', r) /\ inv (n_headers net) (n_block net) F canon bc'
    /\ match (n_block net :: canon) !! Z.to_nat h with
       | Some b => r = Returns b /\ Block_Height b = h /\ h < 2 ^ 63
       | None => r = Raises ErrUnknownBlock
       end.
Proof.
  intros Hi Hh. pose proof (inv_canonicalChain net F canon bc Hi) as Hc. set (l := n_block net :: canon) in *.
  assert (forall bc' b, BlockByHeight h bc = (bc', Returns b) -> inv (n_headers net) (n_block net) F canon bc' /\ stored (n_headers net) (contents (db bc)) b) as Hread.
  { intros bc' b. unfold BlockByHeight, op_bind, op_get, op_res. destruct (unknown_if_absent _) as [x| |]; [|done..].
    intros E. pose proof (blockLocked_reads (n_headers net) (n_block net) F canon bc x bc (same_refl bc) Hi) as Hr. rewrite E in Hr.
    by destruct Hr as (? & _ & ? & _). }
  replace h with (Z.of_nat (Z.to_nat h)) in * by lia. rewrite Nat2Z.id in *.
  destruct (l !! Z.to_nat h) as [b|] eqn:Eb.
  - destruct (cc_read _ _ _ Hc _ _ Eb) as [Ebh [bc' E]]. destruct (Hread _ _ E) as [Hi' [_ [_ [_ _ _ Hsh] _]]].
    exists bc', (Returns b). split_and!; [done..|]. unfold Block_Height in Ebh. by rewrite <- Ebh.
  - apply lookup_ge_None in Eb. destruct (cc_end _ _ _ Hc _ Eb) as [bc' E]; [lia|]. exists bc', (Raises ErrUnknownBlock).
    split_and!; [done| |done]. unfold BlockByHeight, op_bind, op_get, op_res in E. destruct (unknown_if_absent _) as [x|e|].
    + pose proof (blockLocked_reads (n_headers net) (n_block net) F canon bc x bc (same_refl bc) Hi) as Hr. rewrite E in Hr. by destruct Hr.
    + by injection E as <- _.
    + done.
Qed.

End Read.

(** * What the chain's readers return

    The receipts of a canonical block are the ones its header commits to, and
    the transaction index never leads to a block that is not canonical, to
    another transaction, or to another receipt. *)
Section ChainRead.
Context `{Crypto} `{Bn256} {D : Type} `{KVLaws D} (net : network).

Abbreviation P := (n_headers net).
Abbreviation gb := (n_block net).
Abbreviation inv := (inv P gb).
Abbreviation stored := (stored P).

(** A transaction at a place of the canonical chain. *)
Record mined (canon : list Block) (h : Hash) (b : Block) (i : nat) (tx : Transaction) : Prop := {
  mn_block : b ∈ canon;
  mn_tx : b_Txs b !! i = Some tx;
  mn_hash : tx_Hash tx = h;
}.

Lemma receiptsC_ok : codec_ok (listC receiptC) (Forall receipt_widths).
Proof. apply listC_ok, receiptC_ok. Qed.

(** ** The receipts of a block *)

Lemma loadReceipts_stored F canon (bc : Blockchain D) b :
  inv F canon bc -> stored (contents (db bc)) b ->
  exists rs, loadReceipts (db bc) (Block_Hash b) = Ok rs /\ receiptsOf b rs.
Proof.
  intros Hi Hb. destruct (si_receipts _ _ _ _ (inv_store _ _ _ _ _ Hi) b Hb) as (rs & E & Hrs). exists rs. split; [|done].
  unfold loadReceipts. rewrite Get_law, E. cbn [res_bind]. apply (decode_encode _ _ _ receiptsC_ok). apply Hrs.
Qed.

Lemma receiptsOf_small b rs : receiptsOf b rs -> goodBlock P b -> len (b_Txs b) < 2 ^ 63 /\ len rs = len (b_Txs b).
Proof.
  intros (_ & _ & El & Hn & _) [_ [_ _ Hg _] _]. assert (len rs = len (b_Txs b)) as E by (unfold len; lia). rewrite <- E.
  assert (maxGas = 2 ^ 60) by done. lia.
Qed.

Lemma blockLocked_db h (bc : Blockchain D) : db (fst (blockLocked h bc)) = db bc.
Proof. unfold blockLocked. destruct (blockCache bc !! h); [done|]. destruct (loadBlock (db bc) h) as [b|e|]; [done| |done]. by destruct e. Qed.

Lemma BlockByHeight_db h (bc : Blockchain D) : db (fst (BlockByHeight h bc)) = db bc.
Proof. unfold BlockByHeight, op_bind, op_get, op_res. destruct (unknown_if_absent _); [apply blockLocked_db|done..]. Qed.

Lemma ReceiptsByHeight_inv F canon h (bc : Blockchain D) :
  inv F canon bc -> 0 <= h < 2 ^ 64 ->
  exists bc' r, ReceiptsByHeight h bc = (bc', r) /\ inv F canon bc'
    /\ match (gb :: canon) !! Z.to_nat h with
       | Some b => exists rs, r = Returns (rs, b) /\ Block_Height b = h /\ receiptsOf b rs /\ loadReceipts (db bc) (Block_Hash b) = Ok rs
       | None => r = Raises ErrUnknownBlock
       end.
Proof.
  intros Hi Hh. destruct (BlockByHeight_inv net F canon h bc Hi Hh) as (bc1 & r & E & Hi1 & Hr).
  unfold ReceiptsByHeight, op_bind at 1. rewrite E. destruct ((gb :: canon) !! Z.to_nat h) as [b|] eqn:Eb.
  - destruct Hr as (-> & Hb & _). assert (stored (contents (db bc1)) b) as Hs.
    { pose proof (ci_stored _ _ _ _ (inv_canon _ _ _ _ _ Hi1)) as Hst. rewrite Forall_forall in Hst. apply Hst.
      by eapply list_elem_of_lookup_2. }
    destruct (loadReceipts_stored F canon bc1 b Hi1 Hs) as (rs & El & Hrs).
    unfold op_bind, op_get, op_res. rewrite El. exists bc1, (Returns (rs, b)). split_and!; [done..|].
    exists rs. split_and!; [done..|]. pose proof (BlockByHeight_db h bc) as Ed. rewrite E in Ed. cbn [fst] in Ed. by rewrite <- Ed.
  - subst r. by exists bc1, (Raises ErrUnknownBlock).
Qed.

(** ** The transaction index *)

Lemma locate_inv F canon h (bc : Blockchain D) :
  inv F canon bc ->
  locate h bc = (bc, Raises ErrUnknownTx)
  \/ exists b i tx rs, mined canon h b i tx /\ locate h bc = (bc, Returns (locationOf b i)) /\ stored (contents (db bc)) b
     /\ loadReceipts (db bc) (Block_Hash b) = Ok rs /\ receiptsOf b rs.
Proof.
  intros Hi. unfold locate, op_bind, op_get, op_res. rewrite Get_law. destruct (contents (db bc) !! txIndexKey h) as [v|] eqn:E; [|by left].
  right. destruct (ci_txs _ _ _ _ (inv_canon _ _ _ _ _ Hi) h v E) as (b & i & tx & Hb & Htx & Hh & ->).
  assert (stored (contents (db bc)) b) as Hs.
  { pose proof (ci_stored _ _ _ _ (inv_canon _ _ _ _ _ Hi)) as Hst. rewrite Forall_forall in Hst. apply Hst. by right. }
  destruct (loadReceipts_stored F canon bc b Hi Hs) as (rs & El & Hrs). exists b, i, tx, rs. split; [done|]. split; [|done].
  destruct (receiptsOf_small b rs Hrs (proj2 Hs)) as [Hlen _]. apply lookup_lt_Some in Htx.
  rewrite (decode_encode _ _ _ locationC_ok); [done|]. pose proof (good_u64 P b (proj2 Hs)) as Hu. unfold is_u64 in Hu.
  cbn [locationOf BlockHeight Index]. unfold len in Hlen. lia.
Qed.

Lemma atIndex_lookup {A} (l : list A) i a (bc : Blockchain D) :
  l !! i = Some a -> len l < 2 ^ 63 -> atIndex l (Z.of_nat i) bc = (bc, Returns a).
Proof.
  intros Hl Hn. pose proof (lookup_lt_Some _ _ _ Hl). unfold len in Hn. unfold atIndex. rewrite i64_small by lia.
  destruct (Z.leb_spec (len l) (Z.of_nat i)); [unfold len in *; lia|]. destruct (Z.ltb_spec (Z.of_nat i) 0); [lia|].
  by rewrite Nat2Z.id, Hl.
Qed.

(** A transaction is found where the index says, in a canonical block, with its receipt, or not at all. *)
Lemma found_inv F canon h (bc : Blockchain D) :
  inv F canon bc ->
  (TxByHash h bc = (bc, Raises ErrUnknownTx) /\ ReceiptByTxHash h bc = (bc, Raises ErrUnknownTx))
  \/ exists b i tx rs r bc', mined canon h b i tx /\ stored (contents (db bc)) b /\ receiptsOf b rs /\ rs !! i = Some r
     /\ loadReceipts (db bc) (Block_Hash b) = Ok rs /\ inv F canon bc' /\ db bc' = db bc
     /\ TxByHash h bc = (bc', Returns (tx, locationOf b i)) /\ ReceiptByTxHash h bc = (bc, Returns (r, locationOf b i)).
Proof.
  intros Hi. destruct (locate_inv F canon h bc Hi) as [E|(b & i & tx & rs & Hm & E & Hs & Ers & Hrs)].
  { left. unfold TxByHash, ReceiptByTxHash, op_bind. by rewrite E. }
  right. pose proof (blockLocked_reads P gb F canon bc (Block_Hash b) bc (same_refl bc) Hi) as Hr.
  destruct (blockLocked_value P gb F canon bc (Block_Hash b) Hi) as [(b' & Hs' & Eb & Ev)|[Hno _]].
  2: { destruct Hs as [Hs _]. congruence. }
  apply (stored_inj P _ b' b Hs' Hs) in Eb as ->.
  destruct (blockLocked (Block_Hash b) bc) as [bc1 r1] eqn:El. cbn [snd] in Ev. subst r1. destruct Hr as (Hi1 & _ & _).
  destruct (receiptsOf_small b rs Hrs (proj2 Hs)) as [Hn En]. pose proof (lookup_lt_Some _ _ _ (mn_tx _ _ _ _ _ Hm)) as Hlt.
  destruct (lookup_lt_is_Some_2 rs i) as [r Er]; [unfold len in En; lia|]. exists b, i, tx, rs, r, bc1.
  split_and!; [done..|pose proof (blockLocked_db (Block_Hash b) bc) as Ed; by rewrite El in Ed| |].
  - unfold TxByHash, op_bind. rewrite E. cbn [locationOf BlockHash Index]. rewrite El.
    by rewrite (atIndex_lookup _ i tx _ (mn_tx _ _ _ _ _ Hm) Hn).
  - unfold ReceiptByTxHash, op_bind. rewrite E. unfold op_get, op_else, op_res. cbn [locationOf BlockHash Index].
    rewrite Ers, (atIndex_lookup rs i r); [done|done|]. by rewrite En.
Qed.

Lemma TxByHash_inv F canon h (bc : Blockchain D) :
  inv F canon bc ->
  TxByHash h bc = (bc, Raises ErrUnknownTx)
  \/ exists b i tx bc', mined canon h b i tx /\ inv F canon bc' /\ TxByHash h bc = (bc', Returns (tx, locationOf b i)).
Proof.
  intros Hi. destruct (found_inv F canon h bc Hi) as [[E _]|(b & i & tx & rs & r & bc' & Hm & _ & _ & _ & _ & Hi' & _ & E & _)]; [by left|].
  right. by exists b, i, tx, bc'.
Qed.

Lemma ReceiptByTxHash_inv F canon h (bc : Blockchain D) :
  inv F canon bc ->
  ReceiptByTxHash h bc = (bc, Raises ErrUnknownTx)
  \/ exists b i tx rs r, mined canon h b i tx /\ receiptsOf b rs /\ rs !! i = Some r
     /\ ReceiptByTxHash h bc = (bc, Returns (r, locationOf b i)).
Proof.
  intros Hi. destruct (found_inv F canon h bc Hi) as [[_ E]|(b & i & tx & rs & r & bc' & Hm & _ & Hrs & Er & _ & _ & _ & _ & E)]; [by left|].
  right. by exists b, i, tx, rs, r.
Qed.

End ChainRead.
