(* ===== verification/Scorer.v ===== *)
(** * Peer scores and rate limits (p2p/scorer.go, p2p/ratelimit.go)

    The misbehaviour tally shared by the block, transaction and sync
    protocols, and the token bucket each of them puts before its work.  Points
    and tokens are float64s, as in the code; the clock's reading is an
    argument, and so is the order in which Go walks a full map to find the
    entry to evict. *)
From stdpp Require Import base numbers list gmap.
From Stdlib Require Import ZArith Lia Floats.SpecFloat Strings.Byte.
From S2P Require Import Prelude.
#[local] Open Scope Z_scope.

(** * float64 and time

    IEEE 754 binary64 as the standard library specifies it ([SpecFloat]), with
    the operations the rate limiters use: conversion from an integer, sums,
    products, comparisons, [math.Max], truncation.  Products and sums are
    rounded separately, as on amd64; a compiler for a machine with a fused
    multiply-add may round once.  An instant is its number of nanoseconds, a
    duration an int64 of them. *)

Definition f64 : Type := spec_float.

#[export] Instance f64_eq_dec : EqDecision f64.
Proof. unfold f64. solve_decision. Defined.

Definition f_prec : Z := 53.
Definition f_emax : Z := 1024.

(** [float64(z)] *)
Definition f_of_Z (z : Z) : f64 := binary_normalize f_prec f_emax z 0 false.

Definition f_add (x y : f64) : f64 := SFadd f_prec f_emax x y.
Definition f_sub (x y : f64) : f64 := SFsub f_prec f_emax x y.
Definition f_mul (x y : f64) : f64 := SFmul f_prec f_emax x y.
Definition f_div (x y : f64) : f64 := SFdiv f_prec f_emax x y.

(** [x < y], [x <= y], [x == y]; false when one is a NaN. *)
Definition f_ltb (x y : f64) : bool := SFltb x y.
Definition f_leb (x y : f64) : bool := SFleb x y.
Definition f_eqb (x y : f64) : bool := SFeqb x y.

(** A decimal constant [n / 10^k]. *)
Definition f_const (n k : Z) : f64 := f_div (f_of_Z n) (f_of_Z (10 ^ k)).

Definition f_zero : f64 := f_of_Z 0.
Definition f_one : f64 := f_of_Z 1.

(** [math.Max] *)
Definition f_max (x y : f64) : f64 :=
  match x, y with
  | S754_infinity false, _ | _, S754_infinity false => S754_infinity false
  | S754_nan, _ | _, S754_nan => S754_nan
  | S754_zero sx, S754_zero _ => if sx then y else x
  | _, _ => if f_ltb y x then x else y
  end.

(** [math.Min] *)
Definition f_min (x y : f64) : f64 :=
  match x, y with
  | S754_infinity true, _ | _, S754_infinity true => S754_infinity true
  | S754_nan, _ | _, S754_nan => S754_nan
  | S754_zero sx, S754_zero _ => if sx then x else y
  | _, _ => if f_ltb x y then x else y
  end.

(** [int(x)] where Go defines it: the fraction is dropped. *)
Definition f_trunc (x : f64) : option Z :=
  match x with
  | S754_zero _ => Some 0
  | S754_finite s m e =>
      let z := if 0 <=? e then Z.pos m * 2 ^ e else Z.pos m / 2 ^ (- e) in
      let z := if s then - z else z in
      if (- 2 ^ 63 <=? z) && (z <? 2 ^ 63) then Some z else None
  | _ => None
  end.

(** ** Time *)

(** [t.Sub(u)]: a duration, which saturates. *)
Definition Sub (t u : Z) : Z := Z.max (- 2 ^ 63) (Z.min (2 ^ 63 - 1) (t - u)).

(** [d.Seconds()] *)
Definition Seconds (d : Z) : f64 := f_add (f_of_Z (Z.quot d 1000000000)) (f_div (f_of_Z (Z.rem d 1000000000)) (f_of_Z 1000000000)).

#[local] Open Scope list_scope.
(** Opaque names. *)
Abbreviation PeerID := (list byte) (only parsing).

(** ** The scorer *)

Record scoreEntry : Type := mkScore { points : f64; s_last : Z }.

Record Scorer : Type := mkScorer {
  scores : gmap PeerID scoreEntry;
  banAt : f64;
  decay : f64;
  maxTracked : Z;
}.

Definition DefaultBanThreshold : Z := 50.
Definition DefaultScoreDecayPerSecond : f64 := f_const 1 1.
Definition scorerMaxTracked : Z := 8192.

Definition newScorer (ban : Z) (d : f64) (limit : Z) : Scorer :=
  let ban := if ban <=? 0 then DefaultBanThreshold else ban in
  let limit := if limit <? 1 then scorerMaxTracked else limit in
  mkScorer ∅ (f_of_Z ban) d limit.

Definition NewScorer (ban : Z) : Scorer := newScorer ban DefaultScoreDecayPerSecond scorerMaxTracked.

Definition with_scores (m : gmap PeerID scoreEntry) (s : Scorer) : Scorer :=
  mkScorer m (banAt s) (decay s) (maxTracked s).

(** What is left of [e]'s points after [elapsed] seconds. *)
Definition decayed (s : Scorer) (e : scoreEntry) (elapsed : f64) : f64 :=
  f_max f_zero (f_sub (points e) (f_mul elapsed (decay s))).

Definition current (s : Scorer) (p : PeerID) (now : Z) : Scorer * f64 :=
  match scores s !! p with
  | None => (s, f_zero)
  | Some e =>
      let elapsed := Seconds (Sub now (s_last e)) in
      let e := if f_ltb f_zero elapsed then mkScore (decayed s e elapsed) now else e in
      if f_eqb (points e) f_zero then (with_scores (delete p (scores s)) s, f_zero)
      else (with_scores (<[p := e]> (scores s)) s, points e)
  end.

(** The walk of [evict]: the entries decayed to nothing are deleted; of the others the one seen
    longest ago is remembered, the empty name standing for none. *)
Fixpoint evictWalk (s : Scorer) (now : Z) (order : list PeerID) (m : gmap PeerID scoreEntry) (oldestID : PeerID) (oldest : Z)
    : gmap PeerID scoreEntry * PeerID :=
  match order with
  | [] => (m, oldestID)
  | id :: order =>
      match m !! id with
      | None => evictWalk s now order m oldestID oldest
      | Some e =>
          if f_eqb (decayed s e (Seconds (Sub now (s_last e)))) f_zero then evictWalk s now order (delete id m) oldestID oldest
          else if bool_decide (oldestID = []) || (s_last e <? oldest) then evictWalk s now order m id (s_last e)
          else evictWalk s now order m oldestID oldest
      end
  end.

Definition evict (s : Scorer) (now : Z) (order : list PeerID) : Scorer :=
  let (m, oldestID) := evictWalk s now order (scores s) [] 0 in
  if (maxTracked s <=? Z.of_nat (size m)) && negb (bool_decide (oldestID = [])) then with_scores (delete oldestID m) s
  else with_scores m s.

(** [walk] gives the order of the walk over the map, should one be made. *)
Definition Penalize (s : Scorer) (p : PeerID) (n now : Z) (walk : gmap PeerID scoreEntry -> list PeerID) : Scorer * bool :=
  let (s, cur) := current s p now in
  let s := match scores s !! p with
           | Some _ => s
           | None => if maxTracked s <=? Z.of_nat (size (scores s)) then evict s now (walk (scores s)) else s
           end in
  let e := mkScore (f_add cur (f_of_Z n)) now in
  (with_scores (<[p := e]> (scores s)) s, f_leb (banAt s) (points e)).

Definition Banned (s : Scorer) (p : PeerID) (now : Z) : Scorer * bool :=
  let (s, cur) := current s p now in (s, f_leb (banAt s) cur).

(** [None]: the conversion of a float outside the range of int. *)
Definition Penalty (s : Scorer) (p : PeerID) (now : Z) : Scorer * option Z :=
  let (s, cur) := current s p now in (s, f_trunc cur).

(** ** The rate limiter *)

Record tokenBucket : Type := mkBucket { tokens : f64; b_last : Z }.

Record txRateLimiter : Type := mkLimiter {
  buckets : gmap PeerID tokenBucket;
  rate : f64;
  burst : f64;
  maxPeers : Z;
}.

Definition newTxRateLimiter (r b : f64) : txRateLimiter :=
  let r := if f_leb r f_zero then f_of_Z 200 else r in
  let b := if f_leb b f_zero then f_mul (f_of_Z 2) r else b in
  mkLimiter ∅ r b 8192.

(** The bucket seen longest ago, the first of them on the walk; the empty name when there is none. *)
Fixpoint oldestBucket (order : list PeerID) (m : gmap PeerID tokenBucket) (best : option (PeerID * Z)) : PeerID :=
  match order with
  | [] => match best with Some (id, _) => id | None => [] end
  | id :: order =>
      match m !! id with
      | None => oldestBucket order m best
      | Some bk =>
          match best with
          | Some (_, at_) => oldestBucket order m (if b_last bk <? at_ then Some (id, b_last bk) else best)
          | None => oldestBucket order m (Some (id, b_last bk))
          end
      end
  end.

Definition with_buckets (m : gmap PeerID tokenBucket) (r : txRateLimiter) : txRateLimiter :=
  mkLimiter m (rate r) (burst r) (maxPeers r).

(** Refill for the time since the last message, then take a token. *)
Definition takeToken (r : txRateLimiter) (b : tokenBucket) (now : Z) : tokenBucket * bool :=
  let elapsed := Seconds (Sub now (b_last b)) in
  let b := if f_ltb f_zero elapsed then
             let t := f_add (tokens b) (f_mul elapsed (rate r)) in
             mkBucket (if f_ltb (burst r) t then burst r else t) now
           else b in
  if f_leb f_one (tokens b) then (mkBucket (f_sub (tokens b) f_one) (b_last b), true) else (b, false).

Definition allow (r : txRateLimiter) (p : PeerID) (now : Z) (walk : gmap PeerID tokenBucket -> list PeerID) : txRateLimiter * bool :=
  let (m, b) :=
    match buckets r !! p with
    | Some b => (buckets r, b)
    | None =>
        let m := if (0 <? maxPeers r) && (maxPeers r <=? Z.of_nat (size (buckets r)))
                 then delete (oldestBucket (walk (buckets r)) (buckets r) None) (buckets r) else buckets r in
        (m, mkBucket (burst r) now)
    end in
  let (b, ok) := takeToken r b now in
  (with_buckets (<[p := b]> m) r, ok).

Definition forget (r : txRateLimiter) (p : PeerID) : txRateLimiter := with_buckets (delete p (buckets r)) r.

(** ** Bounds *)

(** A walk over a map visits each of its keys once. *)
Definition walks {A} (walk : gmap PeerID A -> list PeerID) : Prop := forall m, walk m ≡ₚ (map_to_list m).*1.

(** The map within its bound, and no nameless peer in it. *)
Record scorer_ok (s : Scorer) : Prop := {
  so_limit : 1 <= maxTracked s;
  so_size : Z.of_nat (size (scores s)) <= maxTracked s;
  so_named : scores s !! [] = None;
}.

Lemma current_other s p now q : q <> p -> scores (current s p now).1 !! q = scores s !! q.
Proof.
  intros Hq. unfold current. destruct (scores s !! p) as [e|]; [|done].
  destruct (f_eqb _ _); cbn; by rewrite ?lookup_delete_ne, ?lookup_insert_ne.
Qed.

Lemma current_config s p now : banAt (current s p now).1 = banAt s /\ decay (current s p now).1 = decay s /\ maxTracked (current s p now).1 = maxTracked s.
Proof. unfold current. destruct (scores s !! p) as [e|]; [|done]. by destruct (f_eqb _ _). Qed.

Lemma current_size s p now : (size (scores (current s p now).1) <= size (scores s))%nat.
Proof.
  unfold current. destruct (scores s !! p) as [e|] eqn:E; [|done]. destruct (f_eqb _ _); cbn.
  - rewrite map_size_delete, E. cbn. lia.
  - rewrite map_size_insert, E. cbn. lia.
Qed.

Lemma current_ok s p now : p <> [] -> scorer_ok s -> scorer_ok (current s p now).1.
Proof.
  intros Hp [H1 H2 H3]. pose proof (current_size s p now). destruct (current_config s p now) as (_ & _ & Em).
  split; rewrite ?Em; [done|lia|]. rewrite current_other; [done|congruence].
Qed.

(** The walk only deletes, and remembers an entry that is still there whenever there is one it met. *)
Lemma evictWalk_sub s now order m id t : (evictWalk s now order m id t).1 ⊆ m.
Proof.
  revert m id t. induction order as [|x order IH]; intros m id t; cbn [evictWalk]; [done|].
  destruct (m !! x) as [e|]; [|apply IH]. destruct (f_eqb _ _).
  - etransitivity; [apply IH|apply delete_subseteq].
  - by destruct (_ || _); apply IH.
Qed.

Lemma evictWalk_oldest s now order m id t :
  m !! [] = None -> NoDup order -> id ∉ order -> (id = [] \/ is_Some (m !! id)) ->
  let r := evictWalk s now order m id t in
  r.2 = [] /\ id = [] /\ (forall x, x ∈ order -> r.1 !! x = None) \/ r.2 <> [] /\ is_Some (r.1 !! r.2).
Proof.
  revert m id t. induction order as [|x order IH]; intros m id t Hm Hnd Hid Hin; cbn [evictWalk].
  - destruct Hin as [->|Hin]; [left; split_and!; [done..|]; by intros x Hx%elem_of_nil|].
    right. split; [|done]. intros E. cbn in E. rewrite E, Hm in Hin. by destruct Hin.
  - apply NoDup_cons in Hnd as [Hx Hnd]. apply not_elem_of_cons in Hid as [Hne Hid].
    destruct (m !! x) as [e|] eqn:Ex.
    2:{ destruct (IH m id t Hm Hnd Hid Hin) as [(E & -> & Hall)|Hr]; [left|by right]. split_and!; [done..|].
        intros y [->|Hy]%elem_of_cons; [|by apply Hall]. eapply lookup_weaken_None; [exact Ex|apply evictWalk_sub]. }
    assert (x <> []) as Hxn by (intros ->; rewrite Hm in Ex; discriminate). destruct (f_eqb _ _).
    + destruct (IH (delete x m) id t) as [(E & -> & Hall)|Hr]; [|done|done|..|by right].
      * by rewrite lookup_delete_ne.
      * destruct Hin as [->|Hin]; [by left|right]. by rewrite lookup_delete_ne.
      * left. split_and!; [done..|]. intros y [->|Hy]%elem_of_cons; [|by apply Hall].
        eapply lookup_weaken_None; [|apply evictWalk_sub]. apply lookup_delete_eq.
    + destruct (_ || _) eqn:Eb.
      * destruct (IH m x (s_last e)) as [(_ & -> & _)|Hr]; [done|done|done|by right; rewrite Ex|done|by right].
      * destruct (IH m id t Hm Hnd Hid Hin) as [(E & -> & _)|Hr]; [|by right]. cbn in Eb. done.
Qed.

(** A full map has room after [evict]. *)
Lemma evict_room s now order :
  order ≡ₚ (map_to_list (scores s)).*1 -> scorer_ok s -> scores (evict s now order) ⊆ scores s
    /\ Z.of_nat (size (scores (evict s now order))) < maxTracked s.
Proof.
  intros Ho [H1 H2 H3]. unfold evict. pose proof (evictWalk_sub s now order (scores s) [] 0) as Hsub.
  pose proof (evictWalk_oldest s now order (scores s) [] 0 H3) as Hold. destruct (evictWalk s now order (scores s) [] 0) as [m id]. cbn in *.
  assert (NoDup order) as Hnd by (rewrite Ho; apply NoDup_fst_map_to_list).
  assert ([] ∉ order) as Hn.
  { rewrite Ho. intros ([k e] & E & Hin)%list_elem_of_fmap. cbn in E. subst k. apply elem_of_map_to_list in Hin. congruence. }
  specialize (Hold Hnd Hn (or_introl eq_refl)). pose proof (map_subseteq_size _ _ Hsub) as Hsz.
  destruct Hold as [(-> & _ & Hall)|[Hne [e He]]].
  - rewrite bool_decide_eq_true_2, andb_false_r by done. cbn. split; [done|].
    assert (m = ∅) as ->; [|rewrite map_size_empty; cbn; lia]. apply map_empty. intros k.
    destruct (m !! k) as [e|] eqn:E; [|done]. rewrite <- E. apply Hall. rewrite Ho. apply list_elem_of_fmap. exists (k, e).
    split; [done|]. apply elem_of_map_to_list. eapply lookup_weaken; eauto.
  - rewrite bool_decide_eq_false_2, andb_true_r by done. destruct (Z.leb_spec (maxTracked s) (Z.of_nat (size m))); cbn; [|by split; [|lia]].
    split; [etransitivity; [apply delete_subseteq|done]|]. rewrite map_size_delete, He. cbn.
    assert (0 < size m)%nat; [|lia]. rewrite <- (insert_id m id e He), map_size_insert, He. cbn.
    destruct (size m) eqn:E0; [|lia]. apply map_size_empty_inv in E0. by rewrite E0 in He.
Qed.

Lemma Penalize_ok s p n now walk : walks walk -> p <> [] -> scorer_ok s -> scorer_ok (Penalize s p n now walk).1.
Proof.
  intros Hw Hp Hs. unfold Penalize. pose proof (current_ok s p now Hp Hs) as Hc. destruct (current s p now) as [c cur]. cbn in *.
  destruct (scores c !! p) as [e|] eqn:E.
  - destruct Hc as [H1 H2 H3]. split; cbn; [done| |by rewrite lookup_insert_ne]. by rewrite map_size_insert, E.
  - assert (exists m, scores (if maxTracked c <=? Z.of_nat (size (scores c)) then evict c now (walk (scores c)) else c) = m
      /\ m ⊆ scores c /\ Z.of_nat (size m) < maxTracked c) as (m & -> & Hsub & Hroom).
    { destruct (Z.leb_spec (maxTracked c) (Z.of_nat (size (scores c)))); [|by eauto].
      destruct (evict_room c now (walk (scores c)) (Hw _) Hc). eauto. }
    destruct Hc as [H1 H2 H3].
    assert (maxTracked (if maxTracked c <=? Z.of_nat (size (scores c)) then evict c now (walk (scores c)) else c) = maxTracked c) as Em.
    { destruct (_ <=? _); [|done]. unfold evict. destruct (evictWalk _ _ _ _ _ _). by destruct (_ && _). }
    split; cbn; rewrite ?Em; [done| |].
    + rewrite map_size_insert. destruct (m !! p); cbn; lia.
    + rewrite lookup_insert_ne by done. by eapply lookup_weaken_None.
Qed.

(** Another peer's entry is left alone, except that a full map may lose one to make room. *)
Lemma Penalize_other s p n now walk q :
  walks walk -> scorer_ok s -> p <> [] -> q <> p ->
  let m := scores (Penalize s p n now walk).1 in
  m !! q = scores s !! q \/ m !! q = None /\ Z.of_nat (size (scores s)) = maxTracked s.
Proof.
  intros Hw Hs Hp Hq. unfold Penalize. pose proof (current_other s p now q Hq) as Eq. pose proof (current_ok s p now Hp Hs) as Hc.
  pose proof (current_size s p now) as Hsz. destruct (current_config s p now) as (_ & _ & Em).
  destruct (current s p now) as [c cur]. cbn in *.
  rewrite lookup_insert_ne by done. destruct (scores c !! p) as [e|] eqn:E; [by left|].
  destruct (Z.leb_spec (maxTracked c) (Z.of_nat (size (scores c)))) as [Hfull|]; [|by left].
  destruct (evict_room c now (walk (scores c)) (Hw _) Hc) as [Hsub _]. destruct Hs as [_ Hle _].
  destruct (scores (evict c now (walk (scores c))) !! q) as [x|] eqn:Ex; [left|right; split; [done|lia]].
  rewrite <- Eq. symmetry. by eapply lookup_weaken.
Qed.

(** ** What a run of offences at one instant does *)

Lemma Sub_self t : Sub t t = 0.
Proof. unfold Sub. rewrite Z.sub_diag. done. Qed.

Lemma Sub_after t d : - 2 ^ 63 <= d < 2 ^ 63 -> Sub (t + d) t = d.
Proof. intros Hd. unfold Sub. replace (t + d - t) with d by lia. lia. Qed.

(** Whole numbers of this size are exact. *)
Definition exactUpTo : nat := 1000.

Definition exactAt (n : nat) : bool :=
  bool_decide (f_add (f_of_Z (Z.of_nat n)) (f_of_Z 1) = f_of_Z (Z.of_nat (S n)))
  && bool_decide (f_sub (f_of_Z (Z.of_nat (S n))) f_one = f_of_Z (Z.of_nat n))
  && negb (f_eqb (f_of_Z (Z.of_nat (S n))) f_zero) && f_leb f_one (f_of_Z (Z.of_nat (S n))).

Lemma exact_small n : (n < exactUpTo)%nat -> exactAt n = true.
Proof.
  assert (forallb exactAt (seq 0 exactUpTo) = true) as Hall by (vm_compute; reflexivity).
  rewrite forallb_forall in Hall. intros Hn. apply Hall, in_seq. lia.
Qed.

Lemma exact_parts n : (n < exactUpTo)%nat ->
  f_add (f_of_Z (Z.of_nat n)) (f_of_Z 1) = f_of_Z (Z.of_nat (S n)) /\ f_sub (f_of_Z (Z.of_nat (S n))) f_one = f_of_Z (Z.of_nat n)
  /\ f_eqb (f_of_Z (Z.of_nat (S n))) f_zero = false /\ f_leb f_one (f_of_Z (Z.of_nat (S n))) = true.
Proof.
  intros Hn. pose proof (exact_small n Hn) as E. unfold exactAt in E. rewrite !andb_true_iff, !bool_decide_eq_true, negb_true_iff in E.
  tauto.
Qed.

(** [n] offences of one point each, all at [t]. *)
Fixpoint offend (n : nat) (s : Scorer) (p : PeerID) (t : Z) (walk : gmap PeerID scoreEntry -> list PeerID) : Scorer :=
  match n with
  | O => s
  | S n => (Penalize (offend n s p t walk) p 1 t walk).1
  end.

Lemma current_now s p t e :
  scores s !! p = Some e -> s_last e = t -> f_eqb (points e) f_zero = false -> current s p t = (with_scores (<[p := e]> (scores s)) s, points e).
Proof. intros E Et Ez. unfold current. rewrite E, Et, Sub_self. change (f_ltb f_zero (Seconds 0)) with false. cbv iota. by rewrite Ez. Qed.

Lemma offend_points n s p t walk :
  scores s !! p = None -> Z.of_nat (size (scores s)) < maxTracked s -> (S n <= exactUpTo)%nat ->
  scores (offend (S n) s p t walk) !! p = Some (mkScore (f_of_Z (Z.of_nat (S n))) t)
  /\ banAt (offend (S n) s p t walk) = banAt s /\ decay (offend (S n) s p t walk) = decay s.
Proof.
  intros Hp Hroom. induction n as [|n IH]; intros Hn.
  - cbn [offend]. unfold Penalize, current. rewrite Hp. cbn [fst scores]. rewrite Hp. destruct (Z.leb_spec (maxTracked s) (Z.of_nat (size (scores s)))); [lia|].
    cbn. by rewrite lookup_insert_eq.
  - destruct IH as (E & Eb & Ed); [lia|]. destruct (exact_parts n) as (_ & _ & Ez & _); [lia|]. destruct (exact_parts (S n)) as (Ea & _); [lia|].
    remember (S n) as k. cbn [offend]. unfold Penalize. rewrite (current_now _ p t _ E eq_refl Ez). cbn [fst snd scores points].
    cbn [with_scores scores]. rewrite lookup_insert_eq. cbn [fst with_scores scores banAt decay]. rewrite lookup_insert_eq, Ea. done.
Qed.

(** [n] messages at [t]: how many pass. *)
Fixpoint flood (n : nat) (r : txRateLimiter) (p : PeerID) (t : Z) (walk : gmap PeerID tokenBucket -> list PeerID) : txRateLimiter * nat :=
  match n with
  | O => (r, O)
  | S n => let (r, k) := flood n r p t walk in
           let (r, ok) := allow r p t walk in
           (r, if ok then S k else k)
  end.

Lemma takeToken_now r b t n :
  b_last b = t -> tokens b = f_of_Z (Z.of_nat n) -> (n <= exactUpTo)%nat ->
  takeToken r b t = (mkBucket (f_of_Z (Z.of_nat (pred n))) t, bool_decide (0 < n)%nat).
Proof.
  intros Et Eb Hn. unfold takeToken. rewrite Et, Sub_self. change (f_ltb f_zero (Seconds 0)) with false. cbv iota. rewrite Eb.
  destruct n as [|n]; [by destruct b as [bt bl]; cbn in *; subst|].
  destruct (exact_parts n) as (_ & Es & _ & El); [lia|]. rewrite El, Es, Et. done.
Qed.

Lemma flood_count n r p t walk B :
  buckets r !! p = None -> burst r = f_of_Z (Z.of_nat B) -> (B <= exactUpTo)%nat ->
  let (r', k) := flood n r p t walk in
  k = Nat.min n B /\ burst r' = burst r /\ (n = O /\ r' = r \/ buckets r' !! p = Some (mkBucket (f_of_Z (Z.of_nat (B - n))) t)).
Proof.
  intros Hp Hb HB. induction n as [|n IH]; cbn [flood]; [by auto|].
  destruct (flood n r p t walk) as [r1 k]. destruct IH as (-> & Eb & Hl). unfold allow.
  assert (exists m, match buckets r1 !! p with
    | Some b => (buckets r1, b)
    | None => (if (0 <? maxPeers r1) && (maxPeers r1 <=? Z.of_nat (size (buckets r1)))
               then delete (oldestBucket (walk (buckets r1)) (buckets r1) None) (buckets r1) else buckets r1, mkBucket (burst r1) t)
    end = (m, mkBucket (f_of_Z (Z.of_nat (B - n))) t)) as [m ->].
  { destruct Hl as [[-> ->]| ->]; [|by eauto]. rewrite Hp, Hb, Nat.sub_0_r. by eauto. }
  rewrite (takeToken_now r1 (mkBucket (f_of_Z (Z.of_nat (B - n))) t) t (B - n) eq_refl eq_refl) by lia. split_and!; [|done|].
  - destruct (bool_decide_reflect (0 < B - n)%nat); lia.
  - right. cbn. rewrite lookup_insert_eq. do 3 f_equal. lia.
Qed.

(** ** Properties *)

(** The calls on a scorer. *)
Inductive scorerCall : Type :=
  | C_Penalize (p : PeerID) (n now : Z) (walk : gmap PeerID scoreEntry -> list PeerID)
  | C_Banned (p : PeerID) (now : Z)
  | C_Penalty (p : PeerID) (now : Z).

Definition callPeer (c : scorerCall) : PeerID :=
  match c with C_Penalize p _ _ _ | C_Banned p _ | C_Penalty p _ => p end.

Definition call_ok (c : scorerCall) : Prop :=
  callPeer c <> [] /\ match c with C_Penalize _ _ _ walk => walks walk | _ => True end.

Definition scorerStep (s : Scorer) (c : scorerCall) : Scorer :=
  match c with
  | C_Penalize p n now walk => (Penalize s p n now walk).1
  | C_Banned p now => (Banned s p now).1
  | C_Penalty p now => (Penalty s p now).1
  end.

Lemma scorerStep_ok s c : call_ok c -> scorer_ok s -> scorer_ok (scorerStep s c).
Proof.
  intros [Hp Hc] Hs. destruct c as [p n now walk|p now|p now]; cbn in *; [by apply Penalize_ok|..];
    unfold Banned, Penalty; pose proof (current_ok s p now Hp Hs); by destruct (current s p now).
Qed.

Lemma scorerStep_other s c q :
  call_ok c -> scorer_ok s -> q <> callPeer c -> Z.of_nat (size (scores s)) < maxTracked s -> scores (scorerStep s c) !! q = scores s !! q.
Proof.
  intros [Hp Hc] Hs Hq Hroom. destruct c as [p n now walk|p now|p now]; cbn in *.
  - destruct (Penalize_other s p n now walk q Hc Hs Hp Hq) as [E|[_ E]]; [done|lia].
  - unfold Banned. pose proof (current_other s p now q Hq). by destruct (current s p now).
  - unfold Penalty. pose proof (current_other s p now q Hq). by destruct (current s p now).
Qed.

Lemma scorerStep_limit s c : maxTracked (scorerStep s c) = maxTracked s.
Proof.
  destruct c as [p n now walk|p now|p now]; cbn; unfold Penalize, Banned, Penalty; destruct (current_config s p now) as (_ & _ & E);
    destruct (current s p now) as [c cur]; cbn in *; [|done..].
  destruct (scores c !! p); [done|]. destruct (_ <=? _); [|done]. unfold evict. destruct (evictWalk _ _ _ _ _ _). by destruct (_ && _).
Qed.

Lemma scorer_ok_new ban : scorer_ok (NewScorer ban).
Proof. by split. Qed.

Lemma scorer_run_ok ban l : Forall call_ok l -> scorer_ok (fold_left scorerStep l (NewScorer ban)).
Proof.
  assert (forall s, scorer_ok s -> Forall call_ok l -> scorer_ok (fold_left scorerStep l s)) as H; [|by apply H, scorer_ok_new].
  induction l as [|c l IH]; intros s Hs Hl; [done|]. apply Forall_cons in Hl as [Hc Hl]. cbn. apply IH; [by apply scorerStep_ok|done].
Qed.

(** However many identities a peer rotates through, the scorer tracks at most 8192 of them: the bound
    holds after any calls, in any order, at any times.  Below the bound, a call about one peer changes
    no other peer's entry. *)
Theorem scorer_bounded ban l c q :
  Forall call_ok l -> call_ok c -> q <> callPeer c ->
  let s := fold_left scorerStep l (NewScorer ban) in
  Z.of_nat (size (scores s)) <= scorerMaxTracked
  /\ (Z.of_nat (size (scores s)) < scorerMaxTracked -> scores (scorerStep s c) !! q = scores s !! q).
Proof.
  intros Hl Hc Hq. pose proof (scorer_run_ok ban l Hl) as Hs.
  assert (maxTracked (fold_left scorerStep l (NewScorer ban)) = scorerMaxTracked) as Em.
  { clear Hl Hs. induction l as [|x l IH] using rev_ind; [done|]. rewrite fold_left_app. cbn. rewrite <- IH. apply scorerStep_limit. }
  cbn zeta. rewrite <- Em. split; [apply Hs|]. by apply scorerStep_other.
Qed.

Definition second : Z := 1000000000.

(** The tally of a peer with [n] points at [t], looked at [d] later. *)
Lemma current_later s p t n d :
  scores s !! p = Some (mkScore n t) -> - 2 ^ 63 <= d < 2 ^ 63 -> f_ltb f_zero (Seconds d) = true ->
  (current s p (t + d)).2 = (let x := f_max f_zero (f_sub n (f_mul (Seconds d) (decay s))) in if f_eqb x f_zero then f_zero else x).
Proof. intros E Hd Hpos. unfold current. rewrite E. cbn [s_last]. rewrite Sub_after, Hpos by done. unfold decayed. cbn [points]. by destruct (f_eqb _ _). Qed.

(** A ban lasts as long as the tally is at the threshold, and no longer.  Fifty offences at one instant
    ban a peer that had none, and forty-nine do not; but the tally decays from the first nanosecond, so one
    nanosecond later the peer is no longer banned.  What takes five hundred seconds is for the tally to reach
    zero: a point is left after 490 seconds. *)
Theorem ban_lapses s p t walk :
  scores s !! p = None -> Z.of_nat (size (scores s)) < maxTracked s ->
  banAt s = f_of_Z DefaultBanThreshold -> decay s = DefaultScoreDecayPerSecond ->
  (Banned (offend 49 s p t walk) p t).2 = false
  /\ (Banned (offend 50 s p t walk) p t).2 = true
  /\ (Banned (offend 50 s p t walk) p (t + 1)).2 = false
  /\ (Penalty (offend 50 s p t walk) p (t + 490 * second)).2 = Some 1
  /\ (Penalty (offend 50 s p t walk) p (t + 500 * second)).2 = Some 0.
Proof.
  intros Hp Hroom Hb Hd. destruct (offend_points 48 s p t walk Hp Hroom) as (E49 & B49 & _); [unfold exactUpTo; lia|].
  destruct (offend_points 49 s p t walk Hp Hroom) as (E50 & B50 & D50); [unfold exactUpTo; lia|].
  generalize dependent (offend 49 s p t walk). intros s49 E49 B49. generalize dependent (offend 50 s p t walk). intros s50 E50 B50 D50.
  unfold Banned, Penalty. split_and!.
  - rewrite (current_now _ p t _ E49 eq_refl eq_refl). cbn [snd banAt with_scores]. rewrite B49, Hb. reflexivity.
  - rewrite (current_now _ p t _ E50 eq_refl eq_refl). cbn [snd banAt with_scores]. rewrite B50, Hb. reflexivity.
  - pose proof (current_later s50 p t _ 1 E50 ltac:(lia) eq_refl) as El. destruct (current_config s50 p (t + 1)) as (Eb & _).
    destruct (current s50 p (t + 1)) as [c cur]. cbn [fst snd] in *. rewrite Eb, B50, Hb, El, D50, Hd. vm_compute. reflexivity.
  - pose proof (current_later s50 p t _ (490 * second) E50 ltac:(unfold second; lia) eq_refl) as El.
    destruct (current s50 p (t + 490 * second)) as [c cur]. cbn [fst snd] in *. rewrite El, D50, Hd. vm_compute. reflexivity.
  - pose proof (current_later s50 p t _ (500 * second) E50 ltac:(unfold second; lia) eq_refl) as El.
    destruct (current s50 p (t + 500 * second)) as [c cur]. cbn [fst snd] in *. rewrite El, D50, Hd. vm_compute. reflexivity.
Qed.

Lemma ban_lapses_witness :
  (Banned (offend 50 (NewScorer 0) [x61] 7 (fun m => (map_to_list m).*1)) [x61] 8).2 = false.
Proof. apply (ban_lapses (NewScorer 0) [x61] 7 (fun m => (map_to_list m).*1)); reflexivity. Defined.

(** A flood from one peer is cut at the bucket's capacity: of [n] messages at one instant from a peer the
    limiter does not know, exactly [min n B] pass, whatever the other peers did.  The transaction limiter's
    [B] is 400 and the sync server's 40. *)
Theorem flood_capped n r p t walk B :
  buckets r !! p = None -> burst r = f_of_Z (Z.of_nat B) -> (B <= exactUpTo)%nat ->
  snd (flood n r p t walk) = Nat.min n B
  /\ burst (newTxRateLimiter f_zero f_zero) = f_of_Z 400 /\ burst (newTxRateLimiter (f_of_Z 20) (f_of_Z 40)) = f_of_Z 40.
Proof.
  intros Hp Hb HB. pose proof (flood_count n r p t walk B Hp Hb HB) as H. destruct (flood n r p t walk) as [r' k].
  split_and!; [apply H|reflexivity..].
Qed.

Lemma flood_capped_witness : snd (flood 5 (newTxRateLimiter (f_of_Z 20) (f_of_Z 3)) [x61] 0 (fun m => (map_to_list m).*1)) = 3%nat.
Proof.
  apply (flood_capped 5 (newTxRateLimiter (f_of_Z 20) (f_of_Z 3)) [x61] 0 (fun m => (map_to_list m).*1) 3); [reflexivity..|].
  unfold exactUpTo. lia.
Defined.
