(* ===== verification/P2p.v ===== *)
(** * The node its protocols share (p2p/network.go, p2p/firewall.go)

    Block gossip, transaction gossip and sync run over one chain, one mempool
    and one scorer.  A handler is an action on the node: it keeps its own
    state to itself and shares the rest with the other goroutines, which may
    run whenever it holds no lock.  [meanwhile] is what they do then; it is
    applied before every access to the shared part.  The clock's readings, the
    orders of map walks, the transport's answers and the journal's health are
    the environment's too, indexed by the number of accesses so far. *)
From stdpp Require Import base numbers list gmap.
From Stdlib Require Import ZArith Lia Strings.Byte.
From S2P Require Import Prelude Common Types VmBase Precompiles Vm State Transition Json JsonCodec Store Schema Mempool.
From S2P Require Import Blockchain Scorer.
#[local] Open Scope Z_scope.
#[local] Open Scope list_scope.
#[local] Open Scope go_scope.

(** ** The shared part *)

Record Shared (D : Type) : Type := mkShared {
  chain : Blockchain D;
  scorer : option Scorer;       (* nil: no scoring *)
  pool : Mempool;
}.
Arguments mkShared {_} _ _ _.
Arguments chain {_} _.
Arguments scorer {_} _.
Arguments pool {_} _.

Record Env (D : Type) : Type := mkEnv {
  clock : nat -> Z;                                           (* nanoseconds *)
  meanwhile : nat -> Shared D -> Shared D;
  walkScores : nat -> gmap PeerID scoreEntry -> list PeerID;
  walkBuckets : nat -> gmap PeerID tokenBucket -> list PeerID;
  poolOrders : nat -> nat -> nat -> mapOrder;
  journalOK : nat -> bool;
  publish : nat -> list byte -> res unit;                     (* Network.Publish *)
  request : nat -> PeerID -> list byte -> res (list byte);    (* Network.Request *)
}.
Arguments mkEnv {_} _ _ _ _ _ _ _ _.
Arguments clock {_} _ _.
Arguments meanwhile {_} _ _ _.
Arguments walkScores {_} _ _ _.
Arguments walkBuckets {_} _ _ _.
Arguments poolOrders {_} _ _ _ _.
Arguments journalOK {_} _ _.
Arguments publish {_} _ _ _.
Arguments request {_} _ _ _ _.

(** [time.Now().UnixMilli()] *)
Definition UnixMilli {D} (env : Env D) (k : nat) : Z := clock env k / 1000000.

(** What a handler did besides: the gap signals it raised, the blocks accepted, the calls of the reorg
    hook, and the calls of the producer's callback. *)
Inductive event : Type :=
  | E_Gap (from : PeerID)
  | E_Accepted (h : Hash)
  | E_Reorg (r : Reorg) (outcome : res unit)
  | E_Mined (h : Hash).

(** A handler's view: its own state, the shared part, the number of accesses and the events so far. *)
Record Node (D S : Type) : Type := mkNode {
  own : S;
  shared : Shared D;
  tick : nat;
  events : list event;
}.
Arguments mkNode {_ _} _ _ _ _.
Arguments own {_ _} _.
Arguments shared {_ _} _.
Arguments tick {_ _} _.
Arguments events {_ _} _.

(** ** Actions *)

Definition act (D S A : Type) : Type := Node D S -> Node D S * callres error A.

Definition act_ret {D S A} (a : A) : act D S A := fun n => (n, Returns a).
Definition act_fail {D S A} (e : error) : act D S A := fun n => (n, Raises e).
Definition act_panic {D S A} : act D S A := fun n => (n, Panics).
Definition act_fuel {D S A} : act D S A := fun n => (n, OutOfFuel).

Definition act_bind {D S A B} (c : act D S A) (k : A -> act D S B) : act D S B := fun n =>
  match c n with
  | (n, Returns a) => k a n
  | (n, Raises e) => (n, Raises e)
  | (n, Panics) => (n, Panics)
  | (n, OutOfFuel) => (n, OutOfFuel)
  end.

(** The error of a call as a value. *)
Definition attempt {D S A} (c : act D S A) : act D S (error + A) := fun n =>
  match c n with
  | (n, Returns a) => (n, Returns (inr a))
  | (n, Raises e) => (n, Returns (inl e))
  | (n, Panics) => (n, Panics)
  | (n, OutOfFuel) => (n, OutOfFuel)
  end.

Definition act_res {D S A} (r : res A) : act D S A := fun n =>
  (n, match r with Ok a => Returns a | Err e => Raises e | Panic => Panics end).

Definition get_own {D S} : act D S S := fun n => (n, Returns (own n)).

(** Under the handler's own lock. *)
Definition on_own {D S A} (f : S -> S * A) : act D S A := fun n =>
  let (s, a) := f (own n) in (mkNode s (shared n) (tick n) (events n), Returns a).

Definition emit {D S} (e : event) : act D S unit := fun n => (mkNode (own n) (shared n) (tick n) (events n ++ [e]), Returns tt).

Definition on_shared {D S A} (env : Env D) (f : nat -> Shared D -> Shared D * callres error A) : act D S A := fun n =>
  let k := tick n in
  let (s, r) := f k (meanwhile env k (shared n)) in (mkNode (own n) s (1 + k)%nat (events n), r).

(** A reading of the clock, or a call on the transport. *)
Definition ask {D S A} (f : nat -> callres error A) : act D S A := fun n =>
  let k := tick n in (mkNode (own n) (shared n) (1 + k)%nat (events n), f k).

Declare Scope act_scope.
Delimit Scope act_scope with act.
Notation "'let@' x := c 'in' k" := (act_bind c (fun x => k))
  (at level 10, x pattern, c at level 200, k at level 200) : act_scope.
#[local] Open Scope act_scope.

Definition with_chain {D} (bc : Blockchain D) (s : Shared D) : Shared D := mkShared bc (scorer s) (pool s).
Definition with_scorer {D} (sc : option Scorer) (s : Shared D) : Shared D := mkShared (chain s) sc (pool s).
Definition with_pool {D} (p : Mempool) (s : Shared D) : Shared D := mkShared (chain s) (scorer s) p.

Section Calls.
Context `{Crypto} `{Bn256} {D S : Type} `{KV D} (env : Env D).

(** ** Calls on the shared part *)

Definition on_chain {A} (c : nat -> op D A) : act D S A := on_shared env (fun k s =>
  let (bc, r) := c k (chain s) in (with_chain bc s, r)).

(** A reading of the shared part. *)
Definition look {A} (f : Shared D -> res A) : act D S A := on_shared env (fun _ s =>
  (s, match f s with Ok a => Returns a | Err e => Raises e | Panic => Panics end)).

(** [scorer != nil && scorer.Banned(p)] *)
Definition isBanned (p : PeerID) : act D S bool := on_shared env (fun k s =>
  match scorer s with
  | None => (s, Returns false)
  | Some sc => let (sc, b) := Banned sc p (clock env k) in (with_scorer (Some sc) s, Returns b)
  end).

(** [if scorer != nil { scorer.Penalize(p, 1) }], and a line in the log. *)
Definition score (p : PeerID) : act D S unit := on_shared env (fun k s =>
  match scorer s with
  | None => (s, Returns tt)
  | Some sc => let (sc, _) := Penalize sc p 1 (clock env k) (walkScores env k) in (with_scorer (Some sc) s, Returns tt)
  end).

(** [pool.Add(tx, bc.ChainID())] *)
Definition poolAdd (tx : Transaction) : act D S unit := on_shared env (fun k s =>
  let (p, r) := Mempool_Add (pool s) tx (chainID (chain s)) (poolOrders env k 0 0) in
  (with_pool p s, match r with Ok _ => Returns tt | Err e => Raises e | Panic => Panics end)).

(** The reorg hook, which [core.BindMempool] sets; it returns nothing. *)
Definition runHook (r : Reorg) : act D S unit := fun n =>
  let k := tick n in
  let s := meanwhile env k (shared n) in
  let (p, o) := BindMempool (pool s) r (chainID (chain s)) (journalOK env k) (poolOrders env k) in
  (mkNode (own n) (with_pool p s) (1 + k)%nat (events n ++ [E_Reorg r o]),
   match o with Panic => Panics | _ => Returns tt end).

(** [bc.InsertBlock(b)]: the hook runs after the chain's lock is released.  The header's hash is noted
    when the block is accepted. *)
Definition insertBlock (header : Header) (txs : list (option Transaction)) : act D S unit :=
  let@ r := on_chain (fun k => InsertBlock (mkRawBlock (Some header) txs) (UnixMilli env k)) in
  let@ _ := emit (E_Accepted (Header_Hash header)) in
  match r with
  | Some reorg => runHook reorg
  | None => act_ret tt
  end.

(** The firewall around a message handler: a panic becomes an error. *)
Definition safeHandle {A} (h : act D S A) : act D S A := fun n =>
  match h n with (n, Panics) => (n, Raises ErrHandlerPanic) | r => r end.

(** The same around a request handler. *)
Definition safeRequest (h : act D S (list byte)) : act D S (list byte) := safeHandle h.

End Calls.
