(* ===== verification/P2pProofs.v ===== *)
(** * Running handlers on a node

    [runs] is a Hoare triple for actions: from a sound node an action ends in
    a sound node, whatever the other goroutines do in between; it does not run
    out of fuel, and it panics only if the pool does inside the reorg hook. *)
From stdpp Require Import base numbers list gmap.
From Stdlib Require Import ZArith Lia Strings.Byte.
From S2P Require Import Prelude Common Types VmBase Precompiles Vm State Transition Genesis Json JsonCodec JsonWide Store Schema Mempool.
From S2P Require Import Blockchain ChainInv ChainInsert ChainOpen ChainProps Scorer P2p.
#[local] Open Scope Z_scope.
#[local] Open Scope list_scope.
#[local] Open Scope act_scope.

(** ** What a handler does to its own state *)

(** Whatever the others do and however it ends, the action moves the handler's own state along [R]. *)
Definition moves {D S A} (R : S -> S -> Prop) (c : act D S A) : Prop := forall n, R (own n) (own (fst (c n))).

Section Moves.
Context {D S : Type} (R : S -> S -> Prop) `{!PreOrder R}.

Lemma moves_ret {A} (a : A) : moves R (act_ret (D := D) a).
Proof. intros n. cbn. reflexivity. Qed.

Lemma moves_fail {A} e : moves R (act_fail (D := D) (A := A) e).
Proof. intros n. cbn. reflexivity. Qed.

Lemma moves_panic {A} : moves R (act_panic (D := D) (A := A)).
Proof. intros n. cbn. reflexivity. Qed.

Lemma moves_res {A} (r : res A) : moves R (act_res (D := D) r).
Proof. intros n. cbn. reflexivity. Qed.

Lemma moves_get : moves R (get_own (D := D)).
Proof. intros n. cbn. reflexivity. Qed.

Lemma moves_bind {A B} (c : act D S A) (k : A -> act D S B) : moves R c -> (forall a, moves R (k a)) -> moves R (act_bind c k).
Proof.
  intros Hc Hk n. unfold act_bind. specialize (Hc n). destruct (c n) as [n1 [a|e| |]]; try exact Hc.
  etransitivity; [exact Hc|]. apply Hk.
Qed.

(** The own state as it is read. *)
Lemma moves_get_bind {B} (k : S -> act D S B) : (forall n, R (own n) (own (fst (k (own n) n)))) -> moves R (act_bind get_own k).
Proof. intros Hk n. apply Hk. Qed.

Lemma moves_attempt {A} (c : act D S A) : moves R c -> moves R (attempt c).
Proof. intros Hc n. unfold attempt. specialize (Hc n). by destruct (c n) as [n1 [a|e| |]]. Qed.

Lemma moves_own {A} (f : S -> S * A) : (forall s, R s (f s).1) -> moves R (on_own (D := D) f).
Proof. intros Hf n. unfold on_own. specialize (Hf (own n)). by destruct (f (own n)). Qed.

Lemma moves_emit e : moves R (emit (D := D) e).
Proof. intros n. cbn. reflexivity. Qed.

Lemma moves_shared {A} (env : Env D) (f : nat -> Shared D -> Shared D * callres error A) : moves R (on_shared env f).
Proof. intros n. unfold on_shared. destruct (f _ _). cbn. reflexivity. Qed.

Lemma moves_ask {A} (f : nat -> callres error A) : moves R (ask (D := D) f).
Proof. intros n. cbn. reflexivity. Qed.

End Moves.

Create HintDb moves.
#[export] Hint Resolve moves_ret moves_fail moves_panic moves_res moves_get moves_attempt moves_emit moves_shared moves_ask : moves.

Section Runs.
Context `{Crypto} `{Bn256} {D S : Type} `{KVLaws D} (net : network) (env : Env D).

(** The shared part is sound: the chain is one a node can reach, the scorer is within its bound. *)
Record shared_ok (s : Shared D) : Prop := {
  sh_chain : reachable net (chain s);
  sh_scorer : match scorer s with Some sc => scorer_ok sc | None => True end;
}.

(** The other goroutines keep it so, a walk over a map visits its keys, and the clock is in range. *)
Record env_ok : Prop := {
  eo_meanwhile : forall k s, shared_ok s -> shared_ok (meanwhile env k s);
  eo_walks : forall k, walks (walkScores env k);
  eo_clock : forall k, clockRange (UnixMilli env k);
}.

Context (He : env_ok) (Hn : wf_network net) (I : S -> Prop).

Definition sane (n : Node D S) : Prop := I (own n) /\ shared_ok (shared n).

Definition hook_panicked (n : Node D S) : Prop := exists r, last (events n) = Some (E_Reorg r Panic).

(** How many blocks were accepted so far. *)
Definition acceptances (n : Node D S) : nat := length (filter (fun e => match e with E_Accepted _ => true | _ => false end = true) (events n)).

Definition runs {A} (c : act D S A) (Post : A -> Node D S -> Prop) (PostE : error -> Node D S -> Prop) (n : Node D S) : Prop :=
  match c n with
  | (n', Returns a) => sane n' /\ (acceptances n <= acceptances n')%nat /\ Post a n'
  | (n', Raises e) => sane n' /\ (acceptances n <= acceptances n')%nat /\ PostE e n'
  | (n', Panics) => sane n' /\ hook_panicked n'
  | (_, OutOfFuel) => False
  end.

Lemma runs_ret {A} (a : A) (Post : A -> Node D S -> Prop) PostE n : sane n -> Post a n -> runs (act_ret a) Post PostE n.
Proof. done. Qed.

Lemma runs_fail {A} e (Post : A -> Node D S -> Prop) (PostE : error -> Node D S -> Prop) n : sane n -> PostE e n -> runs (act_fail e) Post PostE n.
Proof. done. Qed.

Lemma runs_bind {A B} (c : act D S A) (k : A -> act D S B) Mid Post (PostE : error -> Node D S -> Prop) n :
  runs c Mid PostE n -> (forall a n', sane n' -> Mid a n' -> runs (k a) Post PostE n') -> runs (act_bind c k) Post PostE n.
Proof.
  unfold runs, act_bind. intros Hc Hk. destruct (c n) as [n' [a|e| |]]; [|done..]. destruct Hc as (Hs & Hacc & Hm).
  specialize (Hk a n' Hs Hm). destruct (k a n') as [n'' [b|e| |]]; [..|done|done]; destruct Hk as (Hs' & Hacc' & Hp); (split_and!; [done|lia|done]).
Qed.

(** The same, when the acceptances of the two parts are to be added up. *)
Lemma runs_bind_count {A B} (c : act D S A) (k : A -> act D S B) Mid Post (PostE : error -> Node D S -> Prop) n :
  runs c Mid PostE n -> (forall a n', sane n' -> (acceptances n <= acceptances n')%nat -> Mid a n' -> runs (k a) Post PostE n') ->
  runs (act_bind c k) Post PostE n.
Proof.
  intros Hc Hk. eapply runs_bind.
  - instantiate (1 := fun a n' => (acceptances n <= acceptances n')%nat /\ Mid a n'). unfold runs in *.
    destruct (c n) as [n' [a|e| |]]; [|done..]. destruct Hc as (Hs & Hacc & Hm). done.
  - intros a n' Hs [Hacc Hm]. by apply Hk.
Qed.

Lemma runs_attempt {A} (c : act D S A) (Post : A -> Node D S -> Prop) (PostE PostE' : error -> Node D S -> Prop) n :
  runs c Post PostE n -> runs (attempt c) (fun r n' => match r with inl e => PostE e n' | inr a => Post a n' end) PostE' n.
Proof. unfold runs, attempt. by destruct (c n) as [n' [a|e| |]]. Qed.

Lemma runs_weaken {A} (c : act D S A) (Post Post' : A -> Node D S -> Prop) (PostE PostE' : error -> Node D S -> Prop) n :
  runs c Post PostE n -> (forall a n', Post a n' -> Post' a n') -> (forall e n', PostE e n' -> PostE' e n') -> runs c Post' PostE' n.
Proof. unfold runs. intros Hc Hp Hpe. destruct (c n) as [n' [a|e| |]]; [..|done|done]; (split_and!; [apply Hc|apply Hc|]); [apply Hp|apply Hpe]; apply Hc. Qed.

Lemma runs_own {A} (f : S -> S * A) (Post : A -> Node D S -> Prop) PostE n :
  sane n -> I (f (own n)).1 -> Post (f (own n)).2 (mkNode (f (own n)).1 (shared n) (tick n) (events n)) -> runs (on_own f) Post PostE n.
Proof. intros [_ Hs] Hi Hp. unfold runs, on_own. destruct (f (own n)). done. Qed.

Lemma runs_emit e (Post : unit -> Node D S -> Prop) PostE n :
  sane n -> Post tt (mkNode (own n) (shared n) (tick n) (events n ++ [e])) -> runs (emit e) Post PostE n.
Proof.
  intros Hs Hp. unfold runs, emit. split_and!; [done| |done]. unfold acceptances. cbn [events]. rewrite filter_app, length_app. lia.
Qed.

(** An access to the shared part leaves the handler's own state alone. *)
Lemma runs_shared {A} (f : nat -> Shared D -> Shared D * callres error A) (R : A -> Prop) (E : error -> Prop) n :
  sane n ->
  (forall k s, shared_ok s -> match f k s with
                             | (s', Returns a) => shared_ok s' /\ R a
                             | (s', Raises e) => shared_ok s' /\ E e
                             | _ => False
                             end) ->
  runs (on_shared env f) (fun a n' => own n' = own n /\ R a) (fun e n' => own n' = own n /\ E e) n.
Proof.
  intros [Hi Hs] Hf. unfold runs, on_shared. specialize (Hf (tick n) _ (eo_meanwhile He (tick n) _ Hs)).
  destruct (f (tick n) _) as [s' [a|e| |]]; [..|done|done]; destruct Hf as [Hs' HR]; done.
Qed.

Lemma isBanned_runs p n :
  sane n -> p <> [] -> runs (isBanned env p) (fun _ n' => own n' = own n) (fun _ _ => False) n.
Proof.
  intros Hs Hp. eapply runs_weaken; [apply (runs_shared _ (fun _ => True) (fun _ => False)); [done|]| |].
  - intros k s [Hc Hsc]. destruct (scorer s) as [sc|] eqn:E; [|split; [split; [done|by rewrite E]|done]].
    unfold Banned. pose proof (current_ok sc p (clock env k) Hp Hsc) as Hok. destruct (current sc p (clock env k)). (split; [by split|done]).
  - by intros ? ? [? _].
  - by intros ? ? [_ ?].
Qed.

Lemma score_runs p n :
  sane n -> p <> [] -> runs (score env p) (fun _ n' => own n' = own n) (fun _ _ => False) n.
Proof.
  intros Hs Hp. eapply runs_weaken; [apply (runs_shared _ (fun _ => True) (fun _ => False)); [done|]| |].
  - intros k s [Hc Hsc]. destruct (scorer s) as [sc|] eqn:E; [|split; [split; [done|by rewrite E]|done]].
    pose proof (Penalize_ok sc p 1 (clock env k) (walkScores env k) (eo_walks He k) Hp Hsc) as Hok.
    destruct (Penalize sc p 1 (clock env k) (walkScores env k)). (split; [by split|done]).
  - by intros ? ? [? _].
  - by intros ? ? [_ ?].
Qed.

(** A call on the chain that leads to reachable chains and neither panics nor runs out of fuel. *)
Lemma on_chain_runs {A} (c : nat -> op D A) (R : A -> Prop) (E : error -> Prop) n :
  sane n ->
  (forall k bc, reachable net bc -> match c k bc with
                               | (bc', Returns a) => reachable net bc' /\ R a
                               | (bc', Raises e) => reachable net bc' /\ E e
                               | _ => False
                               end) ->
  runs (on_chain env c) (fun a n' => own n' = own n /\ R a) (fun e n' => own n' = own n /\ E e) n.
Proof.
  intros Hs Hc. apply runs_shared; [done|]. intros k s [Hr Hsc]. specialize (Hc k (chain s) Hr).
  destruct (c k (chain s)) as [bc' [a|e| |]]; [..|done|done]; destruct Hc; (split; [by split|done]).
Qed.

Lemma InsertBlock_total raw now (bc : Blockchain D) :
  reachable net bc -> offered (n_headers net) raw -> clockRange now ->
  match InsertBlock raw now bc with
  | (bc', Returns _) => reachable net bc'
  | (bc', Raises _) => reachable net bc'
  | _ => False
  end.
Proof.
  intros Hr Ho Hnow. destruct (InsertBlock_lemma net Hn bc raw now Hr Ho Hnow) as (ch & _ & Hins).
  destruct (InsertBlock raw now bc) as [bc' [ro|e| |]] eqn:E; try done; by eapply R_insert.
Qed.

(** A block refused for its parent had no nil transaction. *)
Lemma UnknownParent_txs raw now (bc bc' : Blockchain D) :
  InsertBlock raw now bc = (bc', Raises ErrUnknownParent) -> is_Some (allTxs (rb_Txs raw)).
Proof.
  unfold InsertBlock, insert. destruct (rb_Header raw) as [h|]; [|done]. unfold op_bind at 1, op_get at 1.
  destruct (KV_Has _ _); [done|]. unfold op_bind at 1, op_get at 1. destruct (bool_decide _); [done|].
  unfold op_bind at 1, checkBlock. destruct (allTxs (rb_Txs raw)); [by eauto|done].
Qed.

Lemma runHook_runs r n : sane n -> runs (runHook env r) (fun _ n' => own n' = own n) (fun _ _ => False) n.
Proof.
  intros [Hi Hs]. unfold runs, runHook. pose proof (eo_meanwhile He (tick n) _ Hs) as [Hc Hsc].
  destruct (BindMempool _ _ _ _ _) as [p o]. destruct o; (split; [split; [done|by split]|]); try (exists r; cbn; by rewrite last_snoc);
    (split; [|done]); unfold acceptances; cbn [events]; rewrite filter_app, length_app; lia.
Qed.

Lemma insertBlock_runs header txs n :
  sane n -> offered (n_headers net) (mkRawBlock (Some header) txs) ->
  runs (insertBlock env header txs) (fun _ n' => own n' = own n /\ (acceptances n < acceptances n')%nat)
    (fun e n' => own n' = own n /\ (e = ErrUnknownParent -> is_Some (allTxs txs))) n.
Proof.
  intros Hs Ho. unfold insertBlock. eapply runs_bind_count.
  - eapply runs_weaken; [apply (on_chain_runs _ (fun _ => True) (fun e => e = ErrUnknownParent -> is_Some (allTxs txs))); [done|]| |].
    + intros k bc Hr. pose proof (InsertBlock_total (mkRawBlock (Some header) txs) (UnixMilli env k) bc Hr Ho (eo_clock He k)) as Ht.
      destruct (InsertBlock _ _ bc) as [bc' [ro|e| |]] eqn:E; try done. split; [done|]. intros ->.
      by apply (UnknownParent_txs _ _ _ _ E).
    + intros a n' [E _]. exact E.
    + intros e n' HE. exact HE.
  - intros ro n1 Hs1 Hacc E1. eapply runs_bind_count.
    + apply (runs_emit _ (fun _ n' => own n' = own n /\ (acceptances n < acceptances n')%nat)); [done|]. split; [done|].
      unfold acceptances in *. cbn [events]. rewrite filter_app, length_app.
      match goal with |- context [filter ?P [E_Accepted ?h]] => change (filter P [E_Accepted h]) with [E_Accepted h] end. cbn [length]. lia.
    + intros [] n2 Hs2 _ [E2 Hacc2]. destruct ro as [r|]; [|by apply runs_ret].
      pose proof (runHook_runs r n2 Hs2) as Hh. unfold runs in *. destruct (runHook env r n2) as [n3 [[]|e| |]]; [|by destruct Hh as (_ & _ & ?)|done..].
      destruct Hh as (Hs3 & Hacc3 & E3). rewrite E3. split_and!; [done|done|done|lia].
Qed.

End Runs.
