(* ===== verification/Mining.v ===== *)
(** * Mining on the live chain (core/producer.go, node/node.go)

    The producer is a goroutine beside the protocols: it reads the head, the
    head state, the pool and the clock one after the other, builds and seals a
    candidate, and inserts it like any other block.  Its own state holds the
    count of blocks won; [won] counts one more in whatever state the caller
    keeps it. *)
From stdpp Require Import base numbers list gmap.
From Stdlib Require Import ZArith Lia Strings.Byte.
From S2P Require Import Prelude Common Types VmBase Precompiles Vm State Transition Pow Producer Json JsonCodec Store Schema Mempool.
From S2P Require Import Blockchain Scorer P2p.
#[local] Open Scope Z_scope.
#[local] Open Scope list_scope.
#[local] Open Scope act_scope.

Definition IsMiningAborted (e : error) : bool := match e with ErrMiningAborted => true | _ => false end.

Section Mining.
Context `{Crypto} `{Bn256} {D S : Type} `{KV D} (env : Env D) (won : S -> S).

Definition act_call {A} (r : callres error A) : act D S A := fun n => (n, r).

(** [pool.Pending(snapshot, gasLimit)] *)
Definition poolPending (snapshot : State) (gasLimit : Z) : act D S (list Transaction) := on_shared env (fun k s =>
  (s, match Pending (pool s) snapshot gasLimit (poolOrders env k 0 0) with
      | Some (Ok txs) => Returns txs
      | Some (Err e) => Raises e
      | Some Panic => Panics
      | None => OutOfFuel
      end)).

(** Each reading takes its own lock. *)
Definition buildUnsealed (coinbase : Address) : act D S (Block * Z) :=
  let@ parent := look env (fun s => Ok (Head (chain s))) in
  let@ st := look env (fun s => headState (chain s)) in
  let@ txs := poolPending (State_Copy st) (h_GasLimit (b_Header parent)) in
  let@ now := ask (fun k => Returns (UnixMilli env k)) in
  let@ diff := on_chain env (fun _ => RequiredDifficulty (b_Header parent)) in
  let@ sp := look env (fun s => Ok (split (chain s))) in
  act_call (BuildUnsealed sp (b_Header parent) st (fun _ => diff) (fun _ _ => txs) coinbase now).

(** [stop k] is whether the watcher has closed the channel at the [k]-th check. *)
Definition build (coinbase : Address) (fuel : nat) (stop : nat -> bool) : act D S Block :=
  let@ (blk, _) := buildUnsealed coinbase in
  match mine fuel (mkHeaderObj (b_Header blk) None) stop with
  | Some (true, o) => act_ret (mkBlock (ho_header o) (b_Txs blk))
  | Some (false, _) => act_fail ErrMiningAborted
  | None => act_fuel
  end.

(** [pool.Remove(txs)] *)
Definition poolRemove (txs : list Transaction) : act D S unit := on_shared env (fun k s =>
  (with_pool (Mempool_Remove (pool s) txs (journalOK env k)) s, Returns tt)).

Definition Commit (b : Block) : act D S unit :=
  let@ _ := insertBlock env (b_Header b) (map Some (b_Txs b)) in
  let@ _ := on_own (fun s => (won s, tt)) in
  let@ _ := poolRemove (b_Txs b) in
  emit (E_Mined (Block_Hash b)).

Definition Seal (coinbase : Address) (fuel : nat) (stop : nat -> bool) : act D S Block :=
  let@ block := build coinbase fuel stop in
  let@ _ := Commit block in
  act_ret block.

(** One turn of [produce]: the block mined, or none (nothing to mine, an empty candidate, a lost race). *)
Definition produceOnce (emptyBlocks : bool) (coinbase : Address) (fuel : nat) (stop : nat -> bool) : act D S (option Block) :=
  let@ n := look env (fun s => Ok (Mempool_Len (pool s))) in
  if negb emptyBlocks && (n =? 0) then act_ret None
  else
    let@ r := attempt (build coinbase fuel stop) in
    match r with
    | inl _ => act_ret None
    | inr blk =>
        if negb emptyBlocks && (len (b_Txs blk) =? 0) then act_ret None
        else
          let@ r := attempt (Commit blk) in
          match r with
          | inl _ => act_ret None
          | inr _ => act_ret (Some blk)
          end
    end.

End Mining.
