(* ===== verification/Gossip.v ===== *)
(** * Block gossip (p2p/gossip.go)

    A block arrives as bytes from a peer: it is refused, inserted, or parked
    until its parent comes.  Parked blocks sit in a queue bounded in number,
    in bytes and per sender; an accepted block releases those that wait for
    it.  The gossip goroutine owns the queue and the counters; the chain, the
    scorer and the pool are shared. *)
From stdpp Require Import base numbers list gmap.
From Stdlib Require Import ZArith Lia Strings.Byte.
From Stdlib Require Strings.String.
Import Strings.String.StringSyntax.
From S2P Require Import Prelude Common Types VmBase Precompiles Vm State Transition Json JsonCodec Store Schema Mempool.
From S2P Require Import Blockchain Scorer P2p.
#[local] Open Scope Z_scope.
#[local] Open Scope list_scope.
#[local] Open Scope act_scope.

Definition maxBlockMessage : Z := Z.shiftl 8 20.
Definition DefaultMaxOrphans : Z := 256.
Definition DefaultMaxOrphanBytes : Z := Z.shiftl 32 20.

(** The wire format. *)
Definition blockMessageC : codec (option rawBlock) := structC None
  (fun m => [(str "block", enc (ptrC rawBlockC) m)])
  (fun ms cur => field (ptrC rawBlockC) (str "block") ms cur ≫= fun b => Some b).

(** A block whose header is not nil. *)
Record wireBlock : Type := mkWire { w_Header : Header; w_Txs : list (option Transaction) }.

Definition wire_Hash `{Crypto} (b : wireBlock) : Hash := Header_Hash (w_Header b).

Record orphanEntry : Type := mkOrphan { oe_blk : wireBlock; oe_from : PeerID; oe_size : Z }.

(** ** Counters *)

Inductive counter : Type :=
  | Received | FastDuplicate | LateDuplicate | Accepted | Orphaned | Evicted | Rejected | DroppedMsg | Deferred.

Record Stats : Type := mkStats {
  st_Received : Z; st_FastDuplicate : Z; st_LateDuplicate : Z; st_Accepted : Z; st_Orphaned : Z;
  st_Evicted : Z; st_Rejected : Z; st_Dropped : Z; st_Deferred : Z;
}.

Definition bump (c : counter) (s : Stats) : Stats :=
  let at_ c' v := if match c, c' with
                     | Received, Received | FastDuplicate, FastDuplicate | LateDuplicate, LateDuplicate | Accepted, Accepted
                     | Orphaned, Orphaned | Evicted, Evicted | Rejected, Rejected | DroppedMsg, DroppedMsg | Deferred, Deferred => true
                     | _, _ => false
                     end then v + 1 else v in
  mkStats (at_ Received (st_Received s)) (at_ FastDuplicate (st_FastDuplicate s)) (at_ LateDuplicate (st_LateDuplicate s))
    (at_ Accepted (st_Accepted s)) (at_ Orphaned (st_Orphaned s)) (at_ Evicted (st_Evicted s)) (at_ Rejected (st_Rejected s))
    (at_ DroppedMsg (st_Dropped s)) (at_ Deferred (st_Deferred s)).

(** ** The queue *)

Record Gossip : Type := mkGossip {
  maxOrphans : Z;
  maxOrphansPerPeer : Z;
  maxOrphanBytes : Z;
  orphans : gmap Hash (list orphanEntry);
  orphansByPeer : gmap PeerID Z;
  orphanOrder : list Hash;
  orphanCount : Z;
  orphanBytes : Z;
  g_Stats : Stats;
}.

Definition with_queue (os : gmap Hash (list orphanEntry)) (by_ : gmap PeerID Z) (order : list Hash) (count bytes : Z) (g : Gossip) : Gossip :=
  mkGossip (maxOrphans g) (maxOrphansPerPeer g) (maxOrphanBytes g) os by_ order count bytes (g_Stats g).

Definition with_stats (s : Stats) (g : Gossip) : Gossip :=
  mkGossip (maxOrphans g) (maxOrphansPerPeer g) (maxOrphanBytes g) (orphans g) (orphansByPeer g) (orphanOrder g)
    (orphanCount g) (orphanBytes g) s.

(** The options given, 0 for one that is not. *)
Definition newGossip (n perPeer bytes : Z) : Gossip :=
  mkGossip n (if perPeer =? 0 then Z.quot n 4 + 1 else perPeer) (if bytes =? 0 then DefaultMaxOrphanBytes else bytes)
    ∅ ∅ [] 0 0 (mkStats 0 0 0 0 0 0 0 0 0).

(** A nil transaction panics. *)
Fixpoint txBytes (txs : list (option Transaction)) : option Z :=
  match txs with
  | [] => Some 0
  | Some tx :: r => (fun n => 160 + len (tx_Data tx) + n) <$> txBytes r
  | None :: _ => None
  end.

Definition orphanBytesOf (b : wireBlock) : option Z := (fun n => 256 + n) <$> txBytes (w_Txs b).

(** A block leaves the queue: its sender's share goes down, and out at zero. *)
Definition refund (by_ : gmap PeerID Z) (p : PeerID) : gmap PeerID Z :=
  let v := default 0 (by_ !! p) - 1 in
  if v <=? 0 then delete p by_ else <[p := v]> by_.

(** The eviction loop: the oldest parent's blocks go, until the newcomer fits. *)
Fixpoint evictLoop (order : list Hash) (size : Z) (g : Gossip) : Gossip :=
  if (maxOrphans g <=? orphanCount g) || (maxOrphanBytes g <? orphanBytes g + size) then
    match order with
    | [] => g
    | oldest :: order =>
        let es := default [] (orphans g !! oldest) in
        let g := fold_left (fun g e =>
          with_stats (bump Evicted (g_Stats g))
            (with_queue (orphans g) (refund (orphansByPeer g) (oe_from e)) (orphanOrder g) (orphanCount g - 1) (orphanBytes g - oe_size e) g))
          es g in
        evictLoop order size (with_queue (delete oldest (orphans g)) (orphansByPeer g) order (orphanCount g) (orphanBytes g) g)
    end
  else g.

Section Gossip.
Context `{Crypto} `{Bn256} {D : Type} `{KV D} (env : Env D).

(** Park a block; true when its sender is to be penalised.  [None]: a nil transaction panics. *)
Definition queueOrphan (b : wireBlock) (from : PeerID) (g : Gossip) : option (Gossip * bool) :=
  let parent := ParentHash (w_Header b) in
  if existsb (fun e => array_eqb (wire_Hash (oe_blk e)) (wire_Hash b)) (default [] (orphans g !! parent)) then Some (g, false)
  else if maxOrphansPerPeer g <=? default 0 (orphansByPeer g !! from) then Some (g, true)
  else
    match orphanBytesOf b with
    | None => None
    | Some size =>
        let g := evictLoop (orphanOrder g) size g in
        if maxOrphanBytes g <? orphanBytes g + size then Some (g, true)
        else
          let order := match orphans g !! parent with Some _ => orphanOrder g | None => orphanOrder g ++ [parent] end in
          let os := <[parent := default [] (orphans g !! parent) ++ [mkOrphan b from size]]> (orphans g) in
          let by_ := <[from := default 0 (orphansByPeer g !! from) + 1]> (orphansByPeer g) in
          Some (with_stats (bump Orphaned (g_Stats g)) (with_queue os by_ order (orphanCount g + 1) (orphanBytes g + size) g), false)
    end.

(** The first occurrence goes. *)
Fixpoint removeFirst (h : Hash) (l : list Hash) : list Hash :=
  match l with
  | [] => []
  | x :: l => if array_eqb x h then l else x :: removeFirst h l
  end.

(** The blocks that wait for [h], taken out of the queue. *)
Definition takeWaiting (h : Hash) (g : Gossip) : Gossip * list orphanEntry :=
  match orphans g !! h with
  | None | Some [] => (g, [])
  | Some es =>
      (with_queue (delete h (orphans g)) (fold_left (fun by_ e => refund by_ (oe_from e)) es (orphansByPeer g))
         (removeFirst h (orphanOrder g)) (orphanCount g - len es) (fold_left (fun n e => n - oe_size e) es (orphanBytes g)) g, es)
  end.

(** ** The handler *)

Abbreviation gact A := (act D Gossip A).

Definition count (c : counter) : gact unit := on_own (fun g => (with_stats (bump c (g_Stats g)) g, tt)).

Definition penalize (from : PeerID) : gact unit :=
  let@ _ := count Rejected in
  score env from.

Definition insertWire (b : wireBlock) : gact unit := insertBlock env (w_Header b) (w_Txs b).

(** Insert what waited; the hashes of the blocks accepted. *)
Fixpoint insertWaiting (es : list orphanEntry) : gact (list Hash) :=
  match es with
  | [] => act_ret []
  | e :: es =>
      let@ r := attempt (insertWire (oe_blk e)) in
      match r with
      | inl ErrKnownBlock => insertWaiting es
      | inl _ =>
          let@ _ := penalize (oe_from e) in
          insertWaiting es
      | inr _ =>
          let@ _ := count Accepted in
          let@ hs := insertWaiting es in
          act_ret (wire_Hash (oe_blk e) :: hs)
      end
  end.

Fixpoint resolveLoop (fuel : nat) (queue : list Hash) : gact unit :=
  match queue with
  | [] => act_ret tt
  | h :: queue =>
      match fuel with
      | O => act_fuel
      | S fuel =>
          let@ waiting := on_own (takeWaiting h) in
          let@ hs := insertWaiting waiting in
          resolveLoop fuel (queue ++ hs)
      end
  end.

(** A round per parked block, and one for [parent], are enough. *)
Definition resolveOrphans (parent : Hash) : gact unit :=
  let@ g := get_own in
  resolveLoop (S (Z.to_nat (orphanCount g))) [parent].

Definition park (b : wireBlock) (from : PeerID) : gact unit := fun n =>
  match queueOrphan b from (own n) with
  | None => (n, Panics)
  | Some (g, bad) =>
      (if bad then penalize from else act_ret tt) (mkNode g (shared n) (tick n) (events n))
  end.

Definition gossip_insert (b : wireBlock) (from : PeerID) : gact unit :=
  let@ r := attempt (insertWire b) in
  match r with
  | inr _ =>
      let@ _ := count Accepted in
      resolveOrphans (wire_Hash b)
  | inl ErrKnownBlock => count LateDuplicate
  | inl ErrFutureBlock => count Deferred
  | inl ErrUnknownParent =>
      let@ _ := park b from in
      emit (E_Gap from)
  | inl ErrReorgTooDeep => act_ret tt
  | inl e =>
      let@ _ := penalize from in
      act_fail e
  end.

Definition onBlock (from : PeerID) (data : list byte) : gact unit :=
  let@ banned := isBanned env from in
  if banned then count DroppedMsg
  else
    let@ _ := count Received in
    if maxBlockMessage <? len data then
      let@ _ := penalize from in
      act_fail ErrMessageTooLarge
    else
      match decodeJSON blockMessageC data with
      | Ok (Some (mkRawBlock (Some header) txs)) =>
          let b := mkWire header txs in
          let@ known := on_chain env (fun _ bc => (bc, Returns (HasBlock bc (wire_Hash b)))) in
          if known then count FastDuplicate
          else gossip_insert b from
      | _ =>
          let@ _ := penalize from in
          act_fail ErrBadEncoding
      end.

(** A block of our own, published after it was inserted. *)
Definition Announce (b : Block) : gact unit :=
  ask (fun k => match publish env k (encodeJSON blockMessageC (Some (toRaw b))) with
                | Ok _ => Returns tt
                | Err e => Raises e
                | Panic => Panics
                end).

Definition OrphanCount (g : Gossip) : Z := orphanCount g.
Definition OrphanBytes (g : Gossip) : Z := orphanBytes g.
Definition Snapshot (g : Gossip) : Stats := g_Stats g.

End Gossip.
