(* ===== verification/GossipProofs.v ===== *)
(** * The orphan queue stays within its bounds

    [queue_ok] is the queue's invariant: its counters are those of what it
    holds, and its three bounds hold.  Every step of the handler keeps it. *)
From stdpp Require Import base numbers list gmap.
From Stdlib Require Import ZArith Lia Strings.Byte.
From S2P Require Import Prelude Common Types VmBase Precompiles Vm State Transition Json JsonCodec Store Schema Mempool.
From S2P Require Import Blockchain Scorer P2p Gossip.
#[local] Open Scope Z_scope.
#[local] Open Scope list_scope.
#[local] Open Scope act_scope.

(** ** Accounts of a list of entries *)

Fixpoint sizes (l : list orphanEntry) : Z := match l with [] => 0 | e :: l => oe_size e + sizes l end.

Definition share (p : PeerID) (l : list orphanEntry) : Z := len (filter (fun e => oe_from e = p) l).

Definition nonzero (n : Z) : option Z := if n =? 0 then None else Some n.

Record charged (by_ : gmap PeerID Z) (count bytes : Z) (l : list orphanEntry) : Prop := {
  ch_count : count = len l;
  ch_bytes : bytes = sizes l;
  ch_peer : forall p, by_ !! p = nonzero (share p l);
}.

#[export] Instance sizes_perm : Proper (Permutation ==> eq) sizes.
Proof. intros l l' Hp. induction Hp; cbn; lia. Qed.

#[export] Instance share_perm p : Proper (Permutation ==> eq) (share p).
Proof. intros l l' Hp. unfold share, len. by rewrite Hp. Qed.

#[export] Instance charged_perm by_ count bytes : Proper (Permutation ==> iff) (charged by_ count bytes).
Proof.
  assert (forall l l', l ≡ₚ l' -> charged by_ count bytes l -> charged by_ count bytes l') as H.
  { intros l l' Hp [H1 H2 H3]. split; [unfold len in *; by rewrite <- Hp|by rewrite <- Hp|]. intros p. rewrite H3. by rewrite (share_perm p _ _ Hp). }
  intros l l' Hp. split; apply H; [done|by symmetry].
Qed.

Lemma share_cons p e l : share p (e :: l) = (if decide (oe_from e = p) then 1 else 0) + share p l.
Proof. unfold share. rewrite filter_cons. destruct (decide (oe_from e = p)); rewrite ?len_cons; lia. Qed.

Lemma share_nonneg p l : 0 <= share p l.
Proof. unfold share, len. lia. Qed.

Lemma sizes_app l k : sizes (l ++ k) = sizes l + sizes k.
Proof. induction l as [|e l IH]; cbn; lia. Qed.

Lemma nonzero_default n : default 0 (nonzero n) = n.
Proof. unfold nonzero. destruct (Z.eqb_spec n 0); cbn; lia. Qed.

(** One entry out, one entry in. *)
Lemma refund_charged by_ count bytes e l : charged by_ count bytes (e :: l) -> charged (refund by_ (oe_from e)) (count - 1) (bytes - oe_size e) l.
Proof.
  intros [H1 H2 H3]. rewrite len_cons in H1. cbn in H2. split; [lia|lia|]. intros p. unfold refund.
  rewrite H3, nonzero_default, share_cons. rewrite decide_True by done. pose proof (share_nonneg (oe_from e) l) as Hn.
  specialize (H3 p). rewrite share_cons in H3. unfold nonzero in *.
  destruct (Z.leb_spec (1 + share (oe_from e) l - 1) 0); destruct (decide (oe_from e = p)) as [<-|Hne].
  - rewrite lookup_delete_eq. destruct (Z.eqb_spec (share (oe_from e) l) 0); [done|lia].
  - by rewrite lookup_delete_ne, H3.
  - rewrite lookup_insert_eq. destruct (Z.eqb_spec (share (oe_from e) l) 0); [lia|]. f_equal. lia.
  - by rewrite lookup_insert_ne, H3.
Qed.

Lemma charge_charged by_ count bytes e l :
  charged by_ count bytes l ->
  charged (<[oe_from e := default 0 (by_ !! oe_from e) + 1]> by_) (count + 1) (bytes + oe_size e) (e :: l).
Proof.
  intros [H1 H2 H3]. split; [rewrite len_cons; lia|cbn; lia|]. intros p. rewrite H3, nonzero_default, share_cons.
  pose proof (share_nonneg (oe_from e) l). destruct (decide (oe_from e = p)) as [<-|Hne].
  - rewrite lookup_insert_eq. unfold nonzero. destruct (Z.eqb_spec (1 + share (oe_from e) l) 0); [lia|]. f_equal. lia.
  - rewrite lookup_insert_ne by done. apply H3.
Qed.

Lemma refunds_charged es by_ count bytes l :
  charged by_ count bytes (es ++ l) ->
  charged (fold_left (fun by_ e => refund by_ (oe_from e)) es by_) (count - len es) (fold_left (fun n e => n - oe_size e) es bytes) l.
Proof.
  revert by_ count bytes. induction es as [|e es IH]; intros by_ count bytes Hc; cbn [fold_left].
  - by rewrite len_nil, Z.sub_0_r.
  - apply refund_charged, IH in Hc. rewrite len_cons. by replace (count - (1 + len es)) with (count - 1 - len es) by lia.
Qed.

(** ** The queue *)

Definition parkedIn (os : gmap Hash (list orphanEntry)) (order : list Hash) : list orphanEntry :=
  concat (map (fun h => default [] (os !! h)) order).

Definition parked (g : Gossip) : list orphanEntry := parkedIn (orphans g) (orphanOrder g).

Lemma parkedIn_ext os os' order : (forall h, h ∈ order -> os !! h = os' !! h) -> parkedIn os order = parkedIn os' order.
Proof.
  intros Ho. unfold parkedIn. f_equal. apply map_ext_in. intros h Hh. rewrite Ho; [done|]. by apply list_elem_of_In.
Qed.

Lemma parkedIn_app os l k : parkedIn os (l ++ k) = parkedIn os l ++ parkedIn os k.
Proof. unfold parkedIn. by rewrite map_app, concat_app. Qed.

#[export] Instance parkedIn_perm os : Proper (Permutation ==> Permutation) (parkedIn os).
Proof. intros l l' Hp. unfold parkedIn. by rewrite Hp. Qed.

Lemma parkedIn_delete os h order :
  h ∉ order -> parkedIn os (h :: order) = default [] (os !! h) ++ parkedIn (delete h os) order.
Proof.
  intros Hh. unfold parkedIn at 1. cbn [map concat]. f_equal. apply parkedIn_ext. intros x Hx.
  rewrite lookup_delete_ne; [done|]. by intros ->.
Qed.

Section Queue.
Context `{Crypto} (Q : wireBlock -> Prop).

(** The queue apart from its bounds; every parked block satisfies [Q]. *)
Record queue_shape (g : Gossip) : Prop := {
  qs_order : NoDup (orphanOrder g);
  qs_keys : forall h, h ∈ orphanOrder g <-> is_Some (orphans g !! h);
  qs_bucket : forall h es, orphans g !! h = Some es ->
    es <> [] /\ NoDup (map (fun e => wire_Hash (oe_blk e)) es)
    /\ Forall (fun e => ParentHash (w_Header (oe_blk e)) = h /\ orphanBytesOf (oe_blk e) = Some (oe_size e) /\ oe_from e <> [] /\ Q (oe_blk e)) es;
  qs_charged : charged (orphansByPeer g) (orphanCount g) (orphanBytes g) (parked g);
}.

Record queue_bounds (g : Gossip) : Prop := {
  qb_count : orphanCount g <= maxOrphans g;
  qb_bytes : orphanBytes g <= maxOrphanBytes g;
  qb_peer : forall p n, orphansByPeer g !! p = Some n -> n <= maxOrphansPerPeer g;
}.

Definition queue_ok (g : Gossip) : Prop := 1 <= maxOrphans g /\ queue_shape g /\ queue_bounds g.

Definition same_limits (g g' : Gossip) : Prop :=
  maxOrphans g' = maxOrphans g /\ maxOrphansPerPeer g' = maxOrphansPerPeer g /\ maxOrphanBytes g' = maxOrphanBytes g.

(** ** Removing a parent's blocks *)

(** What evicting or releasing the blocks of [h] leaves. *)
Definition without (h : Hash) (order : list Hash) (g : Gossip) : Gossip :=
  let es := default [] (orphans g !! h) in
  with_queue (delete h (orphans g)) (fold_left (fun by_ e => refund by_ (oe_from e)) es (orphansByPeer g)) order
    (orphanCount g - len es) (fold_left (fun n e => n - oe_size e) es (orphanBytes g)) g.

Lemma without_shape g h order :
  queue_shape g -> orphanOrder g ≡ₚ h :: order ->
  queue_shape (without h order g) /\ parked g ≡ₚ default [] (orphans g !! h) ++ parked (without h order g).
Proof.
  intros [Ho Hk Hb Hc] Hp. rewrite Hp in Ho. apply NoDup_cons in Ho as [Hh Ho].
  assert (parked g ≡ₚ default [] (orphans g !! h) ++ parked (without h order g)) as Hpk.
  { unfold parked. rewrite Hp, parkedIn_delete by done. done. }
  split; [|done]. split; [done| | |].
  - intros x. cbn. destruct (decide (x = h)) as [->|Hne].
    + rewrite lookup_delete_eq. split; [done|]. by intros [? ?].
    + rewrite lookup_delete_ne, <- Hk, Hp by done. set_solver.
  - intros x es. cbn. intros [_ E]%lookup_delete_Some. by apply Hb.
  - cbn. apply refunds_charged. by rewrite <- Hpk.
Qed.

Lemma entry_size g e : queue_shape g -> e ∈ parked g -> 0 <= oe_size e.
Proof.
  intros Hs He. unfold parked, parkedIn in He. apply list_elem_of_In, in_concat in He as (es & Hes & He).
  apply in_map_iff in Hes as (h & <- & _). destruct (orphans g !! h) as [es|] eqn:E; [|done].
  destruct (qs_bucket g Hs h es E) as (_ & _ & Hall). rewrite Forall_forall in Hall. apply list_elem_of_In in He.
  destruct (Hall e He) as (_ & Esz & _). unfold orphanBytesOf in Esz.
  assert (forall l n, txBytes l = Some n -> 0 <= n) as Hn; [|destruct (txBytes _) as [n|] eqn:En; [|done]; injection Esz as <-; apply Hn in En; lia].
  clear. intros l. induction l as [|[tx|] l IH]; intros n; cbn; [by intros [= <-]| |done].
  destruct (txBytes l) as [m|]; [|done]. intros [= <-]. specialize (IH m eq_refl). pose proof (len_nonneg (tx_Data tx)). lia.
Qed.

Lemma sizes_nonneg l : (forall e, e ∈ l -> 0 <= oe_size e) -> 0 <= sizes l.
Proof. intros Hl. induction l as [|e l IH]; cbn; [lia|]. pose proof (Hl e ltac:(left)). enough (0 <= sizes l) by lia. apply IH. intros. apply Hl. by right. Qed.

(** A sender's share only goes down as blocks leave. *)
Lemma share_sub g g' pre p :
  queue_shape g -> queue_shape g' -> parked g ≡ₚ pre ++ parked g' -> default 0 (orphansByPeer g' !! p) <= default 0 (orphansByPeer g !! p).
Proof.
  intros Hs Hs' Hp. rewrite (ch_peer _ _ _ _ (qs_charged g Hs)), (ch_peer _ _ _ _ (qs_charged g' Hs')), !nonzero_default.
  rewrite (share_perm p _ _ Hp). unfold share. rewrite filter_app, len_app. pose proof (len_nonneg (filter (fun e => oe_from e = p) pre)). lia.
Qed.

(** A queue that lost blocks is within its bounds if it was. *)
Lemma bounds_sub g g' pre :
  queue_shape g -> queue_shape g' -> same_limits g g' -> parked g ≡ₚ pre ++ parked g' -> queue_bounds g -> queue_bounds g'.
Proof.
  intros Hs Hs' (E1 & E2 & E3) Hp [B1 B2 B3]. pose proof (qs_charged g Hs) as Hc. rewrite Hp in Hc.
  destruct Hc as [C1 C2 _]. destruct (qs_charged g' Hs') as [D1 D2 D3]. rewrite len_app in C1. rewrite sizes_app in C2.
  assert (0 <= sizes pre) as Hn by (apply sizes_nonneg; intros e He; apply (entry_size g e Hs); rewrite Hp; set_solver).
  pose proof (len_nonneg pre). split; rewrite ?E1, ?E2, ?E3; [lia|lia|]. intros p n Hl.
  pose proof (share_sub g g' pre p Hs Hs' Hp) as Hle. rewrite Hl in Hle. destruct (orphansByPeer g !! p) as [m|] eqn:Em; cbn in Hle.
  - specialize (B3 p m Em). lia.
  - rewrite D3 in Hl. pose proof (share_nonneg p (parked g')). unfold nonzero in Hl. destruct (Z.eqb_spec (share p (parked g')) 0); [done|].
    injection Hl as <-. lia.
Qed.

(** ** The eviction loop *)

Lemma evictFold_eq es g :
  let g' := fold_left (fun g e =>
    with_stats (bump Evicted (g_Stats g))
      (with_queue (orphans g) (refund (orphansByPeer g) (oe_from e)) (orphanOrder g) (orphanCount g - 1) (orphanBytes g - oe_size e) g)) es g in
  exists st, g' = with_stats st (with_queue (orphans g) (fold_left (fun by_ e => refund by_ (oe_from e)) es (orphansByPeer g))
    (orphanOrder g) (orphanCount g - len es) (fold_left (fun n e => n - oe_size e) es (orphanBytes g)) g).
Proof.
  cbv zeta. revert g. induction es as [|e es IH]; intros g; cbn [fold_left].
  - exists (g_Stats g). rewrite len_nil, Z.sub_0_r. by destruct g.
  - destruct (IH (with_stats (bump Evicted (g_Stats g))
      (with_queue (orphans g) (refund (orphansByPeer g) (oe_from e)) (orphanOrder g) (orphanCount g - 1) (orphanBytes g - oe_size e) g))) as [st ->].
    exists st. rewrite len_cons. unfold with_stats, with_queue. cbn. f_equal. lia.
Qed.

Lemma shape_stats g st : queue_shape g -> queue_shape (with_stats st g).
Proof. intros [? ? ? ?]. by split. Qed.

Lemma bounds_stats g st : queue_bounds g -> queue_bounds (with_stats st g).
Proof. intros [? ? ?]. by split. Qed.

Lemma queue_stats g st : queue_ok g -> queue_ok (with_stats st g).
Proof. intros (? & ? & ?). split_and!; [done|by apply shape_stats|by apply bounds_stats]. Qed.

Lemma evictLoop_ok order size g :
  queue_shape g -> orphanOrder g = order ->
  let g' := evictLoop order size g in
  queue_shape g' /\ same_limits g g' /\ (exists pre, parked g ≡ₚ pre ++ parked g') /\ orphans g' ⊆ orphans g
  /\ (orphanCount g' < maxOrphans g' /\ orphanBytes g' + size <= maxOrphanBytes g' \/ orphanOrder g' = []).
Proof.
  revert g. induction order as [|h order IH]; intros g Hs Eo; cbn [evictLoop];
    (destruct (_ || _) eqn:Efull; [|split_and!; [done|done|by exists []|done|left; lia]]).
  - split_and!; [done|done|by exists []|done|by right].
  - destruct (evictFold_eq (default [] (orphans g !! h)) g) as [st ->]. cbn.
    pose proof (without_shape g h order Hs) as [Hs' Hp]; [by rewrite Eo|].
    destruct (IH (with_stats st (without h order g)) (shape_stats _ st Hs') eq_refl) as (H1 & H2 & [pre H3] & H4 & H5).
    split_and!; [done|done| |etransitivity; [exact H4|apply delete_subseteq]|done].
    exists (default [] (orphans g !! h) ++ pre). rewrite Hp, <- app_assoc. f_equiv. exact H3.
Qed.

(** ** Parking a block *)

(** The queue with [e] behind the others that wait for [h]. *)
Definition pushed (h : Hash) (e : orphanEntry) (g : Gossip) : Gossip :=
  with_queue (<[h := default [] (orphans g !! h) ++ [e]]> (orphans g))
    (<[oe_from e := default 0 (orphansByPeer g !! oe_from e) + 1]> (orphansByPeer g))
    (match orphans g !! h with Some _ => orphanOrder g | None => orphanOrder g ++ [h] end)
    (orphanCount g + 1) (orphanBytes g + oe_size e) g.

Lemma pushed_parked h e g : queue_shape g -> parked (pushed h e g) ≡ₚ e :: parked g.
Proof.
  intros Hs. unfold parked, pushed. cbn [with_queue orphans orphanOrder]. destruct (orphans g !! h) as [es|] eqn:E.
  - assert (h ∈ orphanOrder g) as [order Hp]%elem_of_Permutation by (apply (qs_keys g Hs); by rewrite E).
    pose proof (qs_order g Hs) as Hnd. rewrite Hp in Hnd. apply NoDup_cons in Hnd as [Hh _].
    rewrite Hp. rewrite !parkedIn_delete by done. rewrite lookup_insert_eq, E, delete_insert_eq. cbn [default from_option id].
    by rewrite <- app_assoc, Permutation_middle.
  - rewrite parkedIn_app. assert (h ∉ orphanOrder g) as Hh by (rewrite (qs_keys g Hs), E; by intros [? ?]).
    rewrite (parkedIn_ext _ (orphans g)) by (intros x Hx; rewrite lookup_insert_ne; [done|by intros ->]).
    unfold parkedIn at 2. cbn. rewrite lookup_insert_eq. cbn. by rewrite Permutation_app_comm.
Qed.

Lemma pushed_shape b from size g :
  queue_shape g -> Q b -> from <> [] -> orphanBytesOf b = Some size ->
  existsb (fun e => array_eqb (wire_Hash (oe_blk e)) (wire_Hash b)) (default [] (orphans g !! ParentHash (w_Header b))) = false ->
  queue_shape (pushed (ParentHash (w_Header b)) (mkOrphan b from size) g).
Proof.
  intros Hs HQ Hfrom Esz Hdup. set (h := ParentHash (w_Header b)) in *. set (e := mkOrphan b from size).
  pose proof (pushed_parked h e g Hs) as Hp. split.
  - cbn. destruct (orphans g !! h) as [es|] eqn:E; [apply Hs|]. apply NoDup_app. split; [apply Hs|]. split; [|apply NoDup_singleton].
    intros x Hx Hin%list_elem_of_singleton. subst x. apply (qs_keys g Hs) in Hx as [? Hx]. by rewrite E in Hx.
  - intros x. cbn. destruct (decide (x = h)) as [->|Hne].
    + rewrite lookup_insert_eq. split; [by eauto|]. intros _. destruct (orphans g !! h) as [es|] eqn:E; [|set_solver].
      apply (qs_keys g Hs). by rewrite E.
    + rewrite lookup_insert_ne by done. rewrite <- (qs_keys g Hs). destruct (orphans g !! h); [done|]. set_solver.
  - intros x es. cbn. intros [[<- <-]|[Hne E]]%lookup_insert_Some; [|by apply Hs]. split; [by destruct (default [] _)|].
    destruct (orphans g !! h) as [es|] eqn:E; cbn [default from_option id] in *.
    + destruct (qs_bucket g Hs h es E) as (_ & Hnd & Hall). rewrite map_app. split.
      * apply NoDup_app. split; [done|]. split; [|apply NoDup_singleton]. intros y Hy Hin%list_elem_of_singleton. subst y.
        apply list_elem_of_fmap in Hy as (e' & Ee & He'). apply Bool.not_true_iff_false in Hdup. apply Hdup, existsb_exists.
        exists e'. split; [by apply list_elem_of_In|]. by apply array_eqb_eq.
      * apply Forall_app. split; [done|]. by repeat constructor.
    + split; [apply NoDup_singleton|]. by repeat constructor.
  - rewrite Hp. apply (charge_charged _ _ _ e), Hs.
Qed.

Lemma pushed_bounds h e g :
  queue_bounds g -> orphanCount g < maxOrphans g -> orphanBytes g + oe_size e <= maxOrphanBytes g ->
  default 0 (orphansByPeer g !! oe_from e) < maxOrphansPerPeer g -> queue_bounds (pushed h e g).
Proof.
  intros [B1 B2 B3] Hc Hb Hp. split; cbn; [lia|done|]. intros p n. intros [[<- <-]|[_ E]]%lookup_insert_Some; [lia|by eapply B3].
Qed.

Lemma queueOrphan_ok b from g :
  queue_ok g -> Q b -> from <> [] -> is_Some (orphanBytesOf b) ->
  exists g' bad, queueOrphan b from g = Some (g', bad) /\ queue_ok g' /\ same_limits g g'.
Proof.
  intros (Hmax & Hs & Hb) HQ Hfrom [size Esz]. unfold queueOrphan. destruct (existsb _ _) eqn:Edup; [by exists g, false|].
  destruct (Z.leb_spec (maxOrphansPerPeer g) (default 0 (orphansByPeer g !! from))) as [|Hquota]; [by exists g, true|]. rewrite Esz.
  destruct (evictLoop_ok (orphanOrder g) size g Hs eq_refl) as (Hs' & Hlim & [pre Hpre] & Hsub & Hroom).
  set (g' := evictLoop (orphanOrder g) size g) in *. pose proof (bounds_sub g g' pre Hs Hs' Hlim Hpre Hb) as Hb'.
  pose proof Hlim as (L1 & L2 & L3). destruct (Z.ltb_spec (maxOrphanBytes g') (orphanBytes g' + size)) as [|Hfit].
  { exists g', true. split_and!; [done| |done]. split_and!; [by rewrite L1|done|done]. }
  set (e := mkOrphan b from size). exists (with_stats (bump Orphaned (g_Stats g')) (pushed (ParentHash (w_Header b)) e g')), false.
  split; [done|]. split; [|done]. split; [cbn; by rewrite L1|]. split.
  - apply shape_stats, pushed_shape; [done..|]. apply Bool.not_true_iff_false. intros (x & Hx & Ex)%existsb_exists.
    apply Bool.not_true_iff_false in Edup. apply Edup, existsb_exists. exists x. split; [|done].
    destruct (orphans g' !! ParentHash (w_Header b)) as [es|] eqn:E; [|done]. by rewrite (lookup_weaken _ _ _ _ E Hsub).
  - apply bounds_stats, (pushed_bounds _ e g' Hb'); [|done|].
    + destruct Hroom as [[Hr _]|Hr]; [lia|]. destruct (qs_charged g' Hs') as [-> _ _]. unfold parked. rewrite Hr, L1. unfold parkedIn. cbn [map concat]. rewrite len_nil. lia.
    + pose proof (share_sub g g' pre from Hs Hs' Hpre). cbn. lia.
Qed.

(** ** Releasing the blocks that wait *)

Lemma removeFirst_perm h l : h ∈ l -> l ≡ₚ h :: removeFirst h l.
Proof.
  induction l as [|x l IH]; [by intros ?%not_elem_of_nil|]. cbn. destruct (array_eqb x h) eqn:E; [apply array_eqb_eq in E; by subst|].
  intros [->|Hin]%elem_of_cons; [by rewrite (proj2 (array_eqb_eq x x) eq_refl) in E|]. rewrite <- Permutation_swap. f_equiv. by apply IH.
Qed.

Lemma takeWaiting_ok h g :
  queue_ok g ->
  let (g', es) := takeWaiting h g in
  queue_ok g' /\ same_limits g g' /\ len (parked g) = len es + len (parked g')
  /\ Forall (fun e => ParentHash (w_Header (oe_blk e)) = h /\ orphanBytesOf (oe_blk e) = Some (oe_size e) /\ oe_from e <> [] /\ Q (oe_blk e)) es.
Proof.
  intros (Hmax & Hs & Hb). unfold takeWaiting. destruct (orphans g !! h) as [es|] eqn:E; [|split_and!; done || by apply Forall_nil_2].
  destruct (qs_bucket g Hs h es E) as (Hne & _ & Hall).
  assert (h ∈ orphanOrder g) as Hin by (apply (qs_keys g Hs); by rewrite E).
  destruct (without_shape g h (removeFirst h (orphanOrder g)) Hs (removeFirst_perm h _ Hin)) as [Hs' Hp].
  unfold without in Hs', Hp. rewrite E in Hs', Hp. cbn [default from_option id] in Hs', Hp. destruct es as [|e es]; [done|].
  split_and!; [|done| |done].
  - split_and!; [done|done|]. by apply (bounds_sub g _ (e :: es)).
  - rewrite <- len_app. unfold len. by rewrite Hp.
Qed.
End Queue.
