(* ===== verification/GossipProps.v ===== *)
(** * Block gossip on hostile input

    Whatever bytes peers send, and whatever the rest of the node does
    meanwhile: the handler ends, the chain stays one a node can reach, and the
    orphan queue keeps its accounts and its bounds. *)
From stdpp Require Import base numbers list gmap.
From Stdlib Require Import ZArith Lia Strings.Byte.
From S2P Require Import Prelude Common Types VmBase Precompiles Vm VmProofs VmProps State StateInv Transition Pow Genesis Json JsonCodec JsonWide Store Schema SchemaProofs Producer Mempool MempoolProofs.
From S2P Require Import Blockchain ChainInv ChainInsert ChainOpen ChainProps Scorer P2p P2pProofs Gossip GossipProofs.
#[local] Open Scope Z_scope.
#[local] Open Scope list_scope.
#[local] Open Scope act_scope.

Section Handler.
Context `{Crypto} `{Bn256} {D : Type} `{KVLaws D} (net : network) (env : Env D).
Context (He : env_ok net env) (Hn : wf_network net).

(** A block with a header of the network, as a message can carry it. *)
Definition wire_offered (b : wireBlock) : Prop := offered (n_headers net) (mkRawBlock (Some (w_Header b)) (w_Txs b)).

Abbreviation gsane := (sane net (queue_ok wire_offered)).
Abbreviation gruns := (runs net (queue_ok wire_offered)).
Abbreviation quiet := (fun (_ : error) (_ : Node D Gossip) => False).

Lemma count_runs c (n : Node D Gossip) : gsane n -> gruns (count c) (fun _ n' => parked (own n') = parked (own n)) quiet n.
Proof. intros Hs. apply runs_own; [done| |done]. apply queue_stats, Hs. Qed.

Lemma penalize_runs from (n : Node D Gossip) :
  gsane n -> from <> [] -> gruns (penalize env from) (fun _ n' => parked (own n') = parked (own n)) quiet n.
Proof.
  intros Hs Hf. unfold penalize. eapply runs_bind; [by apply count_runs|]. intros [] n1 Hs1 E1. cbn in E1.
  eapply runs_weaken; [by apply score_runs| |done]. intros [] n2 E2. cbn in *. by rewrite E2.
Qed.

(** What is known of an entry that left the queue. *)
Definition released (e : orphanEntry) : Prop := oe_from e <> [] /\ wire_offered (oe_blk e).

Lemma insertWaiting_runs es (n : Node D Gossip) :
  gsane n -> Forall released es ->
  gruns (insertWaiting env es) (fun hs n' => parked (own n') = parked (own n) /\ (length hs <= length es)%nat) quiet n.
Proof.
  intros Hs Hes. revert n Hs. induction Hes as [|e es [Hf Ho] Hes IH]; intros n Hs; cbn [insertWaiting]; [by apply runs_ret|].
  assert (forall n1, gsane n1 -> parked (own n1) = parked (own n) -> gruns (insertWaiting env es)
    (fun hs n' => parked (own n') = parked (own n) /\ (length hs <= length (e :: es))%nat) quiet n1) as Hrest.
  { intros n1 Hs1 E1. eapply runs_weaken; [by apply IH| |done]. intros hs n2 [E2 Hl]. cbn. rewrite E2. split; [done|lia]. }
  eapply runs_bind; [eapply runs_attempt; by apply insertBlock_runs|]. intros r n1 Hs1 Hr. destruct r as [er|[]].
  - destruct Hr as [E1 _]. assert (gruns (let@ _ := penalize env (oe_from e) in insertWaiting env es)
      (fun hs n' => parked (own n') = parked (own n) /\ (length hs <= length (e :: es))%nat) quiet n1) as Hpen.
    { eapply runs_bind; [by apply penalize_runs|]. intros [] n2 Hs2 E2. cbn in E2. apply Hrest; [done|]. by rewrite E2, E1. }
    destruct er; try exact Hpen. apply Hrest; [done|]. by rewrite E1.
  - destruct Hr as [Hr _]. eapply runs_bind; [by apply count_runs|]. intros [] n2 Hs2 E2. cbn in E2.
    eapply runs_bind; [by apply IH|]. intros hs n3 Hs3 [E3 Hl]. apply runs_ret; [done|]. cbn. rewrite E3, E2, Hr. split; [done|lia].
Qed.

(** The loop ends: a round takes one hash off the list, and puts back no more than it took off the queue. *)
Lemma resolveLoop_runs fuel queue (n : Node D Gossip) :
  gsane n -> (length (parked (own n)) + length queue <= fuel)%nat -> gruns (resolveLoop env fuel queue) (fun _ _ => True) quiet n.
Proof.
  revert queue n. induction fuel as [|fuel IH]; intros [|h queue] n Hs Hfuel; cbn [resolveLoop length] in *; try (by apply runs_ret); [lia|].
  pose proof (takeWaiting_ok wire_offered h (own n) (proj1 Hs)) as Ht. destruct (takeWaiting h (own n)) as [g' es] eqn:Et.
  destruct Ht as (Hq & _ & Hlen & Hall).
  eapply runs_bind; [apply (runs_own _ _ _ (fun es' n' => es' = es /\ own n' = g')); rewrite ?Et; done|]. intros es' n1 Hs1 [-> E1].
  eapply runs_bind; [apply insertWaiting_runs; [done|]; eapply Forall_impl; [exact Hall|]; by intros e (_ & _ & ? & ?)|].
  intros hs n2 Hs2 [E2 Hl]. apply IH; [done|]. rewrite E2, E1, length_app. unfold len in Hlen. lia.
Qed.

Lemma resolveOrphans_runs h (n : Node D Gossip) : gsane n -> gruns (resolveOrphans env h) (fun _ _ => True) quiet n.
Proof.
  intros Hs. unfold resolveOrphans, get_own, act_bind. apply resolveLoop_runs; [done|]. destruct Hs as [(_ & Hq & _) _].
  rewrite (ch_count _ _ _ _ (qs_charged _ _ Hq)). unfold len. cbn [length]. lia.
Qed.

Lemma txBytes_some txs : is_Some (allTxs txs) -> is_Some (txBytes txs).
Proof.
  induction txs as [|[tx|] txs IH]; cbn; [by eauto| |by intros [? ?]]. destruct (allTxs txs); [|by intros [? ?]].
  destruct IH as [z ->]; [by eauto|]. by eauto.
Qed.

Lemma park_runs b from (n : Node D Gossip) :
  gsane n -> wire_offered b -> from <> [] -> is_Some (allTxs (w_Txs b)) -> gruns (park env b from) (fun _ _ => True) quiet n.
Proof.
  intros [Hq Hsh] Ho Hf [z Hz]%txBytes_some. unfold runs, park.
  destruct (queueOrphan_ok wire_offered b from (own n) Hq Ho Hf) as (g' & bad & -> & Hq' & _); [unfold orphanBytesOf; by rewrite Hz|].
  assert (gsane (mkNode g' (shared n) (tick n) (events n))) as Hs1 by done.
  destruct bad; [|done]. pose proof (penalize_runs from _ Hs1 Hf) as Hr. unfold runs in Hr.
  destruct (penalize env from _) as [n' [[]|e| |]]; try done; by destruct Hr as (? & ? & ?).
Qed.

Lemma gossip_insert_runs b from (n : Node D Gossip) :
  gsane n -> wire_offered b -> from <> [] -> gruns (gossip_insert env b from) (fun _ _ => True) (fun _ _ => True) n.
Proof.
  intros Hs Ho Hf. unfold gossip_insert. eapply runs_bind; [eapply runs_attempt; by apply insertBlock_runs|].
  intros r n1 Hs1 Hr. assert (forall c, gruns (count c) (fun _ _ => True) (fun _ _ => True) n1) as Hcount.
  { intros c. eapply runs_weaken; [by apply count_runs|done|done]. }
  assert (forall e, gruns (let@ _ := penalize env from in act_fail e) (fun _ : unit => fun _ => True) (fun _ _ => True) n1) as Hbad.
  { intros e. eapply runs_bind; [eapply runs_weaken; [by apply penalize_runs|done|done]|]. intros [] n2 Hs2 _. by apply runs_fail. }
  destruct r as [er|[]].
  - destruct Hr as [_ Htx]. destruct er; try apply Hbad; try apply Hcount; [|by apply runs_ret].
    eapply runs_bind; [eapply runs_weaken; [apply park_runs; auto|done|done]|]. intros [] n2 Hs2 _. by apply runs_emit.
  - eapply runs_bind; [apply Hcount|]. intros [] n2 Hs2 _. eapply runs_weaken; [by apply resolveOrphans_runs|done|done].
Qed.

(** A message of the network: if it holds a block, its header is one of the network's. *)
Definition carries (data : list byte) : Prop :=
  forall header txs, decodeJSON blockMessageC data = Ok (Some (mkRawBlock (Some header) txs)) -> n_headers net header.

Lemma carried_offered data header txs :
  carries data -> len data <= maxBlockMessage -> decodeJSON blockMessageC data = Ok (Some (mkRawBlock (Some header) txs)) ->
  wire_offered (mkWire header txs).
Proof.
  intros Hc Hlen E. pose proof (Hc _ _ E) as HP. split; [by exists header|].
  assert (wide (length data) blockMessageC (fun o => forall b, o = Some b -> block_carried (length data) b)) as Hw.
  { apply structC_wide; [done|]. intros ms cur v Hms Hcur.
    next_field (ptrC_wide _ _ _ (rawBlockC_wide (length data))) Hcur. by intros [= <-]. }
  destruct (decodeJSON_wide _ _ _ _ Hw E _ eq_refl) as [_ Ht]. eapply Forall_impl; [exact Ht|]. cbn. intros o Ho tx Etx.
  destruct (Ho tx Etx) as [Htw Hd]. split; [done|]. unfold len in *. change maxBlockMessage with 8388608 in Hlen. lia.
Qed.

Lemma onBlock_runs from data (n : Node D Gossip) :
  gsane n -> from <> [] -> carries data -> gruns (onBlock env from data) (fun _ _ => True) (fun _ _ => True) n.
Proof.
  intros Hs Hf Hc. unfold onBlock. eapply runs_bind; [eapply runs_weaken; [by apply isBanned_runs|done|done]|].
  intros banned n1 Hs1 _.
  assert (forall c n, gsane n -> gruns (count c) (fun _ _ => True) (fun _ _ => True) n) as Hcount.
  { intros c m Hm. eapply runs_weaken; [by apply count_runs|done|done]. }
  destruct banned; [by apply Hcount|]. eapply runs_bind; [by apply Hcount|]. intros [] n2 Hs2 _.
  assert (forall e, gruns (let@ _ := penalize env from in act_fail e) (fun _ : unit => fun _ => True) (fun _ _ => True) n2) as Hbad.
  { intros e. eapply runs_bind; [eapply runs_weaken; [by apply penalize_runs|done|done]|]. intros [] n3 Hs3 _. by apply runs_fail. }
  destruct (Z.ltb_spec maxBlockMessage (len data)) as [|Hlen]; [apply Hbad|].
  destruct (decodeJSON blockMessageC data) as [[[[header|] txs]|]| |] eqn:E; try apply Hbad.
  apply (runs_bind _ _ _ _ (fun _ _ => True)).
  { eapply runs_weaken; [apply (on_chain_runs net env He _ _ (fun _ => True) (fun _ => True)); done|done|done]. }
  intros known n3 Hs3 _. destruct known; [by apply Hcount|]. apply gossip_insert_runs; [done| |done].
  by eapply carried_offered.
Qed.

(** A node whose queue and whose shared part are sound. *)
Definition gossip_ok (n : Node D Gossip) : Prop := gsane n.

Lemma onBlock_lemma from data (n : Node D Gossip) :
  gossip_ok n -> from <> [] -> carries data ->
  let (n', r) := onBlock env from data n in gossip_ok n' /\ r <> OutOfFuel /\ (r = Panics -> hook_panicked n').
Proof.
  intros Hs Hf Hc. pose proof (onBlock_runs from data n Hs Hf Hc) as Hr. unfold runs in Hr.
  destruct (onBlock env from data n) as [n' [[]|e| |]]; [..|done]; (split; [apply Hr|]); (split; [done|]); [done|done|]. intros _. apply Hr.
Qed.

(** The messages a node was sent, one after another; a panic is caught. *)
Definition deliver (n : Node D Gossip) (m : list byte * list byte) : Node D Gossip := fst (safeHandle (onBlock env (fst m) (snd m)) n).

Definition message_ok (m : list byte * list byte) : Prop := fst m <> [] /\ carries (snd m).

Lemma deliver_ok n m : gossip_ok n -> message_ok m -> gossip_ok (deliver n m).
Proof.
  intros Hs [Hf Hc]. pose proof (onBlock_lemma (fst m) (snd m) n Hs Hf Hc) as Hr. unfold deliver, safeHandle.
  destruct (onBlock env (fst m) (snd m) n) as [n' [[]|e| |]]; apply Hr.
Qed.

Lemma delivered_ok l n : gossip_ok n -> Forall message_ok l -> gossip_ok (fold_left deliver l n).
Proof.
  revert n. induction l as [|m l IH]; intros n Hs Hl; [done|]. apply Forall_cons in Hl as [Hm Hl]. cbn. apply IH; [by apply deliver_ok|done].
Qed.

Lemma newGossip_ok m perPeer bytes : 1 <= m -> 0 <= perPeer -> 0 <= bytes -> queue_ok wire_offered (newGossip m perPeer bytes).
Proof.
  intros Hm Hp Hb. split_and!; [done|..].
  - split; cbn; [apply NoDup_nil_2|..|done].
    + intros h. rewrite lookup_empty. split; [by intros ?%not_elem_of_nil|by intros [? ?]].
    + intros h es. by rewrite lookup_empty.
  - split; cbn; [lia| |intros p n; by rewrite lookup_empty].
    destruct (Z.eqb_spec bytes 0); [by vm_compute|done].
Qed.

End Handler.

(** What a node announces is what its peers decode. *)
Lemma blockMessageC_ok : codec_ok blockMessageC (fun o => forall b, o = Some b -> raw_widths b).
Proof.
  apply structC_ok. intros o Ho. pose proof (ptrC_ok rawBlockC raw_widths rawBlockC_ok ltac:(done)) as Hp. split.
  - repeat (apply Forall_cons; split); [|by apply Forall_nil]. by apply Hp.
  - by dec_field Hp Ho.
Qed.

(** ** A small node *)

#[local] Existing Instance mixCrypto.
#[local] Existing Instance toyBn256.

(** The clock stands at [ms], and nothing else runs. *)
Definition smallEnv (ms : Z) : Env Memory :=
  mkEnv (fun _ => ms * 1000000) (fun _ s => s) (fun _ m => (map_to_list m).*1) (fun _ m => (map_to_list m).*1)
    (fun _ _ _ => listOrder) (fun _ => true) (fun _ _ => Ok tt) (fun _ _ _ => Err ErrUnknownPeer).

Definition smallNode : Node Memory Gossip :=
  mkNode (newGossip DefaultMaxOrphans 0 0) (mkShared chain0 (Some (NewScorer 0)) (Mempool_New 100)) 0 [].

Definition announced (h : Header) : list byte := encodeJSON blockMessageC (Some (toRaw (mkBlock h []))).

Lemma smallEnv_ok ms : clockRange ms -> env_ok small (smallEnv ms).
Proof.
  intros Hms. split; [done| |].
  - intros k m. reflexivity.
  - intros k. unfold UnixMilli. cbn [smallEnv clock]. by rewrite Z.div_mul.
Qed.

Lemma small_clock : clockRange 500000.
Proof. unfold clockRange. lia. Qed.

Lemma smallNode_ok : gossip_ok small smallNode.
Proof. split; [by apply newGossip_ok|]. split; [exact chain0_reachable|apply scorer_ok_new]. Qed.

Lemma announced_carries h : h ∈ smallHeaders -> carries small (announced h).
Proof.
  intros Hh header txs E. unfold announced in E. rewrite (decode_encode _ _ _ blockMessageC_ok) in E.
  - by injection E as <- _.
  - intros b [= <-]. split; cbn; [intros x [= <-]; exact (proj1 (small_sane h Hh))|by apply Forall_nil].
Qed.

(** ** Properties *)

(** C14: [onBlock] is safe on any bytes from any peer, a block dated at the end of time or one that asks for any amount of
    gas among them, whatever the node's other goroutines do between its steps: it ends, and leaves the chain one a node
    can reach, the scorer within its bound, and the orphan queue with its accounts exact and its bounds kept.  It panics
    only if the mempool does while the hook hands it a reorg, and [safeHandle] turns that into an error.  The assumptions
    are that no two headers the node meets share a hash, that nobody has mined a chain whose gas limit has grown beyond
    2^60 or whose height nears 2^63 ([wf_network]), and that the clock is in range. *)
Theorem onBlock_safe `{Crypto} `{Bn256} {D} `{KVLaws D} net (env : Env D) from data n :
  wf_network net -> env_ok net env -> gossip_ok net n -> from <> [] -> carries net data ->
  let (n', r) := onBlock env from data n in gossip_ok net n' /\ r <> OutOfFuel /\ (r = Panics -> hook_panicked n').
Proof. intros Hn He. by apply onBlock_lemma. Qed.

(** A peer sends a block dated at the end of time, and then a good one. *)
Lemma onBlock_safe_witness :
  let n1 := fst (onBlock (smallEnv 500000) [x61] (announced future) smallNode) in
  gossip_ok small n1 /\ HasBlock (chain (shared n1)) (Header_Hash future) = false
  /\ let (n2, r) := onBlock (smallEnv 500000) [x61] (announced a1) n1 in
     gossip_ok small n2 /\ r <> OutOfFuel /\ HasBlock (chain (shared n2)) (Header_Hash a1) = true.
Proof.
  intros n1. assert (gossip_ok small n1) as Hn1.
  { pose proof (onBlock_safe small (smallEnv 500000) [x61] (announced future) smallNode small_wf (smallEnv_ok _ small_clock) smallNode_ok
      ltac:(discriminate) (announced_carries future (list_elem_of_lookup_2 smallHeaders 6 future eq_refl))) as Hs.
    unfold n1. destruct (onBlock (smallEnv 500000) [x61] (announced future) smallNode). apply Hs. }
  split; [exact Hn1|]. split; [vm_compute; reflexivity|].
  pose proof (onBlock_safe small (smallEnv 500000) [x61] (announced a1) n1 small_wf (smallEnv_ok _ small_clock) Hn1 ltac:(discriminate)
    (announced_carries a1 (list_elem_of_lookup_2 smallHeaders 1 a1 eq_refl))) as Hs.
  assert (HasBlock (chain (shared (fst (onBlock (smallEnv 500000) [x61] (announced a1) n1)))) (Header_Hash a1) = true) as Hb
    by (vm_compute; reflexivity).
  destruct (onBlock (smallEnv 500000) [x61] (announced a1) n1). split; [apply Hs|]. split; [apply Hs|exact Hb].
Defined.

(** The orphan queue cannot be used to exhaust memory.  After any messages from any peers, the counters
    [OrphanCount] and [OrphanBytes] are the number and the total size of the blocks that are parked; there
    are at most [maxOrphans] of them, they weigh at most [maxOrphanBytes], no sender holds more than its
    share, and no block waits twice for the same parent. *)
Theorem orphans_bounded `{Crypto} `{Bn256} {D} `{KVLaws D} net (env : Env D) m perPeer bytes s l :
  wf_network net -> env_ok net env -> shared_ok net s -> 1 <= m -> 0 <= perPeer -> 0 <= bytes -> Forall (message_ok net) l ->
  let g0 := newGossip m perPeer bytes in
  let g := own (fold_left (deliver env) l (mkNode g0 s 0 [])) in
  OrphanCount g = len (parked g) /\ OrphanBytes g = sizes (parked g)
  /\ len (parked g) <= maxOrphans g /\ sizes (parked g) <= maxOrphanBytes g
  /\ (forall p, share p (parked g) <= Z.max 0 (maxOrphansPerPeer g))
  /\ (forall h es, orphans g !! h = Some es -> NoDup (map (fun e => wire_Hash (oe_blk e)) es)).
Proof.
  intros Hn He Hs Hm Hp Hb Hl g0 g.
  assert (gossip_ok net (fold_left (deliver env) l (mkNode g0 s 0 []))) as [(_ & [_ _ Hbk [Hc Hbt Hpr]] & [B1 B2 B3]) _].
  { apply delivered_ok; [done..|split; [by apply newGossip_ok|done]|done]. }
  fold g in Hbk, Hc, Hbt, Hpr, B1, B2, B3. split_and!; [done|done|by rewrite <- Hc|by rewrite <- Hbt| |].
  - intros p. specialize (Hpr p). unfold nonzero in Hpr. destruct (Z.eqb_spec (share p (parked g)) 0) as [->|]; [lia|]. specialize (B3 p _ Hpr). lia.
  - intros h es Hes. by apply (Hbk h es).
Qed.

Lemma orphans_bounded_witness :
  len (parked (own (fold_left (deliver (smallEnv 500000)) [([x61], announced a2)] (mkNode (newGossip 1 0 0) (shared smallNode) 0 [])))) <= 1.
Proof.
  pose proof (orphans_bounded small (smallEnv 500000) 1 0 0 (shared smallNode) [([x61], announced a2)] small_wf (smallEnv_ok _ small_clock)
    (proj2 smallNode_ok) ltac:(lia) ltac:(lia) ltac:(lia)) as Hb.
  assert (Forall (message_ok small) [([x61], announced a2)]) as Hl.
  { apply Forall_singleton. split; [discriminate|]. apply announced_carries. exact (list_elem_of_lookup_2 smallHeaders 2 a2 eq_refl). }
  destruct (Hb Hl) as (_ & _ & Hc & _). etransitivity; [exact Hc|]. apply Z.eq_le_incl. vm_compute. reflexivity.
Defined.

(** The messages arrive in order; the penalty of the sender [a], and what the handler counted. *)
Definition judged (ms : Z) (l : list Header) : option Z * Stats * Z :=
  let n := fold_left (deliver (smallEnv ms)) (map (fun h => ([x61], announced h)) l) smallNode in
  (match scorer (shared n) with Some sc => snd (Penalty sc [x61] (ms * 1000000)) | None => None end, Snapshot (own n), OrphanCount (own n)).

(** A block dated ahead of the clock is no offence when it comes after its parent, and is one when it
    comes before.  The clock is a millisecond short of admitting [a2]: after [a1], [a2] is deferred and its
    sender keeps a clean record; parked, and released by [a1], the same block is counted as rejected and
    its sender is penalised, though [insert] says of this refusal that it is not misbehaviour. *)
Theorem early_orphan_penalised :
  let ms := Timestamp a2 - MaxFutureDriftMs - 1 in
  judged ms [a1; a2] = (Some 0, mkStats 2 0 0 1 0 0 0 0 1, 0)
  /\ judged ms [a2; a1] = (Some 1, mkStats 2 0 0 1 1 0 1 0 0, 0).
Proof. split; vm_compute; reflexivity. Qed.
