(* ===== verification/MiningProps.v ===== *)
(** * Mining: what is built becomes the head

    The producer, the miner, the pool and the block tree together.  A node
    left alone that mines on its chain builds a block which the same node's
    [InsertBlock] accepts as its new head. *)
From stdpp Require Import base numbers list gmap.
From Stdlib Require Import ZArith Lia Strings.Byte.
From S2P Require Import Prelude Common Types VmBase Precompiles Vm VmProofs VmProps State StateProofs StateInv Transition BlockProofs.
From S2P Require Import Pow Genesis Json JsonCodec Store Schema Mempool MempoolProofs Producer.
From S2P Require Import Blockchain ChainInv ChainInsert ChainOpen ChainProps ChainExtend Scorer P2p P2pProofs GossipProps Mining.
#[local] Open Scope Z_scope.
#[local] Open Scope list_scope.
#[local] Open Scope go_scope.
#[local] Open Scope act_scope.

Section Mining.
Context `{Crypto} `{Bn256} {D S : Type} `{KVLaws D} (net : network) (Hn : wf_network net) (env : Env D).

Abbreviation P := (n_headers net).
Abbreviation gb := (n_block net).

#[local] Instance mining_headers : headers P gb := wn_headers net Hn.

(** Nothing else runs. *)
Definition alone : Prop := forall k s, meanwhile env k s = s.

(** The clock goes forward, stays in range, and from the access [t] on is not so far behind that a block on
    [h] would be refused as one from the future. *)
Record clock_ok (h : Header) (t : nat) : Prop := {
  ck_forward : forall k k', (k <= k')%nat -> UnixMilli env k <= UnixMilli env k';
  ck_range : forall k, 0 <= UnixMilli env k < 2 ^ 62;
  ck_near : forall k, (t <= k)%nat -> Timestamp h < UnixMilli env k + MaxFutureDriftMs;
}.

(** What the pool holds: transactions that passed [SanityCheck] when they were added, no two with one
    hash. *)
Record minable (id : Z) (m : Mempool) : Prop := {
  mn_pool : exists T size, (forall a b, T a -> T b -> tx_Hash a = tx_Hash b -> a = b) /\ pool_reachable T size m;
  mn_txs : forall h tx, Mempool_Get m h = Some tx ->
    SanityCheck tx id = Ok tt /\ tx_widths tx /\ len (tx_Data tx) < 2 ^ 32;
}.

Lemma reads_reachable n cur acc (bc : Blockchain D) : reachable net bc -> reachable net (fst (ancestors n cur acc bc)).
Proof.
  revert cur acc bc. induction n as [|n IH]; intros cur acc bc Hr; [done|]. cbn [ancestors].
  destruct (blockLocked (ParentHash cur) bc) as [bc1 r] eqn:E.
  assert (reachable net bc1) as Hr1 by (by eapply R_read).
  destruct r as [b|e| |]; [by apply IH|done..].
Qed.

Lemma requiredDifficulty_reachable parent (bc : Blockchain D) :
  reachable net bc -> reachable net (fst (requiredDifficultyLocked parent bc)).
Proof.
  intros Hr. unfold requiredDifficultyLocked. destruct (_ <? 2); [done|]. unfold op_bind.
  pose proof (reads_reachable (Z.to_nat (if LwmaWindow <? i64 (Height parent) then LwmaWindow else i64 (Height parent))) parent [parent] bc Hr) as Ha.
  destruct (ancestors _ parent [parent] bc) as [bc1 [[w|]|e| |]]; done.
Qed.

(** Every block of the chain can be built on. *)
Lemma genesis_limits (bc : Blockchain D) :
  reachable net bc -> MinBlockGasLimit <= h_GasLimit (b_Header gb) /\ 1 <= Difficulty (b_Header gb) < 2 ^ 64.
Proof.
  intros Hr. destruct (chain_reachable_inv net Hn bc Hr) as (F & canon & _ & _ & o & Ho & Hv).
  pose proof (wn_build net Hn o Ho) as Hb. unfold Build in Hb.
  destruct (buildState o State_New) as [st| |]; try done. cbn [res_bind] in Hb. injection Hb as _ <-. cbn.
  unfold Validate in Hv. destruct (_ =? 0); [done|]. destruct (Z.ltb_spec (g_GasLimit (n_genesis net)) MinBlockGasLimit); [done|]. split; [done|].
  pose proof (wg_Difficulty _ (wn_genesis net Hn)). unfold is_u64, MinDifficulty in *.
  destruct (Z.eqb_spec (g_Difficulty (n_genesis net)) 0); lia.
Qed.

Lemma head_buildable F canon (bc : Blockchain D) : reachable net bc -> inv P gb F canon bc -> buildable (b_Header (head bc)).
Proof.
  intros Hr Hi. pose proof (head_stored _ _ _ _ _ Hi) as [Hs [HP [Hw Hl Hg Hh] _]].
  split; [destruct Hl; lia|]. split; [|lia]. destruct (genesis_limits bc Hr) as [Hgl _].
  destruct (decide (Block_Height (head bc) = 0)) as [Ez|Ez].
  - by rewrite (genesis_height P gb F canon bc Hi (head bc) (head_stored _ _ _ _ _ Hi) Ez).
  - destruct (si_accepted _ _ _ _ (inv_store _ _ _ _ _ Hi) (head bc) (head_stored _ _ _ _ _ Hi)) as (? & _ & _ & _ & _ & _ & _ & Hlim & _).
    { intros E. apply Ez. by rewrite E, (cf_height _ _ (inv_config _ _ _ _ _ Hi)). }
    done.
Qed.

(** ** The candidate *)

(** A candidate for the chain [bc]: any nonce makes it a block that the state transition accepts. *)
Record candidate (bc : Blockchain D) (m : Mempool) (cb : Address) (k : nat) (b : Block) : Prop := {
  cd_parent : ParentHash (b_Header b) = Block_Hash (head bc);
  cd_proposer : Proposer (b_Header b) = cb;
  cd_difficulty : snd (requiredDifficultyLocked (b_Header (head bc)) bc) = Returns (Difficulty (b_Header b));
  cd_positive : 1 <= Difficulty (b_Header b);
  cd_wf : wf_header (b_Header b);
  cd_time : Timestamp (b_Header b) <= UnixMilli env k + MaxFutureDriftMs;
  cd_stamp : Timestamp (b_Header b) = blockTime (b_Header (head bc)) (UnixMilli env k);
  cd_txs : Forall (fun tx => Mempool_Get m (tx_Hash tx) = Some tx) (b_Txs b);
  cd_apply : exists st rs, states bc !! Block_Hash (head bc) = Some st
    /\ forall nonce, exists s, ApplyBlock (split bc) st (mkBlock (with_nonce nonce (b_Header b)) (b_Txs b)) (Some (b_Header (head bc))) = Returns (s, rs);
}.

Lemma blockTime_near h t k : clock_ok h t -> (t <= k)%nat -> - 2 ^ 61 <= Timestamp h <= 2 ^ 62 + 2 ^ 60 ->
  blockTime h (UnixMilli env k) <= UnixMilli env k + MaxFutureDriftMs.
Proof.
  intros [_ Hr Hnear] Hk Ht. specialize (Hr k). specialize (Hnear k Hk). unfold blockTime, MaxFutureDriftMs in *.
  destruct (Z.leb_spec (UnixMilli env k) (Timestamp h)); [rewrite i64_small; lia|lia].
Qed.

Lemma built_wf sp h st d offer cb k b fees rs :
  built sp h st d offer cb (UnixMilli env k) b fees rs -> (exists t, clock_ok h t) -> buildable h -> 1 <= d < 2 ^ 64 -> wf_header (b_Header b).
Proof.
  intros [_ _ Hd _ _ Hh Ht Hl Hu Hz _] [t [_ Hr _]] [Hbt Hbg] Hdr. specialize (Hr k).
  unfold blockTime, MinBlockGasLimit in *. assert (maxGas = 2 ^ 60) as HM by done.
  split; rewrite ?Hd, ?Hh, ?Ht, ?Hl, ?Hz; unfold is_u64 in *; try lia.
  - unfold u64. apply Z.mod_pos_bound. lia.
  - destruct (Z.leb_spec (UnixMilli env k) (Timestamp h)); [rewrite i64_small; lia|lia].
Qed.

Lemma buildUnsealed_spec cb (n : Node D S) :
  alone -> reachable net (chain (shared n)) -> minable (chainID (chain (shared n))) (pool (shared n)) ->
  clock_ok (b_Header (head (chain (shared n)))) (tick n) ->
  exists bc1 b fees k k', buildUnsealed env cb n = (mkNode (own n) (with_chain bc1 (shared n)) k' (events n), Returns (b, fees))
    /\ (tick n <= k <= k')%nat /\ reachable net bc1 /\ same (chain (shared n)) bc1 /\ candidate bc1 (pool (shared n)) cb k b.
Proof.
  intros Hal Hr [(T & size & HT & Hpool) Htxs] Hck. destruct (chain_reachable_inv net Hn _ Hr) as (F & canon & Hi & _).
  destruct n as [o [bc sc m] t ev]. cbn [shared chain pool own events] in *. destruct (reachable_inv T HT size m Hpool) as [Hpi _].
  pose proof (head_stored _ _ _ _ _ Hi) as Hh. destruct (inv_headState _ _ _ _ _ Hi) as [st Hst].
  destruct (held P gb F canon bc Hi _ _ Hh Hst) as [Hok _].
  assert (forall a, is_u64 (State_Nonce (State_Copy st) a)) as Hnon.
  { intros a. apply wa_nonce, wf_Get. apply (wf_content st); [done|]. apply Hok. }
  destruct (Pending_pooled T HT m (State_Copy st) (h_GasLimit (b_Header (head bc))) (poolOrders env (1 + (1 + t)) 0 0) Hpi Hnon) as (txs & Ep & Hall).
  assert (1 <= genesisDifficulty bc < 2 ^ 64) as Hgd.
  { rewrite (cf_difficulty _ _ (inv_config _ _ _ _ _ Hi)). by apply (genesis_limits bc). }
  destruct (requiredDifficulty_total P gb F canon bc (b_Header (head bc)) Hi ltac:(apply Hh) Hgd) as (bc1 & d & Ed & Hi1 & Hs1 & Hd).
  pose proof (requiredDifficulty_reachable (b_Header (head bc)) bc Hr) as Hr1. rewrite Ed in Hr1. cbn [fst] in Hr1.
  pose proof (same_fields _ _ Hs1) as (Edb & _ & _ & Egd & _ & _ & Esp & Ess & Eh).
  pose proof (requiredDifficulty_det P gb F canon F canon (b_Header (head bc)) bc bc1 Hi Hi1 ltac:(by rewrite Edb) Egd) as Ed1. rewrite Ed in Ed1.
  set (now := UnixMilli env (1 + (1 + (1 + t)))).
  destruct (BuildUnsealed_spec (split bc1) (b_Header (head bc)) st (fun _ => d) (fun _ _ => txs) cb now)
    as (b & fees & rs & Eb & HB).
  { apply Hok. } { by eapply head_buildable. }
  { rewrite Forall_forall in *. intros tx Hin. destruct (Htxs _ tx (Hall tx Hin)) as (Hsan & Hw & Hl).
    by destruct (SanityCheck_sound tx _ Hw Hl Hsan). }
  exists bc1, b, fees, (3 + t)%nat, (6 + t)%nat. split_and!; [|cbn; lia|cbn; lia|done|done|].
  - unfold buildUnsealed, poolPending, on_chain, look, on_shared, ask, act_bind, act_call.
    repeat (cbn [tick shared own events chain pool scorer with_chain fst snd]; rewrite ?Hal).
    unfold Head, headState. rewrite Hst. cbn [or_panic]. rewrite Ep.
    unfold RequiredDifficulty. rewrite Ed. cbn [tick shared own events]. rewrite Hal. cbn [chain with_chain].
    fold now. by rewrite Eb.
  - pose proof HB as [Hsub _ Hdiff Hprop Hpar _ Htime _ _ _ Hap]. split; rewrite ?Eh; try done.
    + by rewrite Hdiff.
    + rewrite Hdiff. lia.
    + eapply built_wf; [exact HB|by eauto|by eapply head_buildable|done].
    + rewrite Htime. eapply blockTime_near; [done|cbn; lia|]. apply Hh.
    + rewrite Forall_forall in *. intros tx Hin. apply Hall. eapply elem_of_submseteq; [exact Hin|by apply sublist_submseteq].
    + exists st, rs. rewrite Ess. done.
Qed.

(** ** Sealing and committing *)

Lemma candidate_extends (bc : Blockchain D) m cb k k' h b nonce :
  (exists t, clock_ok h t) -> minable (chainID bc) m -> candidate bc m cb k b -> (k <= k')%nat ->
  satisfiesPoW (with_nonce nonce (b_Header b)) = true ->
  extends bc (mkBlock (with_nonce nonce (b_Header b)) (b_Txs b)) (UnixMilli env k').
Proof.
  intros [t [Hfw Hrg _]] [_ Htxs] [C1 C2 C3 C4 _ C5 _ C6 (st & rs & Hst & Hap)] Hk Hpow.
  split; cbn [b_Header b_Txs with_nonce ParentHash Timestamp Difficulty]; try done.
  - specialize (Hfw k k' Hk). specialize (Hrg k'). unfold MaxFutureDriftMs in *. rewrite i64_small; lia.
  - destruct (Hap nonce) as [s Ha]. by eapply ApplyBlock_txRoot.
  - eapply Forall_impl; [exact C6|]. intros tx Htx. by apply (Htxs _ _ Htx).
  - destruct (Hap nonce) as [s Ha]. by exists st, s, rs.
Qed.

Lemma minable_offered id m b : minable id m -> P (b_Header b) -> Forall (fun tx => Mempool_Get m (tx_Hash tx) = Some tx) (b_Txs b) ->
  offered P (toRaw b).
Proof.
  intros [_ Htxs] HP Hall. split; [by exists (b_Header b)|]. cbn. rewrite Forall_map. eapply Forall_impl; [exact Hall|].
  intros tx Htx tx' [= <-]. by apply (Htxs _ _ Htx).
Qed.

(** The node after [Commit]: the block is the head, and its transactions are out of the pool. *)
Record committed (won : S -> S) (b : Block) (n n' : Node D S) : Prop := {
  cm_head : Head (chain (shared n')) = b;
  cm_reachable : reachable net (chain (shared n'));
  cm_chainID : chainID (chain (shared n')) = chainID (chain (shared n));
  cm_own : own n' = won (own n);
  cm_pool : exists j, pool (shared n') = Mempool_Remove (pool (shared n)) (b_Txs b) j;
  cm_tick : (tick n <= tick n')%nat;
}.

Lemma commit_spec (won : S -> S) b (n : Node D S) :
  alone -> reliable D -> reachable net (chain (shared n)) -> offered P (toRaw b) ->
  clockRange (UnixMilli env (tick n)) -> extends (chain (shared n)) b (UnixMilli env (tick n)) ->
  exists n', Commit env won b n = (n', Returns tt) /\ committed won b n n'.
Proof.
  intros Hal Hrel Hr Hoff Hnow Hx. destruct (chain_reachable_inv net Hn _ Hr) as (F & canon & Hi & _). destruct n as [o [bc sc m] t ev].
  cbn [shared chain tick own] in *. destruct (extends_accepted P gb F canon bc b (UnixMilli env t) Hrel Hi Hoff Hnow Hx) as (bc' & F' & E & _ & Eh & Hcf).
  assert (reachable net bc') as Hr' by (by eapply R_insert). unfold toRaw in E.
  unfold Commit, insertBlock, poolRemove, on_chain, on_shared, on_own, emit, act_bind, act_ret.
  cbn [tick shared own events chain pool scorer]. rewrite Hal. cbn [chain]. rewrite E. cbn [tick shared own events]. rewrite Hal.
  eexists. split; [reflexivity|]. split; cbn [shared own chain pool with_pool with_chain tick]; try done; [apply Hcf|by eexists|lia].
Qed.

Lemma Remove_minable id m txs j : minable id m -> Forall (fun tx => Mempool_Get m (tx_Hash tx) = Some tx) txs -> minable id (Mempool_Remove m txs j).
Proof.
  intros [(T & size & HT & Hp) Htxs] Hall. split.
  - exists T, size. split; [done|]. eapply PR_step; [exact Hp|]. apply PS_remove. destruct (reachable_inv T HT size m Hp) as [Hpi _].
    eapply Forall_impl; [exact Hall|]. intros tx Htx. by destruct (pi_all _ _ Hpi _ _ Htx) as (_ & ? & _).
  - intros h tx Hg. by eapply Htxs, Remove_sub.
Qed.

(** What the miner's search comes to. *)
Lemma build_spec cb fuel stop (n : Node D S) :
  alone -> reachable net (chain (shared n)) -> minable (chainID (chain (shared n))) (pool (shared n)) ->
  clock_ok (b_Header (head (chain (shared n)))) (tick n) -> Z.of_nat fuel <= 2 ^ 64 ->
  exists bc1 b k k', same (chain (shared n)) bc1 /\ reachable net bc1 /\ candidate bc1 (pool (shared n)) cb k b /\ (k <= k')%nat /\
  match build env cb fuel stop n with
  | (n1, Returns b1) => n1 = mkNode (own n) (with_chain bc1 (shared n)) k' (events n)
      /\ exists nonce, b1 = mkBlock (with_nonce nonce (b_Header b)) (b_Txs b) /\ satisfiesPoW (b_Header b1) = true
  | (n1, Raises e) => n1 = mkNode (own n) (with_chain bc1 (shared n)) k' (events n) /\ e = ErrMiningAborted
  | (_, OutOfFuel) => forall nonce, 0 <= nonce < Z.of_nat fuel -> satisfiesPoW (with_nonce nonce (b_Header b)) = false
  | (_, Panics) => False
  end.
Proof.
  intros Hal Hr Hm Hck Hf. destruct (buildUnsealed_spec cb n Hal Hr Hm Hck) as (bc1 & b & fees & k & k' & E & Hk & Hr1 & Hs1 & Hc).
  exists bc1, b, k, k'. split_and!; try done; [lia|]. unfold build, act_bind. rewrite E.
  pose proof (mine_spec fuel (mkHeaderObj (b_Header b) None) stop Hf) as Hmine. cbn [ho_header] in Hmine.
  destruct (mine fuel _ stop) as [[[] o']|]; [|done|done]. destruct Hmine as (nonce & Eo & Hpow). unfold act_ret.
  split; [done|]. exists nonce. cbn [b_Header]. by rewrite Eo in *.
Qed.

End Mining.

(** ** A small network *)

#[local] Existing Instance mixCrypto.
#[local] Existing Instance toyBn256.

Definition soloNode : Node Memory Z := mkNode 0 (mkShared chain0 None (Mempool_New 100)) 0 [].

Lemma Memory_reliable : reliable Memory.
Proof. intros d b. by eexists. Qed.

Lemma solo_alone ms : alone (smallEnv ms).
Proof. done. Qed.

Lemma solo_clock ms h t : 0 <= ms < 2 ^ 62 -> Timestamp h < ms + MaxFutureDriftMs -> clock_ok (smallEnv ms) h t.
Proof. intros Hr Hms. unfold smallEnv. split; intros; unfold UnixMilli; cbn [clock]; rewrite ?Z.div_mul by lia; lia. Qed.

Lemma empty_minable id : minable id (Mempool_New 100).
Proof. split; [exists (fun _ => False), 100; split; [done|apply PR_new]|]. intros h tx. unfold Mempool_Get. cbn. by rewrite lookup_empty. Qed.

(** ** Properties *)

(** C11: What a node mines becomes its head.  A node left alone, whose store does not fail and whose clock runs,
    reads its head, its head state and its pool, and searches for a nonce.  It ends with a sealed block on
    top of the head whose transactions are pooled ones, or with the abort signal, or still searching after
    [fuel] nonces none of which wins; it does not panic.  The sealed block, unless its header's hash
    collides, is accepted by [Commit]: it is the new head of a chain a node can reach, it is counted, and
    its transactions have left the pool. *)
Theorem mined_block_is_head `{Crypto} `{Bn256} {D S} `{KVLaws D} net (env : Env D) (won : S -> S) cb fuel stop n :
  wf_network net -> reliable D -> alone env -> reachable net (chain (shared n)) ->
  minable (chainID (chain (shared n))) (pool (shared n)) -> clock_ok env (b_Header (Head (chain (shared n)))) (tick n) ->
  Z.of_nat fuel <= 2 ^ 64 ->
  match build env cb fuel stop n with
  | (n1, Returns b) =>
      ParentHash (b_Header b) = Block_Hash (Head (chain (shared n))) /\ Proposer (b_Header b) = cb
      /\ Forall (fun tx => Mempool_Get (pool (shared n)) (tx_Hash tx) = Some tx) (b_Txs b)
      /\ (n_headers net (b_Header b) ->
          exists n2, Commit env won b n1 = (n2, Returns tt) /\ Head (chain (shared n2)) = b
            /\ reachable net (chain (shared n2)) /\ own n2 = won (own n)
            /\ forall tx, tx ∈ b_Txs b -> Mempool_Get (pool (shared n2)) (tx_Hash tx) = None)
  | (n1, Raises e) => e = ErrMiningAborted /\ own n1 = own n /\ Head (chain (shared n1)) = Head (chain (shared n))
  | (_, OutOfFuel) => exists h, ParentHash h = Block_Hash (Head (chain (shared n)))
      /\ forall nonce, 0 <= nonce < Z.of_nat fuel -> satisfiesPoW (with_nonce nonce h) = false
  | (_, Panics) => False
  end.
Proof.
  intros Hn Hrel Hal Hr Hm Hck Hf.
  destruct (build_spec net Hn env cb fuel stop n Hal Hr Hm Hck Hf) as (bc1 & b & k & k' & Hs & Hr1 & Hc & Hk & HB).
  pose proof (same_fields _ _ Hs) as (_ & Eid & _ & _ & _ & _ & _ & _ & Eh). pose proof Hc as [Hp Hpr _ _ _ _ _ Htx _]. unfold Head. rewrite Eh in Hp.
  destruct (build env cb fuel stop n) as [n1 [b1|e| |]]; [|by destruct HB as [-> ->]|done|by exists (b_Header b)].
  destruct HB as (-> & nonce & -> & Hpow). cbn [b_Header b_Txs with_nonce ParentHash Proposer] in *. split_and!; try done.
  intros HP.
  destruct (commit_spec net Hn env won (mkBlock (with_nonce nonce (b_Header b)) (b_Txs b)) (mkNode (own n) (with_chain bc1 (shared n)) k' (events n)))
    as (n2 & E2 & [Hd2 Hr2 _ Ho2 [j Hg2] _]); [done|done|exact Hr1| | | |exists n2; split_and!; try done].
  - by eapply minable_offered.
  - pose proof (ck_range _ _ _ Hck k'). unfold clockRange. cbn [tick]. lia.
  - cbn [shared chain with_chain tick]. eapply (candidate_extends env bc1 _ cb k k' _ b nonce); try done; [by eauto|by rewrite Eid].
  - intros tx Hin. rewrite Hg2. by apply Remove_gone.
Qed.

Lemma mined_block_is_head_witness :
  exists n1 b n2, build (smallEnv 241000) (array_of 20 [x09]) 10 (fun _ => false) soloNode = (n1, Returns b)
    /\ Commit (smallEnv 241000) Z.succ b n1 = (n2, Returns tt) /\ Head (chain (shared n2)) = b /\ own n2 = 1.
Proof.
  assert (match build (smallEnv 241000) (array_of 20 [x09]) 10 (fun _ => false) soloNode with
          | (_, Returns b) => bool_decide (b_Header b = a1) | _ => false end = true) as Hb by (vm_compute; reflexivity).
  pose proof (mined_block_is_head small (smallEnv 241000) Z.succ (array_of 20 [x09]) 10 (fun _ => false) soloNode small_wf Memory_reliable
    (solo_alone _) chain0_reachable (empty_minable _)) as HM.
  destruct (build _ _ _ _ soloNode) as [n1 [b| | |]]; [|discriminate Hb..].
  destruct HM as (_ & _ & _ & HM).
  - apply solo_clock; [lia|vm_compute; reflexivity].
  - vm_compute. discriminate.
  - apply bool_decide_eq_true in Hb. destruct HM as (n2 & Ec & Eh & _ & Eo & _).
    { rewrite Hb. exact (list_elem_of_lookup_2 smallHeaders 1 a1 eq_refl). }
    exists n1, b, n2. split; [reflexivity|]. split; [exact Ec|]. split; [exact Eh|exact Eo].
Defined.
