(* ===== verification/Pool.v ===== *)
(** * The mining pool (pool/server.go, pool/persist.go)

    The pool hands out block templates with a target easier than the block's,
    credits every nonce that meets it to the worker who sent it, and when one
    of them makes a block splits the reward over the latest shares.  The split
    is owed once the block is deep and still canonical, and paid by ordinary
    transactions.  The ledger is what is owed, what is about to be, and the
    totals; it is the part that is kept in a file.  One lock guards all of the
    server's own state, so a handler runs on it without interference; the chain
    and the mempool change meanwhile. *)
From stdpp Require Import base numbers list gmap.
From Stdlib Require Import ZArith Lia Strings.Byte.
From Stdlib Require Strings.String.
Import Strings.String.StringSyntax.
From S2P Require Import Prelude Common Types VmBase Precompiles Vm State Transition Pow Producer Json JsonCodec Store Schema Wire Mempool.
From S2P Require Import Blockchain Scorer P2p Mining.
#[local] Open Scope Z_scope.
#[local] Open Scope list_scope.
#[local] Open Scope act_scope.

(** ** Configuration *)

Record Config : Type := mkConfig {
  ShareDiffDivisor : Z;
  MinShareDiff : Z;
  FeeBps : Z;
  Confirmations : Z;
  WindowFactor : Z;
  PayoutMin : option Z;
  StatePath : list byte;
  RefreshInterval : Z;        (* nanoseconds *)
}.

Definition seconds (n : Z) : Z := n * 1000000000.

Definition fillDefaults (c : Config) : Config :=
  mkConfig
    (if ShareDiffDivisor c =? 0 then 64 else ShareDiffDivisor c)
    (if MinShareDiff c =? 0 then 50000 else MinShareDiff c)
    (FeeBps c)
    (if Confirmations c =? 0 then 12 else Confirmations c)
    (if WindowFactor c =? 0 then 2 else WindowFactor c)
    (match PayoutMin c with
     | Some v => if Z.sgn v <=? 0 then Some (OneLXS / 2) else Some v
     | None => Some (OneLXS / 2)
     end)
    (StatePath c)
    (if RefreshInterval c =? 0 then seconds 10 else RefreshInterval c).

Definition payoutGasReserve : Z := 2000000.

(** ** The server's state *)

Record template : Type := mkTemplate {
  t_id : Hash;
  t_hdr : Header;              (* its nonce is that of the latest share checked *)
  t_txs : list Transaction;
  t_minerFees : Z;
  t_shareDiff : Z;
  t_shareTarget : Z;
  t_blockTarget : Z;
  t_workJSON : list byte;
  t_built : Z;
  t_parent : Hash;
  t_seen : gset Z;
}.

Record share : Type := mkShare { sh_addr : Address; sh_diff : Z }.

Record foundBlock : Type := mkFound { fb_Height : Z; fb_Hash : Hash; fb_Payouts : gmap Address Z }.

Record recentShare : Type := mkRecent { rs_at : Z; rs_diff : Z }.

(** What the ledger file holds. *)
Record Ledger : Type := mkLedger {
  pending : list foundBlock;
  balances : gmap Address Z;
  totalShares : Z;
  totalBlocks : Z;
  totalOrphans : Z;
  totalPaid : Z;
}.

Record Server : Type := mkServer {
  cfg : Config;
  blocksWon : Z;                        (* the producer's counter *)
  templates : gmap Hash template;
  current : Hash;
  ring : list share;                    (* oldest first *)
  ledger : Ledger;
  lastSeen : gmap Address Z;
  recent : list recentShare;
  nextNonce : Z;
  nonceInit : bool;
  file : option (list byte);            (* the file at StatePath *)
}.

Definition maxRing : Z := 100000.

Definition with_templates (m : gmap Hash template) (cur : Hash) (s : Server) : Server :=
  mkServer (cfg s) (blocksWon s) m cur (ring s) (ledger s) (lastSeen s) (recent s) (nextNonce s) (nonceInit s) (file s).
Definition with_ledger (l : Ledger) (s : Server) : Server :=
  mkServer (cfg s) (blocksWon s) (templates s) (current s) (ring s) l (lastSeen s) (recent s) (nextNonce s) (nonceInit s) (file s).
Definition with_wallet (n : Z) (init : bool) (s : Server) : Server :=
  mkServer (cfg s) (blocksWon s) (templates s) (current s) (ring s) (ledger s) (lastSeen s) (recent s) n init (file s).
Definition with_file (f : option (list byte)) (s : Server) : Server :=
  mkServer (cfg s) (blocksWon s) (templates s) (current s) (ring s) (ledger s) (lastSeen s) (recent s) (nextNonce s) (nonceInit s) f.
Definition with_traffic (r : list share) (seen : gmap Address Z) (rec : list recentShare) (s : Server) : Server :=
  mkServer (cfg s) (blocksWon s) (templates s) (current s) r (ledger s) seen rec (nextNonce s) (nonceInit s) (file s).
Definition won (s : Server) : Server :=
  mkServer (cfg s) (blocksWon s + 1) (templates s) (current s) (ring s) (ledger s) (lastSeen s) (recent s) (nextNonce s) (nonceInit s) (file s).

Definition with_pending (p : list foundBlock) (l : Ledger) : Ledger :=
  mkLedger p (balances l) (totalShares l) (totalBlocks l) (totalOrphans l) (totalPaid l).

(** The last [n] elements of a slice. *)
Definition lastN {A} (n : Z) (l : list A) : list A := if n <? len l then drop (length l - Z.to_nat n) l else l.

(** ** The ledger file *)

Record persistBlock : Type := mkPBlock { pb_Height : Z; pb_Hash : list byte; pb_Payouts : gmap (list byte) (list byte) }.

Record persistState : Type := mkPState {
  ps_Balances : gmap (list byte) (list byte);
  ps_Pending : list persistBlock;
  ps_TotalShares : Z;
  ps_TotalBlocks : Z;
  ps_TotalOrphan : Z;
  ps_TotalPaid : list byte;
}.

#[local] Notation "'let*' x ':=' o 'in' k" := (mbind (fun x => k) o) (at level 10, x name, o at level 200, k at level 200).

Definition persistBlockC : codec persistBlock := structC (mkPBlock 0 [] ∅)
  (fun b => [(str "height", enc (uintC 64) (pb_Height b)); (str "hash", enc stringC (pb_Hash b));
             (str "payouts", enc stringMapC (pb_Payouts b))])
  (fun ms cur =>
     let* height := field (uintC 64) (str "height") ms (pb_Height cur) in
     let* hash := field stringC (str "hash") ms (pb_Hash cur) in
     let* payouts := field stringMapC (str "payouts") ms (pb_Payouts cur) in
     Some (mkPBlock height hash payouts)).

Definition persistStateC : codec persistState := structC (mkPState ∅ [] 0 0 0 [])
  (fun s => [(str "balances", enc stringMapC (ps_Balances s)); (str "pending", enc (listC persistBlockC) (ps_Pending s));
             (str "totalShares", enc (uintC 64) (ps_TotalShares s)); (str "totalBlocks", enc (uintC 64) (ps_TotalBlocks s));
             (str "totalOrphans", enc (uintC 64) (ps_TotalOrphan s)); (str "totalPaidWei", enc stringC (ps_TotalPaid s))])
  (fun ms cur =>
     let* balances := field stringMapC (str "balances") ms (ps_Balances cur) in
     let* pending := field (listC persistBlockC) (str "pending") ms (ps_Pending cur) in
     let* shares := field (uintC 64) (str "totalShares") ms (ps_TotalShares cur) in
     let* blocks := field (uintC 64) (str "totalBlocks") ms (ps_TotalBlocks cur) in
     let* orphans := field (uintC 64) (str "totalOrphans") ms (ps_TotalOrphan cur) in
     let* paid := field stringC (str "totalPaidWei") ms (ps_TotalPaid cur) in
     Some (mkPState balances pending shares blocks orphans paid)).

Definition persistAmounts (m : gmap Address Z) : gmap (list byte) (list byte) := kmap Address_Hex (itoa <$> m).

Definition persistFound (fb : foundBlock) : persistBlock :=
  mkPBlock (fb_Height fb) (Hash_Hex (fb_Hash fb)) (persistAmounts (fb_Payouts fb)).

Definition persist (l : Ledger) : persistState :=
  mkPState (persistAmounts (balances l)) (map persistFound (pending l)) (totalShares l) (totalBlocks l) (totalOrphans l)
    (itoa (totalPaid l)).

(** What [saveLocked] writes. *)
Definition ledgerText (l : Ledger) : list byte := encodeIndent persistStateC (persist l).

(** The loops of [load] over a map of amounts, in the order of the walk. *)
Fixpoint loadAmounts (keys : list (list byte)) (m : gmap (list byte) (list byte)) (acc : gmap Address Z) : res (gmap Address Z) :=
  match keys with
  | [] => Ok acc
  | hex :: keys =>
      match AddressFromHex hex, setString10 (default [] (m !! hex)) with
      | Ok addr, Some v => loadAmounts keys m (<[addr := v]> acc)
      | _, _ => Err ErrLedger
      end
  end.

Section Load.
Context (walkText : gmap (list byte) (list byte) -> list (list byte)).
#[local] Open Scope go_scope.

Fixpoint loadPending (bs : list persistBlock) : res (list foundBlock) :=
  match bs with
  | [] => Ok []
  | pb :: bs =>
      match HashFromHex (pb_Hash pb) with
      | Ok h =>
          let? payouts := loadAmounts (walkText (pb_Payouts pb)) (pb_Payouts pb) ∅ in
          let? rest := loadPending bs in
          Ok (mkFound (pb_Height pb) h payouts :: rest)
      | _ => Err ErrLedger
      end
  end.

Definition loadLedger (data : list byte) : res Ledger :=
  match decodeJSON persistStateC data with
  | Ok ps =>
      let? bals := loadAmounts (walkText (ps_Balances ps)) (ps_Balances ps) ∅ in
      let? pend := loadPending (ps_Pending ps) in
      let paid := if len (ps_TotalPaid ps) =? 0 then 0 else default 0 (setString10 (ps_TotalPaid ps)) in
      Ok (mkLedger pend bals (ps_TotalShares ps) (ps_TotalBlocks ps) (ps_TotalOrphan ps) paid)
  | _ => Err ErrLedger
  end.

Definition emptyLedger : Ledger := mkLedger [] ∅ 0 0 0 0.

(** [load]: what reading the file gave, [None] when there is no such file. *)
Definition load (path : list byte) (read : res (option (list byte))) : res Ledger :=
  if len path =? 0 then Ok emptyLedger
  else
    let? r := read in
    match r with
    | None => Ok emptyLedger
    | Some data => loadLedger data
    end.

Definition NewServer (c : Config) (read : res (option (list byte))) : res Server :=
  let c := fillDefaults c in
  let? l := load (StatePath c) read in
  Ok (mkServer c 0 ∅ ZeroHash [] l ∅ [] 0 false (match read with Ok f => f | _ => None end)).

End Load.

(** ** The split of a reward *)

(** What a block of the pool's leaves to share out. *)
Definition potOf (c : Config) (height minerFees : Z) : Z :=
  let pot := BlockRewardAt height + minerFees in
  let pot := if 0 <? FeeBps c then pot - pot * FeeBps c / 10000 else pot in
  let pot := pot - payoutGasReserve in
  if pot <? 0 then 0 else pot.

(** [new(big.Int).SetUint64(v)] *)
Definition SetUint64 (v : Z) : Z := u64 v.

(** The shares counted, newest first: the sum of their work, and the work of each address. *)
Fixpoint pplnsWalk (window : Z) (newest : list share) (total : Z) (perAddr : gmap Address Z) : Z * gmap Address Z :=
  match newest with
  | [] => (total, perAddr)
  | sh :: rest =>
      if total <? window
      then
        let d := SetUint64 (sh_diff sh) in
        pplnsWalk window rest (total + d) (<[sh_addr sh := default 0 (perAddr !! sh_addr sh) + d]> perAddr)
      else (total, perAddr)
  end.

Definition pplns (c : Config) (shares : list share) (pot blockDiff : Z) : gmap Address Z :=
  let (total, perAddr) := pplnsWalk (SetUint64 blockDiff * SetUint64 (WindowFactor c)) (rev shares) 0 ∅ in
  if Z.sgn total =? 0 then ∅
  else omap (fun d => let amt := pot * d / total in if 0 <? Z.sgn amt then Some amt else None) perAddr.

(** The credit of a matured block. *)
Definition creditAll (bals payouts : gmap Address Z) : gmap Address Z := union_with (fun a b => Some (a + b)) bals payouts.

Section Pool.
Context `{Crypto} `{Bn256} {D : Type} `{KV D} (env : Env D).

(** The pool's key, the coinbase of its producer, what sends a transaction to the peers, and the order of a
    walk over the balances. *)
Context (key : privKey) (coinbase : Address) (broadcast : option (nat -> Transaction -> res unit))
  (walkBalances : nat -> gmap Address Z -> list Address).

Abbreviation pact A := (act D Server A).

Definition modify (f : Server -> Server) : pact unit := on_own (fun s => (f s, tt)).

(** The file is replaced, or stays as it was. *)
Definition saveLocked : pact unit := fun n =>
  let k := tick n in
  let s := own n in
  let s := if (len (StatePath (cfg s)) =? 0) || negb (journalOK env k) then s else with_file (Some (ledgerText (ledger s))) s in
  (mkNode s (shared n) (1 + k)%nat (events n), Returns tt).

(** ** Templates *)

Definition shareDiffOf (c : Config) (difficulty : Z) : Z :=
  let d := difficulty / ShareDiffDivisor c in
  let d := if d <? MinShareDiff c then MinShareDiff c else d in
  if difficulty <? d then difficulty else d.

Definition workOf (id : Hash) (hdr : Header) (shareDiff shareTarget : Z) : json :=
  JObj [(str "difficulty", enc (uintC 64) (Difficulty hdr)); (str "header", enc headerC hdr);
        (str "height", enc (uintC 64) (Height hdr)); (str "shareDiff", enc (uintC 64) shareDiff);
        (str "shareTarget", JStr ([x30; x78] ++ text16 shareTarget)); (str "workId", JStr (Hash_Hex id))].

Definition newTemplate (c : Config) (blk : Block) (fees now : Z) : template :=
  let hdr := b_Header blk in
  let shareDiff := shareDiffOf c (Difficulty hdr) in
  let id := Header_Hash hdr in
  let target := PowTarget shareDiff in
  mkTemplate id hdr (b_Txs blk) fees shareDiff target (PowTarget (Difficulty hdr))
    (print (workOf id hdr shareDiff target)) now (ParentHash hdr) ∅.

Definition addTemplate (t : template) (s : Server) : Server :=
  let m := if 64 <=? Z.of_nat (size (templates s)) then ∅ else templates s in
  with_templates (<[t_id t := t]> m) (t_id t) s.

Definition rebuildLocked (headMoved : bool) : pact unit :=
  let@ _ := if headMoved then modify (fun s => with_templates ∅ (current s) s) else act_ret tt in
  let@ r := attempt (buildUnsealed env coinbase) in
  match r with
  | inl _ => act_ret tt
  | inr (blk, fees) =>
      let@ now := ask (fun k => Returns (clock env k)) in
      modify (fun s => addTemplate (newTemplate (cfg s) blk fees now) s)
  end.

(** ** Shares *)

Definition setTemplate (id : Hash) (t : template) (s : Server) : Server := with_templates (<[id := t]> (templates s)) (current s) s.

(** The header with the nonce to check. *)
Definition tryNonce (nonce : Z) (t : template) : template :=
  mkTemplate (t_id t) (with_nonce nonce (t_hdr t)) (t_txs t) (t_minerFees t) (t_shareDiff t) (t_shareTarget t)
    (t_blockTarget t) (t_workJSON t) (t_built t) (t_parent t) (t_seen t).

Definition markSeen (nonce : Z) (t : template) : template :=
  mkTemplate (t_id t) (t_hdr t) (t_txs t) (t_minerFees t) (t_shareDiff t) (t_shareTarget t)
    (t_blockTarget t) (t_workJSON t) (t_built t) (t_parent t) ({[nonce]} ∪ t_seen t).

(** Workers not seen for an hour leave the map once it is large. *)
Definition noteSeen (addr : Address) (now : Z) (m : gmap Address Z) : gmap Address Z :=
  let m := <[addr := now]> m in
  if 10000 <? Z.of_nat (size m) then filter (fun p => ~ (seconds 3600 < now - snd p)) m else m.

Definition creditShare (id : Hash) (nonce : Z) (addr : Address) (now : Z) (t : template) (s : Server) : Server :=
  let s := setTemplate id (markSeen nonce t) s in
  let l := ledger s in
  with_ledger (mkLedger (pending l) (balances l) (u64 (totalShares l + 1)) (totalBlocks l) (totalOrphans l) (totalPaid l))
    (with_traffic (lastN maxRing (ring s ++ [mkShare addr (t_shareDiff t)])) (noteSeen addr now (lastSeen s))
       (lastN 10000 (recent s ++ [mkRecent now (t_shareDiff t)])) s).

Definition recordBlock (hdr : Header) (minerFees : Z) (s : Server) : Server :=
  let pot := potOf (cfg s) (Height hdr) minerFees in
  let fb := mkFound (Height hdr) (Header_Hash hdr) (pplns (cfg s) (ring s) pot (Difficulty hdr)) in
  let l := ledger s in
  with_ledger (mkLedger (pending l ++ [fb]) (balances l) (totalShares l) (u64 (totalBlocks l + 1)) (totalOrphans l) (totalPaid l)) s.

(** The header committed is a copy made through JSON, which later shares do not touch. *)
Definition commitBlock (t : template) : pact bool :=
  match decodeJSON headerC (encodeJSON headerC (t_hdr t)) with
  | Ok clone =>
      let@ r := attempt (Commit env won (mkBlock clone (t_txs t))) in
      match r with
      | inl _ => act_ret false
      | inr _ =>
          let@ _ := modify (recordBlock clone (t_minerFees t)) in
          let@ _ := saveLocked in
          let@ _ := rebuildLocked true in
          act_ret true
      end
  | _ => act_fail ErrJSON
  end.

Definition handleShare (workID : Hash) (nonce : Z) (addr : Address) : pact bool :=
  let@ s := get_own in
  match templates s !! workID with
  | None => act_fail ErrStale
  | Some t =>
      if decide (nonce ∈ t_seen t) then act_fail ErrDuplicate
      else
        let t := tryNonce nonce t in
        let@ _ := modify (setTemplate workID t) in
        let val := be2z (abytes (Header_Hash (t_hdr t))) in
        if t_shareTarget t <? val then act_fail ErrBadShare
        else
          let@ now := ask (fun k => Returns (clock env k)) in
          let@ _ := modify (creditShare workID nonce addr now t) in
          if t_blockTarget t <? val then act_ret false
          else commitBlock t
  end.

(** ** Maturity *)

Definition creditBlock (fb : foundBlock) (l : Ledger) : Ledger :=
  mkLedger (pending l) (creditAll (balances l) (fb_Payouts fb)) (totalShares l) (totalBlocks l) (totalOrphans l) (totalPaid l).

Definition orphanBlock (l : Ledger) : Ledger :=
  mkLedger (pending l) (balances l) (totalShares l) (totalBlocks l) (u64 (totalOrphans l + 1)) (totalPaid l).

(** The blocks kept, and whether one left. *)
Fixpoint matureEach (headHeight : Z) (fbs kept : list foundBlock) (changed : bool) : pact (list foundBlock * bool) :=
  match fbs with
  | [] => act_ret (kept, changed)
  | fb :: fbs =>
      let@ s := get_own in
      if headHeight <? u64 (fb_Height fb + Confirmations (cfg s)) then matureEach headHeight fbs (kept ++ [fb]) changed
      else
        let@ r := attempt (on_chain env (fun _ => BlockByHeight (fb_Height fb))) in
        let canonical := match r with inr b => array_eqb (Block_Hash b) (fb_Hash fb) | inl _ => false end in
        let@ _ := modify (fun s => with_ledger ((if canonical then creditBlock fb else orphanBlock) (ledger s)) s) in
        matureEach headHeight fbs kept true
  end.

Definition matureLocked (headHeight : Z) : pact unit :=
  let@ s := get_own in
  match pending (ledger s) with
  | [] => act_ret tt
  | fbs =>
      let@ (kept, changed) := matureEach headHeight fbs [] false in
      let@ _ := modify (fun s => with_ledger (with_pending kept (ledger s)) s) in
      if changed then saveLocked else act_ret tt
  end.

(** ** Payouts *)

Definition payoutTx (chain nonce : Z) (addr : Address) (amount : Z) : Transaction :=
  mkTx TxTypeTransfer chain nonce (Some addr) (Some amount) 21000 (Some 1) [] [].

(** The balance of [addr] was sent: it leaves the ledger. *)
Definition settle (addr : Address) (amount : Z) (s : Server) : Server :=
  let l := ledger s in
  with_wallet (u64 (nextNonce s + 1)) (nonceInit s)
    (with_ledger (mkLedger (pending l) (delete addr (balances l)) (totalShares l) (totalBlocks l) (totalOrphans l) (totalPaid l + amount)) s).

(** Whether the payout was sent; a refusal leaves the balance for the next turn. *)
Definition payOne (snap : State) (addr : Address) (amount : Z) : pact bool :=
  let@ s := get_own in
  let@ id := look env (fun s => Ok (chainID (chain s))) in
  match tx_Sign (payoutTx id (nextNonce s) addr amount) key with
  | Ok tx =>
      let@ c := attempt (act_res (CheckState snap tx)) in
      match c with
      | inl _ => act_ret false
      | inr _ =>
          let@ r := attempt (poolAdd env tx) in
          match r with
          | inl _ => act_ret false
          | inr _ =>
              let@ _ := match broadcast with
                        | Some send => attempt (ask (fun k => match send k tx with Ok _ => Returns tt | Err e => Raises e | Panic => Panics end))
                        | None => act_ret (inr tt)
                        end in
              let@ _ := modify (settle addr amount) in
              act_ret true
          end
      end
  | Err _ => act_ret false
  | Panic => act_panic
  end.

Fixpoint payoutEach (snap : State) (addrs : list Address) (changed : bool) : pact bool :=
  match addrs with
  | [] => act_ret changed
  | addr :: addrs =>
      let@ s := get_own in
      let bal := default 0 (balances (ledger s) !! addr) in
      if bal <? default 0 (PayoutMin (cfg s)) then payoutEach snap addrs changed
      else
        let@ paid := payOne snap addr bal in
        payoutEach snap addrs (changed || paid)
  end.

Definition syncNonce (committed : Z) (s : Server) : Server :=
  if negb (nonceInit s) || (nextNonce s <? committed) then with_wallet committed true s else s.

Definition payoutLocked : pact unit :=
  let@ snap := look env (fun s => StateSnapshot (chain s)) in
  let@ _ := modify (syncNonce (State_Nonce snap (PrivateKey_Address key))) in
  let@ s := get_own in
  let@ k := ask (fun k => Returns k) in
  let@ changed := payoutEach snap (walkBalances k (balances (ledger s))) false in
  if changed then saveLocked else act_ret tt.

(** ** The engine *)

Definition poolTick : pact unit :=
  let@ head := look env (fun s => Ok (Head (chain s))) in
  let@ _ := matureLocked (Block_Height head) in
  let@ _ := payoutLocked in
  let@ s := get_own in
  match templates s !! current s with
  | None => rebuildLocked true
  | Some cur =>
      if negb (array_eqb (t_parent cur) (Block_Hash head)) then rebuildLocked true
      else
        let@ now := ask (fun k => Returns (clock env k)) in
        if RefreshInterval (cfg s) <=? now - t_built cur then rebuildLocked false else act_ret tt
  end.

End Pool.
