(* ===== verification/PoolHttp.v ===== *)
(** * The pool's endpoints and its workers (pool/http.go, pool/worker.go)

    A worker fetches the current template as JSON, searches it for a nonce that
    meets the share target, and posts the nonce with its address.  It keeps
    nothing but the template it works on and where its search stands. *)
From stdpp Require Import base numbers list gmap.
From Stdlib Require Import ZArith Lia Strings.Byte.
From Stdlib Require Strings.String.
Import Strings.String.StringSyntax.
From S2P Require Import Prelude Common Types VmBase Precompiles Vm State Transition Pow Producer Json JsonCodec Store Schema Wire Mempool.
From S2P Require Import Blockchain Scorer P2p Mining Pool.
#[local] Open Scope Z_scope.
#[local] Open Scope list_scope.
#[local] Open Scope act_scope.

#[local] Notation "'let*' x ':=' o 'in' k" := (mbind (fun x => k) o) (at level 10, x name, o at level 200, k at level 200).

(** ** The messages *)

Record shareRequest : Type := mkShareRequest { sq_WorkID : list byte; sq_Nonce : Z; sq_Address : list byte }.

(** The worker writes its keys in alphabetical order (a map), the server reads a struct. *)
Definition shareRequestC : codec shareRequest := structC (mkShareRequest [] 0 [])
  (fun q => [(str "address", enc stringC (sq_Address q)); (str "nonce", enc (uintC 64) (sq_Nonce q));
             (str "workId", enc stringC (sq_WorkID q))])
  (fun ms cur =>
     let* id := field stringC (str "workId") ms (sq_WorkID cur) in
     let* nonce := field (uintC 64) (str "nonce") ms (sq_Nonce cur) in
     let* addr := field stringC (str "address") ms (sq_Address cur) in
     Some (mkShareRequest id nonce addr)).

Record workResp : Type := mkWorkResp {
  wr_WorkID : list byte;
  wr_Header : option json;
  wr_ShareTarget : list byte;
  wr_ShareDiff : Z;
  wr_Difficulty : Z;
  wr_Height : Z;
}.

(** What [rebuildLocked] writes and [fetchWork] reads. *)
Definition workRespC : codec workResp := structC (mkWorkResp [] None [] 0 0 0)
  (fun w => [(str "difficulty", enc (uintC 64) (wr_Difficulty w)); (str "header", enc rawC (wr_Header w));
             (str "height", enc (uintC 64) (wr_Height w)); (str "shareDiff", enc (uintC 64) (wr_ShareDiff w));
             (str "shareTarget", enc stringC (wr_ShareTarget w)); (str "workId", enc stringC (wr_WorkID w))])
  (fun ms cur =>
     let* id := field stringC (str "workId") ms (wr_WorkID cur) in
     let* header := field rawC (str "header") ms (wr_Header cur) in
     let* target := field stringC (str "shareTarget") ms (wr_ShareTarget cur) in
     let* shareDiff := field (uintC 64) (str "shareDiff") ms (wr_ShareDiff cur) in
     let* diff := field (uintC 64) (str "difficulty") ms (wr_Difficulty cur) in
     let* height := field (uintC 64) (str "height") ms (wr_Height cur) in
     Some (mkWorkResp id header target shareDiff diff height)).

Definition submitRespC : codec bool := structC false
  (fun b => [(str "block", enc boolC b); (str "ok", JBool true)])
  (fun ms cur => field boolC (str "block") ms cur).

(** ** The server's endpoints *)

Section Endpoints.
Context `{Crypto} `{Bn256} {D : Type} `{KV D} (env : Env D) (key : privKey) (coinbase : Address).

Abbreviation pact A := (act D Server A).

Definition serveWork (m : method) : pact response :=
  if negb (bool_decide (m = GET)) then act_ret (httpError (str "GET only") 405)
  else
    let@ s := get_own in
    act_ret (match templates s !! current s with
             | Some t => mkResponse 200 (t_workJSON t)
             | None => httpError (str "no work yet — pool is starting") 503
             end).

(** A panic of the handler is not caught here. *)
Definition serveShare (m : method) (data : list byte) : pact response :=
  if negb (bool_decide (m = POST)) then act_ret (httpError (str "POST only") 405)
  else
    match decodeStream shareRequestC (take 4096 data) with
    | None => act_ret (httpError (str "bad request") 400)
    | Some req =>
        match HashFromHex (sq_WorkID req) with
        | Ok workID =>
            match AddressFromHex (sq_Address req) with
            | Ok addr =>
                let@ r := attempt (handleShare env coinbase workID (sq_Nonce req) addr) in
                act_ret (match r with
                         | inl ErrStale => httpError (str "stale work — fetch new work") 410
                         | inl ErrDuplicate => httpError (str "duplicate share") 409
                         | inl ErrBadShare => httpError (str "share does not meet the target") 400
                         | inl _ => httpError (str "internal error") 500
                         | inr isBlock => httpJSON (enc submitRespC isBlock)
                         end)
            | _ => act_ret (httpError (str "bad address") 400)
            end
        | _ => act_ret (httpError (str "bad workId") 400)
        end
    end.

(** The workers seen in the last ten minutes, and the work of the shares of the last two. *)
Definition minersActive (s : Server) (now : Z) : Z :=
  Z.of_nat (size (filter (fun p => now - snd p < seconds 600) (lastSeen s))).

Definition recentWork (s : Server) (now : Z) : Z :=
  fold_left (fun work rs => if now - rs_at rs <? seconds 120 then u64 (work + rs_diff rs) else work) (recent s) 0.

Definition statsOf (s : Server) (now : Z) : json :=
  let l := ledger s in
  let '(shareDiff, height) := match templates s !! current s with
                              | Some t => (t_shareDiff t, Height (t_hdr t))
                              | None => (0, 0)
                              end in
  JObj [(str "balancesOwed", JNum (itoa (Z.of_nat (size (balances l))))); (str "blocksFound", JNum (itoa (totalBlocks l)));
        (str "blocksOrphan", JNum (itoa (totalOrphans l))); (str "confirmations", JNum (itoa (Confirmations (cfg s))));
        (str "feeBps", JNum (itoa (FeeBps (cfg s)))); (str "hashrate", JNum (itoa (recentWork s now / 120)));
        (str "minersActive", JNum (itoa (minersActive s now))); (str "nextHeight", JNum (itoa height));
        (str "pendingBlocks", JNum (itoa (len (pending l)))); (str "poolAddress", JStr (Address_Hex (PrivateKey_Address key)));
        (str "shareDiff", JNum (itoa shareDiff)); (str "totalPaidWei", JStr (itoa (totalPaid l)));
        (str "totalShares", JNum (itoa (totalShares l)))].

Definition serveStats (m : method) : pact response :=
  if negb (bool_decide (m = GET)) then act_ret (httpError (str "GET only") 405)
  else
    let@ s := get_own in
    let@ now := ask (fun k => Returns (clock env k)) in
    act_ret (httpJSON (statsOf s now)).

(** The mux under [withCORS], whose preflight answer needs no handler. *)
Definition Handler (m : method) (path data : list byte) : pact response :=
  if bool_decide (m = OPTIONS) then act_ret (mkResponse 204 [])
  else if bool_decide (path = str "/pool/work") then serveWork m
  else if bool_decide (path = str "/pool/share") then serveShare m data
  else if bool_decide (path = str "/pool/stats") then serveStats m
  else act_ret (httpError (str "404 page not found") 404).

End Endpoints.

(** ** The worker *)

Record Worker : Type := mkWorker {
  w_cur : workResp;
  w_hdr : headerObj;
  w_target : Z;
  w_next : Z;
  w_shares : Z;
}.

Definition newWorker : Worker := mkWorker (mkWorkResp [] None [] 0 0 0) (mkHeaderObj zeroHeader None) 0 0 0.

#[local] Open Scope go_scope.

(** [fetchWork] on the transport's answer. *)
Definition fetchWork (answer : res response) : res workResp :=
  let? r := answer in
  let body := take (Z.to_nat (Z.shiftl 1 20)) (body r) in
  if negb (status r =? 200) then Err ErrPoolStatus
  else decodeJSON workRespC body.

(** The part of [Run] that takes a template up; [None]: it was malformed. *)
Definition takeWork (fresh : workResp) (rand : Z) (w : Worker) : option Worker :=
  if bool_decide (wr_WorkID fresh = wr_WorkID (w_cur w)) then Some w
  else
    match unmarshalRaw headerC (wr_Header fresh) with
    | None => None
    | Some h =>
        match setString16 (trim0x (wr_ShareTarget fresh)) with
        | None => None
        | Some t => Some (mkWorker fresh (mkHeaderObj h None) t rand (w_shares w))
        end
    end.

Definition submitBody (workID : list byte) (nonce : Z) (addr : list byte) : list byte :=
  encodeJSON shareRequestC (mkShareRequest workID nonce addr).

(** [submitShare] on the transport's answer; what cannot be read counts as no block. *)
Definition readSubmit (answer : res response) : res bool :=
  let? r := answer in
  let body := take 4096 (body r) in
  if negb (status r =? 200) then Err ErrPoolStatus
  else Ok (match decodeJSON submitRespC body with Ok b => b | _ => false end).

(** One round of [Run]: the template, a slice of search that [stop] ends, and the share if one was found.
    [None]: still searching when the fuel ends. *)
Definition workerRound `{Crypto} (answer : res response) (rand : Z) (fuel : nat) (stop : nat -> bool)
    (coinbase : list byte) (submit : list byte -> res response) (w : Worker) : option Worker :=
  match fetchWork answer with
  | Ok fresh =>
      match takeWork fresh rand w with
      | None => Some w
      | Some w =>
          match Grind fuel (w_hdr w) (w_target w) (w_next w) stop with
          | None => None
          | Some (nonce, false, o) => Some (mkWorker (w_cur w) o (w_target w) nonce (w_shares w))
          | Some (nonce, true, o) =>
              let shares := match readSubmit (submit (submitBody (wr_WorkID (w_cur w)) nonce coinbase)) with
                            | Ok _ => u64 (w_shares w + 1)
                            | _ => w_shares w
                            end in
              Some (mkWorker (w_cur w) o (w_target w) (u64 (nonce + 1)) shares)
          end
      end
  | _ => Some w
  end.
