(* ===== verification/PoolProofs.v ===== *)
(** * The pool: sums, shares and the ledger

    Sums of amounts over a map, what the walk over the shares counts, and how
    each handler moves the ledger. *)
From stdpp Require Import base numbers list gmap.
From Stdlib Require Import ZArith Lia Strings.Byte.
From S2P Require Import Prelude Common Types VmBase Precompiles Vm State Transition Pow Producer Json JsonCodec JsonWide Store Schema SchemaProofs Wire Mempool.
From S2P Require Import Blockchain Scorer P2p P2pProofs Mining Pool.
#[local] Open Scope Z_scope.
#[local] Open Scope list_scope.

(** ** Sums of amounts *)

Definition sumAmounts (m : gmap Address Z) : Z := map_fold (fun _ v acc => acc + v) 0 m.

Lemma sum_empty : sumAmounts ∅ = 0.
Proof. done. Qed.

Lemma sum_insert_fresh (m : gmap Address Z) a v : m !! a = None -> sumAmounts (<[a := v]> m) = sumAmounts m + v.
Proof. intros Hm. unfold sumAmounts. rewrite map_fold_insert_L; [done| |done]. intros. lia. Qed.

Lemma sum_delete (m : gmap Address Z) a : sumAmounts (delete a m) = sumAmounts m - default 0 (m !! a).
Proof.
  destruct (m !! a) as [v|] eqn:Hm; cbn; [|rewrite delete_id by done; lia].
  rewrite <- (insert_delete_id m a v Hm) at 2. rewrite sum_insert_fresh by apply lookup_delete_eq. lia.
Qed.

Lemma sum_insert (m : gmap Address Z) a v : sumAmounts (<[a := v]> m) = sumAmounts m - default 0 (m !! a) + v.
Proof. rewrite <- insert_delete_eq, sum_insert_fresh by apply lookup_delete_eq. by rewrite sum_delete. Qed.

Lemma sum_creditAll (m p : gmap Address Z) : sumAmounts (creditAll m p) = sumAmounts m + sumAmounts p.
Proof.
  revert m. induction p as [|a v p Hp IH] using map_ind; intros m.
  - unfold creditAll. rewrite right_id by apply _. rewrite sum_empty. lia.
  - assert (creditAll m (<[a := v]> p) = <[a := default 0 (m !! a) + v]> (creditAll m p)) as ->.
    { apply map_eq. intros b. unfold creditAll. destruct (decide (b = a)) as [->|Hne].
      - rewrite lookup_union_with, !lookup_insert_eq. by destruct (m !! a).
      - by rewrite lookup_insert_ne, !lookup_union_with, lookup_insert_ne by done. }
    rewrite sum_insert, IH, sum_insert_fresh by done. unfold creditAll. rewrite lookup_union_with, Hp.
    destruct (m !! a); cbn; lia.
Qed.

Lemma creditAll_lookup (m p : gmap Address Z) a : default 0 (creditAll m p !! a) = default 0 (m !! a) + default 0 (p !! a).
Proof. unfold creditAll. rewrite lookup_union_with. destruct (m !! a), (p !! a); cbn; lia. Qed.

Definition nonneg (m : gmap Address Z) : Prop := forall a v, m !! a = Some v -> 0 <= v.

Lemma sum_nonneg (m : gmap Address Z) : nonneg m -> 0 <= sumAmounts m.
Proof.
  induction m as [|a v m Hm IH] using map_ind; intros Hn; [by rewrite sum_empty|]. rewrite sum_insert_fresh by done.
  pose proof (Hn a v (lookup_insert_eq _ _ _)). assert (nonneg m); [|specialize (IH ltac:(done)); lia].
  intros b w Hb. apply (Hn b w). rewrite lookup_insert_ne; [done|]. intros ->. congruence.
Qed.

(** ** The shares counted *)

Definition work (l : list share) : Z := foldr (fun sh acc => SetUint64 (sh_diff sh) + acc) 0 l.

Definition workBy (a : Address) (l : list share) : Z :=
  foldr (fun sh acc => (if decide (sh_addr sh = a) then SetUint64 (sh_diff sh) else 0) + acc) 0 l.

Lemma work_app l k : work (l ++ k) = work l + work k.
Proof. induction l as [|sh l IH]; cbn; [done|]. fold (work (l ++ k)). fold (work l). lia. Qed.

Lemma workBy_app a l k : workBy a (l ++ k) = workBy a l + workBy a k.
Proof. induction l as [|sh l IH]; [done|]. cbn. fold (workBy a (l ++ k)). fold (workBy a l). lia. Qed.

Lemma work_rev l : work (rev l) = work l.
Proof. induction l as [|sh l IH]; [done|]. cbn [rev]. rewrite work_app, IH. cbn. fold (work l). lia. Qed.

Lemma workBy_rev a l : workBy a (rev l) = workBy a l.
Proof. induction l as [|sh l IH]; [done|]. cbn [rev]. rewrite workBy_app, IH. cbn. fold (workBy a l). lia. Qed.

(** No share counted. *)
Lemma pplnsWalk_none total (per : gmap Address Z) :
  (total, per) = (total + work [], per) /\ (forall a, default 0 (per !! a) = default 0 (per !! a) + workBy a [])
  /\ sumAmounts per = sumAmounts per + work [] /\ Z.of_nat (size per) <= Z.of_nat (size per) + len (@nil share)
  /\ forall window u sh, [] = u ++ [sh] -> total + work u < window.
Proof. cbn. split_and!; [f_equal; lia|intros; lia|lia|unfold len; cbn; lia|]. by intros ? [|]. Qed.

Lemma pplnsWalk_spec window l total per : exists used rest per',
  l = used ++ rest /\ pplnsWalk window l total per = (total + work used, per')
  /\ (forall a, default 0 (per' !! a) = default 0 (per !! a) + workBy a used)
  /\ sumAmounts per' = sumAmounts per + work used
  /\ (Z.of_nat (size per') <= Z.of_nat (size per) + len used)
  /\ (rest = [] \/ window <= total + work used)
  /\ (forall u sh, used = u ++ [sh] -> total + work u < window).
Proof.
  revert total per. induction l as [|sh l IH]; intros total per; cbn [pplnsWalk].
  { destruct (pplnsWalk_none total per) as (? & ? & ? & ? & ?). exists [], [], per. split_and!; eauto. }
  destruct (Z.ltb_spec total window) as [Hw|Hw].
  - cbv zeta. destruct (IH (total + SetUint64 (sh_diff sh)) (<[sh_addr sh := default 0 (per !! sh_addr sh) + SetUint64 (sh_diff sh)]> per))
      as (used & rest & per' & -> & -> & Hl & Hs & Hz & Hr & Hu).
    exists (sh :: used), rest, per'. split_and!.
    + done.
    + cbn. fold (work used). f_equal. lia.
    + intros a. rewrite Hl. cbn. fold (workBy a used). destruct (decide (sh_addr sh = a)) as [->|Hne].
      * rewrite lookup_insert_eq. cbn. lia.
      * rewrite lookup_insert_ne by done. lia.
    + rewrite Hs, sum_insert. cbn. fold (work used). lia.
    + rewrite len_cons. rewrite map_size_insert in Hz. destruct (per !! sh_addr sh); unfold id in Hz; lia.
    + cbn. fold (work used). destruct Hr as [->|Hr]; [by left|right; lia].
    + intros [|sh' u] sh0 E; [by cbn; lia|]. injection E as <- E. specialize (Hu u sh0 E). cbn. fold (work u). lia.
  - destruct (pplnsWalk_none total per) as (? & ? & ? & ? & ?). exists [], (sh :: l), per. split_and!; eauto. right. cbn. lia.
Qed.

(** Shares of a whole, rounded down: no more than the whole, and short by less than one for each. *)
Lemma sum_shares (per : gmap Address Z) pot total : 0 < total -> 0 <= pot -> nonneg per ->
  let out := omap (fun d => let amt := pot * d / total in if 0 <? Z.sgn amt then Some amt else None) per in
  sumAmounts out * total <= pot * sumAmounts per /\ pot * sumAmounts per - Z.of_nat (size per) * (total - 1) <= sumAmounts out * total.
Proof.
  intros Ht Hp. induction per as [|a d per Hd IH] using map_ind; intros Hn; cbv zeta in *; [rewrite omap_empty, !sum_empty, map_size_empty; lia|].
  assert (nonneg per) as Hn'.
  { intros b w Hb. apply (Hn b w). rewrite lookup_insert_ne; [done|]. intros ->. congruence. }
  specialize (IH Hn'). specialize (Hn a d (lookup_insert_eq _ _ _)). cbv zeta in *.
  rewrite map_size_insert_None by done. rewrite (sum_insert_fresh per) by done. rewrite omap_insert.
  set (out := omap _ per) in *. assert (out !! a = None) as Ho by (unfold out; by rewrite lookup_omap, Hd).
  pose proof (Z.div_mod (pot * d) total ltac:(lia)). pose proof (Z.mod_pos_bound (pot * d) total Ht).
  assert (0 <= pot * d / total) by (apply Z.div_pos; nia).
  destruct (Z.ltb_spec 0 (Z.sgn (pot * d / total))).
  - rewrite sum_insert_fresh by done. nia.
  - rewrite delete_id by done. assert (pot * d / total = 0) by (destruct (Z.sgn_spec (pot * d / total)) as [[]|[[]|[]]]; lia). nia.
Qed.

Lemma SetUint64_nonneg v : 0 <= SetUint64 v.
Proof. unfold SetUint64, u64. apply Z.mod_pos_bound. lia. Qed.

Lemma work_nonneg l : 0 <= work l.
Proof. induction l as [|sh l IH]; cbn; [lia|]. fold (work l). pose proof (SetUint64_nonneg (sh_diff sh)). lia. Qed.

Lemma workBy_nonneg a l : 0 <= workBy a l.
Proof. induction l as [|sh l IH]; cbn; [lia|]. fold (workBy a l). pose proof (SetUint64_nonneg (sh_diff sh)). destruct (decide _); lia. Qed.

(** The split: the newest shares up to the window, each address its part of the pot, rounded down. *)
Record split_of (c : Config) (shares : list share) (pot diff : Z) (used older : list share) (out : gmap Address Z) : Prop := {
  so_shares : shares = older ++ used;
  so_window : older = [] \/ SetUint64 diff * SetUint64 (WindowFactor c) <= work used;
  so_least : forall sh rest, used = sh :: rest -> work rest < SetUint64 diff * SetUint64 (WindowFactor c);
  so_amount : forall a, out !! a = let amt := pot * workBy a used / work used in if 0 <? amt then Some amt else None;
  so_total : sumAmounts out <= pot;
  so_dust : 0 < work used -> pot < sumAmounts out + len used;
}.

Lemma pplns_lemma c shares pot diff : 0 <= pot -> exists used older, split_of c shares pot diff used older (pplns c shares pot diff).
Proof.
  intros Hp. unfold pplns. set (window := SetUint64 diff * SetUint64 (WindowFactor c)).
  destruct (pplnsWalk_spec window (rev shares) 0 ∅) as (used & rest & per & El & -> & Hl & Hs & Hz & Hr & Hu).
  exists (rev used), (rev rest). rewrite sum_empty in Hs. rewrite ?Z.add_0_l in *.
  assert (forall a, default 0 (per !! a) = workBy a used) as Hl' by (intros a; by rewrite Hl, lookup_empty).
  assert (nonneg per) as Hn by (intros a v Ha; pose proof (workBy_nonneg a used); rewrite <- Hl', Ha in *; done).
  pose proof (work_nonneg used) as Hw. split; rewrite ?work_rev.
  - by rewrite <- rev_app_distr, <- El, rev_involutive.
  - destruct Hr as [->|Hr]; [by left|right; done].
  - intros sh t E. rewrite <- work_rev. apply (Hu (rev t) sh). by rewrite <- (rev_involutive used), E.
  - intros a. rewrite workBy_rev, <- Hl'. destruct (Z.eqb_spec (Z.sgn (work used)) 0) as [E0|E0].
    + assert (work used = 0) as -> by lia. by rewrite Z.div_0_r.
    + cbn match. rewrite lookup_omap. destruct (per !! a) as [d|]; cbn -[Z.div Z.mul Z.ltb]; [|by rewrite Z.mul_0_r].
      assert ((0 <? Z.sgn (pot * d / work used)) = (0 <? pot * d / work used)) as -> by (destruct (Z.ltb_spec 0 (pot * d / work used)), (Z.ltb_spec 0 (Z.sgn (pot * d / work used))); lia). done.
  - destruct (Z.eqb_spec (Z.sgn (work used)) 0) as [E0|E0]; cbn match; [by rewrite sum_empty|].
    pose proof (sum_shares per pot (work used) ltac:(lia) Hp Hn) as [Hle _]. cbv zeta in Hle. rewrite Hs in Hle. nia.
  - intros Hw0. unfold len in *. rewrite length_rev. destruct (Z.eqb_spec (Z.sgn (work used)) 0) as [E0|E0]; [lia|]; cbn match.
    pose proof (sum_shares per pot (work used) ltac:(lia) Hp Hn) as [_ Hge]. cbv zeta in Hge. rewrite Hs in Hge.
    rewrite ?map_size_empty in Hz.
    assert (1 <= Z.of_nat (length used)) by (destruct used; [by cbn in Hw0|cbn; lia]).
    set (W := work used) in *. set (N := Z.of_nat (length used)) in *. set (K := Z.of_nat (size per)) in *.
    assert (K * (W - 1) <= N * (W - 1)) by nia. apply Z.nle_gt. intros Hc. nia.
Qed.

(** ** The ledger *)

Definition owedFor (fbs : list foundBlock) : Z := foldr (fun fb acc => sumAmounts (fb_Payouts fb) + acc) 0 fbs.

(** All that was ever promised: what is owed, what will be, and what was paid. *)
Definition debt (l : Ledger) : Z := sumAmounts (balances l) + owedFor (pending l) + totalPaid l.

Record ledger_ok (l : Ledger) : Prop := {
  lo_balances : nonneg (balances l);
  lo_pending : Forall (fun fb => nonneg (fb_Payouts fb)) (pending l);
}.

(** The part of the ledger that is money. *)
Definition money (l : Ledger) : list foundBlock * gmap Address Z * Z := (pending l, balances l, totalPaid l).

Lemma debt_money l l' : money l' = money l -> debt l' = debt l.
Proof. unfold money, debt. by intros [= -> -> ->]. Qed.

Lemma ok_money l l' : money l' = money l -> ledger_ok l -> ledger_ok l'.
Proof. unfold money. intros [= E1 E2 _] [H1 H2]. split; [by rewrite E2|by rewrite E1]. Qed.

Lemma owedFor_app l k : owedFor (l ++ k) = owedFor l + owedFor k.
Proof. induction l as [|fb l IH]; [done|]. cbn. fold (owedFor (l ++ k)). fold (owedFor l). lia. Qed.

Lemma potOf_nonneg c h f : 0 <= potOf c h f.
Proof. unfold potOf. destruct (_ <? 0) eqn:E; [done|]. by apply Z.ltb_ge in E. Qed.

Lemma pplns_nonneg c shares pot diff : 0 <= pot -> nonneg (pplns c shares pot diff).
Proof.
  intros Hp a v Ha. destruct (pplns_lemma c shares pot diff Hp) as (used & older & [_ _ _ Hs _ _]). rewrite Hs in Ha. cbv zeta in Ha.
  destruct (Z.ltb_spec 0 (pot * workBy a used / work used)); simplify_eq. lia.
Qed.

Lemma creditAll_nonneg m p : nonneg m -> nonneg p -> nonneg (creditAll m p).
Proof.
  intros Hm Hp a v. unfold creditAll. rewrite lookup_union_with. specialize (Hm a). specialize (Hp a).
  destruct (m !! a) as [x|], (p !! a) as [y|]; cbn; intros; simplify_eq; auto. specialize (Hm x eq_refl). specialize (Hp y eq_refl). lia.
Qed.

(** ** How the handlers move the server *)

(** The counters and the heights are 64-bit numbers. *)
Record fits (l : Ledger) : Prop := {
  ft_shares : is_u64 (totalShares l);
  ft_blocks : is_u64 (totalBlocks l);
  ft_orphans : is_u64 (totalOrphans l);
  ft_pending : Forall (fun fb => is_u64 (fb_Height fb)) (pending l);
}.

Definition sized (s s' : Server) : Prop := cfg s' = cfg s /\ (fits (ledger s) -> fits (ledger s')).

#[global] Instance sized_pre : PreOrder sized.
Proof. split; [by intros s|]. intros s s1 s2 [? ?] [? ?]. split; [congruence|auto]. Qed.

(** Nothing but templates, traffic and counters changes. *)
Definition quiet (s s' : Server) : Prop := sized s s' /\ file s' = file s /\ money (ledger s') = money (ledger s).

#[global] Instance quiet_pre : PreOrder quiet.
Proof. split; [by intros s|]. intros s s1 s2 (? & ? & ?) (? & ? & ?). split_and!; [by etransitivity|congruence..]. Qed.

(** The file holds the money of the ledger. *)
Definition durable (s : Server) : Prop := fits (ledger s) /\
  match file s with
  | Some text => exists l, text = ledgerText l /\ fits l /\ money l = money (ledger s)
  | None => money (ledger s) = money emptyLedger
  end.

Lemma quiet_durable s s' : quiet s s' -> durable s -> durable s'.
Proof. intros ([_ Hf] & Efile & Em) [Hfits Hd]. split; [auto|]. by rewrite Efile, Em. Qed.

(** No new promise. *)
Definition settles (s s' : Server) : Prop :=
  cfg s' = cfg s /\ (ledger_ok (ledger s) -> ledger_ok (ledger s') /\ debt (ledger s') <= debt (ledger s)).

#[global] Instance settles_pre : PreOrder settles.
Proof.
  split; [by intros s; split|]. intros s s1 s2 [E1 H1] [E2 H2]. split; [congruence|]. intros Hok.
  destruct (H1 Hok) as [Hok1 ?]. destruct (H2 Hok1). split; [done|lia].
Qed.

Lemma quiet_settles s s' : quiet s s' -> settles s s'.
Proof. intros ([Ec _] & _ & Em). split; [done|]. intros Hok. split; [by eapply ok_money|]. by rewrite (debt_money _ _ Em). Qed.

(** The same but for the file. *)
Definition saved (s s' : Server) : Prop := cfg s' = cfg s /\ ledger s' = ledger s.

Lemma saved_settles s s' : saved s s' -> settles s s'.
Proof. intros [Ec El]. split; [done|]. by rewrite El. Qed.

Section Moves.
Context `{Crypto} `{Bn256} {D : Type} `{KV D} (env : Env D) (key : privKey) (coinbase : Address)
  (broadcast : option (nat -> Transaction -> res unit)) (walkBalances : nat -> gmap Address Z -> list Address).

Abbreviation handleShare := (handleShare env coinbase).
Abbreviation poolTick := (poolTick env key coinbase broadcast walkBalances).

Lemma moves_modify (R : Server -> Server -> Prop) f : (forall s, R s (f s)) -> moves (D := D) R (modify f).
Proof. intros Hf. by apply moves_own. Qed.

Lemma modify_eq f (n : Node D Server) : modify f n = (mkNode (f (own n)) (shared n) (tick n) (events n), Returns tt).
Proof. done. Qed.

Lemma saveLocked_returns n : saveLocked env n = (fst (saveLocked env n), Returns tt).
Proof. done. Qed.

Lemma moves_call {A} (R : Server -> Server -> Prop) `{!PreOrder R} (r : callres error A) : moves (D := D) R (act_call r).
Proof. intros n. cbn. reflexivity. Qed.

Lemma buildUnsealed_moves R `{!PreOrder R} cb : moves R (buildUnsealed (S := Server) env cb).
Proof.
  unfold buildUnsealed, poolPending, on_chain, look. repeat (apply moves_bind; [apply _|eauto with moves|intros]; cbn beta).
  by apply moves_call.
Qed.

Lemma rebuildLocked_quiet moved : moves quiet (rebuildLocked env coinbase moved).
Proof.
  unfold rebuildLocked. apply moves_bind; [apply _| |intros []].
  { destruct moved; [by apply moves_modify|by eauto with moves]. }
  apply moves_bind; [apply _| |intros [e|[blk fees]]]; [apply moves_attempt, buildUnsealed_moves; apply _|eauto with moves typeclass_instances|].
  apply moves_bind; [apply _|by eauto with moves typeclass_instances|intros now]. by apply moves_modify.
Qed.

Lemma saveLocked_saved n : saved (own n) (own (fst (saveLocked env n))).
Proof. unfold saveLocked. cbn [own fst]. by destruct (_ || _). Qed.

Lemma insertBlock_own h txs n : own (fst (insertBlock (S := Server) env h txs n)) = own n.
Proof.
  symmetry. apply (fun P => P n : (fun s s' => s = s') (own n) (own (fst (insertBlock env h txs n)))).
  unfold insertBlock, on_chain. apply moves_bind; [apply _|apply moves_shared; apply _|intros ro].
  apply moves_bind; [apply _|apply moves_emit; apply _|intros []]. destruct ro as [r|]; [|apply moves_ret; apply _].
  intros m. unfold runHook. by destruct (BindMempool _ _ _ _ _).
Qed.

Lemma moves_insertBlock (R : Server -> Server -> Prop) `{!PreOrder R} h txs : moves R (insertBlock env h txs).
Proof. intros n. by rewrite insertBlock_own. Qed.

Lemma Commit_quiet b : moves quiet (Commit env won b).
Proof.
  unfold Commit, poolRemove. apply moves_bind; [apply _|by apply moves_insertBlock; apply _|intros []].
  apply moves_bind; [apply _|by apply moves_own|intros []].
  apply moves_bind; [apply _|apply moves_shared; apply _|intros []]. apply moves_emit; apply _.
Qed.

Lemma saveLocked_durable n : (forall k, journalOK env k = true) -> StatePath (cfg (own n)) <> [] -> fits (ledger (own n)) ->
  durable (own (fst (saveLocked env n))).
Proof.
  intros Hj Hp Hf. unfold saveLocked. cbn [own fst]. rewrite Hj. destruct (StatePath (cfg (own n))) as [|b p] eqn:E; [done|].
  rewrite len_cons. pose proof (len_nonneg p). destruct (Z.eqb_spec (1 + len p) 0); [lia|]. cbn [orb negb]. split; [done|]. cbn. eauto.
Qed.

(** ** A won block *)

(** The block is promised to the shares in the ring, and is on file. *)
Record promises (t : template) (s s' : Server) (fb : foundBlock) : Prop := {
  pm_cfg : cfg s' = cfg s;
  pm_money : money (ledger s') = (pending (ledger s) ++ [fb], balances (ledger s), totalPaid (ledger s));
  pm_pot : exists shares diff, fb_Payouts fb = pplns (cfg s) shares (potOf (cfg s) (fb_Height fb) (t_minerFees t)) diff;
  pm_durable : (forall k, journalOK env k = true) -> StatePath (cfg s) <> [] -> fits (ledger s) -> durable s';
}.

Lemma recordBlock_fits hdr fees s : wf_header hdr -> fits (ledger s) -> fits (ledger (recordBlock hdr fees s)).
Proof.
  intros Hw [F1 F2 F3 F4]. split; cbn; try done.
  - unfold u64, is_u64. apply Z.mod_pos_bound. lia.
  - apply Forall_app. split; [done|]. apply Forall_singleton. cbn. apply Hw.
Qed.

Lemma commitBlock_moves t n n' r :
  commitBlock env coinbase t n = (n', r) -> quiet (own n) (own n') \/ exists fb, promises t (own n) (own n') fb.
Proof.
  unfold commitBlock. destruct (decodeJSON headerC _) as [clone|e|] eqn:Ed; [|by intros [= <- <-]; left..].
  assert (wf_header clone) as Hw by (eapply decodeJSON_wide; [apply headerC_wide|exact Ed]).
  pose proof (Commit_quiet (mkBlock clone (t_txs t)) n) as Hc. unfold act_bind at 1, attempt.
  destruct (Commit env won _ n) as [n1 [[]|e| |]]; try (by intros [= <- <-]; left). cbn [fst] in Hc.
  unfold act_bind at 1. rewrite modify_eq. set (n2 := mkNode _ _ _ _).
  unfold act_bind at 1. pose proof (saveLocked_saved n2) as Hs. pose proof (saveLocked_durable n2) as Hdur.
  rewrite saveLocked_returns. set (n3 := fst (saveLocked env n2)) in *. unfold act_bind. pose proof (rebuildLocked_quiet true n3) as Hq.
  destruct (rebuildLocked env coinbase true n3) as [n4 r4]. cbn [fst] in Hq.
  intros E. assert (n' = n4) as -> by (destruct r4; by injection E). right.
  destruct Hc as ([Ec Hf] & _ & Em), Hs as [Ecs Els]. pose proof Hq as ([Ecq _] & _ & Emq).
  exists (mkFound (Height clone) (Header_Hash clone)
            (pplns (cfg (own n1)) (ring (own n1)) (potOf (cfg (own n1)) (Height clone) (t_minerFees t)) (Difficulty clone))).
  injection Em as Ep Eb Et. split.
  - rewrite Ecq, Ecs. exact Ec.
  - rewrite Emq, Els. unfold n2. cbn. by rewrite Ep, Eb, Et.
  - rewrite Ec. by eexists _, _.
  - intros Hj Hp Hfits. eapply quiet_durable; [exact Hq|]. apply Hdur; [done|by unfold n2; cbn; rewrite Ec|].
    unfold n2. cbn [own]. apply recordBlock_fits; auto.
Qed.

Lemma promises_quiet t s s1 s' fb : quiet s s1 -> promises t s1 s' fb -> promises t s s' fb.
Proof.
  intros ([Ec Hf] & _ & [= Ep Eb Et]) [P1 P2 P3 P4]. split.
  - congruence.
  - by rewrite P2, Ep, Eb, Et.
  - by rewrite <- Ec.
  - intros Hj Hp Hfits. apply P4; [done|by rewrite Ec|auto].
Qed.

Lemma setTemplate_quiet id t s : quiet s (setTemplate id t s).
Proof. done. Qed.

Lemma creditShare_quiet id nonce a now t s : quiet s (creditShare id nonce a now t s).
Proof.
  split_and!; [|done..]. split; [done|]. intros [F1 F2 F3 F4]. split; cbn; try done.
  unfold u64, is_u64. apply Z.mod_pos_bound. lia.
Qed.

(** A share changes no money, or is a won block. *)
Lemma handleShare_moves id nonce a n n' r :
  handleShare id nonce a n = (n', r) ->
  quiet (own n) (own n') \/ exists t fb, templates (own n) !! id = Some t /\ promises t (own n) (own n') fb.
Proof.
  unfold Pool.handleShare. unfold act_bind at 1. cbn [get_own]. destruct (templates (own n) !! id) as [t|] eqn:Et; [|by intros [= <- _]; left].
  destruct (decide _); [by intros [= <- _]; left|]. unfold act_bind at 1. rewrite modify_eq.
  destruct (_ <? _); [intros [= <- _]; left; apply setTemplate_quiet|]. unfold act_bind at 1, ask. unfold act_bind at 1. rewrite modify_eq. cbn [own].
  assert (forall now, quiet (own n) (creditShare id nonce a now (tryNonce nonce t) (setTemplate id (tryNonce nonce t) (own n)))) as Hq
    by (intros now; etransitivity; [apply setTemplate_quiet|apply creditShare_quiet]).
  destruct (_ <? _); [intros [= <- _]; left; apply Hq|]. intros E. apply commitBlock_moves in E as [E|[fb E]]; cbn [own] in E.
  - left. etransitivity; [apply Hq|exact E].
  - right. exists t, fb. split; [done|]. eapply promises_quiet; [apply Hq|]. destruct E as [P1 P2 P3 P4]. by split.
Qed.

(** ** Maturity *)

(** Part of the pending blocks were credited or dropped. *)
Definition matured (s s' : Server) : Prop :=
  sized s s' /\ pending (ledger s') = pending (ledger s) /\ totalPaid (ledger s') = totalPaid (ledger s) /\ file s' = file s.

#[global] Instance matured_pre : PreOrder matured.
Proof.
  split; [by intros s; split_and!|]. intros s s1 s2 (? & ? & ? & ?) (? & ? & ? & ?). split_and!; [by etransitivity|congruence..].
Qed.

Lemma settleBlock fb (canonical : bool) s :
  let s' := with_ledger ((if canonical then creditBlock fb else orphanBlock) (ledger s)) s in
  matured s s' /\ (nonneg (fb_Payouts fb) -> nonneg (balances (ledger s)) ->
    nonneg (balances (ledger s')) /\ sumAmounts (balances (ledger s')) <= sumAmounts (balances (ledger s)) + sumAmounts (fb_Payouts fb)).
Proof.
  cbv zeta. destruct canonical; cbn; split; try (split_and!; try done; split; [done|]; intros [F1 F2 F3 F4]; split; cbn; try done).
  - intros Hp Hb. split; [by apply creditAll_nonneg|]. by rewrite sum_creditAll.
  - unfold u64, is_u64. apply Z.mod_pos_bound. lia.
  - intros Hp Hb. split; [done|]. pose proof (sum_nonneg _ Hp). lia.
Qed.

Lemma matureEach_spec headHeight fbs : forall kept changed n n' r,
  matureEach env headHeight fbs kept changed n = (n', Returns r) -> exists stay,
    matured (own n) (own n') /\ fst r = kept ++ stay /\ stay `sublist_of` fbs /\ (snd r = false -> changed = false /\ own n' = own n /\ stay = fbs)
    /\ (Forall (fun fb => nonneg (fb_Payouts fb)) fbs -> nonneg (balances (ledger (own n))) ->
        nonneg (balances (ledger (own n')))
        /\ sumAmounts (balances (ledger (own n'))) + owedFor stay <= sumAmounts (balances (ledger (own n))) + owedFor fbs).
Proof.
  induction fbs as [|fb fbs IH]; intros kept changed n n' r.
  { cbn [matureEach]. intros [= <- <-]. exists []. rewrite app_nil_r. split_and!; try done. }
  cbn [matureEach]. unfold act_bind at 1. cbn [get_own]. destruct (_ <? _).
  - intros E. apply IH in E as (stay & Hm & Er & Hsub & Hch & Hsum). exists (fb :: stay). split_and!; try done.
    + by rewrite Er, <- app_assoc.
    + by apply sublist_skip.
    + intros Ef. destruct (Hch Ef) as (-> & -> & ->). done.
    + intros Hf Hb. apply Forall_cons in Hf as [_ Hf]. destruct (Hsum Hf Hb) as [? ?]. split; [done|]. cbn. fold (owedFor stay) (owedFor fbs). lia.
  - unfold act_bind at 1, attempt, on_chain, on_shared.
    destruct (BlockByHeight (fb_Height fb) (chain _)) as [bc' ro]. assert (forall (canonical : bool) n1, own n1 = own n ->
      matureEach env headHeight fbs kept true (mkNode (with_ledger ((if canonical then creditBlock fb else orphanBlock) (ledger (own n1))) (own n1))
        (shared n1) (tick n1) (events n1)) = (n', Returns r) -> exists stay,
      matured (own n) (own n') /\ fst r = kept ++ stay /\ stay `sublist_of` fb :: fbs
      /\ (snd r = false -> changed = false /\ own n' = own n /\ stay = fb :: fbs)
      /\ (Forall (fun fb => nonneg (fb_Payouts fb)) (fb :: fbs) -> nonneg (balances (ledger (own n))) ->
          nonneg (balances (ledger (own n')))
          /\ sumAmounts (balances (ledger (own n'))) + owedFor stay <= sumAmounts (balances (ledger (own n))) + owedFor (fb :: fbs))) as Hgo.
    { intros canonical n1 En1 E. apply IH in E as (stay & Hm & Er & Hsub & Hch & Hsum). cbn [own] in *. rewrite En1 in *.
      destruct (settleBlock fb canonical (own n)) as [Hm1 Hs1]. exists stay. split_and!; [|done|by apply sublist_cons| |].
      - etransitivity; [exact Hm1|exact Hm].
      - intros Ef. by destruct (Hch Ef).
      - intros Hf Hb. apply Forall_cons in Hf as [Hfb Hf]. destruct (Hs1 Hfb Hb) as [Hn1 ?]. destruct (Hsum Hf Hn1) as [? ?].
        split; [done|]. cbn. fold (owedFor fbs). lia. }
    destruct ro as [b|e| |]; try done; unfold act_bind; rewrite modify_eq; intros E; cbn beta iota in E.
    + eapply Hgo; [|exact E]. done.
    + eapply (Hgo false); [|exact E]. done.
Qed.

(** The file keeps up, when it can be written. *)
Definition onfile (s s' : Server) : Prop :=
  cfg s' = cfg s /\ ((forall k, journalOK env k = true) -> StatePath (cfg s) <> [] -> durable s -> durable s').

#[global] Instance onfile_pre : PreOrder onfile.
Proof.
  split; [by intros s|]. intros s s1 s2 [E1 F1] [E2 F2]. split; [congruence|]. intros Hj Hp Hd. apply F2; [done|by rewrite E1|auto].
Qed.

Definition booked (s s' : Server) : Prop := settles s s' /\ onfile s s'.

#[global] Instance booked_pre : PreOrder booked.
Proof. split; [by intros s; split|]. intros s s1 s2 [? ?] [? ?]. split; by etransitivity. Qed.

Lemma quiet_booked s s' : quiet s s' -> booked s s'.
Proof. intros Hq. split; [by apply quiet_settles|]. split; [apply Hq|]. intros _ _. by apply quiet_durable. Qed.

(** A change that keeps the books in order, followed by [saveLocked]. *)
Lemma save_booked s n : settles s (own n) -> sized s (own n) -> booked s (own (fst (saveLocked env n))).
Proof.
  intros Hs [Ec Hf]. split.
  - etransitivity; [exact Hs|]. apply saved_settles, saveLocked_saved.
  - split; [by destruct (saveLocked_saved n) as [-> _]|]. intros Hj Hp [Hfits _]. apply saveLocked_durable; [done|by rewrite Ec|auto].
Qed.

Lemma owedFor_sublist stay fbs : stay `sublist_of` fbs -> Forall (fun fb => nonneg (fb_Payouts fb)) fbs ->
  Forall (fun fb => nonneg (fb_Payouts fb)) stay.
Proof. intros Hs Hf. rewrite Forall_forall in *. intros fb Hin. apply Hf. eapply elem_of_submseteq; [exact Hin|by apply sublist_submseteq]. Qed.

Lemma matureLocked_booked h n n' : matureLocked env h n = (n', Returns tt) -> booked (own n) (own n').
Proof.
  unfold matureLocked. unfold act_bind at 1. cbn [get_own]. destruct (pending (ledger (own n))) as [|fb fbs] eqn:Ep; [by intros [= <-]|].
  unfold act_bind at 1. destruct (matureEach env h (fb :: fbs) [] false n) as [n1 [[kept changed]|e| |]] eqn:Em; try done.
  apply matureEach_spec in Em as (stay & (Hz & Ep1 & Et1 & Ef1) & Er & Hsub & Hch & Hsum). cbn [fst snd app] in *. subst kept.
  unfold act_bind. rewrite modify_eq. cbn [own]. set (n2 := mkNode _ _ _ _).
  assert (settles (own n) (own n2)) as Hs2.
  { split; [apply Hz|]. intros [Hb Hp]. rewrite Ep in Hp. destruct (Hsum Hp Hb) as [Hb1 Hle]. split; [split|].
    - done.
    - cbn. by eapply owedFor_sublist.
    - unfold n2, debt. cbn [own ledger pending balances totalPaid with_ledger with_pending]. rewrite Et1, Ep. lia. }
  assert (sized (own n) (own n2)) as Hz2.
  { split; [apply Hz|]. intros Hf. destruct (proj2 Hz Hf) as [F1 F2 F3 F4]. split; try done. cbn. rewrite Ep1, Ep in F4.
    rewrite Forall_forall in *. intros x Hin. apply F4. eapply elem_of_submseteq; [exact Hin|by apply sublist_submseteq]. }
  destruct changed; [intros [= <-]; by apply (save_booked (own n) n2)|]. intros [= <-]. destruct (Hch eq_refl) as (_ & E1 & ->).
  apply quiet_booked. split_and!; [done|by unfold n2; cbn; rewrite E1|]. unfold n2, money. cbn. by rewrite E1, Ep.
Qed.

(** ** Payouts *)

Lemma payOne_moves snap a v n n' r : payOne env key broadcast snap a v n = (n', r) ->
  own n' = match r with Returns true => settle a v (own n) | _ => own n end.
Proof.
  unfold payOne. unfold act_bind at 1. cbn [get_own]. unfold act_bind at 1, look, on_shared. cbn beta iota zeta.
  destruct (tx_Sign _ key) as [tx|e|]; [|by intros [= <- <-]..]. unfold act_bind at 1, attempt at 1, act_res.
  destruct (CheckState snap tx) as [[]|e|]; [|by intros [= <- <-]..]. unfold act_bind at 1, attempt at 1, poolAdd, on_shared.
  destruct (Mempool_Add _ _ _ _) as [p [[]|e|]]; [|by intros [= <- <-]..]. unfold act_bind at 1. destruct broadcast as [send|].
  - unfold attempt, ask. destruct (send _ tx) as [[]|e|]; [| |by intros [= <- <-]]; unfold act_bind; rewrite modify_eq; by intros [= <- <-].
  - unfold act_ret at 1, act_bind. rewrite modify_eq. by intros [= <- <-].
Qed.

Lemma settle_settles a s : settles s (settle a (default 0 (balances (ledger s) !! a)) s) /\ sized s (settle a (default 0 (balances (ledger s) !! a)) s).
Proof.
  split; (split; [done|]).
  - intros [Hb Hp]. split; [split; [|done]|].
    + intros b w. cbn. intros [_ Hw]%lookup_delete_Some. by apply (Hb b).
    + unfold debt. cbn [settle ledger pending balances totalPaid with_ledger with_wallet]. rewrite sum_delete. lia.
  - intros [F1 F2 F3 F4]. by split.
Qed.

(** Payouts never add to the debt, and nothing was paid when the flag stays down. *)
Lemma payoutEach_moves snap addrs : forall changed n n' r,
  payoutEach env key broadcast snap addrs changed n = (n', r) ->
  settles (own n) (own n') /\ sized (own n) (own n') /\ (r = Returns false -> changed = false /\ own n' = own n).
Proof.
  induction addrs as [|a addrs IH]; intros changed n n' r; cbn [payoutEach]; [by intros [= <- <-]; split_and!; try done; intros [= ->]|].
  unfold act_bind at 1. cbn [get_own]. destruct (_ <? _); [apply IH|]. unfold act_bind.
  destruct (payOne env key broadcast snap a _ n) as [n1 [paid|e| |]] eqn:E1; apply payOne_moves in E1 as Eo; cbn match in Eo;
    try (intros [= <- <-]; rewrite Eo; split_and!; try done).
  intros E. apply IH in E as (Hs & Hz & Hr). destruct (settle_settles a (own n)) as [Hs1 Hz1].
  destruct paid; rewrite Eo in *.
  - split_and!; [by etransitivity|by etransitivity|]. intros Er. destruct (Hr Er) as [Hc _]. by destruct changed.
  - split_and!; [done|done|]. intros Er. destruct (Hr Er) as [Hc ->]. by destruct changed.
Qed.

Lemma payoutLocked_booked n n' : payoutLocked env key broadcast walkBalances n = (n', Returns tt) -> booked (own n) (own n').
Proof.
  unfold payoutLocked. unfold act_bind at 1, look, on_shared. cbn beta iota zeta.
  destruct (StateSnapshot _) as [snap|e|]; try done. unfold act_bind at 1. rewrite modify_eq. cbn [own].
  unfold act_bind at 1. cbn [get_own]. unfold act_bind at 1, ask. cbn beta iota zeta. unfold act_bind. cbn [own shared tick events].
  set (n1 := mkNode (syncNonce _ _) _ _ _).
  assert (quiet (own n) (own n1)) as Hq by (unfold n1, syncNonce; cbn [own]; by destruct (_ || _)).
  destruct (payoutEach _ _ _ _ _ _ n1) as [n2 [changed|e| |]] eqn:E; try done. apply payoutEach_moves in E as (Hs & Hz & Hr).
  destruct changed; intros [= <-].
  - apply (save_booked (own n) n2); [|by etransitivity; [apply Hq|]]. etransitivity; [by apply quiet_settles|done].
  - destruct (Hr eq_refl) as [_ ->]. by apply quiet_booked.
Qed.

(** ** A turn of the engine *)

Lemma poolTick_booked n n' : poolTick n = (n', Returns tt) -> booked (own n) (own n').
Proof.
  unfold Pool.poolTick. unfold act_bind at 1, look, on_shared. cbn beta iota zeta. unfold act_bind at 1.
  set (n1 := mkNode (own n) _ _ _). destruct (matureLocked env _ n1) as [n2 [[]|e| |]] eqn:E2; try done. apply matureLocked_booked in E2.
  unfold act_bind at 1. destruct (payoutLocked _ _ _ _ n2) as [n3 [[]|e| |]] eqn:E3; try done. apply payoutLocked_booked in E3.
  assert (booked (own n) (own n3)) as Hb by (etransitivity; [exact E2|exact E3]). unfold act_bind at 1. cbn [get_own].
  assert (forall b n4 r, rebuildLocked env coinbase b n3 = (n4, r) -> booked (own n) (own n4)) as Hre.
  { intros b n4 r E. etransitivity; [exact Hb|]. apply quiet_booked. pose proof (rebuildLocked_quiet b n3) as Hq. by rewrite E in Hq. }
  destruct (templates (own n3) !! current (own n3)) as [cur|]; [|apply Hre]. destruct (negb _); [apply Hre|].
  unfold act_bind, ask. destruct (_ <=? _); [|by intros [= <-]].
  intros E. etransitivity; [exact Hb|]. apply quiet_booked. pose proof (rebuildLocked_quiet false (mkNode (own n3) (shared n3) (1 + tick n3) (events n3))) as Hq.
  by rewrite E in Hq.
Qed.

End Moves.

(** ** The ledger file *)

Lemma persistBlock_ok : codec_ok persistBlockC (fun b => is_u64 (pb_Height b)).
Proof.
  apply structC_ok. intros b Hb. unfold is_u64 in Hb. split; [members|].
  dec_field (uintC_ok 64) Hb. dec_field stringC_ok I. dec_field stringMapC_ok I. by destruct b.
Qed.

Record pstate_ok (s : persistState) : Prop := {
  ps_pending : Forall (fun b => is_u64 (pb_Height b)) (ps_Pending s);
  ps_shares : is_u64 (ps_TotalShares s);
  ps_blocks : is_u64 (ps_TotalBlocks s);
  ps_orphans : is_u64 (ps_TotalOrphan s);
}.

Lemma persistBlocks_ok : codec_ok (listC persistBlockC) (Forall (fun b => is_u64 (pb_Height b))).
Proof. apply listC_ok, persistBlock_ok. Qed.

#[export] Hint Resolve persistBlocks_ok : json.

Lemma persistState_ok : codec_ok persistStateC pstate_ok.
Proof.
  apply structC_ok. intros s [Hp Hs Hb Ho]. unfold is_u64 in Hs, Hb, Ho. split; [members|].
  dec_field stringMapC_ok I. dec_field persistBlocks_ok Hp. dec_field (uintC_ok 64) Hs. dec_field (uintC_ok 64) Hb.
  dec_field (uintC_ok 64) Ho. dec_field stringC_ok I. by destruct s.
Qed.

#[global] Instance Address_Hex_inj : Inj (=) (=) Address_Hex.
Proof. intros a b E. pose proof (AddressFromHex_Hex_lemma a) as Ha. rewrite E, AddressFromHex_Hex_lemma in Ha. by injection Ha. Qed.

Lemma persistAmounts_lookup (m : gmap Address Z) a : persistAmounts m !! Address_Hex a = itoa <$> m !! a.
Proof. unfold persistAmounts. rewrite lookup_kmap by apply _. apply lookup_fmap. Qed.

Section Reload.
Context (walkText : gmap (list byte) (list byte) -> list (list byte)).
Hypothesis walkText_keys : forall m, walkText m ≡ₚ (map_to_list m).*1.

Lemma loadAmounts_persist (m : gmap Address Z) keys : forall acc,
  Forall (fun hex => exists a, hex = Address_Hex a /\ is_Some (m !! a)) keys ->
  exists m', loadAmounts keys (persistAmounts m) acc = Ok m'
    /\ forall a, m' !! a = if decide (Address_Hex a ∈ keys) then m !! a else acc !! a.
Proof.
  induction keys as [|hex keys IH]; intros acc Hk.
  - exists acc. split; [done|]. intros a. by rewrite decide_False by apply not_elem_of_nil.
  - apply Forall_cons in Hk as [(a & -> & v & Hv) Hk]. cbn [loadAmounts]. rewrite AddressFromHex_Hex_lemma, persistAmounts_lookup, Hv.
    cbn [fmap option_fmap option_map default from_option id]. rewrite setString10_itoa.
    destruct (IH (<[a := v]> acc) Hk) as (m' & -> & Hm'). exists m'. split; [done|]. intros b. rewrite Hm'.
    destruct (decide (Address_Hex b ∈ keys)); [by rewrite decide_True by (by right)|]. destruct (decide (b = a)) as [->|Hne].
    + by rewrite lookup_insert_eq, decide_True by (by left).
    + rewrite lookup_insert_ne, decide_False; [done| |done]. intros [E|?]%elem_of_cons; [|done]. by apply Hne, (inj Address_Hex).
Qed.

Lemma walk_elem m k : k ∈ walkText m <-> is_Some (m !! k).
Proof.
  rewrite walkText_keys, list_elem_of_fmap. split.
  - intros ([k' v] & -> & Hin). apply elem_of_map_to_list in Hin. by exists v.
  - intros [v E]. exists (k, v). split; [done|]. by apply elem_of_map_to_list.
Qed.

Lemma load_persistAmounts (m : gmap Address Z) : loadAmounts (walkText (persistAmounts m)) (persistAmounts m) ∅ = Ok m.
Proof.
  destruct (loadAmounts_persist m (walkText (persistAmounts m)) ∅) as (m' & -> & Hm').
  - apply Forall_forall. intros hex. rewrite walk_elem. intros [v Hv]. unfold persistAmounts in Hv.
    apply lookup_kmap_Some in Hv as (a & -> & Ha); [|apply _]. exists a. split; [done|]. rewrite lookup_fmap in Ha. by destruct (m !! a).
  - f_equal. apply map_eq. intros a. rewrite Hm'. destruct (decide _) as [|Hn]; [done|].
    rewrite walk_elem, persistAmounts_lookup in Hn. rewrite lookup_empty. destruct (m !! a); [by destruct Hn; eauto|done].
Qed.

Lemma load_persistPending fbs : loadPending walkText (map persistFound fbs) = Ok fbs.
Proof.
  induction fbs as [|fb fbs IH]; [done|]. cbn [map loadPending persistFound pb_Hash pb_Payouts pb_Height].
  rewrite HashFromHex_Hex_lemma, load_persistAmounts. cbn [res_bind]. rewrite IH. cbn [res_bind]. by destruct fb.
Qed.

Lemma load_ledgerText l : fits l -> loadLedger walkText (ledgerText l) = Ok l.
Proof.
  intros [F1 F2 F3 F4]. unfold loadLedger, ledgerText. rewrite (decode_encodeIndent _ pstate_ok); [|apply persistState_ok|].
  - cbn [persist ps_Balances ps_Pending ps_TotalShares ps_TotalBlocks ps_TotalOrphan ps_TotalPaid].
    rewrite load_persistAmounts. cbn [res_bind]. rewrite load_persistPending. cbn [res_bind].
    pose proof (setString10_itoa (totalPaid l)) as E. rewrite E. destruct (itoa (totalPaid l)) as [|b r]; [done|].
    rewrite len_cons. pose proof (len_nonneg r). destruct (Z.eqb_spec (1 + len r) 0); [lia|]. by destruct l.
  - split; try done. cbn. rewrite Forall_map. eapply Forall_impl; [exact F4|]. done.
Qed.

(** A server that is started on the file of another has its money. *)
Lemma restart_money c s : StatePath c <> [] -> durable s ->
  exists s', NewServer walkText c (Ok (file s)) = Ok s' /\ money (ledger s') = money (ledger s) /\ durable s'.
Proof.
  intros Hp [Hf Hd]. unfold NewServer, load. assert (StatePath (fillDefaults c) = StatePath c) as -> by done.
  destruct (StatePath c) as [|b p]; [done|]. rewrite len_cons. pose proof (len_nonneg p). destruct (Z.eqb_spec (1 + len p) 0); [lia|].
  cbn [res_bind]. destruct (file s) as [text|].
  - destruct Hd as (l & -> & Hl & Em). rewrite load_ledgerText by done. cbn [res_bind]. eexists. split; [done|]. cbn. split; [done|].
    split; [done|]. cbn. eauto.
  - cbn [res_bind]. eexists. split; [done|]. split; [by rewrite Hd|]. split; [|done]. by repeat split.
Qed.

End Reload.
