(* ===== verification/PoolProps.v ===== *)
(** * What the pool promises

    From the template to the block: a worker's share is credited, a winning one
    becomes the head.  The split of a reward, the ledger over any run of the
    engine, its file, and two ways in which the books go wrong. *)
From stdpp Require Import base numbers list gmap.
From Stdlib Require Import ZArith Lia Strings.Byte.
From Stdlib Require Strings.String.
Import Strings.String.StringSyntax.
From S2P Require Import Prelude Common Types VmBase Precompiles Vm VmProofs VmProps State StateProofs StateInv Transition BlockProofs.
From S2P Require Import Pow Genesis Json JsonCodec JsonWide Store Schema SchemaProofs Wire Mempool MempoolProofs Producer.
From S2P Require Import Blockchain ChainInv ChainInsert ChainOpen ChainProps ChainExtend Scorer P2p P2pProofs GossipProps Mining MiningProps.
From S2P Require Import Pool PoolHttp PoolProofs.
#[local] Open Scope Z_scope.
#[local] Open Scope list_scope.
#[local] Open Scope go_scope.
#[local] Open Scope act_scope.

(** ** The messages *)

Lemma shareRequest_ok : codec_ok shareRequestC (fun q => is_u64 (sq_Nonce q)).
Proof.
  apply structC_ok. intros q Hq. unfold is_u64 in Hq. split; [members|].
  dec_field stringC_ok I. dec_field (uintC_ok 64) Hq. dec_field stringC_ok I. by destruct q.
Qed.

Record work_ok (w : workResp) : Prop := {
  wk_header : exists j, wr_Header w = Some j /\ jwf j;
  wk_shareDiff : is_u64 (wr_ShareDiff w);
  wk_difficulty : is_u64 (wr_Difficulty w);
  wk_height : is_u64 (wr_Height w);
}.

Lemma workResp_ok : codec_ok workRespC work_ok.
Proof.
  apply structC_ok. intros w [Hh Hs Hd Ht]. unfold is_u64 in *. split; [members|].
  dec_field stringC_ok I. dec_field rawC_ok Hh. dec_field stringC_ok I. dec_field (uintC_ok 64) Hs. dec_field (uintC_ok 64) Hd.
  dec_field (uintC_ok 64) Ht. by destruct w.
Qed.

(** The template as a worker sees it. *)
Definition workResp_of (id : Hash) (hdr : Header) (shareDiff target : Z) : workResp :=
  mkWorkResp (Hash_Hex id) (Some (enc headerC hdr)) ([x30; x78] ++ text16 target) shareDiff (Difficulty hdr) (Height hdr).

Lemma workOf_enc id hdr sd target : workOf id hdr sd target = enc workRespC (workResp_of id hdr sd target).
Proof. done. Qed.

Lemma work_length id hdr sd target : wf_header hdr -> is_u64 sd -> 0 <= target < 2 ^ 256 ->
  (length (print (workOf id hdr sd target)) <= Z.to_nat (Z.shiftl 1 20))%nat.
Proof.
  intros Hw Hs Ht. pose proof (header_length hdr Hw) as Hh. unfold len in Hh. destruct Hw as [Hw1 _ _ _ Hw5 _]. unfold is_u64 in *.
  etransitivity; [apply (print_obj_length _ (Z.to_nat 6000))|].
  - repeat (apply Forall_cons; split); [..|by apply Forall_nil]; cbn [fst snd]; (split; [apply str_length; cbn; lia|]);
      lazymatch goal with
      | |- context [headerC] => lia
      | |- context [text16] => cbn [print]; etransitivity; [apply quote_length|]; rewrite length_app; pose proof (text16_length target Ht); cbn [length]; lia
      | |- context [Hash_Hex] => etransitivity; [apply (hash_length id)|lia]
      | _ => etransitivity; [apply itoa_length; lia|lia]
      end.
  - cbn [length]. change (Z.shiftl 1 20) with 1048576. lia.
Qed.

Lemma submit_length id nonce a : is_u64 nonce -> (length (submitBody (Hash_Hex id) nonce (Address_Hex a)) <= 4096)%nat.
Proof.
  intros Hn. unfold is_u64 in Hn. unfold submitBody, encodeJSON. etransitivity; [apply (print_obj_length _ 400)|].
  - repeat (apply Forall_cons; split); [..|by apply Forall_nil]; cbn [fst snd sq_Nonce sq_Address sq_WorkID]; (split; [apply str_length; cbn; lia|]);
      [apply (address_length a)|etransitivity; [apply itoa_length; lia|lia]|apply (hash_length id)].
  - cbn [length]. lia.
Qed.

Lemma powTarget_range d : 0 <= powTarget d < 2 ^ 256 \/ d < 0.
Proof.
  destruct (Z.ltb_spec d 0); [by right|left]. unfold powTarget, maxTarget. destruct (Z.eqb_spec d 0); [rewrite Z.div_1_r; lia|].
  split; [apply Z.div_pos; lia|]. apply Z.div_lt_upper_bound; nia.
Qed.

(** A share is never harder to find than a block. *)
Lemma share_easier c d : 0 <= MinShareDiff c -> 1 <= d -> is_u64 d ->
  0 <= shareDiffOf c d <= d /\ powTarget d <= powTarget (shareDiffOf c d).
Proof.
  intros Hm Hd Hu. unfold shareDiffOf. set (q := d / ShareDiffDivisor c). set (e := if q <? MinShareDiff c then MinShareDiff c else q).
  assert (0 <= (if d <? e then d else e) <= d) as Hr.
  { assert (0 <= e) by (unfold e; destruct (Z.ltb_spec q (MinShareDiff c)); lia). destruct (Z.ltb_spec d e); lia. }
  split; [done|]. unfold powTarget. set (x := if d <? e then d else e) in *. destruct (Z.eqb_spec d 0); [lia|].
  apply Z.div_le_compat_l; [done|]. destruct (Z.eqb_spec x 0); lia.
Qed.

(** ** A round *)

Section Round.
Context `{Crypto} `{Bn256} {D : Type} `{KVLaws D} (net : network) (Hn : wf_network net) (env : Env D) (coinbase : Address).

Abbreviation P := (n_headers net).

#[local] Instance pool_headers : headers P (n_block net) := wn_headers net Hn.

(** The clock has reached the head's timestamp. *)
Record clock_past (h : Header) (t : nat) : Prop := {
  cp_forward : forall k k', (k <= k')%nat -> UnixMilli env k <= UnixMilli env k';
  cp_range : forall k, 0 <= UnixMilli env k < 2 ^ 62;
  cp_past : forall k, (t <= k)%nat -> Timestamp h <= UnixMilli env k;
}.

Lemma clock_past_ok h t : clock_past h t -> clock_ok env h t.
Proof. intros [H1' H2' H3']. split; [done..|]. intros k Hk. specialize (H3' k Hk). unfold MaxFutureDriftMs. lia. Qed.

(** The node is ready to build a template. *)
Record ready (n : Node D Server) : Prop := {
  rd_chain : reachable net (chain (shared n));
  rd_pool : minable (chainID (chain (shared n))) (pool (shared n));
  rd_clock : clock_ok env (b_Header (head (chain (shared n)))) (tick n);
  rd_cfg : 0 <= MinShareDiff (cfg (own n));
}.

(** The template that [rebuildLocked] puts up. *)
Record offers (n : Node D Server) (t : template) (b : Block) (k : nat) : Prop := {
  of_current : templates (own n) !! current (own n) = Some t;
  of_id : current (own n) = Header_Hash (b_Header b);
  of_template : exists fees now, t = newTemplate (cfg (own n)) b fees now;
  of_candidate : candidate env (chain (shared n)) (pool (shared n)) coinbase k b;
  of_tick : (k <= tick n)%nat;
}.

Lemma rebuild_spec n : alone env -> ready n ->
  exists n1 t b k, rebuildLocked env coinbase true n = (n1, Returns tt) /\ offers n1 t b k /\ (tick n <= k)%nat /\ (tick n <= tick n1)%nat
    /\ reachable net (chain (shared n1)) /\ Head (chain (shared n1)) = Head (chain (shared n)) /\ chainID (chain (shared n1)) = chainID (chain (shared n))
    /\ pool (shared n1) = pool (shared n) /\ cfg (own n1) = cfg (own n) /\ ring (own n1) = ring (own n).
Proof.
  intros Hal [Hr Hm Hc Hcfg]. destruct n as [s sh t0 ev]. cbn [shared own tick] in *.
  set (s0 := with_templates ∅ (current s) s).
  destruct (buildUnsealed_spec net Hn env coinbase (mkNode s0 sh t0 ev) Hal Hr Hm Hc) as (bc1 & b & fees & k & k' & E & Hk & Hr1 & Hs & Hcd).
  cbn [own shared tick events] in *.
  unfold rebuildLocked. unfold act_bind at 1. rewrite modify_eq. cbn [own shared tick events]. fold s0. unfold act_bind at 1, attempt. rewrite E.
  unfold act_bind, ask. rewrite modify_eq. cbn [own shared tick events].
  eexists _, _, b, k. split; [reflexivity|]. cbn [own shared tick events]. pose proof (same_fields _ _ Hs) as (_ & Eid & _ & _ & _ & _ & _ & _ & Eh).
  split_and!; try done; try lia. split; cbn [own shared tick].
  - unfold addTemplate, with_templates. cbn [templates current]. apply lookup_insert_eq.
  - done.
  - by eexists _, _.
  - done.
  - lia.
Qed.

(** ** The worker's side *)

Lemma fetch_offer n t b k : offers n t b k -> 0 <= MinShareDiff (cfg (own n)) ->
  let sd := shareDiffOf (cfg (own n)) (Difficulty (b_Header b)) in
  let w := workResp_of (Header_Hash (b_Header b)) (b_Header b) sd (powTarget sd) in
  exists r, serveWork GET n = (n, Returns r) /\ fetchWork (Ok r) = Ok w
    /\ forall rand, takeWork w rand newWorker = Some (mkWorker w (mkHeaderObj (b_Header b) None) (powTarget sd) rand 0).
Proof.
  intros [Hcur Hid (fees & now & ->) Hcd Hk] Hm sd w. pose proof (cd_wf _ _ _ _ _ _ Hcd) as Hw. pose proof (cd_positive _ _ _ _ _ _ Hcd) as Hpos.
  assert (is_u64 (Difficulty (b_Header b))) as Hdu by apply Hw.
  destruct (share_easier (cfg (own n)) (Difficulty (b_Header b)) Hm Hpos Hdu) as [Hsd _]. fold sd in Hsd.
  assert (is_u64 sd) as Hsu by (unfold is_u64 in *; lia). destruct (powTarget_range sd) as [Ht|]; [|lia].
  eexists. split.
  { unfold serveWork. rewrite bool_decide_eq_true_2 by done. cbn [negb]. unfold act_bind, get_own, act_ret. rewrite Hcur. reflexivity. }
  split.
  - unfold fetchWork. cbn [res_bind status body Z.eqb negb]. change (200 =? 200) with true. cbn [negb].
    cbn [newTemplate t_workJSON]. unfold PowTarget. fold sd. rewrite take_ge by (by apply work_length).
    rewrite workOf_enc. fold w. apply (decode_encode _ work_ok); [apply workResp_ok|]. split; cbn; try done; try apply Hw.
    eexists. split; [done|]. by apply headerC_ok.
  - intros rand. unfold takeWork, unmarshalRaw. cbn [w wr_WorkID w_cur newWorker wr_Header wr_ShareTarget workResp_of w_shares].
    rewrite bool_decide_eq_false_2 by done. cbn [mbind option_bind]. destruct (headerC_ok (b_Header b) Hw) as [_ ->].
    cbn [app trim0x]. by rewrite setString16_text16 by lia.
Qed.

(** ** The server's side *)

Lemma satisfies_target h : satisfiesPoW h = negb (powTarget (Difficulty h) <? be2z (abytes (Header_Hash h))).
Proof. unfold satisfiesPoW. by rewrite Z.leb_antisym. Qed.

Lemma with_nonce_wf nonce h : wf_header h -> is_u64 nonce -> wf_header (with_nonce nonce h).
Proof. intros [W1 W2 W3 W4 W5 _] Hu. by split. Qed.

Lemma last_lastN {A} n (l : list A) x : 0 < n -> last (lastN n (l ++ [x])) = Some x.
Proof.
  intros Hp. unfold lastN. destruct (Z.ltb_spec n (len (l ++ [x]))) as [Hl|]; [|apply last_snoc].
  unfold len in Hl. rewrite length_app in *. cbn [length] in *. rewrite drop_app_le by lia. apply last_snoc.
Qed.

(** Building on the block just committed. *)
Lemma committed_ready n n' b k won : clock_past (b_Header (head (chain (shared n)))) k ->
  candidate env (chain (shared n)) (pool (shared n)) coinbase k b ->
  minable (chainID (chain (shared n))) (pool (shared n)) -> (k <= tick n)%nat -> reachable net (chain (shared n)) ->
  forall nonce, committed net won (mkBlock (with_nonce nonce (b_Header b)) (b_Txs b)) n n' -> 0 <= MinShareDiff (cfg (own n')) ->
  forall s t, (tick n' <= t)%nat -> cfg s = cfg (own n') -> forall ev, ready (mkNode s (shared n') t ev).
Proof.
  intros [Hf Hrg Hp] Hcd Hm Hk Hr nonce [Ch Cr Ci Co (j & Cp) Ct] Hcfg s t Ht Ecf ev. split; cbn [shared own tick].
  - done.
  - rewrite Cp, Ci. apply Remove_minable; [done|]. apply Hcd.
  - change (head (chain (shared n'))) with (Head (chain (shared n'))). rewrite Ch. cbn [b_Header]. split; [done..|]. intros k' Hk'.
    cbn [with_nonce Timestamp]. rewrite (cd_stamp _ _ _ _ _ _ Hcd). specialize (Hp k ltac:(lia)). pose proof (Hf k k' ltac:(lia)). pose proof (Hrg k).
    destruct (chain_reachable_inv net Hn _ Hr) as (F & canon & Hi & _).
    assert (- 2 ^ 61 <= Timestamp (b_Header (head (chain (shared n)))) <= 2 ^ 62 + 2 ^ 60) as Hts.
    { apply (head_stored _ _ _ _ _ Hi). }
    unfold blockTime, MaxFutureDriftMs in *. destruct (Z.leb_spec (UnixMilli env k) (Timestamp (b_Header (head (chain (shared n)))))); [rewrite i64_small; lia|lia].
  - by rewrite Ecf.
Qed.

(** A share on the template offered is credited; one that meets the block's target is the new head. *)
Lemma share_spec n t b k nonce a : alone env -> reliable D -> offers n t b k -> reachable net (chain (shared n)) ->
  minable (chainID (chain (shared n))) (pool (shared n)) -> clock_past (b_Header (head (chain (shared n)))) k ->
  0 <= MinShareDiff (cfg (own n)) -> is_u64 nonce ->
  let hdr := with_nonce nonce (b_Header b) in
  let sd := shareDiffOf (cfg (own n)) (Difficulty (b_Header b)) in
  be2z (abytes (Header_Hash hdr)) <= powTarget sd -> (satisfiesPoW hdr = true -> P hdr) ->
  exists n2, handleShare env coinbase (Header_Hash (b_Header b)) nonce a n = (n2, Returns (satisfiesPoW hdr))
    /\ last (ring (own n2)) = Some (mkShare a sd)
    /\ Head (chain (shared n2)) = if satisfiesPoW hdr then mkBlock hdr (b_Txs b) else Head (chain (shared n)).
Proof.
  intros Hal Hrel [Hcur Hid (fees & now & ->) Hcd Hk] Hr Hm Hck Hcfg Hnu hdr sd Hshare HP. pose proof (cd_wf _ _ _ _ _ _ Hcd) as Hw.
  unfold handleShare. unfold act_bind at 1, get_own. rewrite <- Hid, Hcur. cbn [t_seen newTemplate]. rewrite decide_False by set_solver.
  unfold act_bind at 1. rewrite modify_eq. set (t := newTemplate _ _ _ _) in *.
  change (t_hdr (tryNonce nonce t)) with hdr. change (t_shareTarget (tryNonce nonce t)) with (powTarget sd).
  change (t_blockTarget (tryNonce nonce t)) with (powTarget (Difficulty hdr)).
  destruct (Z.ltb_spec (powTarget sd) (be2z (abytes (Header_Hash hdr)))); [lia|].
  unfold act_bind at 1, ask. unfold act_bind at 1. rewrite modify_eq. cbn [own shared tick events].
  set (s1 := creditShare _ _ _ _ _ _). assert (last (ring s1) = Some (mkShare a sd)) as Hring by (by apply last_lastN).
  assert (cfg s1 = cfg (own n)) as Ecfg by done. clearbody s1.
  rewrite satisfies_target in *. destruct (powTarget (Difficulty hdr) <? _) eqn:Epow; cbn [negb] in *; [by eexists|].
  set (n1 := mkNode s1 (shared n) (1 + tick n) (events n)).
  unfold commitBlock. rewrite (decode_encode headerC wf_header) by (apply headerC_ok || by apply with_nonce_wf).
  change (t_txs (tryNonce nonce t)) with (b_Txs b). change (t_hdr (tryNonce nonce t)) with hdr.
  destruct (commit_spec net Hn env won (mkBlock hdr (b_Txs b)) n1 Hal Hrel Hr) as (n2 & Ec & Hcm).
  { eapply minable_offered; [exact Hm|by apply HP|apply Hcd]. }
  { pose proof (cp_range _ _ Hck (1 + tick n)). unfold clockRange. cbn [n1 tick]. lia. }
  { cbn [n1 shared tick]. eapply candidate_extends; [|exact Hm|exact Hcd|lia|].
    - eexists. by apply clock_past_ok.
    - change (satisfiesPoW hdr = true). by rewrite satisfies_target, Epow. }
  unfold act_bind at 1, attempt. rewrite Ec. unfold act_bind at 1. rewrite modify_eq. set (n3 := mkNode (recordBlock _ _ _) _ _ _).
  unfold act_bind at 1. pose proof (saveLocked_saved env n3) as [Ecf3 _]. rewrite saveLocked_returns. set (n4 := fst (saveLocked env n3)) in *.
  assert (cfg (own n2) = cfg (own n)) as Ecf2 by (rewrite (cm_own _ _ _ _ _ Hcm); exact Ecfg).
  assert (ready n4) as Hrd.
  { unfold n4, saveLocked. cbn [fst]. eapply (committed_ready n1 n2 b k won); cbn [n1 shared own tick]; [exact Hck|exact Hcd|exact Hm|lia|exact Hr|exact Hcm| | |].
    - by rewrite Ecf2.
    - cbn. lia.
    - exact Ecf3. }
  destruct (rebuild_spec n4 Hal Hrd) as (n5 & t5 & b5 & k5 & Er & _ & _ & _ & _ & Eh5 & _ & _ & _ & Ering).
  unfold act_bind. rewrite Er. exists n5. split; [done|]. rewrite Ering, Eh5. split; [|apply (cm_head _ _ _ _ _ Hcm)].
  unfold n4, saveLocked. cbn [fst own]. assert (ring (own n3) = ring s1) as Er3 by (cbn; by rewrite (cm_own _ _ _ _ _ Hcm)).
  destruct (_ || _); cbn [with_file ring]; by rewrite Er3.
Qed.

End Round.

(** ** Maturity *)

Section Maturity.
Context `{Crypto} `{Bn256} {D : Type} `{KVLaws D} (net : network) (env : Env D) (Hal : alone env).

(** The chain holds the block at its height. *)
Definition onChain (bc : Blockchain D) (fb : foundBlock) : bool :=
  match snd (BlockByHeight (fb_Height fb) bc) with Returns b => array_eqb (Block_Hash b) (fb_Hash fb) | _ => false end.

Definition deep (c : Config) (headHeight : Z) (fb : foundBlock) : bool := negb (headHeight <? u64 (fb_Height fb + Confirmations c)).

(** What the matured blocks owe to [a]. *)
Definition maturedFor (a : Address) (bc : Blockchain D) (c : Config) (headHeight : Z) (fbs : list foundBlock) : Z :=
  foldr (fun fb acc => (if deep c headHeight fb && onChain bc fb then default 0 (fb_Payouts fb !! a) else 0) + acc) 0 fbs.

Lemma onChain_inv F canon (bc bc' : Blockchain D) fb :
  inv (n_headers net) (n_block net) F canon bc -> inv (n_headers net) (n_block net) F canon bc' -> is_u64 (fb_Height fb) -> onChain bc' fb = onChain bc fb.
Proof.
  intros Hi Hi' Hh. destruct (BlockByHeight_inv net F canon _ bc Hi Hh) as (? & r & E & _ & Hr), (BlockByHeight_inv net F canon _ bc' Hi' Hh) as (? & r' & E' & _ & Hr').
  unfold onChain. rewrite E, E'. cbn [snd]. destruct (_ !! _) as [b|]; [by destruct Hr as [-> _], Hr' as [-> _]|by rewrite Hr, Hr'].
Qed.

Lemma maturedFor_inv F canon (bc bc' : Blockchain D) a c h fbs :
  inv (n_headers net) (n_block net) F canon bc -> inv (n_headers net) (n_block net) F canon bc' -> Forall (fun fb => is_u64 (fb_Height fb)) fbs ->
  maturedFor a bc' c h fbs = maturedFor a bc c h fbs.
Proof. intros Hi Hi'. induction 1 as [|fb fbs Hfb _ IH]; [done|]. cbn. fold (maturedFor a bc' c h fbs) (maturedFor a bc c h fbs). by rewrite IH, (onChain_inv F canon bc bc'). Qed.

Lemma matureEach_exact F canon h fbs : forall kept changed (n : Node D Server),
  inv (n_headers net) (n_block net) F canon (chain (shared n)) -> Forall (fun fb => is_u64 (fb_Height fb)) fbs ->
  exists n' changed', matureEach env h fbs kept changed n = (n', Returns (kept ++ filter (fun fb => deep (cfg (own n)) h fb = false) fbs, changed'))
    /\ cfg (own n') = cfg (own n) /\ totalPaid (ledger (own n')) = totalPaid (ledger (own n))
    /\ forall a, default 0 (balances (ledger (own n')) !! a) = default 0 (balances (ledger (own n)) !! a) + maturedFor a (chain (shared n)) (cfg (own n)) h fbs.
Proof.
  induction fbs as [|fb fbs IH]; intros kept changed n Hi Hf.
  { exists n, changed. cbn. rewrite app_nil_r. split_and!; try done. intros a. lia. }
  apply Forall_cons in Hf as [Hfb Hf]. cbn [matureEach]. unfold act_bind at 1, get_own. cbn [maturedFor foldr].
  rewrite filter_cons. destruct (h <? u64 (fb_Height fb + Confirmations (cfg (own n)))) eqn:Ed.
  - assert (deep (cfg (own n)) h fb = false) as Edp by (unfold deep; by rewrite Ed). rewrite Edp, decide_True by done.
    destruct (IH (kept ++ [fb]) changed n Hi Hf) as (n' & ch & -> & Ec & Et & Hb). exists n', ch. rewrite <- app_assoc. by split_and!.
  - assert (deep (cfg (own n)) h fb = true) as Edp by (unfold deep; by rewrite Ed). rewrite Edp, decide_False by done.
    destruct (BlockByHeight_inv net F canon (fb_Height fb) (chain (shared n)) Hi Hfb) as (bc' & r & Eb & Hi' & Hr).
    assert (exists n1, own n1 = own n /\ chain (shared n1) = bc' /\ attempt (on_chain env (fun _ => BlockByHeight (fb_Height fb))) n
      = (n1, Returns (match r with Returns b => inr b | Raises e => inl e | _ => inl ErrUnknownBlock end))) as (n1 & Eo & Ebc & Eat).
    { unfold attempt, on_chain, on_shared. rewrite Hal, Eb. destruct (_ !! _); [destruct Hr as [-> _]|rewrite Hr]; (eexists; split; [|split; [|reflexivity]]; done). }
    unfold act_bind at 1. rewrite Eat. unfold act_bind at 1. rewrite modify_eq. rewrite Eo.
    assert (match match r with Returns b => inr b | Raises e => inl e | _ => inl ErrUnknownBlock end with inr b => array_eqb (Block_Hash b) (fb_Hash fb) | inl _ => false end
      = onChain (chain (shared n)) fb) as Ecan by (unfold onChain; rewrite Eb; cbn [snd]; by destruct r).
    rewrite Ecan. set (n2 := mkNode _ _ _ _). destruct (IH kept true n2) as (n' & ch & E & Ec & Et & Hb); [by unfold n2; cbn; rewrite Ebc|done|].
    exists n', ch. split_and!; [exact E|exact Ec|rewrite Et; unfold n2; cbn; by destruct (onChain _ _)|].
    intros a. rewrite Hb. unfold n2. cbn [own shared with_ledger ledger cfg andb]. rewrite Ebc, (maturedFor_inv F canon (chain (shared n)) bc') by done.
    fold (maturedFor a (chain (shared n)) (cfg (own n)) h fbs).
    destruct (onChain _ _); cbn [creditBlock orphanBlock balances]; [rewrite creditAll_lookup|]; lia.
Qed.

Lemma matureLocked_exact h (n : Node D Server) : wf_network net -> reachable net (chain (shared n)) ->
  Forall (fun fb => is_u64 (fb_Height fb)) (pending (ledger (own n))) ->
  exists n', matureLocked env h n = (n', Returns tt)
    /\ pending (ledger (own n')) = filter (fun fb => deep (cfg (own n)) h fb = false) (pending (ledger (own n)))
    /\ totalPaid (ledger (own n')) = totalPaid (ledger (own n))
    /\ forall a, default 0 (balances (ledger (own n')) !! a)
       = default 0 (balances (ledger (own n)) !! a) + maturedFor a (chain (shared n)) (cfg (own n)) h (pending (ledger (own n))).
Proof.
  intros Hn Hr Hf. destruct (chain_reachable_inv net Hn _ Hr) as (F & canon & Hi & _). unfold matureLocked. unfold act_bind at 1, get_own.
  destruct (matureEach_exact F canon h (pending (ledger (own n))) [] false n Hi Hf) as (n1 & ch & E & _ & Et & Hb).
  destruct (pending (ledger (own n))) as [|fb fbs] eqn:Ep; [exists n; rewrite Ep; split_and!; try done; intros a; cbn; lia|].
  unfold act_bind at 1. rewrite E. unfold act_bind. rewrite modify_eq. cbn [app]. set (n2 := mkNode _ _ _ _).
  assert (exists n3, (if ch then saveLocked env else act_ret tt) n2 = (n3, Returns tt) /\ ledger (own n3) = ledger (own n2)) as (n3 & E3 & El).
  { destruct ch; [|by exists n2]. eexists. split; [apply saveLocked_returns|apply saveLocked_saved]. }
  exists n3. rewrite El. by split_and!.
Qed.

End Maturity.

(** ** Runs of the engine *)

Section Runs.
Context `{Crypto} `{Bn256} {D : Type} `{KV D} (env : Env D) (key : privKey) (coinbase : Address)
  (broadcast : option (nat -> Transaction -> res unit)) (walkBalances : nat -> gmap Address Z -> list Address)
  (walkText : gmap (list byte) (list byte) -> list (list byte)).

(** The pots of the blocks that entered the ledger between two states. *)
Definition income (s s' : Server) (id : Hash) : Z :=
  match templates s !! id with
  | Some t => foldr (fun fb acc => potOf (cfg s) (fb_Height fb) (t_minerFees t) + acc) 0 (drop (length (pending (ledger s))) (pending (ledger s')))
  | None => 0
  end.

(** Turns of the engine, shares however they end, changes of the chain and the pool by others, and restarts
    from the file; [w] is what the blocks won meanwhile brought in. *)
Inductive serves (n : Node D Server) : Z -> Node D Server -> Prop :=
  | SV_start : serves n 0 n
  | SV_tick w n1 n2 : serves n w n1 -> poolTick env key coinbase broadcast walkBalances n1 = (n2, Returns tt) -> serves n w n2
  | SV_share w n1 n2 id nonce a r :
      serves n w n1 -> handleShare env coinbase id nonce a n1 = (n2, r) -> serves n (w + income (own n1) (own n2) id) n2
  | SV_others w n1 sh k ev : serves n w n1 -> serves n w (mkNode (own n1) sh k ev)
  | SV_restart w n1 c s sh k ev :
      serves n w n1 -> StatePath c <> [] -> NewServer walkText c (Ok (file (own n1))) = Ok s -> serves n w (mkNode s sh k ev).

Hypothesis walkText_keys : forall m, walkText m ≡ₚ (map_to_list m).*1.
Hypothesis disk_ok : forall k, journalOK env k = true.

(** In order: the file keeps up with a ledger of amounts that are not negative. *)
Record solvent (s : Server) : Prop := {
  sl_path : StatePath (cfg s) <> [];
  sl_ok : ledger_ok (ledger s);
  sl_file : durable s;
}.

Lemma booked_solvent s s' : booked env s s' -> solvent s -> solvent s' /\ debt (ledger s') <= debt (ledger s).
Proof.
  intros [[Ec Hs] [_ Hf]] [Hp Hok Hd]. destruct (Hs Hok) as [Hok' Hle]. split; [|done]. split; [by rewrite Ec|done|by apply Hf].
Qed.

Lemma promises_solvent t s s' fb id : templates s !! id = Some t -> promises env t s s' fb -> solvent s ->
  solvent s' /\ debt (ledger s') <= debt (ledger s) + income s s' id.
Proof.
  intros Ht [Ec [= Ep Eb Et] (shares & diff & Epay) Hd] [Hp [Hb Hpend] [Hf _]]. pose proof (potOf_nonneg (cfg s) (fb_Height fb) (t_minerFees t)) as Hpot.
  destruct (pplns_lemma (cfg s) shares _ diff Hpot) as (used & older & [_ _ _ _ Htot _]). split.
  - split; [by rewrite Ec| |by apply Hd]. split; [by rewrite Eb|]. rewrite Ep. apply Forall_app. split; [done|]. apply Forall_singleton.
    rewrite Epay. by apply pplns_nonneg.
  - unfold income, debt. rewrite Ht, Ep, Eb, Et, drop_app_length, owedFor_app. cbn [owedFor foldr]. rewrite Epay at 1. lia.
Qed.

Lemma restart_solvent c s s' : StatePath c <> [] -> NewServer walkText c (Ok (file s)) = Ok s' -> solvent s ->
  solvent s' /\ money (ledger s') = money (ledger s).
Proof.
  intros Hp E [_ Hok Hd]. destruct (restart_money walkText walkText_keys c s Hp Hd) as (s1 & E1 & Em & Hd1). assert (s1 = s') as <- by congruence.
  split; [|done]. split; [|by eapply ok_money|done]. unfold NewServer in E1. destruct (load _ _ _) as [l| |]; try done. injection E1 as <-. exact Hp.
Qed.

Lemma serves_solvent n w n' : serves n w n' -> solvent (own n) -> solvent (own n') /\ debt (ledger (own n')) <= debt (ledger (own n)) + w.
Proof.
  intros Hs H0'. induction Hs as [|w n1 n2 _ IH E|w n1 n2 id nonce a r _ IH E|w n1 sh k ev _ IH|w n1 c s sh k ev _ IH Hp E].
  - split; [done|lia].
  - destruct IH as [Hv Hd]. apply poolTick_booked in E. destruct (booked_solvent _ _ E Hv). split; [done|lia].
  - destruct IH as [Hv Hd]. apply handleShare_moves in E as [Hq|(t & fb & Ht & Hpm)].
    + destruct (booked_solvent _ _ (quiet_booked env _ _ Hq) Hv). split; [done|]. destruct Hq as (_ & _ & [= Ep _ _]).
      unfold income. rewrite Ep, drop_all. destruct (templates (own n1) !! id); cbn; lia.
    + destruct (promises_solvent _ _ _ _ _ Ht Hpm Hv). split; [done|lia].
  - done.
  - destruct IH as [Hv Hd]. destruct (restart_solvent _ _ _ Hp E Hv) as [Hv' Em]. split; [done|]. cbn [own]. by rewrite (debt_money _ _ Em).
Qed.

End Runs.

(** ** The branches of a share *)

(** What [handleShare] does with a nonce that makes no block. *)
Definition share_outcome `{Crypto} (id : Hash) (nonce : Z) (s : Server) : option error :=
  match templates s !! id with
  | None => Some ErrStale
  | Some t =>
      if decide (nonce ∈ t_seen t) then Some ErrDuplicate
      else if t_shareTarget t <? be2z (abytes (Header_Hash (with_nonce nonce (t_hdr t)))) then Some ErrBadShare
      else None
  end.

Lemma share_refused `{Crypto} `{Bn256} {D} `{KV D} (env : Env D) cb id nonce a n e :
  share_outcome id nonce (own n) = Some e ->
  exists n', handleShare env cb id nonce a n = (n', Raises e) /\ ring (own n') = ring (own n) /\ ledger (own n') = ledger (own n).
Proof.
  unfold share_outcome, handleShare. unfold act_bind at 1, get_own. destruct (templates (own n) !! id) as [t|]; [|by intros [= <-]; eexists].
  destruct (decide _); [by intros [= <-]; eexists|]. unfold act_bind at 1. rewrite modify_eq.
  change (t_hdr (tryNonce nonce t)) with (with_nonce nonce (t_hdr t)). change (t_shareTarget (tryNonce nonce t)) with (t_shareTarget t).
  destruct (_ <? _); [by intros [= <-]; eexists|done].
Qed.

Lemma share_credited `{Crypto} `{Bn256} {D} `{KV D} (env : Env D) cb id nonce a n t :
  share_outcome id nonce (own n) = None -> templates (own n) !! id = Some t ->
  t_blockTarget t < be2z (abytes (Header_Hash (with_nonce nonce (t_hdr t)))) ->
  exists n', handleShare env cb id nonce a n = (n', Returns false) /\ ring (own n') = lastN maxRing (ring (own n) ++ [mkShare a (t_shareDiff t)])
    /\ totalShares (ledger (own n')) = u64 (totalShares (ledger (own n)) + 1) /\ money (ledger (own n')) = money (ledger (own n))
    /\ share_outcome id nonce (own n') = Some ErrDuplicate.
Proof.
  unfold share_outcome, handleShare. intros Ho Ht Hb. unfold act_bind at 1, get_own. rewrite Ht in *.
  destruct (decide _) as [|Hseen]; [done|]. unfold act_bind at 1. rewrite modify_eq.
  change (t_hdr (tryNonce nonce t)) with (with_nonce nonce (t_hdr t)). change (t_shareTarget (tryNonce nonce t)) with (t_shareTarget t).
  destruct (t_shareTarget t <? _); [done|]. unfold act_bind at 1, ask. unfold act_bind at 1. rewrite modify_eq.
  change (t_blockTarget (tryNonce nonce t)) with (t_blockTarget t). destruct (Z.ltb_spec (t_blockTarget t) (be2z (abytes (Header_Hash (with_nonce nonce (t_hdr t)))))); [|lia].
  eexists. split; [reflexivity|]. split_and!; try done. cbn [own creditShare setTemplate with_ledger with_traffic with_templates templates].
  rewrite lookup_insert_eq. cbn [t_seen markSeen tryNonce]. by rewrite decide_True by set_solver.
Qed.

(** ** Properties *)

#[local] Existing Instance mixCrypto.
#[local] Existing Instance toyBn256.

(** C12: A pool round ends as it should, from the template to the block.  On a node left alone, whose clock has
    reached the head's timestamp, the engine puts up a template; a worker that fetches it over HTTP
    reads back its header and the share target.  Whatever nonce the worker's search then finds, the server
    credits the share to the worker's address, and answers that it is a block exactly when it meets the
    block's own target; then (unless its hash collides with that of another header) it is the new head. *)
Theorem pool_round `{Crypto} `{Bn256} {D} `{KVLaws D} net (env : Env D) cb n :
  wf_network net -> reliable D -> alone env -> reachable net (chain (shared n)) ->
  minable (chainID (chain (shared n))) (pool (shared n)) -> clock_past env (b_Header (Head (chain (shared n)))) (tick n) ->
  0 <= MinShareDiff (cfg (own n)) ->
  exists n1 r w, rebuildLocked env cb true n = (n1, Returns tt) /\ serveWork GET n1 = (n1, Returns r) /\ fetchWork (Ok r) = Ok w
    /\ forall rand fuel stop a, is_u64 rand -> exists wk, takeWork w rand newWorker = Some wk
      /\ forall nonce o, Grind fuel (w_hdr wk) (w_target wk) (w_next wk) stop = Some (nonce, true, o) ->
        (satisfiesPoW (ho_header o) = true -> n_headers net (ho_header o)) ->
        exists n2 resp, serveShare env cb POST (submitBody (wr_WorkID (w_cur wk)) nonce (Address_Hex a)) n1 = (n2, Returns resp)
          /\ readSubmit (Ok resp) = Ok (satisfiesPoW (ho_header o))
          /\ sh_addr <$> last (ring (own n2)) = Some a
          /\ b_Header (Head (chain (shared n2))) = if satisfiesPoW (ho_header o) then ho_header o else b_Header (Head (chain (shared n))).
Proof.
  intros Hn Hrel Hal Hr Hm Hck Hcfg.
  destruct (rebuild_spec net Hn env cb n Hal) as (n1 & t & b & k & Er & Hof & Hk & Hk1 & Hr1 & Eh & Eid & Epool & Ecf & _); [by split; auto using clock_past_ok|].
  rewrite <- Ecf in Hcfg. destruct (fetch_offer env cb n1 t b k Hof Hcfg) as (r & Es & Ef & Htw).
  eexists n1, r, _. split_and!; [done..|]. intros rand fuel stop a Hrand. eexists. split; [apply Htw|].
  cbn [w_hdr w_target w_next w_cur wr_WorkID workResp_of]. intros nonce o Eg HP.
  apply Grind_found in Eg as (Hnu & Hh & Eo); [|done]. cbn [ho_header] in *. rewrite Eo in *.
  destruct (share_spec net Hn env cb n1 t b k nonce a Hal Hrel Hof Hr1) as (n2 & E2 & Hring & Hhead); try done.
  { by rewrite Eid, Epool. }
  { unfold Head in Eh. rewrite Eh. destruct Hck as [C1 C2 C3]. split; [done..|]. intros k' Hk'. apply C3. lia. }
  exists n2. eexists. split; [|split; [|split]].
  - unfold serveShare. rewrite bool_decide_eq_true_2 by done. cbn [negb]. unfold submitBody at 1.
    rewrite take_ge by (by apply submit_length).
    rewrite (decodeStream_all _ (fun q => is_u64 (sq_Nonce q))) by (apply shareRequest_ok || done). cbn [sq_WorkID sq_Address sq_Nonce].
    rewrite HashFromHex_Hex_lemma, AddressFromHex_Hex_lemma. unfold act_bind, attempt. rewrite E2. reflexivity.
  - by destruct (satisfiesPoW _).
  - by rewrite Hring.
  - rewrite Hhead. destruct (satisfiesPoW _); [done|]. by rewrite Eh.
Qed.

(** The split of a reward is exact.  The shares counted are the newest ones: all of them, or just as many
    as reach the window, so that the oldest one counted was still needed.  Every address gets its part of
    the pot in proportion to its work among those, rounded down, and nothing if that is zero.  Together
    they never get more than the pot, and less than one unit per share counted is left over. *)
Theorem pplns_exact c shares pot diff : 0 <= pot -> exists used older, split_of c shares pot diff used older (pplns c shares pot diff).
Proof. apply pplns_lemma. Qed.

Definition workerA : Address := array_of 20 [x01].
Definition workerB : Address := array_of 20 [x02].
Definition smallConfig : Config := fillDefaults (mkConfig 0 0 0 0 0 None (str "ledger.json") 0).
Definition threeShares : list share := [mkShare workerA 9; mkShare workerB 3; mkShare workerA 4].

Lemma pplns_exact_witness : exists used older, split_of smallConfig threeShares 100 3 used older (pplns smallConfig threeShares 100 3)
  /\ pplns smallConfig threeShares 100 3 !! workerA = Some 57 /\ pplns smallConfig threeShares 100 3 !! workerB = Some 42.
Proof.
  destruct (pplns_exact smallConfig threeShares 100 3) as (used & older & Hs); [lia|].
  exists used, older. split; [exact Hs|]. split; vm_compute; reflexivity.
Defined.

(** C13: The pool's books balance over any run: turns of the engine, shares, changes of chain and pool by
    others, and restarts from the file.  If the file can be written, the sum of what the pool owes, what
    it will owe when its blocks mature, and what it has paid out grows by no more than the pots of the
    blocks it won; no amount is negative; and a server started now on the file has the same balances, the
    same pending blocks and the same total paid. *)
Theorem ledger_conserved `{Crypto} `{Bn256} {D} `{KV D} (env : Env D) key cb broadcast walkBalances walkText n w n' c :
  (forall m, walkText m ≡ₚ (map_to_list m).*1) -> (forall k, journalOK env k = true) -> StatePath c <> [] ->
  solvent (own n) -> serves env key cb broadcast walkBalances walkText n w n' ->
  debt (ledger (own n')) <= debt (ledger (own n)) + w /\ ledger_ok (ledger (own n'))
  /\ exists s, NewServer walkText c (Ok (file (own n'))) = Ok s /\ money (ledger s) = money (ledger (own n')).
Proof.
  intros Hw Hj Hp Hs Hrun. destruct (serves_solvent env key cb broadcast walkBalances walkText Hw Hj n w n' Hrun Hs) as [[_ Hok Hd] Hle].
  split_and!; [done|done|]. destruct (restart_money walkText Hw c (own n') Hp Hd) as (s & E & Em & _). by exists s.
Qed.

(** Rewards are credited when they are safe, and only those the chain kept.  After [matureLocked] at a head
    height, the pending blocks are those not yet [Confirmations] below it, in their order; every other one
    has left, and each address has gained exactly what the blocks among them owe it that the canonical
    chain holds at their height.  Nothing is paid out. *)
Theorem maturity_exact `{Crypto} `{Bn256} {D} `{KVLaws D} net (env : Env D) h (n : Node D Server) :
  alone env -> wf_network net -> reachable net (chain (shared n)) ->
  Forall (fun fb => is_u64 (fb_Height fb)) (pending (ledger (own n))) ->
  exists n', matureLocked env h n = (n', Returns tt)
    /\ pending (ledger (own n')) = filter (fun fb => deep (cfg (own n)) h fb = false) (pending (ledger (own n)))
    /\ totalPaid (ledger (own n')) = totalPaid (ledger (own n))
    /\ forall a, default 0 (balances (ledger (own n')) !! a)
       = default 0 (balances (ledger (own n)) !! a) + maturedFor a (chain (shared n)) (cfg (own n)) h (pending (ledger (own n))).
Proof. intros. by eapply matureLocked_exact. Qed.

(** A share counts once.  [handleShare] refuses a nonce for a template that is gone, a nonce already
    credited on the template, and one whose hash misses the share target, with three different errors and
    no change to the shares or the ledger.  Any other nonce that makes no block adds one share of the
    template's difficulty for the sender, moves no money, and is refused as a duplicate from then on. *)
Theorem share_counts_once `{Crypto} `{Bn256} {D} `{KV D} (env : Env D) cb id nonce a n :
  match share_outcome id nonce (own n) with
  | Some e => exists n', handleShare env cb id nonce a n = (n', Raises e) /\ ring (own n') = ring (own n) /\ ledger (own n') = ledger (own n)
  | None => forall t, templates (own n) !! id = Some t -> t_blockTarget t < be2z (abytes (Header_Hash (with_nonce nonce (t_hdr t)))) ->
      exists n', handleShare env cb id nonce a n = (n', Returns false)
        /\ ring (own n') = lastN maxRing (ring (own n) ++ [mkShare a (t_shareDiff t)])
        /\ totalShares (ledger (own n')) = u64 (totalShares (ledger (own n)) + 1) /\ money (ledger (own n')) = money (ledger (own n))
        /\ share_outcome id nonce (own n') = Some ErrDuplicate
  end.
Proof. destruct (share_outcome id nonce (own n)) eqn:E; [by apply share_refused|]. intros t. by apply share_credited. Qed.

(** ** A small pool *)

Definition smallServer : Server := mkServer smallConfig 0 ∅ ZeroHash [] emptyLedger ∅ [] 0 false None.

Definition poolNode : Node Memory Server := mkNode smallServer (mkShared chain0 None (Mempool_New 100)) 0 [].

Definition nine : Address := array_of 20 [x09].

Definition smallKey : privKey := tt.

Definition keysOf {V} (_ : nat) (m : gmap Address V) : list Address := (map_to_list m).*1.

Lemma poolNode_clock ms h t : 0 <= ms < 2 ^ 62 -> Timestamp h <= ms -> clock_past (smallEnv ms) h t.
Proof. intros Hr Hms. unfold smallEnv. split; intros; unfold UnixMilli; cbn [clock]; rewrite ?Z.div_mul by lia; lia. Qed.

(** The first nonce the worker tries makes the block [a1]. *)
Definition smallFound (rand : Z) : option Z :=
  match snd (rebuildLocked (smallEnv 241000) nine true poolNode) with
  | Returns _ =>
      match snd (serveWork GET (fst (rebuildLocked (smallEnv 241000) nine true poolNode))) with
      | Returns r =>
          match fetchWork (Ok r) with
          | Ok w => match takeWork w rand newWorker with
                    | Some wk => match Grind 3 (w_hdr wk) (w_target wk) (w_next wk) (fun _ => false) with
                                 | Some (nonce, true, o) => if bool_decide (ho_header o = a1) && satisfiesPoW a1 then Some nonce else None
                                 | _ => None
                                 end
                    | None => None
                    end
          | _ => None
          end
      | _ => None
      end
  | _ => None
  end.

Lemma pool_round_witness : exists n1 body n2 resp,
  rebuildLocked (smallEnv 241000) nine true poolNode = (n1, Returns tt)
  /\ serveShare (smallEnv 241000) nine POST body n1 = (n2, Returns resp)
  /\ readSubmit (Ok resp) = Ok true /\ b_Header (Head (chain (shared n2))) = a1.
Proof.
  assert (smallFound 0 = Some 0) as Hf by (vm_compute; reflexivity).
  destruct (pool_round small (smallEnv 241000) nine poolNode small_wf Memory_reliable (solo_alone _) chain0_reachable (empty_minable _))
    as (n1 & r & w & E1 & E2 & E3 & Hall).
  { apply poolNode_clock; [lia|]. apply Z.leb_le. vm_compute. reflexivity. }
  { apply Z.leb_le. vm_compute. reflexivity. }
  destruct (Hall 0 3%nat (fun _ => false) workerA) as (wk & E4 & Hshare); [vm_compute; split; congruence|].
  unfold smallFound in Hf. rewrite E1 in Hf. cbn [fst snd] in Hf. rewrite E2 in Hf. cbn [snd] in Hf. rewrite E3, E4 in Hf.
  destruct (Grind 3 _ _ _ _) as [[[nonce []] o]|]; try discriminate Hf.
  destruct (bool_decide_reflect (ho_header o = a1)) as [Eo|]; [|discriminate Hf].
  destruct (satisfiesPoW a1) eqn:Ep; [|discriminate Hf].
  destruct (Hshare nonce o eq_refl) as (n2 & resp & E5 & E6 & _ & E7).
  { intros _. rewrite Eo. exact (list_elem_of_lookup_2 smallHeaders 1 a1 eq_refl). }
  rewrite Eo, Ep in E6, E7. eexists n1, _, n2, resp. split; [exact E1|]. split; [exact E5|]. split; [exact E6|exact E7].
Defined.

Definition poolNode1 : Node Memory Server := fst (poolTick (smallEnv 241000) smallKey nine None keysOf poolNode).

Definition poolNode2 : Node Memory Server := fst (handleShare (smallEnv 241000) nine (current (own poolNode1)) 0 workerA poolNode1).

Definition allKeys {V} (m : gmap (list byte) V) : list (list byte) := (map_to_list m).*1.

Lemma smallServer_solvent : solvent smallServer.
Proof.
  split; [discriminate|split|split].
  - intros a v. cbn. by rewrite lookup_empty.
  - constructor.
  - by repeat split.
  - reflexivity.
Qed.

(** A turn of the engine, a winning share, and a restart. *)
Lemma ledger_conserved_witness :
  debt (ledger (own poolNode2)) <= 25 * 10 ^ 18 - payoutGasReserve
  /\ exists s, NewServer allKeys smallConfig (Ok (file (own poolNode2))) = Ok s /\ money (ledger s) = money (ledger (own poolNode2)).
Proof.
  assert (serves (smallEnv 241000) smallKey nine None keysOf allKeys poolNode
    (0 + income (own poolNode1) (own poolNode2) (current (own poolNode1))) poolNode2) as Hrun.
  { eapply SV_share; [|apply surjective_pairing]. eapply SV_tick; [apply SV_start|].
    assert (match snd (poolTick (smallEnv 241000) smallKey nine None keysOf poolNode) with Returns _ => true | _ => false end = true) as E by (vm_compute; reflexivity).
    unfold poolNode1. destruct (poolTick _ _ _ _ _ poolNode) as [n' [[]| | |]]; try discriminate E. reflexivity. }
  destruct (ledger_conserved (smallEnv 241000) smallKey nine None keysOf allKeys poolNode _ poolNode2 smallConfig (fun m => reflexivity _)
    (fun k => eq_refl) ltac:(discriminate) smallServer_solvent Hrun) as (Hd & _ & Hr).
  split; [|exact Hr]. etransitivity; [exact Hd|]. apply Z.leb_le. vm_compute. reflexivity.
Defined.

(** One block of the chain, one that a reorg removed, one too young. *)
Definition threeFound : list foundBlock :=
  [mkFound 1 (Header_Hash a1) {[workerA := 5]}; mkFound 1 ZeroHash {[workerA := 7]}; mkFound 2 (Header_Hash a2) {[workerA := 11]}].

Definition waitingNode : Node Memory Server :=
  mkNode (with_ledger (mkLedger threeFound ∅ 0 3 0 0) (mkServer (fillDefaults (mkConfig 0 0 0 1 0 None [] 0)) 0 ∅ ZeroHash [] emptyLedger ∅ [] 0 false None))
    (mkShared chain2 None (Mempool_New 100)) 0 [].

Lemma maturity_exact_witness : exists n', matureLocked (smallEnv 481000) 2 waitingNode = (n', Returns tt)
  /\ pending (ledger (own n')) = [mkFound 2 (Header_Hash a2) {[workerA := 11]}] /\ default 0 (balances (ledger (own n')) !! workerA) = 5.
Proof.
  destruct (maturity_exact small (smallEnv 481000) 2 waitingNode (solo_alone _) small_wf chain2_reachable) as (n' & E & Ep & _ & Eb).
  - repeat (apply Forall_cons; split); [vm_compute; split; congruence..|constructor].
  - exists n'. split; [exact E|]. split; [rewrite Ep; vm_compute; reflexivity|]. rewrite Eb. vm_compute. reflexivity.
Defined.

(** ** The treasury's share *)

(** The pot of a block whose only share is [a]'s goes to [a]. *)
Lemma pplns_one c a d pot diff : 0 < pot -> 0 < SetUint64 d -> 0 < SetUint64 diff * SetUint64 (WindowFactor c) ->
  sumAmounts (pplns c [mkShare a d] pot diff) = pot.
Proof.
  intros Hp Hd Hw. destruct (pplns_lemma c [mkShare a d] pot diff ltac:(lia)) as (used & older & [Es Hwin _ Ha Htot _]).
  assert (used = [mkShare a d]) as ->.
  { destruct older as [|sh older]; [by rewrite Es|]. destruct used as [|]; [|by destruct older]. destruct Hwin as [|Hwin]; [done|]. cbn in Hwin. lia. }
  specialize (Ha a). cbn in Ha. rewrite decide_True in Ha by done. rewrite Z.add_0_r, Z.div_mul in Ha by lia. rewrite (proj2 (Z.ltb_lt _ _) Hp) in Ha.
  pose proof (pplns_nonneg c [mkShare a d] pot diff ltac:(lia)) as Hn. apply Z.le_antisymm; [done|].
  rewrite <- (insert_delete_id _ _ _ Ha), sum_insert_fresh by apply lookup_delete_eq. enough (0 <= sumAmounts (delete a (pplns c [mkShare a d] pot diff))) by lia.
  apply sum_nonneg. intros b v [_ Hv]%lookup_delete_Some. by apply (Hn b).
Qed.

(** On a chain that pays part of every block reward to a treasury, the pool promises its workers more than
    it earns.  The pot is computed from the whole reward; the pool's wallet is credited with the reward
    less the treasury's part, so as soon as that part exceeds the two million units held back for gas, a
    block's payouts exceed what the block brought in. *)
Theorem treasury_overpromised split s miner h c a d diff :
  0 < TreasuryRewardBasisPoints split <= 10000 -> TreasuryRewardAddress split <> ZeroAddress -> TreasuryRewardAddress split <> miner ->
  FeeBps c = 0 -> payoutGasReserve < BlockRewardAt h * TreasuryRewardBasisPoints split / 10000 ->
  0 < SetUint64 d -> 0 < SetUint64 diff * SetUint64 (WindowFactor c) ->
  State_Balance (CreditBlockReward split s miner h) miner - State_Balance s miner < sumAmounts (pplns c [mkShare a d] (potOf c h 0) diff).
Proof.
  intros Hb Hz Hm Hf Hcut Hd Hw. set (R := BlockRewardAt h) in *. set (cut := R * TreasuryRewardBasisPoints split / 10000) in *.
  assert (payoutGasReserve < R) as HR by (unfold payoutGasReserve, cut in *; Z.to_euclidean_division_equations; nia).
  assert (potOf c h 0 = R - payoutGasReserve) as ->.
  { unfold potOf. rewrite Hf. cbn [Z.ltb Z.compare]. fold R. rewrite Z.add_0_r. destruct (Z.ltb_spec (R - payoutGasReserve) 0); [lia|done]. }
  rewrite pplns_one by lia. enough (State_Balance (CreditBlockReward split s miner h) miner = State_Balance s miner + (R - cut)) by lia.
  unfold CreditBlockReward. destruct (Z.ltb_spec 0 (TreasuryRewardBasisPoints split)); [|lia].
  destruct (array_eqb_spec (TreasuryRewardAddress split) ZeroAddress); [done|]. cbn [andb negb]. fold R cut.
  unfold State_Balance. rewrite Get_Credit, decide_True by done. cbn [Balance with_Balance]. f_equal.
  destruct (array_eqb _ BurnAddress); [unfold Burn; by destruct (_ <=? 0)|]. by rewrite Get_Credit, decide_False.
Qed.

Lemma treasury_overpromised_witness :
  State_Balance (CreditBlockReward (mkSplit 1000 workerB) State_New nine 1) nine - State_Balance State_New nine = 225 * 10 ^ 17
  /\ State_Balance (CreditBlockReward (mkSplit 1000 workerB) State_New nine 1) nine - State_Balance State_New nine
     < sumAmounts (pplns smallConfig [mkShare workerA 1] (potOf smallConfig 1 0) 1000).
Proof.
  split; [vm_compute; reflexivity|].
  apply treasury_overpromised; [cbn; lia|discriminate|discriminate|reflexivity|vm_compute; reflexivity..].
Defined.

(** ** Refreshed templates *)

(** A network whose hashes fill their range, so that most nonces are shares and not blocks. *)
Definition roughCrypto : Crypto := {|
  keccak256 := fun l => array_of 32 (be_fixed 32 (be2z (abytes (mix l)) * 2 ^ 195));
  RecoverCompact := fun sig _ => Some toyKey;
  curveN := 0xfffffffffffffffffffffffffffffffebaaedce6af48a03bbfd25e8cd0364141;
  privKey := unit;
  PrivKeyFromBytes := fun _ => tt;
  Serialize := fun _ => array_of 32 [];
  PubKey := fun _ => toyKey;
  SignCompact := fun _ _ => x1b :: replicate 64 x01;
|}.

Section Rough.
#[local] Existing Instance roughCrypto | 0.

Definition roughGenesis : Genesis := mkGenesis None 7 20000 30000000 {[ZeroAddress := Some 5]} 1000000 ZeroAddress 0.

Definition roughChain : Blockchain Memory :=
  opened (NewBlockchain NewMemory roughGenesis 4 smallOrder)
    (mkChain NewMemory 0 ZeroHash 0 0 0 (mkSplit 0 ZeroAddress) ∅ ∅ (mkBlock toyHeader [])).

(** The head is dated at twenty seconds; the clock shows eight, and nineteen at the second turn. *)
Definition roughEnv : Env Memory :=
  mkEnv (fun k => (if (k <? 11)%nat then 8000 else 19000) * 1000000) (fun _ s => s) (fun _ m => (map_to_list m).*1) (fun _ m => (map_to_list m).*1)
    (fun _ _ _ => listOrder) (fun _ => true) (fun _ _ => Ok tt) (fun _ _ _ => Err ErrUnknownPeer).

Definition roughNode : Node Memory Server :=
  mkNode (mkServer (fillDefaults (mkConfig 1000000 1 0 0 0 None [] 0)) 0 ∅ ZeroHash [] emptyLedger ∅ [] 0 false None)
    (mkShared roughChain None (Mempool_New 100)) 0 [].

Definition turn (n : Node Memory Server) : Node Memory Server := fst (poolTick roughEnv (tt : @privKey roughCrypto) nine None keysOf n).

Definition sameShare (n : Node Memory Server) : Node Memory Server * callres error bool :=
  handleShare roughEnv nine (current (own (turn roughNode))) 1 workerA n.

End Rough.

(** A share can count twice after all.  The template's id is the hash of its header with nonce zero, which is
    meant to be unique; while the clock is behind the head's timestamp, every refresh builds the same
    header, and the new template replaces the old one with an empty set of seen nonces.  Here the pool
    puts up a template, credits a share, refuses it as a duplicate, refreshes after eleven seconds, and
    credits the same nonce to the same worker again. *)
Theorem refresh_credits_twice :
  let n := turn roughNode in
  let n1 := fst (sameShare n) in
  let n2 := turn n1 in
  snd (sameShare n) = Returns false /\ snd (sameShare n1) = Raises ErrDuplicate /\ current (own n2) = current (own n)
  /\ snd (sameShare n2) = Returns false /\ ring (own (fst (sameShare n2))) = [mkShare workerA 1; mkShare workerA 1].
Proof. vm_compute. auto. Qed.
