(* ===== verification/TxGossip.v ===== *)
(** * Transaction gossip (p2p/txgossip.go)

    A transaction arrives as bytes from a peer or from RPC.  [Accept] is the
    one gate to the mempool: stateless checks, then the head state, then the
    pool's own rules.  [onTx] decides which refusals count against the peer. *)
From stdpp Require Import base numbers list gmap.
From Stdlib Require Import ZArith Lia Strings.Byte.
From Stdlib Require Strings.String.
Import Strings.String.StringSyntax.
From S2P Require Import Prelude Common Types VmBase Precompiles Vm State Transition Json JsonCodec Store Schema Mempool.
From S2P Require Import Blockchain Scorer P2p.
#[local] Open Scope Z_scope.
#[local] Open Scope list_scope.
#[local] Open Scope act_scope.

Definition maxTxMessage : Z := Z.shiftl 128 10.

(** The wire format. *)
Definition txMessageC : codec (option Transaction) := structC None
  (fun m => [(str "tx", enc (ptrC txC) m)])
  (fun ms cur => field (ptrC txC) (str "tx") ms cur ≫= fun tx => Some tx).

Inductive txCounter : Type := T_Received | T_Duplicate | T_Accepted | T_Rejected | T_Dropped.

Record TxStats : Type := mkTxStats {
  ts_Received : Z; ts_Duplicate : Z; ts_Accepted : Z; ts_Rejected : Z; ts_Dropped : Z;
}.

Record TxGossip : Type := mkTxGossip { t_limiter : txRateLimiter; t_Stats : TxStats }.

Definition newTxGossip : TxGossip := mkTxGossip (newTxRateLimiter f_zero f_zero) (mkTxStats 0 0 0 0 0).

Definition tx_bump (c : txCounter) (s : TxStats) : TxStats :=
  match c with
  | T_Received => mkTxStats (ts_Received s + 1) (ts_Duplicate s) (ts_Accepted s) (ts_Rejected s) (ts_Dropped s)
  | T_Duplicate => mkTxStats (ts_Received s) (ts_Duplicate s + 1) (ts_Accepted s) (ts_Rejected s) (ts_Dropped s)
  | T_Accepted => mkTxStats (ts_Received s) (ts_Duplicate s) (ts_Accepted s + 1) (ts_Rejected s) (ts_Dropped s)
  | T_Rejected => mkTxStats (ts_Received s) (ts_Duplicate s) (ts_Accepted s) (ts_Rejected s + 1) (ts_Dropped s)
  | T_Dropped => mkTxStats (ts_Received s) (ts_Duplicate s) (ts_Accepted s) (ts_Rejected s) (ts_Dropped s + 1)
  end.

Definition isTransientReject (e : error) : bool :=
  match e with
  | ErrPoolFull | ErrNonceUsed | ErrNonceStale | ErrCannotPay | ErrUnderpriced => true
  | _ => false
  end.

Section TxGossip.
Context `{Crypto} `{Bn256} {D : Type} `{KV D} (env : Env D).

Abbreviation tact A := (act D TxGossip A).

Definition tbump (c : txCounter) : tact unit := on_own (fun t => (mkTxGossip (t_limiter t) (tx_bump c (t_Stats t)), tt)).

Definition tpenalize (from : PeerID) : tact unit :=
  let@ _ := tbump T_Rejected in
  score env from.

(** [limiter.allow(from)] *)
Definition tallow (from : PeerID) : tact bool := fun n =>
  let k := tick n in
  let (r, ok) := allow (t_limiter (own n)) from (clock env k) (walkBuckets env k) in
  (mkNode (mkTxGossip r (t_Stats (own n))) (shared n) (1 + k)%nat (events n), Returns ok).

Definition Accept (tx : option Transaction) : tact unit :=
  match tx with
  | None => act_fail ErrBadTxEncoding
  | Some tx =>
      let@ known := look env (fun s => Ok (Mempool_Get (pool s) (tx_Hash tx))) in
      match known with
      | Some _ => act_fail ErrAlreadyKnown
      | None =>
          let@ _ := look env (fun s => SanityCheck tx (chainID (chain s))) in
          let@ st := look env (fun s => StateSnapshot (chain s)) in
          let@ _ := act_res (CheckState st tx) in
          poolAdd env tx
      end
  end.

Definition onTx (from : PeerID) (data : list byte) : tact unit :=
  let@ banned := isBanned env from in
  if banned then tbump T_Dropped
  else
    let@ ok := tallow from in
    if negb ok then tbump T_Dropped
    else
      let@ _ := tbump T_Received in
      if maxTxMessage <? len data then
        let@ _ := tpenalize from in
        act_fail ErrTxMessageTooLarge
      else
        match decodeJSON txMessageC data with
        | Ok (Some tx) =>
            let@ r := attempt (Accept (Some tx)) in
            match r with
            | inr _ => tbump T_Accepted
            | inl ErrAlreadyKnown => tbump T_Duplicate
            | inl e =>
                if isTransientReject e then let@ _ := tbump T_Dropped in act_fail e
                else let@ _ := tpenalize from in act_fail e
            end
        | _ =>
            let@ _ := tpenalize from in
            act_fail ErrBadTxEncoding
        end.

(** A transaction of our own, published after it was pooled. *)
Definition Broadcast (tx : Transaction) : tact unit :=
  ask (fun k => match publish env k (encodeJSON txMessageC (Some tx)) with
                | Ok _ => Returns tt
                | Err e => Raises e
                | Panic => Panics
                end).

Definition TxSnapshot (t : TxGossip) : TxStats := t_Stats t.

End TxGossip.
