(* ===== verification/TxGossipProps.v ===== *)
(** * Transaction gossip: what is admitted, and who is blamed *)
From stdpp Require Import base numbers list gmap.
From Stdlib Require Import ZArith Lia Strings.Byte.
From S2P Require Import Prelude Common Types VmBase Precompiles Vm VmProofs VmProps State StateInv Transition Pow Genesis Json JsonCodec Store Schema SchemaProofs.
From S2P Require Import Mempool MempoolProofs Producer Blockchain ChainInv ChainInsert ChainOpen ChainProps Scorer P2p P2pProofs GossipProps TxGossip.
#[local] Open Scope Z_scope.
#[local] Open Scope list_scope.
#[local] Open Scope go_scope.
#[local] Open Scope act_scope.

Section Blame.
Context `{Crypto} `{Bn256} {D : Type} `{KV D} (env : Env D).

(** The rest of the node does not change the chain's identity. *)
Definition keeps_chain_id : Prop := forall k s, chainID (chain (meanwhile env k s)) = chainID (chain s).

(** What well-formed transactions are refused for. *)
Definition poolRefusal (e : error) : Prop := e = ErrAlreadyKnown \/ isTransientReject e = true \/ e = ErrAccountLimit.

Lemma SanityCheck_sender tx id : SanityCheck tx id = Ok tt -> (exists a, Sender tx = Ok a) /\ exists c, Cost tx = Ok c.
Proof.
  unfold SanityCheck, Cost. destruct (negb (isKnownTxType _)); [done|]. destruct (negb (_ =? id)); [done|].
  destruct (tx_Value tx) as [v|]; [|done]. destruct (_ <? 0); [done|]. destruct (tx_GasPrice tx) as [p|]; [|done]. destruct (_ <? 0); [done|].
  destruct (_ <? _); [done|]. destruct (negb _); [done|]. destruct (Sender tx) as [a| |]; [|done..]. intros _. split; [by exists a|]. by eexists.
Qed.

Lemma lowestPriced_err l min e : lowestPriced l min <> Err e.
Proof.
  revert min. induction l as [|[h tx] l IH]; intros min; cbn; [done|]. destruct min as [cur|]; [|apply IH].
  destruct (tx_GasPrice tx); [|done]. cbn. destruct (tx_GasPrice cur); [|done]. cbn. apply IH.
Qed.

Lemma makeRoom_err m tx it e : snd (makeRoom m tx it) = Err e -> e = ErrPoolFull.
Proof.
  unfold makeRoom. destruct (_ <=? _); [|done]. pose proof (lowestPriced_err (ord_all it (m_all m)) None) as Hl.
  destruct (lowestPriced _ _) as [[c|]|x|]; cbn; [|by intros [= <-]|by intros [= ->]; edestruct Hl|done].
  destruct (tx_GasPrice tx), (tx_GasPrice c); [|done..]. destruct (_ <=? _); [by intros [= <-]|].
  destruct (Sender c); [|by intros [= <-]|done]. by destruct (tailOf _).
Qed.

Lemma add_refusal m tx c fl it e : SanityCheck tx c = Ok tt -> snd (Mempool_add m tx c fl it) = Err e -> poolRefusal e.
Proof.
  intros Hs. destruct (SanityCheck_sender tx c Hs) as [[a Ha] _]. unfold Mempool_add. rewrite Hs, Ha. cbn [res_bind].
  assert (forall x, belowFloor m tx fl <> Err x) as Hf.
  { intros x. unfold belowFloor. destruct (minGasPrice m); [|done]. destruct (_ && _); [|done]. by destruct (tx_GasPrice tx). }
  destruct (belowFloor m tx fl) as [[]|x|]; cbn [res_bind]; [intros [= <-]; right; by left| |by destruct (Hf x)|done].
  destruct (m_all m !! tx_Hash tx); [intros [= <-]; by left|]. destruct (default ∅ _ !! _); [intros [= <-]; right; by left|].
  destruct (_ <=? _); [intros [= <-]; by right; right|]. set (m1 := with_index _ _ _). pose proof (makeRoom_err m1 tx it) as Hr.
  destruct (makeRoom m1 tx it) as [m2 [[]|x|]].
  - unfold insertTx. by destruct (byAcct m2 !! a).
  - cbn in *. intros [= <-]. rewrite (Hr x eq_refl). right. by left.
  - done.
Qed.

(** [Accept] refuses a well-formed transaction only for what the pool and the head state are. *)
Lemma Accept_refusal tx (n : Node D TxGossip) :
  keeps_chain_id -> SanityCheck tx (chainID (chain (shared n))) = Ok tt ->
  match Accept env (Some tx) n with
  | (n', Raises e) => own n' = own n /\ poolRefusal e
  | (n', OutOfFuel) => False
  | (n', _) => own n' = own n
  end.
Proof.
  intros Hid Hs. unfold Accept. unfold act_bind at 1, look at 1, on_shared at 1. cbn [own shared tick events].
  destruct (Mempool_Get _ _); [by repeat split; left|].
  unfold act_bind at 1, look at 1, on_shared at 1. cbn [own shared tick events]. rewrite !Hid, Hs.
  unfold act_bind at 1, look at 1, on_shared at 1. cbn [own shared tick events].
  destruct (StateSnapshot _) as [st|e|] eqn:Est; cbn [own]; [|exfalso|done].
  2:{ unfold StateSnapshot, headState in Est. by destruct (states _ !! _). }
  destruct (SanityCheck_sender tx _ Hs) as [[a Ha] [c Hc]].
  unfold act_bind at 1, act_res at 1. destruct (CheckState st tx) as [[]|e|] eqn:Eck; cbn [own]; [|split; [done|]|done].
  - unfold poolAdd, on_shared. cbn [own shared tick events]. unfold Mempool_Add. rewrite !Hid.
    destruct (Mempool_add _ _ _ _ _) as [p [[]|e|]] eqn:Eadd; cbn [own]; [done| |done]. split; [done|].
    eapply (add_refusal _ tx _ _ _ e Hs). by rewrite Eadd.
  - unfold CheckState in Eck. rewrite Ha in Eck. cbn [res_bind] in Eck. destruct (_ <? _); [injection Eck as <-; right; by left|].
    rewrite Hc in Eck. cbn [res_bind] in Eck. destruct (_ <? _); [injection Eck as <-; right; by left|done].
Qed.

Lemma isBanned_keeps from (n : Node D TxGossip) :
  exists s b, isBanned env from n = (mkNode (own n) s (1 + tick n)%nat (events n), Returns b)
    /\ chain s = chain (meanwhile env (tick n) (shared n)) /\ pool s = pool (meanwhile env (tick n) (shared n)).
Proof.
  unfold isBanned, on_shared. destruct (scorer _) as [sc|]; [|by eexists _, _]. destruct (Banned sc from _) as [sc' b]. by eexists _, _.
Qed.

(** Two of the counters. *)
Definition rejected (n : Node D TxGossip) : Z := ts_Rejected (t_Stats (own n)).
Definition accepted (n : Node D TxGossip) : Z := ts_Accepted (t_Stats (own n)).

Lemma tallow_keeps from (n : Node D TxGossip) : exists n1 ok, tallow env from n = (n1, Returns ok) /\ shared n1 = shared n /\ t_Stats (own n1) = t_Stats (own n).
Proof. unfold tallow. destruct (allow _ _ _ _) as [r ok]. by eexists _, _. Qed.

Lemma tpenalize_counts from e (n : Node D TxGossip) :
  exists n', (let@ _ := tpenalize env from in act_fail e) n = (n', Raises (A := unit) e) /\ rejected n' = rejected n + 1 /\ accepted n' = accepted n.
Proof.
  unfold tpenalize, tbump, score, act_bind, on_own, on_shared, act_fail. cbn.
  destruct (scorer _) as [sc|]; [|by eexists]. destruct (Penalize _ _ _ _ _). by eexists.
Qed.

Lemma onTx_fair_lemma from data tx (n : Node D TxGossip) :
  keeps_chain_id -> len data <= maxTxMessage -> decodeJSON txMessageC data = Ok (Some tx) ->
  SanityCheck tx (chainID (chain (shared n))) = Ok tt ->
  let (n', r) := onTx env from data n in
  rejected n' = rejected n \/ r = Raises ErrAccountLimit /\ rejected n' = rejected n + 1.
Proof.
  intros Hid Hlen Hd Hs. unfold onTx. unfold act_bind at 1. destruct (isBanned_keeps from n) as (s & b & -> & Ec & _).
  destruct b; [by left|]. unfold act_bind at 1. set (n0 := mkNode _ _ _ _). destruct (tallow_keeps from n0) as (n1 & ok & -> & Esh & Erej).
  destruct ok; cbn [negb]; [|unfold rejected; cbn; left; by rewrite Erej]. unfold act_bind at 1, tbump at 1, on_own at 1. set (n2 := mkNode _ _ _ _).
  destruct (Z.ltb_spec maxTxMessage (len data)); [lia|]. rewrite Hd. unfold act_bind at 1, attempt at 1.
  assert (SanityCheck tx (chainID (chain (shared n2))) = Ok tt) as Hs2.
  { cbn [n2 shared]. rewrite Esh. cbn [n0 shared]. by rewrite Ec, Hid. }
  assert (rejected n2 = rejected n) as E2 by (unfold rejected; cbn; by rewrite Erej).
  pose proof (Accept_refusal tx n2 Hid Hs2) as Hacc. unfold rejected in *.
  destruct (Accept env (Some tx) n2) as [n3 [[]|e| |]]; [cbn; left; by rewrite Hacc|..|left; by rewrite Hacc|done].
  destruct Hacc as [E3 [->|[Ht| ->]]].
  - cbn. left. by rewrite E3.
  - destruct e; try done; cbn; left; by rewrite E3.
  - cbn [isTransientReject]. destruct (tpenalize_counts from ErrAccountLimit n3) as (n4 & -> & E4 & _). unfold rejected in E4.
    right. split; [done|]. by rewrite E4, E3, E2.
Qed.

(** ** What is admitted *)

Lemma add_pools m tx c fl it m' : Mempool_add m tx c fl it = (m', Ok tt) -> Mempool_Get m' (tx_Hash tx) = Some tx.
Proof.
  unfold Mempool_add. destruct (let? _ := SanityCheck tx c in _) as [[a []]| |]; [done| |done..].
  destruct (m_all m !! tx_Hash tx); [done|]. destruct (default ∅ _ !! _); [done|]. destruct (_ <=? _); [done|].
  destruct (makeRoom _ tx it) as [m2 [[]| |]]; [|done..]. unfold insertTx. destruct (byAcct m2 !! a); [|done]. intros [= <-].
  unfold Mempool_Get. cbn. apply lookup_insert_eq.
Qed.

(** What [Accept] saw when nothing ran meanwhile. *)
Record admitted (tx : Transaction) (s s' : Shared D) : Prop := {
  ad_new : Mempool_Get (pool s) (tx_Hash tx) = None;
  ad_sane : SanityCheck tx (chainID (chain s)) = Ok tt;
  ad_state : exists st, StateSnapshot (chain s) = Ok st /\ CheckState st tx = Ok tt;
  ad_pooled : Mempool_Get (pool s') (tx_Hash tx) = Some tx;
}.

Lemma Accept_admits tx (n n' : Node D TxGossip) :
  (forall k s, meanwhile env k s = s) -> Accept env (Some tx) n = (n', Returns tt) -> admitted tx (shared n) (shared n').
Proof.
  intros Hq. unfold Accept. unfold act_bind at 1, look at 1, on_shared at 1. cbn [own shared tick events]. rewrite !Hq.
  destruct (Mempool_Get _ _) eqn:Ek; [done|].
  unfold act_bind at 1, look at 1, on_shared at 1. cbn [own shared tick events]. rewrite !Hq. destruct (SanityCheck _ _) as [[]| |] eqn:Es; [|done..].
  unfold act_bind at 1, look at 1, on_shared at 1. cbn [own shared tick events]. rewrite !Hq. destruct (StateSnapshot _) as [st| |] eqn:Est; [|done..].
  unfold act_bind at 1, act_res at 1. destruct (CheckState st tx) as [[]| |] eqn:Ec; [|done..].
  unfold poolAdd, on_shared. cbn [own shared tick events]. rewrite !Hq. unfold Mempool_Add.
  destruct (Mempool_add _ _ _ _ _) as [p [[]| |]] eqn:Ea; [|done..]. intros [= <-]. split; [done|done|by exists st|].
  cbn. by eapply add_pools.
Qed.

Lemma Accept_own tx (n : Node D TxGossip) : own (fst (Accept env (Some tx) n)) = own n.
Proof.
  unfold Accept. unfold act_bind at 1, look at 1, on_shared at 1. cbn [own shared tick events]. destruct (Mempool_Get _ _); [done|].
  unfold act_bind at 1, look at 1, on_shared at 1. cbn [own shared tick events]. destruct (SanityCheck _ _) as [[]| |]; [|done..].
  unfold act_bind at 1, look at 1, on_shared at 1. cbn [own shared tick events]. destruct (StateSnapshot _) as [st| |]; [|done..].
  unfold act_bind at 1, act_res at 1. destruct (CheckState st tx) as [[]| |]; [|done..].
  unfold poolAdd, on_shared. cbn [own shared tick events]. by destruct (Mempool_Add _ _ _ _).
Qed.

Lemma onTx_admits_lemma from data (n n' : Node D TxGossip) r :
  (forall k s, meanwhile env k s = s) -> onTx env from data n = (n', r) -> accepted n' <> accepted n ->
  exists tx, decodeJSON txMessageC data = Ok (Some tx) /\ len data <= maxTxMessage /\ admitted tx (shared n) (shared n').
Proof.
  intros Hq. unfold onTx. unfold act_bind at 1. destruct (isBanned_keeps from n) as (s & b & -> & Ec & Ep). rewrite Hq in Ec, Ep.
  destruct b; [by intros [= <- _]|]. unfold act_bind at 1. set (n0 := mkNode _ _ _ _). destruct (tallow_keeps from n0) as (n1 & ok & -> & Esh & Est).
  destruct ok; cbn [negb]; [|intros [= <- _]; unfold accepted; cbn; by rewrite Est].
  unfold act_bind at 1, tbump at 1, on_own at 1. set (n2 := mkNode _ _ _ _).
  assert (accepted n2 = accepted n) as E2 by (unfold accepted; cbn; by rewrite Est).
  assert (forall e, (let@ _ := tpenalize env from in act_fail e) n2 = (n', r) -> accepted n' <> accepted n -> False) as Hbad.
  { intros e. destruct (tpenalize_counts from e n2) as (n4 & -> & _ & E4). intros [= <- _]. by rewrite E4. }
  destruct (Z.ltb_spec maxTxMessage (len data)); [intros E Hne; by destruct (Hbad _ E Hne)|].
  destruct (decodeJSON txMessageC data) as [[tx|]| |]; [|intros E Hne; by destruct (Hbad _ E Hne)..].
  unfold act_bind at 1, attempt at 1. pose proof (Accept_own tx n2) as Eo. pose proof (Accept_admits tx n2) as Ha.
  destruct (Accept env (Some tx) n2) as [n3 [[]|e| |]]; cbn in Eo.
  - intros [= <- _] _. exists tx. split_and!; [done..|]. destruct (Ha n3 Hq eq_refl) as [A1 A2 A3 A4].
    cbn [n2 shared] in A1, A2, A3. rewrite Esh in A1, A2, A3. cbn [n0 shared] in A1, A2, A3. rewrite Ep in A1. rewrite Ec in A2, A3. by split.
  - destruct (tpenalize_counts from e n3) as (n4 & E4 & _ & Ea4).
    assert (accepted n3 = accepted n) as E3 by (unfold accepted; by rewrite Eo).
    destruct e; cbn [isTransientReject]; rewrite ?E4; intros [= <- _]; try (by rewrite Ea4); unfold accepted in *; cbn; by rewrite ?E3.
  - intros [= <- _]. unfold accepted. by rewrite Eo.
  - intros [= <- _]. unfold accepted. by rewrite Eo.
Qed.

End Blame.

(** ** A sender at its limit *)

#[local] Existing Instance mixCrypto.
#[local] Existing Instance toyBn256.

(** A free transfer of the toy key, on the small network. *)
Definition freeTx (nonce : Z) : Transaction :=
  mkTx TxTypeTransfer 7 nonce (Some ZeroAddress) (Some 0) 21000 (Some 0) [] (x1b :: replicate 64 x01).

Definition txAnnounced (tx : Transaction) : list byte := encodeJSON txMessageC (Some tx).

Definition txNode : Node Memory TxGossip :=
  mkNode newTxGossip (mkShared chain0 (Some (NewScorer 0)) (Mempool_New 1000)) 0 [].

(** The peer [a] relays the transactions with these nonces. *)
Definition relayed (nonces : list Z) : Node Memory TxGossip :=
  fold_left (fun n k => fst (onTx (smallEnv 500000) [x61] (txAnnounced (freeTx k)) n)) nonces txNode.

(** ** Properties *)

(** A peer that relays a well-formed transaction is not blamed for it, whatever the pool and the head
    state make of it and whatever runs meanwhile: the only refusal that counts as a rejection is
    [ErrAccountLimit].  A well-formed transaction is one that passes [SanityCheck]. *)
Theorem onTx_fair `{Crypto} `{Bn256} {D} `{KV D} (env : Env D) from data tx n :
  keeps_chain_id env -> len data <= maxTxMessage -> decodeJSON txMessageC data = Ok (Some tx) ->
  SanityCheck tx (chainID (chain (shared n))) = Ok tt ->
  let (n', r) := onTx env from data n in
  rejected n' = rejected n \/ r = Raises ErrAccountLimit /\ rejected n' = rejected n + 1.
Proof. apply onTx_fair_lemma. Qed.

Lemma freeTx_decodes : decodeJSON txMessageC (txAnnounced (freeTx 0)) = Ok (Some (freeTx 0)).
Proof. vm_compute. reflexivity. Qed.

Lemma onTx_fair_witness :
  let (n', r) := onTx (smallEnv 500000) [x61] (txAnnounced (freeTx 0)) txNode in
  rejected n' = 0 \/ r = Raises ErrAccountLimit /\ rejected n' = 1.
Proof.
  apply (onTx_fair (smallEnv 500000) [x61] (txAnnounced (freeTx 0)) (freeTx 0) txNode); [done| |exact freeTx_decodes|vm_compute; reflexivity].
  apply Z.leb_le. vm_compute. reflexivity.
Defined.

(** The pool is reached only through both gates.  When nothing runs meanwhile, a message makes [onTx] count
    an acceptance only if it decodes to a transaction that was not pooled, that passes [SanityCheck] and, at
    the head state, [CheckState] (its nonce is not spent and its sender can pay); and then it is pooled. *)
Theorem onTx_admits `{Crypto} `{Bn256} {D} `{KV D} (env : Env D) from data n n' r :
  (forall k s, meanwhile env k s = s) -> onTx env from data n = (n', r) -> accepted n' <> accepted n ->
  exists tx, decodeJSON txMessageC data = Ok (Some tx) /\ len data <= maxTxMessage /\ admitted tx (shared n) (shared n').
Proof. apply onTx_admits_lemma. Qed.

Lemma onTx_admits_witness :
  exists tx, decodeJSON txMessageC (txAnnounced (freeTx 0)) = Ok (Some tx) /\ len (txAnnounced (freeTx 0)) <= maxTxMessage
    /\ admitted tx (shared txNode) (shared (fst (onTx (smallEnv 500000) [x61] (txAnnounced (freeTx 0)) txNode))).
Proof.
  apply (onTx_admits (smallEnv 500000) [x61] (txAnnounced (freeTx 0)) txNode _
    (snd (onTx (smallEnv 500000) [x61] (txAnnounced (freeTx 0)) txNode))); [done|apply surjective_pairing|].
  assert ((accepted (fst (onTx (smallEnv 500000) [x61] (txAnnounced (freeTx 0)) txNode)) =? accepted txNode) = false) as E by (vm_compute; reflexivity).
  by apply Z.eqb_neq.
Defined.

(** [ErrAccountLimit] counts against the relayer: a sender with 64 pooled transactions sends one more, and the
    peer that passes it on, all of whose messages were well formed, is penalised. *)
Theorem account_limit_blamed :
  let before := relayed (map Z.of_nat (seq 0 64)) in
  let (after, r) := onTx (smallEnv 500000) [x61] (txAnnounced (freeTx 64)) before in
  SanityCheck (freeTx 64) 7 = Ok tt
  /\ (ts_Accepted (t_Stats (own before)), ts_Rejected (t_Stats (own before))) = (64, 0)
  /\ match r with Raises ErrAccountLimit => true | _ => false end = true
  /\ match scorer (shared after) with Some sc => snd (Penalty sc [x61] 500000000000) | None => None end = Some 1.
Proof. vm_compute. repeat split. Qed.
