(* ===== verification/Sync.v ===== *)
(** * Headers-first sync (p2p/sync.go)

    The server answers questions about the canonical chain; the client asks
    for headers past its head, checks that they form a chain with work on a
    block it holds, fetches the bodies and inserts them.  A peer's answer is
    bytes: [request] of the environment, the transport's. *)
From stdpp Require Import base numbers list gmap.
From Stdlib Require Import ZArith Lia Strings.Byte.
From Stdlib Require Strings.String.
Import Strings.String.StringSyntax.
From S2P Require Import Prelude Common Types VmBase Precompiles Vm State Transition Pow Json JsonCodec Store Schema Wire Mempool.
From S2P Require Import Blockchain Scorer P2p.
#[local] Open Scope Z_scope.
#[local] Open Scope list_scope.
#[local] Open Scope act_scope.

Definition maxSyncMessage : Z := Z.shiftl 16 20.
Definition maxHeadersPerRequest : Z := 256.
Definition defaultSyncRate : Z := 20.
Definition defaultSyncBurst : Z := 40.

(** ** Messages *)

Definition kindHeaders : list byte := str "headers".
Definition kindBodies : list byte := str "bodies".

Record syncRequest : Type := mkRequest { sr_Kind : list byte; sr_From : Z; sr_Max : Z; sr_Hashes : list Hash }.

Record syncResponse : Type := mkResponse { sr_Headers : list (option Header); sr_Blocks : list (option rawBlock) }.

Definition syncRequestC : codec syncRequest := structC (mkRequest [] 0 0 [])
  (fun r => (str "kind", enc stringC (sr_Kind r))
            :: omitempty (sr_From r =? 0) (str "from") (enc (uintC 64) (sr_From r))
            ++ omitempty (sr_Max r =? 0) (str "max") (enc (uintC 64) (sr_Max r))
            ++ omitempty (len (sr_Hashes r) =? 0) (str "hashes") (enc (listC hashC) (sr_Hashes r)))
  (fun ms cur =>
     field stringC (str "kind") ms (sr_Kind cur) ≫= fun kind =>
     field (uintC 64) (str "from") ms (sr_From cur) ≫= fun from =>
     field (uintC 64) (str "max") ms (sr_Max cur) ≫= fun max =>
     field (listC hashC) (str "hashes") ms (sr_Hashes cur) ≫= fun hashes =>
     Some (mkRequest kind from max hashes)).

Definition syncResponseC : codec syncResponse := structC (mkResponse [] [])
  (fun r => omitempty (len (sr_Headers r) =? 0) (str "headers") (enc (listC (ptrC headerC)) (sr_Headers r))
            ++ omitempty (len (sr_Blocks r) =? 0) (str "blocks") (enc (listC (ptrC rawBlockC)) (sr_Blocks r)))
  (fun ms cur =>
     field (listC (ptrC headerC)) (str "headers") ms (sr_Headers cur) ≫= fun headers =>
     field (listC (ptrC rawBlockC)) (str "blocks") ms (sr_Blocks cur) ≫= fun blocks =>
     Some (mkResponse headers blocks)).

Record Syncer : Type := mkSyncer { y_limiter : txRateLimiter; syncing : bool }.

Definition newSyncer : Syncer := mkSyncer (newTxRateLimiter (f_of_Z defaultSyncRate) (f_of_Z defaultSyncBurst)) false.

Section Sync.
Context `{Crypto} `{Bn256} {D : Type} `{KV D} (env : Env D).

Abbreviation yact A := (act D Syncer A).

(** ** The server *)

Definition yallow (from : PeerID) : yact bool := fun n =>
  let k := tick n in
  let (r, ok) := allow (y_limiter (own n)) from (clock env k) (walkBuckets env k) in
  (mkNode (mkSyncer r (syncing (own n))) (shared n) (1 + k)%nat (events n), Returns ok).

Definition blockAt (height : Z) : yact Block := on_chain env (fun _ => BlockByHeight height).

(** [i] of the headers asked for are left, from [height] on. *)
Fixpoint serveHeaders (i : nat) (height : Z) : yact (list Header) :=
  match i with
  | O => act_ret []
  | S i =>
      let@ r := attempt (blockAt height) in
      match r with
      | inl _ => act_ret []
      | inr blk =>
          let@ rest := serveHeaders i (u64 (height + 1)) in
          act_ret (b_Header blk :: rest)
      end
  end.

Definition bodySize (b : Block) : Z := fold_left (fun n tx => n + (len (tx_Data tx) + 384)) (b_Txs b) 1024.

(** [approx] bytes are in the answer, which has blocks already or not. *)
Fixpoint serveBodies (hashes : list Hash) (approx : Z) (some : bool) : yact (list Block) :=
  match hashes with
  | [] => act_ret []
  | h :: hashes =>
      let@ r := attempt (on_chain env (fun _ => BlockByHash h)) in
      match r with
      | inl _ => serveBodies hashes approx some
      | inr blk =>
          if some && (Z.quot (maxSyncMessage * 3) 4 <? approx + bodySize blk) then act_ret []
          else
            let@ rest := serveBodies hashes (approx + bodySize blk) true in
            act_ret (blk :: rest)
      end
  end.

Definition serve (from : PeerID) (data : list byte) : yact (list byte) :=
  let@ ok := yallow from in
  if negb ok then act_fail ErrBadSyncRequest
  else if maxSyncMessage <? len data then act_fail ErrBadSyncRequest
  else
    match decodeJSON syncRequestC data with
    | Ok req =>
        if bool_decide (sr_Kind req = kindHeaders) then
          let n := if (sr_Max req =? 0) || (maxHeadersPerRequest <? sr_Max req) then maxHeadersPerRequest else sr_Max req in
          let@ hs := serveHeaders (Z.to_nat n) (sr_From req) in
          act_ret (encodeJSON syncResponseC (mkResponse (map Some hs) []))
        else if bool_decide (sr_Kind req = kindBodies) then
          if maxHeadersPerRequest <? len (sr_Hashes req) then act_fail ErrBadSyncRequest
          else
            let@ bs := serveBodies (sr_Hashes req) 0 false in
            act_ret (encodeJSON syncResponseC (mkResponse [] (map (fun b => Some (toRaw b)) bs)))
        else act_fail ErrBadSyncRequest
    | _ => act_fail ErrBadSyncRequest
    end.

(** ** The client *)

(** One question to one peer, and its decoded answer. *)
Definition exchange (peer : PeerID) (req : syncRequest) : yact syncResponse :=
  let@ data := ask (fun k => match request env k peer (encodeJSON syncRequestC req) with
                             | Ok d => Returns d
                             | Err e => Raises e
                             | Panic => Panics
                             end) in
  if maxSyncMessage <? len data then act_fail ErrBadSyncRequest
  else act_res (decodeJSON syncResponseC data).

(** The pointers, none of them nil. *)
Fixpoint allHeaders (hs : list (option Header)) : option (list Header) :=
  match hs with
  | [] => Some []
  | Some h :: hs => (fun l => h :: l) <$> allHeaders hs
  | None :: _ => None
  end.

Definition getHeaders (peer : PeerID) (start : Z) : yact (list Header) :=
  let@ resp := exchange peer (mkRequest kindHeaders start maxHeadersPerRequest []) in
  if maxHeadersPerRequest <? len (sr_Headers resp) then act_fail ErrHeaderChain
  else match allHeaders (sr_Headers resp) with
       | None => act_fail ErrHeaderChain
       | Some hs => act_ret hs
       end.

Definition getHeaderAt (peer : PeerID) (height : Z) : yact Header :=
  let@ resp := exchange peer (mkRequest kindHeaders height 1 []) in
  match sr_Headers resp with
  | Some h :: _ => if negb (Height h =? height) then act_fail ErrHeaderChain else act_ret h
  | _ => act_fail ErrHeaderChain
  end.

Definition agreesAt (peer : PeerID) (height : Z) : yact bool :=
  let@ ph := getHeaderAt peer height in
  let@ ours := blockAt height in
  act_ret (array_eqb (Header_Hash ph) (Block_Hash ours)).

(** The binary search; [hi - lo] rounds are enough. *)
Fixpoint ancestorLoop (fuel : nat) (peer : PeerID) (lo hi : Z) : yact Z :=
  if u64 (lo + 1) <? hi then
    match fuel with
    | O => act_fuel
    | S fuel =>
        let mid := u64 (lo + hi) / 2 in
        let@ agree := agreesAt peer mid in
        if agree then ancestorLoop fuel peer mid hi else ancestorLoop fuel peer lo mid
    end
  else act_ret lo.

(** [None]: they do not agree even at the floor. *)
Definition findCommonAncestor (peer : PeerID) (head : Z) : yact (option Z) :=
  let@ keep := on_chain env (fun _ bc => (bc, Returns (Retention bc))) in
  let lo := if keep <? head then head - keep else 0 in
  let@ agree := agreesAt peer lo in
  if negb agree then act_ret None
  else
    let@ anc := ancestorLoop (Z.to_nat (head - lo)) peer lo head in
    act_ret (Some anc).

(** The loop over the batch; the header before, if any. *)
Fixpoint checkLinks (prev : option Header) (headers : list Header) : yact unit :=
  match headers with
  | [] => act_ret tt
  | h :: headers =>
      if match prev with
         | Some p => negb (Height h =? u64 (Height p + 1)) || negb (array_eqb (ParentHash h) (Header_Hash p))
         | None => false
         end then act_fail ErrHeaderChain
      else
        let@ now := ask (fun k => Returns (UnixMilli env k)) in
        if i64 (now + MaxFutureDriftMs) <? Timestamp h then act_fail ErrFutureHeader
        else match VerifyHeaderPoW h with
             | Ok _ => checkLinks (Some h) headers
             | _ => act_fail ErrHeaderChain
             end
  end.

Definition checkHeaderChain (headers : list Header) (start : Z) : yact unit :=
  match headers with
  | [] => act_panic
  | first :: _ =>
      if negb (Height first =? start) then act_fail ErrHeaderChain
      else
        let@ r := attempt (blockAt (u64 (start - 1))) in
        match r with
        | inl _ => act_fail ErrHeadersUnlinked
        | inr anchor =>
            if negb (array_eqb (ParentHash first) (Block_Hash anchor)) then act_fail ErrHeadersUnlinked
            else checkLinks None headers
        end
  end.

(** The blocks of an answer by hash; [None]: a nil one, or one not asked for. *)
Fixpoint collect (want : list Hash) (blocks : list (option rawBlock)) (have : gmap Hash (Header * list (option Transaction)))
    : option (gmap Hash (Header * list (option Transaction))) :=
  match blocks with
  | [] => Some have
  | Some (mkRawBlock (Some h) txs) :: blocks =>
      if bool_decide (Header_Hash h ∈ want) then collect want blocks (<[Header_Hash h := (h, txs)]> have) else None
  | _ => None
  end.

(** Up to the first gap. *)
Fixpoint ordered (want : list Hash) (have : gmap Hash (Header * list (option Transaction))) : list (Header * list (option Transaction)) :=
  match want with
  | [] => []
  | h :: want => match have !! h with Some b => b :: ordered want have | None => [] end
  end.

Definition getBodies (peer : PeerID) (headers : list Header) : yact (list (Header * list (option Transaction))) :=
  let want := map Header_Hash headers in
  let@ resp := exchange peer (mkRequest kindBodies 0 0 want) in
  match collect want (sr_Blocks resp) ∅ with
  | None => act_fail ErrBodyMismatch
  | Some have => act_ret (ordered want have)
  end.

(** Insert what was fetched; how many were new, [None] when the sync ends here. *)
Fixpoint insertBodies (peer : PeerID) (blocks : list (Header * list (option Transaction))) (newly : nat) : yact (option nat) :=
  match blocks with
  | [] => act_ret (Some newly)
  | (h, txs) :: blocks =>
      let@ r := attempt (insertBlock env h txs) in
      match r with
      | inr _ => insertBodies peer blocks (S newly)
      | inl ErrKnownBlock => insertBodies peer blocks newly
      | inl ErrFutureBlock | inl ErrReorgTooDeep => act_ret None
      | inl _ =>
          let@ _ := score env peer in
          act_ret None
      end
  end.

(** The headers of one round, checked; [None] when the sync ends here. *)
Definition roundHeaders (peer : PeerID) : yact (option (list Header)) :=
  let@ height := on_chain env (fun _ bc => (bc, Returns (Block_Height (Head bc)))) in
  let start := u64 (height + 1) in
  let@ r := attempt (getHeaders peer start) in
  match r with
  | inl _ | inr [] => act_ret None
  | inr headers =>
      let@ r := attempt (checkHeaderChain headers start) in
      match r with
      | inr _ => act_ret (Some headers)
      | inl ErrFutureHeader => act_ret None
      | inl ErrHeadersUnlinked =>
          let@ r := attempt (findCommonAncestor peer (u64 (start - 1))) in
          match r with
          | inl _ | inr None => act_ret None
          | inr (Some anc) =>
              let start := u64 (anc + 1) in
              let@ r := attempt (getHeaders peer start) in
              match r with
              | inl _ | inr [] => act_ret None
              | inr headers =>
                  let@ r := attempt (checkHeaderChain headers start) in
                  match r with
                  | inr _ => act_ret (Some headers)
                  | inl _ =>
                      let@ _ := score env peer in
                      act_ret None
                  end
              end
          end
      | inl _ =>
          let@ _ := score env peer in
          act_ret None
      end
  end.

(** One round; true when there may be more. *)
Definition syncRound (peer : PeerID) : yact bool :=
  let@ hs := roundHeaders peer in
  match hs with
  | None => act_ret false
  | Some headers =>
      let@ r := attempt (getBodies peer headers) in
      match r with
      | inl ErrBodyMismatch =>
          let@ _ := score env peer in
          act_ret false
      | inl _ => act_ret false
      | inr blocks =>
          let@ newly := insertBodies peer blocks 0 in
          match newly with
          | None | Some O => act_ret false
          | Some _ => act_ret true
          end
      end
  end.

(** The loop has no bound of its own; [fuel] rounds of it. *)
Fixpoint syncRounds (fuel : nat) (peer : PeerID) : yact unit :=
  match fuel with
  | O => act_fuel
  | S fuel =>
      let@ more := syncRound peer in
      if more then syncRounds fuel peer else act_ret tt
  end.

Definition setSyncing (b : bool) : yact unit := on_own (fun y => (mkSyncer (y_limiter y) b, tt)).

(** A panic is caught; the slot is released however the sync ends. *)
Definition SyncFrom (fuel : nat) (peer : PeerID) : yact unit :=
  let@ y := get_own in
  if syncing y then act_ret tt
  else
    let@ _ := setSyncing true in
    let body :=
      let@ banned := isBanned env peer in
      if banned then act_ret tt else syncRounds fuel peer in
    fun n => match body n with
             | (n, OutOfFuel) => (n, OutOfFuel)
             | (n, _) => setSyncing false n
             end.

End Sync.
