(* ===== verification/SyncProps.v ===== *)
(** * Sync against hostile and honest peers *)
From stdpp Require Import base numbers list gmap.
From Stdlib Require Import ZArith Lia Strings.Byte.
From Stdlib Require Strings.String.
Import Strings.String.StringSyntax.
From S2P Require Import Prelude Common Types VmBase Precompiles Vm VmProofs VmProps State StateInv Transition Pow Genesis Json JsonCodec JsonWide Store Schema SchemaProofs Wire.
From S2P Require Import Mempool MempoolProofs Producer Blockchain ChainInv ChainInsert ChainOpen ChainProps ChainExtend Scorer P2p P2pProofs GossipProps JsonWide Sync.
#[local] Open Scope Z_scope.
#[local] Open Scope list_scope.
#[local] Open Scope act_scope.

Section Safe.
Context `{Crypto} `{Bn256} {D : Type} `{KVLaws D} (net : network) (env : Env D).
Context (He : env_ok net env) (Hn : wf_network net).

#[local] Instance sync_headers : headers (n_headers net) (n_block net) := wn_headers net Hn.

(** What peers can answer: bytes; the blocks among them have headers of the network. *)
Definition answers_ok : Prop := forall k p req,
  match request env k p req with
  | Ok data => forall resp, decodeJSON syncResponseC data = Ok resp ->
      Forall (fun o => forall b h, o = Some b -> rb_Header b = Some h -> n_headers net h) (sr_Blocks resp)
  | Err _ => True
  | Panic => False
  end.

Context (Ha : answers_ok).

Abbreviation ysane := (sane net (fun _ : Syncer => True)).
Abbreviation yruns := (runs net (fun _ : Syncer => True)).
Abbreviation anyP := (fun _ _ => True).

(** ** Reading the chain *)

Lemma BlockByHeight_total h (bc : Blockchain D) :
  reachable net bc -> is_u64 h ->
  match BlockByHeight h bc with
  | (bc', Returns b) => reachable net bc' /\ Block_Height b = h
  | (bc', Raises _) => reachable net bc'
  | _ => False
  end.
Proof.
  intros Hr Hh. destruct (chain_reachable_inv net Hn bc Hr) as (F & canon & Hi & _).
  pose proof (inv_canonicalChain net F canon bc Hi) as Hc. set (l := n_block net :: canon) in *.
  assert (forall bc' b, BlockByHeight h bc = (bc', Returns b) -> reachable net bc') as Hread.
  { intros bc' b. unfold BlockByHeight, op_bind, op_get, op_res. destruct (unknown_if_absent _) as [x| |]; [|done..].
    intros E. by eapply R_read. }
  replace h with (Z.of_nat (Z.to_nat h)) in * by (unfold is_u64 in Hh; lia).
  destruct (l !! Z.to_nat h) as [b|] eqn:Eb.
  - destruct (cc_read _ _ _ Hc _ _ Eb) as [Ebh [bc' E]]. rewrite E. split; [by eapply Hread|done].
  - apply lookup_ge_None in Eb. unfold BlockByHeight, op_bind, op_get, op_res in *.
    destruct (cc_end _ _ _ Hc _ Eb) as [bc' E]; [unfold is_u64 in Hh; lia|]. unfold BlockByHeight, op_bind, op_get, op_res in E.
    destruct (unknown_if_absent _) as [x|e|]; [|done..]. rewrite E. by eapply R_read.
Qed.

Lemma blockAt_runs h (n : Node D Syncer) : ysane n -> is_u64 h -> yruns (blockAt env h) anyP anyP n.
Proof.
  intros Hs Hh. eapply runs_weaken; [apply (on_chain_runs net env He _ _ (fun _ => True) (fun _ => True)); [done|]|done|done].
  intros _ bc Hr. pose proof (BlockByHeight_total h bc Hr Hh) as Ht. destruct (BlockByHeight h bc) as [bc' [b|e| |]]; try done. by destruct Ht.
Qed.

Lemma head_height (bc : Blockchain D) : reachable net bc -> 0 <= Block_Height (Head bc) < 2 ^ 63.
Proof.
  intros Hr. destruct (chain_reachable_inv net Hn bc Hr) as (F & canon & Hi & _). pose proof (head_stored _ _ _ _ _ Hi) as Hst.
  unfold Head. destruct Hst as [_ [_ [Hw _ _ Hh] _]]. destruct Hw. unfold is_u64, Block_Height in *. lia.
Qed.
(** ** Answers *)

Definition block_offered (b : Header * list (option Transaction)) : Prop := offered (n_headers net) (mkRawBlock (Some (fst b)) (snd b)).

Definition resp_ok (resp : syncResponse) : Prop :=
  Forall (fun o => forall b h, o = Some b -> rb_Header b = Some h -> block_offered (h, rb_Txs b)) (sr_Blocks resp).

Lemma syncResponseC_wide N : wide N syncResponseC (fun r => Forall (fun o => forall b, o = Some b -> block_carried N b) (sr_Blocks r)).
Proof.
  apply structC_wide; [by apply Forall_nil|]. intros ms cur v Hms Hcur. next_field (any_wide N (listC (ptrC headerC))) I.
  next_field (listC_wide N (ptrC rawBlockC) _ (ptrC_wide N rawBlockC _ (rawBlockC_wide N))) Hcur. by intros [= <-].
Qed.

Lemma exchange_runs peer req (n : Node D Syncer) : ysane n -> yruns (exchange env peer req) (fun resp _ => resp_ok resp) anyP n.
Proof.
  intros Hs. unfold exchange. eapply runs_bind.
  - instantiate (1 := fun data _ => forall resp, decodeJSON syncResponseC data = Ok resp ->
      Forall (fun o => forall b h, o = Some b -> rb_Header b = Some h -> n_headers net h) (sr_Blocks resp)).
    unfold runs, ask. specialize (Ha (tick n) peer (encodeJSON syncRequestC req)). by destruct (request _ _ _ _).
  - intros data n1 Hs1 Hd. destruct (Z.ltb_spec maxSyncMessage (len data)) as [|Hlen]; [by apply runs_fail|].
    unfold runs, act_res. destruct (decodeJSON syncResponseC data) as [resp|e|] eqn:E; [|done|].
    2:{ unfold decodeJSON in E. by destruct (_ ≫= _). }
    split; [done|]. split; [done|]. specialize (Hd resp E). pose proof (decodeJSON_wide _ _ _ _ (syncResponseC_wide _) E) as Hw.
    unfold resp_ok. rewrite Forall_forall in *. intros o Ho b h Eb Eh. specialize (Hd o Ho b h Eb Eh).
    destruct (Hw o Ho b Eb) as [_ Ht]. split; [by exists h|]. cbn. eapply Forall_impl; [exact Ht|]. cbn. intros x Hx tx Etx.
    destruct (Hx tx Etx) as [Htw Hdl]. split; [done|]. unfold len in *. change maxSyncMessage with 16777216 in Hlen. lia.
Qed.

Lemma getHeaders_runs peer start (n : Node D Syncer) : ysane n -> yruns (getHeaders env peer start) anyP anyP n.
Proof.
  intros Hs. unfold getHeaders. eapply runs_bind; [by apply exchange_runs|]. intros resp n1 Hs1 _.
  destruct (_ <? _); [by apply runs_fail|]. destruct (allHeaders _); [by apply runs_ret|by apply runs_fail].
Qed.

Lemma agreesAt_runs peer h (n : Node D Syncer) : ysane n -> is_u64 h -> yruns (agreesAt env peer h) anyP anyP n.
Proof.
  intros Hs Hh. unfold agreesAt. apply (runs_bind _ _ _ _ anyP).
  - unfold getHeaderAt. eapply runs_bind; [by apply exchange_runs|]. intros resp n1 Hs1 _.
    destruct (sr_Headers resp) as [|[x|] ?]; [by apply runs_fail| |by apply runs_fail]. destruct (negb _); [by apply runs_fail|by apply runs_ret].
  - intros ph n1 Hs1 _. eapply runs_bind; [by apply blockAt_runs|]. intros ours n2 Hs2 _. by apply runs_ret.
Qed.

(** The search ends: [mid] is strictly between the two ends. *)
Lemma ancestorLoop_runs fuel peer lo hi (n : Node D Syncer) :
  ysane n -> 0 <= lo <= hi -> hi < 2 ^ 63 -> (Z.to_nat (hi - lo) <= fuel)%nat ->
  yruns (ancestorLoop env fuel peer lo hi) (fun a _ => lo <= a <= hi) anyP n.
Proof.
  revert lo hi n. induction fuel as [|fuel IH]; intros lo hi n Hs Hlo Hhi Hf; cbn [ancestorLoop];
    (destruct (Z.ltb_spec (u64 (lo + 1)) hi) as [Hlt|]; [|apply runs_ret; [done|lia]]); rewrite u64_small in Hlt by lia; [lia|].
  rewrite (u64_small (lo + hi)) by lia. pose proof (Z.div_mod (lo + hi) 2 ltac:(lia)). pose proof (Z.mod_pos_bound (lo + hi) 2 ltac:(lia)).
  eapply runs_bind; [apply agreesAt_runs; [done|unfold is_u64; lia]|]. intros agree n1 Hs1 _.
  destruct agree; (eapply runs_weaken; [apply IH; [done|lia..]| |done]); cbn; intros; lia.
Qed.

Lemma findCommonAncestor_runs peer h (n : Node D Syncer) :
  ysane n -> 0 <= h < 2 ^ 63 -> yruns (findCommonAncestor env peer h) (fun o _ => forall a, o = Some a -> 0 <= a <= h) anyP n.
Proof.
  intros Hs Hh. unfold findCommonAncestor. eapply runs_bind.
  - eapply runs_weaken; [apply (on_chain_runs net env He _ _ (fun keep => 0 <= keep) (fun _ => True)); [done|]|..].
    + intros _ bc Hr. split; [done|]. destruct (chain_reachable_inv net Hn bc Hr) as (F & canon & Hi & _).
      pose proof (cf_retention _ _ (inv_config _ _ _ _ _ Hi)). unfold Retention. lia.
    + intros keep n1 [_ Hk]. exact Hk.
    + done.
  - intros keep n1 Hs1 Hk. cbv beta in Hk. set (lo := if keep <? h then h - keep else 0).
    assert (0 <= lo <= h) as Hlo by (unfold lo; destruct (Z.ltb_spec keep h); lia).
    eapply runs_bind; [apply agreesAt_runs; [done|unfold is_u64; lia]|]. intros agree n2 Hs2 _. destruct agree; cbn [negb]; [|by apply runs_ret].
    eapply runs_bind; [apply ancestorLoop_runs; [done|lia..]|]. intros a n3 Hs3 Hb. apply runs_ret; [done|]. intros x [= <-]. cbn in Hb. lia.
Qed.

Lemma checkLinks_runs prev headers (n : Node D Syncer) : ysane n -> yruns (checkLinks env prev headers) anyP anyP n.
Proof.
  revert prev n. induction headers as [|h headers IH]; intros prev n Hs; cbn [checkLinks]; [by apply runs_ret|].
  destruct (match prev with Some _ => _ | None => _ end); [by apply runs_fail|].
  apply (runs_bind _ _ _ _ anyP); [done|]. intros now n1 Hs1 _. destruct (_ <? _); [by apply runs_fail|].
  destruct (VerifyHeaderPoW h); [by apply IH|by apply runs_fail..].
Qed.

Lemma checkHeaderChain_runs headers start (n : Node D Syncer) :
  ysane n -> headers <> [] -> yruns (checkHeaderChain env headers start) anyP anyP n.
Proof.
  intros Hs Hne. unfold checkHeaderChain. destruct headers as [|first headers]; [done|]. destruct (negb _); [by apply runs_fail|].
  eapply runs_bind; [eapply runs_attempt, blockAt_runs; [done|apply is_u64_u64]|]. intros r n1 Hs1 _.
  destruct r as [e|anchor]; [by apply runs_fail|]. destruct (negb _); [by apply runs_fail|]. by apply checkLinks_runs.
Qed.

(** ** Bodies *)

Lemma collect_offered want blocks have have' :
  Forall (fun o => forall b h, o = Some b -> rb_Header b = Some h -> block_offered (h, rb_Txs b)) blocks ->
  (forall h b, have !! h = Some b -> block_offered b) -> collect want blocks have = Some have' ->
  forall h b, have' !! h = Some b -> block_offered b.
Proof.
  intros Hb. revert have. induction Hb as [|o blocks Ho Hb IH]; intros have Hh; cbn [collect]; [by intros [= <-]|].
  destruct o as [[[hd|] txs]|]; [|done..]. destruct (bool_decide _); [|done]. apply IH.
  intros h b. intros [[_ <-]|[_ E]]%lookup_insert_Some; [|by eapply Hh]. exact (Ho _ hd eq_refl eq_refl).
Qed.

Lemma ordered_offered want have : (forall h b, have !! h = Some b -> block_offered b) -> Forall block_offered (ordered want have).
Proof.
  intros Hh. induction want as [|h want IH]; cbn; [by apply Forall_nil|]. destruct (have !! h) as [b|] eqn:E; [|by apply Forall_nil].
  constructor; [by eapply Hh|done].
Qed.

Lemma getBodies_runs peer headers (n : Node D Syncer) :
  ysane n -> yruns (getBodies env peer headers) (fun bs _ => Forall block_offered bs) anyP n.
Proof.
  intros Hs. unfold getBodies. eapply runs_bind; [by apply exchange_runs|]. intros resp n1 Hs1 Hr. cbn in Hr.
  destruct (collect _ _ ∅) as [have|] eqn:E; [|by apply runs_fail]. apply runs_ret; [done|]. apply ordered_offered.
  eapply collect_offered; [exact Hr| |exact E]. intros h b. by rewrite lookup_empty.
Qed.
Lemma score_stop {A} (a : A) peer (n : Node D Syncer) (Q : A -> Node D Syncer -> Prop) :
  ysane n -> peer <> [] -> (forall n', Q a n') -> yruns (let@ _ := score env peer in act_ret a) Q anyP n.
Proof.
  intros Hs Hp HQ. eapply runs_bind; [eapply runs_weaken; [by apply score_runs|done|done]|]. intros [] n1 Hs1 _. by apply runs_ret.
Qed.

Lemma insertBodies_runs peer blocks newly (n : Node D Syncer) :
  ysane n -> peer <> [] -> Forall block_offered blocks ->
  yruns (insertBodies env peer blocks newly) (fun o n' => forall k, o = Some k -> (acceptances n + k <= acceptances n' + newly)%nat) anyP n.
Proof.
  intros Hs Hp Hb. revert newly n Hs. induction Hb as [|[h txs] blocks Ho Hb IH]; intros newly n Hs; cbn [insertBodies].
  { apply runs_ret; [done|]. by intros k [= <-]. }
  eapply runs_bind_count; [eapply runs_attempt; by apply insertBlock_runs|]. intros r n1 Hs1 Hacc Hr.
  assert (yruns (insertBodies env peer blocks newly)
    (fun o n' => forall k, o = Some k -> (acceptances n + k <= acceptances n' + newly)%nat) anyP n1) as Hskip.
  { eapply runs_weaken; [by apply IH| |done]. cbn. intros o n2 Hk k Ek. specialize (Hk k Ek). lia. }
  destruct r as [e|[]].
  - destruct e; try exact Hskip; try (by apply runs_ret); (by apply score_stop).
  - destruct Hr as [_ Hlt]. eapply runs_weaken; [by apply IH| |done]. cbn. intros o n2 Hk k Ek. specialize (Hk k Ek). lia.
Qed.

(** ** Rounds *)

Lemma roundHeaders_runs peer (n : Node D Syncer) : ysane n -> peer <> [] -> yruns (roundHeaders env peer) anyP anyP n.
Proof.
  intros Hs Hp. unfold roundHeaders. eapply runs_bind.
  { eapply runs_weaken; [apply (on_chain_runs net env He _ _ (fun h => 0 <= h < 2 ^ 63) (fun _ => True)); [done|]|..].
    - intros _ bc Hr. split; [done|]. by apply head_height.
    - intros h n1 [_ Hh]. exact Hh.
    - done. }
  intros h n1 Hs1 Hh. cbv beta in Hh.
  eapply runs_bind; [eapply runs_attempt; by apply getHeaders_runs|]. intros r n2 Hs2 _.
  destruct r as [e|[|x hs]]; [by apply runs_ret..|].
  eapply runs_bind; [eapply runs_attempt; by apply checkHeaderChain_runs|]. intros r n3 Hs3 _.
  destruct r as [e|[]]; [|by apply runs_ret]. destruct e; try (by apply score_stop); [|by apply runs_ret].
  assert (u64 (u64 (h + 1) - 1) = h) as Eh by (rewrite (u64_small (h + 1)), u64_small by lia; lia).
  eapply runs_bind; [eapply runs_attempt, findCommonAncestor_runs; [done|by rewrite Eh]|]. intros r n4 Hs4 _.
  destruct r as [e|[anc|]]; [by apply runs_ret| |by apply runs_ret].
  eapply runs_bind; [eapply runs_attempt; by apply getHeaders_runs|]. intros r n5 Hs5 _.
  destruct r as [e|[|y hs']]; [by apply runs_ret..|].
  eapply runs_bind; [eapply runs_attempt; by apply checkHeaderChain_runs|]. intros r n6 Hs6 _.
  destruct r as [e|[]]; [by apply score_stop|by apply runs_ret].
Qed.

Lemma syncRound_runs peer (n : Node D Syncer) :
  ysane n -> peer <> [] -> yruns (syncRound env peer) (fun more n' => more = true -> (acceptances n < acceptances n')%nat) anyP n.
Proof.
  intros Hs Hp. unfold syncRound. eapply runs_bind_count; [by apply roundHeaders_runs|]. intros hs n1 Hs1 Hacc1 _.
  destruct hs as [headers|]; [|by apply runs_ret].
  eapply runs_bind_count; [eapply runs_attempt; by apply getBodies_runs|]. intros r n2 Hs2 Hacc2 Hr.
  destruct r as [e|blocks]; [destruct e; try (by apply runs_ret); by apply score_stop|].
  eapply runs_bind_count; [by apply insertBodies_runs|]. intros newly n3 Hs3 Hacc3 Hk.
  destruct newly as [[|k]|]; [by apply runs_ret| |by apply runs_ret]. apply runs_ret; [done|]. intros _. specialize (Hk _ eq_refl). lia.
Qed.

(** However the rounds end the node is sound; if they do not end, each of them accepted a block. *)
Lemma syncRounds_safe fuel peer (n : Node D Syncer) :
  ysane n -> peer <> [] ->
  let (n', r) := syncRounds env fuel peer n in
  ysane n' /\ (r = OutOfFuel -> (acceptances n + fuel <= acceptances n')%nat).
Proof.
  revert n. induction fuel as [|fuel IH]; intros n Hs Hp; cbn [syncRounds]; [cbn; split; [done|lia]|].
  unfold act_bind. pose proof (syncRound_runs peer n Hs Hp) as Hr. unfold runs in Hr.
  destruct (syncRound env peer n) as [n1 [[]|e| |]]; [|destruct Hr; (split; [done|discriminate])..|done].
  destruct Hr as (Hs1 & _ & Hlt). specialize (Hlt eq_refl). specialize (IH n1 Hs1 Hp). destruct (syncRounds env fuel peer n1) as [n2 r].
  destruct IH as [Hs2 Hk]. split; [done|]. intros Er. specialize (Hk Er). lia.
Qed.

Lemma SyncFrom_lemma fuel peer (n : Node D Syncer) :
  shared_ok net (shared n) -> peer <> [] -> syncing (own n) = false ->
  let (n', r) := SyncFrom env fuel peer n in
  shared_ok net (shared n') /\ (r = Returns tt /\ syncing (own n') = false \/ r = OutOfFuel /\ (acceptances n + fuel <= acceptances n')%nat).
Proof.
  intros Hs Hp Hsy. unfold SyncFrom, get_own. unfold act_bind at 1. rewrite Hsy. unfold act_bind at 1, setSyncing at 1, on_own at 1. cbn zeta.
  set (n0 := mkNode _ _ _ _). assert (ysane n0) as Hs0 by done. unfold act_bind.
  pose proof (isBanned_runs net env He (fun _ => True) peer n0 Hs0 Hp) as Hb. unfold runs in Hb.
  destruct (isBanned env peer n0) as [n1 [banned|e| |]]; [|by destruct Hb as (_ & _ & [])|..].
  - destruct Hb as (Hs1 & Hacc & _). destruct banned; [split; [apply Hs1|by left]|].
    pose proof (syncRounds_safe fuel peer n1 Hs1 Hp) as Hr. destruct (syncRounds env fuel peer n1) as [n2 [[]|e| |]]; destruct Hr as [Hs2 Hk];
      (split; [apply Hs2|]); [by left..|]. right. split; [done|]. specialize (Hk eq_refl). change (acceptances n0) with (acceptances n) in Hacc. lia.
  - destruct Hb as [Hs1 _]. split; [apply Hs1|by left].
  - done.
Qed.
Lemma head_index F canon (bc : Blockchain D) :
  inv (n_headers net) (n_block net) F canon bc -> Z.of_nat (length (n_block net :: canon)) = Block_Height (head bc) + 1.
Proof.
  intros Hi. pose proof (ci_last _ _ _ _ (inv_canon _ _ _ _ _ Hi)) as Hl. rewrite last_lookup in Hl.
  pose proof (linked_heights _ _ _ _ (ci_linked _ _ _ _ (inv_canon _ _ _ _ _ Hi)) Hl) as Eh.
  rewrite (cf_height _ _ (inv_config _ _ _ _ _ Hi)) in Eh. cbn [length pred] in *. lia.
Qed.
End Safe.

(** ** Messages survive the wire *)


Lemma syncRequestC_ok : codec_ok syncRequestC (fun r => 0 <= sr_From r < 2 ^ 64 /\ 0 <= sr_Max r < 2 ^ 64).
Proof.
  apply structC_ok. intros [kind from max hashes] [Hf Hm]. cbn [sr_Kind sr_From sr_Max sr_Hashes] in *. unfold omitempty. split.
  - destruct (from =? 0), (max =? 0), (len hashes =? 0); cbn [app]; members.
  - destruct (Z.eqb_spec from 0) as [->|]; destruct (Z.eqb_spec max 0) as [->|];
      (destruct (Z.eqb_spec (len hashes) 0) as [Eh|]; [apply len_zero_inv in Eh as ->|]); cbn [app];
      dec_field stringC_ok I;
      first [apply bind_absent; [done|]|dec_field (uintC_ok 64) Hf];
      first [apply bind_absent; [done|]|dec_field (uintC_ok 64) Hm];
      first [apply bind_absent; [done|]|dec_field topicsC_ok I]; done.
Qed.

Lemma headersC_ok : codec_ok (listC (ptrC headerC)) (Forall (fun o => forall h, o = Some h -> wf_header h)).
Proof. apply listC_ok, headerPtr_ok. Qed.

Lemma blocksC_ok : codec_ok (listC (ptrC rawBlockC)) (Forall (fun o => forall b, o = Some b -> raw_widths b)).
Proof. apply listC_ok, ptrC_ok; [apply rawBlockC_ok|done]. Qed.

#[local] Hint Resolve headersC_ok blocksC_ok : json.

Lemma syncResponseC_ok : codec_ok syncResponseC (fun r => Forall (fun o => forall h, o = Some h -> wf_header h) (sr_Headers r)
  /\ Forall (fun o => forall b, o = Some b -> raw_widths b) (sr_Blocks r)).
Proof.
  apply structC_ok. intros [hs bs] [Hh Hb]. cbn [sr_Headers sr_Blocks] in *. unfold omitempty. split.
  - destruct (len hs =? 0), (len bs =? 0); cbn [app]; members.
  - destruct (Z.eqb_spec (len hs) 0) as [Eh|]; [apply len_zero_inv in Eh as ->|];
      (destruct (Z.eqb_spec (len bs) 0) as [Eb|]; [apply len_zero_inv in Eb as ->|]); cbn [app];
      first [apply bind_absent; [done|]|dec_field headersC_ok Hh];
      first [apply bind_absent; [done|]|dec_field blocksC_ok Hb]; done.
Qed.

(** ** An honest peer *)

(** What a node answers. *)
Definition asked `{Crypto} `{Bn256} {D} `{KV D} (es : Env D) (from : list byte) (m : Node D Syncer) (req : list byte) : res (list byte) :=
  match safeRequest (serve es from req) m with
  | (_, Returns data) => Ok data
  | (_, Raises e) => Err e
  | (_, Panics) => Panic
  | (_, OutOfFuel) => Err ErrClosed
  end.

Section Honest.
Context `{Crypto} `{Bn256} {D : Type} `{KVLaws D} (net : network) (es : Env D).
Context (Hn : wf_network net) (Hq : forall k s, meanwhile es k s = s).

#[local] Instance honest_headers_ok : headers (n_headers net) (n_block net) := wn_headers net Hn.

Lemma serveHeaders_spec F canon i h (m : Node D Syncer) :
  inv (n_headers net) (n_block net) F canon (chain (shared m)) -> 0 <= h < 2 ^ 64 ->
  exists m', serveHeaders es i h m = (m', Returns (take i (drop (Z.to_nat h) (map b_Header (n_block net :: canon))))).
Proof.
  revert h m. induction i as [|i IH]; intros h m Hi Hh; cbn [serveHeaders]; [by exists m|].
  unfold act_bind at 1, attempt, blockAt, on_chain, on_shared. cbv zeta. rewrite Hq.
  destruct (BlockByHeight_inv net F canon h (chain (shared m)) Hi Hh) as (bc' & r & -> & Hi' & Hr).
  set (m1 := mkNode _ _ _ _). change (n_block net :: canon) with (n_block net :: canon). set (l := n_block net :: canon) in *.
  destruct (l !! Z.to_nat h) as [b|] eqn:Eb.
  - destruct Hr as (-> & Ebh & Hlt). rewrite u64_small by lia. destruct (IH (h + 1) m1 Hi' ltac:(lia)) as [m' E]. unfold act_bind at 1. rewrite E.
    exists m'. unfold act_ret. do 2 f_equal. rewrite (drop_S _ (b_Header b) (Z.to_nat h)) by (rewrite list_lookup_fmap, Eb; done).
    cbn [take]. do 3 f_equal. lia.
  - subst r. exists m1. unfold act_ret. do 2 f_equal. rewrite drop_ge; [by rewrite take_nil|]. rewrite length_map. by apply lookup_ge_None.
Qed.

(** A request for headers, as a server reads it. *)
Lemma headersRequest_ok start max :
  0 <= start < 2 ^ 64 -> 0 <= max < 2 ^ 64 ->
  let data := encodeJSON syncRequestC (mkRequest kindHeaders start max []) in
  len data <= maxSyncMessage /\ decodeJSON syncRequestC data = Ok (mkRequest kindHeaders start max []).
Proof.
  intros Hs Hm data. split; [|by apply (decode_encode _ _ _ syncRequestC_ok)].
  unfold data, encodeJSON. set (l := match enc syncRequestC (mkRequest kindHeaders start max []) with JObj l => l | _ => [] end).
  change (enc syncRequestC (mkRequest kindHeaders start max [])) with (JObj l).
  assert (Forall (fun p => (length (fst p) <= 16)%nat /\ (length (print (snd p)) <= 400)%nat) l /\ (length l <= 3)%nat) as [Hf Hl].
  { unfold l. cbn [enc syncRequestC structC sr_Kind sr_From sr_Max sr_Hashes]. unfold omitempty. change (len (@nil Hash) =? 0) with true.
    pose proof (itoa_length start ltac:(lia)). pose proof (itoa_length max ltac:(lia)).
    destruct (start =? 0), (max =? 0); cbn [app]; (split; [|cbn; lia]); repeat (apply Forall_cons; split); try (by apply Forall_nil); cbn [fst snd];
      (split; [apply str_length; cbn; lia|]); first [apply text_length; apply str_length; cbn; lia|cbn [enc uintC print]; lia]. }
  pose proof (print_obj_length l 400 Hf) as Hp. unfold len. change maxSyncMessage with 16777216. lia.
Qed.

(** The headers of an answer, as a client reads them. *)
Lemma headersAnswer_ok hs :
  Forall wf_header hs -> len hs <= 256 ->
  let data := encodeJSON syncResponseC (mkResponse (map Some hs) []) in
  len data <= maxSyncMessage /\ decodeJSON syncResponseC data = Ok (mkResponse (map Some hs) []).
Proof.
  intros Hw Hl data. split.
  - unfold data, encodeJSON. pose proof (headers_length hs Hw) as Hh. change maxSyncMessage with 16777216.
    cbn [enc syncResponseC structC sr_Headers sr_Blocks]. unfold omitempty. cbn [len app]. rewrite app_nil_r.
    destruct (len (map Some hs) =? 0); [vm_compute; discriminate|].
    set (v := enc _ _) in *. pose proof (print_obj_length [(str "headers", v)] (length (print v))) as Hp. unfold len in *.
    assert (length (print (JObj [(str "headers", v)])) <= 1 * (length (print v) + 100) + 2)%nat; [apply Hp; repeat constructor; cbn; lia|lia].
  - apply (decode_encode _ _ _ syncResponseC_ok). split; [|by apply Forall_nil]. apply Forall_map. eapply Forall_impl; [exact Hw|].
    by intros h Hh x [= <-].
Qed.

Lemma allHeaders_some hs : allHeaders (map Some hs) = Some hs.
Proof. induction hs as [|h hs IH]; [done|]. cbn. by rewrite IH. Qed.

Lemma serve_headers from start max (m : Node D Syncer) F canon :
  inv (n_headers net) (n_block net) F canon (chain (shared m)) -> snd (yallow es from m) = Returns true -> 0 <= start < 2 ^ 64 ->
  1 <= max <= maxHeadersPerRequest ->
  asked es from m (encodeJSON syncRequestC (mkRequest kindHeaders start max []))
  = Ok (encodeJSON syncResponseC (mkResponse (map Some (take (Z.to_nat max) (drop (Z.to_nat start) (map b_Header (n_block net :: canon))))) [])).
Proof.
  intros Hi Hal Hs Hmax. unfold asked, safeRequest, safeHandle, serve. unfold act_bind at 1.
  assert (exists m1, yallow es from m = (m1, Returns true) /\ shared m1 = shared m) as (m1 & -> & Es).
  { unfold yallow in *. destruct (allow _ _ _ _) as [r ok]. cbn in Hal. injection Hal as ->. by eexists. }
  unfold maxHeadersPerRequest in Hmax. cbn [negb]. destruct (headersRequest_ok start max Hs ltac:(lia)) as [Hlen Hd].
  destruct (Z.ltb_spec maxSyncMessage (len (encodeJSON syncRequestC (mkRequest kindHeaders start max [])))); [lia|].
  rewrite Hd. cbn [sr_Kind sr_Max sr_From]. rewrite bool_decide_eq_true_2 by done.
  destruct (Z.eqb_spec max 0); [lia|]. destruct (Z.ltb_spec maxHeadersPerRequest max); [unfold maxHeadersPerRequest in *; lia|]. cbn [orb].
  destruct (serveHeaders_spec F canon (Z.to_nat max) start m1) as [m2 E]; [by rewrite Es|done|].
  unfold act_bind. rewrite E. done.
Qed.

Lemma canon_wf F canon (bc : Blockchain D) :
  inv (n_headers net) (n_block net) F canon bc -> Forall wf_header (map b_Header (n_block net :: canon)).
Proof.
  intros Hi. apply Forall_map. eapply Forall_impl; [apply (ci_stored _ _ _ _ (inv_canon _ _ _ _ _ Hi))|]. intros b [_ [_ [Hw _ _ _] _]]. exact Hw.
Qed.

(** A question for headers, answered by the server. *)
Lemma honest_exchange {D'} (env : Env D') peer from start max (m : Node D Syncer) (n : Node D' Syncer) F canon :
  inv (n_headers net) (n_block net) F canon (chain (shared m)) -> snd (yallow es from m) = Returns true -> 0 <= start < 2 ^ 64 ->
  1 <= max <= maxHeadersPerRequest -> (forall k req, request env k peer req = asked es from m req) ->
  exchange env peer (mkRequest kindHeaders start max []) n
  = (mkNode (own n) (shared n) (1 + tick n)%nat (events n),
     Returns (mkResponse (map Some (take (Z.to_nat max) (drop (Z.to_nat start) (map b_Header (n_block net :: canon))))) [])).
Proof.
  intros Hi Hal Hs Hmax Hreq. set (hs := take (Z.to_nat max) (drop (Z.to_nat start) (map b_Header (n_block net :: canon)))).
  assert (Forall wf_header hs) as Hw by (apply Forall_take, Forall_drop; by eapply canon_wf).
  assert (len hs <= 256) as Hl by (unfold len, hs, maxHeadersPerRequest in *; rewrite length_take; lia).
  destruct (headersAnswer_ok hs Hw Hl) as [Hlen Hd].
  unfold exchange, ask. unfold act_bind. rewrite Hreq, (serve_headers from start max m F canon Hi Hal Hs Hmax). fold hs.
  destruct (Z.ltb_spec maxSyncMessage (len (encodeJSON syncResponseC (mkResponse (map Some hs) [])))); [lia|].
  by rewrite Hd.
Qed.

Lemma honest_headers_lemma {D'} (env : Env D') peer from start (m : Node D Syncer) (n : Node D' Syncer) :
  reachable net (chain (shared m)) -> snd (yallow es from m) = Returns true -> 0 <= start < 2 ^ 64 ->
  (forall k req, request env k peer req = asked es from m req) ->
  exists ch n', canonicalChain net (chain (shared m)) ch
    /\ getHeaders env peer start n = (n', Returns (take 256 (drop (Z.to_nat start) (map b_Header ch)))).
Proof.
  intros Hr Hal Hs Hreq. destruct (chain_reachable_inv net Hn _ Hr) as (F & canon & Hi & _). exists (n_block net :: canon).
  eexists. split; [by eapply inv_canonicalChain|].
  unfold getHeaders. unfold act_bind. rewrite (honest_exchange env peer from start maxHeadersPerRequest m n F canon) by (done || unfold maxHeadersPerRequest; lia).
  cbn [sr_Headers]. rewrite allHeaders_some. change (Z.to_nat maxHeadersPerRequest) with 256%nat. set (hs := take 256 _).
  destruct (Z.ltb_spec maxHeadersPerRequest (len (map Some hs))) as [Hgt|]; [|done].
  unfold len, hs, maxHeadersPerRequest in Hgt. rewrite length_map, length_take in Hgt. lia.
Qed.
End Honest.

(** ** What the gate lets through *)

Section Gate.
Context `{Crypto} `{Bn256} {D : Type} `{KV D} (env : Env D).

(** Each header is the child of the one before it, and has work; their heights count up. *)
Fixpoint headerChain (parent : Hash) (height : Z) (hs : list Header) : Prop :=
  match hs with
  | [] => True
  | h :: hs => ParentHash h = parent /\ Height h = height /\ satisfiesPoW h = true /\ headerChain (Header_Hash h) (u64 (height + 1)) hs
  end.

Lemma VerifyHeaderPoW_ok h : VerifyHeaderPoW h = Ok tt -> satisfiesPoW h = true.
Proof. unfold VerifyHeaderPoW. destruct (_ <? _); [done|]. by destruct (satisfiesPoW h). Qed.

Lemma checkLinks_sound prev hs (n n' : Node D Syncer) :
  checkLinks env prev hs n = (n', Returns tt) ->
  match hs with
  | [] => True
  | h :: hs => (forall p, prev = Some p -> ParentHash h = Header_Hash p /\ Height h = u64 (Height p + 1))
      /\ satisfiesPoW h = true /\ headerChain (Header_Hash h) (u64 (Height h + 1)) hs
  end.
Proof.
  revert prev n. induction hs as [|h hs IH]; intros prev n; [done|]. cbn [checkLinks].
  destruct (match prev with Some _ => _ | None => _ end) eqn:El; [done|]. unfold act_bind, ask. cbn. destruct (_ <? _); [done|].
  destruct (VerifyHeaderPoW h) as [[]| |] eqn:Ev; [|done..]. intros E%IH. split_and!.
  - intros p ->. apply orb_false_iff in El as [E1 E2]. rewrite negb_false_iff in E1, E2. apply Z.eqb_eq in E1. by apply array_eqb_eq in E2.
  - by apply VerifyHeaderPoW_ok.
  - destruct hs as [|h' hs]; [done|]. destruct E as (Hp & Hw & Hc). destruct (Hp h eq_refl) as [E1 E2]. cbn. rewrite E2 in Hc. done.
Qed.

Lemma checkHeaderChain_lemma headers start (n n' : Node D Syncer) :
  (forall k s, meanwhile env k s = s) -> checkHeaderChain env headers start n = (n', Returns tt) ->
  exists anchor bc', BlockByHeight (u64 (start - 1)) (chain (shared n)) = (bc', Returns anchor) /\ headerChain (Block_Hash anchor) start headers.
Proof.
  intros Hq. unfold checkHeaderChain. destruct headers as [|h hs]; [done|]. destruct (Z.eqb_spec (Height h) start) as [Eh|]; [|done]. cbn [negb].
  unfold act_bind at 1, attempt, blockAt, on_chain, on_shared. cbv zeta. rewrite Hq.
  destruct (BlockByHeight _ _) as [bc' [anchor|e| |]]; [|done..]. destruct (array_eqb _ _) eqn:Ep; [|done]. cbn [negb].
  apply array_eqb_eq in Ep. intros (_ & Hw & Hc)%checkLinks_sound. exists anchor, bc'. split; [done|]. cbn. by rewrite <- Eh.
Qed.
End Gate.

(** ** The fork point *)

Section Fork.
Context `{Crypto} `{Bn256} {D D' : Type} `{KVLaws D} `{KVLaws D'} (net : network) (es : Env D) (env : Env D').
Context (Hn : wf_network net) (Hqs : forall k s, meanwhile es k s = s) (Hqc : forall k s, meanwhile env k s = s).
Context (peer from : list byte) (m : Node D Syncer) (Hreq : forall k req, request env k peer req = asked es from m req).
Context (Hal : snd (yallow es from m) = Returns true).

#[local] Instance fork_headers_ok : headers (n_headers net) (n_block net) := wn_headers net Hn.

Context (Fm Fn : Z) (theirCanon ourCanon : list Block).
Context (Him : inv (n_headers net) (n_block net) Fm theirCanon (chain (shared m))).

Let theirs : list Block := n_block net :: theirCanon.
Let ours : list Block := n_block net :: ourCanon.

(** The client's chain is the one with [ours]. *)
Definition at_ours (n : Node D' Syncer) : Prop := inv (n_headers net) (n_block net) Fn ourCanon (chain (shared n)).

Definition agree (i : nat) : bool :=
  match theirs !! i, ours !! i with
  | Some t, Some o => array_eqb (Block_Hash t) (Block_Hash o)
  | _, _ => false
  end.

Lemma agreesAt_honest h (n : Node D' Syncer) :
  at_ours n -> 0 <= h -> h < Z.of_nat (length theirs) -> h < Z.of_nat (length ours) ->
  exists n', agreesAt env peer h n = (n', Returns (agree (Z.to_nat h))) /\ at_ours n'.
Proof.
  intros Ho Hh Ht Hl. destruct (lookup_lt_is_Some_2 theirs (Z.to_nat h)) as [t Et]; [lia|].
  destruct (lookup_lt_is_Some_2 ours (Z.to_nat h)) as [o Eo]; [lia|].
  assert (Block_Height t = h /\ h < 2 ^ 63) as [Eth Hlt].
  { pose proof (inv_canonicalChain net Fm theirCanon _ Him) as Hc. destruct (cc_read _ _ _ Hc _ _ Et) as [E _]. rewrite Z2Nat.id in E by done.
    pose proof (ci_stored _ _ _ _ (inv_canon _ _ _ _ _ Him)) as Hst. rewrite Forall_forall in Hst.
    destruct (Hst t (list_elem_of_lookup_2 _ _ _ Et)) as [_ [_ [_ _ _ Hs] _]]. unfold Block_Height in *. lia. }
  unfold agreesAt, getHeaderAt. unfold act_bind at 1 2.
  rewrite (honest_exchange net es Hqs env peer from h 1 m n Fm theirCanon Him Hal) by (done || unfold maxHeadersPerRequest; lia).
  fold theirs. cbn [sr_Headers]. rewrite (drop_S _ (b_Header t) (Z.to_nat h)) by (rewrite list_lookup_fmap, Et; done).
  change (Z.to_nat 1) with 1%nat. cbn [take map]. unfold Block_Height in Eth. rewrite Eth, Z.eqb_refl. cbn [negb].
  unfold act_ret at 1. unfold act_bind, blockAt, on_chain, on_shared. cbv zeta. rewrite Hqc. cbn [shared].
  destruct (BlockByHeight_inv net Fn ourCanon h (chain (shared n)) Ho ltac:(lia)) as (bc' & r & -> & Hi' & Hr).
  fold ours in Hr. rewrite Eo in Hr. destruct Hr as (-> & _ & _). eexists. split; [unfold agree; by rewrite Et, Eo|exact Hi'].
Qed.

Lemma ancestorLoop_honest fuel lo hi (n : Node D' Syncer) :
  at_ours n -> 0 <= lo <= hi -> hi < 2 ^ 63 -> hi <= Z.of_nat (length theirs) -> hi <= Z.of_nat (length ours) ->
  (Z.to_nat (hi - lo) <= fuel)%nat -> agree (Z.to_nat lo) = true ->
  exists n' a, ancestorLoop env fuel peer lo hi n = (n', Returns a) /\ at_ours n' /\ lo <= a <= hi /\ agree (Z.to_nat a) = true
    /\ (a + 1 < hi -> agree (Z.to_nat (a + 1)) = false).
Proof.
  revert lo hi n. induction fuel as [|fuel IH]; intros lo hi n Ho Hlo Hhi Ht Hl Hf Hag; cbn [ancestorLoop];
    (destruct (Z.ltb_spec (u64 (lo + 1)) hi) as [Hlt|Hge]; rewrite (u64_small (lo + 1)) in * by lia; [|exists n, lo; split_and!; (done || lia)]); [lia|].
  rewrite (u64_small (lo + hi)) by lia. pose proof (Z.div_mod (lo + hi) 2 ltac:(lia)). pose proof (Z.mod_pos_bound (lo + hi) 2 ltac:(lia)).
  set (mid := (lo + hi) / 2) in *. destruct (agreesAt_honest mid n Ho) as (n1 & E & Ho1); [lia..|].
  unfold act_bind. rewrite E. destruct (agree (Z.to_nat mid)) eqn:Em.
  - destruct (IH mid hi n1) as (n2 & a & E2 & Ho2 & Ha & Hag2 & Hd); [done|lia..|done|]. exists n2, a. split_and!; (done || lia).
  - destruct (IH lo mid n1) as (n2 & a & E2 & Ho2 & Ha & Hag2 & Hd); [done|lia..|done|]. exists n2, a.
    split_and!; try (done || lia). intros Hlt2. destruct (Z.lt_ge_cases (a + 1) mid) as [|Hge2]; [by apply Hd|].
    destruct (Z.eq_dec a mid) as [->|Hne]; [congruence|]. by replace (a + 1) with mid by lia.
Qed.

(** Where the chains agree they share everything below. *)
Lemma agree_below (bc : Blockchain D') i j :
  inv (n_headers net) (n_block net) Fn ourCanon bc -> agree i = true -> (j <= i)%nat -> b_Header <$> theirs !! j = b_Header <$> ours !! j.
Proof.
  intros Hio. pose proof (inv_canonicalChain net Fm theirCanon _ Him) as Ct. pose proof (inv_canonicalChain net Fn ourCanon _ Hio) as Co.
  pose proof (ci_stored _ _ _ _ (inv_canon _ _ _ _ _ Him)) as St. pose proof (ci_stored _ _ _ _ (inv_canon _ _ _ _ _ Hio)) as So.
  rewrite Forall_forall in St, So. fold theirs in Ct, St. fold ours in Co, So.
  assert (forall k t o, theirs !! k = Some t -> ours !! k = Some o -> Block_Hash t = Block_Hash o -> b_Header t = b_Header o) as Hinj.
  { intros k t o Et Eo E. destruct (St t (list_elem_of_lookup_2 _ _ _ Et)) as [_ [Pt _ _]]. destruct (So o (list_elem_of_lookup_2 _ _ _ Eo)) as [_ [Po _ _]].
    by apply (P_inj (n_headers net) (n_block net)). }
  revert j. induction i as [|i IH]; intros j Hag Hj.
  - assert (j = 0%nat) as -> by lia. done.
  - unfold agree in Hag. destruct (theirs !! S i) as [t|] eqn:Et; [|done]. destruct (ours !! S i) as [o|] eqn:Eo; [|done].
    apply array_eqb_eq in Hag. pose proof (Hinj _ _ _ Et Eo Hag) as Eh. destruct (decide (j = S i)) as [->|Hne].
    + rewrite Et, Eo. cbn. by rewrite Eh.
    + destruct (lookup_lt_is_Some_2 theirs i) as [pt Ept]; [apply lookup_lt_Some in Et; lia|].
      destruct (lookup_lt_is_Some_2 ours i) as [po Epo]; [apply lookup_lt_Some in Eo; lia|].
      apply IH; [|lia]. unfold agree. rewrite Ept, Epo. apply array_eqb_eq.
      rewrite <- (cc_link _ _ _ Ct _ _ _ Ept Et), <- (cc_link _ _ _ Co _ _ _ Epo Eo). by rewrite Eh.
Qed.

Lemma agree_header i : is_Some (theirs !! i) -> is_Some (ours !! i) -> agree i = false -> b_Header <$> theirs !! i <> b_Header <$> ours !! i.
Proof.
  intros [t Et] [o Eo]. unfold agree. rewrite Et, Eo. intros E. cbn. intros [= Eh]. unfold Block_Hash in E. rewrite Eh in E.
  by rewrite (proj2 (array_eqb_eq _ _) eq_refl) in E.
Qed.

Lemma findCommonAncestor_honest (n : Node D' Syncer) h :
  at_ours n -> 0 <= h < 2 ^ 63 -> h < Z.of_nat (length theirs) -> h < Z.of_nat (length ours) ->
  let lo := Z.max 0 (h - retention (chain (shared n))) in
  exists n' o, findCommonAncestor env peer h n = (n', Returns o)
    /\ match o with
       | Some a => lo <= a <= h /\ agree (Z.to_nat a) = true /\ (a + 1 < h -> agree (Z.to_nat (a + 1)) = false)
       | None => agree (Z.to_nat lo) = false
       end.
Proof.
  intros Ho Hh Ht Hl lo. unfold findCommonAncestor. unfold act_bind at 1, on_chain at 1, on_shared at 1. cbv zeta. rewrite Hqc. unfold Retention.
  pose proof (cf_retention _ _ (inv_config _ _ _ _ _ Ho)) as Hret.
  assert ((if retention (chain (shared n)) <? h then h - retention (chain (shared n)) else 0) = lo) as ->.
  { unfold lo. destruct (Z.ltb_spec (retention (chain (shared n))) h); lia. }
  set (n0 := mkNode _ _ _ _). assert (at_ours n0) as Ho0 by exact Ho. assert (0 <= lo <= h) as Hlo by (unfold lo; lia).
  destruct (agreesAt_honest lo n0 Ho0) as (n1 & E & Ho1); [lia..|]. unfold act_bind. rewrite E.
  destruct (agree (Z.to_nat lo)) eqn:Ea; cbn [negb]; [|by exists n1, None].
  destruct (ancestorLoop_honest (Z.to_nat (h - lo)) lo h n1) as (n2 & a & E2 & Ho2 & Ha & Hag & Hd); [done|lia..|done|].
  rewrite E2. exists n2, (Some a). by split.
Qed.
End Fork.

(** ** A small fork *)

#[local] Existing Instance mixCrypto.
#[local] Existing Instance toyBn256.

(** A node at [bc] that peers ask, and one that asks it, each with its clock at [ms]. *)
Definition syncNode (bc : Blockchain Memory) : Node Memory Syncer :=
  mkNode newSyncer (mkShared bc (Some (NewScorer 0)) (Mempool_New 100)) 0 [].

Definition askingEnv (ms : Z) (server : Blockchain Memory) : Env Memory :=
  mkEnv (clock (smallEnv ms)) (meanwhile (smallEnv ms)) (walkScores (smallEnv ms)) (walkBuckets (smallEnv ms)) (poolOrders (smallEnv ms))
    (journalOK (smallEnv ms)) (publish (smallEnv ms)) (fun _ _ req => asked (smallEnv ms) [x62] (syncNode server) req).

(** Sync from the peer [a], which has [server]: whether our head is [h] then, the penalty of [a], and whether
    the sync ended. *)
Definition syncs (ms : Z) (ours server : Blockchain Memory) (h : Header) : bool * option Z * bool :=
  let (n, r) := SyncFrom (askingEnv ms server) 10 [x61] (syncNode ours) in
  (array_eqb (Block_Hash (Head (chain (shared n)))) (Header_Hash h),
   match scorer (shared n) with Some sc => snd (Penalty sc [x61] (ms * 1000000)) | None => None end,
   match r with Returns _ => true | _ => false end).

(** ** Properties *)

(** C15: [SyncFrom] is safe against any peer.  Whatever bytes the peer answers, blocks dated at the end of time or asking for
    any amount of gas among them, and whatever the rest of the node does meanwhile, the chain stays one a node can reach,
    no panic escapes, and the slot is released when the sync ends.  A sync that does not end within [fuel] rounds has
    accepted a new block in each of them: a peer holds it only by supplying blocks with valid proofs of work.  The
    assumptions are those of [onBlock_safe]: no two headers the node meets share a hash, no chain is mined whose gas limit
    has grown beyond 2^60 or whose height nears 2^63, and the clock is in range. *)
Theorem SyncFrom_safe `{Crypto} `{Bn256} {D} `{KVLaws D} net (env : Env D) fuel peer n :
  wf_network net -> env_ok net env -> answers_ok net env -> shared_ok net (shared n) -> peer <> [] -> syncing (own n) = false ->
  let (n', r) := SyncFrom env fuel peer n in
  shared_ok net (shared n')
  /\ (r = Returns tt /\ syncing (own n') = false \/ r = OutOfFuel /\ (acceptances n + fuel <= acceptances n')%nat).
Proof. intros Hn He Ha. by apply SyncFrom_lemma. Qed.

(** A peer that has [chain5].  It answers a node that starts from the genesis block with the headers [b1], [b2], [b3] and
    then, asked for them, with their bodies; any other question it answers with a block dated at the end of time. *)
Definition fromGenesis : list byte := encodeJSON syncRequestC (mkRequest kindHeaders 1 maxHeadersPerRequest []).

Definition theirBodies : list byte := encodeJSON syncRequestC (mkRequest kindBodies 0 0 (map Header_Hash [b1; b2; b3])).

Definition bodiesOf (hs : list Header) : list byte := encodeJSON syncResponseC (mkResponse [] (map (fun h => Some (toRaw (mkBlock h []))) hs)).

Definition slyPeer (req : list byte) : list byte :=
  if bool_decide (req = fromGenesis) then encodeJSON syncResponseC (mkResponse (map Some [b1; b2; b3]) [])
  else if bool_decide (req = theirBodies) then bodiesOf [b1; b2; b3]
  else bodiesOf [future].

Definition slyEnv (ms : Z) : Env Memory :=
  mkEnv (clock (smallEnv ms)) (meanwhile (smallEnv ms)) (walkScores (smallEnv ms)) (walkBuckets (smallEnv ms)) (poolOrders (smallEnv ms))
    (journalOK (smallEnv ms)) (publish (smallEnv ms)) (fun _ _ req => Ok (slyPeer req)).

Definition knownBlocks (data : list byte) : bool :=
  match decodeJSON syncResponseC data with
  | Ok resp => forallb (fun o => match o with
                                 | Some b => match rb_Header b with Some h => bool_decide (h ∈ smallHeaders) | None => true end
                                 | None => true
                                 end) (sr_Blocks resp)
  | _ => true
  end.

Lemma knownBlocks_ok data resp : knownBlocks data = true -> decodeJSON syncResponseC data = Ok resp ->
  Forall (fun o => forall b h, o = Some b -> rb_Header b = Some h -> n_headers small h) (sr_Blocks resp).
Proof.
  unfold knownBlocks. intros Hk E. rewrite E in Hk. rewrite Forall_forall. intros o Ho b h -> Eh.
  rewrite forallb_forall in Hk. specialize (Hk (Some b) ltac:(by apply list_elem_of_In)). cbn beta iota in Hk. rewrite Eh in Hk.
  by apply bool_decide_eq_true in Hk.
Qed.

Lemma known1 : knownBlocks (encodeJSON syncResponseC (mkResponse (map Some [b1; b2; b3]) [])) = true.
Proof. vm_compute. reflexivity. Qed.

Lemma known2 : knownBlocks (bodiesOf [b1; b2; b3]) = true.
Proof. vm_compute. reflexivity. Qed.

Lemma known3 : knownBlocks (bodiesOf [future]) = true.
Proof. vm_compute. reflexivity. Qed.

Lemma slyPeer_known req : knownBlocks (slyPeer req) = true.
Proof.
  unfold slyPeer. destruct (bool_decide (req = fromGenesis)); [exact known1|]. destruct (bool_decide (req = theirBodies)); [exact known2|exact known3].
Qed.

Lemma slyEnv_answers ms : answers_ok small (slyEnv ms).
Proof. intros k p req. exact (fun resp => knownBlocks_ok (slyPeer req) resp (slyPeer_known req)). Qed.

Lemma SyncFrom_safe_witness :
  let (n', r) := SyncFrom (slyEnv 900000) 3 [x61] (syncNode chain0) in
  shared_ok small (shared n') /\ (r = Returns tt /\ syncing (own n') = false \/ r = OutOfFuel /\ (0 + 3 <= acceptances n')%nat)
  /\ Head (chain (shared n')) = mkBlock b3 [] /\ acceptances n' = 3%nat.
Proof.
  assert (clockRange 900000) as Hc by (unfold clockRange; lia).
  assert (env_ok small (slyEnv 900000)) as He by (destruct (smallEnv_ok 900000 Hc); split; assumption).
  pose proof (SyncFrom_safe small (slyEnv 900000) 3 [x61] (syncNode chain0) small_wf He (slyEnv_answers _)
    (proj2 smallNode_ok) ltac:(discriminate) eq_refl) as Hs.
  assert (let n' := fst (SyncFrom (slyEnv 900000) 3 [x61] (syncNode chain0)) in
    bool_decide (Head (chain (shared n')) = mkBlock b3 [] /\ acceptances n' = 3%nat) = true) as Hb by (vm_compute; reflexivity).
  destruct (SyncFrom (slyEnv 900000) 3 [x61] (syncNode chain0)) as [n' r]. apply bool_decide_eq_true in Hb. cbn [fst] in Hb.
  destruct Hs as [H1 H2]. split; [exact H1|]. split; [exact H2|exact Hb].
Defined.

(** Headers travel unchanged.  Asked for headers from [start], a node that is not over the peer's rate
    answers with those of its canonical chain from that height on, 256 at most; and the peer, which decodes
    the bytes, gets exactly these. *)
Theorem honest_headers `{Crypto} `{Bn256} {D D'} `{KVLaws D} net (es : Env D) (env : Env D') peer from start m (n : Node D' Syncer) :
  wf_network net -> (forall k s, meanwhile es k s = s) -> reachable net (chain (shared m)) ->
  snd (yallow es from m) = Returns true -> 0 <= start < 2 ^ 64 ->
  (forall k req, request env k peer req = asked es from m req) ->
  exists ch n', canonicalChain net (chain (shared m)) ch
    /\ getHeaders env peer start n = (n', Returns (take 256 (drop (Z.to_nat start) (map b_Header ch)))).
Proof. intros Hn Hq. by apply honest_headers_lemma. Qed.

Lemma honest_headers_witness :
  exists ch n', canonicalChain small chain5 ch
    /\ getHeaders (askingEnv 800000 chain5) [x61] 1 (syncNode chain0) = (n', Returns (take 256 (drop 1 (map b_Header ch)))).
Proof.
  apply (honest_headers small (smallEnv 800000) (askingEnv 800000 chain5) [x61] [x62] 1 (syncNode chain5) (syncNode chain0) small_wf);
    [done|exact chain5_reachable|vm_compute; reflexivity|lia|done].
Defined.

(** C36: [findCommonAncestor] finds the fork.  Against an honest peer whose chain is at least as high as ours, it
    returns the last height, at or above the retention floor and below our head, at which the two canonical
    chains hold the same block; they share every block up to there, and the next ones differ.  It answers
    that there is none only if the chains already differ at the floor. *)
Theorem common_ancestor `{Crypto} `{Bn256} {D D'} `{KVLaws D} `{KVLaws D'} net (es : Env D) (env : Env D') peer from m n :
  wf_network net -> (forall k s, meanwhile es k s = s) -> (forall k s, meanwhile env k s = s) ->
  (forall k req, request env k peer req = asked es from m req) -> snd (yallow es from m) = Returns true ->
  reachable net (chain (shared m)) -> reachable net (chain (shared n)) ->
  let h := Block_Height (Head (chain (shared n))) in
  let lo := Z.max 0 (h - Retention (chain (shared n))) in
  h <= Block_Height (Head (chain (shared m))) ->
  exists ours theirs n' o, canonicalChain net (chain (shared n)) ours /\ canonicalChain net (chain (shared m)) theirs
    /\ findCommonAncestor env peer h n = (n', Returns o)
    /\ match o with
       | Some a => lo <= a <= h
           /\ (forall j, (j <= Z.to_nat a)%nat -> b_Header <$> theirs !! j = b_Header <$> ours !! j)
           /\ (a + 1 < h -> b_Header <$> theirs !! Z.to_nat (a + 1) <> b_Header <$> ours !! Z.to_nat (a + 1))
       | None => b_Header <$> theirs !! Z.to_nat lo <> b_Header <$> ours !! Z.to_nat lo
       end.
Proof.
  intros Hn Hqs Hqc Hreq Hal Hrm Hrn h lo Hle.
  destruct (chain_reachable_inv net Hn _ Hrm) as (Fm & cm & Him & _). destruct (chain_reachable_inv net Hn _ Hrn) as (Fn & cn & Hin & _).
  pose proof (head_height net Hn _ Hrn) as Hh. fold h in Hh.
  pose proof (head_index net Fm cm _ Him) as Em. pose proof (head_index net Fn cn _ Hin) as En. unfold Head in *. fold h in En.
  destruct (findCommonAncestor_honest net es env Hqs Hqc peer from m Hreq Hal Fm Fn cm cn Him n h Hin Hh) as (n' & o & E & Ho); [lia..|].
  exists (n_block net :: cn), (n_block net :: cm), n', o. split_and!; [by eapply inv_canonicalChain..|done|].
  assert (forall i, (i <= Z.to_nat h)%nat -> is_Some ((n_block net :: cm) !! i) /\ is_Some ((n_block net :: cn) !! i)) as His.
  { intros i Hi. split; apply lookup_lt_is_Some_2; lia. }
  destruct o as [a|].
  - destruct Ho as (Hb & Hag & Hd). split_and!; [apply Hb|apply Hb|..].
    + intros j Hj. by eapply (agree_below net Hn m Fm Fn cm cn Him _ (Z.to_nat a)).
    + intros Hlt. destruct (His (Z.to_nat (a + 1))) as [? ?]; [lia|]. apply (agree_header net cm cn); auto.
  - destruct (His (Z.to_nat lo)) as [? ?]; [unfold lo, Retention; pose proof (cf_retention _ _ (inv_config _ _ _ _ _ Hin)); lia|].
    by apply (agree_header net cm cn).
Qed.

Lemma common_ancestor_witness :
  exists ours theirs n' o, canonicalChain small chain2 ours /\ canonicalChain small chain5 theirs
    /\ findCommonAncestor (askingEnv 800000 chain5) [x61] (Block_Height (Head chain2)) (syncNode chain2) = (n', Returns o).
Proof.
  destruct (common_ancestor small (smallEnv 800000) (askingEnv 800000 chain5) [x61] [x62] (syncNode chain5) (syncNode chain2) small_wf)
    as (ours & theirs & n' & o & H1 & H2 & H3 & _);
    [done|done|done|vm_compute; reflexivity|exact chain5_reachable|exact chain2_reachable|apply Z.leb_le; vm_compute; reflexivity|].
  exists ours, theirs, n', o. split_and!; done.
Defined.

(** No body is fetched for headers that are not a chain with work on ours: what [checkHeaderChain] lets
    through starts at the height asked for, on the block we hold below it; each header is the child of the
    one before, one higher, and meets the difficulty it claims. *)
Theorem checkHeaderChain_sound `{Crypto} `{Bn256} {D} `{KV D} (env : Env D) headers start n n' :
  (forall k s, meanwhile env k s = s) -> checkHeaderChain env headers start n = (n', Returns tt) ->
  exists anchor bc', BlockByHeight (u64 (start - 1)) (chain (shared n)) = (bc', Returns anchor) /\ headerChain (Block_Hash anchor) start headers.
Proof. apply checkHeaderChain_lemma. Qed.

Lemma checkHeaderChain_sound_witness :
  exists anchor bc', BlockByHeight 2 chain2 = (bc', Returns anchor)
    /\ headerChain (Block_Hash anchor) 3 [childOf chain2 (Header_Hash a2) 1].
Proof.
  apply (checkHeaderChain_sound (smallEnv 800000) [childOf chain2 (Header_Hash a2) 1] 3 (syncNode chain2)
    (fst (checkHeaderChain (smallEnv 800000) [childOf chain2 (Header_Hash a2) 1] 3 (syncNode chain2)))); [done|].
  assert (match snd (checkHeaderChain (smallEnv 800000) [childOf chain2 (Header_Hash a2) 1] 3 (syncNode chain2)) with
          | Returns _ => true | _ => false end = true) as Hr by (vm_compute; reflexivity).
  destruct (checkHeaderChain (smallEnv 800000) [childOf chain2 (Header_Hash a2) 1] 3 (syncNode chain2)) as [n1 [[]|e| |]]; done.
Defined.

(** Sync follows a heavier fork, but punishes the peer for one whose tip is ahead of our clock.  Our chain is
    [a1], [a2]; the peer's [b1], [b2], [b3].  With the clock past [b3], the sync ends with [b3] as our head
    and the peer's record clean.  With the clock a millisecond short of admitting [b3], we stay on [a2] and the
    peer is penalised, though a tip ahead of the clock is not to be: without the fork, the same tip at the
    same time costs the peer nothing. *)
Theorem future_fork_penalised :
  let early := Timestamp b3 - MaxFutureDriftMs - 1 in
  syncs (Timestamp b3) chain2 chain5 b3 = (true, Some 0, true)
  /\ syncs early chain2 chain5 a2 = (true, Some 1, true)
  /\ snd (fst (syncs early chain0 chain5 b3)) = Some 0.
Proof. split_and!; vm_compute; reflexivity. Qed.
