(* ===== verification/Rpc.v ===== *)
(** * JSON-RPC 2.0 (rpc/wire.go, rpc/server.go, rpc/client.go)

    The wire types, the server that finds a method, runs it behind a panic
    firewall and answers, and the client that asks.  A method is an action on
    the node.  A raw message is the JSON value that was read, so an id is
    echoed as a value, not byte by byte.  What an error value says in words is
    a parameter: which error it is, is modelled; its wording is not. *)
From stdpp Require Import base numbers list gmap.
From Stdlib Require Import ZArith Lia Strings.Byte.
From Stdlib Require Strings.String.
Import Strings.String.StringSyntax.
From S2P Require Import Prelude Common Types VmBase Precompiles Vm State Transition Json JsonCodec Store Schema SchemaProofs Wire Mempool.
From S2P Require Import Blockchain Scorer P2p.
#[local] Open Scope Z_scope.
#[local] Open Scope list_scope.
#[local] Open Scope act_scope.

#[local] Notation "'let*' x ':=' o 'in' k" := (mbind (fun x => k) o) (at level 10, x name, o at level 200, k at level 200).

(** ** Quantities and data (wire.go) *)

(** [big.Int.Text(16)]; nil is printed too. *)
Definition bigText16 (i : option Z) : list byte :=
  match i with
  | None => str "<nil>"
  | Some z => if z <? 0 then x2d :: text16 (- z) else text16 z
  end.

(** A [Quantity] wraps a [*big.Int]. *)
Definition Quantity : Type := option Z.

Definition Q (i : option Z) : Quantity := i.
Definition QU (v : Z) : Quantity := Some v.

(** [big.Int.Uint64] takes the low 64 bits of the magnitude: the sign is lost. *)
Definition Quantity_U64 (q : Quantity) : Z := match q with None => 0 | Some z => u64 (Z.abs z) end.

Definition Quantity_MarshalJSON (q : Quantity) : json :=
  match q with
  | None => JStr (str "0x0")
  | Some z => JStr (str "0x" ++ bigText16 (Some z))
  end.

Definition Quantity_UnmarshalJSON (j : json) : option Quantity :=
  match dec stringC j [] with
  | None => None
  | Some s =>
      match trim0x s with
      | [] => None
      | s => Some <$> setString16 s
      end
  end.

(** [UnmarshalJSON] is called for null too. *)
Definition quantityC : codec Quantity := mkCodec Quantity None Quantity_MarshalJSON (fun j _ => Quantity_UnmarshalJSON j).

Definition Data_MarshalJSON (d : list byte) : json := JStr (str "0x" ++ hex_EncodeToString d).

Definition Data_UnmarshalJSON (j : json) : option (list byte) :=
  match dec stringC j [] with
  | None => None
  | Some s => match hex_DecodeString (trim0x s) with Ok b => Some b | _ => None end
  end.

Definition dataC : codec (list byte) := mkCodec (list byte) [] Data_MarshalJSON (fun j _ => Data_UnmarshalJSON j).

(** [map[string]interface{}], written with its keys in order. *)
Definition goMap : Type := gmap (list byte) json.

Definition goMapOf (l : list (list byte * json)) : goMap := fold_left (fun m p => <[fst p := snd p]> m) l ∅.

Definition goMapJSON (m : goMap) : json := JObj (map (fun k => (k, default JNull (m !! k))) (keysInOrder m)).

(** ** Transactions on the wire *)

Record TxArgs : Type := mkTxArgs {
  ta_ChainID : Quantity;
  ta_Nonce : Quantity;
  ta_To : option Address;
  ta_Value : Quantity;
  ta_GasLimit : Quantity;
  ta_GasPrice : Quantity;
  ta_Data : list byte;
  ta_Sig : list byte;
}.

Definition txArgsC : codec TxArgs := structC (mkTxArgs None None None None None None [] [])
  (fun a => [(str "chainId", enc quantityC (ta_ChainID a)); (str "nonce", enc quantityC (ta_Nonce a));
             (str "to", enc (ptrC addressC) (ta_To a)); (str "value", enc quantityC (ta_Value a));
             (str "gasLimit", enc quantityC (ta_GasLimit a)); (str "gasPrice", enc quantityC (ta_GasPrice a));
             (str "data", enc dataC (ta_Data a)); (str "sig", enc dataC (ta_Sig a))])
  (fun ms cur =>
     let* chain := field quantityC (str "chainId") ms (ta_ChainID cur) in
     let* nonce := field quantityC (str "nonce") ms (ta_Nonce cur) in
     let* to := field (ptrC addressC) (str "to") ms (ta_To cur) in
     let* value := field quantityC (str "value") ms (ta_Value cur) in
     let* limit := field quantityC (str "gasLimit") ms (ta_GasLimit cur) in
     let* price := field quantityC (str "gasPrice") ms (ta_GasPrice cur) in
     let* data := field dataC (str "data") ms (ta_Data cur) in
     let* sig := field dataC (str "sig") ms (ta_Sig cur) in
     Some (mkTxArgs chain nonce to value limit price data sig)).

Definition FromTx (tx : Transaction) : TxArgs :=
  mkTxArgs (QU (tx_ChainID tx)) (QU (tx_Nonce tx)) (tx_To tx) (Q (tx_Value tx)) (QU (tx_GasLimit tx)) (Q (tx_GasPrice tx))
    (tx_Data tx) (tx_Sig tx).

(** The type is not on the wire: it is left at its zero value. *)
Definition ToTx (a : TxArgs) : Transaction :=
  mkTx 0 (Quantity_U64 (ta_ChainID a)) (Quantity_U64 (ta_Nonce a)) (ta_To a) (ta_Value a)
    (Quantity_U64 (ta_GasLimit a)) (ta_GasPrice a) (ta_Data a) (ta_Sig a).

Record TxResult : Type := mkTxResult {
  xr_Hash : Hash;
  xr_From : Address;
  xr_To : option Address;
  xr_Nonce : Quantity;
  xr_Value : Quantity;
  xr_GasLimit : Quantity;
  xr_GasPrice : Quantity;
  xr_Data : list byte;
  xr_BlockHash : option Hash;
  xr_BlockHeight : option Quantity;
  xr_TxIndex : option Quantity;
}.

Definition txResultJSON (r : TxResult) : json := JObj
  [(str "hash", enc hashC (xr_Hash r)); (str "from", enc addressC (xr_From r)); (str "to", enc (ptrC addressC) (xr_To r));
   (str "nonce", enc quantityC (xr_Nonce r)); (str "value", enc quantityC (xr_Value r));
   (str "gasLimit", enc quantityC (xr_GasLimit r)); (str "gasPrice", enc quantityC (xr_GasPrice r));
   (str "data", enc dataC (xr_Data r)); (str "blockHash", enc (ptrC hashC) (xr_BlockHash r));
   (str "blockHeight", enc (ptrC quantityC) (xr_BlockHeight r)); (str "txIndex", enc (ptrC quantityC) (xr_TxIndex r))].

(** [LogResult] *)
Definition logResultJSON (l : Log) : json := JObj
  [(str "address", enc addressC (l_Address l)); (str "topics", JArr (map (enc hashC) (l_Topics l)));
   (str "data", enc dataC (l_Data l))].

Record ReceiptResult : Type := mkReceiptResult {
  rr_TxHash : Hash;
  rr_Status : Quantity;
  rr_GasUsed : Quantity;
  rr_CumulativeGasUsed : Quantity;
  rr_BlockHash : Hash;
  rr_BlockHeight : Quantity;
  rr_TxIndex : Quantity;
  rr_From : Address;
  rr_To : option Address;
  rr_ContractAddress : option Address;
  rr_Logs : list Log;
}.

Definition receiptResultJSON (r : ReceiptResult) : json := JObj
  [(str "txHash", enc hashC (rr_TxHash r)); (str "status", enc quantityC (rr_Status r));
   (str "gasUsed", enc quantityC (rr_GasUsed r)); (str "cumulativeGasUsed", enc quantityC (rr_CumulativeGasUsed r));
   (str "blockHash", enc hashC (rr_BlockHash r)); (str "blockHeight", enc quantityC (rr_BlockHeight r));
   (str "txIndex", enc quantityC (rr_TxIndex r)); (str "from", enc addressC (rr_From r));
   (str "to", enc (ptrC addressC) (rr_To r)); (str "contractAddress", enc (ptrC addressC) (rr_ContractAddress r));
   (str "logs", JArr (map logResultJSON (rr_Logs r)))].

Record CallArgs : Type := mkCallArgs { ca_From : option Address; ca_To : Address; ca_Data : list byte; ca_Gas : option Quantity }.

Definition callArgsC : codec CallArgs := structC (mkCallArgs None ZeroAddress [] None)
  (fun a => [(str "from", enc (ptrC addressC) (ca_From a)); (str "to", enc addressC (ca_To a));
             (str "data", enc dataC (ca_Data a)); (str "gas", enc (ptrC quantityC) (ca_Gas a))])
  (fun ms cur =>
     let* from := field (ptrC addressC) (str "from") ms (ca_From cur) in
     let* to := field addressC (str "to") ms (ca_To cur) in
     let* data := field dataC (str "data") ms (ca_Data cur) in
     let* gas := field (ptrC quantityC) (str "gas") ms (ca_Gas cur) in
     Some (mkCallArgs from to data gas)).

(** [BlockResult]: the fields of [HeaderResult], then the transactions. *)
Definition blockResultJSON (hash : Hash) (h : Header) (txs : list json) : json := JObj
  [(str "hash", enc hashC hash); (str "parentHash", enc hashC (ParentHash h)); (str "height", enc quantityC (QU (Height h)));
   (str "timestamp", enc quantityC (QU (u64 (Timestamp h)))); (str "txRoot", enc hashC (h_TxRoot h));
   (str "receiptRoot", enc hashC (h_ReceiptRoot h)); (str "stateRoot", enc hashC (StateRoot h));
   (str "gasUsed", enc quantityC (QU (h_GasUsed h))); (str "gasLimit", enc quantityC (QU (h_GasLimit h)));
   (str "proposer", enc addressC (Proposer h)); (str "txs", JArr txs)].

(** ** Requests and responses (server.go) *)

Definition CodeParseError : Z := -32700.
Definition CodeInvalidRequest : Z := -32600.
Definition CodeMethodNotFound : Z := -32601.
Definition CodeInvalidParams : Z := -32602.
Definition CodeInternalError : Z := -32603.
Definition CodeServerError : Z := -32000.

Definition maxBodyBytes : Z := Z.shiftl 1 20.
Definition maxBatchLength : Z := 64.
Definition maxBatchResponseBytes : Z := Z.shiftl 10 20.

Record request : Type := mkRequest {
  rq_JSONRPC : list byte;
  rq_Method : list byte;
  rq_Params : option json;
  rq_ID : option json;
}.

Definition requestC : codec request := structC (mkRequest [] [] None None)
  (fun r => [(str "jsonrpc", enc stringC (rq_JSONRPC r)); (str "method", enc stringC (rq_Method r));
             (str "params", enc rawC (rq_Params r)); (str "id", enc rawC (rq_ID r))])
  (fun ms cur =>
     let* v := field stringC (str "jsonrpc") ms (rq_JSONRPC cur) in
     let* m := field stringC (str "method") ms (rq_Method cur) in
     let* p := field rawC (str "params") ms (rq_Params cur) in
     let* i := field rawC (str "id") ms (rq_ID cur) in
     Some (mkRequest v m p i)).

Record rpcError : Type := mkRpcError { re_Code : Z; re_Message : list byte }.

Definition rpcErrorC : codec rpcError := structC (mkRpcError 0 [])
  (fun e => [(str "code", enc int64C (re_Code e)); (str "message", enc stringC (re_Message e))])
  (fun ms cur =>
     let* c := field int64C (str "code") ms (re_Code cur) in
     let* m := field stringC (str "message") ms (re_Message cur) in
     Some (mkRpcError c m)).

(** The result is what it is written as; nil is null. *)
Record rpcResponse : Type := mkRpcResponse { rs_Result : json; rs_Error : option rpcError; rs_ID : json }.

(** [response.MarshalJSON]; the version is always the same. *)
Definition response_MarshalJSON (r : rpcResponse) : json :=
  match rs_Error r with
  | Some e => JObj [(str "jsonrpc", JStr (str "2.0")); (str "error", enc rpcErrorC e); (str "id", rs_ID r)]
  | None => JObj [(str "jsonrpc", JStr (str "2.0")); (str "result", rs_Result r); (str "id", rs_ID r)]
  end.

Definition rpcFailure (code : Z) (msg : list byte) (id : json) : rpcResponse := mkRpcResponse JNull (Some (mkRpcError code msg)) id.

(** What a handler writes: header fields, status and body. *)
Record reply : Type := mkReply { rp_header : list (list byte * list byte); rp_response : response }.

Definition writeJSON (j : json) : reply := mkReply [(str "Content-Type", str "application/json")] (httpJSON j).

(** [http.Error] *)
Definition writeError (msg : list byte) (code : Z) : reply :=
  mkReply [(str "Content-Type", str "text/plain; charset=utf-8"); (str "X-Content-Type-Options", str "nosniff")] (httpError msg code).

Fixpoint firstNonSpace (b : list byte) : byte :=
  match b with
  | [] => x00
  | c :: b => if isSpace c then firstNonSpace b else c
  end.

Section Server.
Context {D S : Type} (errorText : error -> list byte).

Definition Handler : Type := option json -> act D S json.

(** The table of methods. *)
Definition Server : Type := gmap (list byte) Handler.

Definition NewServer : Server := ∅.

Definition Register (s : Server) (name : list byte) (h : Handler) : Server := <[name := h]> s.

(** The firewall; the panic is logged. *)
Definition invoke (h : Handler) (params : option json) : act D S json := fun n =>
  match h params n with
  | (n, Panics) => (n, Raises (ErrRpc CodeInternalError (str "internal error")))
  | r => r
  end.

(** What an error is reported as. *)
Definition reported (e : error) : rpcError :=
  match e with
  | ErrRpc code msg => mkRpcError code msg
  | e => mkRpcError CodeServerError (errorText e)
  end.

Definition dispatch (s : Server) (req : request) : act D S rpcResponse :=
  let id := default JNull (rq_ID req) in
  if negb (bool_decide (rq_JSONRPC req = str "2.0")) then
    act_ret (rpcFailure CodeInvalidRequest (str "jsonrpc must be " ++ [x22] ++ str "2.0" ++ [x22]) id)
  else
    match s !! rq_Method req with
    | None => act_ret (rpcFailure CodeMethodNotFound (str "method not found: " ++ rq_Method req) id)
    | Some h =>
        let@ r := attempt (invoke h (rq_Params req)) in
        act_ret (match r with
                 | inl e => mkRpcResponse JNull (Some (reported e)) id
                 | inr result => mkRpcResponse result None id
                 end)
    end.

(** The answers of a batch, once [total] bytes of them have been written: past the limit nothing runs. *)
Fixpoint dispatchBatch (s : Server) (reqs : list request) (total : Z) : act D S (list json) :=
  match reqs with
  | [] => act_ret []
  | req :: reqs =>
      let@ res := if maxBatchResponseBytes <=? total then
                    act_ret (rpcFailure CodeServerError (str "batch response size limit exceeded") (default JNull (rq_ID req)))
                  else dispatch s req in
      let b := response_MarshalJSON res in
      let@ out := dispatchBatch s reqs (total + len (print b)) in
      act_ret (b :: out)
  end.

Definition Server_ServeHTTP (s : Server) (m : method) (data : list byte) : act D S reply :=
  let refuse code msg := act_ret (writeJSON (response_MarshalJSON (rpcFailure code msg JNull))) in
  if negb (bool_decide (m = POST)) then act_ret (writeError (str "POST only") 405)
  else if maxBodyBytes <? len data then refuse CodeInvalidRequest (str "request too large")
  else if Byte.eqb (firstNonSpace data) x5b then
    match decodeJSON (listC requestC) data with
    | Ok reqs =>
        if maxBatchLength <? len reqs then refuse CodeInvalidRequest (str "batch too large")
        else
          let@ out := dispatchBatch s reqs 0 in
          act_ret (writeJSON (JArr out))
    | _ => refuse CodeParseError (str "parse error")
    end
  else
    match decodeJSON requestC data with
    | Ok req =>
        let@ res := dispatch s req in
        act_ret (writeJSON (response_MarshalJSON res))
    | _ => refuse CodeParseError (str "parse error")
    end.

End Server.
Arguments Handler : clear implicits.
Arguments Server : clear implicits.

(** ** The client (client.go) *)

#[local] Open Scope go_scope.

(** [Client.Call]'s request; the parameters are already marshalled. *)
Definition clientRequest (id : Z) (method : list byte) (params : list json) : list byte :=
  encodeJSON requestC (mkRequest (str "2.0") method (Some (JArr params)) (Some (JNum (itoa id)))).

Record clientReply : Type := mkClientReply { cr_Result : option json; cr_Error : option rpcError }.

Definition clientReplyC : codec clientReply := structC (mkClientReply None None)
  (fun r => [(str "result", enc rawC (cr_Result r)); (str "error", enc (ptrC rpcErrorC) (cr_Error r))])
  (fun ms cur =>
     let* r := field rawC (str "result") ms (cr_Result cur) in
     let* e := field (ptrC rpcErrorC) (str "error") ms (cr_Error cur) in
     Some (mkClientReply r e)).

(** What [Call] makes of the answer: the result's value when there is one. *)
Definition clientResult (answer : res response) : res (option json) :=
  let? resp := match answer with Ok r => Ok r | Err _ => Err ErrTransport | Panic => Panic end in
  let raw := take (Z.to_nat maxBodyBytes) (body resp) in
  match decodeJSON clientReplyC raw with
  | Ok r =>
      match cr_Error r with
      | Some e => Err (ErrRpc (re_Code e) (re_Message e))
      | None => Ok (cr_Result r)
      end
  | _ => Err ErrBadResponse
  end.

(** With a destination. *)
Definition Client_Call {A} (c : codec A) (answer : res response) : res A :=
  let? r := clientResult answer in
  match r with
  | None | Some JNull => Err ErrNullResult
  | Some j => match dec c j (zero c) with Some a => Ok a | None => Err ErrJSON end
  end.
