(* ===== verification/RpcApi.v ===== *)
(** * The RPC methods (rpc/api.go, rpc/eth.go, rpc/logs.go)

    Every method reads the chain, the pool or both; two of them admit a signed
    transaction to the pool.  [onTx] is the gossip hook, nil on a node without
    a network.  Only [eth_getLogs] has a loop over heights: [fuel] bounds how
    many it visits, and the method is out of fuel when they are more. *)
From stdpp Require Import base numbers list gmap.
From Stdlib Require Import ZArith Lia Strings.Byte.
From Stdlib Require Strings.String.
Import Strings.String.StringSyntax.
From S2P Require Import Prelude Common Types Rlp EthTx VmBase Precompiles Vm State Transition Json JsonCodec Store Schema SchemaProofs Wire.
From S2P Require Import Mempool Blockchain Scorer P2p Rpc.
#[local] Open Scope Z_scope.
#[local] Open Scope list_scope.
#[local] Open Scope act_scope.
#[local] Open Scope go_scope.

#[local] Notation "'let*' x ':=' o 'in' k" := (mbind (fun x => k) o) (at level 10, x name, o at level 200, k at level 200).

Definition callGasCap : Z := 50000000.

Definition cappedCallGas (req : option Quantity) : Z :=
  match req with
  | None => callGasCap
  | Some q => let g := Quantity_U64 q in if g <? callGasCap then g else callGasCap
  end.

(** [strconv.ParseUint(s, 16, 64)] *)
Definition parseUint16 (s : list byte) : option Z :=
  match readHex s with
  | Some v => if v <? 2 ^ 64 then Some v else None
  | None => None
  end.

Definition isLatest (tag : list byte) : bool :=
  bool_decide (tag ∈ [str "latest"; str "pending"; str "safe"; str "finalized"]).

(** ** The shapes of eth.go *)

Record ethCallObject : Type := mkCallObject {
  co_From : option Address;
  co_To : option Address;
  co_Gas : option Quantity;
  co_Value : option Quantity;
  co_Data : list byte;
}.

Definition callObjectC : codec ethCallObject := structC (mkCallObject None None None None [])
  (fun o => [(str "from", enc (ptrC addressC) (co_From o)); (str "to", enc (ptrC addressC) (co_To o));
             (str "gas", enc (ptrC quantityC) (co_Gas o)); (str "value", enc (ptrC quantityC) (co_Value o));
             (str "data", enc dataC (co_Data o))])
  (fun ms cur =>
     let* from := field (ptrC addressC) (str "from") ms (co_From cur) in
     let* to := field (ptrC addressC) (str "to") ms (co_To cur) in
     let* gas := field (ptrC quantityC) (str "gas") ms (co_Gas cur) in
     let* value := field (ptrC quantityC) (str "value") ms (co_Value cur) in
     let* data := field dataC (str "data") ms (co_Data cur) in
     Some (mkCallObject from to gas value data)).

Definition zeroBloom : json := JStr (str "0x" ++ concat (replicate 256 (str "00"))).

(** [fmt.Sprintf("0x%016x", v)] *)
Definition hex016 (v : Z) : list byte :=
  let digits := text16 v in str "0x" ++ replicate (16 - length digits) x30 ++ digits.

Record ethLogFilter : Type := mkLogFilter {
  lf_FromBlock : list byte;
  lf_ToBlock : list byte;
  lf_BlockHash : option Hash;
  lf_Address : option json;
  lf_Topics : list (option json);
}.

Definition logFilterC : codec ethLogFilter := structC (mkLogFilter [] [] None None [])
  (fun f => [(str "fromBlock", enc stringC (lf_FromBlock f)); (str "toBlock", enc stringC (lf_ToBlock f));
             (str "blockHash", enc (ptrC hashC) (lf_BlockHash f)); (str "address", enc rawC (lf_Address f));
             (str "topics", enc (listC rawC) (lf_Topics f))])
  (fun ms cur =>
     let* from := field stringC (str "fromBlock") ms (lf_FromBlock cur) in
     let* to := field stringC (str "toBlock") ms (lf_ToBlock cur) in
     let* hash := field (ptrC hashC) (str "blockHash") ms (lf_BlockHash cur) in
     let* address := field rawC (str "address") ms (lf_Address cur) in
     let* topics := field (listC rawC) (str "topics") ms (lf_Topics cur) in
     Some (mkLogFilter from to hash address topics)).

(** ** Filters (logs.go) *)

Definition maxLogRange : Z := 10000.

(** [None]: any address. *)
Definition parseAddressFilter (raw : option json) : res (option (gset Address)) :=
  match raw with
  | None | Some JNull => Ok None
  | Some j =>
      match dec (listC addressC) j [] with
      | Some many => Ok (Some (list_to_set many))
      | None =>
          match dec addressC j ZeroAddress with
          | Some one => Ok (Some {[one]})
          | None => Err (ErrRpc CodeInvalidParams (str "address must be an address or array of addresses"))
          end
      end
  end.

(** [None] at a position: anything. An empty array is not nil: nothing matches it. *)
Fixpoint parseTopicFilter (topics : list (option json)) : res (list (option (list Hash))) :=
  match topics with
  | [] => Ok []
  | raw :: topics =>
      let? here := match raw with
                   | None | Some JNull => Ok None
                   | Some j =>
                       match dec (listC hashC) j [] with
                       | Some many => Ok (Some many)
                       | None =>
                           match dec hashC j ZeroHash with
                           | Some one => Ok (Some [one])
                           | None => Err (ErrRpc CodeInvalidParams (str "each topic must be null, a hash, or an array of hashes"))
                           end
                       end
                   end in
      let? rest := parseTopicFilter topics in
      Ok (here :: rest)
  end.

(** The positions of the filter against the topics from there on; [l.Topics[i]] is in range. *)
Fixpoint topicsMatch (filter : list (option (list Hash))) (topics : list Hash) : bool :=
  match filter, topics with
  | [], _ => true
  | None :: filter, _ :: topics => topicsMatch filter topics
  | Some allowed :: filter, t :: topics => existsb (array_eqb t) allowed && topicsMatch filter topics
  | _ :: _, [] => false
  end.

Definition logMatches (l : Log) (addrs : option (gset Address)) (topics : list (option (list Hash))) : bool :=
  match addrs with
  | Some set => bool_decide (l_Address l ∈ set)
  | None => true
  end
  && (len topics <=? len (l_Topics l))
  && topicsMatch topics (l_Topics l).

Section API.
Context `{Crypto} `{Bn256} {D S : Type} `{KV D} (env : Env D) (errorText : error -> list byte).
Context (onTx : option (Transaction -> act D S unit)) (fuel : nat).

Abbreviation ract A := (act D S A).
Abbreviation method := (Handler D S).

(** ** Parameters *)

Definition rawParams (params : option json) : res (list (option json)) :=
  match params with
  | None => Ok []
  | Some j =>
      match dec (listC rawC) j [] with
      | Some raw => Ok raw
      | None => Err (ErrRpc CodeInvalidParams (str "params must be an array"))
      end
  end.

Definition notEnough {A} : res A := Err (ErrRpc CodeInvalidParams (str "not enough parameters")).

Definition unmarshalParam {A} (c : codec A) (raw : option json) : res A :=
  match unmarshalRaw c raw with
  | Some a => Ok a
  | None => Err (ErrRpc CodeInvalidParams (errorText ErrJSON))
  end.

(** [decode] into one destination and into two. *)
Definition decode1 {A} (c : codec A) (params : option json) : res A :=
  let? raw := rawParams params in
  match raw with
  | a :: _ => unmarshalParam c a
  | [] => notEnough
  end.

Definition decode2 {A B} (c : codec A) (c' : codec B) (params : option json) : res (A * B) :=
  let? raw := rawParams params in
  match raw with
  | a :: b :: _ =>
      let? a := unmarshalParam c a in
      let? b := unmarshalParam c' b in
      Ok (a, b)
  | _ => notEnough
  end.

(** ** Reading the chain and the pool *)

Definition headHeight : ract Z := look env (fun s => Ok (Block_Height (Head (chain s)))).

(** A reader's error, whatever it is, means there is none. *)
Definition orNone {A} (c : nat -> op D A) : ract (option A) :=
  let@ r := attempt (on_chain env c) in
  act_ret (match r with inr a => Some a | inl _ => None end).

Definition serverError {A} (prefix : list byte) (c : ract A) : ract A :=
  let@ r := attempt c in
  match r with
  | inr a => act_ret a
  | inl e => act_fail (ErrRpc CodeServerError (prefix ++ errorText e))
  end.

(** [bc.Call]; running out of the interpreter's fuel is told apart from a fault. *)
Definition chainCall (from to : Address) (data : list byte) (gas : Z) : ract (list byte) := on_shared env (fun _ s =>
  (s, match chain_Call (chain s) from to data gas with
      | None | Some Crashed => Panics
      | Some NoFuel => OutOfFuel
      | Some (Ran r _) => match r_Err r with Some e => Raises e | None => Returns (Ret r) end
      end)).

Definition chainEstimate (from : Address) (to : option Address) (data : list byte) (value : option Z) : ract Z := on_shared env (fun _ s =>
  (s, match chain_EstimateGas (chain s) from to data value with
      | None | Some Panics => Panics
      | Some OutOfFuel => OutOfFuel
      | Some (Raises (e, _)) => Raises e
      | Some (Returns (gas, _)) => Returns gas
      end)).

(** [a.pool.AddLocal(tx, a.bc.ChainID())] *)
Definition addLocal (tx : Transaction) : ract unit := on_shared env (fun k s =>
  let (p, r) := AddLocal (pool s) tx (chainID (chain s)) (poolOrders env k 0 0) in
  (with_pool p s, match r with Ok _ => Returns tt | Err e => Raises e | Panic => Panics end)).

(** The gates of a submitted transaction, and the announcement, whose failure is ignored. *)
Definition submit (tx : Transaction) : ract json :=
  let@ st := look env (fun s => StateSnapshot (chain s)) in
  let@ _ := serverError [] (act_res (CheckState st tx)) in
  let@ _ := serverError [] (addLocal tx) in
  let@ _ := match onTx with
            | Some broadcast => attempt (broadcast tx)
            | None => act_ret (inr tt)
            end in
  act_ret (enc hashC (tx_Hash tx)).

(** ** The chain_ methods (api.go) *)

Definition ChainID : method := fun _ =>
  let@ id := look env (fun s => Ok (chainID (chain s))) in
  act_ret (enc quantityC (QU id)).

Definition BlockNumber : method := fun _ =>
  let@ h := headHeight in
  act_ret (enc quantityC (QU h)).

Definition GetBalance : method := fun params =>
  let@ addr := act_res (decode1 addressC params) in
  let@ b := look env (fun s => BalanceAt (chain s) addr) in
  act_ret (enc quantityC (Q (Some b))).

Definition GetNonce : method := fun params =>
  let@ raw := act_res (rawParams params) in
  match raw with
  | [] => act_res notEnough
  | a :: rest =>
      let@ addr := act_res (unmarshalParam addressC a) in
      let@ committed := look env (fun s => NonceAt (chain s) addr) in
      if match rest with
         | t :: _ => bool_decide (unmarshalRaw stringC t = Some (str "pending"))
         | [] => false
         end
      then
        let@ next := look env (fun s => Ok (PendingNonce (pool s) addr committed)) in
        match next with
        | Some next => act_ret (enc quantityC (QU next))
        | None => act_fuel
        end
      else act_ret (enc quantityC (QU committed))
  end.

Definition txResult (tx : Transaction) (loc : option TxLocation) : res TxResult :=
  match Sender tx with
  | Ok from =>
      Ok (mkTxResult (tx_Hash tx) from (tx_To tx) (QU (tx_Nonce tx)) (Q (tx_Value tx)) (QU (tx_GasLimit tx)) (Q (tx_GasPrice tx))
            (tx_Data tx) (BlockHash <$> loc) (QU ∘ BlockHeight <$> loc) (QU ∘ Index <$> loc))
  | Err e => Err (ErrRpc CodeServerError (str "cannot recover sender: " ++ errorText e))
  | Panic => Panic
  end.

Fixpoint blockTxs (blk : Block) (full : bool) (i : nat) (txs : list Transaction) : res (list json) :=
  match txs with
  | [] => Ok []
  | tx :: txs =>
      let? r := if full then let? r := txResult tx (Some (locationOf blk i)) in Ok (txResultJSON r)
                else Ok (enc hashC (tx_Hash tx)) in
      let? rest := blockTxs blk full (1 + i)%nat txs in
      Ok (r :: rest)
  end.

Definition blockResult (blk : Block) (full : bool) : res json :=
  let? txs := blockTxs blk full 0 (b_Txs blk) in
  Ok (blockResultJSON (Block_Hash blk) (b_Header blk) txs).

Definition GetBlockByNumber : method := fun params =>
  let@ (height, full) := act_res (decode2 quantityC boolC params) in
  let@ blk := orNone (fun _ => BlockByHeight (Quantity_U64 height)) in
  match blk with
  | None => act_ret JNull
  | Some blk => act_res (blockResult blk full)
  end.

Definition GetBlockByHash : method := fun params =>
  let@ (h, full) := act_res (decode2 hashC boolC params) in
  let@ blk := orNone (fun _ => BlockByHash h) in
  match blk with
  | None => act_ret JNull
  | Some blk => act_res (blockResult blk full)
  end.

Definition SendTransaction : method := fun params =>
  let@ args := act_res (decode1 txArgsC params) in
  submit (ToTx args).

(** Where a transaction is: in a block, in the pool, or nowhere. *)
Definition findTx (h : Hash) : ract (option (Transaction * option TxLocation)) :=
  let@ r := attempt (on_chain env (fun _ => TxByHash h)) in
  match r with
  | inr (tx, loc) => act_ret (Some (tx, Some loc))
  | inl ErrUnknownTx =>
      let@ tx := look env (fun s => Ok (Mempool_Get (pool s) h)) in
      act_ret (match tx with Some tx => Some (tx, None) | None => None end)
  | inl e => act_fail e
  end.

Definition GetTransactionByHash : method := fun params =>
  let@ h := act_res (decode1 hashC params) in
  let@ r := findTx h in
  match r with
  | Some (tx, loc) => let@ r := act_res (txResult tx loc) in act_ret (txResultJSON r)
  | None => act_ret JNull
  end.

(** The address of a deployment's contract. *)
Definition created (tx : Transaction) (from : Address) : res (option Address) :=
  match tx_To tx with
  | Some _ => Ok None
  | None => let? a := CreateAddress from (tx_Nonce tx) in Ok (Some a)
  end.

Definition GetTransactionReceipt : method := fun params =>
  let@ h := act_res (decode1 hashC params) in
  let@ r := orNone (fun _ => ReceiptByTxHash h) in
  match r with
  | None => act_ret JNull
  | Some (r, loc) =>
      let@ (tx, _) := on_chain env (fun _ => TxByHash h) in
      let@ from := act_res (Sender tx) in
      let@ addr := act_res (created tx from) in
      act_ret (receiptResultJSON (mkReceiptResult h (QU (Status r)) (QU (r_GasUsed r)) (QU (CumulativeGasUsed r)) (BlockHash loc)
        (QU (BlockHeight loc)) (QU (Index loc)) from (tx_To tx) addr (Logs r)))
  end.

Definition TxPoolStatus : method := fun _ =>
  let@ n := look env (fun s => Ok (Mempool_Len (pool s))) in
  act_ret (goMapJSON (goMapOf [(str "pending", enc quantityC (QU n))])).

Definition Call_ : method := fun params =>
  let@ args := act_res (decode1 callArgsC params) in
  let@ ret := serverError (str "call reverted: ")
                (chainCall (default ZeroAddress (ca_From args)) (ca_To args) (ca_Data args) (cappedCallGas (ca_Gas args))) in
  act_ret (enc dataC ret).

(** ** The eth_ methods (eth.go) *)

(** [from, _ := tx.Sender()] *)
Definition senderOrZero (tx : Transaction) : Address := match Sender tx with Ok a => a | _ => ZeroAddress end.

Definition ethTxObject (tx : Transaction) (loc : option TxLocation) : json :=
  let m := goMapOf
    [(str "hash", enc hashC (tx_Hash tx)); (str "nonce", enc quantityC (QU (tx_Nonce tx)));
     (str "from", enc addressC (senderOrZero tx)); (str "to", enc (ptrC addressC) (tx_To tx));
     (str "value", enc quantityC (Q (tx_Value tx))); (str "gas", enc quantityC (QU (tx_GasLimit tx)));
     (str "gasPrice", enc quantityC (Q (tx_GasPrice tx))); (str "input", enc dataC (tx_Data tx));
     (str "chainId", enc quantityC (QU (tx_ChainID tx))); (str "type", JStr (str "0x0"));
     (str "blockHash", JNull); (str "blockNumber", JNull); (str "transactionIndex", JNull)] in
  let m := match loc with
           | Some loc => <[str "transactionIndex" := enc quantityC (QU (Index loc))]>
                           (<[str "blockNumber" := enc quantityC (QU (BlockHeight loc))]>
                              (<[str "blockHash" := enc hashC (BlockHash loc)]> m))
           | None => m
           end in
  let m := if (tx_Type tx =? TxTypeEthLegacy) && (len (tx_Sig tx) =? 65) then
             let recid := (b2z (nth 0 (tx_Sig tx) x00) - 27) mod 256 in
             <[str "s" := enc dataC (take 32 (drop 33 (tx_Sig tx)))]>
               (<[str "r" := enc dataC (take 32 (drop 1 (tx_Sig tx)))]>
                  (<[str "v" := enc quantityC (QU (u64 (tx_ChainID tx * 2 + 35 + recid)))]> m))
           else m in
  goMapJSON m.

Definition EthGetTransactionByHash : method := fun params =>
  let@ h := act_res (decode1 hashC params) in
  let@ r := findTx h in
  act_ret (match r with Some (tx, loc) => ethTxObject tx loc | None => JNull end).

Definition EthSendRawTransaction : method := fun params =>
  let@ raw := act_res (decode1 dataC params) in
  let@ tx := act_res (match ParseEthLegacyTx raw with
                      | Err e => Err (ErrRpc CodeInvalidParams (str "invalid raw transaction: " ++ errorText e))
                      | r => r
                      end) in
  submit tx.

Definition EthEstimateGas : method := fun params =>
  let@ obj := act_res (decode1 callObjectC params) in
  let value := match co_Value obj with Some q => q | None => Some 0 end in
  let@ gas := chainEstimate (default ZeroAddress (co_From obj)) (co_To obj) (co_Data obj) value in
  act_ret (enc quantityC (QU gas)).

(** A log, at its place in its block. *)
Definition ethLog (l : Log) (height : Z) (hash : Hash) (txHash : Hash) (txIndex logIndex : Z) : json := goMapJSON (goMapOf
  [(str "address", enc addressC (l_Address l)); (str "topics", JArr (map (enc hashC) (l_Topics l))); (str "data", enc dataC (l_Data l));
   (str "blockNumber", enc quantityC (QU height)); (str "blockHash", enc hashC hash);
   (str "transactionHash", enc hashC txHash); (str "transactionIndex", enc quantityC (QU txIndex));
   (str "logIndex", enc quantityC (QU logIndex)); (str "removed", JBool false)]).

(** The logs of the receipts before the [n]th: [j < int(loc.Index) && j < len(receipts)]. *)
Definition logsBefore (receipts : list Receipt) (n : Z) : Z :=
  fold_left (fun base r => u64 (base + len (Logs r))) (take (Z.to_nat (i64 n)) receipts) 0.

Definition EthGetTransactionReceipt : method := fun params =>
  let@ h := act_res (decode1 hashC params) in
  let@ r := orNone (fun _ => ReceiptByTxHash h) in
  match r with
  | None => act_ret JNull
  | Some (r, loc) =>
      let@ found := orNone (fun _ => TxByHash h) in
      match found with
      | None => act_ret JNull
      | Some (tx, _) =>
          let@ from := act_res (Sender tx) in
          let@ receipts := orNone (fun _ => ReceiptsByHeight (BlockHeight loc)) in
          let logBase := match receipts with Some (rs, _) => logsBefore rs (Index loc) | None => 0 end in
          let logs := imap (fun i l => ethLog l (BlockHeight loc) (BlockHash loc) h (Index loc) (u64 (logBase + Z.of_nat i))) (Logs r) in
          let@ addr := act_res (created tx from) in
          act_ret (goMapJSON (goMapOf
            [(str "transactionHash", enc hashC h); (str "transactionIndex", enc quantityC (QU (Index loc)));
             (str "blockHash", enc hashC (BlockHash loc)); (str "blockNumber", enc quantityC (QU (BlockHeight loc)));
             (str "from", enc addressC from); (str "to", enc (ptrC addressC) (tx_To tx));
             (str "cumulativeGasUsed", enc quantityC (QU (CumulativeGasUsed r))); (str "gasUsed", enc quantityC (QU (r_GasUsed r)));
             (str "effectiveGasPrice", JStr (str "0x" ++ bigText16 (tx_GasPrice tx))); (str "status", enc quantityC (QU (Status r)));
             (str "logs", JArr logs); (str "logsBloom", zeroBloom); (str "contractAddress", enc (ptrC addressC) addr);
             (str "type", JStr (str "0x0"))]))
      end
  end.

Definition NetVersion : method := fun _ =>
  let@ id := look env (fun s => Ok (chainID (chain s))) in
  act_ret (JStr (itoa id)).

Definition GasPrice : method := fun _ => act_ret (enc quantityC (QU 1)).

Definition GetCode : method := fun params =>
  let@ addr := act_res (decode1 addressC params) in
  let@ code := look env (fun s => CodeAt (chain s) addr) in
  act_ret (enc dataC code).

Definition GetStorageAt : method := fun params =>
  let@ (addr, slot) := act_res (decode2 addressC hashC params) in
  let@ v := look env (fun s => StorageAt (chain s) addr slot) in
  act_ret (enc dataC (abytes v)).

Definition EthCall : method := fun params =>
  let@ obj := act_res (decode1 callObjectC params) in
  match co_To obj with
  | None => act_fail (ErrRpc CodeInvalidParams (str "eth_call requires a 'to' address"))
  | Some to =>
      let@ ret := serverError (str "execution reverted: ")
                    (chainCall (default ZeroAddress (co_From obj)) to (co_Data obj) (cappedCallGas (co_Gas obj))) in
      act_ret (enc dataC ret)
  end.

Definition badTag {A} (tag : list byte) : res A := Err (ErrRpc CodeInvalidParams (str "bad block tag: " ++ tag)).

(** A transaction in [ethBlock]. *)
Definition ethBlockTx (blk : Block) (i : nat) (tx : Transaction) : json := goMapJSON (goMapOf
  [(str "hash", enc hashC (tx_Hash tx)); (str "from", enc addressC (senderOrZero tx)); (str "to", enc (ptrC addressC) (tx_To tx));
   (str "nonce", enc quantityC (QU (tx_Nonce tx))); (str "value", enc quantityC (Q (tx_Value tx)));
   (str "gas", enc quantityC (QU (tx_GasLimit tx))); (str "gasPrice", enc quantityC (Q (tx_GasPrice tx)));
   (str "input", enc dataC (tx_Data tx)); (str "blockHash", enc hashC (Block_Hash blk));
   (str "blockNumber", enc quantityC (QU (Height (b_Header blk)))); (str "transactionIndex", enc quantityC (QU (Z.of_nat i)));
   (str "chainId", enc quantityC (QU (tx_ChainID tx))); (str "type", JStr (str "0x0"))]).

Definition ethBlock (blk : Block) (full : bool) : json :=
  let h := b_Header blk in
  let txs := imap (fun i tx => if full then ethBlockTx blk i tx else enc hashC (tx_Hash tx)) (b_Txs blk) in
  goMapJSON (goMapOf
    [(str "number", enc quantityC (QU (Height h))); (str "hash", enc hashC (Block_Hash blk));
     (str "parentHash", enc hashC (ParentHash h)); (str "timestamp", enc quantityC (QU (u64 (Timestamp h) / 1000)));
     (str "gasLimit", enc quantityC (QU (h_GasLimit h))); (str "gasUsed", enc quantityC (QU (h_GasUsed h)));
     (str "miner", enc addressC (Proposer h)); (str "difficulty", enc quantityC (QU (Difficulty h)));
     (str "totalDifficulty", enc quantityC (QU (Difficulty h))); (str "stateRoot", enc hashC (StateRoot h));
     (str "transactionsRoot", enc hashC (h_TxRoot h)); (str "receiptsRoot", enc hashC (h_ReceiptRoot h));
     (str "transactions", JArr txs); (str "nonce", JStr (hex016 (h_Nonce h))); (str "size", enc quantityC (QU 0));
     (str "extraData", JStr (str "0x")); (str "logsBloom", zeroBloom); (str "sha3Uncles", enc hashC ZeroHash);
     (str "uncles", JArr [])]).

Definition EthGetBlockByNumber : method := fun params =>
  let@ (tag, full) := act_res (decode2 stringC boolC params) in
  let@ height := if isLatest tag then headHeight
                 else if bool_decide (tag = str "earliest") then act_ret 0
                 else match parseUint16 (trim0x tag) with
                      | Some h => act_ret h
                      | None => act_res (badTag tag)
                      end in
  let@ blk := orNone (fun _ => BlockByHeight height) in
  act_ret (match blk with Some blk => ethBlock blk full | None => JNull end).

Definition EthGetBlockByHash : method := fun params =>
  let@ (h, full) := act_res (decode2 hashC boolC params) in
  let@ blk := orNone (fun _ => BlockByHash h) in
  act_ret (match blk with Some blk => ethBlock blk full | None => JNull end).

(** ** eth_getLogs (logs.go) *)

Definition resolveLogHeight (tag : list byte) (head def : Z) : res Z :=
  if bool_decide (tag = []) then Ok def
  else if isLatest tag then Ok head
  else if bool_decide (tag = str "earliest") then Ok 0
  else match parseUint16 (trim0x tag) with
       | Some h => Ok h
       | None => badTag tag
       end.

(** The logs of one receipt from the block-wide index [logIndex] on, and the index after them. *)
Fixpoint receiptLogs (match_ : Log -> bool) (render : Log -> Z -> json) (logIndex : Z) (logs : list Log) : list json * Z :=
  match logs with
  | [] => ([], logIndex)
  | l :: logs =>
      let (rest, next) := receiptLogs match_ render (u64 (logIndex + 1)) logs in
      ((if match_ l then [render l logIndex] else []) ++ rest, next)
  end.

(** The receipts of a block from the [i]th on; one without a transaction has the zero hash. *)
Fixpoint blockLogs (match_ : Log -> bool) (blk : Block) (i : nat) (logIndex : Z) (receipts : list Receipt) : list json :=
  match receipts with
  | [] => []
  | r :: receipts =>
      let txHash := match b_Txs blk !! i with Some tx => tx_Hash tx | None => ZeroHash end in
      let render l idx := ethLog l (Height (b_Header blk)) (Block_Hash blk) txHash (Z.of_nat i) idx in
      let (here, next) := receiptLogs match_ render logIndex (Logs r) in
      here ++ blockLogs match_ blk (1 + i)%nat next receipts
  end.

(** [for h := from; h <= to; h++], the height a uint64; a height that cannot be read is skipped. *)
Fixpoint scanLogs (fuel : nat) (match_ : Log -> bool) (h to : Z) (out : list json) : ract (list json) :=
  if to <? h then act_ret out
  else
    match fuel with
    | O => act_fuel
    | Datatypes.S fuel =>
        let@ r := orNone (fun _ => ReceiptsByHeight h) in
        let out := match r with
                   | Some (receipts, blk) => out ++ blockLogs match_ blk 0 0 receipts
                   | None => out
                   end in
        scanLogs fuel match_ (u64 (h + 1)) to out
    end.

(** The heights a filter asks for. *)
Definition logRange (f : ethLogFilter) : ract (Z * Z) :=
  match lf_BlockHash f with
  | Some h =>
      if negb (bool_decide (lf_FromBlock f = [])) || negb (bool_decide (lf_ToBlock f = [])) then
        act_fail (ErrRpc CodeInvalidParams (str "blockHash cannot be combined with fromBlock/toBlock"))
      else
        let@ blk := orNone (fun _ => BlockByHash h) in
        match blk with
        | None => act_fail (ErrRpc CodeInvalidParams (str "unknown blockHash"))
        | Some blk => act_ret (Height (b_Header blk), Height (b_Header blk))
        end
  | None =>
      let@ head := headHeight in
      let@ from := act_res (resolveLogHeight (lf_FromBlock f) head 0) in
      let@ to := act_res (resolveLogHeight (lf_ToBlock f) head head) in
      if to <? from then act_fail (ErrRpc CodeInvalidParams (str "toBlock is before fromBlock"))
      else if maxLogRange <=? u64 (to - from) then
        act_fail (ErrRpc CodeInvalidParams (str "block range too wide (max 10000); narrow fromBlock/toBlock"))
      else act_ret (from, to)
  end.

Definition EthGetLogs : method := fun params =>
  let@ f := act_res (decode1 logFilterC params) in
  let@ addrs := act_res (parseAddressFilter (lf_Address f)) in
  let@ topics := act_res (parseTopicFilter (lf_Topics f)) in
  let@ (from, to) := logRange f in
  let@ out := scanLogs fuel (fun l => logMatches l addrs topics) from to [] in
  act_ret (JArr out).

(** ** The table *)

Definition registerEth (s : Server D S) : Server D S :=
  fold_left (fun s p => Register s (fst p) (snd p))
    [(str "eth_chainId", ChainID); (str "eth_blockNumber", BlockNumber); (str "eth_getBalance", GetBalance);
     (str "eth_getTransactionCount", GetNonce); (str "net_version", NetVersion); (str "eth_gasPrice", GasPrice);
     (str "eth_getCode", GetCode); (str "eth_getStorageAt", GetStorageAt); (str "eth_call", EthCall);
     (str "eth_estimateGas", EthEstimateGas); (str "eth_getBlockByNumber", EthGetBlockByNumber);
     (str "eth_getBlockByHash", EthGetBlockByHash); (str "eth_sendRawTransaction", EthSendRawTransaction);
     (str "eth_getTransactionByHash", EthGetTransactionByHash); (str "eth_getTransactionReceipt", EthGetTransactionReceipt);
     (str "eth_getLogs", EthGetLogs)] s.

Definition API_Register (s : Server D S) : Server D S :=
  registerEth (fold_left (fun s p => Register s (fst p) (snd p))
    [(str "chain_chainId", ChainID); (str "chain_blockNumber", BlockNumber); (str "chain_getBalance", GetBalance);
     (str "chain_getNonce", GetNonce); (str "chain_getBlockByNumber", GetBlockByNumber);
     (str "chain_getBlockByHash", GetBlockByHash); (str "chain_sendTransaction", SendTransaction);
     (str "chain_getTransactionByHash", GetTransactionByHash); (str "chain_getTransactionReceipt", GetTransactionReceipt);
     (str "chain_call", Call_); (str "txpool_status", TxPoolStatus)] s).

End API.
