(* ===== verification/RpcGate.v ===== *)
(** * What stands in front of the RPC server (rpc/ratelimit.go, rpc/auth.go, rpc/cors.go)

    A handler takes a request and writes a reply.  The three middlewares wrap
    one: a token bucket per client address, the cross-origin headers, and the
    API keys.  A middleware's own state is part of the handler's state: [get]
    and [set] say where. *)
From stdpp Require Import base numbers list gmap.
From Stdlib Require Import ZArith Lia Strings.Byte.
From Stdlib Require Strings.String.
Import Strings.String.StringSyntax.
From S2P Require Import Prelude Common Types VmBase Precompiles Vm State Transition Json JsonCodec Store Schema SchemaProofs Wire Mempool.
From S2P Require Import Blockchain Scorer P2p Rpc Net.
#[local] Open Scope Z_scope.
#[local] Open Scope list_scope.
#[local] Open Scope act_scope.

Record httpRequest : Type := mkHttpRequest {
  hr_method : method;
  hr_path : list byte;
  hr_remote : list byte;                          (* RemoteAddr *)
  hr_header : list (list byte * list byte);       (* canonical names *)
  hr_body : list byte;
}.

Definition httpHandler (D S : Type) : Type := httpRequest -> act D S reply.

(** ** The rate limiter *)

Record RateLimit : Type := mkRateLimit { cfg_Burst : Z; cfg_PerSecond : f64; cfg_MaxTracked : Z }.

Definition DefaultRateLimit : RateLimit := mkRateLimit 100 (f_of_Z 50) 8192.

(** The buckets by address; a bucket is the one of the gossip limiter. *)
Record RateLimiter : Type := mkRateLimiter {
  rl_burst : f64;
  rl_perSecond : f64;
  rl_maxTracked : Z;
  rl_buckets : gmap (list byte) tokenBucket;
}.

Definition NewRateLimiter (cfg : RateLimit) : RateLimiter :=
  mkRateLimiter
    (f_of_Z (if cfg_Burst cfg <? 1 then cfg_Burst DefaultRateLimit else cfg_Burst cfg))
    (if f_leb (cfg_PerSecond cfg) f_zero then cfg_PerSecond DefaultRateLimit else cfg_PerSecond cfg)
    (if cfg_MaxTracked cfg <? 1 then cfg_MaxTracked DefaultRateLimit else cfg_MaxTracked cfg)
    ∅.

Definition with_rlBuckets (m : gmap (list byte) tokenBucket) (rl : RateLimiter) : RateLimiter :=
  mkRateLimiter (rl_burst rl) (rl_perSecond rl) (rl_maxTracked rl) m.

(** The walk of [evict] over the keys [order]: what is left, and the address seen longest ago. *)
Fixpoint evictIdle (rl : RateLimiter) (now : Z) (order : list (list byte)) (m : gmap (list byte) tokenBucket)
    (oldestIP : list byte) (oldest : Z) : gmap (list byte) tokenBucket * list byte :=
  match order with
  | [] => (m, oldestIP)
  | ip :: order =>
      match m !! ip with
      | None => evictIdle rl now order m oldestIP oldest
      | Some b =>
          let eff := f_min (rl_burst rl) (f_add (tokens b) (f_mul (Seconds (Sub now (b_last b))) (rl_perSecond rl))) in
          if f_leb (rl_burst rl) eff then evictIdle rl now order (delete ip m) oldestIP oldest
          else if bool_decide (oldestIP = []) || (b_last b <? oldest) then evictIdle rl now order m ip (b_last b)
          else evictIdle rl now order m oldestIP oldest
      end
  end.

Definition RateLimiter_evict (rl : RateLimiter) (now : Z) (order : list (list byte)) : RateLimiter :=
  let (m, oldestIP) := evictIdle rl now order (rl_buckets rl) [] 0 in
  with_rlBuckets
    (if (rl_maxTracked rl <=? Z.of_nat (size m)) && negb (bool_decide (oldestIP = [])) then delete oldestIP m else m) rl.

(** [walk]: the order in which the map is visited, should it have to be. *)
Definition RateLimiter_allow (rl : RateLimiter) (ip : list byte) (now : Z) (walk : gmap (list byte) tokenBucket -> list (list byte))
    : RateLimiter * bool :=
  let (rl, b) :=
    match rl_buckets rl !! ip with
    | None =>
        let rl := if rl_maxTracked rl <=? Z.of_nat (size (rl_buckets rl)) then RateLimiter_evict rl now (walk (rl_buckets rl)) else rl in
        (rl, mkBucket (rl_burst rl) now)
    | Some b =>
        let elapsed := Seconds (Sub now (b_last b)) in
        (rl, if f_ltb f_zero elapsed then
               mkBucket (f_min (rl_burst rl) (f_add (tokens b) (f_mul elapsed (rl_perSecond rl)))) now
             else b)
    end in
  if f_leb f_one (tokens b) then (with_rlBuckets (<[ip := mkBucket (f_sub (tokens b) f_one) (b_last b)]> (rl_buckets rl)) rl, true)
  else (with_rlBuckets (<[ip := b]> (rl_buckets rl)) rl, false).

Definition clientIP (r : httpRequest) : list byte :=
  let host := default (hr_remote r) (SplitHost (hr_remote r)) in
  if match ParseIP host with Some ip => IsLoopback ip | None => false end then
    let last := TrimSpace (afterLast x2c (Header_Get (hr_header r) (str "X-Forwarded-For"))) in
    if bool_decide (last = []) then host else last
  else host.

Definition rpcRefusal (status : Z) (header : list (list byte * list byte)) (msg : list byte) : reply :=
  mkReply header (mkResponse status (print (response_MarshalJSON (rpcFailure CodeServerError msg JNull)) ++ [x0a])).

Definition writeTooManyRequests : reply :=
  rpcRefusal 429 [(str "Content-Type", str "application/json"); (str "Retry-After", str "1")] (str "rate limit exceeded").

Definition RateLimiter_ServeHTTP {D S} (env : Env D) (get : S -> RateLimiter) (set : RateLimiter -> S -> S) (next : httpHandler D S)
    : httpHandler D S := fun r n =>
  let k := tick n in
  let (rl, ok) := RateLimiter_allow (get (own n)) (clientIP r) (clock env k) (walkBuckets env k) in
  let n := mkNode (set rl (own n)) (shared n) (1 + k)%nat (events n) in
  if ok then next r n else (n, Returns writeTooManyRequests).

(** ** Cross-origin requests *)

Record CORS : Type := mkCORS { allowAll : bool; allowed : gset (list byte) }.

Definition addOrigin (c : CORS) (o : list byte) : CORS :=
  let o := TrimSpace o in
  if bool_decide (o = []) then c
  else if bool_decide (o = str "*") then mkCORS true (allowed c)
  else mkCORS (allowAll c) ({[o]} ∪ allowed c).

Definition NewCORS (origins : list (list byte)) : CORS := fold_left addOrigin origins (mkCORS false ∅).

Definition allowOrigin (c : CORS) (origin : list byte) : list byte :=
  if bool_decide (origin = []) then []
  else if allowAll c then str "*"
  else if bool_decide (origin ∈ allowed c) then origin
  else [].

Definition with_header (h : list (list byte * list byte)) (r : reply) : reply := mkReply (h ++ rp_header r) (rp_response r).

Definition CORS_ServeHTTP {D S} (c : CORS) (next : httpHandler D S) : httpHandler D S := fun r =>
  let allow := allowOrigin c (Header_Get (hr_header r) (str "Origin")) in
  let granted := negb (bool_decide (allow = [])) in
  let header := if granted then [(str "Access-Control-Allow-Origin", allow); (str "Vary", str "Origin")] else [] in
  if bool_decide (hr_method r = OPTIONS) then
    act_ret (mkReply (header ++ if granted then [(str "Access-Control-Allow-Methods", str "POST, OPTIONS");
                                                 (str "Access-Control-Allow-Headers", str "Content-Type, Authorization");
                                                 (str "Access-Control-Max-Age", str "600")] else [])
                     (mkResponse 204 []))
  else
    let@ reply := next r in
    act_ret (with_header header reply).

(** ** API keys *)

(** The digests of the accepted keys. *)
Definition Auth : Type := list (list byte).

Definition addKey (a : Auth) (k : list byte) : Auth :=
  let k := TrimSpace k in
  if bool_decide (k = []) then a else a ++ [sha256_Sum256 k].

Definition NewAuth (keys : list (list byte)) : Auth := fold_left addKey keys [].

(** [subtle.ConstantTimeCompare]: 1 when equal. *)
Definition ConstantTimeCompare (x y : list byte) : Z := if bool_decide (x = y) then 1 else 0.

Definition bearerToken (r : httpRequest) : option (list byte) :=
  let h := Header_Get (hr_header r) (str "Authorization") in
  let scheme := str "bearer " in
  if bool_decide (h = []) then None
  else if (len h <? len scheme) || negb (sameName (take (length scheme) h) scheme) then None
  else
    let token := TrimSpace (drop (length scheme) h) in
    if bool_decide (token = []) then None else Some token.

Definition authorized (a : Auth) (r : httpRequest) : bool :=
  match bearerToken r with
  | None => false
  | Some presented =>
      let got := sha256_Sum256 presented in
      fold_left (fun matched k => Z.lor matched (ConstantTimeCompare got k)) a 0 =? 1
  end.

Definition writeUnauthorized : reply :=
  rpcRefusal 401 [(str "WWW-Authenticate", str "Bearer"); (str "Content-Type", str "application/json")] (str "unauthorized").

Definition Auth_ServeHTTP {D S} (a : Auth) (next : httpHandler D S) : httpHandler D S := fun r =>
  if len a =? 0 then next r
  else if negb (authorized a r) then act_ret writeUnauthorized
  else next r.
