(* ===== verification/Faucet.v ===== *)
(** * The faucet (node/faucet.go)

    A claim sends a fixed amount from the faucet's wallet to an address that
    has not claimed yet.  The claimed addresses are a set bounded by a ring:
    once the ring is full, remembering one forgets the oldest. *)
From stdpp Require Import base numbers list gmap.
From Stdlib Require Import ZArith Lia Strings.Byte.
From Stdlib Require Strings.String.
Import Strings.String.StringSyntax.
From S2P Require Import Prelude Common Types VmBase Precompiles Vm State Transition Json JsonCodec Store Schema SchemaProofs Wire Mempool.
From S2P Require Import Blockchain Scorer P2p Rpc RpcApi Net RpcGate.
#[local] Open Scope Z_scope.
#[local] Open Scope list_scope.
#[local] Open Scope act_scope.

Definition defaultMaxClaims : Z := 200000.

Record Faucet : Type := mkFaucet {
  fa_nextNonce : Z;
  fa_inited : bool;
  fa_claimed : gset Address;
  fa_maxClaims : Z;
  fa_ring : option (list Address);      (* nil until the first claim *)
  fa_ringPos : nat;
  fa_ringFull : bool;
}.

Definition NewFaucet : Faucet := mkFaucet 0 false ∅ defaultMaxClaims None 0 false.

Definition with_nonce (n : Z) (f : Faucet) : Faucet :=
  mkFaucet n true (fa_claimed f) (fa_maxClaims f) (fa_ring f) (fa_ringPos f) (fa_ringFull f).

(** The position is within the ring. *)
Definition remember (addr : Address) (f : Faucet) : Faucet :=
  let ring := match fa_ring f with Some r => r | None => replicate (Z.to_nat (fa_maxClaims f)) ZeroAddress end in
  let claimed := match ring !! fa_ringPos f with
                 | Some oldest => if fa_ringFull f then fa_claimed f ∖ {[oldest]} else fa_claimed f
                 | None => fa_claimed f
                 end in
  let ring := <[fa_ringPos f := addr]> ring in
  let pos := S (fa_ringPos f) in
  let wrapped := Z.of_nat pos =? fa_maxClaims f in
  mkFaucet (fa_nextNonce f) (fa_inited f) ({[addr]} ∪ claimed) (fa_maxClaims f) (Some ring)
    (if wrapped then O else pos) (if wrapped then true else fa_ringFull f).

(** The nonce of the next dispense, given the committed one. *)
Definition faucetSync (committed : Z) (f : Faucet) : Faucet :=
  if negb (fa_inited f) || (fa_nextNonce f <? committed) then with_nonce committed f else f.

(** What the body names. *)
Definition faucetRequestC : codec (list byte) := structC []
  (fun a => [(str "address", enc stringC a)])
  (fun ms cur => field stringC (str "address") ms cur).

Section Faucet.
Context `{Crypto} `{Bn256} {D S : Type} `{KV D} (env : Env D) (errorText : error -> list byte).
Context (key : privKey) (amount : Z) (broadcast : option (Transaction -> act D S unit)).
Context (get : S -> Faucet) (set : Faucet -> S -> S).

Definition faucetHeader : list (list byte * list byte) :=
  [(str "Access-Control-Allow-Origin", str "*"); (str "Access-Control-Allow-Methods", str "POST, OPTIONS");
   (str "Access-Control-Allow-Headers", str "Content-Type")].

Definition refuse (msg : list byte) (code : Z) : act D S reply := act_ret (with_header faucetHeader (writeError msg code)).

Definition faucetTx (chainID nonce : Z) (to : Address) : Transaction :=
  mkTx TxTypeTransfer chainID nonce (Some to) (Some amount) 21000 (Some 1) [] [].

(** Under the faucet's lock; the claim is remembered once the transaction is in the pool. *)
Definition dispense (addr : Address) : act D S reply :=
  let@ s := get_own in
  if bool_decide (addr ∈ fa_claimed (get s)) then refuse (str "this address already claimed from the faucet") 429
  else
    let@ st := look env (fun s => StateSnapshot (chain s)) in
    let@ _ := on_own (fun s => (set (faucetSync (State_Nonce st (PrivateKey_Address key)) (get s)) s, tt)) in
    let@ s := get_own in
    let@ id := look env (fun s => Ok (chainID (chain s))) in
    match tx_Sign (faucetTx id (fa_nextNonce (get s)) addr) key with
    | Panic => act_panic
    | Err _ => refuse (str "sign failed") 500
    | Ok tx =>
        match CheckState st tx with
        | Panic => act_panic
        | Err e => refuse (str "faucet unavailable (fund the faucet wallet): " ++ errorText e) 503
        | Ok _ =>
            let@ r := attempt (addLocal env tx) in
            match r with
            | inl e => refuse (str "pool: " ++ errorText e) 503
            | inr _ =>
                let@ _ := match broadcast with
                          | Some send => attempt (send tx)
                          | None => act_ret (inr tt)
                          end in
                let@ _ := on_own (fun s =>
                  let f := get s in (set (remember addr (with_nonce (u64 (fa_nextNonce f + 1)) f)) s, tt)) in
                act_ret (with_header faucetHeader (writeJSON (goMapJSON (goMapOf
                  [(str "tx", JStr (Hash_Hex (tx_Hash tx))); (str "amount", JStr (itoa amount))]))))
            end
        end
    end.

Definition Faucet_ServeHTTP : httpHandler D S := fun r =>
  if bool_decide (hr_method r = OPTIONS) then act_ret (mkReply faucetHeader (mkResponse 204 []))
  else if negb (bool_decide (hr_method r = POST)) then refuse (str "POST only") 405
  else
    match decodeStream faucetRequestC (take 1024 (hr_body r)) with
    | None => refuse (str "bad request") 400
    | Some a =>
        match AddressFromHex a with
        | Ok addr => dispense addr
        | _ => refuse (str "bad address") 400
        end
    end.

End Faucet.
