(* ===== verification/NodeHttp.v ===== *)
(** * The node's HTTP port (node/node.go)

    [New] builds one handler: the RPC server behind the keys, the cross-origin
    headers and the rate limiter, and beside it, each with a limiter of its
    own, the faucet and the mining pool.  The state of the whole port is one
    record; [zoom] runs a part's action on its field.  Request paths are clean
    (no empty, [.] or [..] element): [http.ServeMux] redirects the others. *)
From stdpp Require Import base numbers list gmap.
From Stdlib Require Import ZArith Lia Strings.Byte.
From Stdlib Require Strings.String.
Import Strings.String.StringSyntax.
From S2P Require Import Prelude Common Types VmBase Precompiles Vm State Transition Json JsonCodec Store Schema SchemaProofs Wire Mempool.
From S2P Require Import Blockchain Scorer P2p TxGossip Pool PoolHttp Rpc RpcApi Net RpcGate Faucet.
#[local] Open Scope Z_scope.
#[local] Open Scope list_scope.
#[local] Open Scope act_scope.

Definition FaucetRateLimit : RateLimit := mkRateLimit 6 (f_const 5 1) 8192.
Definition PoolRateLimit : RateLimit := mkRateLimit 60 (f_of_Z 10) 8192.

Record Config `{Crypto} : Type := mkNodeConfig {
  nc_Mine : bool;
  nc_RPCAPIKeys : list (list byte);
  nc_RPCCORSOrigins : list (list byte);
  nc_FaucetKey : option privKey;
  nc_FaucetAmount : option Z;
  nc_PoolKey : option privKey;           (* of the pool whose handler is mounted *)
}.

(** What the parts of the port keep. *)
Record Port : Type := mkPort {
  po_rpc : RateLimiter;
  po_faucetLimiter : RateLimiter;
  po_faucet : Faucet;
  po_poolLimiter : RateLimiter;
  po_pool : Pool.Server;
  po_txGossip : TxGossip;
  po_won : Z;
}.

Definition set_rpc (x : RateLimiter) (p : Port) : Port :=
  mkPort x (po_faucetLimiter p) (po_faucet p) (po_poolLimiter p) (po_pool p) (po_txGossip p) (po_won p).
Definition set_faucetLimiter (x : RateLimiter) (p : Port) : Port :=
  mkPort (po_rpc p) x (po_faucet p) (po_poolLimiter p) (po_pool p) (po_txGossip p) (po_won p).
Definition set_faucet (x : Faucet) (p : Port) : Port :=
  mkPort (po_rpc p) (po_faucetLimiter p) x (po_poolLimiter p) (po_pool p) (po_txGossip p) (po_won p).
Definition set_poolLimiter (x : RateLimiter) (p : Port) : Port :=
  mkPort (po_rpc p) (po_faucetLimiter p) (po_faucet p) x (po_pool p) (po_txGossip p) (po_won p).
Definition set_pool (x : Pool.Server) (p : Port) : Port :=
  mkPort (po_rpc p) (po_faucetLimiter p) (po_faucet p) (po_poolLimiter p) x (po_txGossip p) (po_won p).
Definition set_txGossip (x : TxGossip) (p : Port) : Port :=
  mkPort (po_rpc p) (po_faucetLimiter p) (po_faucet p) (po_poolLimiter p) (po_pool p) x (po_won p).

(** An action on a part, run on the whole. *)
Definition zoom {D S T A} (get : S -> T) (set : T -> S -> S) (c : act D T A) : act D S A := fun n =>
  let (m, r) := c (mkNode (get (own n)) (shared n) (tick n) (events n)) in
  (mkNode (set (own m) (own n)) (shared m) (tick m) (events m), r).

(** What [withCORS] adds. *)
Definition poolHeader : list (list byte * list byte) :=
  [(str "Access-Control-Allow-Origin", str "*"); (str "Access-Control-Allow-Methods", str "GET, POST, OPTIONS");
   (str "Access-Control-Allow-Headers", str "Content-Type")].

Section Node.
Context `{Crypto} `{Bn256} {D : Type} `{KV D} (env : Env D) (errorText : error -> list byte) (fuel : nat).
Context (coinbase : Address) (networked : bool) (peerCount : option (nat -> Z)) (hashCount : nat -> Z) (cfg : Config).

(** [cfg.TxBroadcaster]: transaction gossip, on a node with a network. *)
Definition broadcaster : option (Transaction -> act D Port unit) :=
  if networked then Some (fun tx => zoom po_txGossip set_txGossip (Broadcast env tx)) else None.

Definition MiningStats (peers : Z) : act D Port json :=
  let@ head := look env (fun s => Ok (Head (chain s))) in
  let@ balance := look env (fun s => BalanceAt (chain s) coinbase) in
  let@ p := get_own in
  let@ hashes := ask (fun k => Returns (hashCount k)) in
  let height := Height (b_Header head) in
  act_ret (goMapJSON (goMapOf
    [(str "mining", JBool (nc_Mine cfg)); (str "coinbase", JStr (Address_Hex coinbase)); (str "balance", JStr (itoa balance));
     (str "height", JNum (itoa height)); (str "difficulty", JNum (itoa (Difficulty (b_Header head))));
     (str "blocksWon", JNum (itoa (po_won p))); (str "hashCount", JNum (itoa hashes)); (str "peers", JNum (itoa peers));
     (str "rewardWei", JStr (itoa (BlockRewardAt height)))])).

Definition chain_miningStats : Rpc.Handler D Port := fun _ =>
  let@ peers := match peerCount with
                | Some count => ask (fun k => Returns (count k))
                | None => act_ret 0
                end in
  MiningStats peers.

Definition rpcServer : Rpc.Server D Port :=
  Register (API_Register env errorText broadcaster fuel NewServer) (str "chain_miningStats") chain_miningStats.

(** Rate limit, then CORS, then keys, then the server, whatever the path. *)
Definition rpcHandler : httpHandler D Port :=
  RateLimiter_ServeHTTP env po_rpc set_rpc
    (CORS_ServeHTTP (NewCORS (nc_RPCCORSOrigins cfg))
      (Auth_ServeHTTP (NewAuth (nc_RPCAPIKeys cfg))
        (fun r => Server_ServeHTTP errorText rpcServer (hr_method r) (hr_body r)))).

Definition faucetAmount : Z :=
  match nc_FaucetAmount cfg with
  | Some a => if Z.sgn a <=? 0 then OneLXS else a
  | None => OneLXS
  end.

(** The mux that mounts the faucet. *)
Definition withFaucet (handler : httpHandler D Port) : httpHandler D Port :=
  match nc_FaucetKey cfg with
  | None => handler
  | Some key => fun r =>
      if bool_decide (hr_path r = str "/faucet") then
        RateLimiter_ServeHTTP env po_faucetLimiter set_faucetLimiter
          (Faucet_ServeHTTP env errorText key faucetAmount broadcaster po_faucet set_faucet) r
      else handler r
  end.

Definition poolHandler (key : privKey) : httpHandler D Port := fun r =>
  let@ res := zoom po_pool set_pool (PoolHttp.Handler env key coinbase (hr_method r) (hr_path r) (hr_body r)) in
  act_ret (mkReply poolHeader res).

(** [http.Redirect] of the subtree's root; only a GET gets a body. *)
Definition toSubtree (r : httpRequest) : reply :=
  let location := (str "Location", str "/pool/") in
  if bool_decide (hr_method r = GET) then
    mkReply [location; (str "Content-Type", str "text/html; charset=utf-8")]
      (mkResponse 301 (str "<a href=" ++ [x22] ++ str "/pool/" ++ [x22] ++ str ">Moved Permanently</a>." ++ [x0a; x0a]))
  else mkReply [location] (mkResponse 301 []).

(** The mux that mounts the pool under its prefix. *)
Definition withPool (handler : httpHandler D Port) : httpHandler D Port :=
  match nc_PoolKey cfg with
  | None => handler
  | Some key => fun r =>
      if bool_decide (take 6 (hr_path r) = str "/pool/") then
        RateLimiter_ServeHTTP env po_poolLimiter set_poolLimiter (poolHandler key) r
      else if bool_decide (hr_path r = str "/pool") then act_ret (toSubtree r)
      else handler r
  end.

(** The handler of [New]. *)
Definition nodeHandler : httpHandler D Port := withPool (withFaucet rpcHandler).

End Node.

(** The state [New] starts from; the pool and the gossip come from outside. *)
Definition newPort (pool : Pool.Server) (gossip : TxGossip) : Port :=
  mkPort (NewRateLimiter DefaultRateLimit) (NewRateLimiter FaucetRateLimit) NewFaucet (NewRateLimiter PoolRateLimit) pool gossip 0.
