(* ===== verification/RpcServe.v ===== *)
(** * RPC: what it takes for a method to come back

    A method settles when it ends, whatever the other goroutines do between its
    accesses to the shared part, and what it leaves is sound.  [Keep] is what
    is kept throughout: soundness, and, on a node that is left alone, that the
    chain is only read. *)
From stdpp Require Import base numbers list gmap.
From Stdlib Require Import ZArith Lia Strings.Byte.
From Stdlib Require Strings.String.
Import Strings.String.StringSyntax.
From S2P Require Import Prelude Common Rlp Types EthTx VmBase Precompiles Vm VmProofs State StateProofs StateInv Transition BlockProofs.
From S2P Require Import Genesis Json JsonCodec Store Schema JsonWide SchemaProofs Wire Mempool MempoolProofs Blockchain ChainInv ChainMove.
From S2P Require Import ChainStep ChainProofs ChainInsert ChainOpen ChainProps ChainExtend Scorer P2p P2pProofs Rpc RpcApi.
#[local] Open Scope Z_scope.
#[local] Open Scope list_scope.
#[local] Open Scope act_scope.

(** * RPC: the wire, and what it takes for a method to come back

    The codecs read what they wrote.  The client reads what the server
    answered.  [settles] is what the server needs of a method: it ends, and the
    node it leaves is sound. *)

(** ** Codecs *)

Lemma setString16_bigText16 z : setString16 (bigText16 (Some z)) = Some z.
Proof.
  cbn [bigText16]. destruct (Z.ltb_spec z 0) as [Hn|Hn]; [|by apply setString16_text16].
  unfold setString16, signed. cbn [expect]. rewrite Byte.byte_dec_lb by done.
  pose proof (setString16_text16 (- z) ltac:(lia)) as E. unfold setString16, signed in E. unfold text16 in *.
  destruct (to_hex_uint_cons (Z.to_N (- z))) as (b & r & Eb & Hp & Hm). rewrite Eb in *. cbn [expect] in E.
  destruct (Byte.eqb b x2d) eqn:E1; [by apply Byte.byte_dec_bl in E1|].
  destruct (Byte.eqb b x2b) eqn:E2; [by apply Byte.byte_dec_bl in E2|]. cbn [default from_option id] in E. rewrite E. cbn. f_equal. lia.
Qed.

Lemma bigText16_cons z : exists b r, bigText16 (Some z) = b :: r.
Proof.
  cbn [bigText16]. destruct (z <? 0); [eauto|]. unfold text16. destruct (to_hex_uint_cons (Z.to_N z)) as (b & r & -> & _). eauto.
Qed.

Lemma quantityC_ok : codec_ok quantityC is_Some.
Proof.
  intros q [z ->]. split; [done|]. cbn [dec quantityC enc zero Quantity_MarshalJSON]. unfold Quantity_UnmarshalJSON.
  cbn [dec stringC]. change (trim0x (str "0x" ++ ?t)) with t. pose proof (setString16_bigText16 z) as E.
  destruct (bigText16_cons z) as (b & r & Eb). rewrite Eb in *. by rewrite E.
Qed.

Lemma dataC_ok : codec_ok dataC (fun _ => True).
Proof.
  intros d _. split; [done|]. cbn [dec dataC enc zero]. unfold Data_UnmarshalJSON, Data_MarshalJSON. cbn [dec stringC].
  change (trim0x (str "0x" ++ ?t)) with t. by rewrite hex_roundtrip.
Qed.

#[export] Hint Resolve quantityC_ok dataC_ok : json.

(** The quantities of a transaction on the wire are all there. *)
Record args_full (a : TxArgs) : Prop := {
  af_chain : is_Some (ta_ChainID a);
  af_nonce : is_Some (ta_Nonce a);
  af_value : is_Some (ta_Value a);
  af_limit : is_Some (ta_GasLimit a);
  af_price : is_Some (ta_GasPrice a);
}.

Lemma txArgsC_ok : codec_ok txArgsC args_full.
Proof.
  apply structC_ok. intros a [Hc Hn Hv Hl Hp]. split; [members|].
  dec_field quantityC_ok Hc. dec_field quantityC_ok Hn. dec_field addressPtr_ok I. dec_field quantityC_ok Hv.
  dec_field quantityC_ok Hl. dec_field quantityC_ok Hp. dec_field dataC_ok I. dec_field dataC_ok I. by destruct a.
Qed.

(** A transaction as [TxArgs] carries it: the type is not sent. *)
Definition overWire (tx : Transaction) : Transaction :=
  mkTx TxTypeTransfer (tx_ChainID tx) (tx_Nonce tx) (tx_To tx) (tx_Value tx) (tx_GasLimit tx) (tx_GasPrice tx) (tx_Data tx) (tx_Sig tx).

Lemma overWire_native tx : tx_Type tx = TxTypeTransfer -> overWire tx = tx.
Proof. destruct tx. by cbn; intros ->. Qed.

Lemma ToTx_FromTx tx : tx_widths tx -> ToTx (FromTx tx) = overWire tx.
Proof. intros [_ Hc Hn Hg]. unfold ToTx, FromTx. cbn. by rewrite !Z.abs_eq, !u64_small by lia. Qed.

Lemma rawParams_arr l : rawParams (Some (JArr l)) = Ok (map Some l).
Proof.
  unfold rawParams. cbn [dec listC]. enough (forall cur : list (option json), decElems rawC l cur = Some (map Some l)) as -> by done.
  induction l as [|j l IH]; intros cur; [done|]. cbn [decElems map]. by rewrite IH.
Qed.

Definition request_ok (r : request) : Prop := (exists p, rq_Params r = Some p /\ jwf p) /\ exists i, rq_ID r = Some i /\ jwf i.

Lemma requestC_ok : codec_ok requestC request_ok.
Proof.
  apply structC_ok. intros r [Hp Hi]. split; [members|].
  dec_field stringC_ok I. dec_field stringC_ok I. dec_field rawC_ok Hp. dec_field rawC_ok Hi. by destruct r.
Qed.

Lemma rpcErrorC_ok : codec_ok rpcErrorC (fun e => - 2 ^ 63 <= re_Code e < 2 ^ 63).
Proof.
  apply structC_ok. intros e Hc. split; [members|]. dec_field int64C_ok Hc. dec_field stringC_ok I. by destruct e.
Qed.

(** ** The client's reading of an answer *)

Lemma field_skip {A} (c : codec A) name k v ms cur : sameName k name = false -> field c name ((k, v) :: ms) cur = field c name ms cur.
Proof. intros E. cbn [field]. by rewrite E. Qed.

(** The answer as the client decodes it. *)
Lemma client_decodes r :
  match rs_Error r with Some e => - 2 ^ 63 <= re_Code e < 2 ^ 63 | None => True end ->
  dec clientReplyC (response_MarshalJSON r) (zero clientReplyC)
  = Some (match rs_Error r with Some e => mkClientReply None (Some e) | None => mkClientReply (Some (rs_Result r)) None end).
Proof.
  intros Hc. unfold response_MarshalJSON. destruct (rs_Error r) as [e|]; cbn [dec clientReplyC structC zero cr_Result cr_Error]; [|done].
  destruct (rpcErrorC_ok e Hc) as [_ Hd].
  change (field rawC (str "result") _ None) with (Some (@None json)). cbn [mbind option_bind].
  change (field (ptrC rpcErrorC) (str "error") [(str "jsonrpc", JStr (str "2.0")); (str "error", enc rpcErrorC e); (str "id", rs_ID r)] None)
    with ((Some <$> dec rpcErrorC (enc rpcErrorC e) (zero rpcErrorC)) ≫= field (ptrC rpcErrorC) (str "error") [(str "id", rs_ID r)]).
  rewrite Hd. done.
Qed.

Lemma response_jwf r : jwf (rs_Result r) -> jwf (rs_ID r) -> jwf (response_MarshalJSON r).
Proof. intros Hr Hi. unfold response_MarshalJSON. destruct (rs_Error r) as [e|]; cbn; split_and!; try done; apply validNum_itoa. Qed.

Lemma parse_print_line j : jwf j -> parse (print j ++ [x0a]) = Some j.
Proof.
  intros Hj. unfold parse. rewrite (print_printWith j 0), printWith_reads; [done|constructor|constructor|done| |done]. rewrite length_app. lia.
Qed.

(** The server's answer to one well-formed request. *)
Lemma ServeHTTP_single {D S} (errorText : error -> list byte) (s : Server D S) req n :
  request_ok req -> len (encodeJSON requestC req) <= maxBodyBytes ->
  Server_ServeHTTP errorText s POST (encodeJSON requestC req) n
  = (let@ res := dispatch errorText s req in act_ret (writeJSON (response_MarshalJSON res))) n.
Proof.
  intros Hr Hl. unfold Server_ServeHTTP. rewrite bool_decide_eq_true_2 by done. cbn [negb].
  destruct (Z.ltb_spec maxBodyBytes (len (encodeJSON requestC req))); [lia|].
  change (firstNonSpace (encodeJSON requestC req)) with x7b. cbn [Byte.eqb]. by rewrite (decode_encode _ _ _ requestC_ok).
Qed.

Lemma clientResult_answer r :
  jwf (rs_Result r) -> jwf (rs_ID r) -> match rs_Error r with Some e => - 2 ^ 63 <= re_Code e < 2 ^ 63 | None => True end ->
  len (print (response_MarshalJSON r)) < maxBodyBytes ->
  clientResult (Ok (rp_response (writeJSON (response_MarshalJSON r))))
  = match rs_Error r with Some e => Err (ErrRpc (re_Code e) (re_Message e)) | None => Ok (Some (rs_Result r)) end.
Proof.
  intros Hr Hi Hc Hl. unfold clientResult. cbn [res_bind writeJSON rp_response httpJSON body].
  assert (take (Z.to_nat maxBodyBytes) (print (response_MarshalJSON r) ++ [x0a]) = print (response_MarshalJSON r) ++ [x0a]) as ->.
  { apply take_ge. unfold len in Hl. rewrite length_app. cbn [length]. lia. }
  unfold decodeJSON. rewrite parse_print_line by (by apply response_jwf). cbn [mbind option_bind]. rewrite client_decodes by done. by destruct (rs_Error r).
Qed.

Create HintDb rpc.

(** ** The pool's accounts are small *)

Definition pool_small (m : Mempool) : Prop := forall a bn, byAcct m !! a = Some bn -> Z.of_nat (size bn) <= maxPerAccount.

Section Small.
Context `{Crypto}.

Lemma dropLocked_small m tx : pool_small m -> pool_small (dropLocked m tx).
Proof.
  intros Hm a bn. unfold dropLocked. destruct (Sender tx); cbn [with_index byAcct]; [|by apply Hm..].
  intros (bn0 & Hb & Hle)%dropNonce_count. specialize (Hm a bn0 Hb). lia.
Qed.

Lemma makeRoom_small m tx it : pool_small m -> pool_small (fst (makeRoom m tx it)).
Proof. intros Hm. unfold makeRoom. repeat (case_match; try done). by apply dropLocked_small. Qed.

(** What [makeRoom] leaves of an account is part of what was there. *)
Lemma makeRoom_shrinks m tx it a bn :
  byAcct (fst (makeRoom m tx it)) !! a = Some bn -> exists bn0, byAcct m !! a = Some bn0 /\ (size bn <= size bn0)%nat.
Proof.
  unfold makeRoom. repeat (case_match; cbn [fst]; try by eauto).
  unfold dropLocked. case_match; cbn [with_index byAcct]; [apply dropNonce_count|eauto..].
Qed.

Lemma insert_small m all sender bn :
  pool_small m -> Z.of_nat (size bn) <= maxPerAccount -> pool_small (with_index all (<[sender := bn]> (byAcct m)) m).
Proof. intros Hm Hb a bn'. cbn [with_index byAcct]. intros [[_ <-]|[_ E]]%lookup_insert_Some; [done|by apply (Hm a)]. Qed.

Lemma Mempool_Add_small m tx c it : pool_small m -> pool_small (fst (Mempool_Add m tx c it)).
Proof.
  intros Hm. unfold Mempool_Add, Mempool_add. destruct (res_bind _ _) as [[sender []]| |]; try done.
  destruct (m_all m !! tx_Hash tx); [done|]. set (bn := default ∅ (byAcct m !! sender)).
  assert (Z.of_nat (size bn) <= maxPerAccount) as Hb.
  { unfold bn. destruct (byAcct m !! sender) eqn:E; [by apply (Hm sender)|]. cbn. by rewrite map_size_empty. }
  set (m1 := with_index (m_all m) (<[sender := bn]> (byAcct m)) m).
  assert (pool_small m1) as Hm1 by (by apply insert_small). destruct (bn !! tx_Nonce tx); [done|].
  destruct (Z.leb_spec maxPerAccount (Z.of_nat (size bn))); [done|].
  pose proof (makeRoom_small m1 tx it Hm1) as Hr. pose proof (makeRoom_shrinks m1 tx it sender) as Hs.
  destruct (makeRoom m1 tx it) as [m2 [u|e|]]; [|done..]. cbn [fst] in *. unfold insertTx.
  destruct (byAcct m2 !! sender) as [bn2|] eqn:E2; [|done]. cbn [fst]. apply insert_small; [done|].
  destruct (Hs bn2 eq_refl) as (bn0 & E0 & Hle). cbn [m1 with_index byAcct] in E0. rewrite lookup_insert_eq in E0. injection E0 as <-.
  destruct (bn2 !! tx_Nonce tx) eqn:En; [rewrite map_size_insert_Some by eauto|rewrite map_size_insert_None by done]; lia.
Qed.

Lemma AddLocal_small m tx c it : pool_small m -> pool_small (fst (AddLocal m tx c it)).
Proof.
  intros Hm. pose proof (Mempool_Add_small m tx c it Hm) as Ha. unfold AddLocal.
  by destruct (Mempool_Add m tx c it) as [m' []].
Qed.

End Small.

Lemma PendingNonce_loop_run fuel bn next run : is_u64 next -> runFrom fuel bn next = Some run -> PendingNonce_loop fuel bn next = Some (nonceAt next (length run)).
Proof.
  revert next run. induction fuel as [|f IH]; intros next run Hn E; [done|]. cbn [runFrom PendingNonce_loop] in *.
  destruct (bn !! next) as [tx|]; [|injection E as <-; cbn [length]; by rewrite nonceAt_0].
  destruct (runFrom f bn (u64 (next + 1))) as [r|] eqn:Er; [|done]. injection E as <-.
  rewrite (IH _ r (is_u64_u64' _) Er). cbn [length]. by rewrite nonceAt_S.
Qed.

(** The pending nonce is the first one, from the committed nonce on, that is not queued. *)
Lemma PendingNonce_gap m a base :
  pool_small m -> is_u64 base ->
  exists k, PendingNonce m a base = Some (nonceAt base k) /\ default ∅ (byAcct m !! a) !! nonceAt base k = None
    /\ forall i, (i < k)%nat -> is_Some (default ∅ (byAcct m !! a) !! nonceAt base i).
Proof.
  intros Hm Hb. unfold PendingNonce. destruct (byAcct m !! a) as [bn|] eqn:E.
  - pose proof (Hm a bn E) as Hs. assert (maxPerAccount < 2 ^ 64) by done.
    destruct (runFrom_total bn base Hb ltac:(lia)) as [run Er]. exists (length run). rewrite (PendingNonce_loop_run _ _ _ run Hb Er).
    destruct (runFrom_run _ _ _ _ Hb Er) as [Hin Hout]. split_and!; [done..|]. intros i Hi.
    destruct (lookup_lt_is_Some_2 run i Hi) as [tx Htx]. exists tx. by apply Hin.
  - exists O. rewrite nonceAt_0 by done. split_and!; [done| |intros i Hi; lia]. cbn. by rewrite lookup_empty.
Qed.

(** ** Reading the chain *)

Section Readers.
Context `{Crypto} `{Bn256} {D : Type} `{KVLaws D} (net : network) (Hn : wf_network net).

#[local] Instance net_headers : headers (n_headers net) (n_block net) := wn_headers net Hn.

(** Nothing happened but the look-up of at most one block. *)
Definition looked (bc bc' : Blockchain D) : Prop := bc' = bc \/ exists h r, BlockByHash h bc = (bc', r).

(** A reader ends without a panic. *)
Definition reads {A} (c : op D A) (Post : A -> Prop) : Prop := forall bc, reachable net bc ->
  exists bc' r, c bc = (bc', r) /\ looked bc bc' /\ match r with Returns a => Post a | Raises _ => True | _ => False end.

Lemma BlockByHash_reads h : reads (BlockByHash h) (fun b => 0 <= Block_Height b < 2 ^ 63).
Proof.
  intros bc Hr. destruct (chain_reachable_inv net Hn bc Hr) as (F & canon & Hi & _).
  pose proof (blockLocked_reads _ _ F canon bc h bc (same_refl bc) Hi) as Hrd. unfold BlockByHash, looked.
  destruct (blockLocked h bc) as [bc' r] eqn:E. exists bc', r. split_and!; [done|right; by exists h, r|].
  destruct r as [b|e| |]; [|done|by destruct Hrd as (_ & _ & [])..]. destruct Hrd as (_ & _ & Hst & _). by apply (stored_height (n_headers net) (contents (db bc))).
Qed.

Lemma BlockByHeight_reads h : is_u64 h -> reads (BlockByHeight h) (fun b => Block_Height b = h).
Proof.
  intros Hh bc Hr. destruct (chain_reachable_inv net Hn bc Hr) as (F & canon & Hi & _).
  destruct (BlockByHeight_inv net F canon h bc Hi Hh) as (bc' & r & E & _ & Hv). exists bc', r. split; [done|]. split.
  - unfold BlockByHeight, op_bind, op_get, op_res in E. destruct (unknown_if_absent _) as [x|e|].
    + right. by exists x, r.
    + left. by injection E.
    + left. by injection E.
  - destruct ((n_block net :: canon) !! Z.to_nat h); [destruct Hv as (-> & ? & _)|subst r]; done.
Qed.

Lemma TxByHash_reads h : reads (TxByHash h) (fun _ => True).
Proof.
  intros bc Hr. destruct (chain_reachable_inv net Hn bc Hr) as (F & canon & Hi & _).
  destruct (TxByHash_inv net F canon h bc Hi) as [E|(b & i & tx & bc' & _ & _ & E)].
  { exists bc, (Raises ErrUnknownTx). split_and!; [done|by left|done]. }
  exists bc', (Returns (tx, locationOf b i)). split_and!; [done| |done].
  unfold TxByHash, op_bind in E. destruct (locate h bc) as [bc1 [loc|e| |]] eqn:El; try done.
  assert (bc1 = bc) as -> by (destruct (locate_inv net F canon h bc Hi) as [E'|(? & ? & ? & ? & _ & E' & _)]; congruence).
  destruct (blockLocked (BlockHash loc) bc) as [bc2 [blk|e| |]] eqn:Eb; try done. right. exists (BlockHash loc), (Returns blk).
  unfold atIndex, op_fail, op_ret, op_panic in E. unfold BlockByHash. rewrite Eb. f_equal.
  destruct (len (b_Txs blk) <=? i64 (Index loc)); [done|]. destruct (i64 (Index loc) <? 0); [done|]. destruct (b_Txs blk !! _); [|done].
  by injection E.
Qed.

Lemma ReceiptByTxHash_reads h : reads (ReceiptByTxHash h) (fun r => is_u64 (BlockHeight (snd r))).
Proof.
  intros bc Hr. destruct (chain_reachable_inv net Hn bc Hr) as (F & canon & Hi & _). exists bc.
  destruct (ReceiptByTxHash_inv net F canon h bc Hi) as [E|(b & i & tx & rs & r & Hm & _ & _ & E)].
  - exists (Raises ErrUnknownTx). split_and!; [done|by left|done].
  - exists (Returns (r, locationOf b i)). split_and!; [done|by left|]. cbn [snd locationOf BlockHeight].
    pose proof (ci_stored _ _ _ _ (inv_canon _ _ _ _ _ Hi)) as Hst. rewrite Forall_forall in Hst.
    assert (0 <= Block_Height b < 2 ^ 63) as Hh by (apply (stored_height (n_headers net) (contents (db bc))), Hst; right; apply Hm).
    unfold is_u64. lia.
Qed.

Lemma ReceiptsByHeight_reads h : is_u64 h -> reads (ReceiptsByHeight h) (fun _ => True).
Proof.
  intros Hh bc Hr. destruct (chain_reachable_inv net Hn bc Hr) as (F & canon & Hi & _).
  destruct (ReceiptsByHeight_inv net F canon h bc Hi Hh) as (bc' & r & E & _ & Hv). exists bc', r. split; [done|]. split.
  - destruct (BlockByHeight_reads h Hh bc Hr) as (bc1 & r1 & E1 & Hl & _). unfold ReceiptsByHeight, op_bind, op_get, op_res in E. rewrite E1 in E.
    destruct r1 as [blk|e| |]; [|by injection E as <- _..]. by destruct (loadReceipts _ _); injection E as <- _.
  - destruct ((n_block net :: canon) !! Z.to_nat h); [destruct Hv as (rs & -> & _)|subst r]; done.
Qed.

(** The state at the head is one the interpreter runs on. *)
Lemma head_ready (bc : Blockchain D) :
  reachable net bc -> exists s, headState bc = Ok s /\ StateSnapshot bc = Ok (State_Copy s) /\ vm_ready None (State_Copy s)
    /\ forall a, is_u64 (State_Nonce s a).
Proof.
  intros Hr. destruct (chain_reachable_inv net Hn bc Hr) as (F & canon & Hi & _). destruct (inv_headState _ _ _ _ _ Hi) as [s Hs].
  destruct (held _ _ F canon bc Hi _ _ (head_stored _ _ _ _ _ Hi) Hs) as [Hok _]. exists s.
  assert (wf_state s) as Hw by apply Hok. unfold StateSnapshot, headState. rewrite Hs. split_and!; [done|done| |].
  - split_and!; [by apply sp_inv_empty|by apply (wf_content s)|done].
  - intros a. apply wa_nonce. by apply wf_Get.
Qed.

Lemma Head_range (bc : Blockchain D) : reachable net bc -> 0 <= Block_Height (Head bc) < 2 ^ 63.
Proof.
  intros Hr. destruct (chain_reachable_inv net Hn bc Hr) as (F & canon & Hi & _).
  exact (stored_height (n_headers net) (contents (db bc)) _ (head_stored _ _ _ _ _ Hi)).
Qed.

End Readers.

(** ** Settling *)

Section Settles.
Context `{Crypto} `{Bn256} {D S : Type} `{KVLaws D} (net : network) (Hn : wf_network net) (env : Env D).

Record served (s : Shared D) : Prop := {
  sv_shared : shared_ok net s;
  sv_pool : pool_small (pool s);
}.

(** What a method keeps of the shared part. *)
Record keeps (Keep : Shared D -> Prop) : Prop := {
  kp_served : forall s, Keep s -> served s;
  kp_meanwhile : forall k s, Keep s -> Keep (meanwhile env k s);
  kp_looked : forall s bc', Keep s -> looked (chain s) bc' -> Keep (with_chain bc' s);
}.

(** A transaction may enter the pool. *)
Definition admits (Keep : Shared D -> Prop) : Prop :=
  forall s tx c it, Keep s -> Keep (with_pool (fst (AddLocal (pool s) tx c it)) s).

Context (Keep : Shared D -> Prop) (HK : keeps Keep).

Definition settles {A} (c : act D S A) (Post : A -> Prop) : Prop := forall n, Keep (shared n) ->
  exists n' r, c n = (n', r) /\ Keep (shared n') /\ match r with Returns a => Post a | OutOfFuel => False | _ => True end.

Lemma settles_ret {A} (a : A) (Post : A -> Prop) : Post a -> settles (act_ret a) Post.
Proof. intros Ha n Hk. by exists n, (Returns a). Qed.

Lemma settles_fail {A} e (Post : A -> Prop) : settles (act_fail e) Post.
Proof. intros n Hk. by exists n, (Raises e). Qed.

Lemma settles_panic {A} (Post : A -> Prop) : settles act_panic Post.
Proof. intros n Hk. by exists n, Panics. Qed.

Lemma settles_res {A} (r : res A) (Post : A -> Prop) : (forall a, r = Ok a -> Post a) -> settles (act_res r) Post.
Proof. intros Hr n Hk. unfold act_res. eexists n, _. split; [done|]. split; [done|]. destruct r; try done. by apply Hr. Qed.

Lemma settles_bind {A B} (c : act D S A) (k : A -> act D S B) Mid Post :
  settles c Mid -> (forall a, Mid a -> settles (k a) Post) -> settles (act_bind c k) Post.
Proof.
  intros Hc Hk n Hn'. destruct (Hc n Hn') as (n1 & r & E & Hk1 & Hr). unfold act_bind. rewrite E.
  destruct r as [a|e| |]; [by apply Hk| | |done]; by eexists _, _.
Qed.

Lemma settles_weaken {A} (c : act D S A) (Post Post' : A -> Prop) : settles c Post -> (forall a, Post a -> Post' a) -> settles c Post'.
Proof. intros Hc Hp n Hk. destruct (Hc n Hk) as (n' & r & E & Hk' & Hr). exists n', r. split_and!; [done..|]. destruct r; auto. Qed.

Lemma settles_attempt {A} (c : act D S A) (Post : A -> Prop) :
  settles c Post -> settles (attempt c) (fun r => match r with inr a => Post a | inl _ => True end).
Proof. intros Hc n Hk. destruct (Hc n Hk) as (n' & r & E & Hk' & Hr). unfold attempt. rewrite E. destruct r; [..|done]; by eexists _, _. Qed.

Lemma settles_ask {A} (f : nat -> callres error A) : (forall k, f k <> OutOfFuel) -> settles (ask f) (fun _ => True).
Proof. intros Hf n Hk. unfold ask. eexists _, _. split; [done|]. split; [done|]. specialize (Hf (tick n)). by destruct (f _). Qed.

Lemma settles_shared {A} (f : nat -> Shared D -> Shared D * callres error A) (Post : A -> Prop) :
  (forall k s, Keep s -> exists s' r, f k s = (s', r) /\ Keep s' /\ match r with Returns a => Post a | OutOfFuel => False | _ => True end) ->
  settles (on_shared env f) Post.
Proof.
  intros Hf n Hk. unfold on_shared. destruct (Hf (tick n) _ (kp_meanwhile _ HK (tick n) _ Hk)) as (s' & r & E & Hs & Hr). rewrite E.
  by eexists _, _.
Qed.

Lemma settles_look {A} (f : Shared D -> res A) (Post : A -> Prop) :
  (forall s a, served s -> f s = Ok a -> Post a) -> settles (look env f) Post.
Proof.
  intros Hf. apply settles_shared. intros k s Hs. eexists s, _. split; [done|]. split; [done|]. destruct (f s) as [a|e|] eqn:E; try done.
  apply (Hf s a); [by apply (kp_served _ HK)|done].
Qed.

Lemma settles_chain {A} (c : op D A) (Post : A -> Prop) : reads net c Post -> settles (on_chain env (fun _ => c)) Post.
Proof.
  intros Hc. apply settles_shared. intros k s Hs. destruct (Hc (chain s)) as (bc' & r & E & Hl & Hr).
  { apply (kp_served _ HK s Hs). }
  rewrite E. exists (with_chain bc' s), r. split_and!; [done|by apply (kp_looked _ HK)|by destruct r].
Qed.

Lemma settles_orNone {A} (c : op D A) (Post : A -> Prop) :
  reads net c Post -> settles (orNone env (fun _ => c)) (fun o => forall a, o = Some a -> Post a).
Proof.
  intros Hc. eapply settles_bind; [by eapply settles_attempt, settles_chain|]. intros r Hr. apply settles_ret. intros a. destruct r; [done|].
  by intros [= ->].
Qed.

Lemma settles_serverError {A} (errorText : error -> list byte) prefix (c : act D S A) (Post : A -> Prop) :
  settles c Post -> settles (serverError errorText prefix c) Post.
Proof.
  intros Hc. eapply settles_bind; [by apply settles_attempt|]. intros [e|a] Hr; [apply settles_fail|by apply settles_ret].
Qed.

(** Binding what needs no intermediate claim. *)
Lemma settles_bind_res {A B} (r : res A) (k : A -> act D S B) Post :
  (forall a, r = Ok a -> settles (k a) Post) -> settles (act_bind (act_res r) k) Post.
Proof. intros Hk. apply (settles_bind _ _ (fun a => r = Ok a)); [by apply settles_res|done]. Qed.

Lemma settles_bind_look {A B} (f : Shared D -> res A) (k : A -> act D S B) Post :
  (forall s a, served s -> f s = Ok a -> settles (k a) Post) -> settles (act_bind (look env f) k) Post.
Proof.
  intros Hk. apply (settles_bind _ _ (fun a => exists s, served s /\ f s = Ok a)); [by apply settles_look; eauto|].
  intros a (s & Hs & E). by apply (Hk s).
Qed.

Lemma settles_bind_any {A B} (c : act D S A) (k : A -> act D S B) Post :
  settles c (fun _ => True) -> (forall a, settles (k a) Post) -> settles (act_bind c k) Post.
Proof. intros Hc Hk. by eapply settles_bind. Qed.

Lemma settles_attempt_any {A} (c : act D S A) : settles c (fun _ => True) -> settles (attempt c) (fun _ => True).
Proof. intros Hc. by eapply settles_weaken; [apply settles_attempt|]. Qed.

End Settles.

(** ** Bounds on what a request holds *)

Definition bounded (N : nat) (o : option json) : Prop := forall j, o = Some j -> jbound N j.

Lemma jbound_mono N M j : (N <= M)%nat -> jbound N j -> jbound M j.
Proof.
  intros HN. revert j. fix IH 1. intros [| | | |l|l]; cbn; try done; [lia|..].
  - intros [Hl Ha]. split; [lia|]. clear Hl. induction l as [|v l IHl]; [done|]. destruct Ha as [Hv Ha]. split; [by apply IH|by apply IHl].
  - intros Ha. induction l as [|v l IHl]; [done|]. destruct Ha as [Hv Ha]. split; [by apply IH|by apply IHl].
Qed.

Lemma rawC_wide N : wide N rawC (bounded N).
Proof. split; [done|]. intros j cur v Hj _. cbn. by intros [= <-] j' [= <-]. Qed.

Lemma stringC_wide N : wide N stringC (fun s => (length s <= N)%nat).
Proof. split; [cbn; lia|]. intros j cur v Hj Hc. destruct j; cbn; try done; by intros [= <-]. Qed.

Lemma trim0x_length s : (length (trim0x s) <= length s)%nat.
Proof. unfold trim0x. repeat (case_match; cbn [length] in *; try lia). Qed.

Lemma hex_DecodeString_length l b : hex_DecodeString l = Ok b -> (length b <= length l)%nat.
Proof.
  revert b. induction l as [l IH] using (induction_ltof1 _ (@length byte)). unfold ltof in IH. intros b.
  destruct l as [|c [|d r]]; cbn [hex_DecodeString]; [by intros [= <-]|done|]. destruct (hex_value c), (hex_value d); try done.
  destruct (hex_DecodeString r) as [v| |] eqn:E; try done. intros [= <-]. apply IH in E; [|cbn; lia]. cbn. lia.
Qed.

Lemma dataC_wide N : wide N dataC (fun d => (length d <= N)%nat).
Proof.
  split; [cbn; lia|]. intros j cur v Hj _. cbn [dec dataC]. unfold Data_UnmarshalJSON.
  destruct (dec stringC j []) as [s|] eqn:E; [|done]. apply (stringC_wide N) in E; [|done|cbn; lia].
  destruct (hex_DecodeString (trim0x s)) as [b| |] eqn:Eb; try done. intros [= <-]. apply hex_DecodeString_length in Eb.
  pose proof (trim0x_length s). lia.
Qed.

Lemma callObjectC_wide N : wide N callObjectC (fun o => (length (co_Data o) <= N)%nat).
Proof.
  apply structC_wide; [cbn; lia|]. intros ms cur v Hms Hd. do 2 next_field (any_wide N (ptrC addressC)) I.
  do 2 next_field (any_wide N (ptrC quantityC)) I. next_field (dataC_wide N) Hd. by intros [= <-].
Qed.

Lemma callArgsC_wide N : wide N callArgsC (fun o => (length (ca_Data o) <= N)%nat).
Proof.
  apply structC_wide; [cbn; lia|]. intros ms cur v Hms Hd. next_field (any_wide N (ptrC addressC)) I.
  next_field (any_wide N addressC) I. next_field (dataC_wide N) Hd. next_field (any_wide N (ptrC quantityC)) I. by intros [= <-].
Qed.

Lemma requestC_wide N : wide N requestC (fun r => bounded N (rq_Params r)).
Proof.
  apply structC_wide; [done|]. intros ms cur v Hms Hd. do 2 next_field (any_wide N stringC) I.
  next_field (rawC_wide N) Hd. next_field (any_wide N rawC) I. by intros [= <-].
Qed.

Lemma decode1_wide {A} errorText N (c : codec A) Q params a :
  wide N c Q -> bounded N params -> decode1 errorText c params = Ok a -> Q a.
Proof.
  intros [Hz Hd] Hp. unfold decode1, rawParams. destruct params as [j|]; [|done]. destruct (dec (listC rawC) j []) as [raw|] eqn:E; [|done].
  apply (listC_wide N rawC _ (rawC_wide N)) in E; [|by apply Hp|apply Forall_nil_2]. cbn [res_bind]. destruct raw as [|x raw]; [done|].
  apply Forall_cons in E as [Hx _]. unfold unmarshalParam, unmarshalRaw. destruct x as [j'|]; [|done]. cbn [mbind option_bind].
  destruct (dec c j' (zero c)) as [v|] eqn:Ev; [|done]. intros [= <-]. apply (Hd j' (zero c)); [by apply Hx|done|done].
Qed.

Lemma parseUint16_range s h : parseUint16 s = Some h -> is_u64 h.
Proof.
  unfold parseUint16, readHex, is_u64. destruct s as [|b s]; [done|]. destruct (bytes_hex (b :: s)) as [u|]; [|done]. cbn [fmap option_fmap option_map].
  destruct (Z.ltb_spec (Z.of_N (N.of_hex_uint u)) (2 ^ 64)); [|done]. intros [= <-]. lia.
Qed.

Lemma cappedCallGas_range q : 0 <= cappedCallGas q <= maxGas.
Proof.
  assert (callGasCap = 50000000 /\ maxGas = 2 ^ 60) as [E1 E2] by done. unfold cappedCallGas. destruct q as [q|]; [|lia].
  assert (0 <= Quantity_U64 q) by (destruct q as [z|]; cbn; [apply is_u64_u64'|lia]). destruct (Z.ltb_spec (Quantity_U64 q) callGasCap); lia.
Qed.

(** ** The methods *)

(** Ranges of heights that end: a scan up to the last uint64 would not. *)
Definition tameFilter (f : ethLogFilter) : bool :=
  bool_decide (is_Some (lf_BlockHash f)) || negb (bool_decide (parseUint16 (trim0x (lf_ToBlock f)) = Some (2 ^ 64 - 1))).

(** Values that are not negative. *)
Definition tameObject (o : ethCallObject) : bool := 0 <=? default 0 (match co_Value o with Some q => q | None => Some 0 end).

Section Methods.
Context `{Crypto} `{Bn256} {D S : Type} `{KVLaws D} (net : network) (Hn : wf_network net) (env : Env D) (errorText : error -> list byte).
Context (onTx : option (Transaction -> act D S unit)) (fuel : nat) (Hfuel : maxLogRange <= Z.of_nat fuel).
Context (Keep : Shared D -> Prop) (HK : keeps net env Keep).
Context (Hhook : forall send tx, onTx = Some send -> settles Keep (send tx) (fun _ => True)).

Abbreviation settles := (settles (S := S) Keep).
Abbreviation any := (fun _ => True).

Lemma headHeight_settles : settles (headHeight env) (fun h => 0 <= h < 2 ^ 63).
Proof.
  apply (settles_look net env Keep HK). intros s h Hs [= <-]. by apply (Head_range net Hn), (sh_chain _ _ (sv_shared _ _ Hs)).
Qed.

Lemma chainCall_settles from to data gas : 0 <= gas <= maxGas -> len data < 2 ^ 62 -> settles (chainCall env from to data gas) any.
Proof.
  intros Hg Hd. apply (settles_shared net env Keep HK). intros k s Hs. eexists s, _. split; [done|]. split; [done|].
  destruct (head_ready net Hn (chain s)) as (st & _ & Es & Hrd & _); [apply (kp_served _ _ _ HK s Hs)|].
  unfold chain_Call, Call. rewrite Es. set (cp := State_Copy st) in *.
  destruct (Run_State None (State_GetCode cp to) data gas (probeContext from 0 to) cp) as (r & s' & -> & _); try done.
  - by eapply vm_ready_code_len.
  - right. done.
  - by destruct (r_Err r).
Qed.

Lemma chainEstimate_settles from to data value : 0 <= default 0 value -> len data < 2 ^ 59 -> settles (chainEstimate env from to data value) any.
Proof.
  intros Hv Hd. apply (settles_shared net env Keep HK). intros k s Hs. eexists s, _. split; [done|]. split; [done|].
  destruct (head_ready net Hn (chain s)) as (st & _ & Es & Hrd & _); [apply (kp_served _ _ _ HK s Hs)|].
  unfold chain_EstimateGas. rewrite Es.
  pose proof (EstimateGas_spec from to data (default 0 value) (State_Copy st) Hrd ltac:(by eexists) Hv Hd value 30000000 ltac:(done) eq_refl) as He.
  by destruct (EstimateGas _ _ _ _ _ _) as [[]|[]| |].
Qed.

Lemma addLocal_settles tx : admits Keep -> settles (addLocal env tx) any.
Proof.
  intros Ha. apply (settles_shared net env Keep HK). intros k s Hs. specialize (Ha s tx (chainID (chain s)) (poolOrders env k 0 0) Hs).
  destruct (AddLocal _ _ _ _) as [p r]. eexists _, _. split; [done|]. split; [done|]. by destruct r.
Qed.

Lemma submit_settles tx : admits Keep -> settles (submit env errorText onTx tx) any.
Proof.
  intros Ha. apply (settles_bind_look net env Keep HK). intros s st _ _.
  eapply settles_bind_any; [by eapply settles_serverError, settles_res|]. intros _.
  eapply settles_bind_any; [by eapply settles_serverError, addLocal_settles|]. intros _.
  eapply settles_bind_any; [|intros _; by apply settles_ret].
  destruct onTx as [send|] eqn:E; [eapply settles_attempt_any; by apply Hhook|by apply settles_ret].
Qed.

Lemma findTx_settles h : settles (findTx env h) any.
Proof.
  eapply settles_bind_any; [eapply settles_attempt_any, (settles_chain net env Keep HK), (TxByHash_reads net Hn)|]. intros [e|[tx loc]].
  - destruct e; try by apply settles_fail. apply (settles_bind_look net env Keep HK). intros. by apply settles_ret.
  - by apply settles_ret.
Qed.

Lemma orNone_settles {A} (c : op D A) (Post : A -> Prop) : reads net c Post -> settles (orNone env (fun _ => c)) any.
Proof. intros Hc. by eapply settles_weaken; [apply (settles_orNone net env Keep HK); exact Hc|]. Qed.

Lemma chain_settles {A} (c : op D A) (Post : A -> Prop) : reads net c Post -> settles (on_chain env (fun _ => c)) any.
Proof. intros Hc. by eapply settles_weaken; [apply (settles_chain net env Keep HK); exact Hc|]. Qed.

Lemma Quantity_U64_range q : is_u64 (Quantity_U64 q).
Proof. destruct q as [z|]; cbn; [apply is_u64_u64'|done]. Qed.

#[local] Hint Resolve BlockByHash_reads BlockByHeight_reads TxByHash_reads ReceiptByTxHash_reads ReceiptsByHeight_reads Quantity_U64_range : rpc.

(** The steps of a method one after the other. *)
Ltac settle :=
  repeat first
    [ progress intros
    | apply settles_ret; done
    | apply settles_fail
    | apply settles_res; done
    | apply settles_bind_res
    | apply (settles_bind_look net env Keep HK)
    | apply settles_bind_any; [first [apply findTx_settles | eapply orNone_settles; eauto with rpc | eapply chain_settles; eauto with rpc]|]
    | case_match ].

Lemma ChainID_settles params : settles (ChainID env params) any.
Proof. unfold ChainID. settle. Qed.

Lemma BlockNumber_settles params : settles (BlockNumber env params) any.
Proof. unfold BlockNumber, headHeight. settle. Qed.

Lemma GetBalance_settles params : settles (GetBalance env errorText params) any.
Proof. unfold GetBalance. settle. Qed.

Lemma GetNonce_settles params : settles (GetNonce env errorText params) any.
Proof.
  apply settles_bind_res. intros [|x rest] _; [by apply settles_res|]. apply settles_bind_res. intros addr _.
  apply (settles_bind_look net env Keep HK). intros s base Hs Eb. destruct (match rest with [] => _ | _ => _ end); [|by apply settles_ret].
  assert (is_u64 base) as Hb.
  { destruct (head_ready net Hn (chain s)) as (st & Est & _ & _ & Hu); [apply Hs|]. unfold NonceAt in Eb. rewrite Est in Eb. by injection Eb as <-. }
  apply (settles_bind_look net env Keep HK). intros s' next Hs' [= <-].
  destruct (PendingNonce_gap (pool s') addr base (sv_pool _ _ Hs') Hb) as (k & -> & _). by apply settles_ret.
Qed.

Lemma GetBlockByNumber_settles params : settles (GetBlockByNumber env errorText params) any.
Proof. unfold GetBlockByNumber. settle. Qed.

Lemma GetBlockByHash_settles params : settles (GetBlockByHash env errorText params) any.
Proof. unfold GetBlockByHash. settle. Qed.

Lemma SendTransaction_settles params : admits Keep -> settles (SendTransaction env errorText onTx params) any.
Proof. intros Ha. apply settles_bind_res. intros a _. by apply submit_settles. Qed.

Lemma GetTransactionByHash_settles params : settles (GetTransactionByHash env errorText params) any.
Proof. unfold GetTransactionByHash. settle. Qed.

Lemma GetTransactionReceipt_settles params : settles (GetTransactionReceipt env errorText params) any.
Proof. unfold GetTransactionReceipt. settle. Qed.

Lemma TxPoolStatus_settles params : settles (TxPoolStatus env params) any.
Proof. unfold TxPoolStatus. settle. Qed.

Lemma EthGetTransactionByHash_settles params : settles (EthGetTransactionByHash env errorText params) any.
Proof. unfold EthGetTransactionByHash. settle. Qed.

Lemma EthSendRawTransaction_settles params : admits Keep -> settles (EthSendRawTransaction env errorText onTx params) any.
Proof. intros Ha. do 2 (apply settles_bind_res; intros ? _). by apply submit_settles. Qed.

Lemma EthGetTransactionReceipt_settles params : settles (EthGetTransactionReceipt env errorText params) any.
Proof.
  apply settles_bind_res. intros h _. eapply settles_bind; [eapply (settles_orNone net env Keep HK), (ReceiptByTxHash_reads net Hn)|].
  intros [[r loc]|] Hr; [|by apply settles_ret]. specialize (Hr _ eq_refl). cbn [snd] in Hr. settle.
Qed.

Lemma NetVersion_settles params : settles (NetVersion env params) any.
Proof. unfold NetVersion. settle. Qed.

Lemma GetCode_settles params : settles (GetCode env errorText params) any.
Proof. unfold GetCode. settle. Qed.

Lemma GetStorageAt_settles params : settles (GetStorageAt env errorText params) any.
Proof. unfold GetStorageAt. settle. Qed.

Lemma EthGetBlockByHash_settles params : settles (EthGetBlockByHash env errorText params) any.
Proof. unfold EthGetBlockByHash. settle. Qed.

(** A request within the size limit. *)
Definition fits (params : option json) : Prop := bounded (Z.to_nat maxBodyBytes) params.

Lemma data_fits (d : list byte) : (length d <= Z.to_nat maxBodyBytes)%nat -> len d < 2 ^ 59.
Proof. unfold len. assert (maxBodyBytes = 1048576) as -> by done. lia. Qed.

Lemma Call_settles params : fits params -> settles (Call_ env errorText params) any.
Proof.
  intros Hp. apply settles_bind_res. intros a Ea. apply (decode1_wide _ _ _ _ _ _ (callArgsC_wide _) Hp) in Ea. apply data_fits in Ea.
  apply settles_bind_any; [|intros; by apply settles_ret]. apply settles_serverError, chainCall_settles; [apply cappedCallGas_range|lia].
Qed.

Lemma EthCall_settles params : fits params -> settles (EthCall env errorText params) any.
Proof.
  intros Hp. apply settles_bind_res. intros a Ea. apply (decode1_wide _ _ _ _ _ _ (callObjectC_wide _) Hp) in Ea. apply data_fits in Ea.
  destruct (co_To a); [|apply settles_fail]. apply settles_bind_any; [|intros; by apply settles_ret].
  apply settles_serverError, chainCall_settles; [apply cappedCallGas_range|lia].
Qed.

Lemma EthEstimateGas_settles params :
  fits params -> (forall o, decode1 errorText callObjectC params = Ok o -> tameObject o = true) ->
  settles (EthEstimateGas env errorText params) any.
Proof.
  intros Hp Ht. apply settles_bind_res. intros o Eo. specialize (Ht o Eo). unfold tameObject in Ht.
  apply (decode1_wide _ _ _ _ _ _ (callObjectC_wide _) Hp) in Eo. apply data_fits in Eo.
  apply settles_bind_any; [|intros; by apply settles_ret]. apply chainEstimate_settles; [by apply Z.leb_le|done].
Qed.

Lemma EthGetBlockByNumber_settles params : settles (EthGetBlockByNumber env errorText params) any.
Proof.
  apply settles_bind_res. intros [tag full] _. apply (settles_bind _ _ _ is_u64).
  - destruct (isLatest tag).
    { eapply settles_weaken; [apply headHeight_settles|]. unfold is_u64. intros. lia. }
    destruct (bool_decide _); [by apply settles_ret|]. destruct (parseUint16 _) eqn:E; [|by apply settles_res].
    apply settles_ret. by eapply parseUint16_range.
  - intros h Hh. settle.
Qed.

(** ** eth_getLogs *)

Lemma scanLogs_settles k match_ h to out :
  is_u64 h -> to < 2 ^ 64 - 1 -> to - h < Z.of_nat k -> settles (scanLogs env k match_ h to out) any.
Proof.
  revert h out. induction k as [|k IH]; intros h out Hh Hto Hk; cbn [scanLogs]; (destruct (Z.ltb_spec to h); [by apply settles_ret|]); [lia|].
  apply settles_bind_any; [eapply orNone_settles; eauto with rpc|]. intros r. unfold is_u64 in Hh.
  rewrite (u64_small (h + 1)) by lia. apply IH; unfold is_u64; lia.
Qed.

Lemma resolveLogHeight_range tag head def h :
  0 <= head < 2 ^ 63 -> 0 <= def < 2 ^ 63 -> resolveLogHeight tag head def = Ok h ->
  is_u64 h /\ (parseUint16 (trim0x tag) <> Some (2 ^ 64 - 1) -> h < 2 ^ 64 - 1).
Proof.
  intros Hh Hd. unfold resolveLogHeight, is_u64. destruct (bool_decide (tag = [])); [intros [= <-]; lia|].
  destruct (isLatest tag); [intros [= <-]; lia|]. destruct (bool_decide _); [intros [= <-]; lia|].
  destruct (parseUint16 (trim0x tag)) as [v|] eqn:E; [|done]. intros [= <-]. apply parseUint16_range in E. unfold is_u64 in E.
  split; [done|]. intros Hne. assert (v <> 2 ^ 64 - 1) by congruence. lia.
Qed.

Lemma logRange_settles f :
  tameFilter f = true -> settles (logRange env f) (fun r => is_u64 (fst r) /\ fst r <= snd r < 2 ^ 64 - 1 /\ snd r - fst r < maxLogRange).
Proof.
  intros Ht. assert (maxLogRange = 10000) as EM by done. unfold logRange. destruct (lf_BlockHash f) as [h|] eqn:Eh.
  - destruct (_ || _); [apply settles_fail|]. eapply settles_bind; [eapply (settles_orNone net env Keep HK), (BlockByHash_reads net Hn)|].
    intros [b|] Hb; [|apply settles_fail]. specialize (Hb b eq_refl). unfold Block_Height in Hb. apply settles_ret. unfold is_u64. cbn. lia.
  - assert (parseUint16 (trim0x (lf_ToBlock f)) <> Some (2 ^ 64 - 1)) as Hto.
    { unfold tameFilter in Ht. rewrite Eh in Ht. destruct (bool_decide_reflect (parseUint16 (trim0x (lf_ToBlock f)) = Some (2 ^ 64 - 1))); done. }
    eapply settles_bind; [apply headHeight_settles|]. intros head Hh. cbv beta in Hh. apply settles_bind_res. intros from Ef.
    apply settles_bind_res. intros to Et. apply resolveLogHeight_range in Ef as [Hf _]; [|done|lia].
    apply resolveLogHeight_range in Et as [_ Hlt]; [|done..]. specialize (Hlt Hto). unfold is_u64 in *.
    destruct (Z.ltb_spec to from); [apply settles_fail|]. rewrite u64_small by lia.
    destruct (Z.leb_spec maxLogRange (to - from)); [apply settles_fail|]. apply settles_ret. cbn. lia.
Qed.

Lemma EthGetLogs_settles params :
  (forall f, decode1 errorText logFilterC params = Ok f -> tameFilter f = true) -> settles (EthGetLogs env errorText fuel params) any.
Proof.
  intros Ht. apply settles_bind_res. intros f Ef. specialize (Ht f Ef). do 2 (apply settles_bind_res; intros ? _).
  eapply settles_bind; [by apply logRange_settles|]. intros [from to] (Hu & Hle & Hr). cbn [fst snd] in *.
  apply settles_bind_any; [|intros; by apply settles_ret]. apply scanLogs_settles; [done|lia|lia].
Qed.

End Methods.
