(* ===== verification/RpcTable.v ===== *)
(** * RPC: the server answers

    Every method of the table settles, so the server answers every request
    within the limits, one response for each call, under its id. *)
From stdpp Require Import base numbers list gmap.
From Stdlib Require Import ZArith Lia Strings.Byte.
From Stdlib Require Strings.String.
Import Strings.String.StringSyntax.
From S2P Require Import Prelude Common Types VmBase Precompiles Vm State Transition Json JsonCodec JsonWide Store Schema SchemaProofs Wire Mempool.
From S2P Require Import Genesis Blockchain ChainInv ChainOpen ChainProps Scorer P2p P2pProofs TxGossip Pool PoolHttp.
From S2P Require Import Rpc RpcApi Net RpcGate Faucet NodeHttp RpcServe.
#[local] Open Scope Z_scope.
#[local] Open Scope list_scope.
#[local] Open Scope act_scope.

(** ** What a body asks for *)

(** The calls of a body and whether they are a batch; [None]: it is refused. *)
Definition asks (data : list byte) : option (bool * list request) :=
  if maxBodyBytes <? len data then None
  else if Byte.eqb (firstNonSpace data) x5b then
    match decodeJSON (listC requestC) data with
    | Ok reqs => if maxBatchLength <? len reqs then None else Some (true, reqs)
    | _ => None
    end
  else match decodeJSON requestC data with Ok req => Some (false, [req]) | _ => None end.

Definition calls (data : list byte) : list request := match asks data with Some (_, reqs) => reqs | None => [] end.

(** The calls that end: no scan of logs up to the last uint64, no estimate for a negative value. *)
Definition tameRequest (errorText : error -> list byte) (r : request) : bool :=
  if bool_decide (rq_Method r = str "eth_getLogs") then
    match decode1 errorText logFilterC (rq_Params r) with Ok f => tameFilter f | _ => true end
  else if bool_decide (rq_Method r = str "eth_estimateGas") then
    match decode1 errorText callObjectC (rq_Params r) with Ok o => tameObject o | _ => true end
  else true.

(** The calls that hand a transaction to the pool. *)
Definition submits (r : request) : bool := bool_decide (rq_Method r ∈ [str "chain_sendTransaction"; str "eth_sendRawTransaction"]).

(** A response to a call: under the call's id. *)
Definition responseTo (req : request) (out : json) : Prop :=
  exists res, out = response_MarshalJSON res /\ rs_ID res = default JNull (rq_ID req).

(** What is written for a body. *)
Definition answered (data : list byte) (rep : reply) : Prop :=
  match asks data with
  | None => exists code msg, code ∈ [CodeInvalidRequest; CodeParseError] /\ rep = writeJSON (response_MarshalJSON (rpcFailure code msg JNull))
  | Some (batch, reqs) => exists outs, Forall2 responseTo reqs outs
      /\ (if batch then rep = writeJSON (JArr outs) else exists out, outs = [out] /\ rep = writeJSON out)
  end.

(** ** The server *)

Section Answers.
Context {D S : Type} (errorText : error -> list byte) (Keep : Shared D -> Prop).

(** The action returns. *)
Definition answers {A} (c : act D S A) (Post : A -> Prop) : Prop := forall n, Keep (shared n) ->
  exists n' a, c n = (n', Returns a) /\ Keep (shared n') /\ Post a.

Lemma answers_ret {A} (a : A) (Post : A -> Prop) : Post a -> answers (act_ret a) Post.
Proof. intros Ha n Hk. by exists n, a. Qed.

Lemma answers_bind {A B} (c : act D S A) (k : A -> act D S B) Mid Post :
  answers c Mid -> (forall a, Mid a -> answers (k a) Post) -> answers (act_bind c k) Post.
Proof. intros Hc Hk n Hn. destruct (Hc n Hn) as (n1 & a & E & Hk1 & Ha). unfold act_bind. rewrite E. by apply Hk. Qed.

(** Behind the firewall a method that settles always has an outcome. *)
Lemma invoke_answers (h : Handler D S) params : settles Keep (h params) (fun _ => True) -> answers (attempt (invoke h params)) (fun _ => True).
Proof.
  intros Hh n Hk. destruct (Hh n Hk) as (n' & r & E & Hk' & Hr). unfold attempt, invoke. rewrite E. destruct r as [a|e| |]; [..|done]; by eexists _, _.
Qed.

Context (srv : Server D S) (Ok_ : request -> Prop).
Context (Htable : forall req h, Ok_ req -> srv !! rq_Method req = Some h -> settles Keep (h (rq_Params req)) (fun _ => True)).

Lemma dispatch_answers req : Ok_ req -> answers (dispatch errorText srv req) (fun res => rs_ID res = default JNull (rq_ID req)).
Proof.
  intros Hr. unfold dispatch. destruct (negb _); [by apply answers_ret|]. destruct (srv !! rq_Method req) as [h|] eqn:E; [|by apply answers_ret].
  eapply answers_bind; [by apply invoke_answers, Htable|]. intros [e|res] _; by apply answers_ret.
Qed.

Lemma dispatchBatch_answers reqs total : Forall Ok_ reqs -> answers (dispatchBatch errorText srv reqs total) (Forall2 responseTo reqs).
Proof.
  intros Hr. revert total. induction Hr as [|req reqs Hreq _ IH]; intros total; cbn [dispatchBatch]; [by apply answers_ret|].
  apply (answers_bind _ _ (fun res => rs_ID res = default JNull (rq_ID req))).
  - destruct (_ <=? _); [by apply answers_ret|by apply dispatch_answers].
  - intros res Hres. eapply answers_bind; [apply IH|]. intros outs Ho. apply answers_ret. constructor; [by exists res|done].
Qed.

Lemma ServeHTTP_answers data : Forall Ok_ (calls data) -> answers (Server_ServeHTTP errorText srv POST data) (answered data).
Proof.
  unfold calls, answered, Server_ServeHTTP, asks. rewrite bool_decide_eq_true_2 by done. cbn [negb]. intros Hall.
  destruct (maxBodyBytes <? len data).
  { apply answers_ret. eexists _, _. split; [|done]. apply list_elem_of_In. by left. }
  assert (forall msg, answers (A := reply) (act_ret (writeJSON (response_MarshalJSON (rpcFailure CodeParseError msg JNull))))
    (fun rep => exists code msg, code ∈ [CodeInvalidRequest; CodeParseError] /\ rep = writeJSON (response_MarshalJSON (rpcFailure code msg JNull)))) as Hparse.
  { intros msg. apply answers_ret. eexists _, _. split; [|done]. apply list_elem_of_In. right. by left. }
  destruct (Byte.eqb (firstNonSpace data) x5b).
  - destruct (decodeJSON (listC requestC) data) as [reqs| |]; [|apply Hparse..]. destruct (maxBatchLength <? len reqs).
    { apply answers_ret. eexists _, _. split; [|done]. apply list_elem_of_In. by left. }
    eapply answers_bind; [by apply dispatchBatch_answers|]. intros outs Ho. apply answers_ret. by exists outs.
  - destruct (decodeJSON requestC data) as [req| |]; [|apply Hparse..]. apply Forall_cons in Hall as [Hreq _].
    eapply answers_bind; [by apply dispatch_answers|]. intros res Hres. apply answers_ret. exists [response_MarshalJSON res].
    split; [constructor; [by exists res|done]|by eexists].
Qed.

End Answers.

(** The parameters of the calls of a body are within its size. *)
Lemma calls_fit data : Forall (fun r => fits (rq_Params r)) (calls data).
Proof.
  unfold calls, asks. destruct (Z.ltb_spec maxBodyBytes (len data)) as [|Hl]; [by apply Forall_nil|].
  assert (length data <= Z.to_nat maxBodyBytes)%nat as HN by (unfold len in Hl; lia).
  assert (forall r, bounded (length data) (rq_Params r) -> fits (rq_Params r)) as Hup.
  { intros r Hb j Ej. eapply jbound_mono; [exact HN|]. by apply Hb. }
  destruct (Byte.eqb (firstNonSpace data) x5b).
  - destruct (decodeJSON (listC requestC) data) as [reqs| |] eqn:E; [|by apply Forall_nil..]. destruct (_ <? _); [by apply Forall_nil|].
    apply (decodeJSON_wide _ _ _ _ (listC_wide _ _ _ (requestC_wide _))) in E. eapply Forall_impl; [exact E|]. intros r. apply Hup.
  - destruct (decodeJSON requestC data) as [req| |] eqn:E; [|by apply Forall_nil..].
    apply (decodeJSON_wide _ _ _ _ (requestC_wide _)) in E. constructor; [by apply Hup|done].
Qed.

(** ** The table *)

Section Table.
Context `{Crypto} `{Bn256} {D : Type} `{KVLaws D} (net : network) (Hn : wf_network net) (env : Env D) (errorText : error -> list byte).
Context (fuel : nat) (Hfuel : maxLogRange <= Z.of_nat fuel).
Context (coinbase : Address) (networked : bool) (peerCount : option (nat -> Z)) (hashCount : nat -> Z) (cfg : Config).
Context (Keep : Shared D -> Prop) (HK : keeps net env Keep).

Abbreviation srv := (rpcServer env errorText fuel coinbase networked peerCount hashCount cfg).

Lemma broadcaster_settles send (tx : Transaction) : broadcaster env networked = Some send -> settles (S := Port) Keep (send tx) (fun _ => True).
Proof.
  unfold broadcaster. destruct networked; [|done]. intros [= <-] n Hk. unfold zoom, Broadcast, ask. cbn [own shared tick events].
  eexists _, _. split; [done|]. split; [done|]. by destruct (publish env (tick n) _).
Qed.

Lemma miningStats_settles params : settles (S := Port) Keep (chain_miningStats env coinbase peerCount hashCount cfg params) (fun _ => True).
Proof.
  apply settles_bind_any; [destruct peerCount; [by apply settles_ask|by apply settles_ret]|]. intros peers.
  do 2 (apply (settles_bind_look net env Keep HK); intros ? ? _ _).
  intros n Hk. unfold get_own, ask, act_ret, act_bind. cbn [own shared tick events]. by eexists _, _.
Qed.

(** A call that is safe to make: it fits, it is tame, and it hands over a transaction only where one may enter the pool. *)
Definition callable (req : request) : Prop :=
  fits (rq_Params req) /\ tameRequest errorText req = true /\ (submits req = true -> admits Keep).

Lemma table_settles req h : callable req -> srv !! rq_Method req = Some h -> settles Keep (h (rq_Params req)) (fun _ => True).
Proof.
  intros (Hfit & Htame & Hsub) E. pose proof broadcaster_settles as Hhook.
  assert (forall f, rq_Method req = str "eth_getLogs" -> decode1 errorText logFilterC (rq_Params req) = Ok f -> tameFilter f = true) as Hf.
  { intros f Em Ef. unfold tameRequest in Htame. rewrite Em, Ef in Htame. done. }
  assert (forall o, rq_Method req = str "eth_estimateGas" -> decode1 errorText callObjectC (rq_Params req) = Ok o -> tameObject o = true) as Ho.
  { intros o Em Eo. unfold tameRequest in Htame. rewrite Em, Eo in Htame. done. }
  assert (rq_Method req = str "chain_sendTransaction" \/ rq_Method req = str "eth_sendRawTransaction" -> admits Keep) as Ha.
  { intros Em. apply Hsub. unfold submits. apply bool_decide_eq_true_2. destruct Em as [-> | ->]; [by left|by right; left]. }
  unfold rpcServer, API_Register, registerEth, Register, NewServer, Rpc.Server in E. cbn [fold_left fst snd] in E.
  repeat (apply lookup_insert_Some in E as [[Em <-]|[_ E]]; [symmetry in Em|]); [..|by rewrite lookup_empty in E].
  all: first
    [ by eapply ChainID_settles | by eapply BlockNumber_settles | by eapply GetBalance_settles | by eapply GetNonce_settles
    | by eapply GetBlockByNumber_settles | by eapply GetBlockByHash_settles | by eapply SendTransaction_settles; eauto
    | by eapply GetTransactionByHash_settles | by eapply GetTransactionReceipt_settles | by eapply Call_settles
    | by eapply TxPoolStatus_settles | by eapply NetVersion_settles | by apply settles_ret | by eapply GetCode_settles
    | by eapply GetStorageAt_settles | by eapply EthCall_settles | by eapply EthEstimateGas_settles; eauto
    | by eapply EthGetBlockByNumber_settles | by eapply EthGetBlockByHash_settles | by eapply EthSendRawTransaction_settles; eauto
    | by eapply EthGetTransactionByHash_settles | by eapply EthGetTransactionReceipt_settles | by eapply EthGetLogs_settles; eauto
    | apply miningStats_settles ].
Qed.

Lemma rpcServer_answers data :
  Forall (fun r => tameRequest errorText r = true) (calls data) -> (existsb submits (calls data) = true -> admits Keep) ->
  answers Keep (Server_ServeHTTP errorText srv POST data) (answered data).
Proof.
  intros Ht Hs. apply (ServeHTTP_answers errorText Keep srv callable table_settles). pose proof (calls_fit data) as Hf.
  rewrite Forall_forall in *. intros r Hr. split_and!; [by apply Hf|by apply Ht|]. intros E. apply Hs, existsb_exists. exists r. split; [by apply list_elem_of_In|done].
Qed.

End Table.
