(* ===== verification/RpcLogs.v ===== *)
(** * Logs and receipts over RPC (rpc/logs.go, rpc/eth.go)

    What [eth_getLogs] returns is the entries of the canonical blocks of the
    range that match the filter, numbered through each block; a transaction's
    receipt lists the entries of that transaction, numbered the same way. *)
From stdpp Require Import base numbers list gmap.
From Stdlib Require Import ZArith Lia Strings.Byte.
From Stdlib Require Strings.String.
Import Strings.String.StringSyntax.
From S2P Require Import Prelude Common Types Rlp EthTx VmBase Precompiles Vm State Transition TransitionProofs Json JsonCodec JsonWide Store Schema SchemaProofs Wire Mempool MempoolProofs.
From S2P Require Import Genesis Blockchain ChainInv ChainMove ChainStep ChainProofs ChainInsert ChainOpen ChainProps ChainExtend Scorer P2p P2pProofs Rpc RpcApi.
From S2P Require Import RpcServe GossipProps MiningProps.
#[local] Open Scope Z_scope.
#[local] Open Scope list_scope.
#[local] Open Scope act_scope.

(** ** The entries of a block *)

(** A log, the place of its transaction and its own number in the block. *)
Record entry : Type := mkEntry { en_number : nat; en_tx : nat; en_log : Log }.

(** The logs of the receipts in order, with the place of the receipt, the first at [i]. *)
Fixpoint logsFrom (i : nat) (rs : list Receipt) : list (nat * Log) :=
  match rs with
  | [] => []
  | r :: rs => map (pair i) (Logs r) ++ logsFrom (S i) rs
  end.

Definition entries (rs : list Receipt) : list entry := imap (fun k p => mkEntry k (fst p) (snd p)) (logsFrom 0 rs).

(** An entry as it is sent. *)
Definition rendered `{Crypto} (b : Block) (e : entry) : json :=
  ethLog (en_log e) (Height (b_Header b)) (Block_Hash b) (match b_Txs b !! en_tx e with Some tx => tx_Hash tx | None => ZeroHash end)
    (Z.of_nat (en_tx e)) (u64 (Z.of_nat (en_number e))).

(** What a filter lets through: an address of the set, and at every position a topic that is allowed there. *)
Definition passes (addrs : option (gset Address)) (topics : list (option (list Hash))) (l : Log) : Prop :=
  (forall set, addrs = Some set -> l_Address l ∈ set)
  /\ forall i want, topics !! i = Some want -> exists t, l_Topics l !! i = Some t /\ forall allowed, want = Some allowed -> t ∈ allowed.

Lemma topicsMatch_spec filter topics :
  topicsMatch filter topics = true <->
  forall i want, filter !! i = Some want -> exists t, topics !! i = Some t /\ forall allowed, want = Some allowed -> t ∈ allowed.
Proof.
  revert topics. induction filter as [|w filter IH]; intros topics; [split; [intros _ i want Hw; by rewrite lookup_nil in Hw|done]|].
  destruct topics as [|t topics].
  { split; [by destruct w|]. intros Hall. destruct (Hall O w eq_refl) as (t & Ht & _). done. }
  assert (topicsMatch (w :: filter) (t :: topics) = true <-> (forall allowed, w = Some allowed -> t ∈ allowed) /\ topicsMatch filter topics = true) as ->.
  { cbn [topicsMatch]. destruct w as [allowed|]; [|naive_solver]. rewrite andb_true_iff. f_equiv. rewrite existsb_exists. split.
    - intros (x & Hx & E) a [= <-]. apply array_eqb_eq in E as ->. by apply list_elem_of_In.
    - intros Ht. exists t. split; [by apply list_elem_of_In, Ht|by apply array_eqb_eq]. }
  rewrite IH. split.
  - intros [Hw Hf] [|i] want; cbn; [intros [= <-]; by exists t|apply Hf].
  - intros Hall. split; [|intros i want; apply (Hall (S i))]. intros allowed ->. destruct (Hall O _ eq_refl) as (t' & [= <-] & Ht). by apply Ht.
Qed.

Lemma logMatches_spec l addrs topics : logMatches l addrs topics = true <-> passes addrs topics l.
Proof.
  unfold logMatches, passes. rewrite !andb_true_iff, topicsMatch_spec. split.
  - intros [[Ha _] Ht]. split; [|done]. intros set ->. by apply bool_decide_eq_true in Ha.
  - intros [Ha Ht]. split_and!; [..|done].
    + destruct addrs as [set|]; [|done]. by apply bool_decide_eq_true, Ha.
    + unfold len. destruct (Z.leb_spec (Z.of_nat (length topics)) (Z.of_nat (length (l_Topics l)))) as [|Hlt]; [done|].
      destruct (lookup_lt_is_Some_2 topics (length (l_Topics l))) as [w Hw]; [lia|]. destruct (Ht _ _ Hw) as (t & Hl & _).
      by rewrite lookup_ge_None_2 in Hl.
Qed.

(** ** The loops over a block's logs *)

Lemma receiptLogs_spec match_ render k logs :
  receiptLogs match_ render (u64 (Z.of_nat k)) logs
  = (concat (imap (fun j l => if match_ l then [render l (u64 (Z.of_nat (k + j)))] else []) logs), u64 (Z.of_nat (k + length logs))).
Proof.
  revert k. induction logs as [|l logs IH]; intros k; cbn [receiptLogs imap length]; [by rewrite Nat.add_0_r|].
  assert (u64 (u64 (Z.of_nat k) + 1) = u64 (Z.of_nat (S k))) as ->.
  { unfold u64. rewrite Zplus_mod_idemp_l. f_equal. lia. }
  rewrite IH. cbn [concat]. rewrite Nat.add_0_r. f_equal; [|f_equal; lia]. f_equal. f_equal. apply imap_ext. intros j x _. cbn.
  by rewrite Nat.add_succ_r.
Qed.

(** The entries from the [k]th on. *)
Definition entriesFrom (k : nat) (l : list (nat * Log)) : list entry := imap (fun j p => mkEntry (k + j) (fst p) (snd p)) l.

Definition matching (match_ : Log -> bool) (l : list entry) : list entry := filter (fun e => match_ (en_log e) = true) l.

Lemma entriesFrom_app k l1 l2 : entriesFrom k (l1 ++ l2) = entriesFrom k l1 ++ entriesFrom (k + length l1) l2.
Proof. unfold entriesFrom. rewrite imap_app. f_equal. apply imap_ext. intros j p _. cbn. f_equal. lia. Qed.

Lemma entriesFrom_cons k p l : entriesFrom k (p :: l) = mkEntry k (fst p) (snd p) :: entriesFrom (S k) l.
Proof.
  unfold entriesFrom. cbn [imap]. rewrite Nat.add_0_r. f_equal. apply imap_ext. intros j q _. cbn. f_equal. lia.
Qed.

Lemma blockLogs_spec `{Crypto} match_ b i k rs :
  blockLogs match_ b i (u64 (Z.of_nat k)) rs = map (rendered b) (matching match_ (entriesFrom k (logsFrom i rs))).
Proof.
  revert i k. induction rs as [|r rs IH]; intros i k; cbn [blockLogs logsFrom]; [done|]. rewrite receiptLogs_spec, IH.
  rewrite entriesFrom_app, length_map. unfold matching. rewrite filter_app, map_app. f_equal. clear IH.
  generalize (Logs r) as logs. intros logs. revert k. induction logs as [|l logs IH]; intros k; [done|].
  cbn [map imap concat]. rewrite entriesFrom_cons, filter_cons. cbn [en_log fst snd]. rewrite Nat.add_0_r.
  assert (imap ((fun j x => if match_ x then [ethLog x (Height (b_Header b)) (Block_Hash b) (match b_Txs b !! i with Some tx => tx_Hash tx | None => ZeroHash end)
      (Z.of_nat i) (u64 (Z.of_nat (k + j)))] else []) ∘ S) logs
    = imap (fun j x => if match_ x then [ethLog x (Height (b_Header b)) (Block_Hash b) (match b_Txs b !! i with Some tx => tx_Hash tx | None => ZeroHash end)
      (Z.of_nat i) (u64 (Z.of_nat (S k + j)))] else []) logs) as ->.
  { apply imap_ext. intros j x _. cbn. by rewrite Nat.add_succ_r. }
  rewrite IH. destruct (match_ l); [rewrite decide_True by done|rewrite decide_False by done]; done.
Qed.

Lemma blockLogs_entries `{Crypto} match_ b rs : blockLogs match_ b 0 0 rs = map (rendered b) (matching match_ (entries rs)).
Proof. exact (blockLogs_spec match_ b 0 0 rs). Qed.

(** ** The logs of one transaction *)

Lemma logsFrom_app i rs1 rs2 : logsFrom i (rs1 ++ rs2) = logsFrom i rs1 ++ logsFrom (i + length rs1) rs2.
Proof.
  revert i. induction rs1 as [|r rs1 IH]; intros i; cbn [logsFrom app length]; [by rewrite Nat.add_0_r|].
  rewrite IH, <- app_assoc. do 3 f_equal. lia.
Qed.

Lemma logsFrom_place i rs p : p ∈ logsFrom i rs -> (i <= fst p < i + length rs)%nat.
Proof.
  revert i. induction rs as [|r rs IH]; intros i; cbn [logsFrom length]; [by intros ?%not_elem_of_nil|].
  intros [Hp|Hp]%elem_of_app; [|apply IH in Hp; lia]. apply list_elem_of_In, in_map_iff in Hp as (l & <- & _). cbn. lia.
Qed.

Lemma entriesFrom_tx i k l : (forall p, p ∈ l -> fst p = i) -> filter (fun e => en_tx e = i) (entriesFrom k l) = entriesFrom k l.
Proof.
  revert k. induction l as [|p l IH]; intros k Hl; [done|]. rewrite entriesFrom_cons, filter_cons, decide_True by (apply Hl; by left).
  f_equal. apply IH. intros q Hq. apply Hl. by right.
Qed.

Lemma entriesFrom_others i k l : (forall p, p ∈ l -> fst p <> i) -> filter (fun e => en_tx e = i) (entriesFrom k l) = [].
Proof.
  revert k. induction l as [|p l IH]; intros k Hl; [done|]. rewrite entriesFrom_cons, filter_cons, decide_False by (apply Hl; by left).
  apply IH. intros q Hq. apply Hl. by right.
Qed.

(** How many logs come before those of the [i]th receipt. *)
Definition logsUpTo (i : nat) (rs : list Receipt) : nat := length (logsFrom 0 (take i rs)).

(** The entries of a transaction are its own logs, numbered from there. *)
Lemma entries_of_tx i rs r : rs !! i = Some r ->
  filter (fun e => en_tx e = i) (entries rs) = entriesFrom (logsUpTo i rs) (map (pair i) (Logs r)).
Proof.
  intros Hr. unfold logsUpTo. change (entries rs) with (entriesFrom 0 (logsFrom 0 rs)).
  pose proof (lookup_lt_Some _ _ _ Hr) as Hlt. rewrite <- (take_drop_middle rs i r Hr) at 1.
  rewrite logsFrom_app, length_take_le by lia. cbn [logsFrom]. rewrite !entriesFrom_app, !filter_app. rewrite !Nat.add_0_l.
  rewrite (entriesFrom_others _ _ (logsFrom 0 (take i rs))), (entriesFrom_others _ _ (logsFrom (S i) _)), app_nil_r, entriesFrom_tx; [done|..].
  - intros p [l [<- _]]%list_elem_of_In%in_map_iff. done.
  - intros p Hp%logsFrom_place. lia.
  - intros p Hp%logsFrom_place. rewrite length_take_le in Hp; lia.
Qed.

Lemma logsBefore_count rs n base :
  fold_left (fun base r => u64 (base + len (Logs r))) (take n rs) (u64 (Z.of_nat base)) = u64 (Z.of_nat (base + length (logsFrom 0 (take n rs)))).
Proof.
  assert (forall i l, length (logsFrom i l) = length (logsFrom 0 l)) as Hi.
  { intros i l. revert i. assert (forall i j, length (logsFrom i l) = length (logsFrom j l)) as Hij; [|by intros i].
    induction l as [|r l IH]; intros i j; cbn [logsFrom]; [done|]. rewrite !length_app, !length_map. by rewrite (IH (S i) (S j)). }
  revert base. generalize (take n rs) as l. clear n rs. induction l as [|r l IH]; intros base; cbn [fold_left logsFrom]; [by rewrite Nat.add_0_r|].
  assert (u64 (u64 (Z.of_nat base) + len (Logs r)) = u64 (Z.of_nat (base + length (Logs r)))) as ->.
  { unfold u64, len. rewrite Zplus_mod_idemp_l. f_equal. lia. }
  rewrite IH, length_app, length_map, (Hi 1%nat). f_equal. lia.
Qed.

(** ** On a node where nothing else runs *)

Section Alone.
Context `{Crypto} `{Bn256} {D S : Type} `{KVLaws D} (net : network) (Hn : wf_network net) (env : Env D) (Ha : alone env).

Abbreviation P := (n_headers net).
Abbreviation gb := (n_block net).

(** The node after a look at the chain. *)
Definition looking (n : Node D S) (bc' : Blockchain D) : Node D S := mkNode (own n) (with_chain bc' (shared n)) (1 + tick n)%nat (events n).

Lemma on_chain_alone {A} (c : op D A) n bc' r :
  c (chain (shared n)) = (bc', r) -> on_chain env (fun _ => c) n = (looking n bc', r).
Proof. intros E. unfold on_chain, on_shared. rewrite Ha, E. by rewrite Ha. Qed.

Lemma bind_returns {A B} (c : act D S A) (k : A -> act D S B) n n1 a : c n = (n1, Returns a) -> act_bind c k n = k a n1.
Proof. intros E. unfold act_bind. by rewrite E. Qed.

Lemma orNone_alone {A} (c : op D A) n bc' r :
  c (chain (shared n)) = (bc', r) -> (r <> Panics /\ r <> OutOfFuel) ->
  orNone env (fun _ => c) n = (looking n bc', Returns (match r with Returns a => Some a | _ => None end)).
Proof.
  intros E [Hp Hf]. unfold orNone, act_bind, attempt. rewrite (on_chain_alone c n bc' r E). by destruct r.
Qed.

Lemma looking_inv F canon n bc' : inv P gb F canon bc' -> inv P gb F canon (chain (shared (looking n bc'))).
Proof. done. Qed.

(** The blocks of a range of heights. *)
Definition range (chain : list Block) (from to : Z) : list Block := take (Z.to_nat (to + 1 - from)) (drop (Z.to_nat from) chain).

(** What the scan collects of the blocks. *)
Definition collected (match_ : Log -> bool) (blocks : list Block) (rss : list (list Receipt)) : list json :=
  concat (zip_with (fun b rs => map (rendered b) (matching match_ (entries rs))) blocks rss).

Lemma range_nil chain from to : to < from -> range chain from to = [].
Proof. intros Hlt. unfold range. by replace (Z.to_nat (to + 1 - from)) with O by lia. Qed.

Lemma range_step chain from to : 0 <= from <= to ->
  range chain from to = match chain !! Z.to_nat from with Some b => b :: range chain (from + 1) to | None => [] end.
Proof.
  intros Hf. unfold range. replace (Z.to_nat (to + 1 - from)) with (Datatypes.S (Z.to_nat (to + 1 - (from + 1)))) by lia.
  replace (Z.to_nat (from + 1)) with (Datatypes.S (Z.to_nat from)) by lia. generalize (Z.to_nat from) as i. clear Hf.
  generalize (Z.to_nat (to + 1 - (from + 1))) as k. intros k i. revert i chain. induction i as [|i IH]; intros [|b chain]; cbn; try done.
Qed.

Lemma range_beyond chain from to : 0 <= from -> chain !! Z.to_nat from = None -> range chain from to = [].
Proof. intros Hf Hl. unfold range. rewrite drop_ge; [by rewrite take_nil|]. by apply lookup_ge_None. Qed.

Lemma scanLogs_alone F canon k match_ h to out (n : Node D S) :
  inv P gb F canon (chain (shared n)) -> is_u64 h -> to < 2 ^ 64 - 1 -> to - h < Z.of_nat k ->
  exists n' rss, scanLogs env k match_ h to out n = (n', Returns (out ++ collected match_ (range (gb :: canon) h to) rss))
    /\ inv P gb F canon (chain (shared n')) /\ Forall2 receiptsOf (range (gb :: canon) h to) rss.
Proof.
  revert h out n. induction k as [|k IH]; intros h out n Hi Hh Hto Hk; cbn [scanLogs]; unfold is_u64 in Hh.
  { destruct (Z.ltb_spec to h); [|lia]. exists n, []. rewrite range_nil by done. split_and!; [by rewrite app_nil_r|done|done]. }
  destruct (Z.ltb_spec to h) as [Hlt|Hle].
  { exists n, []. rewrite range_nil by done. split_and!; [by rewrite app_nil_r|done|done]. }
  destruct (ReceiptsByHeight_inv net F canon h _ Hi Hh) as (bc' & r & E & Hi' & Hr). rewrite (u64_small (h + 1)) by lia.
  unfold act_bind. rewrite (orNone_alone _ n bc' r E) by (destruct ((gb :: canon) !! Z.to_nat h); [destruct Hr as (? & -> & _)|subst r]; done).
  rewrite range_step by lia. destruct ((gb :: canon) !! Z.to_nat h) as [b|] eqn:Eb.
  - destruct Hr as (rs & -> & _ & Hrs & _).
    destruct (IH (h + 1) (out ++ blockLogs match_ b 0 0 rs) (looking n bc') (looking_inv _ _ n bc' Hi') ltac:(unfold is_u64; lia) Hto ltac:(lia))
      as (n' & rss & Es & Hin & Hall).
    exists n', (rs :: rss). split; [|split; [done|by constructor]]. rewrite Es. cbn [collected zip_with concat]. rewrite blockLogs_entries, <- app_assoc. done.
  - subst r. destruct (IH (h + 1) out (looking n bc') (looking_inv _ _ n bc' Hi') ltac:(unfold is_u64; lia) Hto ltac:(lia)) as (n' & rss & Es & Hin & Hall).
    rewrite range_beyond in Es by (lia || (apply lookup_ge_None in Eb; apply lookup_ge_None; lia)).
    exists n', []. split; [|done]. rewrite Es. by destruct rss.
Qed.

(** A look at the head changes nothing but the count of accesses. *)
Lemma look_alone {A} (f : Shared D -> res A) (n : Node D S) a :
  f (shared n) = Ok a -> look env f n = (mkNode (own n) (shared n) (1 + tick n)%nat (events n), Returns a).
Proof. intros E. unfold look, on_shared. rewrite !Ha, E. done. Qed.

Lemma logRange_heights f head from to (n : Node D S) :
  lf_BlockHash f = None -> Block_Height (Head (chain (shared n))) = head ->
  resolveLogHeight (lf_FromBlock f) head 0 = Ok from -> resolveLogHeight (lf_ToBlock f) head head = Ok to ->
  0 <= from <= to -> to < 2 ^ 64 -> to - from < maxLogRange ->
  logRange env f n = (mkNode (own n) (shared n) (1 + tick n)%nat (events n), Returns (from, to)).
Proof.
  intros Eh Ehead Ef Et Hle Hto Hr. unfold logRange, headHeight. rewrite Eh. unfold act_bind at 1. erewrite look_alone by done. rewrite Ehead.
  unfold act_bind, act_res. rewrite Ef, Et. destruct (Z.ltb_spec to from); [lia|]. rewrite u64_small by lia.
  destruct (Z.leb_spec maxLogRange (to - from)); [lia|]. done.
Qed.

(** With a hash: the height of the block that has it. *)
Lemma logRange_hash F canon f h b (n : Node D S) :
  inv P gb F canon (chain (shared n)) -> lf_BlockHash f = Some h -> lf_FromBlock f = [] -> lf_ToBlock f = [] ->
  snd (BlockByHash h (chain (shared n))) = Returns b ->
  exists bc', inv P gb F canon bc' /\ 0 <= Height (b_Header b) < 2 ^ 63
    /\ logRange env f n = (looking n bc', Returns (Height (b_Header b), Height (b_Header b))).
Proof.
  intros Hi Eh Ef Et Eb. pose proof (blockLocked_reads _ _ F canon _ h _ (same_refl _) Hi) as Hr.
  destruct (BlockByHash h (chain (shared n))) as [bc' r] eqn:E. cbn [snd] in Eb. subst r. unfold BlockByHash in E. rewrite E in Hr.
  destruct Hr as (Hi' & _ & Hst & _). exists bc'. split; [done|]. split; [exact (stored_height _ _ _ Hst)|].
  unfold logRange. rewrite Eh, Ef, Et, bool_decide_eq_true_2 by done. cbn [negb orb]. unfold act_bind. by rewrite (orNone_alone (BlockByHash h) n bc' (Returns b) E).
Qed.

Lemma getLogs_scan F canon errorText fuel params f addrs topics from to (n n1 : Node D S) :
  maxLogRange <= Z.of_nat fuel -> decode1 errorText logFilterC params = Ok f ->
  parseAddressFilter (lf_Address f) = Ok addrs -> parseTopicFilter (lf_Topics f) = Ok topics ->
  logRange env f n = (n1, Returns (from, to)) -> inv P gb F canon (chain (shared n1)) ->
  is_u64 from -> to < 2 ^ 64 - 1 -> to - from < maxLogRange ->
  exists n' rss, EthGetLogs env errorText fuel params n
      = (n', Returns (JArr (collected (fun l => logMatches l addrs topics) (range (gb :: canon) from to) rss)))
    /\ Forall2 receiptsOf (range (gb :: canon) from to) rss.
Proof.
  intros Hfuel Ed Ea Et El Hi Hf Hto Hr.
  destruct (scanLogs_alone F canon fuel (fun l => logMatches l addrs topics) from to [] n1 Hi Hf Hto ltac:(lia)) as (n' & rss & Es & _ & Hall).
  exists n', rss. split; [|done]. unfold EthGetLogs, act_bind at 1, act_res at 1. rewrite Ed. unfold act_bind at 1, act_res at 1. rewrite Ea.
  unfold act_bind at 1, act_res at 1. rewrite Et. unfold act_bind at 1. rewrite El. unfold act_bind. by rewrite Es.
Qed.

(** ** Receipts *)

(** What is sent for the receipt of the [i]th transaction of a block, of receipts [rs]. *)
Record receiptOf (b : Block) (i : nat) (tx : Transaction) (from : Address) (rs : list Receipt) (r : Receipt) (m : goMap) : Prop := {
  ro_hash : m !! str "transactionHash" = Some (enc hashC (tx_Hash tx));
  ro_block : m !! str "blockHash" = Some (enc hashC (Block_Hash b));
  ro_number : m !! str "blockNumber" = Some (enc quantityC (QU (Block_Height b)));
  ro_index : m !! str "transactionIndex" = Some (enc quantityC (QU (Z.of_nat i)));
  ro_from : m !! str "from" = Some (enc addressC from);
  ro_to : m !! str "to" = Some (enc (ptrC addressC) (tx_To tx));
  ro_status : m !! str "status" = Some (enc quantityC (QU (Status r)));
  ro_gas : m !! str "gasUsed" = Some (enc quantityC (QU (r_GasUsed r)));
  ro_cumulative : m !! str "cumulativeGasUsed" = Some (enc quantityC (QU (CumulativeGasUsed r)));
  ro_logs : m !! str "logs" = Some (JArr (map (rendered b) (filter (fun e => en_tx e = i) (entries rs))));
  ro_contract : m !! str "contractAddress"
    = Some (enc (ptrC addressC) (match tx_To tx with Some _ => None | None => Some (createAddress from (tx_Nonce tx)) end));
}.

(** The logs of a receipt as they are sent. *)
Lemma receipt_logs b i tx rs r h :
  b_Txs b !! i = Some tx -> tx_Hash tx = h -> rs !! i = Some r -> len rs < 2 ^ 63 ->
  imap (fun j l => ethLog l (Block_Height b) (Block_Hash b) h (Z.of_nat i) (u64 (logsBefore rs (Z.of_nat i) + Z.of_nat j))) (Logs r)
  = map (rendered b) (filter (fun e => en_tx e = i) (entries rs)).
Proof.
  intros Htx Hh Hr Hlen. pose proof (lookup_lt_Some _ _ _ Hr) as Hlt. unfold len in Hlen. rewrite (entries_of_tx i rs r Hr).
  assert (logsBefore rs (Z.of_nat i) = u64 (Z.of_nat (logsUpTo i rs))) as ->.
  { unfold logsBefore. rewrite i64_small, Nat2Z.id by lia. exact (logsBefore_count rs i 0). }
  unfold entriesFrom. change (map (pair i) (Logs r)) with (pair i <$> Logs r). rewrite imap_fmap.
  match goal with |- _ = map ?f ?l => change (map f l) with (f <$> l) end. rewrite fmap_imap. apply imap_ext. intros j l _. cbn.
  unfold rendered. cbn [en_log en_tx en_number]. rewrite Htx, Hh. f_equal. unfold u64. rewrite Zplus_mod_idemp_l. f_equal. lia.
Qed.

Lemma canon_at F canon (bc : Blockchain D) b : inv P gb F canon bc -> b ∈ canon -> (gb :: canon) !! Z.to_nat (Block_Height b) = Some b.
Proof.
  intros Hi [j Hj]%list_elem_of_lookup_1. destruct (cc_read _ _ _ (inv_canonicalChain net F canon bc Hi) (1 + j)%nat b Hj) as [-> _]. by rewrite Nat2Z.id.
Qed.

(** The receipts of a canonical block, read by its height. *)
Lemma receipts_alone F canon (n : Node D S) b rs :
  inv P gb F canon (chain (shared n)) -> b ∈ canon -> goodBlock P b -> loadReceipts (db (chain (shared n))) (Block_Hash b) = Ok rs ->
  exists n', orNone env (fun _ => ReceiptsByHeight (Block_Height b)) n = (n', Returns (Some (rs, b))).
Proof.
  intros Hi Hb Hg Hld. pose proof (good_u64 P b Hg) as Hu. destruct (ReceiptsByHeight_inv net F canon _ _ Hi Hu) as (bc' & r & E & _ & Hr).
  rewrite (canon_at F canon _ b Hi Hb) in Hr. destruct Hr as (rs' & -> & _ & _ & Hld'). rewrite Hld in Hld'. injection Hld' as <-.
  exists (looking n bc'). by apply (orNone_alone _ n bc' _ E).
Qed.

Lemma created_ok tx from : tx_widths tx -> created tx from = Ok (match tx_To tx with Some _ => None | None => Some (createAddress from (tx_Nonce tx)) end).
Proof. intros Hw. unfold created. destruct (tx_To tx); [done|]. rewrite CreateAddress_createAddress; [done|]. apply Hw. Qed.

Lemma ethReceipt_alone F canon errorText params h (n : Node D S) :
  inv P gb F canon (chain (shared n)) -> decode1 errorText hashC params = Ok h ->
  (exists n', EthGetTransactionReceipt env errorText params n = (n', Returns JNull) /\ snd (TxByHash h (chain (shared n))) = Raises ErrUnknownTx)
  \/ exists n' b i tx from rs r m, mined canon h b i tx /\ Sender tx = Ok from /\ receiptsOf b rs /\ rs !! i = Some r
     /\ snd (TxByHash h (chain (shared n))) = Returns (tx, locationOf b i)
     /\ EthGetTransactionReceipt env errorText params n = (n', Returns (goMapJSON m)) /\ receiptOf b i tx from rs r m.
Proof.
  intros Hi Ed. unfold EthGetTransactionReceipt. rewrite (bind_returns _ _ n n h) by (unfold act_res; by rewrite Ed).
  destruct (found_inv net F canon h _ Hi) as [[Et Er]|(b & i & tx & rs & r & bc' & Hm & Hst & Hrs & Hr & Hld & Hi' & Ed' & Et & Er)].
  { left. eexists. rewrite Et, (bind_returns _ _ _ _ _ (orNone_alone _ n _ _ Er ltac:(done))). done. }
  right. destruct Hm as [Hb Htx Hh]. pose proof Hrs as (_ & _ & _ & _ & Hsnd). rewrite Forall_forall in Hsnd.
  destruct (Hsnd tx (list_elem_of_lookup_2 _ _ _ Htx)) as [from Hfrom]. destruct (receiptsOf_small net b rs Hrs (proj2 Hst)) as [Hsmall Elen].
  rewrite (bind_returns _ _ _ _ _ (orNone_alone _ n _ _ Er ltac:(done))).
  rewrite (bind_returns _ _ _ _ _ (orNone_alone (TxByHash h) (looking n _) bc' _ Et ltac:(done))).
  rewrite (bind_returns _ _ _ (looking (looking n (chain (shared n))) bc') from) by (unfold act_res; by rewrite Hfrom).
  destruct (receipts_alone F canon (looking (looking n (chain (shared n))) bc') b rs Hi' Hb (proj2 Hst)) as [n' En].
  { cbn. by rewrite Ed'. }
  rewrite (bind_returns _ _ _ _ _ En). cbn [locationOf BlockHeight BlockHash Index].
  rewrite (receipt_logs b i tx rs r h Htx Hh Hr) by lia. assert (tx_widths tx) as Hw.
  { destruct Hst as [_ [_ _ Ht]]. rewrite Forall_forall in Ht. by apply (Ht tx), (list_elem_of_lookup_2 _ i). }
  rewrite (bind_returns _ _ _ n' (match tx_To tx with Some _ => None | None => Some (createAddress from (tx_Nonce tx)) end))
    by (unfold act_res; by rewrite created_ok).
  eexists n', b, i, tx, from, rs, r, _. split; [by split|]. split_and!; [done..|by rewrite Et|done|]. subst h. split; reflexivity.
Qed.

End Alone.

(** ** The scan that never ends *)

Section Endless.
Context `{Crypto} `{Bn256} {D S : Type} `{KVLaws D} (net : network) (Hn : wf_network net) (env : Env D).
Context (Keep : Shared D -> Prop) (HK : keeps net env Keep).

Lemma orNone_returns {A} (c : op D A) (Post : A -> Prop) (n : Node D S) :
  reads net c Post -> Keep (shared n) -> exists n' o, orNone env (fun _ => c) n = (n', Returns o) /\ Keep (shared n').
Proof.
  intros Hc Hk. unfold orNone, act_bind, attempt, on_chain, on_shared.
  pose proof (kp_meanwhile _ _ _ HK (tick n) _ Hk) as Hs. destruct (Hc (chain (meanwhile env (tick n) (shared n)))) as (bc' & r & E & Hl & Hr).
  { apply (kp_served _ _ _ HK _ Hs). }
  rewrite E. destruct r as [a|e| |]; try done; eexists _, _; (split; [done|by apply (kp_looked _ _ _ HK)]).
Qed.

Lemma scanLogs_endless fuel match_ h out (n : Node D S) :
  is_u64 h -> Keep (shared n) -> snd (scanLogs env fuel match_ h (2 ^ 64 - 1) out n) = OutOfFuel.
Proof.
  revert h out n. induction fuel as [|fuel IH]; intros h out n Hh Hk; cbn [scanLogs].
  { destruct (Z.ltb_spec (2 ^ 64 - 1) h); [unfold is_u64 in Hh; lia|done]. }
  destruct (Z.ltb_spec (2 ^ 64 - 1) h); [unfold is_u64 in Hh; lia|].
  destruct (orNone_returns (ReceiptsByHeight h) _ n (ReceiptsByHeight_reads net Hn h Hh) Hk) as (n' & o & E & Hk'). unfold act_bind. rewrite E.
  apply IH; [apply is_u64_u64'|done].
Qed.

Lemma logRange_fixed f from to (n : Node D S) :
  lf_BlockHash f = None ->
  (forall head def, resolveLogHeight (lf_FromBlock f) head def = Ok from) -> (forall head def, resolveLogHeight (lf_ToBlock f) head def = Ok to) ->
  from <= to -> u64 (to - from) < maxLogRange -> Keep (shared n) ->
  exists n', logRange env f n = (n', Returns (from, to)) /\ Keep (shared n').
Proof.
  intros Hb Hf Ht Hle Hw Hk. unfold logRange. rewrite Hb. eexists. split.
  - unfold act_bind, headHeight, look, on_shared. cbn beta iota zeta. rewrite Hf, Ht. cbn [act_res act_bind].
    rewrite (proj2 (Z.ltb_ge to from)) by done. rewrite (proj2 (Z.leb_gt maxLogRange _)) by done. done.
  - by apply (kp_meanwhile _ _ _ HK).
Qed.

Lemma getLogs_endless errorText fuel params f addrs topics from (n : Node D S) :
  decode1 errorText logFilterC params = Ok f -> parseAddressFilter (lf_Address f) = Ok addrs -> parseTopicFilter (lf_Topics f) = Ok topics ->
  lf_BlockHash f = None ->
  (forall head def, resolveLogHeight (lf_FromBlock f) head def = Ok from) ->
  (forall head def, resolveLogHeight (lf_ToBlock f) head def = Ok (2 ^ 64 - 1)) ->
  2 ^ 64 - 1 - maxLogRange < from < 2 ^ 64 -> Keep (shared n) -> snd (EthGetLogs env errorText fuel params n) = OutOfFuel.
Proof.
  intros Ep Ea Et Eb Hf Ht Hr Hk. assert (maxLogRange = 10000) as Em by done. unfold EthGetLogs.
  rewrite (bind_returns _ _ n n f) by (by rewrite Ep). rewrite (bind_returns _ _ n n addrs) by (by rewrite Ea).
  rewrite (bind_returns _ _ n n topics) by (by rewrite Et).
  destruct (logRange_fixed f from (2 ^ 64 - 1) n Eb Hf Ht) as (n1 & E1 & Hk1); [lia|rewrite u64_small; lia|done|].
  rewrite (bind_returns _ _ n n1 _ E1). cbn beta iota.
  pose proof (scanLogs_endless fuel (fun l => logMatches l addrs topics) from [] n1 ltac:(split; lia) Hk1) as E.
  unfold act_bind. destruct (scanLogs _ _ _ _ _ _ n1) as [n2 r]. cbn [snd] in E. by subst r.
Qed.

End Endless.
