(* ===== verification/RpcProps.v ===== *)
(** * RPC: what a client may rely on

    The server answers; it only reads the chain; the logs and receipts it hands
    out are those of canonical blocks. *)
From stdpp Require Import base numbers list gmap.
From Stdlib Require Import ZArith Lia Strings.Byte.
From Stdlib Require Strings.String.
Import Strings.String.StringSyntax.
From S2P Require Import Prelude Common Types Rlp EthTx VmBase Precompiles Vm State Transition Json JsonCodec JsonWide Store Schema SchemaProofs Wire Mempool MempoolProofs.
From S2P Require Import Producer Genesis Blockchain ChainInv ChainOpen ChainProps ChainExtend Scorer P2p P2pProofs TxGossip Pool PoolHttp.
From S2P Require Import Rpc RpcApi Net RpcGate Faucet NodeHttp RpcServe RpcTable RpcLogs VmProps GossipProps MiningProps PoolProps.
#[local] Open Scope Z_scope.
#[local] Open Scope list_scope.
#[local] Open Scope act_scope.

(** ** Answers *)

Section Answering.
Context `{Crypto} `{Bn256} {D : Type} `{KVLaws D} (net : network) (env : Env D).

Lemma looked_reachable (bc bc' : Blockchain D) : reachable net bc -> looked bc bc' -> reachable net bc'.
Proof. intros Hr [->|(h & r & E)]; [done|]. by eapply R_read. Qed.

Lemma looked_same (bc bc' : Blockchain D) : looked bc bc' -> same bc bc'.
Proof.
  intros [->|(h & r & E)]; [apply same_refl|]. unfold BlockByHash, blockLocked in E. destruct (blockCache bc !! h).
  { injection E as <- _. apply same_refl. }
  destruct (loadBlock (db bc) h) as [b|e|]; [injection E as <- _; done| |injection E as <- _; apply same_refl].
  destruct e; injection E as <- _; apply same_refl.
Qed.

Lemma served_keeps : (forall k s, served net s -> served net (meanwhile env k s)) -> keeps net env (served net).
Proof.
  intros He. split; [done|done|]. intros s bc' [[Hc Hsc] Hp] Hl. split; [split; [by eapply looked_reachable|done]|done].
Qed.

Lemma served_admits : admits (served (D := D) net).
Proof. intros s tx c it [[Hc Hsc] Hp]. split; [by split|]. by apply AddLocal_small. Qed.

(** On a node that is left alone the chain is only read. *)
Definition untouched (s0 : Shared D) (pooled : bool) (s : Shared D) : Prop :=
  served net s /\ same (chain s0) (chain s) /\ scorer s = scorer s0 /\ (pooled = false -> pool s = pool s0).

Lemma untouched_keeps s0 pooled : alone env -> keeps net env (untouched s0 pooled).
Proof.
  intros Ha. split.
  - by intros s [? _].
  - intros k s. by rewrite Ha.
  - intros s bc' ([[Hc Hsc] Hp] & Hsm & Es & Ep) Hl. split_and!; try done.
    + split; [split; [by eapply looked_reachable|done]|done].
    + eapply same_trans; [exact Hsm|by apply looked_same].
Qed.

Lemma untouched_admits s0 : admits (untouched s0 true).
Proof. intros s tx c it (Hs & Hsm & Es & Ep). split_and!; try done. by apply served_admits. Qed.

End Answering.

(** ** A small node *)

#[local] Existing Instance mixCrypto.
#[local] Existing Instance toyBn256.

Definition rpcNode : Node Memory Port := mkNode (newPort smallServer newTxGossip) (mkShared chain5 None (Mempool_New 100)) 0 [].

Definition openConfig : Config := mkNodeConfig mixCrypto false [] [] None None None.

(** A batch: a height, the logs of a range, and a method that is not there. *)
Definition smallBatch : list byte := encodeJSON (listC requestC)
  [mkRequest (str "2.0") (str "eth_blockNumber") None (Some (JNum (str "1")));
   mkRequest (str "2.0") (str "eth_getLogs") (Some (JArr [JObj [(str "toBlock", JStr (str "0x2"))]])) (Some (JNum (str "2")));
   mkRequest (str "2.0") (str "eth_mine") None (Some (JStr (str "x")))].

Lemma rpcNode_served : served small (shared rpcNode).
Proof. split; [split; [exact chain5_reachable|done]|]. intros a bn. cbn. by rewrite lookup_empty. Qed.

Lemma smallBatch_tame : Forall (fun r => tameRequest (fun _ => []) r = true) (calls smallBatch).
Proof.
  apply Forall_forall. intros r Hr. assert (forallb (tameRequest (fun _ => [])) (calls smallBatch) = true) as E by (vm_compute; reflexivity).
  rewrite forallb_forall in E. by apply E, list_elem_of_In.
Qed.

(** ** A node with logs *)

Definition busySender : Address := PublicKey_Address toyKey.

Definition busyGenesis : Genesis := mkGenesis None 7 1000 30000000 {[busySender := Some 1000000000]} 1 ZeroAddress 0.

Definition busyOrder (_ : nat) : list (Address * option Z) := [(busySender, Some 1000000000)].

Definition busyBuilt : State * Block :=
  match Build busyGenesis (busyOrder 1) with Ok r => r | _ => (State_New, mkBlock toyHeader []) end.

Definition busy0 : Blockchain Memory := opened (NewBlockchain NewMemory busyGenesis 4 busyOrder) chain0.

(** A deployment whose init code is PUSH1 42, PUSH1 0, PUSH1 0, LOG1, STOP: it logs the topic 42 and leaves no code. *)
Definition busyTx (nonce : Z) : Transaction :=
  mkTx TxTypeTransfer 7 nonce None (Some 0) 200000 (Some 1) [x60; x2a; x60; x00; x60; x00; xa1; x00] (x1b :: replicate 64 x01).

(** The block a miner builds of two of them. *)
Definition busyBlock : Block :=
  match states busy0 !! genesis busy0 with
  | Some s =>
      match BuildUnsealed (split busy0) (b_Header (snd busyBuilt)) s
              (fun hd => match RequiredDifficulty hd busy0 with (_, Returns d) => d | _ => 0 end)
              (fun _ _ => [busyTx 0; busyTx 1]) nine 241000 with
      | Returns (b, _) => b
      | _ => mkBlock toyHeader []
      end
  | None => mkBlock toyHeader []
  end.

Definition busy1 : Blockchain Memory := fst (InsertBlock (toRaw busyBlock) 500000 busy0).

Definition busyHeaders : list Header := [b_Header (snd busyBuilt); b_Header busyBlock].

Definition busy : network := mkNetwork busyGenesis (fst busyBuilt) (snd busyBuilt) 4 (fun h => h ∈ busyHeaders).

Lemma busyHeaders_ok : goodHeaders busyHeaders = true.
Proof. vm_compute. reflexivity. Qed.

Lemma busyOrder_only o : alloc_order busyGenesis o <-> o = busyOrder 1.
Proof.
  unfold alloc_order, busyGenesis. cbn [g_Alloc]. rewrite map_to_list_singleton. split; [apply Permutation_singleton_r|by intros ->].
Qed.

Lemma busy_wf : wf_network busy.
Proof.
  split.
  - exact (goodHeaders_ok _ _ busyHeaders_ok).
  - split; vm_compute; intuition congruence.
  - cbn [busy n_limit]. unfold is_u64. lia.
  - intros o ->%busyOrder_only. cbn [n_genesis n_state n_block busy].
    assert (match Build busyGenesis (busyOrder 1) with Ok _ => true | _ => false end = true) as Hb by (by vm_compute).
    unfold busyBuilt. by destruct (Build busyGenesis (busyOrder 1)) as [[]| |].
  - apply list_elem_of_here.
  - apply (goodHeaders_sane _ _ busyHeaders_ok); [apply list_elem_of_here|]. vm_compute. discriminate.
Qed.

Lemma busy0_reachable : reachable busy busy0.
Proof.
  assert (match fst (NewBlockchain NewMemory busyGenesis 4 busyOrder) with Returns _ => true | _ => false end = true) as Hb by (by vm_compute).
  unfold busy0. destruct (NewBlockchain NewMemory busyGenesis 4 busyOrder) as [r d'] eqn:E. cbn [fst] in Hb. destruct r as [bc|e| |]; try done.
  apply (R_open busy NewMemory busyOrder bc d'); [done|intros k; by apply busyOrder_only|done].
Qed.

Lemma busy1_reachable : reachable busy busy1.
Proof.
  eapply R_insert; [exact busy0_reachable| | |unfold busy1; apply surjective_pairing]; [|unfold clockRange; lia].
  split; [exists (b_Header busyBlock); split; [done|apply list_elem_of_further, list_elem_of_here]|].
  assert (b_Txs busyBlock = [busyTx 0; busyTx 1]) as E by (vm_compute; reflexivity).
  assert (forall k, 0 <= k < 2 -> tx_widths (busyTx k) /\ len (tx_Data (busyTx k)) < 2 ^ 32) as Hw.
  { intros k Hk. split; [|reflexivity]. split; cbn [busyTx tx_Type tx_ChainID tx_Nonce tx_GasLimit]; unfold TxTypeTransfer; lia. }
  cbn [toRaw rb_Txs]. rewrite E. cbn [map]. apply Forall_cons. split; [intros tx Etx|apply Forall_singleton; intros tx Etx].
  - injection Etx as <-. apply (Hw 0). lia.
  - injection Etx as <-. apply (Hw 1). lia.
Qed.

Definition busyNode : Node Memory Port := mkNode (newPort smallServer newTxGossip) (mkShared busy1 None (Mempool_New 100)) 0 [].

(** ** Properties *)

(** C20: the RPC server of the node answers.  For every POST body at all, whatever the other goroutines do to the chain,
    the pool and the scorer meanwhile as long as they keep them sound, the server writes exactly one answer and leaves
    the node sound: a refusal with a null id when the body is too large, not JSON or a batch of more than 64; one
    response under the call's id otherwise; and for a batch one response for each call, in order.  The calls excepted
    are [eth_getLogs] up to height 2^64-1, which never returns, and [eth_estimateGas] for a negative value. *)
Theorem rpc_answers `{Crypto} `{Bn256} {D} `{KVLaws D} (net : network) (env : Env D) (errorText : error -> list byte) (fuel : nat)
    (coinbase : Address) (networked : bool) (peerCount : option (nat -> Z)) (hashCount : nat -> Z) (cfg : Config) (data : list byte) (n : Node D Port) :
  wf_network net -> (forall k s, served net s -> served net (meanwhile env k s)) -> maxLogRange <= Z.of_nat fuel ->
  Forall (fun r => tameRequest errorText r = true) (calls data) -> served net (shared n) ->
  exists n' rep, Server_ServeHTTP errorText (rpcServer env errorText fuel coinbase networked peerCount hashCount cfg) POST data n = (n', Returns rep)
    /\ served net (shared n') /\ answered data rep.
Proof.
  intros Hn He Hf Ht Hs.
  apply (rpcServer_answers net Hn env errorText fuel Hf coinbase networked peerCount hashCount cfg (served net) (served_keeps net env He) data Ht);
    [intros _; apply served_admits|done].
Qed.

Lemma rpc_answers_witness :
  exists n' rep, Server_ServeHTTP (fun _ => []) (rpcServer (smallEnv 500000) (fun _ => []) (Z.to_nat 10000) nine false None (fun _ => 0) openConfig) POST smallBatch rpcNode
      = (n', Returns rep)
    /\ served small (shared n') /\ answered smallBatch rep /\ length (calls smallBatch) = 3%nat.
Proof.
  destruct (rpc_answers small (smallEnv 500000) (fun _ => []) (Z.to_nat 10000) nine false None (fun _ => 0) openConfig smallBatch rpcNode
    small_wf) as (n' & rep & E & Hs & Ha); [intros k s Hs; exact Hs|unfold maxLogRange; lia|exact smallBatch_tame|exact rpcNode_served|].
  exists n', rep. split; [exact E|]. split; [exact Hs|]. split; [exact Ha|]. vm_compute. reflexivity.
Defined.

(** C21: the RPC server only reads.  On a node where nothing else runs, no body changes the chain (its database, its head,
    its states: only the cache of decoded blocks may grow) or the peers' scores, and only a body that calls
    [chain_sendTransaction] or [eth_sendRawTransaction] can change the pool.  The calls excepted are those of
    [rpc_answers]: [eth_getLogs] up to height 2^64-1 and [eth_estimateGas] for a negative value. *)
Theorem rpc_reads_only `{Crypto} `{Bn256} {D} `{KVLaws D} (net : network) (env : Env D) (errorText : error -> list byte) (fuel : nat)
    (coinbase : Address) (networked : bool) (peerCount : option (nat -> Z)) (hashCount : nat -> Z) (cfg : Config) (data : list byte) (n : Node D Port) :
  wf_network net -> alone env -> maxLogRange <= Z.of_nat fuel ->
  Forall (fun r => tameRequest errorText r = true) (calls data) -> served net (shared n) ->
  exists n' rep, Server_ServeHTTP errorText (rpcServer env errorText fuel coinbase networked peerCount hashCount cfg) POST data n = (n', Returns rep)
    /\ same (chain (shared n)) (chain (shared n')) /\ scorer (shared n') = scorer (shared n)
    /\ (existsb submits (calls data) = false -> pool (shared n') = pool (shared n)).
Proof.
  intros Hn Ha Hf Ht Hs. set (sub := existsb submits (calls data)).
  destruct (rpcServer_answers net Hn env errorText fuel Hf coinbase networked peerCount hashCount cfg (untouched net (shared n) sub)
    (untouched_keeps net env _ _ Ha) data Ht) with n as (n' & rep & E & (_ & Hsm & Hsc & Hp) & _).
  - fold sub. intros ->. apply untouched_admits.
  - split_and!; [done|apply same_refl|done|done].
  - by exists n', rep.
Qed.

Lemma rpc_reads_only_witness :
  exists n' rep, Server_ServeHTTP (fun _ => []) (rpcServer (smallEnv 500000) (fun _ => []) (Z.to_nat 10000) nine false None (fun _ => 0) openConfig) POST smallBatch rpcNode
      = (n', Returns rep)
    /\ same chain5 (chain (shared n')) /\ scorer (shared n') = None /\ pool (shared n') = Mempool_New 100.
Proof.
  destruct (rpc_reads_only small (smallEnv 500000) (fun _ => []) (Z.to_nat 10000) nine false None (fun _ => 0) openConfig smallBatch rpcNode
    small_wf (solo_alone _)) as (n' & rep & E & Hs & Hsc & Hp); [unfold maxLogRange; lia|exact smallBatch_tame|exact rpcNode_served|].
  exists n', rep. split; [exact E|]. split; [exact Hs|]. split; [exact Hsc|]. apply Hp. vm_compute. reflexivity.
Defined.

(** C22: [eth_getLogs] is exact.  For a filter of heights within the limit of 10000 and below 2^64-1, on a node where nothing
    else runs, the answer is the entries of the canonical blocks of the range, block by block, for receipts that the blocks' headers
    commit to, that match the filter; each is numbered through its block, matching or not.  A log matches when its
    address is in the set asked for, if any, and it has an allowed topic at every position the filter constrains. *)
Theorem getLogs_exact `{Crypto} `{Bn256} {D S} `{KVLaws D} (net : network) (env : Env D) errorText fuel params f addrs topics from to (n : Node D S) :
  let head := Block_Height (Head (chain (shared n))) in
  wf_network net -> alone env -> reachable net (chain (shared n)) -> maxLogRange <= Z.of_nat fuel ->
  decode1 errorText logFilterC params = Ok f -> lf_BlockHash f = None ->
  parseAddressFilter (lf_Address f) = Ok addrs -> parseTopicFilter (lf_Topics f) = Ok topics ->
  resolveLogHeight (lf_FromBlock f) head 0 = Ok from -> resolveLogHeight (lf_ToBlock f) head head = Ok to ->
  0 <= from <= to -> to < 2 ^ 64 - 1 -> to - from < maxLogRange ->
  exists n' chain rss,
    canonicalChain net (P2p.chain (shared n)) chain /\ Forall2 receiptsOf (range chain from to) rss
    /\ EthGetLogs env errorText fuel params n = (n', Returns (JArr (collected (fun l => logMatches l addrs topics) (range chain from to) rss)))
    /\ forall l, logMatches l addrs topics = true <-> passes addrs topics l.
Proof.
  intros head Hn Ha Hr Hfuel Ed Eh Ea Et Ef Eto Hle Hto Hrange. destruct (chain_reachable_inv net Hn _ Hr) as (F & canon & Hi & _).
  pose proof (logRange_heights env Ha f head from to n Eh eq_refl Ef Eto Hle ltac:(lia) Hrange) as El.
  destruct (getLogs_scan net env Ha F canon errorText fuel params f addrs topics from to n _ Hfuel Ed Ea Et El Hi ltac:(unfold is_u64; lia) Hto Hrange)
    as (n' & rss & E & Hall).
  exists n', (n_block net :: canon), rss. split_and!; [by eapply inv_canonicalChain|done|done|]. intros l. apply logMatches_spec.
Qed.

Definition heightsFilter : option json := Some (JArr [JObj [(str "fromBlock", JStr (str "0x1")); (str "toBlock", JStr (str "latest"))]]).

(** The block of two logs. *)
Lemma getLogs_exact_witness :
  exists n' chain rss logs, canonicalChain busy busy1 chain /\ Forall2 receiptsOf (range chain 1 1) rss
    /\ logs = collected (fun l => logMatches l None []) (range chain 1 1) rss
    /\ EthGetLogs (smallEnv 500000) (fun _ => []) (Z.to_nat 10000) heightsFilter busyNode = (n', Returns (JArr logs))
    /\ length logs = 2%nat.
Proof.
  destruct (getLogs_exact busy (smallEnv 500000) (fun _ => []) (Z.to_nat 10000) heightsFilter
    (mkLogFilter (str "0x1") (str "latest") None None []) None [] 1 1 busyNode busy_wf (solo_alone _) busy1_reachable)
    as (n' & chain & rss & Hc & Hr & E & _).
  - unfold maxLogRange. lia.
  - vm_compute. reflexivity.
  - reflexivity.
  - reflexivity.
  - reflexivity.
  - vm_compute. reflexivity.
  - vm_compute. reflexivity.
  - lia.
  - lia.
  - unfold maxLogRange. lia.
  - assert (match snd (EthGetLogs (smallEnv 500000) (fun _ => []) (Z.to_nat 10000) heightsFilter busyNode) with
            | Returns (JArr l) => Nat.eqb (length l) 2 | _ => false end = true) as Hl by (vm_compute; reflexivity).
    eexists n', chain, rss, _. split; [exact Hc|]. split; [exact Hr|]. split; [reflexivity|]. split; [exact E|].
    rewrite E in Hl. by apply Nat.eqb_eq in Hl.
Defined.

(** [eth_getLogs] by hash.  A filter that names a known block is answered with the entries of the canonical block at
    that block's height, whether or not it is the block named: for a block off the canonical chain the answer is
    another block's logs. *)
Theorem getLogs_by_hash `{Crypto} `{Bn256} {D S} `{KVLaws D} (net : network) (env : Env D) errorText fuel params f addrs topics h b (n : Node D S) :
  wf_network net -> alone env -> reachable net (chain (shared n)) -> maxLogRange <= Z.of_nat fuel ->
  decode1 errorText logFilterC params = Ok f -> lf_BlockHash f = Some h -> lf_FromBlock f = [] -> lf_ToBlock f = [] ->
  parseAddressFilter (lf_Address f) = Ok addrs -> parseTopicFilter (lf_Topics f) = Ok topics ->
  snd (BlockByHash h (chain (shared n))) = Returns b ->
  exists n' chain, canonicalChain net (P2p.chain (shared n)) chain
    /\ match chain !! Z.to_nat (Block_Height b) with
       | Some c => exists rs, receiptsOf c rs /\ EthGetLogs env errorText fuel params n
           = (n', Returns (JArr (map (rendered c) (matching (fun l => logMatches l addrs topics) (entries rs)))))
       | None => EthGetLogs env errorText fuel params n = (n', Returns (JArr []))
       end.
Proof.
  intros Hn Ha Hr Hfuel Ed Eh Ef Eto Ea Et Eb. destruct (chain_reachable_inv net Hn _ Hr) as (F & canon & Hi & _).
  destruct (logRange_hash net env Ha F canon f h b n Hi Eh Ef Eto Eb) as (bc' & Hi' & Hh & El). assert (maxLogRange = 10000) by done.
  destruct (getLogs_scan net env Ha F canon errorText fuel params f addrs topics _ _ n _ Hfuel Ed Ea Et El Hi' ltac:(unfold is_u64; lia) ltac:(lia) ltac:(lia))
    as (n' & rss & E & Hall).
  exists n', (n_block net :: canon). split; [by eapply inv_canonicalChain|]. fold (Block_Height b) in *. rewrite range_step in E, Hall by lia.
  destruct ((n_block net :: canon) !! Z.to_nat (Block_Height b)) as [c|]; [|by rewrite E].
  rewrite range_nil in E, Hall by lia. destruct rss as [|rs rss]; [by inversion Hall|]. exists rs. split; [by inversion Hall|].
  rewrite E. unfold collected. cbn [zip_with concat]. by rewrite app_nil_r.
Qed.

Definition hashFilter : option json := Some (JArr [JObj [(str "blockHash", enc hashC (Header_Hash a1))]]).

(** [a1] is off the canonical chain: the answer is about [b1]. *)
Lemma getLogs_by_hash_witness :
  exists n' chain, canonicalChain small chain5 chain
    /\ match chain !! Z.to_nat (Block_Height (mkBlock a1 [])) with
       | Some c => exists rs, receiptsOf c rs /\ EthGetLogs (smallEnv 500000) (fun _ => []) (Z.to_nat 10000) hashFilter rpcNode
           = (n', Returns (JArr (map (rendered c) (matching (fun l => logMatches l None []) (entries rs)))))
       | None => EthGetLogs (smallEnv 500000) (fun _ => []) (Z.to_nat 10000) hashFilter rpcNode = (n', Returns (JArr []))
       end.
Proof.
  apply (getLogs_by_hash small (smallEnv 500000) (fun _ => []) (Z.to_nat 10000) hashFilter (mkLogFilter [] [] (Some (Header_Hash a1)) None [])
    None [] (Header_Hash a1) (mkBlock a1 []) rpcNode small_wf (solo_alone _) chain5_reachable).
  - unfold maxLogRange. lia.
  - vm_compute. reflexivity.
  - reflexivity.
  - reflexivity.
  - reflexivity.
  - reflexivity.
  - reflexivity.
  - vm_compute. reflexivity.
Defined.

(** C23: a receipt is the truth.  On a node where nothing else runs, [eth_getTransactionReceipt] answers null exactly when
    the chain does not know the transaction; otherwise it describes a transaction of that hash at its place in a
    canonical block, with the receipt at that place of receipts the block's header commits to, the recovered sender,
    the address of the contract a deployment made, and as logs exactly the entries of that transaction, numbered as
    [eth_getLogs] numbers them. *)
Theorem receipt_truthful `{Crypto} `{Bn256} {D S} `{KVLaws D} (net : network) (env : Env D) errorText params h (n : Node D S) :
  wf_network net -> alone env -> reachable net (chain (shared n)) -> decode1 errorText hashC params = Ok h ->
  match snd (TxByHash h (chain (shared n))) with
  | Returns (tx, loc) =>
      exists n' chain b i from rs r m,
        EthGetTransactionReceipt env errorText params n = (n', Returns (goMapJSON m))
        /\ canonicalChain net (P2p.chain (shared n)) chain /\ b ∈ chain /\ b_Txs b !! i = Some tx /\ tx_Hash tx = h /\ Sender tx = Ok from
        /\ receiptsOf b rs /\ rs !! i = Some r /\ receiptOf b i tx from rs r m
  | Raises _ => exists n', EthGetTransactionReceipt env errorText params n = (n', Returns JNull)
  | _ => False
  end.
Proof.
  intros Hn Ha Hr Ed. destruct (chain_reachable_inv net Hn _ Hr) as (F & canon & Hi & _).
  destruct (ethReceipt_alone net env Ha F canon errorText params h n Hi Ed)
    as [(n' & E & Et)|(n' & b & i & tx & from & rs & r & m & [Hb Htx Hh] & Hs & Hrs & Er & Et & E & Ho)]; rewrite Et; [by exists n'|].
  exists n', (n_block net :: canon), b, i, from, rs, r, m. split_and!; try done; [by eapply inv_canonicalChain|by right].
Qed.

Definition secondHash : option json := Some (JArr [enc hashC (tx_Hash (busyTx 1))]).

(** The second transaction of the block, a deployment, with its log, which is the second of the block. *)
Lemma receipt_truthful_witness :
  exists n' chain b i from rs r m,
    EthGetTransactionReceipt (smallEnv 500000) (fun _ => []) secondHash busyNode = (n', Returns (goMapJSON m))
    /\ canonicalChain busy busy1 chain /\ b ∈ chain /\ b_Txs b !! i = Some (busyTx 1) /\ Sender (busyTx 1) = Ok from
    /\ receiptsOf b rs /\ rs !! i = Some r /\ receiptOf b i (busyTx 1) from rs r m.
Proof.
  assert (match snd (TxByHash (tx_Hash (busyTx 1)) busy1) with Returns (tx, _) => bool_decide (tx = busyTx 1) | _ => false end = true) as E
    by (vm_compute; reflexivity).
  pose proof (receipt_truthful busy (smallEnv 500000) (fun _ => []) secondHash (tx_Hash (busyTx 1)) busyNode busy_wf (solo_alone _) busy1_reachable) as Hr.
  change (chain (shared busyNode)) with busy1 in Hr. destruct (snd (TxByHash (tx_Hash (busyTx 1)) busy1)) as [[tx loc]|e| |]; [|discriminate E..].
  apply bool_decide_eq_true in E. subst tx.
  destruct Hr as (n' & chain & b & i & from & rs & r & m & H1 & H2 & H3 & H4 & _ & H5 & H6 & H7 & H8); [vm_compute; reflexivity|].
  exists n', chain, b, i, from, rs, r, m. split_and!; assumption.
Defined.

(** C40: an [eth_getLogs] whose range ends at the last uint64 and is narrow enough to be accepted never returns.
    Whatever its first height, its addresses and its topics, and whatever the rest of the node does meanwhile, the scan is
    still running after any number of heights: the height wraps round to 0 and never passes the end. *)
Theorem getLogs_never_returns `{Crypto} `{Bn256} {D S} `{KVLaws D} (net : network) (env : Env D) errorText fuel params f addrs topics from (n : Node D S) :
  wf_network net -> (forall k s, served net s -> served net (meanwhile env k s)) -> served net (shared n) ->
  decode1 errorText logFilterC params = Ok f -> parseAddressFilter (lf_Address f) = Ok addrs -> parseTopicFilter (lf_Topics f) = Ok topics ->
  lf_BlockHash f = None ->
  (forall head def, resolveLogHeight (lf_FromBlock f) head def = Ok from) ->
  (forall head def, resolveLogHeight (lf_ToBlock f) head def = Ok (2 ^ 64 - 1)) ->
  2 ^ 64 - 1 - maxLogRange < from < 2 ^ 64 ->
  snd (EthGetLogs env errorText fuel params n) = OutOfFuel.
Proof.
  intros Hn He Hs Ep Ea Et Eb Hf Ht Hr.
  exact (getLogs_endless net Hn env (served net) (served_keeps net env He) errorText fuel params f addrs topics from n Ep Ea Et Eb Hf Ht Hr Hs).
Qed.

(** The last sixteen heights, for the logs of one contract. *)
Definition lastHeights : option json :=
  Some (JArr [JObj [(str "fromBlock", JStr (str "0xfffffffffffffff0")); (str "toBlock", JStr (str "0xffffffffffffffff"));
                    (str "address", JStr (str "0x0900000000000000000000000000000000000000"))]]).

Lemma getLogs_never_returns_witness : snd (EthGetLogs (smallEnv 500000) (fun _ => []) 50 lastHeights rpcNode) = OutOfFuel.
Proof.
  pose (f := mkLogFilter (str "0xfffffffffffffff0") (str "0xffffffffffffffff") None
    (Some (JStr (str "0x0900000000000000000000000000000000000000"))) []).
  assert (exists addrs, parseAddressFilter (lf_Address f) = Ok addrs) as [addrs Ea] by (eexists; reflexivity).
  apply (getLogs_never_returns small (smallEnv 500000) (fun _ => []) 50 lastHeights f addrs [] (2 ^ 64 - 16) rpcNode small_wf).
  - intros k s Hs. exact Hs.
  - exact rpcNode_served.
  - reflexivity.
  - exact Ea.
  - vm_compute. reflexivity.
  - reflexivity.
  - intros head def. vm_compute. reflexivity.
  - intros head def. vm_compute. reflexivity.
  - vm_compute. split; reflexivity.
Defined.
