(* ===== verification/RpcClient.v ===== *)
(** * A transaction from a client to the pool (rpc/client.go, rpc/server.go, rpc/api.go)

    The client's request, the server's reading of it, the method's gates, the
    pool, and the client's reading of the answer, end to end. *)
From stdpp Require Import base numbers list gmap.
From Stdlib Require Import ZArith Lia Strings.Byte.
From Stdlib Require Strings.String.
Import Strings.String.StringSyntax.
From S2P Require Import Prelude Common Types VmBase Precompiles Vm State Transition Json JsonCodec JsonWide Store Schema SchemaProofs Wire Mempool.
From S2P Require Import Blockchain Scorer P2p TxGossip TxGossipProps Pool PoolHttp MiningProps.
From S2P Require Import Rpc RpcApi Net RpcGate Faucet NodeHttp RpcServe RpcTable RpcLogs VmProps ChainProps GossipProps PoolProps.
#[local] Open Scope Z_scope.
#[local] Open Scope list_scope.
#[local] Open Scope act_scope.
#[local] Open Scope go_scope.

Section Client.
Context `{Crypto} `{Bn256} {D : Type} `{KV D} (env : Env D) (Ha : alone env) (errorText : error -> list byte) (fuel : nat).
Context (coinbase : Address) (networked : bool) (peerCount : option (nat -> Z)) (hashCount : nat -> Z) (cfg : Config).

Abbreviation srv := (rpcServer env errorText fuel coinbase networked peerCount hashCount cfg).
Abbreviation gossip := (broadcaster env networked).








(** ** The answer's size *)



(** ** End to end *)







End Client.

(** ** Properties *)


#[local] Existing Instance mixCrypto.
#[local] Existing Instance toyBn256.



