(* ===== verification/RpcGateProps.v ===== *)
(** * In front of the RPC server (rpc/ratelimit.go, rpc/auth.go)

    The rate limiter's table stays within its bound and a client is cut at the
    bucket's capacity; without a valid key nothing behind the gate runs. *)
From stdpp Require Import base numbers list gmap.
From Stdlib Require Import ZArith Lia Strings.Byte.
From Stdlib Require Strings.String.
Import Strings.String.StringSyntax.
From S2P Require Import Prelude Common Types VmBase Precompiles Vm State Transition Json JsonCodec Store Schema SchemaProofs Wire Mempool.
From S2P Require Import Blockchain ChainProps Scorer P2p Pool PoolHttp TxGossip Rpc RpcApi Net RpcGate Faucet NodeHttp.
From S2P Require Import VmProps GossipProps PoolProps.
#[local] Open Scope Z_scope.
#[local] Open Scope list_scope.
#[local] Open Scope act_scope.

(** ** The limiter's table *)

(** Within its bound, and no nameless client in it. *)
Record limiter_ok (rl : RateLimiter) : Prop := {
  lo_limit : 1 <= rl_maxTracked rl;
  lo_size : Z.of_nat (size (rl_buckets rl)) <= rl_maxTracked rl;
  lo_named : rl_buckets rl !! [] = None;
}.

Lemma evictIdle_sub rl now order m ip t : (evictIdle rl now order m ip t).1 ⊆ m.
Proof.
  revert m ip t. induction order as [|x order IH]; intros m ip t; cbn [evictIdle]; [done|].
  destruct (m !! x) as [b|]; [|apply IH]. destruct (f_leb _ _).
  - etransitivity; [apply IH|apply delete_subseteq].
  - by destruct (_ || _); apply IH.
Qed.

(** Once the walk has seen every client, it names one that is left, or none is. *)
Lemma evictIdle_oldest rl now order m ip t :
  m !! [] = None -> NoDup order -> ip ∉ order -> (ip = [] \/ is_Some (m !! ip)) ->
  let r := evictIdle rl now order m ip t in
  r.2 = [] /\ ip = [] /\ (forall x, x ∈ order -> r.1 !! x = None) \/ r.2 <> [] /\ is_Some (r.1 !! r.2).
Proof.
  revert m ip t. induction order as [|x order IH]; intros m ip t Hm Hnd Hid Hin; cbn [evictIdle].
  - destruct Hin as [->|Hin]; [left; split_and!; [done..|]; by intros x Hx%elem_of_nil|].
    right. split; [|done]. intros E. cbn in E. rewrite E, Hm in Hin. by destruct Hin.
  - apply NoDup_cons in Hnd as [Hx Hnd]. apply not_elem_of_cons in Hid as [Hne Hid].
    assert (forall m' ip' t', m' ⊆ m -> m' !! x = None ->
      let r := evictIdle rl now order m' ip' t' in
      r.2 = [] /\ ip' = [] /\ (forall y, y ∈ order -> r.1 !! y = None) \/ r.2 <> [] /\ is_Some (r.1 !! r.2) ->
      r.2 = [] /\ ip' = [] /\ (forall y, y ∈ x :: order -> r.1 !! y = None) \/ r.2 <> [] /\ is_Some (r.1 !! r.2)) as Hgone.
    { intros m' ip' t' _ Hnone r [(E & -> & Hall)|Hr]; [left|by right]. split_and!; [done..|]. intros y [->|Hy]%elem_of_cons; [|by apply Hall].
      eapply lookup_weaken_None; [exact Hnone|apply evictIdle_sub]. }
    destruct (m !! x) as [b|] eqn:Ex; [|apply Hgone; [done|done|by apply IH]].
    assert (x <> []) as Hxn by (intros ->; rewrite Hm in Ex; discriminate). destruct (f_leb _ _).
    + apply Hgone; [apply delete_subseteq|apply lookup_delete_eq|]. apply IH; [by rewrite lookup_delete_ne|done|done|].
      destruct Hin as [->|Hin]; [by left|right]. by rewrite lookup_delete_ne.
    + destruct (_ || _) eqn:Eb.
      * destruct (IH m x (b_last b)) as [(_ & -> & _)|Hr]; [done|done|done|by right; rewrite Ex|done|by right].
      * destruct (IH m ip t Hm Hnd Hid Hin) as [(E & -> & _)|Hr]; [|by right]. cbn in Eb. done.
Qed.

(** A full table has room after [evict]. *)
Lemma RateLimiter_evict_room rl now order :
  order ≡ₚ (map_to_list (rl_buckets rl)).*1 -> limiter_ok rl ->
  rl_buckets (RateLimiter_evict rl now order) ⊆ rl_buckets rl /\ Z.of_nat (size (rl_buckets (RateLimiter_evict rl now order))) < rl_maxTracked rl.
Proof.
  intros Ho [H1 H2 H3]. unfold RateLimiter_evict. pose proof (evictIdle_sub rl now order (rl_buckets rl) [] 0) as Hsub.
  pose proof (evictIdle_oldest rl now order (rl_buckets rl) [] 0 H3) as Hold. destruct (evictIdle rl now order (rl_buckets rl) [] 0) as [m ip]. cbn in *.
  assert (NoDup order) as Hnd by (rewrite Ho; apply NoDup_fst_map_to_list).
  assert ([] ∉ order) as Hn.
  { rewrite Ho. intros ([k e] & E & Hin)%list_elem_of_fmap. cbn in E. subst k. apply elem_of_map_to_list in Hin. congruence. }
  specialize (Hold Hnd Hn (or_introl eq_refl)). pose proof (map_subseteq_size _ _ Hsub) as Hsz.
  destruct Hold as [(-> & _ & Hall)|[Hne [e He]]].
  - rewrite bool_decide_eq_true_2, andb_false_r by done. split; [done|].
    assert (m = ∅) as ->; [|rewrite map_size_empty; cbn; lia]. apply map_empty. intros k.
    destruct (m !! k) as [e|] eqn:E; [|done]. rewrite <- E. apply Hall. rewrite Ho. apply list_elem_of_fmap. exists (k, e).
    split; [done|]. apply elem_of_map_to_list. eapply lookup_weaken; eauto.
  - rewrite bool_decide_eq_false_2, andb_true_r by done. destruct (Z.leb_spec (rl_maxTracked rl) (Z.of_nat (size m))); [|by split; [|lia]].
    split; [etransitivity; [apply delete_subseteq|done]|]. rewrite map_size_delete, He. cbn.
    assert (0 < size m)%nat; [|lia]. destruct (size m) eqn:E0; [|lia]. apply map_size_empty_inv in E0. by rewrite E0 in He.
Qed.

Lemma evict_config rl now order :
  rl_burst (RateLimiter_evict rl now order) = rl_burst rl /\ rl_maxTracked (RateLimiter_evict rl now order) = rl_maxTracked rl.
Proof. unfold RateLimiter_evict. by destruct (evictIdle _ _ _ _ _ _). Qed.

(** The table a new client is entered into, and the bucket of a client. *)
Definition room (rl : RateLimiter) (now : Z) (walk : gmap (list byte) tokenBucket -> list (list byte)) : RateLimiter :=
  if rl_maxTracked rl <=? Z.of_nat (size (rl_buckets rl)) then RateLimiter_evict rl now (walk (rl_buckets rl)) else rl.

Lemma room_ok rl now walk : walks walk -> limiter_ok rl ->
  rl_buckets (room rl now walk) ⊆ rl_buckets rl /\ Z.of_nat (size (rl_buckets (room rl now walk))) < rl_maxTracked rl
  /\ rl_maxTracked (room rl now walk) = rl_maxTracked rl.
Proof.
  intros Hw Hok. unfold room. destruct (Z.leb_spec (rl_maxTracked rl) (Z.of_nat (size (rl_buckets rl)))); [|split_and!; [done|lia|done]].
  destruct (RateLimiter_evict_room rl now (walk (rl_buckets rl)) (Hw _) Hok). split_and!; [done|done|apply evict_config].
Qed.

(** One call keeps the table within its bound. *)
Lemma RateLimiter_allow_ok rl ip now walk : walks walk -> ip <> [] -> limiter_ok rl ->
  limiter_ok (RateLimiter_allow rl ip now walk).1 /\ rl_maxTracked (RateLimiter_allow rl ip now walk).1 = rl_maxTracked rl.
Proof.
  intros Hw Hip Hok. unfold RateLimiter_allow. fold (room rl now walk).
  assert (forall rl' b, rl_buckets rl' ⊆ rl_buckets rl -> rl_maxTracked rl' = rl_maxTracked rl ->
    (is_Some (rl_buckets rl' !! ip) \/ Z.of_nat (size (rl_buckets rl')) < rl_maxTracked rl) ->
    limiter_ok (with_rlBuckets (<[ip := b]> (rl_buckets rl')) rl')) as Hput.
  { intros rl' b Hsub Em Hroom. destruct Hok as [H1 H2 H3]. pose proof (map_subseteq_size _ _ Hsub).
    split; cbn; rewrite ?Em; [done| |rewrite lookup_insert_ne by done; by eapply lookup_weaken_None].
    rewrite map_size_insert. destruct (rl_buckets rl' !! ip); cbn; [lia|]. destruct Hroom as [[? ?]|?]; [done|lia]. }
  destruct (rl_buckets rl !! ip) as [b|] eqn:E.
  - destruct (f_leb _ _); cbn [fst]; (split; [|done]); apply Hput; try done; left; by rewrite E.
  - destruct (room_ok rl now walk Hw Hok) as (Hsub & Hsz & Em). destruct (f_leb _ _); cbn [fst]; (split; [|done]); apply Hput; auto.
Qed.

(** ** A flood at one instant *)

Fixpoint rpcFlood (n : nat) (rl : RateLimiter) (ip : list byte) (t : Z) (walk : gmap (list byte) tokenBucket -> list (list byte)) : RateLimiter * nat :=
  match n with
  | O => (rl, O)
  | S n => let (rl, k) := rpcFlood n rl ip t walk in
           let (rl, ok) := RateLimiter_allow rl ip t walk in
           (rl, if ok then S k else k)
  end.

Lemma rpcFlood_count n rl ip t walk B :
  rl_buckets rl !! ip = None -> rl_burst rl = f_of_Z (Z.of_nat B) -> (B <= exactUpTo)%nat ->
  let (rl', k) := rpcFlood n rl ip t walk in
  k = Nat.min n B /\ (n = O /\ rl' = rl \/ rl_buckets rl' !! ip = Some (mkBucket (f_of_Z (Z.of_nat (B - n))) t)).
Proof.
  intros Hp Hb HB. induction n as [|n IH]; cbn [rpcFlood]; [by auto|].
  destruct (rpcFlood n rl ip t walk) as [rl1 k]. destruct IH as (-> & Hl). unfold RateLimiter_allow.
  assert (exists rl2, match rl_buckets rl1 !! ip with
    | None => (if rl_maxTracked rl1 <=? Z.of_nat (size (rl_buckets rl1)) then RateLimiter_evict rl1 t (walk (rl_buckets rl1)) else rl1,
               mkBucket (rl_burst (if rl_maxTracked rl1 <=? Z.of_nat (size (rl_buckets rl1)) then RateLimiter_evict rl1 t (walk (rl_buckets rl1)) else rl1)) t)
    | Some b => (rl1, if f_ltb f_zero (Seconds (Sub t (b_last b))) then
               mkBucket (f_min (rl_burst rl1) (f_add (tokens b) (f_mul (Seconds (Sub t (b_last b))) (rl_perSecond rl1)))) t else b)
    end = (rl2, mkBucket (f_of_Z (Z.of_nat (B - n))) t)) as [rl2 ->].
  { destruct Hl as [[-> ->]| ->].
    - rewrite Hp, Nat.sub_0_r. destruct (_ <=? _); [rewrite (proj1 (evict_config rl t (walk (rl_buckets rl))))|]; rewrite Hb; by eauto.
    - cbn [b_last tokens]. rewrite Sub_self. change (f_ltb f_zero (Seconds 0)) with false. by eauto. }
  cbn [tokens b_last]. destruct (B - n)%nat as [|m] eqn:Em.
  - change (f_leb f_one (f_of_Z (Z.of_nat 0))) with false. split; [lia|]. right. cbn. rewrite lookup_insert_eq. by replace (B - S n)%nat with O by lia.
  - destruct (exact_parts m) as (_ & Es & _ & El); [lia|]. rewrite El, Es. split; [lia|]. right. cbn. rewrite lookup_insert_eq.
    by replace (B - S n)%nat with m by lia.
Qed.

(** ** Keys *)

Lemma addKey_elem a k d : d ∈ addKey a k <-> d ∈ a \/ TrimSpace k <> [] /\ d = sha256_Sum256 (TrimSpace k).
Proof.
  unfold addKey. destruct (bool_decide_reflect (TrimSpace k = [])) as [E|E]; [naive_solver|]. rewrite elem_of_app, list_elem_of_singleton. naive_solver.
Qed.

Lemma NewAuth_elem keys d : d ∈ NewAuth keys <-> exists k, k ∈ keys /\ TrimSpace k <> [] /\ d = sha256_Sum256 (TrimSpace k).
Proof.
  unfold NewAuth. assert (forall a, d ∈ fold_left addKey keys a <-> d ∈ a \/ exists k, k ∈ keys /\ TrimSpace k <> [] /\ d = sha256_Sum256 (TrimSpace k)) as Hgen.
  { induction keys as [|k keys IH]; intros a; cbn [fold_left]; [set_solver|]. rewrite IH, addKey_elem. set_solver. }
  rewrite Hgen. set_solver.
Qed.

Lemma matched_any got a : fold_left (fun matched k => Z.lor matched (ConstantTimeCompare got k)) a 0 = if bool_decide (got ∈ a) then 1 else 0.
Proof.
  assert (forall a m, m = 0 \/ m = 1 -> fold_left (fun matched k => Z.lor matched (ConstantTimeCompare got k)) a m = if decide (m = 1 \/ got ∈ a) then 1 else 0) as Hgen.
  { clear a. intros a. induction a as [|k a IH]; intros m Hm; cbn [fold_left].
    - destruct Hm as [->| ->]; [rewrite decide_False by set_solver|rewrite decide_True by set_solver]; done.
    - rewrite IH.
      + apply decide_ext. unfold ConstantTimeCompare. rewrite elem_of_cons.
        destruct Hm as [->| ->], (bool_decide_reflect (got = k)); cbn; set_solver.
      + unfold ConstantTimeCompare. destruct Hm as [->| ->], (bool_decide (got = k)); cbn; auto. }
  rewrite Hgen by auto. destruct (bool_decide_reflect (got ∈ a)); [rewrite decide_True by auto|rewrite decide_False by set_solver]; done.
Qed.

(** The request carries a key: a token with the digest of one of the keys that are not blank. *)
Definition keyed (keys : list (list byte)) (r : httpRequest) : Prop :=
  exists token key, bearerToken r = Some token /\ key ∈ keys /\ TrimSpace key <> [] /\ sha256_Sum256 token = sha256_Sum256 (TrimSpace key).

Lemma authorized_keyed keys r : authorized (NewAuth keys) r = true <-> keyed keys r.
Proof.
  unfold authorized, keyed. destruct (bearerToken r) as [token|]; [|naive_solver]. rewrite matched_any.
  case_bool_decide as Hin; rewrite NewAuth_elem in Hin.
  - split; [intros _|by intros _]. destruct Hin as (k & Hk & Hb & E). by exists token, k.
  - split; [done|]. intros (token' & key & [= <-] & Hk & Hb & E). destruct Hin. by exists key.
Qed.

Lemma NewAuth_nil keys : NewAuth keys = [] <-> forall k, k ∈ keys -> TrimSpace k = [].
Proof.
  split.
  - intros E k Hk. destruct (decide (TrimSpace k = [])) as [|Hne]; [done|]. assert (sha256_Sum256 (TrimSpace k) ∈ NewAuth keys) as Hin.
    { apply NewAuth_elem. by exists k. }
    rewrite E in Hin. by apply not_elem_of_nil in Hin.
  - intros Hall. destruct (NewAuth keys) as [|d l] eqn:E; [done|]. assert (d ∈ NewAuth keys) as Hin by (rewrite E; by left).
    apply NewAuth_elem in Hin as (k & Hk & Hne & _). by rewrite (Hall k Hk) in Hne.
Qed.

Section Gate.
Context `{Crypto} `{Bn256} {D : Type} `{KV D} (env : Env D) (errorText : error -> list byte) (fuel : nat).
Context (coinbase : Address) (networked : bool) (peerCount : option (nat -> Z)) (hashCount : nat -> Z) (cfg : Config).

Abbreviation handler := (rpcHandler env errorText fuel coinbase networked peerCount hashCount cfg).

(** The node once the limiter has counted the request. *)
Definition counted (r : httpRequest) (n : Node D Port) : Node D Port :=
  mkNode (set_rpc (RateLimiter_allow (po_rpc (own n)) (clientIP r) (clock env (tick n)) (walkBuckets env (tick n))).1 (own n)) (shared n) (1 + tick n)%nat (events n).

(** The headers of a cross-origin answer. *)
Definition originHeader (r : httpRequest) : list (list byte * list byte) :=
  let allow := allowOrigin (NewCORS (nc_RPCCORSOrigins cfg)) (Header_Get (hr_header r) (str "Origin")) in
  if negb (bool_decide (allow = [])) then [(str "Access-Control-Allow-Origin", allow); (str "Vary", str "Origin")] else [].

Lemma gate_lemma r n :
  hr_method r <> OPTIONS ->
  let passed := (RateLimiter_allow (po_rpc (own n)) (clientIP r) (clock env (tick n)) (walkBuckets env (tick n))).2 in
  (passed = false -> handler r n = (counted r n, Returns writeTooManyRequests))
  /\ (passed = true -> ~ keyed (nc_RPCAPIKeys cfg) r -> (exists k, k ∈ nc_RPCAPIKeys cfg /\ TrimSpace k <> []) ->
      handler r n = (counted r n, Returns (with_header (originHeader r) writeUnauthorized)))
  /\ (passed = true -> keyed (nc_RPCAPIKeys cfg) r \/ (forall k, k ∈ nc_RPCAPIKeys cfg -> TrimSpace k = []) ->
      handler r n = (let@ reply := Server_ServeHTTP errorText (rpcServer env errorText fuel coinbase networked peerCount hashCount cfg) (hr_method r) (hr_body r) in
                     act_ret (with_header (originHeader r) reply)) (counted r n)).
Proof.
  intros Hm passed. unfold rpcHandler, RateLimiter_ServeHTTP, counted. unfold passed.
  destruct (RateLimiter_allow _ _ _ _) as [rl ok]. cbn [fst snd].
  split; [by intros ->|]. split.
  - intros -> Hk (k & Hin & Hne). unfold CORS_ServeHTTP. rewrite (bool_decide_eq_false_2 _ Hm). unfold Auth_ServeHTTP.
    destruct (Z.eqb_spec (len (NewAuth (nc_RPCAPIKeys cfg))) 0) as [E|_].
    { exfalso. apply Hne. apply (proj1 (NewAuth_nil (nc_RPCAPIKeys cfg))); [|done]. destruct (NewAuth _); [done|]. unfold len in E. cbn in E. lia. }
    destruct (authorized _ r) eqn:E; [by apply authorized_keyed in E|]. done.
  - intros -> Hk. unfold CORS_ServeHTTP. rewrite (bool_decide_eq_false_2 _ Hm). unfold Auth_ServeHTTP.
    destruct (Z.eqb_spec (len (NewAuth (nc_RPCAPIKeys cfg))) 0) as [E|Hne]; [done|].
    destruct Hk as [Hk%authorized_keyed|Hk%NewAuth_nil]; [by rewrite Hk|]. by rewrite Hk in Hne.
Qed.

End Gate.

(** ** Runs of the limiter *)

(** The calls of clients one after the other. *)
Definition allowAll_ (calls : list (list byte * Z * (gmap (list byte) tokenBucket -> list (list byte)))) (rl : RateLimiter) : RateLimiter :=
  fold_left (fun rl c => (RateLimiter_allow rl (fst (fst c)) (snd (fst c)) (snd c)).1) calls rl.

Lemma allow_burst rl ip now walk : rl_burst (RateLimiter_allow rl ip now walk).1 = rl_burst rl.
Proof.
  unfold RateLimiter_allow. destruct (rl_buckets rl !! ip) as [b|]; [by destruct (f_leb _ _)|].
  destruct (_ <=? _); destruct (f_leb _ _); cbn; try done; apply evict_config.
Qed.

Lemma allowAll_ok calls rl :
  Forall (fun c => fst (fst c) <> [] /\ walks (snd c)) calls -> limiter_ok rl ->
  limiter_ok (allowAll_ calls rl) /\ rl_maxTracked (allowAll_ calls rl) = rl_maxTracked rl /\ rl_burst (allowAll_ calls rl) = rl_burst rl.
Proof.
  intros Hc. revert rl. induction Hc as [|[[ip now] walk] calls [Hip Hw] _ IH]; intros rl Hok; [done|]. cbn [allowAll_ fold_left fst snd] in *.
  destruct (RateLimiter_allow_ok rl ip now walk Hw Hip Hok) as [Hok' Em]. destruct (IH _ Hok') as (H1 & H2 & H3).
  split; [done|]. rewrite <- Em, <- (allow_burst rl ip now walk). done.
Qed.

Lemma NewRateLimiter_ok cfg : limiter_ok (NewRateLimiter cfg).
Proof.
  split; cbn [NewRateLimiter rl_maxTracked rl_buckets]; [|rewrite map_size_empty|done];
    destruct (Z.ltb_spec (cfg_MaxTracked cfg) 1); try (cbn; lia); done.
Qed.

(** ** A node with a key *)

#[local] Existing Instance mixCrypto.
#[local] Existing Instance toyBn256.

Definition lockedConfig : Config := mkNodeConfig mixCrypto false [str "secret"] [] None None None.

Definition portNode : Node Memory Port := mkNode (newPort smallServer newTxGossip) (mkShared chain0 None (Mempool_New 100)) 0 [].

Definition stranger : httpRequest := mkHttpRequest POST (str "/") (str "10.0.0.1:9") [(str "Authorization", str "Bearer guess")] [].

(** ** Properties *)

(** C24: Nothing runs behind the gate without a key.  Of a request that is not a preflight, the limiter is asked first.
    When it refuses, the answer is 429.  When keys are configured and the request's bearer token does not have the
    digest of one of them, the answer is 401.  In both cases the node is as it was but for the limiter's count.
    Otherwise the answer is the server's to the body, with the cross-origin headers. *)
Theorem rpc_gate `{Crypto} `{Bn256} {D} `{KV D} (env : Env D) errorText fuel coinbase networked peerCount hashCount cfg r (n : Node D Port) :
  hr_method r <> OPTIONS ->
  let handler := rpcHandler env errorText fuel coinbase networked peerCount hashCount cfg in
  let passed := (RateLimiter_allow (po_rpc (own n)) (clientIP r) (clock env (tick n)) (walkBuckets env (tick n))).2 in
  (passed = false -> handler r n = (counted env r n, Returns writeTooManyRequests))
  /\ (passed = true -> ~ keyed (nc_RPCAPIKeys cfg) r -> (exists k, k ∈ nc_RPCAPIKeys cfg /\ TrimSpace k <> []) ->
      handler r n = (counted env r n, Returns (with_header (originHeader cfg r) writeUnauthorized)))
  /\ (passed = true -> keyed (nc_RPCAPIKeys cfg) r \/ (forall k, k ∈ nc_RPCAPIKeys cfg -> TrimSpace k = []) ->
      handler r n = (let@ reply := Server_ServeHTTP errorText (rpcServer env errorText fuel coinbase networked peerCount hashCount cfg) (hr_method r) (hr_body r) in
                     act_ret (with_header (originHeader cfg r) reply)) (counted env r n)).
Proof. intros Hm. by apply gate_lemma. Qed.

Lemma rpc_gate_witness :
  exists n', rpcHandler (smallEnv 241000) (fun _ => []) 0 nine false None (fun _ => 0) lockedConfig stranger portNode = (n', Returns (with_header [] writeUnauthorized))
    /\ shared n' = shared portNode.
Proof.
  destruct (rpc_gate (smallEnv 241000) (fun _ => []) 0 nine false None (fun _ => 0) lockedConfig stranger portNode) as (_ & Hno & _); [discriminate|].
  exists (counted (smallEnv 241000) stranger portNode). split; [|reflexivity].
  rewrite Hno; [reflexivity|vm_compute; reflexivity| |exists (str "secret"); split; [apply list_elem_of_In; left; reflexivity|discriminate]].
  intros Hk%authorized_keyed. revert Hk. vm_compute. discriminate.
Defined.

(** The RPC limiter is bounded and cuts floods.  After any calls of named clients its table is within its bound,
    by evicting who has been idle for longest; and of [n] requests at one instant from a client that is not in the
    table exactly [min n B] pass, where [B] is the burst configured. *)
Theorem rpc_rate_limited cfg calls ip t walk n B :
  Forall (fun c => fst (fst c) <> [] /\ walks (snd c)) calls -> cfg_Burst cfg = Z.of_nat B -> (1 <= B <= exactUpTo)%nat ->
  let rl := allowAll_ calls (NewRateLimiter cfg) in
  Z.of_nat (size (rl_buckets rl)) <= rl_maxTracked (NewRateLimiter cfg)
  /\ (rl_buckets rl !! ip = None -> snd (rpcFlood n rl ip t walk) = Nat.min n B).
Proof.
  intros Hc HB Hr. destruct (allowAll_ok calls (NewRateLimiter cfg) Hc (NewRateLimiter_ok cfg)) as ([_ Hs _] & Em & Eb).
  split; [by rewrite <- Em|]. intros Hip.
  assert (rl_burst (NewRateLimiter cfg) = f_of_Z (Z.of_nat B)) as Ebu.
  { cbn [NewRateLimiter rl_burst]. rewrite HB. by destruct (Z.ltb_spec (Z.of_nat B) 1); [lia|]. }
  rewrite <- Eb in Ebu. pose proof (rpcFlood_count n _ ip t walk B Hip Ebu ltac:(lia)) as Hf.
  destruct (rpcFlood n _ ip t walk) as [rl' k]. apply Hf.
Qed.

Lemma rpc_rate_limited_witness :
  let rl := allowAll_ [(str "10.0.0.1", 0, fun m => (map_to_list m).*1); (str "10.0.0.2", 0, fun m => (map_to_list m).*1)]
              (NewRateLimiter (mkRateLimit 3 (f_of_Z 1) 1)) in
  Z.of_nat (size (rl_buckets rl)) <= 1 /\ snd (rpcFlood 5 rl (str "10.0.0.3") 0 (fun m => (map_to_list m).*1)) = 3%nat.
Proof.
  destruct (rpc_rate_limited (mkRateLimit 3 (f_of_Z 1) 1)
    [(str "10.0.0.1", 0, fun m => (map_to_list m).*1); (str "10.0.0.2", 0, fun m => (map_to_list m).*1)] (str "10.0.0.3") 0
    (fun m => (map_to_list m).*1) 5 3) as [Hs Hf].
  - do 2 (apply Forall_cons; split; [split; [discriminate|intros m; reflexivity]|]). apply Forall_nil. exact I.
  - reflexivity.
  - unfold exactUpTo. lia.
  - split; [exact Hs|]. apply Hf. vm_compute. reflexivity.
Defined.
