(* ===== verification/FaucetProps.v ===== *)
(** * The faucet pays an address once (node/faucet.go)

    The ring and the set of claimed addresses always hold the last claims, up
    to the bound; so an address is paid again only after that many others. *)
From stdpp Require Import base numbers list gmap.
From Stdlib Require Import ZArith Lia Strings.Byte.
From Stdlib Require Strings.String.
Import Strings.String.StringSyntax.
From S2P Require Import Prelude Common Types VmBase Precompiles Vm State Transition Json JsonCodec Store Schema SchemaProofs Wire Mempool.
From S2P Require Import Blockchain Genesis ChainProps Scorer P2p Rpc RpcApi Net RpcGate Faucet VmProps GossipProps PoolProps.
#[local] Open Scope Z_scope.
#[local] Open Scope list_scope.
#[local] Open Scope act_scope.

(** ** The ring *)

(** The last [M] claims. *)
Definition window (M : nat) (hist : list Address) : list Address := drop (length hist - M) hist.

(** The faucet after the claims [hist], oldest first. *)
Record claims (M : nat) (hist : list Address) (f : Faucet) : Prop := {
  cl_max : fa_maxClaims f = Z.of_nat M;
  cl_set : fa_claimed f = list_to_set (window M hist);
  cl_nodup : NoDup (window M hist);
  cl_spaced : forall i j a, (i < j)%nat -> hist !! i = Some a -> hist !! j = Some a -> (M < j - i)%nat;
  cl_pos : fa_ringPos f = (length hist mod M)%nat;
  cl_full : fa_ringFull f = (M <=? length hist)%nat;
  cl_ring : match fa_ring f with
            | None => hist = []
            | Some ring => length ring = M
                /\ forall i a, (length hist - M <= i)%nat -> hist !! i = Some a -> ring !! (i mod M)%nat = Some a
            end;
}.

Lemma window_snoc M hist a : (1 <= M)%nat ->
  window M (hist ++ [a]) = (if (M <=? length hist)%nat then drop 1 (window M hist) else window M hist) ++ [a].
Proof.
  intros HM. unfold window. rewrite length_app. cbn [length]. rewrite drop_app_le by lia.
  destruct (Nat.leb_spec M (length hist)); f_equal.
  - rewrite drop_drop. f_equal. lia.
  - f_equal. lia.
Qed.

Lemma window_head M hist a : (1 <= M <= length hist)%nat -> hist !! (length hist - M)%nat = Some a -> window M hist = a :: drop 1 (window M hist).
Proof. intros HM Ha. unfold window. rewrite (drop_S hist a _ Ha). done. Qed.

Lemma mod_apart i t M : (1 <= M)%nat -> (t < i + M)%nat -> (i < t)%nat -> (i mod M <> t mod M)%nat.
Proof.
  intros HM H1 H2 E. pose proof (Nat.div_mod_eq i M). pose proof (Nat.div_mod_eq t M). rewrite E in *.
  assert (M * (t / M - i / M) = t - i)%nat by nia. destruct (t / M - i / M)%nat; nia.
Qed.

Lemma mod_next t M : (1 <= M)%nat -> (if Z.of_nat (S (t mod M)) =? Z.of_nat M then O else S (t mod M)) = (S t mod M)%nat.
Proof.
  intros HM. pose proof (Nat.mod_upper_bound t M ltac:(lia)). pose proof (Nat.div_mod_eq t M). destruct (Z.eqb_spec (Z.of_nat (S (t mod M))) (Z.of_nat M)).
  - replace (S t) with (S (t / M) * M)%nat by nia. by rewrite Nat.Div0.mod_mul.
  - replace (S t) with (S (t mod M) + (t / M) * M)%nat by nia. rewrite Nat.Div0.mod_add, (Nat.mod_small (S (t mod M))); [done|lia].
Qed.

Lemma mod_wraps t M : (1 <= M)%nat -> (if Z.of_nat (S (t mod M)) =? Z.of_nat M then true else (M <=? t)%nat) = (M <=? S t)%nat.
Proof.
  intros HM. pose proof (Nat.div_mod_eq t M). destruct (Z.eqb_spec (Z.of_nat (S (t mod M))) (Z.of_nat M)).
  - symmetry. apply Nat.leb_le. nia.
  - destruct (Nat.leb_spec M t), (Nat.leb_spec M (S t)); try lia. assert (S t = M) as <- by lia. by rewrite Nat.mod_small in n by lia.
Qed.

(** The ring with every place set. *)
Definition ringOf (f : Faucet) : list Address := match fa_ring f with Some r => r | None => replicate (Z.to_nat (fa_maxClaims f)) ZeroAddress end.

Lemma ringOf_claims M hist f : claims M hist f ->
  length (ringOf f) = M /\ forall i a, (length hist - M <= i)%nat -> hist !! i = Some a -> ringOf f !! (i mod M)%nat = Some a.
Proof.
  intros [Hmax _ _ _ _ _ Hring]. unfold ringOf. destruct (fa_ring f); [done|]. subst hist. rewrite length_replicate, Hmax, Nat2Z.id. done.
Qed.

(** What is left of the set once the place is taken. *)
Lemma forgotten M hist f : (1 <= M)%nat -> claims M hist f ->
  match ringOf f !! fa_ringPos f with
  | Some oldest => if fa_ringFull f then fa_claimed f ∖ {[oldest]} else fa_claimed f
  | None => fa_claimed f
  end = list_to_set (if (M <=? length hist)%nat then drop 1 (window M hist) else window M hist).
Proof.
  intros HM Hc. destruct (ringOf_claims M hist f Hc) as [Hlen Hget]. destruct Hc as [_ Hset Hnd _ Hpos Hfull _].
  destruct (lookup_lt_is_Some_2 (ringOf f) (fa_ringPos f)) as [old Eold].
  { rewrite Hlen, Hpos. apply Nat.mod_upper_bound. lia. }
  rewrite Eold, Hfull. destruct (Nat.leb_spec M (length hist)) as [Hle|]; [|by rewrite Hset].
  destruct (lookup_lt_is_Some_2 hist (length hist - M)) as [x Ex]; [lia|].
  assert (old = x) as ->.
  { specialize (Hget _ x (le_n _) Ex). assert ((length hist - M) mod M = length hist mod M)%nat as E.
    { replace (length hist) with ((length hist - M) + 1 * M)%nat at 2 by lia. by rewrite Nat.Div0.mod_add. }
    rewrite E, <- Hpos in Hget. congruence. }
  rewrite Hset. rewrite (window_head M hist x) in Hnd |- * at 1 by (done || lia). apply NoDup_cons in Hnd as [Hx _].
  rewrite list_to_set_cons, difference_union_distr_l_L, difference_diag_L, union_empty_l_L. apply difference_disjoint_L. set_solver.
Qed.

Lemma spaced_snoc M hist a :
  (forall i j b, (i < j)%nat -> hist !! i = Some b -> hist !! j = Some b -> (M < j - i)%nat) -> a ∉@{gset Address} list_to_set (window M hist) ->
  forall i j b, (i < j)%nat -> (hist ++ [a]) !! i = Some b -> (hist ++ [a]) !! j = Some b -> (M < j - i)%nat.
Proof.
  intros Hsp Ha i j b Hij Hi Hj. apply lookup_app_Some in Hj as [Hj|[Hge Hj]].
  - pose proof (lookup_lt_Some _ _ _ Hj). rewrite lookup_app_l in Hi by lia. by apply (Hsp i j b).
  - destruct (j - length hist)%nat as [|k] eqn:Ej; [|done]. injection Hj as <-. assert (j = length hist) as -> by lia.
    rewrite lookup_app_l in Hi by lia. destruct (decide (length hist - M <= i)%nat); [|lia]. exfalso. apply Ha, elem_of_list_to_set.
    apply (list_elem_of_lookup_2 _ (i - (length hist - M))). unfold window. rewrite lookup_drop. rewrite <- Hi. f_equal. lia.
Qed.

(** A new claim: the oldest is forgotten when the ring is full. *)
Lemma remember_claims M hist a f : (1 <= M)%nat -> claims M hist f -> a ∉ fa_claimed f -> claims M (hist ++ [a]) (remember a f).
Proof.
  intros HM Hc Ha. destruct (ringOf_claims M hist f Hc) as [Hlen Hget]. pose proof (forgotten M hist f HM Hc) as Hforget.
  destruct Hc as [Hmax Hset Hnd Hsp Hpos Hfull Hring]. rewrite Hset in Ha.
  assert (fa_ringPos f < M)%nat as Hlt by (rewrite Hpos; apply Nat.mod_upper_bound; lia).
  unfold remember. fold (ringOf f). rewrite Hforget. split; cbn [fa_maxClaims fa_claimed fa_ringPos fa_ringFull fa_ring].
  - done.
  - rewrite window_snoc by done. generalize (if (M <=? length hist)%nat then drop 1 (window M hist) else window M hist) as X. intros X.
    rewrite list_to_set_app_L. cbn [list_to_set]. rewrite union_empty_r_L. apply union_comm_L.
  - rewrite window_snoc by done. apply NoDup_app. split_and!; [|intros x Hx ->%list_elem_of_singleton; apply Ha, elem_of_list_to_set|by apply NoDup_singleton].
    + destruct (M <=? length hist)%nat; [|done]. rewrite <- (take_drop 1 (window M hist)) in Hnd. by apply NoDup_app in Hnd as (_ & _ & ?).
    + destruct (M <=? length hist)%nat; [|done]. rewrite <- (take_drop 1 (window M hist)). apply elem_of_app. by right.
  - by apply spaced_snoc.
  - rewrite Hmax, Hpos, length_app. cbn [length]. rewrite Nat.add_1_r. by apply mod_next.
  - rewrite Hmax, Hpos, Hfull, length_app. cbn [length]. rewrite Nat.add_1_r. by apply mod_wraps.
  - rewrite length_insert. split; [done|]. rewrite length_app. cbn [length]. intros i b Hi Hb.
    apply lookup_app_Some in Hb as [Hb|[Hge Hb]].
    + pose proof (lookup_lt_Some _ _ _ Hb). rewrite list_lookup_insert_ne; [apply Hget; [lia|done]|]. rewrite Hpos.
      intros E. symmetry in E. revert E. apply mod_apart; lia.
    + destruct (i - length hist)%nat as [|k] eqn:Ei; [|done]. injection Hb as <-. replace i with (length hist) by lia. rewrite <- Hpos.
      apply list_lookup_insert_eq. lia.
Qed.

Lemma with_nonce_claims M hist k f : claims M hist f -> claims M hist (Faucet.with_nonce k f).
Proof. by intros []. Qed.

Lemma faucetSync_claims M hist k f : claims M hist f -> claims M hist (faucetSync k f).
Proof. intros Hc. unfold faucetSync. destruct (_ || _); [by apply with_nonce_claims|done]. Qed.

(** A faucet as [NewFaucet] makes it, with a bound of one's own. *)
Definition freshFaucet (max : Z) : Faucet := mkFaucet 0 false ∅ max None 0 false.

Lemma freshFaucet_claims M : (1 <= M)%nat -> claims M [] (freshFaucet (Z.of_nat M)).
Proof.
  intros HM. split; cbn [freshFaucet fa_maxClaims fa_claimed fa_ringPos fa_ringFull fa_ring length].
  - done.
  - unfold window. by rewrite drop_nil.
  - unfold window. rewrite drop_nil. apply NoDup_nil_2.
  - done.
  - by rewrite Nat.Div0.mod_0_l.
  - symmetry. apply Nat.leb_gt. lia.
  - done.
Qed.

(** ** Requests *)

(** The address a request names. *)
Definition claimant (r : httpRequest) : option Address :=
  match decodeStream faucetRequestC (take 1024 (hr_body r)) with
  | Some a => match AddressFromHex a with Ok addr => Some addr | _ => None end
  | None => None
  end.

(** Who was paid: the answer says 200. *)
Definition paid (r : httpRequest) (o : callres error reply) : list Address :=
  match o, claimant r with
  | Returns rep, Some a => if status (rp_response rep) =? 200 then [a] else []
  | _, _ => []
  end.

Section Requests.
Context `{Crypto} `{Bn256} {D S : Type} `{KV D} (env : Env D) (errorText : error -> list byte).
Context (key : privKey) (amount : Z) (broadcast : option (Transaction -> act D S unit)).
Context (get : S -> Faucet) (set : Faucet -> S -> S) (Hlens : forall f s, get (set f s) = f).
Context (Hgossip : forall send tx n, broadcast = Some send -> get (own (fst (send tx n))) = get (own n)).

Abbreviation serve := (Faucet_ServeHTTP env errorText key amount broadcast get set).

Lemma faucetSync_claimed k f : fa_claimed (faucetSync k f) = fa_claimed f.
Proof. unfold faucetSync. by destruct (_ || _). Qed.

Lemma addLocal_own tx (n : Node D S) : own (fst (addLocal env tx n)) = own n.
Proof. unfold addLocal, on_shared. by destruct (AddLocal _ _ _ _). Qed.

(** The gossip of a payment leaves the faucet as it is. *)
Lemma send_own tx (n : Node D S) :
  get (own (fst (match broadcast with Some send => attempt (send tx) | None => act_ret (inr tt) end n))) = get (own n).
Proof.
  destruct broadcast as [send|] eqn:E; [|done]. specialize (Hgossip send tx n eq_refl). unfold attempt. by destruct (send tx n) as [n' []].
Qed.

Lemma dispense_claims M hist a n :
  (1 <= M)%nat -> claims M hist (get (own n)) ->
  let (n', o) := dispense env errorText key amount broadcast get set a n in
  claims M (hist ++ match o with Returns rep => if status (rp_response rep) =? 200 then [a] else [] | _ => [] end) (get (own n')).
Proof.
  intros HM Hc. unfold dispense. unfold act_bind at 1, get_own at 1. destruct (bool_decide_reflect (a ∈ fa_claimed (get (own n)))) as [|Hnew].
  { cbn. by rewrite app_nil_r. }
  unfold act_bind at 1, look at 1, on_shared at 1. cbn [own shared tick events].
  destruct (StateSnapshot _) as [st|e|]; [|cbn; by rewrite app_nil_r..].
  unfold act_bind at 1, on_own at 1. cbn [own shared tick events]. set (f1 := faucetSync _ _).
  assert (claims M hist f1) as Hc1 by (by apply faucetSync_claims). assert (a ∉ fa_claimed f1) as Hnew1 by (unfold f1; by rewrite faucetSync_claimed).
  unfold act_bind at 1, get_own at 1. cbn [own shared tick events]. unfold act_bind at 1, look at 1, on_shared at 1. cbn [own shared tick events].
  rewrite !Hlens. set (n1 := mkNode _ _ _ _). assert (get (own n1) = f1) as E1 by (cbn; by rewrite Hlens).
  assert (claims M (hist ++ []) (get (own n1))) as Hc2 by (by rewrite E1, app_nil_r).
  destruct (tx_Sign _ key) as [tx|e|]; [|done..]. destruct (CheckState st tx) as [[]|e|]; [|done..].
  unfold act_bind at 1, attempt at 1. pose proof (addLocal_own tx n1) as Eo. destruct (addLocal env tx n1) as [n2 [u|e| |]]; cbn [fst] in Eo.
  2-4: cbn; by rewrite Eo.
  unfold act_bind at 1. pose proof (send_own tx n2) as Es. rewrite Eo, E1 in Es.
  set (say := match broadcast with Some send => attempt (send tx) | None => act_ret (inr tt) end) in *.
  destruct (say n2) as [n3 [v|e| |]]; cbn [fst] in Es.
  2-4: rewrite Es; by rewrite app_nil_r.
  unfold act_bind, on_own, act_ret. cbn [own]. rewrite Es, Hlens. change (status _ =? 200) with true. apply remember_claims; [done|by apply with_nonce_claims|done].
Qed.

(** One request. *)
Lemma serve_claims M hist r n :
  (1 <= M)%nat -> claims M hist (get (own n)) -> let (n', o) := serve r n in claims M (hist ++ paid r o) (get (own n')).
Proof.
  intros HM Hc. unfold Faucet_ServeHTTP, paid, claimant. pose proof (app_nil_r hist) as En.
  destruct (bool_decide (hr_method r = OPTIONS)).
  { cbn. destruct (decodeStream _ _) as [x|]; [destruct (AddressFromHex x)|]; by rewrite En. }
  destruct (negb _).
  { cbn. destruct (decodeStream _ _) as [x|]; [destruct (AddressFromHex x)|]; by rewrite En. }
  destruct (decodeStream _ _) as [x|]; [|cbn; by rewrite En]. destruct (AddressFromHex x) as [a| |]; [|cbn; by rewrite En..].
  pose proof (dispense_claims M hist a n HM Hc) as Hd. destruct (dispense _ _ _ _ _ _ _ a n) as [n' [rep| | |]]; done.
Qed.

(** Requests one after the other, and who was paid. *)
Fixpoint serveAll (rs : list httpRequest) (n : Node D S) : list Address * Node D S :=
  match rs with
  | [] => ([], n)
  | r :: rs =>
      let (n', o) := serve r n in
      let (l, n'') := serveAll rs n' in
      (paid r o ++ l, n'')
  end.

Lemma serveAll_claims M hist rs n : (1 <= M)%nat -> claims M hist (get (own n)) ->
  let (l, n') := serveAll rs n in claims M (hist ++ l) (get (own n')).
Proof.
  intros HM. revert hist n. induction rs as [|r rs IH]; intros hist n Hc; cbn [serveAll]; [by rewrite app_nil_r|].
  pose proof (serve_claims M hist r n HM Hc) as H1'. destruct (serve r n) as [n' o]. specialize (IH _ n' H1'). destruct (serveAll rs n') as [l n''].
  by rewrite app_assoc.
Qed.

End Requests.

(** ** A small faucet that remembers one claim *)

#[local] Existing Instance mixCrypto.
#[local] Existing Instance toyBn256.

(** The small network's genesis, with money in the faucet's wallet. *)
Definition richState : State := Credit (default State_New (states chain0 !! Block_Hash (head chain0))) (PrivateKey_Address smallKey) 1000000.

Definition richChain : Blockchain Memory := with_caches (blockCache chain0) {[Block_Hash (head chain0) := richState]} chain0.

Definition faucetNode : Node Memory Faucet := mkNode (freshFaucet 1) (mkShared richChain None (Mempool_New 100)) 0 [].

Definition claim (a : Address) : httpRequest := mkHttpRequest POST (str "/faucet") [] [] (encodeJSON faucetRequestC (Address_Hex a)).

Definition alice : Address := array_of 20 [x61].
Definition bob : Address := array_of 20 [x62].

(** ** Properties *)

(** C26: the faucet pays an address once.  Whatever requests arrive, with whatever the rest of the node does between a
    request's steps, two payments to the same address have at least as many payments to others between them as the
    faucet's bound on remembered claims (200000 as the node sets it). *)
Theorem faucet_once `{Crypto} `{Bn256} {D S} `{KV D} (env : Env D) (errorText : error -> list byte) key amount broadcast
    (get : S -> Faucet) (set : Faucet -> S -> S) M rs n i j a :
  (forall f s, get (set f s) = f) -> (forall send tx n, broadcast = Some send -> get (own (fst (send tx n))) = get (own n)) ->
  (1 <= M)%nat -> get (own n) = freshFaucet (Z.of_nat M) ->
  let paidTo := fst (serveAll env errorText key amount broadcast get set rs n) in
  (i < j)%nat -> paidTo !! i = Some a -> paidTo !! j = Some a -> (M < j - i)%nat.
Proof.
  intros Hlens Hgossip HM Hf. pose proof (serveAll_claims env errorText key amount broadcast get set Hlens Hgossip M [] rs n HM) as Hc.
  rewrite Hf in Hc. specialize (Hc (freshFaucet_claims M HM)). destruct (serveAll _ _ _ _ _ _ _ rs n) as [l n']. cbn [fst app] in *.
  apply (cl_spaced _ _ _ Hc).
Qed.

Lemma faucet_once_witness :
  let paidTo := fst (serveAll (smallEnv 241000) (fun _ => []) smallKey 10 None id (fun f _ => f) [claim alice; claim alice; claim bob; claim alice] faucetNode) in
  paidTo = [alice; bob; alice] /\ (1 < 2 - 0)%nat.
Proof.
  set (l := serveAll _ _ _ _ _ _ _ _ _). assert (bool_decide (fst l = [alice; bob; alice]) = true) as E%bool_decide_eq_true by (vm_compute; reflexivity).
  split; [exact E|].
  apply (faucet_once (smallEnv 241000) (fun _ => []) smallKey 10 None id (fun f _ => f) 1 [claim alice; claim alice; claim bob; claim alice] faucetNode 0 2 alice);
    [reflexivity|discriminate|lia|reflexivity|lia|exact (f_equal (lookup 0%nat) E)|exact (f_equal (lookup 2%nat) E)].
Defined.
