(* ===== verification/Pegwatch.v ===== *)
(** * The peg's relayer (cmd/pegwatch/main.go)

    The daemon that mirrors the two peg contracts across the two chains.  A
    [chain] is one side: its contract, the operator's key and the HTTP exchange
    with its node, which is the world the daemon acts on ([post] takes and
    gives back the state [E] of that world, and answers or fails as it likes).
    [relay] is one direction of one tick, [tick] the body of the loop of
    [main].  The order in which [sort.Slice] leaves logs of one block is not
    specified: the sort is an argument. *)
From stdpp Require Import base numbers list gmap sorting.
From Stdlib Require Import ZArith Lia Strings.Byte.
From Stdlib Require Strings.String.
Import Strings.String.StringSyntax.
From S2P Require Import Prelude Common Types VmBase Contracts Json Net JsonCodec Wire Pool PoolHttp Rpc.
#[local] Open Scope Z_scope.
#[local] Open Scope list_scope.
#[local] Open Scope go_scope.

#[local] Notation "'let*' x ':=' o 'in' k" := (mbind (fun x => k) o) (at level 10, x name, o at level 200, k at level 200).

(** ** Hex helpers *)

Definition hexBig (s : list byte) : Z :=
  let s := trim0x (TrimSpace s) in
  match s with
  | [] => 0
  | _ => default 0 (setString16 s)
  end.

(** [big.Int.Uint64]: the low 64 bits of the magnitude. *)
Definition hexU64 (s : list byte) : Z := u64 (Z.abs (hexBig s)).

Definition hexOf (v : Z) : list byte := [x30; x78] ++ text16 v.

(** [n.Bytes()] in the last bytes of a word; more than 32 of them panic. *)
Definition word (n : Z) : res (list byte) :=
  let b := be_min (Z.abs n) in
  if 32 <? len b then Panic else Ok (zeros (32 - len b) ++ b).

Definition topicToAddr (topic : list byte) : Address :=
  let b := be_min (Z.abs (hexBig topic)) in
  if 20 <=? len b then array_of AddressLength (drop (Z.to_nat (len b - 20)) b)
  else array_of AddressLength (zeros (20 - len b) ++ b).

(** ** One side *)

Record ethLog : Type := mkEthLog { lg_Topics : list (list byte); lg_Data : list byte; lg_BlockNumber : list byte; lg_TxHash : list byte }.

Definition ethLogC : codec ethLog := structC (mkEthLog [] [] [] [])
  (fun l => [(str "topics", enc (listC stringC) (lg_Topics l)); (str "data", JStr (lg_Data l));
             (str "blockNumber", JStr (lg_BlockNumber l)); (str "transactionHash", JStr (lg_TxHash l))])
  (fun ms cur =>
     let* t := field (listC stringC) (str "topics") ms (lg_Topics cur) in
     let* d := field stringC (str "data") ms (lg_Data cur) in
     let* b := field stringC (str "blockNumber") ms (lg_BlockNumber cur) in
     let* h := field stringC (str "transactionHash") ms (lg_TxHash cur) in
     Some (mkEthLog t d b h)).

Section Pegwatch.
Context `{Crypto} {E : Type}.

Record chain : Type := mkChain {
  ch_chainID : Z;
  ch_contract : Address;
  ch_key : privKey;
  post : list byte -> list json -> E -> E * res response;
}.

(** [c.client.Call(method, &out, params...)] *)
Definition callNode {A} (out : codec A) (c : chain) (method : list byte) (params : list json) (e : E) : E * res A :=
  let (e, answer) := post c method params e in
  (e, Client_Call out answer).

Definition head (c : chain) (e : E) : E * res Z :=
  let (e, r) := callNode stringC c (str "eth_blockNumber") [] e in
  (e, let? s := r in Ok (hexU64 s)).

Definition gasPrice (c : chain) (e : E) : E * res Z :=
  let (e, r) := callNode stringC c (str "eth_gasPrice") [] e in
  (e, match r with Ok s => Ok (hexBig s) | Err _ => Ok 1 | Panic => Panic end).

(** The keys of the filter in the order of [json.Marshal]. *)
Definition logFilter (c : chain) (topic0 : Hash) (from to : Z) : json :=
  JObj [(str "address", JStr (Address_Hex (ch_contract c))); (str "fromBlock", JStr (hexOf from));
        (str "toBlock", JStr (hexOf to)); (str "topics", JArr [JStr (Hash_Hex topic0)])].

Definition getLogs (c : chain) (topic0 : Hash) (from to : Z) (e : E) : E * res (list ethLog) :=
  callNode (listC ethLogC) c (str "eth_getLogs") [logFilter c topic0 from to] e.

Definition submit (c : chain) (data : list byte) (gasPrice : Z) (e : E) : E * res (list byte) :=
  let (e, r) := callNode stringC c (str "eth_getTransactionCount")
                  [JStr (Address_Hex (PrivateKey_Address (ch_key c))); JStr (str "pending")] e in
  match r with
  | Err err => (e, Err err)
  | Panic => (e, Panic)
  | Ok nonceHex =>
      let tx := mkTx TxTypeEthLegacy (ch_chainID c) (hexU64 nonceHex) (Some (ch_contract c)) (Some 0) 200000 (Some gasPrice) data [] in
      match tx_Sign tx (ch_key c) with
      | Err err => (e, Err err)
      | Panic => (e, Panic)
      | Ok tx =>
          let raw := [x30; x78] ++ hex_EncodeToString (EncodeEthRaw tx) in
          callNode stringC c (str "eth_sendRawTransaction") [JStr raw] e
      end
  end.

Definition processed (c : chain) (selector : list byte) (nonce : Z) (e : E) : E * res bool :=
  match word nonce with
  | Ok w =>
      let data := [x30; x78] ++ hex_EncodeToString (selector ++ w) in
      let (e, r) := callNode stringC c (str "eth_call")
                      [JObj [(str "data", JStr data); (str "to", JStr (Address_Hex (ch_contract c)))]; JStr (str "latest")] e in
      (e, let? out := r in Ok (negb (Z.sgn (hexBig out) =? 0)))
  | _ => (e, Panic)
  end.

(** ** A relay *)

Definition holdCursor (l : ethLog) (cursor : Z) : Z :=
  let b := hexU64 (lg_BlockNumber l) in
  if 0 <? b then b - 1 else cursor.

Definition buildCalldata : Type := Z -> Address -> Z -> res (list byte).

Definition eventArgs (l : ethLog) : option (Z * Address * Z) :=
  match lg_Topics l with
  | _ :: t1 :: t2 :: _ => Some (hexBig t1, topicToAddr t2, hexBig (lg_Data l))
  | _ => None
  end.

(** The loop over the logs: the new cursor, [safe] at the end. *)
Fixpoint relayLogs (dst : chain) (build : buildCalldata) (processedSel : list byte) (gp safe cursor : Z) (logs : list ethLog) (e : E)
    : E * res Z :=
  match logs with
  | [] => (e, Ok safe)
  | l :: logs =>
      match eventArgs l with
      | None => relayLogs dst build processedSel gp safe cursor logs e
      | Some (nonce, to, amount) =>
          let (e, done) := processed dst processedSel nonce e in
          match done with
          | Panic => (e, Panic)
          | Err _ => (e, Ok (holdCursor l cursor))
          | Ok true => relayLogs dst build processedSel gp safe cursor logs e
          | Ok false =>
              match build nonce to amount with
              | Ok data =>
                  let (e, r) := submit dst data gp e in
                  match r with
                  | Panic => (e, Panic)
                  | Err _ => (e, Ok (holdCursor l cursor))
                  | Ok _ => relayLogs dst build processedSel gp safe cursor logs e
                  end
              | _ => (e, Panic)
              end
          end
      end
  end.

(** [sortSlice] puts the logs in the order of their blocks. *)
Definition relay (sortSlice : list ethLog -> list ethLog) (src dst : chain) (topic0 : Hash) (build : buildCalldata)
    (processedSel : list byte) (confirmations cursor : Z) (e : E) : E * res Z :=
  let (e, h) := head src e in
  match h with
  | Panic => (e, Panic)
  | Err _ => (e, Ok cursor)
  | Ok h =>
      if h <? confirmations then (e, Ok cursor)
      else
        let safe := h - confirmations in
        if safe <=? cursor then (e, Ok cursor)
        else
          let (e, r) := getLogs src topic0 (u64 (cursor + 1)) safe e in
          match r with
          | Panic => (e, Panic)
          | Err _ => (e, Ok cursor)
          | Ok logs =>
              let (e, gp) := gasPrice dst e in
              match gp with
              | Ok gp => relayLogs dst build processedSel gp safe cursor (sortSlice logs) e
              | _ => (e, Panic)
              end
          end
  end.

(** The two cursors of the block store. *)
Record blockStore : Type := mkBlockStore { bs_LXS : Z; bs_Base : Z }.

Definition mintedNonceSel : list byte := [xa0; x27; xa1; xa7].
Definition releasedNonceSel : list byte := [xd0; x66; x52; xdf].
Definition PegLockedTopic : Hash := Keccak256 [str "Locked(uint256,address,uint256)"].
Definition WlxsRedeemTopic : Hash := Keccak256 [str "Redeem(uint256,address,uint256)"].

(** The two relays of the loop of [main]: locks to the token, redemptions to the vault. *)
Definition mintRelay (sortSlice : list ethLog -> list ethLog) (lxs base : chain) : Z -> Z -> E -> E * res Z :=
  relay sortSlice lxs base PegLockedTopic WlxsMintCalldata mintedNonceSel.
Definition releaseRelay (sortSlice : list ethLog -> list ethLog) (lxs base : chain) : Z -> Z -> E -> E * res Z :=
  relay sortSlice base lxs WlxsRedeemTopic PegReleaseCalldata releasedNonceSel.

(** One turn of the loop of [main], up to the save. *)
Definition tick (sortSlice : list ethLog -> list ethLog) (lxs base : chain) (confirmations : Z) (store : blockStore) (e : E)
    : E * res blockStore :=
  let (e, r) := mintRelay sortSlice lxs base confirmations (bs_LXS store) e in
  match r with
  | Ok l =>
      let (e, r) := releaseRelay sortSlice lxs base confirmations (bs_Base store) e in
      (e, let? b := r in Ok (mkBlockStore l b))
  | Err err => (e, Err err)
  | Panic => (e, Panic)
  end.

End Pegwatch.
