(* ===== verification/PegProps.v ===== *)
(** * The peg, end to end

    The vault on LXS, the token on the other chain, and the relayer between
    them.  The relayer's run is recorded as the list of requests it makes; the
    nodes answer as they like, save that a log they report is one that the
    contract emitted.  Whatever is submitted may land late, twice or never, in
    any order, and everyone else may call the contracts meanwhile: the token's
    supply stays covered by the vault's reserve. *)
From stdpp Require Import base numbers list gmap sorting.
From Stdlib Require Import ZArith Lia Strings.Byte.
From Stdlib Require Strings.String.
Import Strings.String.StringSyntax.
From S2P Require Import Prelude Common Rlp Types EthTx VmBase Contracts Json Net JsonCodec Wire Pool PoolHttp Rpc.
From S2P Require Import Erc20Props Schema Peg Pegwatch.
#[local] Open Scope Z_scope.
#[local] Open Scope list_scope.
#[local] Open Scope go_scope.

(** ** Words as hex *)

Definition wordHex (z : Z) : list byte := [x30; x78] ++ hex_EncodeToString (be_fixed 32 z).

(** A number read digit by digit. *)
Definition hexDigits (ds : list Z) (acc : Z) : Z := fold_left (fun acc d => acc * 16 + d) ds acc.

Fixpoint uintDigits (u : Hexadecimal.uint) : list Z :=
  match u with
  | Hexadecimal.Nil => []
  | Hexadecimal.D0 u => 0 :: uintDigits u | Hexadecimal.D1 u => 1 :: uintDigits u
  | Hexadecimal.D2 u => 2 :: uintDigits u | Hexadecimal.D3 u => 3 :: uintDigits u
  | Hexadecimal.D4 u => 4 :: uintDigits u | Hexadecimal.D5 u => 5 :: uintDigits u
  | Hexadecimal.D6 u => 6 :: uintDigits u | Hexadecimal.D7 u => 7 :: uintDigits u
  | Hexadecimal.D8 u => 8 :: uintDigits u | Hexadecimal.D9 u => 9 :: uintDigits u
  | Hexadecimal.Da u => 10 :: uintDigits u | Hexadecimal.Db u => 11 :: uintDigits u
  | Hexadecimal.Dc u => 12 :: uintDigits u | Hexadecimal.Dd u => 13 :: uintDigits u
  | Hexadecimal.De u => 14 :: uintDigits u | Hexadecimal.Df u => 15 :: uintDigits u
  end.

Lemma pos_hex_acc u acc : Z.pos (Pos.of_hex_uint_acc u acc) = hexDigits (uintDigits u) (Z.pos acc).
Proof. revert acc. induction u; intros acc; cbn; [done|rewrite IHu; unfold hexDigits; f_equal; lia..]. Qed.

Lemma of_hex_uint_digits u : Z.of_N (N.of_hex_uint u) = hexDigits (uintDigits u) 0.
Proof. unfold N.of_hex_uint. induction u; cbn; [done|exact IHu|apply pos_hex_acc..]. Qed.

Lemma consHex_digit d u : 0 <= d < 16 -> exists u', consHex (hex_digit d) u = Some u' /\ uintDigits u' = d :: uintDigits u.
Proof.
  intros Hd. assert (d ∈ seqZ 0 16) as Hin by (apply elem_of_seqZ; lia). cbn in Hin.
  repeat (apply elem_of_cons in Hin as [->|Hin]; [by eexists|]). by apply not_elem_of_nil in Hin.
Qed.

(** The hex text of bytes is read as their number. *)
Lemma readHex_bytes bs : exists u, bytes_hex (hex_EncodeToString bs) = Some u
  /\ forall acc, hexDigits (uintDigits u) acc = acc * 256 ^ len bs + be2z bs.
Proof.
  induction bs as [|b bs (u & E & IH)].
  - exists Hexadecimal.Nil. split; [done|]. intros acc. change (len []) with 0. rewrite be2z_nil. cbn. lia.
  - pose proof (b2z_range b). pose proof (Z.div_mod (b2z b) 16). pose proof (Z.mod_pos_bound (b2z b) 16).
    destruct (consHex_digit (b2z b mod 16) u ltac:(lia)) as (u1 & E1 & D1).
    destruct (consHex_digit (b2z b / 16) u1) as (u2 & E2 & D2); [split; [apply Z.div_pos; lia|apply Z.div_lt_upper_bound; lia]|].
    exists u2. split.
    + change (hex_EncodeToString (b :: bs)) with (hex_digit (b2z b / 16) :: hex_digit (b2z b mod 16) :: hex_EncodeToString bs).
      cbn [bytes_hex]. rewrite E. cbn. rewrite E1. exact E2.
    + intros acc. rewrite D2, D1. unfold hexDigits in *. cbn [fold_left]. rewrite IH, be2z_cons, len_cons, Z.pow_add_r by (pose proof (len_nonneg bs); lia). nia.
Qed.

Lemma digit_plain d : 0 <= d < 16 -> isSpaceByte (hex_digit d) = false /\ hex_digit d <> x2b /\ hex_digit d <> x2d.
Proof.
  intros Hd. assert (d ∈ seqZ 0 16) as Hin by (apply elem_of_seqZ; lia). cbn in Hin.
  repeat (apply elem_of_cons in Hin as [->|Hin]; [by vm_compute|]). by apply not_elem_of_nil in Hin.
Qed.

Lemma TrimSpace_plain a l b : isSpaceByte a = false -> isSpaceByte b = false -> TrimSpace (a :: l ++ [b]) = a :: l ++ [b].
Proof.
  intros Ha Hb. unfold TrimSpace. cbn [trimLeft]. rewrite Ha. cbn [rev]. rewrite rev_app_distr. cbn [rev app trimLeft]. rewrite Hb.
  cbn [rev]. rewrite rev_app_distr, rev_involutive. done.
Qed.

Lemma hex_split b bs : hex_EncodeToString (b :: bs) = hex_digit (b2z b / 16) :: hex_digit (b2z b mod 16) :: hex_EncodeToString bs.
Proof. done. Qed.

Lemma hex_last bs : bs <> [] -> exists l d, hex_EncodeToString bs = l ++ [hex_digit d] /\ 0 <= d < 16.
Proof.
  induction bs as [|b bs IH]; [done|]. intros _. rewrite hex_split. destruct bs as [|c bs].
  - exists [hex_digit (b2z b / 16)], (b2z b mod 16). split; [done|]. apply Z.mod_pos_bound. lia.
  - destruct IH as (l & d & -> & Hd); [done|]. by exists (hex_digit (b2z b / 16) :: hex_digit (b2z b mod 16) :: l), d.
Qed.

Lemma Byte_eqb_ne a b : a <> b -> Byte.eqb a b = false.
Proof. intros Hne. destruct (Byte.eqb a b) eqn:E; [|done]. by apply Byte.byte_dec_bl in E. Qed.

Lemma hexBig_bytes bs : bs <> [] -> hexBig ([x30; x78] ++ hex_EncodeToString bs) = be2z bs.
Proof.
  intros Hne. destruct (readHex_bytes bs) as (u & E & Hu). unfold hexBig.
  destruct (hex_last bs Hne) as (l & d & El & Hd). destruct (digit_plain d Hd) as (Hs & _).
  replace ([x30; x78] ++ hex_EncodeToString bs) with (x30 :: (x78 :: l) ++ [hex_digit d]) by (rewrite El; done).
  rewrite TrimSpace_plain by done. change (trim0x _) with (l ++ [hex_digit d]). rewrite <- El.
  destruct bs as [|b bs]; [done|]. rewrite hex_split in *. set (c := hex_digit (b2z b / 16)) in *. cbn zeta. unfold setString16, signed.
  pose proof (b2z_range b). destruct (digit_plain (b2z b / 16)) as (_ & H1 & H2); [split; [apply Z.div_pos; lia|apply Z.div_lt_upper_bound; lia]|].
  fold c in H1, H2. unfold expect. rewrite !Byte_eqb_ne by done.
  cbn [default from_option id]. unfold readHex. rewrite E. cbn [fmap option_fmap option_map default from_option id].
  rewrite of_hex_uint_digits, Hu. lia.
Qed.

Lemma hexBig_wordHex z : 0 <= z < tt256 -> hexBig (wordHex z) = z.
Proof.
  intros Hz. unfold wordHex. rewrite hexBig_bytes.
  - rewrite be2z_be_fixed. by apply Z.mod_small.
  - intros E. pose proof (length_be_fixed 32 z) as Hl. by rewrite E in Hl.
Qed.

Lemma addr_range a : 0 <= addr a < 2 ^ 160.
Proof. unfold addr. pose proof (be2z_range (abytes a)) as Hr. rewrite len_abytes in Hr. exact Hr. Qed.

Lemma addr_word a : 0 <= addr a < tt256.
Proof. pose proof (addr_range a). unfold tt256. lia. Qed.

Lemma len_be_min_le n z : 0 <= z < 256 ^ Z.of_nat n -> len (be_min z) <= Z.of_nat n.
Proof.
  intros Hz. rewrite len_be_min. destruct (decide (z = 0)) as [->|Hne]; [change (byteLen 0) with 0; lia|]. pose proof (byteLen_lower z Hne) as Hl.
  rewrite Z.abs_eq in Hl by lia. assert (256 ^ (byteLen z - 1) < 256 ^ Z.of_nat n) as Hp by (eapply Z.le_lt_trans; [exact Hl|apply Hz]).
  apply Z.pow_lt_mono_r_iff in Hp; lia.
Qed.

Lemma zeros_be_min n z : 0 <= z < 256 ^ Z.of_nat n -> zeros (Z.of_nat n - len (be_min z)) ++ be_min z = be_fixed n z.
Proof.
  intros Hz. assert (len (be_min z) <= Z.of_nat n) as Hl by (by apply len_be_min_le).
  apply be2z_inj.
  - rewrite length_app, length_be_fixed. unfold zeros. rewrite length_replicate. unfold len in *. lia.
  - rewrite be2z_app, be2z_be_min, be2z_be_fixed, Z.mod_small, Z.abs_eq by lia. unfold zeros. rewrite be2z_zeros. lia.
Qed.

Lemma topicToAddr_word a : topicToAddr (wordHex (addr a)) = a.
Proof.
  unfold topicToAddr. rewrite hexBig_wordHex by apply addr_word. pose proof (addr_range a) as Ha. rewrite Z.abs_eq by lia.
  pose proof (zeros_be_min 20 (addr a) Ha) as E. change (Z.of_nat 20) with 20 in E.
  assert (be_fixed 20 (addr a) = abytes a) as Ef.
  { unfold addr. rewrite <- (be_fixed_be2z (abytes a)) at 2. by rewrite abytes_length. }
  rewrite Ef in E. pose proof (len_be_min_le 20 (addr a) Ha) as Hl.
  assert (forall l, l = abytes a -> array_of AddressLength l = a) as Harr by (intros l ->; apply array_of_abytes).
  destruct (Z.leb_spec 20 (len (be_min (addr a)))); apply Harr; [|exact E].
  replace (len (be_min (addr a))) with 20 in * by lia. exact E.
Qed.

(** ** Calldata *)

Section Calldata.
Context (selector : list byte) (n v : Z) (to : Address).
Hypothesis selector_len : length selector = 4%nat.
Hypothesis n_word : 0 <= n < tt256.
Hypothesis v_word : 0 <= v < tt256.

Lemma fields_of : appendAll selector [uint256Word n; adr to; uint256Word v]
  = Ok (selector ++ be_fixed 32 n ++ addrWord to ++ be_fixed 32 v).
Proof.
  unfold appendAll, uint256Word, FillBytes, adr. rewrite !Z.abs_eq by lia. change (256 ^ Z.of_nat 32) with tt256.
  rewrite !(proj2 (Z.leb_gt _ _)) by lia. cbn [res_bind]. by rewrite <- !app_assoc.
Qed.

Lemma abiArgs_built data : appendAll selector [uint256Word n; adr to; uint256Word v] = Ok data -> abiArgs selector data = Some (n, to, v).
Proof.
  rewrite fields_of. intros E. assert (data = selector ++ be_fixed 32 n ++ addrWord to ++ be_fixed 32 v) as -> by congruence. clear E.
  unfold abiArgs.
  assert (take 4 (selector ++ be_fixed 32 n ++ addrWord to ++ be_fixed 32 v) = selector) as -> by (by apply take_app_length').
  assert (forall (a b c : list byte) i, length a = (4 + 32 * i)%nat -> length b = 32%nat -> take 32 (drop (4 + 32 * i) (a ++ b ++ c)) = b) as Hw.
  { intros a b c i Ha Hb. rewrite drop_app_length' by done. by apply take_app_length'. }
  pose proof (length_be_fixed 32 n) as Ln. pose proof (length_be_fixed 32 v) as Lv. pose proof (len_addrWord to) as La. unfold len in La.
  rewrite (Hw selector _ _ 0%nat) by (done || lia).
  replace (selector ++ be_fixed 32 n ++ addrWord to ++ be_fixed 32 v) with ((selector ++ be_fixed 32 n) ++ addrWord to ++ be_fixed 32 v) by (by rewrite <- app_assoc).
  rewrite (Hw (selector ++ be_fixed 32 n) _ _ 1%nat) by (rewrite ?length_app; lia).
  replace ((selector ++ be_fixed 32 n) ++ addrWord to ++ be_fixed 32 v) with ((selector ++ be_fixed 32 n ++ addrWord to) ++ be_fixed 32 v ++ []) by (by rewrite app_nil_r, <- !app_assoc).
  rewrite (Hw _ _ [] 2%nat) by (rewrite ?length_app; lia).
  rewrite be2z_addrWord, !be2z_be_fixed, !Z.mod_small by done. fold (addr to). pose proof (addr_range to) as Ha.
  rewrite bool_decide_eq_true_2, (proj2 (Z.ltb_lt _ _)) by (done || lia). rewrite (proj2 (Z.leb_le _ _)).
  2: { unfold len. rewrite !length_app. cbn [length]. lia. }
  cbn [andb]. do 3 f_equal. unfold addr. rewrite <- (array_of_abytes to) at 2. f_equal.
  rewrite <- (be_fixed_be2z (abytes to)) at 2. by rewrite abytes_length.
Qed.

End Calldata.

(** ** What a submitted transaction carries *)

Section Carried.
Context `{Crypto}.

(** The text that [submit] sends for a transaction. *)
Definition rawText (tx : Transaction) : list byte := [x30; x78] ++ hex_EncodeToString (EncodeEthRaw tx).

(** The chain's reading of a raw transaction. *)
Definition readRaw (raw : list byte) : res Transaction := let? bytes := hex_DecodeString (trim0x raw) in ParseEthLegacyTx bytes.

Lemma EncodeEthRaw_carries tx : wf_tx tx ->
  EncodeEthRaw tx = [] \/ exists x y z, DecodeList (EncodeEthRaw tx) = Some (Ok (ethStrings tx x y z)).
Proof.
  intros Hw. unfold EncodeEthRaw. destruct (tx_Sig tx) as [|rb sig] eqn:Es; [by left|]. destruct (negb _); [by left|]. right.
  set (v := u64 _). set (r := be2z (take 32 (drop 1 _))). set (q := be2z (take 32 (drop 33 _))).
  destruct (wf_Value _ Hw) as (val & Hv & _), (wf_GasPrice _ Hw) as (p & Hp & _).
  pose proof (wf_Nonce _ Hw) as Hn. pose proof (wf_GasLimit _ Hw) as Hg. unfold is_u64 in Hn, Hg. pose proof (u64_range (tx_ChainID tx * 2 + 35 + (b2z rb - 27) mod 256)) as Hvr. fold v in Hvr.
  assert (forall l : list byte, len (take 32 l) <= 32) as Ht by (intros l; unfold len; rewrite length_take; lia).
  assert (forall l, is_u256 (be2z (take 32 l))) as Hu.
  { intros l. unfold is_u256. pose proof (be2z_range (take 32 l)) as Hr. split; [apply Hr|]. eapply Z.lt_le_trans; [apply Hr|].
    change (2 ^ 256) with (256 ^ 32). apply Z.pow_le_mono_r; [lia|apply Ht]. }
  exists (be_min v), (be_min r), (be_min q).
  assert (forall l, List l = List (map Bytes (ethStrings tx (be_min v) (be_min r) (be_min q))) -> DecodeList (List l) = Some (Ok (ethStrings tx (be_min v) (be_min r) (be_min q)))) as Hd.
  { intros l ->. apply DecodeList_List_lemma. apply Z.lt_trans with (2 ^ 62); [|done].
    apply ethStrings_len; [done|apply len_u256; unfold is_u256; lia|apply len_u256, Hu..]. }
  apply Hd. unfold ethStrings. rewrite Hv, Hp, !Uint_be_min, !Big_be_min by lia. reflexivity.
Qed.

Lemma readRaw_data tx tx' : wf_tx tx -> readRaw (rawText tx) = Ok tx' -> tx_Data tx' = tx_Data tx.
Proof.
  intros Hw. unfold readRaw, rawText. change (trim0x _) with (hex_EncodeToString (EncodeEthRaw tx)). rewrite hex_roundtrip. cbn [res_bind].
  intros E. apply ParseEthLegacyTx_inv in E as (i0 & i1 & i2 & i3 & i4 & i5 & i6 & i7 & i8 & c & recid & to & Ed & _ & _ & _ & _ & _ & _ & -> & _).
  destruct (EncodeEthRaw_carries tx Hw) as [E0|(x & y & z & E1)]; [by rewrite E0 in Ed|].
  rewrite E1 in Ed. unfold ethStrings in Ed. cbn. congruence.
Qed.

End Carried.

(** ** Runs of the relayer, request by request *)

Inductive side := LXS | Base.

#[export] Instance side_eq_dec : EqDecision side.
Proof. solve_decision. Defined.

Definition exchange : Type := side * list byte * list json.

(** The nodes answer as a function of everything asked so far. *)
Definition traced (o : list exchange -> res response) (sd : side) (method : list byte) (params : list json) (tr : list exchange)
    : list exchange * res response :=
  let tr := tr ++ [(sd, method, params)] in (tr, o tr).

Definition rawSent (sd : side) (x : exchange) : option (list byte) :=
  match x with
  | (sd', m, [JStr raw]) => if bool_decide (sd' = sd /\ m = str "eth_sendRawTransaction") then Some raw else None
  | _ => None
  end.

(** The raw transactions that were sent to a side. *)
Definition sentTo (sd : side) (tr : list exchange) : list (list byte) := omap (rawSent sd) tr.

(** A log that reports one of the events of a history. *)
Definition reports (h : list (Z * Z * Z)) (l : ethLog) : Prop :=
  exists n a v t0 more, (n, addr a, v) ∈ h /\ 0 <= n < tt256 /\ 0 <= v < tt256
    /\ lg_Topics l = t0 :: wordHex n :: wordHex (addr a) :: more /\ lg_Data l = wordHex v.

Lemma eventArgs_reports h l : reports h l -> exists n a v, eventArgs l = Some (n, a, v) /\ (n, addr a, v) ∈ h /\ 0 <= n < tt256 /\ 0 <= v < tt256.
Proof.
  intros (n & a & v & t0 & more & Hin & Hn & Hv & Ht & Hd). exists n, a, v. unfold eventArgs.
  rewrite Ht, Hd, !hexBig_wordHex, topicToAddr_word by done. done.
Qed.

Section Runs.
Context `{Crypto} (o : list exchange -> res response) (sa sb : side) (src dst : chain (E := list exchange)).
Context (topic0 : Hash) (build : buildCalldata) (sel : list byte) (h : list (Z * Z * Z)).
Hypothesis src_post : post src = traced o sa.
Hypothesis dst_post : post dst = traced o sb.
Hypothesis src_dst : sa <> sb.
Hypothesis dst_id : is_u64 (ch_chainID dst).
Hypothesis small : forall n a v data, build n a v = Ok data -> len data < 2 ^ 32.

(** The source's node reports events that happened; the destination's gas price is a word. *)
Hypothesis honest : forall tr from to logs,
  Client_Call (listC ethLogC) (o (tr ++ [(sa, str "eth_getLogs", [logFilter src topic0 from to])])) = Ok logs -> Forall (reports h) logs.
Hypothesis priced : forall tr s, Client_Call stringC (o (tr ++ [(sb, str "eth_gasPrice", [])])) = Ok s -> is_u256 (hexBig s).

(** A raw transaction whose calldata is built from an event of the history. *)
Definition carried (raw : list byte) : Prop :=
  exists n a v data, (n, addr a, v) ∈ h /\ 0 <= n < tt256 /\ 0 <= v < tt256 /\ build n a v = Ok data
    /\ forall tx, readRaw raw = Ok tx -> tx_Data tx = data.

(** The requests [new] were made, and every transaction among them is carried. *)
Definition made (tr tr' : list exchange) : Prop :=
  exists new, tr' = tr ++ new /\ sentTo sa new = [] /\ Forall carried (sentTo sb new).

Lemma made_refl tr : made tr tr.
Proof. exists []. by rewrite app_nil_r. Qed.

Lemma made_trans tr1 tr2 tr3 : made tr1 tr2 -> made tr2 tr3 -> made tr1 tr3.
Proof.
  intros (l & -> & Ha & Hb) (k & -> & Ha' & Hb'). exists (l ++ k). unfold sentTo in *. rewrite app_assoc, !omap_app, Ha, Ha'.
  split_and!; try done. by apply Forall_app.
Qed.

Lemma made_other sd m ps tr : m <> str "eth_sendRawTransaction" -> made tr (tr ++ [(sd, m, ps)]).
Proof.
  intros Hm. exists [(sd, m, ps)]. split; [done|]. assert (forall s', sentTo s' [(sd, m, ps)] = []) as E.
  { intros s'. cbn. destruct ps as [|[| | |raw| |] [|]]; try done. rewrite bool_decide_eq_false_2; [done|]. naive_solver. }
  by rewrite !E.
Qed.

Lemma call_dst {A} (out : codec A) m ps tr tr' r :
  m <> str "eth_sendRawTransaction" -> callNode out dst m ps tr = (tr', r) -> made tr tr' /\ r = Client_Call out (o (tr ++ [(sb, m, ps)])).
Proof. intros Hm. unfold callNode. rewrite dst_post. cbn. intros [= <- <-]. split; [by apply made_other|done]. Qed.

Lemma call_src {A} (out : codec A) m ps tr tr' r :
  m <> str "eth_sendRawTransaction" -> callNode out src m ps tr = (tr', r) -> made tr tr' /\ r = Client_Call out (o (tr ++ [(sa, m, ps)])).
Proof. intros Hm. unfold callNode. rewrite src_post. cbn. intros [= <- <-]. split; [by apply made_other|done]. Qed.

Lemma submit_made n a v data gp tr tr' r :
  (n, addr a, v) ∈ h -> 0 <= n < tt256 -> 0 <= v < tt256 -> build n a v = Ok data -> is_u256 gp ->
  submit dst data gp tr = (tr', r) -> made tr tr'.
Proof.
  intros Hin Hn Hv Hb Hgp. unfold submit. destruct (callNode stringC dst _ _ tr) as [tr1 r1] eqn:E1. apply call_dst in E1 as [M1 _]; [|done].
  destruct r1 as [nonceHex|e|]; [|by intros [= <- _]..]. set (tx0 := mkTx _ _ _ _ _ _ _ _ _).
  destruct (tx_Sign tx0 (ch_key dst)) as [tx|e|] eqn:Es; [|by intros [= <- _]..].
  unfold callNode. rewrite dst_post. cbn [traced]. intros [= <- _]. eapply made_trans; [exact M1|].
  unfold tx_Sign, crypto_Sign in Es. destruct (negb _) eqn:El; [done|]. cbn [res_bind] in Es. injection Es as <-.
  apply negb_false_iff, Z.eqb_eq in El. unfold SignatureLength in El.
  exists [(sb, str "eth_sendRawTransaction", [JStr (rawText (mkTx TxTypeEthLegacy (ch_chainID dst) (hexU64 nonceHex) (Some (ch_contract dst)) (Some 0) 200000 (Some gp) data
    (SignCompact (ch_key dst) (SigningHash tx0))))])].
  split; [done|]. cbn [sentTo omap list_omap rawSent]. rewrite bool_decide_eq_false_2 by naive_solver. split; [done|].
  rewrite bool_decide_eq_true_2 by done. constructor; [|constructor].
  exists n, a, v, data. refine (conj Hin (conj Hn (conj Hv (conj Hb _)))). intros tx E. apply readRaw_data in E; [exact E|].
  split; cbn [tx_Type tx_ChainID tx_Nonce tx_GasLimit tx_Value tx_GasPrice tx_Data tx_Sig];
    [unfold TxTypeEthLegacy; lia|done|apply u64_range|unfold is_u64; lia|exists 0; split; [done|unfold is_u256; lia]|by exists gp|by eapply small|lia].
Qed.

Lemma processed_made nonce tr tr' r : processed dst sel nonce tr = (tr', r) -> made tr tr'.
Proof.
  unfold processed. destruct (word nonce) as [w|e|]; [|intros [= <- _]; apply made_refl..].
  destruct (callNode stringC dst _ _ tr) as [tr1 r1] eqn:E1. apply call_dst in E1 as [M1 _]; [|done]. by intros [= <- _].
Qed.

Lemma relayLogs_made gp safe cursor logs tr tr' r :
  is_u256 gp -> Forall (reports h) logs -> relayLogs dst build sel gp safe cursor logs tr = (tr', r) -> made tr tr'.
Proof.
  intros Hgp Hl. revert tr. induction Hl as [|l logs Hl _ IH]; intros tr; cbn [relayLogs]; [intros [= <- _]; apply made_refl|].
  destruct (eventArgs_reports h l Hl) as (n & a & v & -> & Hin & Hn & Hv).
  destruct (processed dst sel n tr) as [tr1 d] eqn:E1. apply processed_made in E1.
  destruct d as [[]|e|]; [intros E; by eapply made_trans, IH| |by intros [= <- _]..].
  destruct (build n a v) as [data|e|] eqn:Eb; [|by intros [= <- _]..].
  destruct (submit dst data gp tr1) as [tr2 r2] eqn:E2. eapply submit_made in E2; [|done..].
  pose proof (made_trans _ _ _ E1 E2) as M. destruct r2 as [x|e|]; [intros E; by eapply made_trans, IH|by intros [= <- _]..].
Qed.

(** Whatever the nodes answer, a relay submits nothing but calls for events of the source. *)
Lemma relay_made sortSlice confirmations cursor tr tr' r :
  (forall l, sortSlice l ≡ₚ l) -> relay sortSlice src dst topic0 build sel confirmations cursor tr = (tr', r) -> made tr tr'.
Proof.
  intros Hsort. unfold relay, head. destruct (callNode stringC src _ _ tr) as [tr1 r1] eqn:E1. apply call_src in E1 as [M1 _]; [|done].
  destruct r1 as [s1|e|]; [|by intros [= <- _]..]. cbn [res_bind]. destruct (_ <? _); [by intros [= <- _]|].
  destruct (_ <=? _); [by intros [= <- _]|]. unfold getLogs.
  destruct (callNode (listC ethLogC) src _ _ tr1) as [tr2 r2] eqn:E2. apply call_src in E2 as [M2 Er2]; [|done].
  pose proof (made_trans _ _ _ M1 M2) as M. destruct r2 as [logs|e|]; [|by intros [= <- _]..]. symmetry in Er2. apply honest in Er2.
  unfold gasPrice. destruct (callNode stringC dst _ _ tr2) as [tr3 r3] eqn:E3. apply call_dst in E3 as [M3 Er3]; [|done].
  pose proof (made_trans _ _ _ M M3) as M'.
  assert (Forall (reports h) (sortSlice logs)) as Hl by (by rewrite Hsort).
  destruct r3 as [s3|e|]; [| |by intros [= <- _]].
  - intros E. eapply made_trans; [exact M'|]. eapply relayLogs_made; [|exact Hl|exact E]. by eapply priced.
  - intros E. eapply made_trans; [exact M'|]. eapply relayLogs_made; [|exact Hl|exact E]. unfold is_u256. lia.
Qed.

End Runs.

(** ** The bridge *)

Section Bridge.
Context `{Crypto} (lxsID baseID : Z) (vaultAt wlxsAt : Address) (key : privKey).
Hypothesis lxs_id : is_u64 lxsID.
Hypothesis base_id : is_u64 baseID.

(** The two contracts, and the raw transactions the relayer has sent to each side. *)
Record bridge : Type := mkBridge {
  b_vault : PegVault;
  b_wlxs : WrappedLXS;
  b_toBase : list (list byte);
  b_toLXS : list (list byte);
}.

Definition lxsSide (o : list exchange -> res response) : chain := mkChain lxsID vaultAt key (traced o LXS).
Definition baseSide (o : list exchange -> res response) : chain := mkChain baseID wlxsAt key (traced o Base).

(** The node of a side reports only events that its contract has emitted. *)
Definition honest (o : list exchange -> res response) (sd : side) (where_ : Address) (topic0 : Hash) (h : list (Z * Z * Z)) : Prop :=
  forall c tr from to logs, ch_contract c = where_ ->
    Client_Call (listC ethLogC) (o (tr ++ [(sd, str "eth_getLogs", [logFilter (E := list exchange) c topic0 from to])])) = Ok logs ->
    Forall (reports h) logs.

(** The gas price of a side is a word. *)
Definition priced (o : list exchange -> res response) (sd : side) : Prop :=
  forall tr s, Client_Call stringC (o (tr ++ [(sd, str "eth_gasPrice", [])])) = Ok s -> is_u256 (hexBig s).

(** Minting and releasing are the operator's, and the operator's key is the relayer's alone. *)
Definition vault_free (s : PegVault) (c : vcall) : Prop :=
  match c with VRelease sender _ _ _ _ => sender <> pv_operator s | _ => True end.
Definition wlxs_free (s : WrappedLXS) (sender : Address) (c : wcall) : Prop :=
  match c with WMint _ _ _ => sender <> wl_operator s | _ => True end.

(** A relay is placed where it reads the logs: it submits nothing before that.  A transaction that was
    sent lands at any time after, any number of times, or never. *)
Inductive bridge_step (b : bridge) : bridge -> Prop :=
  | step_vault c v' : vault_free (b_vault b) c -> PegVault_call c (b_vault b) = Good v' ->
      bridge_step b (mkBridge v' (b_wlxs b) (b_toBase b) (b_toLXS b))
  | step_wlxs sender c w' : wlxs_free (b_wlxs b) sender c -> wcall_ok c -> WrappedLXS_call (b_wlxs b) sender c = Good w' ->
      bridge_step b (mkBridge (b_vault b) w' (b_toBase b) (b_toLXS b))
  | step_mintRelay o sortSlice confirmations cursor tr r :
      honest o LXS vaultAt PegLockedTopic (locks (b_vault b)) -> priced o Base -> (forall l, sortSlice l ≡ₚ l) ->
      mintRelay sortSlice (lxsSide o) (baseSide o) confirmations cursor [] = (tr, r) ->
      bridge_step b (mkBridge (b_vault b) (b_wlxs b) (b_toBase b ++ sentTo Base tr) (b_toLXS b ++ sentTo LXS tr))
  | step_releaseRelay o sortSlice confirmations cursor tr r :
      honest o Base wlxsAt WlxsRedeemTopic (redeems (b_wlxs b)) -> priced o LXS -> (forall l, sortSlice l ≡ₚ l) ->
      releaseRelay sortSlice (lxsSide o) (baseSide o) confirmations cursor [] = (tr, r) ->
      bridge_step b (mkBridge (b_vault b) (b_wlxs b) (b_toBase b ++ sentTo Base tr) (b_toLXS b ++ sentTo LXS tr))
  | step_mint raw tx sender n to v w' :
      raw ∈ b_toBase b -> readRaw raw = Ok tx -> abiArgs mintSelector (tx_Data tx) = Some (n, to, v) ->
      WrappedLXS_call (b_wlxs b) sender (WMint n to v) = Good w' ->
      bridge_step b (mkBridge (b_vault b) w' (b_toBase b) (b_toLXS b))
  | step_release raw tx sender n to v inside v' :
      raw ∈ b_toLXS b -> readRaw raw = Ok tx -> abiArgs releaseSelector (tx_Data tx) = Some (n, to, v) ->
      PegVault_call (VRelease sender n to v inside) (b_vault b) = Good v' ->
      bridge_step b (mkBridge v' (b_wlxs b) (b_toBase b) (b_toLXS b)).

(** Both contracts deployed, and any steps since. *)
Inductive bridged : bridge -> Prop :=
  | bridged_new op op' v w : PegVault_new op = Good v -> WrappedLXS_new op' = Good w -> bridged (mkBridge v w [] [])
  | bridged_step b b' : bridged b -> bridge_step b b' -> bridged b'.

(** What was minted are locks of the vault, each once; what was released are redemptions of the token. *)
Record bridge_ok (b : bridge) : Prop := {
  bo_vault : vault_ok (b_vault b);
  bo_wlxs : wrapped_ok (b_wlxs b);
  bo_toBase : Forall (carried WlxsMintCalldata (locks (b_vault b))) (b_toBase b);
  bo_toLXS : Forall (carried PegReleaseCalldata (redeems (b_wlxs b))) (b_toLXS b);
  bo_minted : exists minted, minted ⊆ locks (b_vault b) /\ NoDup (nonces minted)
    /\ (forall n, n ∈ nonces minted -> n ∈ mintedNonce (b_wlxs b))
    /\ totalSupply (wl_token (b_wlxs b)) + sumOf (redeems (b_wlxs b)) = sumOf minted;
  bo_released : releases (b_vault b) ⊆ redeems (b_wlxs b);
}.

Lemma carried_grows build h h' raw : h ⊆ h' -> carried build h raw -> carried build h' raw.
Proof. intros Hs (n & a & v & data & Hin & Hr). exists n, a, v, data. split; [by apply Hs|exact Hr]. Qed.

Lemma carried_args build selector h raw tx n to v :
  (forall n a v data, build n a v = Ok data -> appendAll selector [uint256Word n; adr a; uint256Word v] = Ok data) ->
  length selector = 4%nat -> carried build h raw -> readRaw raw = Ok tx -> abiArgs selector (tx_Data tx) = Some (n, to, v) ->
  (n, addr to, v) ∈ h /\ 0 <= v.
Proof.
  intros Hb Hl (n' & a & v' & data & Hin & Hn & Hv & Eb & Hraw) Er Ea. apply Hraw in Er. rewrite Er in Ea.
  apply Hb in Eb. apply abiArgs_built in Eb; [|done..]. rewrite Eb in Ea. assert (n' = n /\ a = to /\ v' = v) as (-> & -> & ->) by (by split_and!; congruence).
  split; [done|lia].
Qed.

Lemma small_calldata selector n a v data :
  length selector = 4%nat -> appendAll selector [uint256Word n; adr a; uint256Word v] = Ok data -> len data < 2 ^ 32.
Proof.
  intros Hl. unfold appendAll, uint256Word, FillBytes, adr. destruct (_ <=? _); [done|]. cbn [res_bind]. destruct (_ <=? _); [done|]. cbn [res_bind].
  intros E. assert (data = ((selector ++ be_fixed 32 (Z.abs n)) ++ addrWord a) ++ be_fixed 32 (Z.abs v)) as -> by congruence.
  pose proof (len_addrWord a) as La. unfold len in *. rewrite !length_app, !length_be_fixed. lia.
Qed.

(** A call of the vault that is not the operator's release. *)
Lemma vault_free_ok v c v' : vault_ok v -> vault_free v c -> PegVault_call c v = Good v' ->
  vault_ok v' /\ releases v' = releases v /\ locks v ⊆ locks v'.
Proof.
  intros Hok Hf E. assert (extends v v') as Hx.
  { destruct c as [sender value|value|sender n to a inside]; [by eapply lock_extends| |].
    - injection E as <-. split; cbn; try done. exists []. rewrite app_nil_r, Z.sub_diag. split_and!; try done. cbn. lia.
    - exfalso. cbn [PegVault_call] in E. unfold PegVault_release in E. sol_inv E. apply array_eqb_eq in E1. by apply Hf. }
  destruct (extends_ok v v' Hok Hx) as (? & ? & l & ->). split_and!; [done|done|]. intros x Hx'. apply elem_of_app. by left.
Qed.

(** The vault moved on: more locks, and no release without a redemption. *)
Lemma vault_moved b v' : bridge_ok b -> vault_ok v' -> locks (b_vault b) ⊆ locks v' -> releases v' ⊆ redeems (b_wlxs b) ->
  bridge_ok (mkBridge v' (b_wlxs b) (b_toBase b) (b_toLXS b)).
Proof.
  intros [Hv Hw Hb Hl (minted & Hm & Hr) Hrel] Hv' Hs Hr'. split; cbn; try done.
  - eapply Forall_impl; [exact Hb|]. intros raw. by apply carried_grows.
  - exists minted. split; [set_solver|exact Hr].
Qed.

(** The token moved on: more redemptions, and no supply without a lock. *)
Lemma wlxs_moved b w' minted : bridge_ok b -> wrapped_ok w' -> redeems (b_wlxs b) ⊆ redeems w' ->
  minted ⊆ locks (b_vault b) -> NoDup (nonces minted) -> (forall n, n ∈ nonces minted -> n ∈ mintedNonce w') ->
  totalSupply (wl_token w') + sumOf (redeems w') = sumOf minted ->
  bridge_ok (mkBridge (b_vault b) w' (b_toBase b) (b_toLXS b)).
Proof.
  intros [Hv Hw Hb Hl _ Hrel] Hw' Hs Hm Hd Hn Ht. split; cbn; try done.
  - eapply Forall_impl; [exact Hl|]. intros raw. by apply carried_grows.
  - exists minted. split_and!; done.
  - set_solver.
Qed.

(** A call of the token that is not the operator's mint. *)
Lemma wlxs_free_ok b sender c w' : bridge_ok b -> wlxs_free (b_wlxs b) sender c -> wcall_ok c -> WrappedLXS_call (b_wlxs b) sender c = Good w' ->
  bridge_ok (mkBridge (b_vault b) w' (b_toBase b) (b_toLXS b)).
Proof.
  intros Hok Hf Hc E. destruct (WrappedLXS_call_ok _ _ _ _ (bo_wlxs _ Hok) Hc E) as (Hw' & _ & Heff).
  destruct (bo_minted _ Hok) as (minted & Hm & Hd & Hn & Ht).
  destruct c as [uri|n to v|v|to v|from to v|spender v]; cbn [wcall_effect wlxs_free] in *;
    [|by destruct Heff as (? & _)| | | |]; destruct Heff as (Emn & Es & Er);
    apply (wlxs_moved b w' minted); try done; rewrite ?Emn, ?Es, ?Er; try done.
  - set_solver.
  - rewrite sumOf_app. cbn. lia.
Qed.

(** A mint that lands is of a lock, and the lock was not minted before. *)
Lemma mint_ok b raw tx sender n to v w' :
  bridge_ok b -> raw ∈ b_toBase b -> readRaw raw = Ok tx -> abiArgs mintSelector (tx_Data tx) = Some (n, to, v) ->
  WrappedLXS_call (b_wlxs b) sender (WMint n to v) = Good w' -> bridge_ok (mkBridge (b_vault b) w' (b_toBase b) (b_toLXS b)).
Proof.
  intros Hok Hin Er Ea E. pose proof (bo_toBase _ Hok) as Hc. rewrite Forall_forall in Hc. specialize (Hc raw Hin).
  destruct (carried_args WlxsMintCalldata mintSelector _ _ _ _ _ _ (fun _ _ _ _ e => e) eq_refl Hc Er Ea) as [Hlock Hv].
  destruct (WrappedLXS_call_ok _ _ (WMint n to v) _ (bo_wlxs _ Hok) Hv E) as (Hw' & _ & (_ & Hnew & Emn & Es & Ered)).
  destruct (bo_minted _ Hok) as (minted & Hm & Hd & Hn & Ht).
  apply (wlxs_moved b w' ((n, addr to, v) :: minted)); try done; rewrite ?Emn, ?Es, ?Ered; try done.
  - set_solver.
  - cbn. constructor; [|done]. intros H'. by apply Hnew, Hn.
  - intros m [->|H']%elem_of_cons; [set_solver|]. apply Hn in H'. set_solver.
  - cbn [sumOf fold_right]. fold (sumOf minted). cbn. lia.
Qed.

(** A release that lands is of a redemption. *)
Lemma release_landed b raw tx sender n to v inside v' :
  bridge_ok b -> raw ∈ b_toLXS b -> readRaw raw = Ok tx -> abiArgs releaseSelector (tx_Data tx) = Some (n, to, v) ->
  PegVault_call (VRelease sender n to v inside) (b_vault b) = Good v' -> bridge_ok (mkBridge v' (b_wlxs b) (b_toBase b) (b_toLXS b)).
Proof.
  intros Hok Hin Er Ea E. pose proof (bo_toLXS _ Hok) as Hc. rewrite Forall_forall in Hc. specialize (Hc raw Hin).
  destruct (carried_args PegReleaseCalldata releaseSelector _ _ _ _ _ _ (fun _ _ _ _ e => e) eq_refl Hc Er Ea) as [Hred Hv].
  destruct (release_ok _ _ _ _ _ _ _ (bo_vault _ Hok) Hv E) as (Hv' & _ & _ & Erel & l & El).
  apply vault_moved; try done; [rewrite El; set_solver|]. rewrite Erel. pose proof (bo_released _ Hok). set_solver.
Qed.

(** A relay sends one side nothing, and the other only calls for events of the first. *)
Lemma mintRelay_sent o sortSlice confirmations cursor h tr r :
  honest o LXS vaultAt PegLockedTopic h -> priced o Base -> (forall l, sortSlice l ≡ₚ l) ->
  mintRelay sortSlice (lxsSide o) (baseSide o) confirmations cursor [] = (tr, r) ->
  sentTo LXS tr = [] /\ Forall (carried WlxsMintCalldata h) (sentTo Base tr).
Proof.
  intros Hh Hp Hs E. edestruct (relay_made o LXS Base (lxsSide o) (baseSide o)) as (new & -> & H1 & H2); try exact E; try done.
  - intros n a v data Ed. by eapply (small_calldata mintSelector).
  - intros t from to logs. by apply Hh.
Qed.

Lemma releaseRelay_sent o sortSlice confirmations cursor h tr r :
  honest o Base wlxsAt WlxsRedeemTopic h -> priced o LXS -> (forall l, sortSlice l ≡ₚ l) ->
  releaseRelay sortSlice (lxsSide o) (baseSide o) confirmations cursor [] = (tr, r) ->
  sentTo Base tr = [] /\ Forall (carried PegReleaseCalldata h) (sentTo LXS tr).
Proof.
  intros Hh Hp Hs E. edestruct (relay_made o Base LXS (baseSide o) (lxsSide o)) as (new & -> & H1 & H2); try exact E; try done.
  - intros n a v data Ed. by eapply (small_calldata releaseSelector).
  - intros t from to logs. by apply Hh.
Qed.

Lemma bridge_step_ok b b' : bridge_ok b -> bridge_step b b' -> bridge_ok b'.
Proof.
  intros Hok Hstep. destruct Hstep as [c v' Hf E|sender c w' Hf Hc E|o ss cf cu tr r Hh Hp Hs E|o ss cf cu tr r Hh Hp Hs E|raw tx sender n to v w'|raw tx sender n to v inside v'].
  - destruct (vault_free_ok _ _ _ (bo_vault _ Hok) Hf E) as (? & Er & ?). apply vault_moved; try done. rewrite Er. apply Hok.
  - by eapply wlxs_free_ok.
  - eapply mintRelay_sent in E as [-> Hc]; [|done..]. destruct Hok. split; cbn; rewrite ?app_nil_r; try done. by apply Forall_app.
  - eapply releaseRelay_sent in E as [-> Hc]; [|done..]. destruct Hok. split; cbn; rewrite ?app_nil_r; try done. by apply Forall_app.
  - by eapply mint_ok.
  - by eapply release_landed.
Qed.

Lemma bridged_ok b : bridged b -> bridge_ok b.
Proof.
  induction 1 as [op op' v w Ev Ew|b b' _ IH Hstep]; [|by eapply bridge_step_ok].
  unfold PegVault_new in Ev. unfold WrappedLXS_new in Ew. sol_inv Ev. sol_inv Ew. subst v w.
  assert (forall A (l : list A), [] ⊆ l) as Hsub by (intros A l x Hx; by apply not_elem_of_nil in Hx).
  split; cbn [b_vault b_wlxs b_toBase b_toLXS]; [| |by apply Forall_nil..| |apply Hsub].
  - split; cbn; try done; first [by apply Forall_nil|by apply NoDup_nil|intros n Hn; by apply not_elem_of_nil in Hn].
  - split; cbn; try done; first [by apply Forall_nil|apply emptyToken_ok].
  - exists []. split_and!; [apply Hsub|by apply NoDup_nil|intros n Hn; by apply not_elem_of_nil in Hn|done].
Qed.

(** C16: The peg is solvent.  The operator's key mints and releases through the relayer only; apart from that,
    after any run of the bridge - calls of the two contracts by anyone, relays in both directions against nodes
    that answer as they like but report only events that happened, submitted transactions landing late,
    repeatedly, out of order or never, recipients that call the vault again - the supply of the wrapped token
    is the sum of distinct locks less what was redeemed, every release is of its own redemption, and the
    reserve of the vault covers the supply and every redemption that is still to be paid. *)
Theorem peg_solvent b : bridged b ->
  let supply := totalSupply (wl_token (b_wlxs b)) in
  let owed := sumOf (redeems (b_wlxs b)) - sumOf (releases (b_vault b)) in
  (exists minted, minted ⊆ locks (b_vault b) /\ NoDup (nonces minted) /\ supply = sumOf minted - sumOf (redeems (b_wlxs b)))
  /\ releases (b_vault b) ⊆ redeems (b_wlxs b) /\ NoDup (nonces (releases (b_vault b)))
  /\ 0 <= owed /\ supply + owed <= reserve (b_vault b).
Proof.
  intros [Hv Hw _ _ (minted & Hm & Hd & _ & Ht) Hrel]%bridged_ok supply owed.
  pose proof (sumOf_part minted _ (vo_amounts _ Hv) Hd Hm). pose proof (sumOf_part _ _ (wo_amounts _ Hw) (vo_once _ Hv) Hrel).
  pose proof (vo_reserve _ Hv). unfold owed, supply. split_and!; [|done|apply (vo_once _ Hv)|lia..].
  exists minted. split_and!; [done|done|lia].
Qed.

End Bridge.

(** ** A run of the bridge *)

#[local] Existing Instance toyCrypto.

Definition toyAnswer (v : json) : res response := Ok (mkResponse 200 (encodeJSON clientReplyC (mkClientReply (Some v) None))).

(** Nodes at height 30 that report one log, and no nonce as processed. *)
Definition toyNodes (l : ethLog) (tr : list exchange) : res response :=
  match last tr with
  | Some (_, m, _) =>
      if bool_decide (m = str "eth_getLogs") then toyAnswer (enc (listC ethLogC) [l])
      else toyAnswer (JStr (if bool_decide (m = str "eth_call") then str "0x0" else str "0x1e"))
  | None => Err ErrTransport
  end.

Definition toyLog (n : Z) (a : Address) (v : Z) : ethLog := mkEthLog [wordHex 0; wordHex n; wordHex (addr a)] (wordHex v) (str "0x2") [].

Definition good {A} (d : A) (x : sol A) : A := match x with Good a => a | Revert _ => d end.

Definition toyVault0 : PegVault := good (mkVault ZeroAddress false 0 ∅ 0 []) (PegVault_new BurnAddress).
Definition toyWlxs0 : WrappedLXS := good (mkWrapped ZeroAddress emptyToken ∅ 0 [] false) (WrappedLXS_new BurnAddress).

(** The locker locks 5, and redeems 2 of what was minted. *)
Definition toyLocker : Address := array_of AddressLength [x05].
Definition toyVault1 : PegVault := good toyVault0 (PegVault_call (VLock toyLocker 5) toyVault0).
Definition toyMints : list (list byte) :=
  sentTo Base (mintRelay id (lxsSide 1337 ZeroAddress tt (toyNodes (toyLog 0 toyLocker 5)))
                 (baseSide 8453 ZeroAddress tt (toyNodes (toyLog 0 toyLocker 5))) 12 0 []).1.
Definition toyWlxs1 : WrappedLXS := good toyWlxs0 (WrappedLXS_call toyWlxs0 BurnAddress (WMint 0 toyLocker 5)).
Definition toyWlxs2 : WrappedLXS := good toyWlxs1 (WrappedLXS_call toyWlxs1 toyLocker (WRedeem 2)).
Definition toyReleases : list (list byte) :=
  sentTo LXS (releaseRelay id (lxsSide 1337 ZeroAddress tt (toyNodes (toyLog 0 toyLocker 2)))
                (baseSide 8453 ZeroAddress tt (toyNodes (toyLog 0 toyLocker 2))) 12 0 []).1.

(** The recipient of the release locks 1 of it again. *)
Definition toyVault2 : PegVault :=
  good toyVault1 (PegVault_call (VRelease BurnAddress 0 toyLocker 2 (Some [VLock toyLocker 1])) toyVault1).

Lemma toyNodes_honest n a v sd topic0 : n = 0 -> a = toyLocker -> v = 5 \/ v = 2 ->
  honest (toyNodes (toyLog n a v)) sd ZeroAddress topic0 [(n, addr a, v)].
Proof.
  intros -> -> Hv c tr from to logs _. unfold toyNodes. rewrite last_snoc.
  assert (Client_Call (listC ethLogC) (toyAnswer (enc (listC ethLogC) [toyLog 0 toyLocker v])) = Ok [toyLog 0 toyLocker v]) as E.
  { by destruct Hv as [-> | ->]; vm_compute. }
  rewrite bool_decide_eq_true_2 by done. rewrite E. intros E'. assert (logs = [toyLog 0 toyLocker v]) as -> by congruence.
  constructor; [|constructor]. exists 0, toyLocker, v, (wordHex 0), []. assert (0 < tt256 /\ 5 < tt256) as [H0 H5] by (split; reflexivity).
  refine (conj (list_elem_of_here _ _) (conj (conj (Z.le_refl 0) H0) (conj _ (conj eq_refl eq_refl)))). clear - Hv H5. lia.
Qed.

Lemma toyNodes_priced l sd : priced (toyNodes l) sd.
Proof.
  intros tr s. unfold toyNodes. rewrite last_snoc, !bool_decide_eq_false_2 by done.
  assert (Client_Call stringC (toyAnswer (JStr (str "0x1e"))) = Ok (str "0x1e")) as -> by (by vm_compute).
  intros E. assert (s = str "0x1e") as -> by congruence. vm_compute. split; congruence.
Qed.

Definition toyBridge : bridge := mkBridge toyVault2 toyWlxs2 toyMints toyReleases.


(** One transaction was sent, and it reads as a call. *)
Definition one_call (selector : list byte) (sent : list (list byte)) : option (Z * Address * Z) :=
  match sent with
  | [raw] => match readRaw raw with Ok tx => abiArgs selector (tx_Data tx) | _ => None end
  | _ => None
  end.

Lemma one_call_inv selector sent args : one_call selector sent = Some args ->
  exists raw tx, raw ∈ sent /\ readRaw raw = Ok tx /\ abiArgs selector (tx_Data tx) = Some args.
Proof.
  destruct sent as [|raw [|]]; try done. cbn. destruct (readRaw raw) as [tx| |] eqn:E; try done. intros Ha. exists raw, tx. split_and!; try done. by left.
Qed.

Lemma toy_sent : one_call mintSelector toyMints = Some (0, toyLocker, 5) /\ one_call releaseSelector toyReleases = Some (0, toyLocker, 2).
Proof. split; vm_compute; reflexivity. Qed.

Lemma toy_calls :
  PegVault_new BurnAddress = Good toyVault0 /\ WrappedLXS_new BurnAddress = Good toyWlxs0
  /\ PegVault_call (VLock toyLocker 5) toyVault0 = Good toyVault1 /\ WrappedLXS_call toyWlxs0 BurnAddress (WMint 0 toyLocker 5) = Good toyWlxs1
  /\ WrappedLXS_call toyWlxs1 toyLocker (WRedeem 2) = Good toyWlxs2
  /\ PegVault_call (VRelease BurnAddress 0 toyLocker 2 (Some [VLock toyLocker 1])) toyVault1 = Good toyVault2.
Proof. split_and!; vm_compute; reflexivity. Qed.

(** What one relay adds to a bridge. *)
Definition toyRun (mints : bool) (v : Z) : list exchange :=
  let o := toyNodes (toyLog 0 toyLocker v) in
  ((if mints then mintRelay else releaseRelay) id (lxsSide 1337 ZeroAddress tt o) (baseSide 8453 ZeroAddress tt o) 12 0 []).1.

Lemma toy_relay b (mints : bool) v base lxs : v = 5 \/ v = 2 ->
  (if mints then locks (b_vault b) else redeems (b_wlxs b)) = [(0, addr toyLocker, v)] ->
  sentTo Base (toyRun mints v) = base -> sentTo LXS (toyRun mints v) = lxs ->
  bridged 1337 8453 ZeroAddress ZeroAddress tt b ->
  bridged 1337 8453 ZeroAddress ZeroAddress tt (mkBridge (b_vault b) (b_wlxs b) (b_toBase b ++ base) (b_toLXS b ++ lxs)).
Proof.
  intros Hv Eh <- <- Hb. eapply bridged_step; [exact Hb|]. pose proof (toyNodes_priced (toyLog 0 toyLocker v)) as Hp.
  assert (forall l : list ethLog, id l ≡ₚ l) as Hid by done. unfold toyRun. set (o := toyNodes _).
  destruct mints; [refine (step_mintRelay _ _ _ _ _ _ o id 12 0 _ _ _ (Hp Base) Hid (surjective_pairing _))
                  |refine (step_releaseRelay _ _ _ _ _ _ o id 12 0 _ _ _ (Hp LXS) Hid (surjective_pairing _))];
    rewrite Eh; by apply toyNodes_honest.
Qed.

Lemma toyBridge_bridged : bridged 1337 8453 ZeroAddress ZeroAddress tt toyBridge.
Proof.
  destruct toy_sent as [(m & tx & Hm & Rm & Am)%one_call_inv (r & tx' & Hr & Rr & Ar)%one_call_inv].
  destruct toy_calls as (E1 & E2 & E3 & E4 & E5 & E6).
  pose proof (bridged_new 1337 8453 ZeroAddress ZeroAddress tt _ _ _ _ E1 E2) as B.
  apply (fun B => bridged_step _ _ _ _ _ _ _ B (step_vault _ _ _ _ _ (mkBridge _ _ _ _) (VLock toyLocker 5) _ I E3)) in B.
  apply (toy_relay _ true 5 toyMints []) in B; [|by left|vm_compute; reflexivity..].
  apply (fun B => bridged_step _ _ _ _ _ _ _ B (step_mint _ _ _ _ _ (mkBridge _ _ toyMints _) m tx BurnAddress 0 toyLocker 5 _ Hm Rm Am E4)) in B.
  apply (fun B => bridged_step _ _ _ _ _ _ _ B (step_wlxs _ _ _ _ _ (mkBridge _ _ _ _) toyLocker (WRedeem 2) _ I ltac:(done) E5)) in B.
  apply (toy_relay _ false 2 [] toyReleases) in B; [|by right|vm_compute; reflexivity..].
  exact (bridged_step _ _ _ _ _ _ _ B (step_release _ _ _ _ _ (mkBridge _ _ _ toyReleases) r tx' BurnAddress 0 toyLocker 2 _ _ Hr Rr Ar E6)).
Qed.

Lemma peg_solvent_witness :
  totalSupply (wl_token (b_wlxs toyBridge)) = 3 /\ reserve (b_vault toyBridge) = 4
  /\ totalSupply (wl_token (b_wlxs toyBridge)) + (sumOf (redeems (b_wlxs toyBridge)) - sumOf (releases (b_vault toyBridge))) <= reserve (b_vault toyBridge).
Proof.
  split; [vm_compute; reflexivity|]. split; [vm_compute; reflexivity|].
  apply (@peg_solvent toyCrypto 1337 8453 ZeroAddress ZeroAddress tt); [vm_compute; split; congruence..|exact toyBridge_bridged].
Defined.
